(* ===== verification/_CoqProject ===== *)
-Q . S2P
Prelude.v
Rsaeuro.v
NN.v
NNDiv.v
NNMod.v
StdLib.v
MDBuffer.v
MD4.v
MD5.v
CMD5.v
SHS.v
MD2.v
Encode.v
Random.v
NumTheory.v
RSA.v
DES.v
Prime.v
KeyGen.v
DH.v
Enhanc.v
Envelope.v
PemEnvelope.v
OSFunc.v
Enum.v
EventBuffer.v
TcpParser.v
BufferMgr.v
Stream.v
LuaNumber.v
Binary.v
Base64.v
Crc.v
UrlCode.v
Fips197.v
Rijndael.v
AESCipher.v
AESKeys.v
AESInverse.v
AES.v
QRSA.v
RSAKey.v
ObjectPool.v
CommEncrypt.v
LinkOther.v
WebSockParser.v
SHA1.v
Encrypt.v
CipherChain.v
QString.v
HandShake.v
Session.v
SessionManager.v
WorkThread.v
ThreadPool.v
SnowflakeID.v
Ini.v
QFilter.v
TableFile.v
Explore.v
SockPairEvent.v
