(* ===== verification/Prelude.v ===== *)
(** * QService: a verification library (root file)

    QService is a C++ network service with C cryptography underneath it.  This library
    models the parts that carry its own logic, the RSAEURO library ([src/QBase/RSAEuro]),
    the AES implementation ([src/QBase/rijndael]) and the service core ([src/QBase]), and
    proves what they are meant to do.

    ** The RSAEURO library

    - [Rsaeuro] ([rsaeuro.h]): status codes, limits, key and random structures.
    - [NN], [NNDiv], [NNMod] ([nn.c], [nn.h]): numbers as lists of 32-bit digits, least
      significant first, with the wrap-around of the C arithmetic: addition to shifts;
      long division; exponentiation, inverse, greatest common divisor.
    - [StdLib] ([r_stdlib.c]): the memory routines.
    - [MDBuffer] (the buffering [md4c.c] and [md5c.c] share, over a compression function),
      [MD4], [MD5], [SHS] ([shsc.c]), [MD2] ([md2c.c]): digests as streams, against the
      digest of the whole message.
    - [Encode] ([r_encode.c]): the printable encoding.
    - [Random] ([r_random.c]): the random structure.
    - [NumTheory]: the arithmetic RSA and primality rest on.
    - [RSA] ([rsa.c]), [Prime] ([prime.c]), [KeyGen] ([r_keygen.c]), [DH] ([r_dh.c]).
    - [DES] ([desc.c]): key schedule, block function and the three chaining modes.
    - [Enhanc], [Envelope], [PemEnvelope] ([r_enhanc.c]): signatures, envelopes and their
      printable form, made of the others.

    ** AES

    - [Fips197]: the cipher of the standard, on blocks of bytes.
    - [Rijndael] ([rijndael/rijndael.cpp]): the tables, key schedules and rounds of the code.
    - [AESCipher], [AESKeys], [AESInverse]: the code computes the standard's cipher, its
      schedules the standard's round keys, and decryption undoes encryption.
    - [AES] ([AES.cpp]): the coders, which pad and cut messages.

    ** The service core

    - [OSFunc], [Enum] ([OSFunc.cpp], [Macros.h], [Enum.h]): byte order and constants.
    - [EventBuffer] ([EventBuffer.cpp]): [CEventBuffer] over the class [EvBuffer], the
      operations of libevent's [evbuffer] the code uses with their documented laws.
    - [TcpParser] ([TcpParser.cpp]): length-prefixed messages.
    - [WebSockParser], [HandShake] ([WebSockParser.cpp]): frames, and the handshake, which
      uses [Base64] ([Base64.cpp]), [SHA1] ([SHA1.cpp]) and [QString] ([QString.cpp]).
    - [BufferMgr] ([BufferMgr.cpp]), [CommEncrypt] ([CommEncrypt.cpp]): the chain of
      transformations of a message; the ciphers and zlib are the class [Ciphers].
    - [QRSA] ([QRSA.cpp]), [RSAKey] ([RSAKey.cpp]): messages in blocks over the RSA
      operations, and key files.  [CMD5] ([md5.cpp]), [Crc] and [UrlCode] (parts of
      [Encrypt.cpp]).
    - [Encrypt] ([Encrypt.cpp]): [CEncrypt], the object that holds the ciphers; zlib is the
      class [Zlib].  [CipherChain] makes it an instance of [Ciphers] that meets the laws
      [CommEncrypt] asks for.
    - [Stream], [LuaNumber], [Binary] ([QString.h], [LuaBridge], [Binary.cpp]): numbers in
      decimal, Lua numbers, and structures packed from and unpacked into Lua tables.
    - [Ini] ([Ini.cpp]): configuration files.  [TableFile] ([TableFile.cpp]): tables in text
      files.  [SnowflakeID] ([SnowflakeID.cpp]): identifiers.  [QFilter] ([QFilter.cpp]): the
      filter of words.
    - [ObjectPool] ([ObjectPool.h]), [Session] ([Session.cpp]), [SessionManager]
      ([SessionManager.cpp]): sessions are objects of a pool, addresses into a store; the
      table maps a descriptor to an address, [live] holds the libevent connections not yet
      freed and [bad] counts the uses of freed or missing ones.
    - [LinkOther] ([LinkOther.cpp]): links to other servers.
    - [WorkThread] ([WorkThreadEvent.cpp]): the handlers of the event loop.
    - [ThreadPool] ([ThreadPool.cpp]): the pool's owner, its workers and the tasks, as a step
      relation with every interleaving.
    - [SockPairEvent] ([SockPairEvent.cpp], [RunStatus.h], [TimerTrigger.cpp]): the threads in
      [Start] and in [Stop] of an event loop; a finite system, explored by the verified
      search of [Explore].

    The parts interact by calls.  A read event enters [WorkThread.workThreadReadCB], which
    finds the session in the table, parses the input with [TcpParser] or [WebSockParser],
    decodes it with [CommEncrypt] and calls the application.  The application is the class
    [SessionManager.App]: a state and, for each callback, the calls it makes on the session
    manager; [SessionManager.perform] executes them, and closing calls the application
    again.  The handlers of one thread never overlap, so a run of the service is a sequence
    of [WorkThread.step]s: bytes arrive, or a handler runs to its end.

    ** What the theorems show

    - The service: every reachable state keeps the table, the pool and the connections in
      one-to-one order ([WorkThread.service_invariant], [SessionManager.sessions_safe]); every
      handler returns ([WorkThread.handlers_return]); TCP streams and WebSocket fragments reach
      the application as the messages that were sent, however they were cut
      ([tcp_stream_delivered], [ws_reassembly]).
    - The protocols: frames and encodings are read back as they were written
      ([TcpParser.frame_roundtrip], [WebSockParser.ws_frame_roundtrip],
      [Base64.base64_roundtrip], [Binary.struct_roundtrip], [UrlCode.url_roundtrip]);
      two servers with matching keys understand each other through every chain of AES, RSA
      and zlib ([CipherChain.servers_understand], by the interface theorem
      [CommEncrypt.sv_link_roundtrip] and the laws of the real ciphers); the handshake
      answers exactly the requests that ask for the upgrade ([HandShake.shakeHands_answers]);
      [SHA1.CSHA1_is_sha1] is an equivalence with the standard's definition.
    - The pool of threads: no task is lost or run twice ([ThreadPool.tasks_accounted]), the
      destructor waits for all of them ([Destroy_completes]) and can always finish
      ([Destroy_can_finish]) unless a task throws or a thread cannot be started
      ([Destroy_hangs]), but may delete the pool under its workers ([use_after_delete]).
    - Stopping an event loop: a woken [Stop] finds the loop ended, and the states in which
      [Stop] waits for ever are known exactly ([SockPairEvent.Stop_protocol]).
    - Configuration files: the table is a map without duplicates and reads back as it was
      saved, values cut at slashes ([Ini_well_formed], [Ini_lookup], [Ini_save_load]).
    - Table files: every file gives a well-formed table, and tables are read back as they
      were written ([tables_well_formed], [Parse_reads_table]); lines that are too long end
      the reading ([Parse_long_line]).
    - The word filter: only added words are overwritten and none is found afterwards
      ([checkAndModify_censors]); which words the search finds, and which it cannot
      ([checkHave_words], [overlap_missed], [prefix_missed]).
    - AES: the tables compute the standard's cipher ([AESKeys.rijndaelEncrypt_is_AES],
      [AESInverse.rijndael_roundtrip], [AES.AES_Encode_is_ECB]).
    - The library: arithmetic is exact, digests refine their definitions, the ciphers and
      the RSA operations invert each other, generated keys are key pairs, two parties agree
      on a Diffie-Hellman key, signatures verify and envelopes open.
    - Behaviour that surprises is proved as it is: overflows ([createHead_overflow],
      [ws_length_wrap]), loops without end ([Replace_termination],
      [close_inside_onSockClose], [update_loop_endless]), lengths that wrap
      ([AES.Decode_length_wraps]), refusals of valid requests ([shakeHands_connection_list]),
      messages of one client given to another ([stale_fragments]).

    ** Fuel and bounds

    Loops whose length is known are structural.  The others take fuel, and each has a
    theorem that some amount is enough: [NN_ModInv] and [NN_Gcd] run 32 rounds per digit,
    the search of [GeneratePrime] and of [R_GeneratePEMKeys] is bounded by the progression
    or by a parameter, a random non-zero byte is searched for over the counter's 2^32
    values, [R_RandomCreate] makes 128 passes, the padding of [SHA1] 64 rounds, [split_loop]
    one more than the string is long; [perform], [dispTcp] and [dispFrames] take the fuel as
    an argument, [None] meaning that it was too little, and [handlers_return] shows that
    enough exists; inflating makes one pass per byte at most ([zlib_roundtrip]), and
    [CipherChain] gives it 2^31; [Ini.readInfo] and [TableFile.Parse] one or two more than
    the file is long. Words are integers with the remainder written out; [SZ] is
    [sizeof(size_t)], 4 or 8. The chain of ciphers is followed for messages below 2 GB
    ([CipherChain.chain_bound] says how long a message may be for a given chain).

    ** Not modelled

    Sockets, logging, database access, timers, the start of the service and its HTTP
    listener are calls of the operating system and of libevent around the handlers that are
    modelled; the HTTP parser and the log only pass data on. Files appear where their
    contents matter ([RSAKey], [Ini], [TableFile]). Lua, zlib, pugixml, sqlite, mysql,
    jsoncpp, sigar, curl and the Lua C modules are vendored. Of the modelled classes the Lua
    bindings, diagnostic printing and the reading of whole files into a digest are left out,
    of [CIniFile] and [CTableFile] the floating-point values. The assembler variants of the
    RSAEURO routines and the code under [#ifndef FULL_UNROLL] of rijndael are not compiled. *)

From Stdlib Require Export ZArith List Lia Bool.
Export ListNotations.

#[global] Open Scope Z_scope.

(** ** Notations of the library *)

Declare Scope c_scope.
Delimit Scope c_scope with c.

(** C's bitwise operators on the non-negative integers that model unsigned words. *)
Infix ".&" := Z.land (at level 40, left associativity) : c_scope.
Infix ".^" := Z.lxor (at level 50, left associativity) : c_scope.
Infix ".|" := Z.lor (at level 50, left associativity) : c_scope.
Infix ".<<" := Z.shiftl (at level 39, left associativity) : c_scope.
Infix ".>>" := Z.shiftr (at level 39, left associativity) : c_scope.
#[global] Open Scope c_scope.

(** ** Machine words

    An unsigned C integer of width [w] is a [Z] in [0, 2^w); every operation that
    can leave the range is followed by the reduction the C type performs. *)

Definition w8 (x : Z) : Z := x mod 2 ^ 8.
Definition w16 (x : Z) : Z := x mod 2 ^ 16.
Definition w32 (x : Z) : Z := x mod 2 ^ 32.
Definition w64 (x : Z) : Z := x mod 2 ^ 64.
Definition not32 (x : Z) : Z := 2 ^ 32 - 1 - x.

Definition is_byte (b : Z) : Prop := 0 <= b < 2 ^ 8.
Definition is_word (d : Z) : Prop := 0 <= d < 2 ^ 32.
Abbreviation bytes := (Forall is_byte).
Abbreviation words := (Forall is_word).

Definition is_byteb (b : Z) : bool := (0 <=? b) && (b <? 2 ^ 8).
Definition is_wordb (b : Z) : bool := (0 <=? b) && (b <? 2 ^ 32).

Lemma is_byteb_spec b : is_byteb b = true <-> is_byte b.
Proof. unfold is_byteb, is_byte. rewrite andb_true_iff, Z.leb_le, Z.ltb_lt. tauto. Qed.

Lemma is_wordb_spec b : is_wordb b = true <-> is_word b.
Proof. unfold is_wordb, is_word. rewrite andb_true_iff, Z.leb_le, Z.ltb_lt. tauto. Qed.

(** Closed lists are checked to be bytes or words by evaluation. *)
Lemma bytes_check l : forallb is_byteb l = true -> bytes l.
Proof.
  rewrite forallb_forall, Forall_forall. intros H x Hx. now apply is_byteb_spec, H.
Qed.

Lemma words_check l : forallb is_wordb l = true -> words l.
Proof.
  rewrite forallb_forall, Forall_forall. intros H x Hx. now apply is_wordb_spec, H.
Qed.

(** Splits conjunctions only, without unfolding. *)
Ltac splits := repeat match goal with |- _ /\ _ => split end.

(** Splits an equation of lists given cell by cell. *)
Ltac cons_eq :=
  repeat match goal with |- _ :: _ = _ :: _ => apply f_equal2 end; try reflexivity.

Ltac check_bytes := apply bytes_check; vm_compute; reflexivity.
Ltac check_words := apply words_check; vm_compute; reflexivity.

Lemma w32_word x : is_word (w32 x).
Proof. apply Z.mod_pos_bound; lia. Qed.

Lemma w8_byte x : is_byte (w8 x).
Proof. apply Z.mod_pos_bound; lia. Qed.

Lemma w32_small x : is_word x -> w32 x = x.
Proof. apply Z.mod_small. Qed.

Lemma w8_small x : is_byte x -> w8 x = x.
Proof. apply Z.mod_small. Qed.

Lemma byte_word x : is_byte x -> is_word x.
Proof. unfold is_byte, is_word. lia. Qed.

Lemma w32_idemp_l a b : w32 (w32 a + b) = w32 (a + b).
Proof. unfold w32. apply Zplus_mod_idemp_l. Qed.

Lemma w32_idemp_r a b : w32 (a + w32 b) = w32 (a + b).
Proof. unfold w32. apply Zplus_mod_idemp_r. Qed.

Lemma word_0 : is_word 0.
Proof. unfold is_word; lia. Qed.

Lemma byte_0 : is_byte 0.
Proof. unfold is_byte; lia. Qed.

Create HintDb words.
#[export] Hint Resolve word_0 byte_0 w32_word w8_byte byte_word : words.

(** ** Arrays

    A C array is the list of its cells. Functions that write a prefix of an array
    return the array with that prefix replaced; reading past the modelled cells
    gives 0, which no theorem relies on. *)

Definition store {A} (a r : list A) : list A := r ++ skipn (length r) a.

Lemma length_store {A} (a r : list A) :
  (length r <= length a)%nat -> length (store a r) = length a.
Proof. intros. unfold store. rewrite length_app, length_skipn. lia. Qed.

Lemma Forall_firstn {A} (P : A -> Prop) n l : Forall P l -> Forall P (firstn n l).
Proof.
  revert l; induction n; intros [|x l] H; simpl; auto; inversion H; constructor; auto.
Qed.

Lemma Forall_skipn {A} (P : A -> Prop) n l : Forall P l -> Forall P (skipn n l).
Proof.
  revert l; induction n; intros [|x l] H; simpl; auto; inversion H; auto.
Qed.

Lemma Forall_tl {A} (P : A -> Prop) l : Forall P l -> Forall P (tl l).
Proof. destruct 1; simpl; auto. Qed.

Lemma Forall_store {A} (P : A -> Prop) a r : Forall P a -> Forall P r -> Forall P (store a r).
Proof. intros. unfold store. apply Forall_app; auto using Forall_skipn. Qed.

Lemma firstn_store {A} (a r : list A) : firstn (length r) (store a r) = r.
Proof. unfold store. now rewrite firstn_app, Nat.sub_diag, firstn_all, app_nil_r. Qed.

Lemma firstn_plus {A} a b (l : list A) : firstn (a + b) l = firstn a l ++ firstn b (skipn a l).
Proof. revert l; induction a; intros [|x l]; simpl; auto using firstn_nil. now rewrite IHa. Qed.

Lemma Forall_repeat {A} (P : A -> Prop) x n : P x -> Forall P (repeat x n).
Proof. intros; induction n; simpl; auto. Qed.

Lemma Forall_hd P d l : Forall P l -> P d -> P (hd d l : Z).
Proof. destruct 1; simpl; auto. Qed.

Lemma Forall_nth_d P d l i : Forall P l -> P d -> P (nth i l d : Z).
Proof. intros H; revert i; induction H; intros [|i] Hd; simpl; auto. Qed.

Lemma hd_word l : words l -> is_word (hd 0 l).
Proof. intros; apply Forall_hd; auto. unfold is_word; lia. Qed.

Lemma nth_word l i : words l -> is_word (nth i l 0).
Proof. intros; apply Forall_nth_d; auto. unfold is_word; lia. Qed.

#[export] Hint Resolve Forall_firstn Forall_skipn Forall_tl Forall_store Forall_repeat
  hd_word nth_word : words.

Lemma firstn_app_len {A} (a b : list A) : firstn (length a) (a ++ b) = a.
Proof. rewrite firstn_app, firstn_all, Nat.sub_diag. apply app_nil_r. Qed.

Lemma skipn_app_len {A} (a b : list A) : skipn (length a) (a ++ b) = b.
Proof. rewrite skipn_app, skipn_all, Nat.sub_diag. reflexivity. Qed.

Lemma skipn_repeat {A} (x : A) n m : skipn n (repeat x m) = repeat x (m - n).
Proof. revert m; induction n; intros [|m]; simpl; auto. Qed.

(** The first [n] cells of an array, as a loop that reads them one by one does. *)
Fixpoint cells (n : nat) (a : list Z) : list Z :=
  match n with
  | O => []
  | S k => hd 0 a :: cells k (tl a)
  end.

Lemma length_cells n a : length (cells n a) = n.
Proof. revert a; induction n; intros; simpl; auto. Qed.

Lemma Forall_cells (P : Z -> Prop) n a : P 0 -> Forall P a -> Forall P (cells n a).
Proof.
  intros H0. revert a; induction n; intros a Ha; simpl; auto.
  constructor; [now apply Forall_hd|]. apply IHn. now apply Forall_tl.
Qed.

Lemma words_cells n a : words a -> words (cells n a).
Proof. apply Forall_cells, word_0. Qed.

Lemma bytes_cells n a : bytes a -> bytes (cells n a).
Proof. apply Forall_cells, byte_0. Qed.

Lemma cells_all a : cells (length a) a = a.
Proof. induction a; simpl; congruence. Qed.

Lemma cells_firstn n a : (n <= length a)%nat -> cells n a = firstn n a.
Proof. revert a; induction n; intros [|x a] H; simpl in *; auto; try lia. rewrite IHn; auto. lia. Qed.

#[export] Hint Resolve words_cells bytes_cells : words.

Lemma hd_nth (l : list Z) : hd 0 l = nth 0 l 0.
Proof. now destruct l. Qed.

Lemma tl_skipn {A} i (l : list A) : tl (skipn i l) = skipn (S i) l.
Proof. revert l; induction i as [|i IH]; intros [|x l]; try reflexivity. apply IH. Qed.

(** Reading [k] cells from cell [i] only depends on the first [i + k]. *)
Lemma cells_prefix k i n (l : list Z) : (i + k <= n)%nat ->
  cells k (skipn i (firstn n l)) = cells k (skipn i l).
Proof.
  revert i; induction k as [|k IH]; intros i H; cbn [cells]; [reflexivity|].
  rewrite !tl_skipn, IH by lia. f_equal.
  rewrite !hd_nth, !nth_skipn, nth_firstn.
  now rewrite (proj2 (Nat.ltb_lt _ _)) by lia.
Qed.

Lemma cells_plus a b (l : list Z) : cells (a + b) l = cells a l ++ cells b (skipn a l).
Proof.
  revert l; induction a as [|a IH]; intros; cbn [plus cells app]; [reflexivity|].
  rewrite IH. destruct l; [now rewrite skipn_nil|reflexivity].
Qed.

(** A function applied to the array that starts at cell [i], [f(&a[i])]. *)
Definition at_ptr (i : nat) (f : list Z -> list Z) (a : list Z) : list Z :=
  firstn i a ++ f (skipn i a).

(** Cell [i] of the array replaced, [a[i] = x]; nothing happens out of range. *)
Fixpoint upd {A} (a : list A) (i : nat) (x : A) : list A :=
  match a, i with
  | [], _ => []
  | _ :: a', O => x :: a'
  | y :: a', S i' => y :: upd a' i' x
  end.

Lemma length_upd {A} (a : list A) i x : length (upd a i x) = length a.
Proof. revert i; induction a; intros [|i]; simpl; auto. Qed.

Lemma Forall_upd {A} (P : A -> Prop) a i x : Forall P a -> P x -> Forall P (upd a i x).
Proof. intros H; revert i; induction H; intros [|i] Hx; simpl; auto. Qed.

Lemma nth_upd_eq {A} (a : list A) i x d : (i < length a)%nat -> nth i (upd a i x) d = x.
Proof. revert i; induction a; intros [|i] H; simpl in *; auto; try lia. apply IHa; lia. Qed.

Lemma nth_upd_ne {A} (a : list A) i j x d : i <> j -> nth j (upd a i x) d = nth j a d.
Proof.
  revert i j; induction a; intros [|i] [|j] H; simpl in *; auto; try lia.
Qed.

Lemma firstn_upd {A} (a : list A) n x : (n < length a)%nat -> firstn (n + 1) (upd a n x) = firstn n a ++ [x].
Proof.
  revert n; induction a as [|y a IH]; intros [|n] H; cbn [length] in H; try lia; [reflexivity|].
  cbn [upd plus firstn app]. now rewrite IH by lia.
Qed.

#[export] Hint Resolve Forall_upd : words.

(** ** Loops

    [loop n step s] runs [step] at most [2^n] times, stopping as soon as it
    answers [inr]. The bound is exponential in [n], so a loop whose measure is a
    machine word is given fuel 32 or 64, and the model still evaluates. *)

Fixpoint loop {St R : Type} (n : nat) (step : St -> St + R) (s : St) : St + R :=
  match n with
  | O => step s
  | S n' =>
      match loop n' step s with
      | inl s' => loop n' step s'
      | inr r => inr r
      end
  end.

(** The result of a loop, [None] when the fuel ran out. *)
Definition run {St R : Type} (n : nat) (step : St -> St + R) (s : St) : option R :=
  match loop n step s with
  | inl _ => None
  | inr r => Some r
  end.

Section Loops.
Context {St R : Type} (step : St -> St + R) (Inv : St -> Prop) (m : St -> Z) (Post : R -> Prop).
Hypothesis step_ok : forall s, Inv s ->
  match step s with
  | inl s' => Inv s' /\ 0 <= m s' < m s
  | inr r => Post r
  end.

Lemma loop_progress n s : Inv s ->
  match loop n step s with
  | inl s' => Inv s' /\ 0 <= m s' <= m s - 2 ^ Z.of_nat n
  | inr r => Post r
  end.
Proof using step_ok.
  revert s; induction n as [|n IH]; intros s Hs; cbn [loop].
  - specialize (step_ok s Hs). destruct (step s); intuition lia.
  - specialize (IH s Hs) as H1. destruct (loop n step s) as [s1|r]; [|exact H1].
    destruct H1 as [H1 M1]. specialize (IH s1 H1).
    destruct (loop n step s1) as [s2|r]; [|exact IH].
    destruct IH as [H2 M2]. split; [exact H2|].
    rewrite Nat2Z.inj_succ, Z.pow_succ_r by lia. lia.
Qed.

(** Rule for loops: an invariant and a measure below [2^n] give termination
    and the postcondition. *)
Lemma run_total n s : Inv s -> m s < 2 ^ Z.of_nat n ->
  exists r, run n step s = Some r /\ Post r.
Proof using step_ok.
  intros Hs Hm. unfold run. pose proof (loop_progress n s Hs) as H.
  destruct (loop n step s) as [s'|r]; [exfalso; lia|eauto].
Qed.
End Loops.

(** Partial correctness of a loop that may exhaust its fuel. *)
Lemma run_partial {St R} (step : St -> St + R) (Inv : St -> Prop) (Post : R -> Prop) n s r :
  (forall s, Inv s -> match step s with inl s' => Inv s' | inr r => Post r end) ->
  Inv s -> run n step s = Some r -> Post r.
Proof.
  intros Hstep Hs. unfold run.
  assert (H : match loop n step s with inl s' => Inv s' | inr r => Post r end).
  { revert s Hs; induction n as [|n IH]; intros s Hs; simpl; [exact (Hstep s Hs)|].
    specialize (IH s Hs) as H1. destruct (loop n step s) as [s1|]; [exact (IH s1 H1)|exact H1]. }
  destruct (loop n step s); [discriminate|]. intros [= <-]. exact H.
Qed.

(** ** The option monad *)

Definition obind {A B} (x : option A) (f : A -> option B) : option B :=
  match x with Some a => f a | None => None end.

Notation "'let?' x ':=' e 'in' k" := (obind e (fun x => k))
  (at level 10, x pattern, e at level 200, k at level 200) : c_scope.

Lemma obind_Some {A B} (x : option A) (f : A -> option B) a :
  x = Some a -> obind x f = f a.
Proof. now intros ->. Qed.

(** ** Arithmetic *)

Lemma pow_pos_2 n : 0 < 2 ^ Z.of_nat n.
Proof. apply Z.pow_pos_nonneg; lia. Qed.

Lemma div_add_small q r d : 0 <= r < d -> (q * d + r) / d = q.
Proof. intros. symmetry. apply Z.div_unique_pos with r; lia. Qed.

Lemma mod_add_small q r d : 0 <= r < d -> (q * d + r) mod d = r.
Proof. intros. symmetry. apply Z.mod_unique_pos with q; lia. Qed.

(** Bitwise or of disjoint fields, and shifts. *)
Lemma lor_add a b n : 0 <= n -> 0 <= a < 2 ^ n -> a .| b .<< n = a + b * 2 ^ n.
Proof.
  intros Hn Ha. rewrite Z.shiftl_mul_pow2 by lia.
  rewrite <- Z.lxor_lor, <- Z.add_nocarry_lxor; auto; apply Z.bits_inj'; intros i Hi;
    rewrite Z.land_spec, Z.bits_0, <- Z.shiftl_mul_pow2, Z.shiftl_spec by lia;
    (destruct (Z.ltb_spec i n);
      [rewrite (Z.testbit_neg_r b) by lia; apply andb_false_r|];
     rewrite <- (Z.mod_small a (2 ^ n)) by lia;
     rewrite Z.mod_pow2_bits_high by lia; reflexivity).
Qed.

Lemma shiftl_lor_add a b n : 0 <= n -> 0 <= a < 2 ^ n -> b .<< n .| a = b * 2 ^ n + a.
Proof. intros. rewrite Z.lor_comm, lor_add; lia. Qed.

Lemma mul_lor_add n a b : 0 <= n -> 0 <= b < 2 ^ n -> (a * 2 ^ n) .| b = a * 2 ^ n + b.
Proof. intros. rewrite <- (shiftl_lor_add b a n) by lia. now rewrite Z.shiftl_mul_pow2 by lia. Qed.

Lemma shiftr_div a n : 0 <= n -> a .>> n = a / 2 ^ n.
Proof. intros. apply Z.shiftr_div_pow2; lia. Qed.

(** Numbers below a power of two, by their bits. *)
Lemma lt_pow2_bits n x : 0 <= n -> 0 <= x ->
  x < 2 ^ n <-> forall i, n <= i -> Z.testbit x i = false.
Proof.
  intros Hn Hx. split.
  - intros H i Hi. rewrite <- (Z.mod_small x (2 ^ n)) by lia.
    apply Z.mod_pow2_bits_high. lia.
  - intros H. replace x with (x mod 2 ^ n); [apply Z.mod_pos_bound, Z.pow_pos_nonneg; lia|].
    apply Z.bits_inj'. intros i Hi. destruct (Z.lt_ge_cases i n).
    + now apply Z.mod_pow2_bits_low.
    + rewrite Z.mod_pow2_bits_high, H by lia. reflexivity.
Qed.

Lemma word_bits x : is_word x <-> 0 <= x /\ forall i, 32 <= i -> Z.testbit x i = false.
Proof.
  unfold is_word. split; intros [H0 H]; split; auto; now apply lt_pow2_bits.
Qed.

Lemma word_ext x y : is_word x -> is_word y ->
  (forall i, 0 <= i < 32 -> Z.testbit x i = Z.testbit y i) -> x = y.
Proof.
  intros Hx Hy H. apply word_bits in Hx, Hy. apply Z.bits_inj'. intros i Hi.
  destruct (Z.lt_ge_cases i 32); [apply H; lia|].
  rewrite (proj2 Hx), (proj2 Hy) by lia. reflexivity.
Qed.

Lemma word_lor x y : is_word x -> is_word y -> is_word (x .| y).
Proof.
  rewrite !word_bits. intros [Hx Bx] [Hy By]. split; [now apply Z.lor_nonneg|].
  intros i Hi. now rewrite Z.lor_spec, Bx, By.
Qed.

Lemma word_lxor x y : is_word x -> is_word y -> is_word (x .^ y).
Proof.
  rewrite !word_bits. intros [Hx Bx] [Hy By]. split; [apply Z.lxor_nonneg; tauto|].
  intros i Hi. now rewrite Z.lxor_spec, Bx, By.
Qed.

Lemma word_land x y : is_word x -> 0 <= y -> is_word (x .& y).
Proof.
  rewrite !word_bits. intros [Hx Bx] Hy. split; [apply Z.land_nonneg; tauto|].
  intros i Hi. now rewrite Z.land_spec, Bx.
Qed.

Lemma word_shiftr x n : is_word x -> 0 <= n -> is_word (x .>> n).
Proof.
  unfold is_word. intros Hx Hn. rewrite Z.shiftr_div_pow2 by auto.
  pose proof (Z.pow_pos_nonneg 2 n ltac:(lia) Hn).
  split; [apply Z.div_pos; lia|]. apply Z.div_lt_upper_bound; nia.
Qed.

Lemma word_not32 x : is_word x -> is_word (not32 x).
Proof. unfold is_word, not32. lia. Qed.

#[export] Hint Resolve word_lor word_lxor word_not32 : words.

Lemma w32_testbit x i : 0 <= i < 32 -> Z.testbit (w32 x) i = Z.testbit x i.
Proof. intros. apply Z.mod_pow2_bits_low. lia. Qed.

Lemma byte_testbit b i : is_byte b -> 8 <= i -> Z.testbit b i = false.
Proof. intros H Hi. apply (lt_pow2_bits 8); unfold is_byte in H; lia. Qed.

Lemma byte_lxor x y : is_byte x -> is_byte y -> is_byte (x .^ y).
Proof.
  intros Hx Hy. pose proof (word_lxor x y (byte_word _ Hx) (byte_word _ Hy)) as [H0 _].
  split; [exact H0|]. apply (lt_pow2_bits 8 (x .^ y)); [lia|exact H0|]. intros i Hi. rewrite Z.lxor_spec.
  now rewrite (byte_testbit x), (byte_testbit y).
Qed.

(** ** Byte strings as numbers *)

(** Little-endian and big-endian value of a byte string. *)
Fixpoint le (l : list Z) : Z :=
  match l with
  | [] => 0
  | x :: r => x + 2 ^ 8 * le r
  end.

Definition be (l : list Z) : Z := le (rev l).

(** The weight of byte [n]. *)
Definition Pn (n : nat) : Z := 2 ^ (8 * Z.of_nat n).

Lemma Pn_0 : Pn 0 = 1.
Proof. reflexivity. Qed.

Lemma Pn_S n : Pn (S n) = 2 ^ 8 * Pn n.
Proof. unfold Pn. rewrite Nat2Z.inj_succ, Z.mul_succ_r, Z.pow_add_r by lia. lia. Qed.

Lemma Pn_add n m : Pn (n + m) = Pn n * Pn m.
Proof. unfold Pn. rewrite Nat2Z.inj_add, Z.mul_add_distr_l, Z.pow_add_r by lia. lia. Qed.

Lemma Pn_pos n : 0 < Pn n.
Proof. apply Z.pow_pos_nonneg; lia. Qed.

Lemma Pn_mono n m : (n <= m)%nat -> Pn n <= Pn m.
Proof. intros. apply Z.pow_le_mono_r; lia. Qed.

Lemma le_app a b : le (a ++ b) = le a + Pn (length a) * le b.
Proof.
  induction a as [|x a IH]; [cbn [le app length]; rewrite Pn_0; lia|].
  cbn [app le length]. rewrite IH, Pn_S. lia.
Qed.

Lemma le_bound l : bytes l -> 0 <= le l < Pn (length l).
Proof.
  induction 1 as [|x l Hx _ IH]; [cbn; lia|].
  cbn [le length]. rewrite Pn_S. unfold is_byte in Hx. lia.
Qed.

Lemma le_inj a b : bytes a -> bytes b -> length a = length b -> le a = le b -> a = b.
Proof.
  intros Ha; revert b; induction Ha as [|x a Hx Ha IH]; intros [|y b] Hb L E; try discriminate; auto.
  inversion Hb; subst. cbn [le length] in *. unfold is_byte in *.
  pose proof (le_bound a Ha). pose proof (le_bound b ltac:(assumption)).
  f_equal; [lia|]. apply IH; auto. lia.
Qed.

Lemma le_repeat0 n : le (repeat 0 n) = 0.
Proof. induction n; cbn [repeat le]; lia. Qed.

Lemma le_firstn_mod n l : bytes l -> le (firstn n l) = le l mod Pn (length (firstn n l)).
Proof.
  intros H. rewrite <- (firstn_skipn n l) at 2. rewrite le_app.
  rewrite Z.add_comm, Z.mul_comm. symmetry. apply mod_add_small.
  apply le_bound. auto with words.
Qed.

Lemma be_inj a b : bytes a -> bytes b -> length a = length b -> be a = be b -> a = b.
Proof.
  intros Ha Hb L E. rewrite <- (rev_involutive a), <- (rev_involutive b). f_equal.
  apply le_inj; [now apply Forall_rev|now apply Forall_rev|now rewrite !length_rev|exact E].
Qed.

Lemma be_bound l : bytes l -> 0 <= be l < Pn (length l).
Proof. intros. rewrite <- length_rev. apply le_bound. now apply Forall_rev. Qed.

Lemma be_cons x l : be (x :: l) = x * Pn (length l) + be l.
Proof. unfold be. cbn [rev]. rewrite le_app, length_rev. cbn [le]. lia. Qed.

Lemma be_app a b : be (a ++ b) = be a * Pn (length b) + be b.
Proof. unfold be. rewrite rev_app_distr, le_app, length_rev. lia. Qed.

(** ** Byte order

    The hosts the code runs on are little endian: [le_bytes n x] is how an [n]-byte
    unsigned integer lies in memory, and the system's [ntohs] and [ntohl] reverse that
    order (the same function serves both directions). *)

Fixpoint le_bytes (n : nat) (x : Z) : list Z :=
  match n with O => [] | S n' => x mod 2 ^ 8 :: le_bytes n' (x / 2 ^ 8) end.

Definition ntohs (x : Z) : Z := be (le_bytes 2 x).
Definition ntohl (x : Z) : Z := be (le_bytes 4 x).

(** [char] is signed on these hosts. *)
Definition sx8 (b : Z) : Z := if b <? 2 ^ 7 then b else b - 2 ^ 8.

Lemma length_le_bytes n x : length (le_bytes n x) = n.
Proof. revert x. induction n; intros x; cbn; auto. Qed.

Lemma bytes_le_bytes n x : bytes (le_bytes n x).
Proof.
  revert x. induction n; intros x; cbn [le_bytes]; constructor; auto. apply Z.mod_pos_bound; lia.
Qed.

Lemma le_le_bytes n x : le (le_bytes n x) = x mod Pn n.
Proof.
  revert x. induction n; intros x; [rewrite Pn_0, Z.mod_1_r; reflexivity|].
  cbn [le_bytes le]. rewrite IHn, Pn_S. pose proof (Pn_pos n).
  rewrite Z.rem_mul_r by lia. lia.
Qed.

Lemma le_bytes_le l : bytes l -> le_bytes (length l) (le l) = l.
Proof.
  intros H. apply le_inj; auto using bytes_le_bytes, length_le_bytes.
  rewrite le_le_bytes. apply Z.mod_small, le_bound, H.
Qed.

Lemma bytes_rev l : bytes l -> bytes (rev l).
Proof. apply Forall_rev. Qed.

Lemma be_le_bytes_le l : bytes l -> be (le_bytes (length l) (le l)) = be l.
Proof. intros H. rewrite le_bytes_le by exact H. reflexivity. Qed.

Lemma le_bytes_be n x : le_bytes n (be (le_bytes n x)) = rev (le_bytes n x).
Proof.
  unfold be. rewrite <- (length_le_bytes n x) at 1. rewrite <- length_rev.
  apply le_bytes_le, bytes_rev, bytes_le_bytes.
Qed.

Lemma be_rev_le_bytes n x : be (rev (le_bytes n x)) = x mod Pn n.
Proof. unfold be. rewrite rev_involutive. apply le_le_bytes. Qed.

Lemma le_bytes_mod n x : le_bytes n (x mod Pn n) = le_bytes n x.
Proof.
  rewrite <- le_le_bytes. rewrite <- (length_le_bytes n x) at 1. apply le_bytes_le, bytes_le_bytes.
Qed.

#[export] Hint Resolve bytes_le_bytes bytes_rev : words.

(** ** Searching in a list *)

(** [sub_at l w i]: the bytes [w] occur in [l] at offset [i]. *)
Definition sub_at (l w : list Z) (i : nat) : Prop := firstn (length w) (skipn i l) = w.

Definition is_prefixb (w l : list Z) : bool :=
  if list_eq_dec Z.eq_dec (firstn (length w) l) w then true else false.

Fixpoint find (l w : list Z) (i : Z) : Z :=
  if is_prefixb w l then i
  else match l with [] => -1 | _ :: l' => find l' w (i + 1) end.

Lemma is_prefixb_spec w l : is_prefixb w l = true <-> firstn (length w) l = w.
Proof. unfold is_prefixb. destruct (list_eq_dec _ _ _); intuition congruence. Qed.

Lemma sub_at_S x l w i : sub_at (x :: l) w (S i) <-> sub_at l w i.
Proof. reflexivity. Qed.

Lemma find_found l w : forall i k, 0 <= i -> find l w i = k -> k <> -1 ->
  i <= k /\ (Z.to_nat (k - i) + length w <= length l)%nat /\ sub_at l w (Z.to_nat (k - i)) /\
  forall j, (j < Z.to_nat (k - i))%nat -> ~ sub_at l w j.
Proof.
  induction l as [|x l IH]; intros i k Hi; cbn [find]; destruct (is_prefixb w _) eqn:E; intros <- Hk.
  1, 3: rewrite Z.sub_diag; apply is_prefixb_spec in E; splits;
    [lia | | exact E | cbn; lia]; apply (f_equal (@length Z)) in E;
    rewrite length_firstn in E; cbn [length Z.to_nat] in *; lia.
  - congruence.
  - destruct (IH (i + 1) _ ltac:(lia) eq_refl Hk) as (H1 & H2 & H3 & H4).
    replace (Z.to_nat (find l w (i + 1) - i)) with (S (Z.to_nat (find l w (i + 1) - (i + 1)))) by lia.
    splits; [lia | cbn [length]; lia | exact H3 |].
    intros [|j] Hj; [|rewrite sub_at_S; apply H4; lia].
    unfold sub_at. cbn [skipn]. rewrite <- is_prefixb_spec. congruence.
Qed.

Lemma find_missing l w : forall i j, 0 <= i -> find l w i = -1 -> w <> [] -> ~ sub_at l w j.
Proof.
  induction l as [|x l IH]; intros i j Hi; cbn [find]; destruct (is_prefixb w _) eqn:E;
    intros H Hw Hs; try lia.
  - unfold sub_at in Hs. rewrite skipn_nil, firstn_nil in Hs. congruence.
  - destruct j; [unfold sub_at in Hs; cbn [skipn] in Hs; apply is_prefixb_spec in Hs; congruence|].
    exact (IH (i + 1) j ltac:(lia) H Hw Hs).
Qed.
