(* ===== verification/Rsaeuro.v ===== *)
(** * Rsaeuro: the public header of the library (src/QBase/RSAEuro/rsaeuro.h)

    Status codes, algorithm identifiers, size limits and the structures the
    modules share. *)

From S2P Require Import Prelude.

Definition DA_MD2 : Z := 2.
Definition DA_SHS : Z := 3.
Definition DA_MD4 : Z := 4.
Definition DA_MD5 : Z := 5.

Definition EA_DES_CBC : Z := 1.
Definition EA_DES_EDE2_CBC : Z := 2.
Definition EA_DES_EDE3_CBC : Z := 3.
Definition EA_DESX_CBC : Z := 4.

Definition MIN_RSA_MODULUS_BITS : Z := 508.
Definition MAX_RSA_MODULUS_BITS : Z := 1024.
Definition MAX_RSA_MODULUS_LEN : nat := 128.
Definition MAX_RSA_PRIME_LEN : nat := 64.
Definition MAX_DIGEST_LEN : nat := 20.
Definition MAX_SIGNATURE_LEN : Z := 128.
Definition MAX_ENCRYPTED_KEY_LEN : Z := 128.

Definition ENCODED_CONTENT_LEN (len : Z) : Z := 4 * len / 3 + 3.
Definition ENCRYPTED_CONTENT_LEN (len : Z) : Z := ENCODED_CONTENT_LEN (len + 8).
Definition DECODED_CONTENT_LEN (len : Z) : Z := 3 * len / 4 + 1.
Definition MAX_PEM_SIGNATURE_LEN : Z := ENCODED_CONTENT_LEN MAX_SIGNATURE_LEN.
Definition MAX_PEM_ENCRYPTED_KEY_LEN : Z := ENCODED_CONTENT_LEN MAX_ENCRYPTED_KEY_LEN.

Definition RE_CONTENT_ENCODING : Z := 0x0400.
Definition RE_DATA : Z := 0x0401.
Definition RE_DIGEST_ALGORITHM : Z := 0x0402.
Definition RE_ENCODING : Z := 0x0403.
Definition RE_KEY : Z := 0x0404.
Definition RE_KEY_ENCODING : Z := 0x0405.
Definition RE_LEN : Z := 0x0406.
Definition RE_MODULUS_LEN : Z := 0x0407.
Definition RE_NEED_RANDOM : Z := 0x0408.
Definition RE_PRIVATE_KEY : Z := 0x0409.
Definition RE_PUBLIC_KEY : Z := 0x040a.
Definition RE_SIGNATURE : Z := 0x040b.
Definition RE_SIGNATURE_ENCODING : Z := 0x040c.
Definition RE_ENCRYPTION_ALGORITHM : Z := 0x040d.
Definition ID_OK : Z := 0.

(** The random structure. *)
Record R_RANDOM_STRUCT := mkRandom {
  bytesNeeded : Z; rstate : list Z; outputAvailable : nat; output : list Z }.

(** Keys are fixed-width big-endian byte strings. *)
Record R_RSA_PUBLIC_KEY := mkPublicKey {
  pub_bits : Z; pub_modulus : list Z; pub_exponent : list Z }.

Record R_RSA_PRIVATE_KEY := mkPrivateKey {
  priv_bits : Z; priv_modulus : list Z; publicExponent : list Z; priv_exponent : list Z;
  prime0 : list Z; prime1 : list Z; primeExponent0 : list Z; primeExponent1 : list Z;
  coefficient : list Z }.

Record R_RSA_PROTO_KEY := mkProtoKey { proto_bits : Z; useFermat4 : bool }.

(** Diffie-Hellman parameters. *)
Record R_DH_PARAMS := mkDHParams { dh_prime : list Z; dh_primeLen : nat; dh_generator : list Z; dh_generatorLen : nat }.
