(* ===== verification/NN.v ===== *)
(** * NN: the natural-number routines of RSAEURO (src/QBase/RSAEuro/nn.c), part 1

    Digit arrays, their conversions to and from byte strings, and the routines
    that work one digit at a time: assignment, comparison, length, shifts,
    addition, subtraction and multiplication. Every C function [NN_f (a, ...)] is
    a function [NN_f a ...] that takes the old contents of the destination and
    returns the new ones, so that the callers read as in C. The loops walk the
    pointers the way the C code does: [*b++] is [hd 0 b] followed by [tl b].
    Division is in NNDiv.v, the modular routines are in NNMod.v. *)

From S2P Require Import Prelude.

(** ** nn.h *)

Definition NN_DIGIT_BITS : Z := 32.
Definition NN_DIGIT_LEN : Z := 4.
Definition MAX_NN_DIGITS : nat := 33.
Definition MAX_NN_DIGIT : Z := 0xffffffff.
Definition MAX_NN_HALF_DIGIT : Z := 0xffff.

Definition LOW_HALF (x : Z) : Z := x .& MAX_NN_HALF_DIGIT.
Definition HIGH_HALF (x : Z) : Z := (x .>> 16) .& MAX_NN_HALF_DIGIT.
Definition TO_HIGH_HALF (x : Z) : Z := w32 (x .<< 16).
Definition DIGIT_2MSB (x : Z) : Z := (x .>> 30) .& 3.

(** ** Conversions *)

(** The inner loop of [NN_Decode]: [k] more bytes fit in the digit [t]; [rb] holds
    the bytes still to read, least significant first ([b[j]], [b[j-1]], ...). *)
Fixpoint NN_Decode_digit (k : nat) (u t : Z) (rb : list Z) : Z * list Z :=
  match k, rb with
  | S k', x :: rb' => NN_Decode_digit k' (u + 8) (t .| x .<< u) rb'
  | _, _ => (t, rb)
  end.

Fixpoint NN_Decode_loop (digits : nat) (rb : list Z) : list Z :=
  match digits with
  | O => []
  | S k =>
      match rb with
      | [] => repeat 0 digits
      | _ => let '(t, rb') := NN_Decode_digit 4 0 0 rb in t :: NN_Decode_loop k rb'
      end
  end.

Definition NN_Decode (a : list Z) (digits : nat) (b : list Z) (len : nat) : list Z :=
  store a (NN_Decode_loop digits (rev (firstn len b))).

(** The inner loop of [NN_Encode]: the bytes of the digit [t], from bit [u] up, as
    long as there is room ([len] bytes) in the output. *)
Fixpoint NN_Encode_digit (k : nat) (u t : Z) (len : nat) : list Z * nat :=
  match k, len with
  | S k', S l =>
      let '(r, l') := NN_Encode_digit k' (u + 8) t l in (w8 (t .>> u) :: r, l')
  | _, _ => ([], len)
  end.

Fixpoint NN_Encode_loop (digits : nat) (b : list Z) (len : nat) : list Z :=
  match digits with
  | O => repeat 0 len
  | S k =>
      let '(r, l) := NN_Encode_digit 4 0 (hd 0 b) len in r ++ NN_Encode_loop k (tl b) l
  end.

Definition NN_Encode (a : list Z) (len : nat) (b : list Z) (digits : nat) : list Z :=
  store a (rev (NN_Encode_loop digits b len)).

(** ** Assignments *)

Definition NN_AssignZero (a : list Z) (digits : nat) : list Z := store a (repeat 0 digits).

Definition NN_Assign (a b : list Z) (digits : nat) : list Z := store a (cells digits b).

Definition NN_ASSIGN_DIGIT (a : list Z) (b : Z) (digits : nat) : list Z :=
  upd (NN_AssignZero a digits) 0 b.

Definition NN_Assign2Exp (a : list Z) (b : Z) (digits : nat) : list Z :=
  let a := NN_AssignZero a digits in
  if b >=? Z.of_nat digits * NN_DIGIT_BITS then a
  else upd a (Z.to_nat (b / NN_DIGIT_BITS)) (w32 (1 .<< (b mod NN_DIGIT_BITS))).

(** ** Comparison and length *)

Fixpoint NN_Cmp (a b : list Z) (digits : nat) : Z :=
  match digits with
  | O => 0
  | S k =>
      if nth k a 0 >? nth k b 0 then 1
      else if nth k a 0 <? nth k b 0 then -1
      else NN_Cmp a b k
  end.

Fixpoint NN_Zero (a : list Z) (digits : nat) : bool :=
  match digits with
  | O => true
  | S k => if negb (hd 0 a =? 0) then false else NN_Zero (tl a) k
  end.

Definition NN_EQUAL (a b : list Z) (digits : nat) : bool := NN_Cmp a b digits =? 0.

(** The do-while loop leaves with index [k] and returns [k + 1]; when every digit
    is zero the unsigned counter wraps and the function returns 0. *)
Fixpoint NN_Digits (a : list Z) (digits : nat) : nat :=
  match digits with
  | O => O
  | S k => if negb (nth k a 0 =? 0) then S k else NN_Digits a k
  end.

(** [k] iterations of the for loop are left, that is [i = 32 - k]. *)
Fixpoint NN_DigitBits_loop (k : nat) (a : Z) : Z :=
  match k with
  | O => 0
  | S k' => if a =? 0 then 0 else 1 + NN_DigitBits_loop k' (a .>> 1)
  end.

Definition NN_DigitBits (a : Z) : Z := NN_DigitBits_loop 32 a.

Definition NN_Bits (a : list Z) (digits : nat) : Z :=
  match NN_Digits a digits with
  | O => 0
  | S k => Z.of_nat k * NN_DIGIT_BITS + NN_DigitBits (nth k a 0)
  end.

(** ** Shifts *)

Fixpoint NN_LShift_loop (b : list Z) (c carry : Z) (digits : nat) : list Z * Z :=
  match digits with
  | O => ([], carry)
  | S k =>
      let temp := hd 0 b in
      let '(r, co) := NN_LShift_loop (tl b) c
                        (if c =? 0 then 0 else temp .>> (NN_DIGIT_BITS - c)) k in
      ((w32 (temp .<< c) .| carry) :: r, co)
  end.

Definition NN_LShift (a b : list Z) (c : Z) (digits : nat) : list Z * Z :=
  if c <? NN_DIGIT_BITS then
    let '(r, carry) := NN_LShift_loop b c 0 digits in (store a r, carry)
  else (a, 0).

Fixpoint NN_RShift_loop (b : list Z) (c carry : Z) (digits : nat) (acc : list Z) : list Z * Z :=
  match digits with
  | O => (acc, carry)
  | S k =>
      let temp := nth k b 0 in
      NN_RShift_loop b c (if c =? 0 then 0 else w32 (temp .<< (NN_DIGIT_BITS - c))) k
        ((temp .>> c .| carry) :: acc)
  end.

Definition NN_RShift (a b : list Z) (c : Z) (digits : nat) : list Z * Z :=
  if c <? NN_DIGIT_BITS then
    let '(r, carry) := NN_RShift_loop b c 0 digits [] in (store a r, carry)
  else (a, 0).

(** ** Addition and subtraction *)

Fixpoint NN_Add_loop (b c : list Z) (carry : Z) (digits : nat) : list Z * Z :=
  match digits with
  | O => ([], carry)
  | S k =>
      let temp := w32 (hd 0 b + carry) in
      let '(temp, carry) :=
        if temp <? carry then (hd 0 c, carry)
        else let temp := w32 (temp + hd 0 c) in
             (temp, if temp <? hd 0 c then 1 else 0) in
      let '(r, co) := NN_Add_loop (tl b) (tl c) carry k in
      (temp :: r, co)
  end.

Definition NN_Add (a b c : list Z) (digits : nat) : list Z * Z :=
  let '(r, carry) := NN_Add_loop b c 0 digits in (store a r, carry).

Fixpoint NN_Sub_loop (b c : list Z) (borrow : Z) (digits : nat) : list Z * Z :=
  match digits with
  | O => ([], borrow)
  | S k =>
      let temp := w32 (hd 0 b - borrow) in
      let '(temp, borrow) :=
        if temp =? MAX_NN_DIGIT then (w32 (MAX_NN_DIGIT - hd 0 c), borrow)
        else let temp := w32 (temp - hd 0 c) in
             (temp, if temp >? w32 (MAX_NN_DIGIT - hd 0 c) then 1 else 0) in
      let '(r, bo) := NN_Sub_loop (tl b) (tl c) borrow k in
      (temp :: r, bo)
  end.

Definition NN_Sub (a b c : list Z) (digits : nat) : list Z * Z :=
  let '(r, borrow) := NN_Sub_loop b c 0 digits in (store a r, borrow).

(** ** Multiplication *)

(** [a * b] as the pair (high, low), from four half-digit products. *)
Definition dmult (a b : Z) : Z * Z :=
  let al := LOW_HALF a in
  let ah := HIGH_HALF a in
  let bl := LOW_HALF b in
  let bh := HIGH_HALF b in
  let low := w32 (al * bl) in
  let high := w32 (ah * bh) in
  let m1 := w32 (al * bh) in
  let m2 := w32 (ah * bl) in
  let m := w32 (m1 + m2) in
  let carry := if m <? m1 then w32 (1 .<< 16) else 0 in
  let ml := w32 ((m .& MAX_NN_HALF_DIGIT) .<< 16) in
  let mh := m .>> 16 in
  let low := w32 (low + ml) in
  let carry := if low <? ml then w32 (carry + 1) else carry in
  (w32 (high + w32 (carry + mh)), low).

(** The loop over [j]: [t] points at [t[i+j]], [c] at [c[j]]; at the end the carry
    is added to [t[i+cDigits]]. *)
Fixpoint NN_Mult_row (bi : Z) (c : list Z) (carry : Z) (cDigits : nat) (t : list Z) : list Z :=
  match cDigits with
  | O => w32 (hd 0 t + carry) :: tl t
  | S k =>
      let '(dhigh, dlow) := dmult bi (hd 0 c) in
      let t0 := w32 (hd 0 t + carry) in
      let carry := if t0 <? carry then 1 else 0 in
      let t0 := w32 (t0 + dlow) in
      let carry := if t0 <? dlow then w32 (carry + 1) else carry in
      let carry := w32 (carry + dhigh) in
      t0 :: NN_Mult_row bi (tl c) carry k (tl t)
  end.

(** The loop over [i]: [t] points at [t[i]], [b] at [b[i]]. A zero digit of [b]
    leaves the row alone and adds a zero carry at [t[i+cDigits]]. *)
Fixpoint NN_Mult_loop (b c t : list Z) (bDigits cDigits : nat) : list Z :=
  match bDigits with
  | O => t
  | S k =>
      let t := if negb (hd 0 b =? 0) then NN_Mult_row (hd 0 b) c 0 cDigits t
               else upd t cDigits (w32 (nth cDigits t 0 + 0)) in
      hd 0 t :: NN_Mult_loop (tl b) c (tl t) k cDigits
  end.

Definition NN_Mult (a b c : list Z) (digits : nat) : list Z :=
  let t := NN_AssignZero (repeat 0 (2 * MAX_NN_DIGITS)) (2 * digits) in
  let bDigits := NN_Digits b digits in
  let cDigits := NN_Digits c digits in
  let t := NN_Mult_loop b c t bDigits cDigits in
  NN_Assign a t (2 * digits).

(** ** The value of a digit array *)

(** [Bn n] is the weight of digit [n]; [nn n a] is the number that the first [n]
    digits of [a] stand for, least significant digit first. *)
Definition Bn (n : nat) : Z := 2 ^ (32 * Z.of_nat n).

Fixpoint nn (n : nat) (a : list Z) : Z :=
  match n with
  | O => 0
  | S k => hd 0 a + 2 ^ 32 * nn k (tl a)
  end.

Lemma Bn_0 : Bn 0 = 1.
Proof. reflexivity. Qed.

Lemma Bn_S n : Bn (S n) = 2 ^ 32 * Bn n.
Proof.
  unfold Bn. rewrite Nat2Z.inj_succ, Z.mul_succ_r, Z.pow_add_r by lia. lia.
Qed.

Lemma Bn_add n m : Bn (n + m) = Bn n * Bn m.
Proof. unfold Bn. rewrite Nat2Z.inj_add, Z.mul_add_distr_l, Z.pow_add_r by lia. lia. Qed.

Lemma Bn_pos n : 0 < Bn n.
Proof. apply Z.pow_pos_nonneg; lia. Qed.

Lemma Bn_mono n m : (n <= m)%nat -> Bn n <= Bn m.
Proof. intros. apply Z.pow_le_mono_r; lia. Qed.

#[export] Hint Resolve Bn_pos : words.

Lemma nn_S n a : nn (S n) a = hd 0 a + 2 ^ 32 * nn n (tl a).
Proof. reflexivity. Qed.

Lemma nth_tl {A} (a : list A) n d : nth n (tl a) d = nth (S n) a d.
Proof. destruct a; simpl; auto. now destruct n. Qed.

Lemma nth_hd (a : list Z) : nth 0 a 0 = hd 0 a.
Proof. now destruct a. Qed.

Lemma nn_snoc n a : nn (S n) a = nn n a + Bn n * nth n a 0.
Proof.
  revert a; induction n as [|n IH]; intros a.
  - rewrite Bn_0, nth_hd. cbn [nn]. lia.
  - rewrite (nn_S (S n)), IH, nn_S, nth_tl, Bn_S. lia.
Qed.

Lemma nn_bound n a : words a -> 0 <= nn n a < Bn n.
Proof.
  revert a; induction n as [|n IH]; intros a Ha; [rewrite Bn_0; cbn; lia|].
  rewrite nn_S, Bn_S. specialize (IH (tl a) ltac:(auto with words)).
  assert (is_word (hd 0 a)) by auto with words. unfold is_word in *. lia.
Qed.

Lemma nn_cells n a : nn n (cells n a) = nn n a.
Proof. revert a; induction n; intros; cbn [cells]; [auto|]. rewrite !nn_S; cbn [hd tl]. now rewrite IHn. Qed.

Lemma nn_app a b n : nn (length a + n) (a ++ b) = nn (length a) a + Bn (length a) * nn n b.
Proof.
  induction a as [|x a IH]; [cbn [length app plus nn]; rewrite Bn_0; lia|].
  cbn [length app plus]. rewrite !nn_S, Bn_S. cbn [hd tl]. rewrite IH. lia.
Qed.

Lemma nn_app_l a b : nn (length a) (a ++ b) = nn (length a) a.
Proof. rewrite <- (Nat.add_0_r (length a)) at 1. rewrite nn_app. cbn [nn]. lia. Qed.

(** What a store of the digits [r] leaves in the destination. *)
Lemma nn_store n a r : length r = n -> nn n (store a r) = nn n r.
Proof. intros <-. unfold store. apply nn_app_l. Qed.

Lemma nn_repeat0 n m : nn n (repeat 0 m) = 0.
Proof.
  revert m; induction n as [|n IH]; intros m; [auto|].
  rewrite nn_S. destruct m as [|m]; cbn [repeat hd tl]; [rewrite (IH 0%nat : nn n [] = 0)|rewrite IH]; lia.
Qed.

Lemma nn_nil n : nn n [] = 0.
Proof. exact (nn_repeat0 n 0). Qed.

Lemma nn_split n m a : nn (n + m) a = nn n a + Bn n * nn m (skipn n a).
Proof.
  revert a; induction n as [|n IH]; intros a; [cbn [plus nn skipn]; rewrite Bn_0; lia|].
  cbn [plus]. rewrite !nn_S, IH, Bn_S. destruct a; cbn [tl skipn]; [rewrite !skipn_nil|]; lia.
Qed.

Lemma nn_skipn_S n m a : nn (S m) (skipn n a) = nth n a 0 + 2 ^ 32 * nn m (skipn (S n) a).
Proof.
  revert a; induction n; intros [|x a]; cbn [skipn nth]; rewrite ?nn_S; cbn [hd tl]; auto.
  rewrite <- IHn. auto.
Qed.

Lemma nn_inj n a b : words a -> words b -> nn n a = nn n b -> cells n a = cells n b.
Proof.
  revert a b; induction n as [|n IH]; intros a b Ha Hb H; [auto|].
  rewrite !nn_S in H. cbn [cells].
  assert (is_word (hd 0 a)) by auto with words. assert (is_word (hd 0 b)) by auto with words.
  unfold is_word in *.
  pose proof (nn_bound n (tl a) ltac:(auto with words)).
  pose proof (nn_bound n (tl b) ltac:(auto with words)).
  f_equal; [lia|]. apply IH; auto with words. lia.
Qed.

Lemma nn_ext n a b : (forall i, (i < n)%nat -> nth i a 0 = nth i b 0) -> nn n a = nn n b.
Proof.
  induction n as [|n IH]; intros H; [auto|]. rewrite !nn_snoc, IH, H; auto.
Qed.


(** ** Assignments and comparisons *)

Lemma words_0 n : words (repeat 0 n).
Proof. apply Forall_repeat. unfold is_word; lia. Qed.
#[export] Hint Resolve words_0 : words.

Lemma NN_AssignZero_spec a digits : nn digits (NN_AssignZero a digits) = 0.
Proof. unfold NN_AssignZero. rewrite nn_store by apply repeat_length. apply nn_repeat0. Qed.

Lemma words_AssignZero a digits : words a -> words (NN_AssignZero a digits).
Proof. unfold NN_AssignZero. auto with words. Qed.

Lemma NN_Assign_spec a b digits : nn digits (NN_Assign a b digits) = nn digits b.
Proof. unfold NN_Assign. rewrite nn_store by apply length_cells. apply nn_cells. Qed.

Lemma words_Assign a b digits : words a -> words b -> words (NN_Assign a b digits).
Proof. unfold NN_Assign. auto with words. Qed.

Lemma nn_upd n a i x : (i < n)%nat -> (i < length a)%nat ->
  nn n (upd a i x) = nn n a + Bn i * (x - nth i a 0).
Proof.
  revert a i; induction n as [|n IH]; intros [|y a] [|i] Hn Ha; try (cbn in *; lia).
  - rewrite Bn_0, !nn_S. cbn [upd hd tl nth]. lia.
  - rewrite Bn_S. cbn [upd nth]. rewrite !nn_S. cbn [hd tl length] in *. rewrite IH by lia. lia.
Qed.

Lemma NN_ASSIGN_DIGIT_spec a b digits : (0 < digits)%nat ->
  nn digits (NN_ASSIGN_DIGIT a b digits) = b.
Proof.
  intros H. unfold NN_ASSIGN_DIGIT.
  destruct digits as [|k]; [lia|]. unfold NN_AssignZero, store. cbn [repeat app upd].
  rewrite nn_S. cbn [hd tl].
  pose proof (NN_AssignZero_spec (tl a) k) as E. unfold NN_AssignZero, store in E.
  rewrite repeat_length in E. cbn [length]. rewrite repeat_length.
  replace (skipn (S k) a) with (skipn k (tl a)) by (destruct a; cbn; rewrite ?skipn_nil; auto).
  rewrite E. lia.
Qed.

Lemma words_ASSIGN_DIGIT a b digits : words a -> is_word b -> words (NN_ASSIGN_DIGIT a b digits).
Proof. unfold NN_ASSIGN_DIGIT. auto using words_AssignZero with words. Qed.

Lemma NN_Cmp_sgn a b digits : words a -> words b ->
  NN_Cmp a b digits = Z.sgn (nn digits a - nn digits b).
Proof.
  intros Ha Hb. induction digits as [|k IH]; [reflexivity|].
  cbn [NN_Cmp]. rewrite !nn_snoc.
  pose proof (nn_bound k a Ha). pose proof (nn_bound k b Hb).
  pose proof (nth_word a k Ha). pose proof (nth_word b k Hb). unfold is_word in *.
  destruct (Z.gtb_spec (nth k a 0) (nth k b 0)).
  { symmetry. apply Z.sgn_pos_iff. nia. }
  destruct (Z.ltb_spec (nth k a 0) (nth k b 0)).
  { symmetry. apply Z.sgn_neg_iff. nia. }
  rewrite IH. f_equal. nia.
Qed.

Lemma NN_Zero_spec a digits : words a -> NN_Zero a digits = (nn digits a =? 0).
Proof.
  revert a; induction digits as [|k IH]; intros a Ha; [reflexivity|].
  cbn [NN_Zero]. rewrite nn_S.
  pose proof (hd_word a Ha). pose proof (nn_bound k (tl a) ltac:(auto with words)).
  unfold is_word in *.
  destruct (Z.eqb_spec (hd 0 a) 0) as [E|E]; cbn [negb].
  - rewrite IH by auto with words. rewrite E.
    destruct (Z.eqb_spec (nn k (tl a)) 0); symmetry; [apply Z.eqb_eq|apply Z.eqb_neq]; lia.
  - symmetry. apply Z.eqb_neq. lia.
Qed.

Lemma NN_EQUAL_spec a b digits : words a -> words b ->
  NN_EQUAL a b digits = (nn digits a =? nn digits b).
Proof.
  intros. unfold NN_EQUAL. rewrite NN_Cmp_sgn by auto.
  destruct (Z.eqb_spec (nn digits a) (nn digits b)) as [->|].
  - now rewrite Z.sub_diag.
  - apply Z.eqb_neq. rewrite Z.sgn_null_iff. lia.
Qed.

Lemma NN_Digits_le a digits : (NN_Digits a digits <= digits)%nat.
Proof. induction digits; cbn [NN_Digits]; [lia|]. destruct negb; lia. Qed.

(** Dropping the leading zero digits keeps the value; the top digit is nonzero. *)
Lemma NN_Digits_nn a digits : nn (NN_Digits a digits) a = nn digits a.
Proof.
  induction digits as [|k IH]; cbn [NN_Digits]; [auto|].
  destruct (Z.eqb_spec (nth k a 0) 0) as [E|E]; cbn [negb]; [|auto].
  rewrite IH, nn_snoc, E. lia.
Qed.

Lemma NN_Digits_top a digits k : NN_Digits a digits = S k -> nth k a 0 <> 0.
Proof.
  induction digits as [|n IH]; cbn [NN_Digits]; [discriminate|].
  destruct (Z.eqb_spec (nth n a 0) 0) as [E|E]; cbn [negb]; [auto|]. now intros [= <-].
Qed.

Lemma NN_Digits_0 a digits : words a -> NN_Digits a digits = 0%nat <-> nn digits a = 0.
Proof.
  intros Ha. split.
  - intros E. rewrite <- NN_Digits_nn, E. reflexivity.
  - intros E. destruct (NN_Digits a digits) as [|k] eqn:D; [auto|exfalso].
    pose proof (NN_Digits_nn a digits) as V. rewrite D, E, nn_snoc in V.
    pose proof (NN_Digits_top _ _ _ D). pose proof (nth_word a k Ha).
    pose proof (nn_bound k a Ha). pose proof (Bn_pos k). unfold is_word in *. nia.
Qed.

(** ** Bit-level facts the routines rely on *)

Lemma land_ffff x : x .& MAX_NN_HALF_DIGIT = x mod 2 ^ 16.
Proof. change MAX_NN_HALF_DIGIT with (Z.ones 16). now rewrite Z.land_ones by lia. Qed.

Lemma halves x : is_word x ->
  LOW_HALF x = x mod 2 ^ 16 /\ HIGH_HALF x = x / 2 ^ 16 /\
  0 <= LOW_HALF x < 2 ^ 16 /\ 0 <= HIGH_HALF x < 2 ^ 16 /\
  x = HIGH_HALF x * 2 ^ 16 + LOW_HALF x.
Proof.
  unfold is_word, LOW_HALF, HIGH_HALF. intros H.
  rewrite !land_ffff, shiftr_div by lia.
  assert (0 <= x / 2 ^ 16 < 2 ^ 16)
    by (split; [apply Z.div_pos; lia|apply Z.div_lt_upper_bound; lia]).
  rewrite (Z.mod_small (x / 2 ^ 16)) by lia.
  pose proof (Z.mod_pos_bound x (2 ^ 16) ltac:(lia)).
  pose proof (Z.div_mod x (2 ^ 16) ltac:(lia)). lia.
Qed.

Lemma TO_HIGH_HALF_spec x : 0 <= x -> TO_HIGH_HALF x = (x mod 2 ^ 16) * 2 ^ 16.
Proof.
  intros. unfold TO_HIGH_HALF, w32. rewrite Z.shiftl_mul_pow2 by lia.
  change (2 ^ 32) with (2 ^ 16 * 2 ^ 16). rewrite Z.mul_mod_distr_r by lia. reflexivity.
Qed.

(** One step of an addition with carry, and of a subtraction with borrow, on words. *)
Lemma w32_add_carry a b : is_word a -> is_word b ->
  a + b = w32 (a + b) + 2 ^ 32 * (if w32 (a + b) <? b then 1 else 0).
Proof.
  unfold is_word, w32. intros Ha Hb.
  destruct (Z.ltb_spec (a + b) (2 ^ 32)).
  - rewrite Z.mod_small by lia. destruct (Z.ltb_spec (a + b) b); lia.
  - rewrite <- (Z.mod_unique (a + b) (2 ^ 32) 1 (a + b - 2 ^ 32)) by lia.
    destruct (Z.ltb_spec (a + b - 2 ^ 32) b); lia.
Qed.

Lemma w32_sub_borrow a b : is_word a -> is_word b ->
  a - b = w32 (a - b) - 2 ^ 32 * (if w32 (a - b) >? MAX_NN_DIGIT - b then 1 else 0).
Proof.
  unfold is_word, w32, MAX_NN_DIGIT. intros Ha Hb.
  destruct (Z.ltb_spec a b).
  - rewrite <- (Z.mod_unique (a - b) (2 ^ 32) (-1) (a - b + 2 ^ 32)) by lia.
    destruct (Z.gtb_spec (a - b + 2 ^ 32) (0xffffffff - b)); lia.
  - rewrite Z.mod_small by lia. destruct (Z.gtb_spec (a - b) (0xffffffff - b)); lia.
Qed.

(** ** Addition and subtraction compute on the values *)

Definition bit (c : Z) : Prop := c = 0 \/ c = 1.

Lemma NN_Add_digit b c carry : is_word b -> is_word c -> bit carry ->
  let temp := w32 (b + carry) in
  let '(temp, carry') :=
    if temp <? carry then (c, carry)
    else let temp := w32 (temp + c) in (temp, if temp <? c then 1 else 0) in
  is_word temp /\ bit carry' /\ temp + 2 ^ 32 * carry' = b + c + carry.
Proof.
  intros Hb Hc Hk.
  assert (Hk' : is_word carry) by (unfold is_word, bit in *; lia).
  pose proof (w32_add_carry b carry Hb Hk') as E1.
  pose proof (w32_word (b + carry)) as W1. cbv zeta. revert E1.
  destruct (Z.ltb_spec (w32 (b + carry)) carry); intros E1.
  - unfold bit, is_word in *. lia.
  - pose proof (w32_add_carry (w32 (b + carry)) c W1 Hc) as E2.
    pose proof (w32_word (w32 (b + carry) + c)).
    revert E2. destruct (w32 (w32 (b + carry) + c) <? c); intros E2; unfold bit; splits; auto; lia.
Qed.

Lemma NN_Add_loop_spec digits b c carry : words b -> words c -> bit carry ->
  let '(r, co) := NN_Add_loop b c carry digits in
  length r = digits /\ words r /\ bit co /\
  nn digits r + Bn digits * co = nn digits b + nn digits c + carry.
Proof.
  revert b c carry; induction digits as [|k IH]; intros b c carry Hb Hc Hk; cbn [NN_Add_loop].
  { rewrite Bn_0. cbn [nn]. splits; auto; lia. }
  pose proof (NN_Add_digit (hd 0 b) (hd 0 c) carry
                ltac:(auto with words) ltac:(auto with words) Hk) as D. cbv zeta in *.
  destruct (if w32 (hd 0 b + carry) <? carry then _ else _) as [temp carry'].
  destruct D as (Ht & Hk' & E).
  specialize (IH (tl b) (tl c) carry' ltac:(auto with words) ltac:(auto with words) Hk').
  destruct (NN_Add_loop (tl b) (tl c) carry' k) as [r co].
  destruct IH as (L & W & Hco & V). rewrite !nn_S, Bn_S. cbn [length hd tl].
  splits; auto; lia.
Qed.

Lemma NN_Add_spec a b c digits : words a -> words b -> words c ->
  let '(r, co) := NN_Add a b c digits in
  words r /\ bit co /\ nn digits r + Bn digits * co = nn digits b + nn digits c.
Proof.
  intros Ha Hb Hc. unfold NN_Add.
  pose proof (NN_Add_loop_spec digits b c 0 Hb Hc (or_introl eq_refl)) as H.
  destruct (NN_Add_loop b c 0 digits) as [r co]. destruct H as (L & W & Hco & V).
  rewrite nn_store by auto. split; [auto with words|]. split; [auto|lia].
Qed.

Lemma NN_Sub_digit b c borrow : is_word b -> is_word c -> bit borrow ->
  let temp := w32 (b - borrow) in
  let '(temp, borrow') :=
    if temp =? MAX_NN_DIGIT then (w32 (MAX_NN_DIGIT - c), borrow)
    else let temp := w32 (temp - c) in (temp, if temp >? w32 (MAX_NN_DIGIT - c) then 1 else 0) in
  is_word temp /\ bit borrow' /\ temp - 2 ^ 32 * borrow' = b - c - borrow.
Proof.
  intros Hb Hc Hk.
  assert (Hk' : is_word borrow) by (unfold is_word, bit in *; lia).
  pose proof (w32_sub_borrow b borrow Hb Hk') as E1.
  pose proof (w32_word (b - borrow)) as W1. cbv zeta.
  assert (Em : w32 (MAX_NN_DIGIT - c) = MAX_NN_DIGIT - c)
    by (apply w32_small; unfold is_word, MAX_NN_DIGIT in *; lia).
  rewrite Em.
  destruct (Z.eqb_spec (w32 (b - borrow)) MAX_NN_DIGIT) as [E|E].
  - split; [rewrite <- Em; auto with words|]. split; [auto|].
    unfold bit, is_word, MAX_NN_DIGIT in *.
    destruct (Z.gtb_spec (w32 (b - borrow)) (0xffffffff - borrow)); lia.
  - pose proof (w32_sub_borrow (w32 (b - borrow)) c W1 Hc) as E2.
    pose proof (w32_word (w32 (b - borrow) - c)).
    assert (w32 (b - borrow) = b - borrow).
    { unfold bit, is_word, MAX_NN_DIGIT in *.
      destruct (Z.gtb_spec (w32 (b - borrow)) (0xffffffff - borrow)); lia. }
    revert E2. destruct (w32 (w32 (b - borrow) - c) >? MAX_NN_DIGIT - c); intros E2; unfold bit; splits; auto; lia.
Qed.

Lemma NN_Sub_loop_spec digits b c borrow : words b -> words c -> bit borrow ->
  let '(r, bo) := NN_Sub_loop b c borrow digits in
  length r = digits /\ words r /\ bit bo /\
  nn digits r - Bn digits * bo = nn digits b - nn digits c - borrow.
Proof.
  revert b c borrow; induction digits as [|k IH]; intros b c borrow Hb Hc Hk; cbn [NN_Sub_loop].
  { rewrite Bn_0. cbn [nn]. splits; auto; lia. }
  pose proof (NN_Sub_digit (hd 0 b) (hd 0 c) borrow
                ltac:(auto with words) ltac:(auto with words) Hk) as D. cbv zeta in *.
  destruct (if w32 (hd 0 b - borrow) =? MAX_NN_DIGIT then _ else _) as [temp borrow'].
  destruct D as (Ht & Hk' & E).
  specialize (IH (tl b) (tl c) borrow' ltac:(auto with words) ltac:(auto with words) Hk').
  destruct (NN_Sub_loop (tl b) (tl c) borrow' k) as [r bo].
  destruct IH as (L & W & Hbo & V). rewrite !nn_S, Bn_S. cbn [length hd tl].
  splits; auto; lia.
Qed.

Lemma NN_Sub_spec a b c digits : words a -> words b -> words c ->
  let '(r, bo) := NN_Sub a b c digits in
  words r /\ bit bo /\ nn digits r - Bn digits * bo = nn digits b - nn digits c.
Proof.
  intros Ha Hb Hc. unfold NN_Sub.
  pose proof (NN_Sub_loop_spec digits b c 0 Hb Hc (or_introl eq_refl)) as H.
  destruct (NN_Sub_loop b c 0 digits) as [r bo]. destruct H as (L & W & Hbo & V).
  rewrite nn_store by auto. split; [auto with words|]. split; [auto|lia].
Qed.

(** The cases the callers meet: no overflow, no underflow. *)
Lemma NN_Add_nocarry a b c digits : words a -> words b -> words c ->
  nn digits b + nn digits c < Bn digits ->
  words (fst (NN_Add a b c digits)) /\
  nn digits (fst (NN_Add a b c digits)) = nn digits b + nn digits c.
Proof.
  intros Ha Hb Hc H. pose proof (NN_Add_spec a b c digits Ha Hb Hc) as S1.
  destruct (NN_Add a b c digits) as [r co]. destruct S1 as (W & Hco & V). cbn [fst].
  split; [auto|]. pose proof (nn_bound digits r W). unfold bit in *. nia.
Qed.

Lemma NN_Sub_noborrow a b c digits : words a -> words b -> words c ->
  nn digits c <= nn digits b ->
  words (fst (NN_Sub a b c digits)) /\ snd (NN_Sub a b c digits) = 0 /\
  nn digits (fst (NN_Sub a b c digits)) = nn digits b - nn digits c.
Proof.
  intros Ha Hb Hc H. pose proof (NN_Sub_spec a b c digits Ha Hb Hc) as S1.
  destruct (NN_Sub a b c digits) as [r bo]. destruct S1 as (W & Hbo & V). cbn [fst snd].
  split; [auto|]. pose proof (nn_bound digits r W). unfold bit in *. nia.
Qed.

(** ** Multiplication *)

Lemma mul_half_bound x y : 0 <= x < 2 ^ 16 -> 0 <= y < 2 ^ 16 -> 0 <= x * y <= (2 ^ 16 - 1) ^ 2.
Proof. nia. Qed.

Lemma dmult_spec a b : is_word a -> is_word b ->
  let '(high, low) := dmult a b in
  is_word high /\ is_word low /\ high * 2 ^ 32 + low = a * b.
Proof.
  intros Ha Hb. unfold dmult.
  destruct (halves a Ha) as (_ & _ & Al & Ah & Ea). destruct (halves b Hb) as (_ & _ & Bl & Bh & Eb).
  set (al := LOW_HALF a) in *. set (ah := HIGH_HALF a) in *.
  set (bl := LOW_HALF b) in *. set (bh := HIGH_HALF b) in *.
  pose proof (mul_half_bound al bl Al Bl). pose proof (mul_half_bound ah bh Ah Bh).
  pose proof (mul_half_bound al bh Al Bh). pose proof (mul_half_bound ah bl Ah Bl).
  rewrite !(w32_small (_ * _)) by (unfold is_word; lia).
  replace (w32 (1 .<< 16)) with (2 ^ 16) by reflexivity.
  assert (E : a * b = ah * bh * 2 ^ 32 + (al * bh + ah * bl) * 2 ^ 16 + al * bl) by (rewrite Ea, Eb; ring).
  rewrite E. clear E Ea Eb.
  generalize dependent (al * bl). generalize dependent (ah * bh).
  generalize dependent (al * bh). generalize dependent (ah * bl).
  intros m2 M2 m1 M1 h0 Hh l0 Hl.
  pose proof (w32_add_carry m2 m1 ltac:(unfold is_word; lia) ltac:(unfold is_word; lia)) as Em.
  rewrite (Z.add_comm m2) in Em. pose proof (w32_word (m1 + m2)) as Wm.
  set (m := w32 (m1 + m2)) in *.
  rewrite land_ffff, shiftr_div, Z.shiftl_mul_pow2 by lia.
  unfold is_word in Wm.
  pose proof (Z.mod_pos_bound m (2 ^ 16) ltac:(lia)) as Bm.
  assert (Bd : 0 <= m / 2 ^ 16 < 2 ^ 16)
    by (split; [apply Z.div_pos; lia|apply Z.div_lt_upper_bound; lia]).
  pose proof (Z.div_mod m (2 ^ 16) ltac:(lia)) as Dm.
  rewrite (w32_small (m mod 2 ^ 16 * 2 ^ 16)) by (unfold is_word; lia).
  set (lo := m mod 2 ^ 16) in *. set (hi := m / 2 ^ 16) in *.
  pose proof (w32_add_carry l0 (lo * 2 ^ 16) ltac:(unfold is_word; lia) ltac:(unfold is_word; lia)) as El.
  pose proof (w32_word (l0 + lo * 2 ^ 16)) as Wl.
  set (low := w32 (l0 + lo * 2 ^ 16)) in *. revert Em El.
  set (cy := if low <? lo * 2 ^ 16 then w32 ((if m <? m1 then 2 ^ 16 else 0) + 1)
             else if m <? m1 then 2 ^ 16 else 0).
  assert (Hcy : cy = (if m <? m1 then 2 ^ 16 else 0) + (if low <? lo * 2 ^ 16 then 1 else 0))
    by (subst cy; destruct (m <? m1), (low <? lo * 2 ^ 16); reflexivity).
  rewrite Hcy. unfold is_word in *.
  destruct (m <? m1), (low <? lo * 2 ^ 16); intros Em El;
    rewrite (w32_small (_ + hi)) by (unfold is_word; lia);
    rewrite (w32_small (h0 + _)) by (unfold is_word; lia); lia.
Qed.

(** One position of a row: the new digit and the new carry account for
    [t + b * c + carry], and the carry does not overflow. *)
Lemma NN_Mult_digit t bi c carry dhigh dlow :
  is_word t -> is_word bi -> is_word c -> is_word carry -> dmult bi c = (dhigh, dlow) ->
  let t0 := w32 (t + carry) in
  let c1 := if t0 <? carry then 1 else 0 in
  let t1 := w32 (t0 + dlow) in
  let c2 := if t1 <? dlow then w32 (c1 + 1) else c1 in
  is_word t1 /\ is_word (w32 (c2 + dhigh)) /\
  t1 + 2 ^ 32 * w32 (c2 + dhigh) = t + bi * c + carry.
Proof.
  intros Ht Hb Hc Hk Hd t0 c1 t1 c2.
  pose proof (dmult_spec bi c Hb Hc) as D. rewrite Hd in D. destruct D as (Wh & Wl & E).
  pose proof (w32_add_carry t carry Ht Hk) as E1. fold t0 in E1. fold c1 in E1.
  pose proof (w32_word (t + carry)) as W0. fold t0 in W0.
  pose proof (w32_add_carry t0 dlow W0 Wl) as E2. fold t1 in E2.
  pose proof (w32_word (t0 + dlow)) as W1. fold t1 in W1.
  splits; [auto|auto with words|].
  assert (Hc1 : c1 = 0 \/ c1 = 1) by (subst c1; destruct (t0 <? carry); auto).
  assert (Hc2 : c2 = c1 + (if t1 <? dlow then 1 else 0)).
  { subst c2. destruct (t1 <? dlow); [|lia]. apply w32_small. unfold is_word; lia. }
  assert (T : t1 + 2 ^ 32 * (c2 + dhigh) = t + bi * c + carry) by lia.
  rewrite w32_small; [exact T|].
  assert (bi * c <= (2 ^ 32 - 1) * (2 ^ 32 - 1)) by (unfold is_word in *; nia).
  unfold is_word in *. assert (0 <= c2) by (destruct (t1 <? dlow); lia). lia.
Qed.

Lemma NN_Mult_row_spec k bi c carry t :
  is_word bi -> words c -> is_word carry -> words t -> nth k t 0 = 0 ->
  let r := NN_Mult_row bi c carry k t in
  words r /\ nn (S k) r = nn k t + bi * nn k c + carry /\ skipn (S k) r = skipn (S k) t.
Proof.
  intros Hb. revert c carry t; induction k as [|k IH]; intros c carry t Hc Hk Ht H0;
    cbn [NN_Mult_row].
  - rewrite nth_hd in H0. rewrite H0, w32_small by exact Hk. cbn [nn hd tl skipn].
    splits; [auto with words|lia|now destruct t].
  - destruct (dmult bi (hd 0 c)) as [dhigh dlow] eqn:D.
    pose proof (NN_Mult_digit (hd 0 t) bi (hd 0 c) carry dhigh dlow
                  ltac:(auto with words) Hb ltac:(auto with words) Hk D) as (W1 & Wk & E).
    cbv zeta in *.
    set (t1 := w32 (w32 (hd 0 t + carry) + dlow)) in *.
    set (cy := w32 ((if t1 <? dlow then _ else _) + dhigh)) in *.
    rewrite <- nth_tl in H0.
    specialize (IH (tl c) cy (tl t) ltac:(auto with words) Wk ltac:(auto with words) H0)
      as (W & V & Sk).
    splits; [auto with words| |].
    + rewrite (nn_S (S k)), (nn_S k t), (nn_S k c). cbn [hd tl]. rewrite V. lia.
    + etransitivity; [exact Sk|]. destruct t; [now rewrite !skipn_nil|reflexivity].
Qed.

(** The digits above [n] are zero. *)
Definition zero_from (n : nat) (t : list Z) : Prop := forall i, (n <= i)%nat -> nth i t 0 = 0.

Lemma nth_skipn_eq {A} (a b : list A) n i d : (n <= i)%nat -> skipn n a = skipn n b -> nth i a d = nth i b d.
Proof.
  intros Hi H. replace i with (n + (i - n))%nat by lia. rewrite <- !nth_skipn. now rewrite H.
Qed.

Lemma NN_Mult_row_zero k t : words t -> zero_from k t ->
  let r := upd t k (w32 (nth k t 0 + 0)) in
  words r /\ nn (S k) r = nn k t /\ skipn (S k) r = skipn (S k) t.
Proof.
  intros Ht Hz r. subst r.
  assert (E : upd t k (w32 (nth k t 0 + 0)) = t).
  { rewrite Z.add_0_r, w32_small by auto with words. clear. revert k.
    induction t as [|x t IH]; intros [|k]; cbn [upd nth]; auto. now rewrite IH. }
  rewrite E. splits; auto. rewrite nn_snoc, (Hz k) by lia. lia.
Qed.

Lemma NN_Mult_loop_spec bDigits cDigits b c t :
  words b -> words c -> words t -> zero_from cDigits t ->
  let r := NN_Mult_loop b c t bDigits cDigits in
  words r /\ zero_from (bDigits + cDigits) r /\
  nn (bDigits + cDigits) r = nn cDigits t + nn bDigits b * nn cDigits c.
Proof.
  intros Hb Hc. revert b t Hb; induction bDigits as [|k IH]; intros b t Hb Ht Hz;
    cbn [NN_Mult_loop plus]; [splits; auto; cbn [nn]; lia|].
  set (t' := if negb (hd 0 b =? 0) then _ else _).
  assert (R : words t' /\ nn (S cDigits) t' = nn cDigits t + hd 0 b * nn cDigits c /\
              skipn (S cDigits) t' = skipn (S cDigits) t).
  { subst t'. destruct (Z.eqb_spec (hd 0 b) 0) as [E|E]; cbn [negb].
    - pose proof (NN_Mult_row_zero cDigits t Ht Hz) as (? & ? & ?). rewrite E. splits; auto; lia.
    - rewrite <- (Z.add_0_r (_ + _)).
      apply NN_Mult_row_spec; auto with words. }
  destruct R as (W & V & Sk). clearbody t'.
  assert (Z' : zero_from cDigits (tl t')).
  { intros i Hi. rewrite nth_tl, (nth_skipn_eq t' t (S cDigits)) by (auto; lia). apply Hz. lia. }
  specialize (IH (tl b) (tl t') ltac:(auto with words) ltac:(auto with words) Z') as (W' & Z'' & V').
  splits; [auto with words| |].
  - intros [|i] Hi; [lia|]. cbn [nth]. apply Z''. lia.
  - rewrite (nn_S (k + cDigits)), (nn_S k b). cbn [hd tl]. rewrite V'.
    rewrite nn_S in V. lia.
Qed.

Lemma nn_zero_from n m t : (n <= m)%nat -> zero_from n t -> nn m t = nn n t.
Proof.
  intros Hle Hz. induction Hle as [|m Hle IH]; [auto|]. rewrite nn_snoc, IH, Hz by lia. lia.
Qed.

Lemma NN_Mult_spec a b c digits : words a -> words b -> words c ->
  words (NN_Mult a b c digits) /\
  nn (2 * digits) (NN_Mult a b c digits) = nn digits b * nn digits c.
Proof.
  intros Ha Hb Hc. unfold NN_Mult.
  set (t := NN_AssignZero _ _).
  assert (Ht : t = repeat 0 (2 * digits) ++ repeat 0 (2 * MAX_NN_DIGITS - 2 * digits)).
  { subst t. unfold NN_AssignZero, store. rewrite repeat_length. f_equal. apply skipn_repeat. }
  rewrite <- repeat_app in Ht.
  assert (Wt : words t) by (rewrite Ht; auto with words).
  assert (Zt : forall n, zero_from n t).
  { intros n i _. rewrite Ht. apply nth_repeat. }
  clearbody t.
  pose proof (NN_Mult_loop_spec (NN_Digits b digits) (NN_Digits c digits) b c t Hb Hc Wt (Zt _))
    as (W & Z' & V). cbv zeta in *.
  split; [apply words_Assign; auto|]. rewrite NN_Assign_spec.
  pose proof (NN_Digits_le b digits). pose proof (NN_Digits_le c digits).
  rewrite (nn_zero_from (NN_Digits b digits + NN_Digits c digits) (2 * digits) _ ltac:(lia) Z'), V, !NN_Digits_nn.
  rewrite (nn_zero_from 0 _ t ltac:(lia) (Zt _)). cbn [nn]. lia.
Qed.

(** ** Significant length in bits *)

Lemma NN_DigitBits_loop_spec k a : 0 < a < 2 ^ Z.of_nat k ->
  let n := NN_DigitBits_loop k a in
  1 <= n <= Z.of_nat k /\ 2 ^ (n - 1) <= a < 2 ^ n.
Proof.
  revert a; induction k as [|k IH]; intros a Ha; cbn [NN_DigitBits_loop]; [cbn in Ha; lia|].
  destruct (Z.eqb_spec a 0) as [|_]; [lia|]. rewrite shiftr_div by lia.
  change (2 ^ 1) with 2. rewrite Nat2Z.inj_succ in *.
  pose proof (Z.div_mod a 2 ltac:(lia)). pose proof (Z.mod_pos_bound a 2 ltac:(lia)).
  destruct (Z.eq_dec (a / 2) 0) as [E|E].
  - replace (NN_DigitBits_loop k (a / 2)) with 0
      by (rewrite E; destruct k; reflexivity).
    change (2 ^ (1 + 0 - 1)) with 1. change (2 ^ (1 + 0)) with 2. lia.
  - rewrite Z.pow_succ_r in Ha by lia.
    destruct (IH (a / 2) ltac:(lia)) as [Hn Hb]. cbv zeta.
    set (n := NN_DigitBits_loop k (a / 2)) in *.
    replace (1 + n - 1) with (1 + (n - 1)) by lia.
    rewrite !(Z.pow_add_r 2 1) by lia. change (2 ^ 1) with 2. lia.
Qed.

Lemma NN_DigitBits_spec a : is_word a -> a <> 0 ->
  1 <= NN_DigitBits a <= 32 /\ 2 ^ (NN_DigitBits a - 1) <= a < 2 ^ NN_DigitBits a.
Proof. intros Ha H0. apply (NN_DigitBits_loop_spec 32). unfold is_word in Ha. cbn; lia. Qed.

Lemma Bn_pow k n : 0 <= n -> Bn k * 2 ^ n = 2 ^ (Z.of_nat k * 32 + n).
Proof. intros. unfold Bn. rewrite Z.pow_add_r by lia. f_equal. f_equal. lia. Qed.

Lemma NN_Bits_spec a digits : words a -> nn digits a <> 0 ->
  2 ^ (NN_Bits a digits - 1) <= nn digits a < 2 ^ NN_Bits a digits /\
  0 < NN_Bits a digits <= 32 * Z.of_nat digits.
Proof.
  intros Ha H0. unfold NN_Bits, NN_DIGIT_BITS.
  destruct (NN_Digits a digits) as [|k] eqn:D; [now apply NN_Digits_0 in D|].
  pose proof (NN_Digits_nn a digits) as V. pose proof (NN_Digits_le a digits) as L.
  rewrite D in V, L. rewrite nn_snoc in V. rewrite <- V.
  destruct (NN_DigitBits_spec (nth k a 0) ltac:(auto with words) (NN_Digits_top _ _ _ D)) as [Hn Hb].
  set (n := NN_DigitBits (nth k a 0)) in *. pose proof (nn_bound k a Ha).
  replace (Z.of_nat k * 32 + n - 1) with (Z.of_nat k * 32 + (n - 1)) by lia.
  rewrite <- !Bn_pow by lia. split; [nia|lia].
Qed.

(** ** Shifts *)

Lemma pow2_split c : 0 <= c <= 32 -> 2 ^ 32 = 2 ^ (32 - c) * 2 ^ c.
Proof. intros. rewrite <- Z.pow_add_r by lia. f_equal. lia. Qed.

Lemma shift_word_split temp c : is_word temp -> 0 <= c < 32 ->
  temp * 2 ^ c = (temp mod 2 ^ (32 - c)) * 2 ^ c + 2 ^ 32 * (temp / 2 ^ (32 - c)).
Proof.
  intros. rewrite (Z.div_mod temp (2 ^ (32 - c))) at 1 by (apply Z.pow_nonzero; lia).
  rewrite (pow2_split c) by lia. ring.
Qed.

Lemma w32_shiftl temp c : is_word temp -> 0 <= c < 32 ->
  w32 (temp .<< c) = (temp mod 2 ^ (32 - c)) .<< c.
Proof.
  intros. unfold w32. rewrite !Z.shiftl_mul_pow2 by lia.
  rewrite (pow2_split c) by lia.
  rewrite Z.mul_mod_distr_r; [reflexivity|apply Z.pow_nonzero; lia|apply Z.pow_nonzero; lia].
Qed.

Lemma NN_LShift_loop_spec digits b c carry : words b -> 0 <= c < 32 -> 0 <= carry < 2 ^ c ->
  let '(r, co) := NN_LShift_loop b c carry digits in
  length r = digits /\ words r /\ 0 <= co < 2 ^ c /\
  nn digits r + Bn digits * co = nn digits b * 2 ^ c + carry.
Proof.
  intros Hb Hc. revert b carry Hb; induction digits as [|k IH]; intros b carry Hb Hk;
    cbn [NN_LShift_loop]; [rewrite Bn_0; cbn [nn]; splits; auto; lia|].
  assert (Ht : is_word (hd 0 b)) by auto with words.
  unfold NN_DIGIT_BITS. rewrite shiftr_div by lia.
  pose proof (shift_word_split (hd 0 b) c Ht Hc) as E.
  pose proof (pow2_split c ltac:(lia)) as P.
  pose proof (Z.mod_pos_bound (hd 0 b) (2 ^ (32 - c)) ltac:(apply Z.pow_pos_nonneg; lia)) as Bm.
  assert (Hq : 0 <= hd 0 b / 2 ^ (32 - c) < 2 ^ c).
  { unfold is_word in Ht. split; [apply Z.div_pos; [lia|apply Z.pow_pos_nonneg; lia]|].
    apply Z.div_lt_upper_bound; [apply Z.pow_pos_nonneg; lia|lia]. }
  rewrite w32_shiftl, shiftl_lor_add by (auto; lia).
  replace (if c =? 0 then 0 else hd 0 b / 2 ^ (32 - c)) with (hd 0 b / 2 ^ (32 - c))
    by (destruct (Z.eqb_spec c 0) as [->|]; [change (2 ^ 0) with 1 in Hq; lia|auto]).
  specialize (IH (tl b) (hd 0 b / 2 ^ (32 - c)) ltac:(auto with words) Hq).
  destruct (NN_LShift_loop (tl b) c _ k) as [r co]. destruct IH as (L & W & Hco & V).
  rewrite !nn_S, Bn_S. cbn [length hd tl]. splits; try lia.
  constructor; [unfold is_word; nia|auto].
Qed.

Lemma NN_LShift_spec a b c digits : words a -> words b -> 0 <= c < 32 ->
  let '(r, co) := NN_LShift a b c digits in
  words r /\ 0 <= co < 2 ^ c /\ nn digits r + Bn digits * co = nn digits b * 2 ^ c /\
  (digits <= length a -> length r = length a)%nat.
Proof.
  intros Ha Hb Hc. unfold NN_LShift, NN_DIGIT_BITS.
  destruct (Z.ltb_spec c 32) as [_|]; [|lia].
  pose proof (NN_LShift_loop_spec digits b c 0 Hb Hc
    ltac:(pose proof (Z.pow_pos_nonneg 2 c); lia)) as H.
  destruct (NN_LShift_loop b c 0 digits) as [r co]. destruct H as (L & W & Hco & V).
  rewrite nn_store by auto. splits; auto with words; try lia.
  intros. apply length_store. lia.
Qed.

Lemma NN_RShift_loop_spec digits b c h acc : words b -> 0 <= c < 32 -> 0 <= h < 2 ^ c ->
  exists r, fst (NN_RShift_loop b c (h * 2 ^ (32 - c)) digits acc) = r ++ acc /\
    length r = digits /\ words r /\
    nn digits r = (nn digits b + Bn digits * h) / 2 ^ c.
Proof.
  intros Hb Hc. revert h acc; induction digits as [|k IH]; intros h acc Hh; cbn [NN_RShift_loop].
  { exists []. rewrite Bn_0. cbn [nn]. splits; auto. rewrite Z.div_small; lia. }
  assert (Ht : is_word (nth k b 0)) by auto with words.
  set (t := nth k b 0) in *. set (h' := t mod 2 ^ c).
  pose proof (Z.pow_pos_nonneg 2 c ltac:(lia) ltac:(lia)) as Pc.
  pose proof (Z.pow_pos_nonneg 2 (32 - c) ltac:(lia) ltac:(lia)) as Pd.
  pose proof (pow2_split c ltac:(lia)) as P.
  pose proof (Z.mod_pos_bound t (2 ^ c) Pc) as Hh'. fold h' in Hh'.
  pose proof (Z.div_mod t (2 ^ c) ltac:(lia)) as Dt. fold h' in Dt.
  assert (Hq : 0 <= t / 2 ^ c < 2 ^ (32 - c)).
  { unfold is_word in Ht. split; [apply Z.div_pos; lia|apply Z.div_lt_upper_bound; lia]. }
  assert (Ec : (if c =? 0 then 0 else w32 (t .<< (NN_DIGIT_BITS - c))) = h' * 2 ^ (32 - c)).
  { unfold NN_DIGIT_BITS, h'. destruct (Z.eqb_spec c 0) as [->|Hc0].
    - change (2 ^ 0) with 1. now rewrite Z.mod_1_r.
    - rewrite w32_shiftl by (auto; lia). rewrite Z.shiftl_mul_pow2 by lia.
      now replace (32 - (32 - c)) with c by lia. }
  rewrite Ec. destruct (IH h' ((t .>> c .| h * 2 ^ (32 - c)) :: acc) Hh') as (r & E & L & W & V).
  assert (Ed : t .>> c .| h * 2 ^ (32 - c) = t / 2 ^ c + h * 2 ^ (32 - c)).
  { rewrite shiftr_div by lia. rewrite <- (Z.shiftl_mul_pow2 h) by lia.
    rewrite lor_add, Z.shiftl_mul_pow2; lia. }
  exists (r ++ [t / 2 ^ c + h * 2 ^ (32 - c)]). rewrite E, Ed, <- app_assoc.
  splits; [reflexivity|rewrite length_app; cbn; lia| |].
  - apply Forall_app; split; [auto|]. constructor; [unfold is_word; nia|auto].
  - replace (S k) with (length r + 1)%nat at 1 by lia. rewrite nn_app, L, V.
    rewrite (nn_snoc k b), (nn_snoc 0), Bn_S, Bn_0. fold t. cbn [nn nth].
    replace (nn k b + Bn k * t + 2 ^ 32 * Bn k * h)
      with (nn k b + Bn k * h' + (Bn k * (t / 2 ^ c + h * 2 ^ (32 - c))) * 2 ^ c)
      by (rewrite P; rewrite Dt at 2; ring).
    rewrite Z.div_add by lia. lia.
Qed.

Lemma NN_RShift_spec a b c digits : words a -> words b -> 0 <= c < 32 ->
  let r := fst (NN_RShift a b c digits) in
  words r /\ nn digits r = nn digits b / 2 ^ c.
Proof.
  intros Ha Hb Hc. unfold NN_RShift, NN_DIGIT_BITS.
  destruct (Z.ltb_spec c 32) as [_|]; [|lia].
  destruct (NN_RShift_loop_spec digits b c 0 [] Hb Hc
    ltac:(pose proof (Z.pow_pos_nonneg 2 c); lia)) as (r & E & L & W & V).
  rewrite Z.mul_0_l in E. destruct (NN_RShift_loop b c 0 digits []) as [r' co].
  cbn [fst] in *. rewrite app_nil_r in E. subst r'. rewrite nn_store by auto.
  split; [auto with words|]. rewrite V. f_equal. lia.
Qed.

Lemma NN_Assign2Exp_spec a b digits : words a -> 0 <= b ->
  words (NN_Assign2Exp a b digits) /\
  nn digits (NN_Assign2Exp a b digits) = if b <? 32 * Z.of_nat digits then 2 ^ b else 0.
Proof.
  intros Ha Hb. unfold NN_Assign2Exp, NN_DIGIT_BITS.
  pose proof (words_AssignZero a digits Ha) as W. pose proof (NN_AssignZero_spec a digits) as Z0.
  rewrite Z.geb_leb.
  destruct (Z.leb_spec (Z.of_nat digits * 32) b); destruct (Z.ltb_spec b (32 * Z.of_nat digits));
    try lia; [auto|].
  split; [auto with words|].
  assert (Hi : (Z.to_nat (b / 32) < digits)%nat).
  { apply Nat2Z.inj_lt. rewrite Z2Nat.id by (apply Z.div_pos; lia). apply Z.div_lt_upper_bound; lia. }
  rewrite nn_upd; [|auto|].
  2:{ unfold NN_AssignZero, store. rewrite length_app, repeat_length. lia. }
  rewrite Z0. unfold NN_AssignZero, store.
  rewrite app_nth1 by (rewrite repeat_length; lia). rewrite nth_repeat.
  pose proof (Z.mod_pos_bound b 32 ltac:(lia)) as Bm.
  pose proof (Z.pow_pos_nonneg 2 (b mod 32) ltac:(lia) ltac:(lia)).
  pose proof (Z.pow_lt_mono_r 2 (b mod 32) 32 ltac:(lia) ltac:(lia) ltac:(lia)).
  rewrite Z.shiftl_mul_pow2, w32_small by (unfold is_word; lia).
  rewrite Z.add_0_l, Z.sub_0_r, Z.mul_1_l, Bn_pow by lia.
  rewrite Z2Nat.id by (apply Z.div_pos; lia). f_equal.
  pose proof (Z.div_mod b 32 ltac:(lia)). lia.
Qed.

(** ** Byte strings to digits and back *)

Lemma pow_8u u : 0 <= u -> 2 ^ (u + 8) = 2 ^ 8 * 2 ^ u.
Proof. intros. rewrite Z.pow_add_r by lia. lia. Qed.

Lemma NN_Decode_digit_spec k u t rb : bytes rb -> 0 <= u -> 0 <= t < 2 ^ u ->
  NN_Decode_digit k u t rb = (t + 2 ^ u * le (firstn k rb), skipn k rb).
Proof.
  intros Hb. revert k u t; induction Hb as [|x rb Hx Hb IH]; intros [|k] u t Hu Ht;
    cbn [NN_Decode_digit firstn skipn le]; try (f_equal; lia).
  rewrite lor_add by auto. unfold is_byte in Hx.
  rewrite IH by (rewrite ?pow_8u by lia; try lia; nia).
  rewrite pow_8u by lia. f_equal. lia.
Qed.

Lemma NN_Decode_loop_spec digits rb : bytes rb ->
  length (NN_Decode_loop digits rb) = digits /\ words (NN_Decode_loop digits rb) /\
  nn digits (NN_Decode_loop digits rb) = le rb mod Bn digits.
Proof.
  revert rb; induction digits as [|k IH]; intros rb Hb; cbn [NN_Decode_loop].
  { rewrite Bn_0, Z.mod_1_r. auto. }
  destruct rb as [|x rb'] eqn:Erb.
  { rewrite repeat_length, nn_repeat0. cbn [le]. rewrite Z.mod_0_l by (pose proof (Bn_pos (S k)); lia).
    auto with words. }
  rewrite <- Erb in *. clear Erb x rb'.
  rewrite NN_Decode_digit_spec by (auto; lia).
  destruct (IH (skipn 4 rb) ltac:(auto with words)) as (L & W & V).
  pose proof (le_bound (firstn 4 rb) ltac:(auto with words)) as B.
  assert (P4 : Pn (length (firstn 4 rb)) <= 2 ^ 32)
    by (apply (Pn_mono _ 4); rewrite length_firstn; lia).
  splits; [cbn [length]; lia|constructor; [unfold is_word; change (2 ^ 0) with 1; lia|auto]|].
  rewrite nn_S. cbn [hd tl]. rewrite V, Bn_S. change (2 ^ 0) with 1.
  assert (E : le rb = le (firstn 4 rb) + 2 ^ 32 * le (skipn 4 rb)).
  { rewrite <- (firstn_skipn 4 rb) at 1. rewrite le_app.
    destruct (Nat.le_gt_cases 4 (length rb)).
    - rewrite length_firstn, Nat.min_l by lia. reflexivity.
    - rewrite (skipn_all2 rb) by lia. cbn [le]. lia. }
  rewrite E, Z.rem_mul_r by (pose proof (Bn_pos k); lia).
  rewrite (Z.mul_comm (2 ^ 32) (le (skipn 4 rb))), Z_mod_plus_full, Z.div_add, (Z.mod_small (le (firstn 4 rb))),
    (Z.div_small (le (firstn 4 rb))) by lia.
  rewrite !Z.add_0_l. lia.
Qed.

Lemma NN_Decode_spec a digits b len : words a -> bytes b ->
  words (NN_Decode a digits b len) /\
  nn digits (NN_Decode a digits b len) = be (firstn len b) mod Bn digits.
Proof.
  intros Ha Hb. unfold NN_Decode.
  destruct (NN_Decode_loop_spec digits (rev (firstn len b))
    ltac:(apply Forall_rev; auto with words)) as (L & W & V).
  rewrite nn_store by auto. auto with words.
Qed.

Lemma NN_Encode_digit_spec k u t len : 0 <= u -> 0 <= t ->
  let '(r, l) := NN_Encode_digit k u t len in
  length r = Nat.min k len /\ l = (len - length r)%nat /\ bytes r /\
  le r = (t / 2 ^ u) mod Pn (length r).
Proof.
  intros Hu Ht. revert u len Hu; induction k as [|k IH]; intros u [|l] Hu;
    cbn [NN_Encode_digit]; try (cbn [le length]; rewrite Pn_0, Z.mod_1_r; splits; auto; lia).
  specialize (IH (u + 8) l ltac:(lia)). destruct (NN_Encode_digit k (u + 8) t l) as [r l'].
  destruct IH as (L & -> & W & V). cbn [length]. splits; [lia|lia|auto with words|].
  cbn [le]. rewrite V, Pn_S, shiftr_div, pow_8u, (Z.mul_comm (2 ^ 8) (2 ^ u)) by lia.
  rewrite <- Z.div_div by (try apply Z.pow_nonzero; lia).
  unfold w8. rewrite Z.rem_mul_r by (pose proof (Pn_pos (length r)); lia). reflexivity.
Qed.

Lemma NN_Encode_loop_spec digits b len : words b ->
  length (NN_Encode_loop digits b len) = len /\ bytes (NN_Encode_loop digits b len) /\
  le (NN_Encode_loop digits b len) = nn digits b mod Pn len.
Proof.
  revert b len; induction digits as [|k IH]; intros b len Hb; cbn [NN_Encode_loop].
  { rewrite repeat_length, le_repeat0. cbn [nn]. rewrite Z.mod_0_l by (pose proof (Pn_pos len); lia).
    auto with words. }
  assert (Wh : is_word (hd 0 b)) by auto with words.
  pose proof (NN_Encode_digit_spec 4 0 (hd 0 b) len ltac:(lia) ltac:(unfold is_word in Wh; lia)) as D.
  destruct (NN_Encode_digit 4 0 (hd 0 b) len) as [r l]. destruct D as (L & -> & W & V).
  destruct (IH (tl b) (len - length r)%nat ltac:(auto with words)) as (L' & W' & V').
  splits; [rewrite length_app; lia|apply Forall_app; auto|].
  rewrite le_app, V, V', nn_S. change (2 ^ 0) with 1. rewrite Z.div_1_r.
  pose proof (Pn_pos (length r)). pose proof (Pn_pos (len - length r)).
  destruct (Nat.le_gt_cases 4 len).
  - replace len with (length r + (len - length r))%nat at 2 by lia.
    rewrite L, Nat.min_l in * by lia. rewrite Pn_add, Z.rem_mul_r by lia.
    change (Pn 4) with (2 ^ 32). unfold is_word in Wh.
    rewrite (Z.mul_comm (2 ^ 32) (nn k (tl b))), Z_mod_plus_full, Z.div_add by lia.
    rewrite (Z.div_small (hd 0 b)), (Z.mod_small (hd 0 b)) by lia. rewrite Z.add_0_l. lia.
  - replace (len - length r)%nat with 0%nat by lia. rewrite Pn_0, Z.mod_1_r.
    replace (length r) with len by lia.
    replace (2 ^ 32) with (Pn (4 - len) * Pn len).
    2:{ rewrite <- Pn_add. now replace (4 - len + len)%nat with 4%nat by lia. }
    replace (hd 0 b + Pn (4 - len) * Pn len * nn k (tl b))
      with (hd 0 b + (Pn (4 - len) * nn k (tl b)) * Pn len) by ring.
    rewrite Z_mod_plus_full. lia.
Qed.

Lemma NN_Encode_spec a len b digits : bytes a -> words b ->
  bytes (NN_Encode a len b digits) /\
  length (firstn len (NN_Encode a len b digits)) = len /\
  be (firstn len (NN_Encode a len b digits)) = nn digits b mod Pn len.
Proof.
  intros Ha Hb. destruct (NN_Encode_loop_spec digits b len Hb) as (L & W & V).
  unfold NN_Encode. rewrite <- (length_rev (NN_Encode_loop _ _ _)) in L.
  assert (E : firstn len (store a (rev (NN_Encode_loop digits b len))) = rev (NN_Encode_loop digits b len))
    by (rewrite <- L at 1; apply firstn_store).
  rewrite E. splits; [apply Forall_store; auto; now apply Forall_rev|exact L|].
  unfold be. now rewrite rev_involutive.
Qed.

(** ** The claims *)

(** Addition and subtraction are exact with the carry and the borrow they return: the
    digits written and the returned bit are the sum, and the difference modulo 2^(32 digits). *)
Theorem NN_Add_Sub_exact (a b c : list Z) (digits : nat) : words a -> words b -> words c ->
  let '(r, carry) := NN_Add a b c digits in
  let '(s, borrow) := NN_Sub a b c digits in
  words r /\ bit carry /\ nn digits r + Bn digits * carry = nn digits b + nn digits c /\
  words s /\ bit borrow /\ nn digits s = nn digits b - nn digits c + Bn digits * borrow /\
  (borrow = 1 <-> nn digits b < nn digits c).
Proof.
  intros Ha Hb Hc. pose proof (NN_Add_spec a b c digits Ha Hb Hc) as HA.
  pose proof (NN_Sub_spec a b c digits Ha Hb Hc) as HS.
  destruct (NN_Add a b c digits) as [r co], (NN_Sub a b c digits) as [s bo].
  destruct HA as (W1 & B1 & E1), HS as (W2 & B2 & E2). splits; auto; [lia|].
  pose proof (nn_bound digits s W2). pose proof (nn_bound digits c Hc). pose proof (nn_bound digits b Hb).
  unfold bit in B2. split; intros; nia.
Qed.

Lemma NN_Add_Sub_exact_witness :
  let a := [0; 0] in let b := [0xffffffff; 1] in let c := [1; 2] in
  let '(r, carry) := NN_Add a b c 2 in
  let '(s, borrow) := NN_Sub a b c 2 in
  words r /\ bit carry /\ nn 2 r + Bn 2 * carry = nn 2 b + nn 2 c /\
  words s /\ bit borrow /\ nn 2 s = nn 2 b - nn 2 c + Bn 2 * borrow /\
  (borrow = 1 <-> nn 2 b < nn 2 c).
Proof. apply (NN_Add_Sub_exact [0; 0] [0xffffffff; 1] [1; 2] 2); check_words. Defined.

(** The schoolbook product with 16-bit half digits is exact. *)
Theorem NN_Mult_exact (a b c : list Z) (digits : nat) : words a -> words b -> words c ->
  words (NN_Mult a b c digits) /\
  nn (2 * digits) (NN_Mult a b c digits) = nn digits b * nn digits c.
Proof. intros. now apply NN_Mult_spec. Qed.

Lemma NN_Mult_exact_witness :
  words (NN_Mult [] [0xffffffff; 7] [0xfffffffe; 0xffffffff] 2) /\
  nn (2 * 2) (NN_Mult [] [0xffffffff; 7] [0xfffffffe; 0xffffffff] 2) =
  nn 2 [0xffffffff; 7] * nn 2 [0xfffffffe; 0xffffffff].
Proof. apply NN_Mult_exact; check_words. Defined.

(** A number of at most [len] bytes that is encoded and decoded again is unchanged, and
    the encoding has the length asked for and the big-endian value of the number. *)
Theorem NN_Encode_Decode_roundtrip (a d b : list Z) (len digits : nat) :
  bytes a -> words d -> words b -> nn digits b < Pn len ->
  let e := NN_Encode a len b digits in
  bytes e /\ length (firstn len e) = len /\ be (firstn len e) = nn digits b /\
  nn digits (NN_Decode d digits e len) = nn digits b.
Proof.
  intros Ba Wd Wb H e. destruct (NN_Encode_spec a len b digits Ba Wb) as (B1 & L1 & V1). fold e in B1, L1, V1.
  pose proof (nn_bound digits b Wb). rewrite Z.mod_small in V1 by lia.
  destruct (NN_Decode_spec d digits e len Wd B1) as [_ V2]. rewrite V1, Z.mod_small in V2 by lia.
  splits; auto.
Qed.

Lemma NN_Encode_Decode_roundtrip_witness :
  let e := NN_Encode (repeat 0 7) 7 [0x01020304; 0x00050607] 2 in
  bytes e /\ length (firstn 7 e) = 7%nat /\ be (firstn 7 e) = nn 2 [0x01020304; 0x00050607] /\
  nn 2 (NN_Decode [0; 0] 2 e 7) = nn 2 [0x01020304; 0x00050607].
Proof.
  apply (NN_Encode_Decode_roundtrip (repeat 0 7) [0; 0] [0x01020304; 0x00050607] 7 2);
    [check_bytes|check_words|check_words|reflexivity].
Defined.
