(* ===== verification/NNDiv.v ===== *)
(** * NNDiv: long division of natural numbers (src/QBase/RSAEuro/nn.c, [NN_Div])

    The quotient digit is first estimated from the two leading digits of the
    partial remainder and the leading digit of the normalised divisor, in two
    half-digit steps that each end with a correction loop; the estimate never
    exceeds the true digit, and a last loop adds the missing units. The theorems
    show that every loop terminates within its fuel and that the routine
    computes quotient and remainder. *)

From S2P Require Import Prelude NN.

(** ** Definitions *)

Fixpoint subdigitmult_loop (b : list Z) (c : Z) (d : list Z) (borrow : Z) (digits : nat)
  : list Z * Z :=
  match digits with
  | O => ([], borrow)
  | S k =>
      let '(thigh, tlow) := dmult c (hd 0 d) in
      let ai := w32 (hd 0 b - borrow) in
      let borrow := if ai >? w32 (MAX_NN_DIGIT - borrow) then 1 else 0 in
      let ai := w32 (ai - tlow) in
      let borrow := if ai >? w32 (MAX_NN_DIGIT - tlow) then w32 (borrow + 1) else borrow in
      let borrow := w32 (borrow + thigh) in
      let '(r, bo) := subdigitmult_loop (tl b) c (tl d) borrow k in
      (ai :: r, bo)
  end.

(** [a = b - c * d] on [digits] digits, returning the borrow. *)
Definition subdigitmult (a b : list Z) (c : Z) (d : list Z) (digits : nat) : list Z * Z :=
  if negb (c =? 0) then
    let '(r, borrow) := subdigitmult_loop b c d 0 digits in (store a r, borrow)
  else (a, 0).

(** [if ((t[0] -= x) > (MAX_NN_DIGIT - x)) t[1]--;] *)
Definition t_sub (t0 t1 x : Z) : Z * Z :=
  let t0 := w32 (t0 - x) in
  (t0, if t0 >? w32 (MAX_NN_DIGIT - x) then w32 (t1 - 1) else t1).

(** The correction loop for the high half of the quotient digit. *)
Definition NN_Div_high_step (cHigh cLow : Z) (st : Z * Z * Z) : Z * Z * Z + Z * Z * Z :=
  let '(t0, t1, aHigh) := st in
  if (t1 >? cHigh) || ((t1 =? cHigh) && (t0 >=? TO_HIGH_HALF cLow)) then
    let '(t0, t1) := t_sub t0 t1 (TO_HIGH_HALF cLow) in
    inl (t0, w32 (t1 - cHigh), w16 (aHigh + 1))
  else inr st.

(** The correction loop for the low half. *)
Definition NN_Div_low_step (s : Z) (st : Z * Z * Z) : Z * Z * Z + Z * Z * Z :=
  let '(t0, t1, aLow) := st in
  if (t1 >? 0) || ((t1 =? 0) && (t0 >=? s)) then
    let '(t0, t1) := t_sub t0 t1 s in inl (t0, t1, w16 (aLow + 1))
  else inr st.

(** The estimate of a quotient digit from [t], with [s] already incremented. *)
Definition NN_Div_estimate (t0 t1 s : Z) : option Z :=
  let cHigh := HIGH_HALF s in
  let cLow := LOW_HALF s in
  let aHigh := if cHigh =? MAX_NN_HALF_DIGIT then HIGH_HALF t1 else w16 (t1 / (cHigh + 1)) in
  let u := w32 (aHigh * cLow) in
  let v := w32 (aHigh * cHigh) in
  let '(t0, t1) := t_sub t0 t1 (TO_HIGH_HALF u) in
  let t1 := w32 (t1 - HIGH_HALF u) in
  let t1 := w32 (t1 - v) in
  let? (t0, t1, aHigh) := run 64 (NN_Div_high_step cHigh cLow) (t0, t1, aHigh) in
  let aLow := if cHigh =? MAX_NN_HALF_DIGIT then LOW_HALF t1
              else w16 (w32 (TO_HIGH_HALF t1 + HIGH_HALF t0) / (cHigh + 1)) in
  let u := w32 (aLow * cLow) in
  let v := w32 (aLow * cHigh) in
  let '(t0, t1) := t_sub t0 t1 u in
  let '(t0, t1) := t_sub t0 t1 (TO_HIGH_HALF v) in
  let t1 := w32 (t1 - HIGH_HALF v) in
  let? (_, _, aLow) := run 64 (NN_Div_low_step s) (t0, t1, aLow) in
  Some (w32 (TO_HIGH_HALF aHigh + aLow)).

(** The last correction loop, on the window [w] of [cc] that starts at digit [i]. *)
Definition NN_Div_correct_step (dd : list Z) (ddDigits : nat) (st : Z * list Z)
  : Z * list Z + Z * list Z :=
  let '(ai, w) := st in
  if negb (nth ddDigits w 0 =? 0) || (NN_Cmp w dd ddDigits >=? 0) then
    let '(w, borrow) := NN_Sub w w dd ddDigits in
    inl (w32 (ai + 1), upd w ddDigits (w32 (nth ddDigits w 0 - borrow)))
  else inr st.

(** The first underestimate of the quotient digit of the window [w]. *)
Definition NN_Div_guess (w : list Z) (ddDigits : nat) (s : Z) : option Z :=
  if s =? MAX_NN_DIGIT then Some (nth ddDigits w 0)
  else NN_Div_estimate (nth (ddDigits - 1) w 0) (nth ddDigits w 0) (w32 (s + 1)).

(** The loop over [i = n - 1], ..., 0. *)
Fixpoint NN_Div_loop (n : nat) (cc dd : list Z) (ddDigits : nat) (s : Z) (a : list Z)
  : option (list Z * list Z) :=
  match n with
  | O => Some (a, cc)
  | S i =>
      let w := skipn i cc in
      let? ai := NN_Div_guess w ddDigits s in
      let '(w, borrow) := subdigitmult w w ai dd ddDigits in
      let w := upd w ddDigits (w32 (nth ddDigits w 0 - borrow)) in
      let? (ai, w) := run 32 (NN_Div_correct_step dd ddDigits) (ai, w) in
      NN_Div_loop i (firstn i cc ++ w) dd ddDigits s (upd a i ai)
  end.

(** [a = c div d], [b = c mod d]; when [d] is zero the routine returns at once. The
    result is [None] only if a loop exhausts its fuel. *)
Definition NN_Div (a b c : list Z) (cDigits : nat) (d : list Z) (dDigits : nat)
  : option (list Z * list Z) :=
  let ddDigits := NN_Digits d dDigits in
  if Nat.eqb ddDigits 0 then Some (a, b)
  else
    let shift := NN_DIGIT_BITS - NN_DigitBits (nth (ddDigits - 1) d 0) in
    let cc := NN_AssignZero (repeat 0 (2 * MAX_NN_DIGITS + 1)) ddDigits in
    let '(cc, carry) := NN_LShift cc c shift cDigits in
    let cc := upd cc cDigits carry in
    let '(dd, _) := NN_LShift (repeat 0 MAX_NN_DIGITS) d shift ddDigits in
    let s := nth (ddDigits - 1) dd 0 in
    let a := NN_AssignZero a cDigits in
    let? (a, cc) := NN_Div_loop (S cDigits - ddDigits) cc dd ddDigits s a in
    let b := NN_AssignZero b dDigits in
    Some (a, fst (NN_RShift b cc shift ddDigits)).

(** ** Subtraction of a multiple *)

Lemma w32_max x : is_word x -> w32 (MAX_NN_DIGIT - x) = MAX_NN_DIGIT - x.
Proof. intros. apply w32_small. unfold is_word, MAX_NN_DIGIT in *. lia. Qed.

Lemma subdigitmult_digit b c d borrow thigh tlow :
  is_word b -> is_word c -> is_word d -> is_word borrow -> dmult c d = (thigh, tlow) ->
  let a0 := w32 (b - borrow) in
  let b1 := if a0 >? w32 (MAX_NN_DIGIT - borrow) then 1 else 0 in
  let a1 := w32 (a0 - tlow) in
  let b2 := if a1 >? w32 (MAX_NN_DIGIT - tlow) then w32 (b1 + 1) else b1 in
  is_word a1 /\ is_word (w32 (b2 + thigh)) /\
  a1 - 2 ^ 32 * w32 (b2 + thigh) = b - c * d - borrow.
Proof.
  intros Hb Hc Hd Hk Hm a0 b1 a1 b2.
  pose proof (dmult_spec c d Hc Hd) as D. rewrite Hm in D. destruct D as (Wh & Wl & E).
  pose proof (w32_sub_borrow b borrow Hb Hk) as E1. fold a0 in E1.
  pose proof (w32_word (b - borrow)) as W0. fold a0 in W0.
  pose proof (w32_sub_borrow a0 tlow W0 Wl) as E2. fold a1 in E2.
  pose proof (w32_word (a0 - tlow)) as W1. fold a1 in W1.
  rewrite <- w32_max in E1, E2 by auto. fold b1 in E1.
  splits; [auto|auto with words|].
  assert (Hb1 : b1 = 0 \/ b1 = 1) by (subst b1; destruct (a0 >? _); auto).
  assert (Hb2 : b2 = b1 + (if a1 >? w32 (MAX_NN_DIGIT - tlow) then 1 else 0)).
  { subst b2. destruct (a1 >? _); [|lia]. apply w32_small. unfold is_word; lia. }
  assert (T : a1 - 2 ^ 32 * (b2 + thigh) = b - c * d - borrow) by lia.
  rewrite w32_small; [exact T|].
  assert (c * d <= (2 ^ 32 - 1) * (2 ^ 32 - 1)) by (unfold is_word in *; nia).
  unfold is_word in *. assert (0 <= b2) by (destruct (a1 >? _); lia). lia.
Qed.

Lemma subdigitmult_loop_spec digits b c d borrow :
  words b -> is_word c -> words d -> is_word borrow ->
  let '(r, bo) := subdigitmult_loop b c d borrow digits in
  length r = digits /\ words r /\ is_word bo /\
  nn digits r - Bn digits * bo = nn digits b - c * nn digits d - borrow.
Proof.
  intros Hb Hc. revert b d borrow Hb; induction digits as [|k IH]; intros b d borrow Hb Hd Hk;
    cbn [subdigitmult_loop]; [rewrite Bn_0; cbn [nn]; splits; auto; lia|].
  destruct (dmult c (hd 0 d)) as [thigh tlow] eqn:Hm.
  pose proof (subdigitmult_digit (hd 0 b) c (hd 0 d) borrow thigh tlow
    ltac:(auto with words) Hc ltac:(auto with words) Hk Hm) as (W1 & Wk & E). cbv zeta in *.
  set (a1 := w32 (w32 (hd 0 b - borrow) - tlow)) in *.
  set (bo1 := w32 ((if a1 >? _ then _ else _) + thigh)) in *.
  specialize (IH (tl b) (tl d) bo1 ltac:(auto with words) ltac:(auto with words) Wk).
  destruct (subdigitmult_loop (tl b) c (tl d) bo1 k) as [r bo].
  destruct IH as (L & W & Wbo & V). rewrite !nn_S, Bn_S. cbn [length hd tl].
  splits; auto; lia.
Qed.

Lemma subdigitmult_spec w c d digits : words w -> is_word c -> words d ->
  (digits <= length w)%nat ->
  let '(r, bo) := subdigitmult w w c d digits in
  words r /\ is_word bo /\ length r = length w /\ nn digits r - Bn digits * bo = nn digits w - c * nn digits d /\
  nth digits r 0 = nth digits w 0.
Proof.
  intros Hw Hc Hd Hl. unfold subdigitmult.
  destruct (Z.eqb_spec c 0) as [->|_]; cbn [negb]; [splits; auto with words; lia|].
  pose proof (subdigitmult_loop_spec digits w c d 0 Hw Hc Hd word_0) as H.
  destruct (subdigitmult_loop w c d 0 digits) as [r bo]. destruct H as (L & W & Wbo & V).
  rewrite nn_store, length_store by lia. splits; auto with words; [lia|].
  unfold store. rewrite app_nth2, L, Nat.sub_diag by lia.
  rewrite nth_skipn. f_equal. lia.
Qed.

(** ** The estimate of a quotient digit is exact for the two-digit prefix *)

(** The two-digit number [t]. *)
Definition tval (t0 t1 : Z) : Z := t0 + 2 ^ 32 * t1.

Lemma t_sub_spec t0 t1 x : is_word t0 -> is_word t1 -> is_word x -> x <= tval t0 t1 ->
  let '(t0', t1') := t_sub t0 t1 x in
  is_word t0' /\ is_word t1' /\ tval t0' t1' = tval t0 t1 - x.
Proof.
  unfold t_sub, tval. intros H0 H1 Hx Hle.
  pose proof (w32_sub_borrow t0 x H0 Hx) as E. pose proof (w32_word (t0 - x)) as W.
  rewrite <- w32_max in E by auto. revert E.
  destruct (w32 (t0 - x) >? w32 (MAX_NN_DIGIT - x)); intros E; splits; auto with words; try lia.
  rewrite (w32_small (t1 - 1)) by (unfold is_word in *; lia). lia.
Qed.

(** [t1 -= y]. *)
Lemma t1_sub_spec t0 t1 y : is_word t0 -> is_word t1 -> 0 <= y -> 2 ^ 32 * y <= tval t0 t1 ->
  is_word (w32 (t1 - y)) /\ tval t0 (w32 (t1 - y)) = tval t0 t1 - 2 ^ 32 * y.
Proof.
  unfold tval. intros H0 H1 Hy Hle. rewrite w32_small by (unfold is_word in *; lia).
  split; [unfold is_word in *; lia|lia].
Qed.

Section Estimate.
Context (s : Z) (Hs : is_word s) (Hbig : 2 ^ 31 <= s).
Let cHigh := HIGH_HALF s.
Let cLow := LOW_HALF s.

Lemma s_halves : s = cHigh * 2 ^ 16 + cLow /\ 0 <= cLow < 2 ^ 16 /\ 2 ^ 15 <= cHigh < 2 ^ 16.
Proof using Hs Hbig.
  destruct (halves s Hs) as (_ & Eh & Hl & Hh & E). unfold cHigh, cLow.
  unfold is_word in Hs. splits; lia.
Qed.

Lemma cLow_high : TO_HIGH_HALF cLow = cLow * 2 ^ 16.
Proof using Hs Hbig.
  destruct s_halves as (_ & ? & _). rewrite TO_HIGH_HALF_spec, Z.mod_small by lia. lia.
Qed.

Lemma NN_Div_high_total t0 t1 aHigh T :
  is_word t0 -> is_word t1 -> 0 <= aHigh -> T < s * 2 ^ 32 ->
  tval t0 t1 = T - aHigh * (s * 2 ^ 16) ->
  exists t0' t1' aHigh', run 64 (NN_Div_high_step cHigh cLow) (t0, t1, aHigh) = Some (t0', t1', aHigh') /\
    is_word t0' /\ is_word t1' /\ 0 <= aHigh' < 2 ^ 16 /\
    tval t0' t1' = T - aHigh' * (s * 2 ^ 16) /\ tval t0' t1' < s * 2 ^ 16.
Proof using Hs Hbig.
  intros W0 W1 Ha HT E. destruct s_halves as (Es & Hl & Hh).
  destruct (run_total (NN_Div_high_step cHigh cLow)
    (fun '(t0, t1, a) => is_word t0 /\ is_word t1 /\ 0 <= a < 2 ^ 16 /\
                         tval t0 t1 = T - a * (s * 2 ^ 16))
    (fun '(t0, t1, _) => tval t0 t1)
    (fun '(t0, t1, a) => is_word t0 /\ is_word t1 /\ 0 <= a < 2 ^ 16 /\
                         tval t0 t1 = T - a * (s * 2 ^ 16) /\ tval t0 t1 < s * 2 ^ 16))
    with (n := 64%nat) (s := (t0, t1, aHigh)) as ([[t0' t1'] a'] & R & P).
  - clear t0 t1 aHigh W0 W1 Ha E. intros [[t0 t1] a] (W0 & W1 & Ha & E).
    unfold NN_Div_high_step. rewrite cLow_high.
    destruct ((t1 >? cHigh) || (t1 =? cHigh) && (t0 >=? cLow * 2 ^ 16)) eqn:C.
    + assert (Hge : s * 2 ^ 16 <= tval t0 t1).
      { unfold tval, is_word in *. apply orb_true_iff in C. rewrite andb_true_iff in C.
        rewrite Z.gtb_lt, Z.eqb_eq, Z.geb_le in C. destruct C as [C|[-> C]]; lia. }
      pose proof (t_sub_spec t0 t1 (cLow * 2 ^ 16) W0 W1
        ltac:(unfold is_word; lia) ltac:(lia)) as S1.
      destruct (t_sub t0 t1 (cLow * 2 ^ 16)) as [t0' t1']. destruct S1 as (W0' & W1' & E1).
      destruct (t1_sub_spec t0' t1' cHigh W0' W1' ltac:(lia) ltac:(lia)) as [W1'' E2].
      assert (Ha' : a + 1 < 2 ^ 16) by (unfold tval, is_word in *; nia).
      unfold w16. rewrite (Z.mod_small (a + 1)) by lia. splits; auto; lia.
    + splits; auto; try lia.
      unfold tval, is_word in *. apply orb_false_iff in C. rewrite andb_false_iff in C.
      rewrite Z.eqb_neq, Z.gtb_ltb, Z.ltb_ge, Z.geb_leb, Z.leb_gt in C. lia.
  - splits; eauto; try lia. unfold tval, is_word in *; nia.
  - unfold tval, is_word in *. change (2 ^ Z.of_nat 64) with (2 ^ 32 * 2 ^ 32). nia.
  - exists t0', t1', a'. split; [exact R|exact P].
Qed.

Lemma NN_Div_low_total t0 t1 aLow T :
  is_word t0 -> is_word t1 -> 0 <= aLow -> T < s * 2 ^ 16 -> tval t0 t1 = T - aLow * s ->
  exists t0' t1' aLow', run 64 (NN_Div_low_step s) (t0, t1, aLow) = Some (t0', t1', aLow') /\
    0 <= aLow' < 2 ^ 16 /\ 0 <= T - aLow' * s < s.
Proof using Hs Hbig.
  intros W0 W1 Ha HT E. unfold is_word in Hs.
  destruct (run_total (NN_Div_low_step s)
    (fun '(t0, t1, a) => is_word t0 /\ is_word t1 /\ 0 <= a < 2 ^ 16 /\ tval t0 t1 = T - a * s)
    (fun '(t0, t1, _) => tval t0 t1)
    (fun '(t0, t1, a) => 0 <= a < 2 ^ 16 /\ 0 <= T - a * s < s))
    with (n := 64%nat) (s := (t0, t1, aLow)) as ([[t0' t1'] a'] & R & P).
  - clear t0 t1 aLow W0 W1 Ha E. intros [[t0 t1] a] (W0 & W1 & Ha & E).
    unfold NN_Div_low_step.
    destruct ((t1 >? 0) || (t1 =? 0) && (t0 >=? s)) eqn:C.
    + assert (Hge : s <= tval t0 t1).
      { unfold tval, is_word in *. apply orb_true_iff in C. rewrite andb_true_iff in C.
        rewrite Z.gtb_lt, Z.eqb_eq, Z.geb_le in C. destruct C as [C|[-> C]]; lia. }
      pose proof (t_sub_spec t0 t1 s W0 W1 Hs Hge) as S1.
      destruct (t_sub t0 t1 s) as [t0' t1']. destruct S1 as (W0' & W1' & E1).
      assert (Ha' : a + 1 < 2 ^ 16) by (unfold tval, is_word in *; nia).
      unfold w16. rewrite (Z.mod_small (a + 1)) by lia. splits; auto; lia.
    + unfold tval, is_word in *. apply orb_false_iff in C. rewrite andb_false_iff in C.
      rewrite Z.eqb_neq, Z.gtb_ltb, Z.ltb_ge, Z.geb_leb, Z.leb_gt in C. lia.
  - splits; eauto; try lia. unfold tval, is_word in *; nia.
  - unfold tval, is_word in *. change (2 ^ Z.of_nat 64) with (2 ^ 32 * 2 ^ 32). nia.
  - exists t0', t1', a'. split; [exact R|exact P].
Qed.

Lemma aHigh_guess t1 : is_word t1 -> t1 < s ->
  let aHigh := if cHigh =? MAX_NN_HALF_DIGIT then HIGH_HALF t1 else w16 (t1 / (cHigh + 1)) in
  0 <= aHigh < 2 ^ 16 /\ aHigh * (s * 2 ^ 16) <= 2 ^ 32 * t1.
Proof using Hs Hbig.
  intros W1 Hlt. destruct s_halves as (Es & Hl & Hh). cbv zeta. unfold is_word in *.
  destruct (Z.eqb_spec cHigh MAX_NN_HALF_DIGIT) as [E|E].
  - destruct (halves t1 W1) as (_ & _ & ? & ? & ?). nia.
  - unfold MAX_NN_HALF_DIGIT in E.
    pose proof (Z.div_mod t1 (cHigh + 1) ltac:(lia)).
    pose proof (Z.mod_pos_bound t1 (cHigh + 1) ltac:(lia)).
    assert (0 <= t1 / (cHigh + 1) < 2 ^ 16)
      by (split; [apply Z.div_pos; lia|apply Z.div_lt_upper_bound; lia]).
    unfold w16. rewrite Z.mod_small by lia. split; [lia|nia].
Qed.

Lemma aLow_guess t0 t1 : is_word t0 -> is_word t1 -> tval t0 t1 < s * 2 ^ 16 ->
  let aLow := if cHigh =? MAX_NN_HALF_DIGIT then LOW_HALF t1
              else w16 (w32 (TO_HIGH_HALF t1 + HIGH_HALF t0) / (cHigh + 1)) in
  0 <= aLow < 2 ^ 16 /\ aLow * s <= tval t0 t1.
Proof using Hs Hbig.
  intros W0 W1 Hlt. destruct s_halves as (Es & Hl & Hh). cbv zeta. unfold tval, is_word in *.
  assert (Ht1 : 0 <= t1 <= cHigh) by lia.
  destruct (halves t0 W0) as (_ & _ & Bl & Bh & E0).
  assert (E1 : LOW_HALF t1 = t1)
    by (destruct (halves t1 W1) as (-> & _); apply Z.mod_small; lia).
  destruct (Z.eqb_spec cHigh MAX_NN_HALF_DIGIT) as [E|E]; [rewrite E1; nia|].
  unfold MAX_NN_HALF_DIGIT in E. rewrite TO_HIGH_HALF_spec, (Z.mod_small t1) by lia.
  rewrite w32_small by (unfold is_word; lia).
  set (X := t1 * 2 ^ 16 + HIGH_HALF t0) in *.
  assert (HX : 0 <= X /\ X < (cHigh + 1) * 2 ^ 16) by lia.
  pose proof (Z.div_mod X (cHigh + 1) ltac:(lia)).
  pose proof (Z.mod_pos_bound X (cHigh + 1) ltac:(lia)).
  assert (0 <= X / (cHigh + 1) < 2 ^ 16)
    by (split; [apply Z.div_pos; lia|apply Z.div_lt_upper_bound; lia]).
  unfold w16. rewrite Z.mod_small by lia. split; [lia|nia].
Qed.

Lemma NN_Div_estimate_total t0 t1 : is_word t0 -> is_word t1 -> t1 < s ->
  NN_Div_estimate t0 t1 s = Some (tval t0 t1 / s).
Proof using Hs Hbig.
  intros W0 W1 Hlt. unfold NN_Div_estimate. fold cHigh cLow.
  destruct s_halves as (Es & Hl & Hh). assert (Bs : s < 2 ^ 32) by (unfold is_word in Hs; lia).
  destruct (aHigh_guess t1 W1 Hlt) as [Ba Ga].
  set (aHigh := if cHigh =? MAX_NN_HALF_DIGIT then _ else _) in *. clearbody aHigh.
  rewrite !(w32_small (aHigh * _)) by (unfold is_word; nia).
  assert (Hu : is_word (aHigh * cLow)) by (unfold is_word; nia).
  destruct (halves _ Hu) as (El & Eh & Bl & Bh & Eu). unfold is_word in Hu.
  rewrite TO_HIGH_HALF_spec, <- El by lia.
  set (ul := LOW_HALF (aHigh * cLow)) in *. set (uh := HIGH_HALF (aHigh * cLow)) in *.
  assert (T0 : aHigh * (s * 2 ^ 16) = ul * 2 ^ 16 + 2 ^ 32 * uh + 2 ^ 32 * (aHigh * cHigh)) by nia.
  assert (P0 : 0 <= aHigh * cHigh) by nia.
  assert (HT : tval t0 t1 < s * 2 ^ 32) by (unfold tval, is_word in *; lia).
  assert (HG : aHigh * (s * 2 ^ 16) <= tval t0 t1) by (unfold tval, is_word in *; lia).
  pose proof (t_sub_spec t0 t1 (ul * 2 ^ 16) W0 W1 ltac:(unfold is_word; lia) ltac:(lia)) as S1.
  destruct (t_sub t0 t1 (ul * 2 ^ 16)) as [x0 x1]. destruct S1 as (X0 & X1 & EX).
  destruct (t1_sub_spec x0 x1 uh X0 X1 ltac:(lia) ltac:(lia)) as [X1' EX'].
  destruct (t1_sub_spec x0 _ (aHigh * cHigh) X0 X1' P0 ltac:(lia)) as [X1'' EX''].
  destruct (NN_Div_high_total x0 _ aHigh (tval t0 t1) X0 X1'' ltac:(lia) HT ltac:(lia))
    as (y0 & y1 & aH & -> & Y0 & Y1 & BH & EY & LY). cbn [obind].
  destruct (aLow_guess y0 y1 Y0 Y1 LY) as [Bb Gb].
  set (aLow := if cHigh =? MAX_NN_HALF_DIGIT then _ else _) in *. clearbody aLow.
  rewrite !(w32_small (aLow * _)) by (unfold is_word; nia).
  assert (Hv : is_word (aLow * cHigh)) by (unfold is_word; nia).
  assert (Hu' : is_word (aLow * cLow)) by (unfold is_word; nia).
  destruct (halves _ Hv) as (Evl & Evh & Bvl & Bvh & Ev).
  rewrite TO_HIGH_HALF_spec, <- Evl by (unfold is_word in Hv; lia).
  set (vl := LOW_HALF (aLow * cHigh)) in *. set (vh := HIGH_HALF (aLow * cHigh)) in *.
  assert (T1 : aLow * s = aLow * cLow + vl * 2 ^ 16 + 2 ^ 32 * vh) by nia.
  pose proof (t_sub_spec y0 y1 (aLow * cLow) Y0 Y1 Hu' ltac:(lia)) as S2.
  destruct (t_sub y0 y1 (aLow * cLow)) as [z0 z1]. destruct S2 as (Z0 & Z1 & EZ).
  pose proof (t_sub_spec z0 z1 (vl * 2 ^ 16) Z0 Z1 ltac:(unfold is_word; lia) ltac:(lia)) as S3.
  destruct (t_sub z0 z1 (vl * 2 ^ 16)) as [q0 q1]. destruct S3 as (Q0 & Q1 & EQ).
  destruct (t1_sub_spec q0 q1 vh Q0 Q1 ltac:(lia) ltac:(lia)) as [Q1' EQ'].
  destruct (NN_Div_low_total q0 _ aLow (tval y0 y1) Q0 Q1' ltac:(lia) LY ltac:(lia))
    as (r0 & r1 & aL & -> & BL & ER). cbn [obind]. f_equal.
  rewrite TO_HIGH_HALF_spec, Z.mod_small by lia.
  rewrite w32_small by (unfold is_word; lia).
  apply Z.div_unique_pos with (tval y0 y1 - aL * s); lia.
Qed.
End Estimate.

(** ** One quotient digit *)

Lemma nth_store_end {A} (a r : list A) d : nth (length r) (store a r) d = nth (length r) a d.
Proof.
  unfold store. rewrite app_nth2, Nat.sub_diag, nth_skipn by lia. f_equal. lia.
Qed.

Lemma NN_Sub_frame w c digits : words w -> words c -> (digits <= length w)%nat ->
  nth digits (fst (NN_Sub w w c digits)) 0 = nth digits w 0 /\
  length (fst (NN_Sub w w c digits)) = length w.
Proof.
  intros Hw Hc Hl. unfold NN_Sub.
  pose proof (NN_Sub_loop_spec digits w c 0 Hw Hc (or_introl eq_refl)) as H.
  destruct (NN_Sub_loop w c 0 digits) as [r bo]. destruct H as (L & _). cbn [fst].
  split; [subst digits; apply nth_store_end|apply length_store; lia].
Qed.

Lemma nn_upd_above k a x : nn k (upd a k x) = nn k a.
Proof. apply nn_ext. intros i Hi. apply nth_upd_ne. lia. Qed.

(** Subtracting [y] from the [k]-digit part of a window and the borrow from its top
    digit subtracts [y] from the whole window. *)
Lemma window_sub k w w' bo y : words w' -> (k < length w')%nat ->
  nn k w' - Bn k * bo = nn k w - y -> nth k w' 0 = nth k w 0 -> is_word (nth k w 0) ->
  0 <= bo -> 0 <= nn (S k) w - y ->
  let v := upd w' k (w32 (nth k w' 0 - bo)) in
  words v /\ nn (S k) v = nn (S k) w - y /\ length v = length w'.
Proof.
  intros W Hl E Hn Ht Hbo Hy v.
  pose proof (nn_bound k w' W). rewrite nn_snoc in Hy.
  assert (Hw : is_word (nth k w 0 - bo)) by (pose proof (Bn_pos k); unfold is_word in *; nia).
  subst v. rewrite Hn, (w32_small _ Hw).
  splits; [auto with words| |apply length_upd].
  rewrite !nn_snoc, nn_upd_above, nth_upd_eq by auto. lia.
Qed.

Section Digit.
Context (dd : list Z) (k : nat) (Wd : words dd).
Let D := nn k dd.
Hypothesis Dpos : 0 < D.

Lemma D_bound : D < Bn k.
Proof using Wd Dpos. unfold D. pose proof (nn_bound k dd Wd). lia. Qed.

Lemma window_test w : words w ->
  negb (nth k w 0 =? 0) || (NN_Cmp w dd k >=? 0) = (D <=? nn (S k) w).
Proof using Wd Dpos.
  intros Hw. rewrite NN_Cmp_sgn by auto. fold D. rewrite nn_snoc.
  pose proof (nn_bound k w Hw). pose proof (nth_word w k Hw). pose proof D_bound.
  unfold is_word in *.
  destruct (Z.eqb_spec (nth k w 0) 0) as [->|E]; cbn [negb orb].
  - rewrite Z.mul_0_r, Z.add_0_r, Z.geb_leb.
    destruct (Z.leb_spec D (nn k w)); [apply Z.leb_le|apply Z.leb_gt]; lia.
  - symmetry. apply Z.leb_le. nia.
Qed.

Lemma NN_Div_correct_total ai w T : is_word ai -> words w -> (k < length w)%nat ->
  T < 2 ^ 32 * D -> T = ai * D + nn (S k) w ->
  exists ai' w', run 32 (NN_Div_correct_step dd k) (ai, w) = Some (ai', w') /\
    is_word ai' /\ words w' /\ length w' = length w /\
    T = ai' * D + nn k w' /\ nn k w' < D.
Proof using Wd Dpos.
  intros Wa Ww Hl HT E.
  destruct (run_total (NN_Div_correct_step dd k)
    (fun '(a, v) => is_word a /\ words v /\ length v = length w /\ T = a * D + nn (S k) v)
    (fun '(a, _) => 2 ^ 32 - 1 - a)
    (fun '(a, v) => is_word a /\ words v /\ length v = length w /\
                    T = a * D + nn k v /\ nn k v < D))
    with (n := 32%nat) (s := (ai, w)) as ([a' v'] & R & P).
  - clear ai Wa E. intros [a v] (Wa & Wv & Lv & E). unfold NN_Div_correct_step.
    rewrite window_test by auto.
    destruct (Z.leb_spec D (nn (S k) v)) as [C|C].
    + destruct (NN_Sub_frame v dd k Wv Wd ltac:(lia)) as [F1 F2].
      pose proof (NN_Sub_spec v v dd k Wv Wv Wd) as S1.
      destruct (NN_Sub v v dd k) as [v1 bo]. cbn [fst] in *. destruct S1 as (W1 & Hbo & E1).
      destruct (window_sub k v v1 bo D W1 ltac:(lia) E1 F1 ltac:(auto with words)
        ltac:(unfold bit in Hbo; lia) ltac:(lia)) as (W2 & E2 & L2).
      assert (Ha : is_word (a + 1)).
      { destruct Wa. split; [lia|]. apply Zmult_lt_reg_r with D; lia. }
      rewrite (w32_small _ Ha).
      splits; auto; [lia|rewrite E2; lia|unfold is_word in Ha; lia|lia].
    + rewrite nn_snoc in C, E. pose proof (nn_bound k v Wv).
      pose proof (nth_word v k Wv). pose proof D_bound. pose proof (Bn_pos k).
      assert (nth k v 0 = 0) as Z0 by (unfold is_word in *; nia).
      rewrite Z0 in *. splits; auto; lia.
  - auto.
  - destruct Wa. change (2 ^ Z.of_nat 32) with (2 ^ 32). lia.
  - exists a', v'. split; [exact R|]. destruct P as (? & ? & ? & ? & ?). auto.
Qed.

(** The estimate is at most the quotient of the window by the divisor. *)
Hypothesis kpos : (0 < k)%nat.
Let s := nth (k - 1) dd 0.
Hypothesis normalised : 2 ^ 31 <= s.

Lemma D_top : s * Bn (k - 1) <= D < (s + 1) * Bn (k - 1).
Proof using Wd Dpos kpos normalised.
  pose proof (nn_bound (k - 1) dd Wd).
  assert (E : D = nn (k - 1) dd + Bn (k - 1) * s)
    by (unfold D, s; rewrite <- nn_snoc; f_equal; lia).
  lia.
Qed.

Lemma window_top w : words w -> nn (S k) w < 2 ^ 32 * D -> nth k w 0 <= s.
Proof using Wd Dpos kpos normalised.
  intros Hw H. pose proof D_top as Dt. pose proof (nn_bound k w Hw).
  rewrite nn_snoc in H. replace (Bn k) with (2 ^ 32 * Bn (k - 1)) in H
    by (rewrite <- Bn_S; f_equal; lia).
  pose proof (Bn_pos (k - 1)). nia.
Qed.

Lemma NN_Div_guess_total w : words w -> nn (S k) w < 2 ^ 32 * D ->
  exists ai, NN_Div_guess w k s = Some ai /\ is_word ai /\ ai * D <= nn (S k) w.
Proof using Wd Dpos kpos normalised.
  intros Hw H. pose proof D_top as Dt. pose proof (Bn_pos (k - 1)) as Bp.
  pose proof (window_top w Hw H) as Ht. pose proof D_bound as Db.
  assert (Wk : is_word (nth k w 0)) by auto with words.
  assert (Wk1 : is_word (nth (k - 1) w 0)) by auto with words.
  assert (Ws : is_word s) by (unfold s; auto with words).
  pose proof (nn_bound k w Hw) as Bw. pose proof (nn_bound (k - 1) w Hw) as Bw1.
  assert (E : nn (S k) w = nn (k - 1) w + Bn (k - 1) * tval (nth (k - 1) w 0) (nth k w 0)).
  { rewrite nn_snoc. replace k with (S (k - 1)) at 1 2 by lia. rewrite nn_snoc, Bn_S.
    unfold tval. ring. }
  unfold NN_Div_guess. destruct (Z.eqb_spec s MAX_NN_DIGIT) as [Es|Es].
  - exists (nth k w 0). splits; auto. rewrite nn_snoc. unfold is_word in *. nia.
  - unfold MAX_NN_DIGIT in Es. rewrite w32_small by (unfold is_word in *; lia).
    rewrite NN_Div_estimate_total by (auto; unfold is_word in *; lia).
    set (t := tval _ _) in *.
    assert (0 <= t) by (unfold t, tval, is_word in *; lia).
    pose proof (Z.div_mod t (s + 1) ltac:(lia)).
    pose proof (Z.mod_pos_bound t (s + 1) ltac:(lia)).
    assert (0 <= t / (s + 1)) by (apply Z.div_pos; lia).
    eexists. split; [reflexivity|]. split.
    + split; [lia|]. apply Z.div_lt_upper_bound; [lia|].
      unfold t, tval, is_word in *. lia.
    + rewrite E. transitivity (t / (s + 1) * ((s + 1) * Bn (k - 1))); [nia|].
      transitivity (t * Bn (k - 1)); [nia|]. nia.
Qed.

(** One pass of the loop: the window loses [ai] times the divisor. *)
Lemma NN_Div_digit_total w : words w -> (k < length w)%nat -> nn (S k) w < 2 ^ 32 * D ->
  exists ai ai' w',
    NN_Div_guess w k s = Some ai /\
  (let '(w1, borrow) := subdigitmult w w ai dd k in
     run 32 (NN_Div_correct_step dd k) (ai, upd w1 k (w32 (nth k w1 0 - borrow)))) =
      Some (ai', w') /\
  is_word ai' /\ words w' /\ length w' = length w /\
  nn (S k) w = ai' * D + nn k w' /\ nn k w' < D.
Proof using Wd Dpos kpos normalised.
  intros Hw Hl H. destruct (NN_Div_guess_total w Hw H) as (ai & E & Wa & G).
  pose proof (subdigitmult_spec w ai dd k Hw Wa Wd ltac:(lia)) as S1.
  destruct (subdigitmult w w ai dd k) as [w1 bo] eqn:ES. destruct S1 as (W1 & Wbo & L1 & E1 & F1).
  fold D in E1.
  destruct (window_sub k w w1 bo (ai * D) W1 ltac:(lia) E1 F1 ltac:(auto with words)
    ltac:(unfold is_word in Wbo; lia) ltac:(lia)) as (W2 & E2 & L2).
  destruct (NN_Div_correct_total ai _ (nn (S k) w) Wa W2 ltac:(lia) H ltac:(rewrite E2; lia))
    as (ai' & w' & R & Wa' & W' & L' & P).
  destruct P as (ET & Hb). exists ai, ai', w'. rewrite ES. splits; auto; congruence.
Qed.
End Digit.

(** ** The loop over the digits and the routine *)

Lemma NN_Div_loop_total n cc dd k a :
  words cc -> words dd -> words a -> (0 < k)%nat -> (n + k <= length cc)%nat ->
  0 < nn k dd -> 2 ^ 31 <= nth (k - 1) dd 0 -> (n <= length a)%nat ->
  nn k (skipn n cc) < nn k dd ->
  exists a' cc', NN_Div_loop n cc dd k (nth (k - 1) dd 0) a = Some (a', cc') /\
    words a' /\ words cc' /\ length a' = length a /\
    (forall j, (n <= j)%nat -> nth j a' 0 = nth j a 0) /\
    nn (n + k) cc = nn n a' * nn k dd + nn k cc' /\ nn k cc' < nn k dd.
Proof.
  revert cc a. induction n as [|n IH]; intros cc a Wc Wd Wa Hk Hl HD Hs Ha Ht.
  { exists a, cc. cbn [skipn nn plus] in *. splits; auto; lia. }
  cbn [NN_Div_loop]. set (w := skipn n cc) in *.
  assert (Ww : words w) by (unfold w; auto with words).
  assert (Lw : length w = (length cc - n)%nat) by (unfold w; apply length_skipn).
  assert (Hw : nn (S k) w < 2 ^ 32 * nn k dd).
  { unfold w. rewrite nn_skipn_S. pose proof (nth_word cc n Wc). unfold is_word in *. lia. }
  destruct (NN_Div_digit_total dd k Wd HD Hk Hs w Ww ltac:(lia) Hw)
    as (ai & ai' & w' & -> & R & Wai & W' & L' & E & Hr). cbn [obind].
  destruct (subdigitmult w w ai dd k) as [w1 bo]. rewrite R. cbn [obind].
  assert (Lf : length (firstn n cc) = n) by (rewrite length_firstn; lia).
  destruct (IH (firstn n cc ++ w') (upd a n ai')) as (a' & cc' & -> & Wa' & Wc' & La & Hi & Hv & Hb);
    auto using Forall_upd.
  { apply Forall_app; auto with words. }
  { rewrite length_app, Lf. lia. }
  { rewrite length_upd. lia. }
  { rewrite skipn_app, Lf, Nat.sub_diag, skipn_all2 by lia. exact Hr. }
  rewrite length_upd in La.
  exists a', cc'. splits; auto.
  - intros j Hj. rewrite Hi by lia. apply nth_upd_ne. lia.
  - rewrite <- Lf, nn_app, Lf in Hv at 1.
    replace (nn n (firstn n cc)) with (nn n cc) in Hv.
    2:{ apply nn_ext. intros i Hi'. rewrite nth_firstn.
        now rewrite (proj2 (Nat.ltb_lt i n) Hi'). }
    rewrite Lf in Hv. rewrite nn_snoc, Hi, nth_upd_eq by lia.
    replace (S n + k)%nat with (n + S k)%nat by lia. rewrite nn_split. fold w. rewrite E. lia.
Qed.

Lemma nn_zero_between n m a : (n <= m)%nat ->
  (forall j, (n <= j < m)%nat -> nth j a 0 = 0) -> nn m a = nn n a.
Proof.
  intros Hle H. induction m as [|m IH]; [now replace n with 0%nat by lia|].
  destruct (Nat.eq_dec n (S m)) as [->|Hne]; [reflexivity|].
  rewrite nn_snoc, IH, H by (try intros; try apply H; lia). lia.
Qed.

Lemma nth_store_above {A} (a r : list A) j d : (length r <= j)%nat -> nth j (store a r) d = nth j a d.
Proof. intros. unfold store. rewrite app_nth2, nth_skipn by lia. f_equal. lia. Qed.

Lemma nth_store_zero n j a : (j < n)%nat -> nth j (NN_AssignZero a n) 0 = 0.
Proof.
  intros. unfold NN_AssignZero, store. rewrite app_nth1 by (rewrite repeat_length; lia).
  apply nth_repeat.
Qed.

Lemma NN_LShift_frame a b c digits j : words b -> 0 <= c < 32 -> (digits <= j)%nat ->
  nth j (fst (NN_LShift a b c digits)) 0 = nth j a 0.
Proof.
  intros Hb Hc Hj. unfold NN_LShift, NN_DIGIT_BITS. destruct (Z.ltb_spec c 32); [|lia].
  pose proof (NN_LShift_loop_spec digits b c 0 Hb Hc
    ltac:(pose proof (Z.pow_pos_nonneg 2 c); lia)) as H1.
  destruct (NN_LShift_loop b c 0 digits) as [r co]. destruct H1 as (L & _).
  apply nth_store_above. lia.
Qed.

Lemma NN_RShift_frame a b c digits j : words b -> 0 <= c < 32 -> (digits <= j)%nat ->
  nth j (fst (NN_RShift a b c digits)) 0 = nth j a 0.
Proof.
  intros Hb Hc Hj. unfold NN_RShift, NN_DIGIT_BITS. destruct (Z.ltb_spec c 32); [|lia].
  destruct (NN_RShift_loop_spec digits b c 0 [] Hb Hc
    ltac:(pose proof (Z.pow_pos_nonneg 2 c); lia)) as (r & E & L & _).
  rewrite Z.mul_0_l in E. destruct (NN_RShift_loop b c 0 digits []) as [r' co].
  cbn [fst] in *. rewrite app_nil_r in E. subst r'. apply nth_store_above. lia.
Qed.

(** The normalising shift of a divisor whose top digit is digit [j]. *)
Lemma normalise_shift d j : words d -> nth j d 0 <> 0 ->
  let sh := NN_DIGIT_BITS - NN_DigitBits (nth j d 0) in
  0 <= sh <= 31 /\ 2 ^ 31 * Bn j <= nn (S j) d * 2 ^ sh < 2 ^ 32 * Bn j.
Proof.
  intros Hd Ht sh. destruct (NN_DigitBits_spec _ (nth_word d j Hd) Ht) as [Hn Hb].
  unfold NN_DIGIT_BITS in sh. subst sh. set (n := NN_DigitBits (nth j d 0)) in *.
  split; [lia|]. rewrite nn_snoc. pose proof (nn_bound j d Hd).
  assert (E1 : 2 ^ 31 = 2 ^ (n - 1) * 2 ^ (32 - n)) by (rewrite <- Z.pow_add_r by lia; f_equal; lia).
  assert (E2 : 2 ^ 32 = 2 ^ n * 2 ^ (32 - n)) by (rewrite <- Z.pow_add_r by lia; f_equal; lia).
  pose proof (Z.pow_pos_nonneg 2 (32 - n) ltac:(lia) ltac:(lia)).
  rewrite E1, E2. set (p := 2 ^ (32 - n)) in *. split.
  - transitivity (2 ^ (n - 1) * Bn j * p); [lia|]. apply Z.mul_le_mono_nonneg_r; nia.
  - apply Z.lt_le_trans with ((2 ^ n * Bn j) * p); [|lia]. apply Z.mul_lt_mono_pos_r; nia.
Qed.

(** The normalised divisor. *)
Lemma normalised_divisor d j sh : words d -> 0 <= sh <= 31 ->
  2 ^ 31 * Bn j <= nn (S j) d * 2 ^ sh < 2 ^ 32 * Bn j ->
  let dd := fst (NN_LShift (repeat 0 MAX_NN_DIGITS) d sh (S j)) in
  words dd /\ nn (S j) dd = nn (S j) d * 2 ^ sh /\ 2 ^ 31 <= nth j dd 0.
Proof.
  intros Hd Hs Hn dd.
  pose proof (NN_LShift_spec (repeat 0 MAX_NN_DIGITS) d sh (S j)
    ltac:(auto with words) Hd ltac:(lia)) as H.
  subst dd. destruct (NN_LShift _ d sh (S j)) as [dd co]. cbn [fst].
  destruct H as (W & Hco & E & _). rewrite Bn_S in E. pose proof (Bn_pos j).
  pose proof (nn_bound (S j) dd W).
  assert (co = 0) as -> by nia.
  splits; [auto|lia|]. pose proof (nn_snoc j dd). pose proof (nn_bound j dd W). nia.
Qed.

(** The shifted dividend, with the carry as its top digit. *)
Lemma shifted_dividend c cDigits sh k : words c -> 0 <= sh <= 31 -> (cDigits <= 66)%nat ->
  (k <= 67)%nat ->
  let '(cc, carry) := NN_LShift (NN_AssignZero (repeat 0 (2 * MAX_NN_DIGITS + 1)) k) c sh cDigits in
  words (upd cc cDigits carry) /\ length (upd cc cDigits carry) = 67%nat /\
  nn (S cDigits) (upd cc cDigits carry) = nn cDigits c * 2 ^ sh /\
  nth cDigits (upd cc cDigits carry) 0 < 2 ^ 31 /\
  (forall j, (cDigits < j)%nat -> nth j (upd cc cDigits carry) 0 = 0).
Proof.
  intros Wc Hs Hc Hk. set (a := NN_AssignZero _ k).
  assert (Ea : a = repeat 0 67).
  { unfold a, NN_AssignZero, store. rewrite repeat_length, skipn_repeat, <- repeat_app.
    f_equal. unfold MAX_NN_DIGITS. lia. }
  pose proof (NN_LShift_spec a c sh cDigits ltac:(rewrite Ea; auto with words) Wc ltac:(lia)) as H.
  pose proof (fun j => NN_LShift_frame a c sh cDigits j Wc ltac:(lia)) as F.
  destruct (NN_LShift a c sh cDigits) as [cc carry]. cbn [fst] in F.
  destruct H as (W & Hco & E & L).
  assert (Hp : 2 ^ sh <= 2 ^ 31) by (apply Z.pow_le_mono_r; lia).
  assert (Lc : length cc = 67%nat) by (rewrite L, Ea, repeat_length; [lia|rewrite Ea, repeat_length; lia]).
  rewrite length_upd, nn_snoc, nn_upd_above, nth_upd_eq by lia.
  splits; [|lia|lia|lia|].
  - apply Forall_upd; [auto|]. unfold is_word. lia.
  - intros j Hj. rewrite nth_upd_ne, F, Ea by lia. apply nth_repeat.
Qed.

Lemma NN_Div_zero a b c cDigits d dDigits : words d -> nn dDigits d = 0 ->
  NN_Div a b c cDigits d dDigits = Some (a, b).
Proof.
  intros Hd H. unfold NN_Div. apply NN_Digits_0 in H; [|auto]. now rewrite H.
Qed.

(** The top window is below the normalised divisor before the loop. *)
Lemma first_window cc dd j cDigits : words cc -> words dd -> 2 ^ 31 <= nth j dd 0 ->
  nth cDigits cc 0 < 2 ^ 31 -> (forall i, (cDigits < i)%nat -> nth i cc 0 = 0) ->
  nn (S j) (skipn (S cDigits - S j) cc) < nn (S j) dd.
Proof.
  intros Wc Wd Hs Ht Hz. rewrite !nn_snoc. pose proof (Bn_pos j).
  pose proof (nn_bound j dd Wd).
  pose proof (nn_bound j (skipn (S cDigits - S j) cc) ltac:(auto with words)).
  rewrite nth_skipn.
  assert (nth (S cDigits - S j + j) cc 0 < 2 ^ 31).
  { destruct (Nat.le_gt_cases j cDigits).
    - now replace (S cDigits - S j + j)%nat with cDigits by lia.
    - rewrite Hz by lia. lia. }
  nia.
Qed.

(** Division of a dividend and a divisor scaled by the same factor. *)
Lemma scaled_div_mod C D Q R p : 0 < p -> 0 <= R < D * p -> C * p = Q * (D * p) + R ->
  Q = C / D /\ R / p = C mod D.
Proof.
  intros Hp HR E. assert (ER : R = (C - Q * D) * p) by lia.
  assert (HB : 0 <= C - Q * D < D) by nia.
  split; [apply Z.div_unique_pos with (C - Q * D); lia|].
  rewrite ER, Z.div_mul by lia. apply Z.mod_unique_pos with Q; lia.
Qed.

(** [NN_Div] returns, and gives the quotient and the remainder. *)
Lemma NN_Div_total a b c cDigits d dDigits :
  words a -> words b -> words c -> words d -> (cDigits <= 66)%nat -> (dDigits <= 33)%nat ->
  nn dDigits d <> 0 ->
  exists q r, NN_Div a b c cDigits d dDigits = Some (q, r) /\ words q /\ words r /\
    nn cDigits q = nn cDigits c / nn dDigits d /\ nn dDigits r = nn cDigits c mod nn dDigits d.
Proof.
  intros Wa Wb Wc Wd Hc Hd H0. unfold NN_Div.
  pose proof (NN_Digits_nn d dDigits) as V. pose proof (NN_Digits_le d dDigits) as Lk.
  destruct (NN_Digits d dDigits) as [|j] eqn:K; [cbn [nn] in V; lia|]. cbn [Nat.eqb].
  replace (S j - 1)%nat with j by lia.
  destruct (normalise_shift d j Wd (NN_Digits_top _ _ _ K)) as [Hs Hn].
  set (sh := NN_DIGIT_BITS - _) in *. clearbody sh.
  pose proof (shifted_dividend c cDigits sh (S j) Wc Hs Hc ltac:(lia)) as HC.
  destruct (NN_LShift _ c sh cDigits) as [cc0 carry].
  destruct HC as (Wcc & Lcc & Ec & Htop & Hz). set (cc := upd cc0 cDigits carry) in *.
  pose proof (normalised_divisor d j sh Wd Hs Hn) as HD.
  destruct (NN_LShift _ d sh (S j)) as [dd co]. cbn [fst] in HD. destruct HD as (Wdd & Ed & Hdd).
  assert (P : 0 < 2 ^ sh) by (apply Z.pow_pos_nonneg; lia).
  pose proof (nn_bound dDigits d Wd) as Bd. rewrite V in *.
  pose proof (first_window cc dd j cDigits Wcc Wdd Hdd Htop Hz) as Hw.
  destruct (NN_Div_loop_total (S cDigits - S j) cc dd (S j) (NN_AssignZero a cDigits))
    as (q & cc' & Hrun & Wq & Wcc' & Lq & Hi & Ev & Hr);
    auto using words_AssignZero; try (rewrite ?Ed; lia).
  { now replace (S j - 1)%nat with j by lia. }
  { unfold NN_AssignZero, store. rewrite length_app, repeat_length. lia. }
  replace (S j - 1)%nat with j in Hrun by lia. rewrite Hrun. cbn [obind].
  eexists _, _. split; [reflexivity|].
  destruct (NN_RShift_spec (NN_AssignZero b dDigits) cc' sh (S j)
    ltac:(auto using words_AssignZero) Wcc' ltac:(lia)) as [Wr Er].
  split; [auto|]. split; [auto|].
  rewrite (nn_zero_between (S cDigits - S j) cDigits q).
  2: lia. 2: { intros i Hi'. rewrite Hi by lia. apply nth_store_zero. lia. }
  rewrite (nn_zero_between (S j) dDigits (fst _)).
  2: lia. 2: { intros i Hi'. rewrite NN_RShift_frame by (auto; lia). apply nth_store_zero. lia. }
  rewrite Er.
  rewrite (nn_zero_between (S cDigits)) in Ev by (lia || (intros; apply Hz; lia)).
  rewrite Ec, Ed in *. pose proof (nn_bound (S j) cc' Wcc').
  apply scaled_div_mod with (R := nn (S j) cc'); auto; lia.
Qed.

(** ** The claims *)

(** Claim C39: long division (Knuth's algorithm with an estimate from half digits) returns for
    every dividend of at most 66 digits and every divisor of at most 33, with the exact
    quotient and remainder; a zero divisor leaves both outputs as they were. *)
Theorem NN_Div_exact (a b c d : list Z) (cDigits dDigits : nat) :
  words a -> words b -> words c -> words d -> (cDigits <= 66)%nat -> (dDigits <= 33)%nat ->
  if nn dDigits d =? 0 then NN_Div a b c cDigits d dDigits = Some (a, b)
  else exists q r, NN_Div a b c cDigits d dDigits = Some (q, r) /\ words q /\ words r /\
    nn cDigits q = nn cDigits c / nn dDigits d /\ nn dDigits r = nn cDigits c mod nn dDigits d.
Proof.
  intros Wa Wb Wc Wd Hc Hd. destruct (Z.eqb_spec (nn dDigits d) 0).
  - now apply NN_Div_zero.
  - now apply NN_Div_total.
Qed.

Lemma NN_Div_exact_witness :
  let c := [5; 0xffffffff; 0xfffffffe; 0x7fffffff] in let d := [0xffffffff; 0x80000000] in
  exists q r, NN_Div (repeat 0 4) (repeat 0 2) c 4 d 2 = Some (q, r) /\ words q /\ words r /\
    nn 4 q = nn 4 c / nn 2 d /\ nn 2 r = nn 4 c mod nn 2 d.
Proof.
  apply (NN_Div_exact (repeat 0 4) (repeat 0 2) [5; 0xffffffff; 0xfffffffe; 0x7fffffff]
    [0xffffffff; 0x80000000] 4 2); [check_words|check_words|check_words|check_words|lia|lia].
Defined.
