(* ===== verification/NNMod.v ===== *)
(** * NNMod: modular arithmetic (src/QBase/RSAEuro/nn.c)

    [NN_Mod], [NN_ModMult], [NN_ModExp] (left-to-right exponentiation two bits
    at a time), [NN_ModInv] (the extended Euclidean algorithm without negative
    numbers) and [NN_Gcd] (Euclid's algorithm on three rotating buffers). Each
    is shown to return and to compute the number its comment announces. *)

From Stdlib Require Import Znumtheory.
From S2P Require Import Prelude NN NNDiv.

(** ** Definitions *)

Definition NN_Mod (a b : list Z) (bDigits : nat) (c : list Z) (cDigits : nat) : option (list Z) :=
  let? (_, a) := NN_Div (repeat 0 (2 * MAX_NN_DIGITS)) a b bDigits c cDigits in Some a.

Definition NN_ModMult (a b c d : list Z) (digits : nat) : option (list Z) :=
  let t := NN_Mult (repeat 0 (2 * MAX_NN_DIGITS)) b c digits in
  NN_Mod a t (2 * digits) d digits.

(** [while (! DIGIT_2MSB (ci)) { ci <<= 2; ciBits -= 2; }] *)
Definition NN_ModExp_scan (st : Z * Z) : Z * Z + Z * Z :=
  let '(ci, ciBits) := st in
  if DIGIT_2MSB ci =? 0 then inl (w32 (ci .<< 2), ciBits - 2) else inr st.

(** The inner loop, [n] pairs of bits of [ci]. *)
Fixpoint NN_ModExp_bits (n : nat) (ci : Z) (t : list Z) (bPower : list (list Z))
  (d : list Z) (dDigits : nat) : option (list Z) :=
  match n with
  | O => Some t
  | S n =>
      let? t := NN_ModMult t t t d dDigits in
      let? t := NN_ModMult t t t d dDigits in
      let s := DIGIT_2MSB ci in
      let? t := if negb (s =? 0) then NN_ModMult t t (nth (Z.to_nat (s - 1)) bPower []) d dDigits
                else Some t in
      NN_ModExp_bits n (w32 (ci .<< 2)) t bPower d dDigits
  end.

(** The outer loop, digits [n - 1], ..., 0 of the exponent. *)
Fixpoint NN_ModExp_loop (n : nat) (c : list Z) (cDigits : nat) (t : list Z)
  (bPower : list (list Z)) (d : list Z) (dDigits : nat) : option (list Z) :=
  match n with
  | O => Some t
  | S i =>
      let? (ci, ciBits) := if Nat.eqb i (cDigits - 1)
                           then run 5 NN_ModExp_scan (nth i c 0, NN_DIGIT_BITS)
                           else Some (nth i c 0, NN_DIGIT_BITS) in
      let? t := NN_ModExp_bits (Z.to_nat (ciBits / 2)) ci t bPower d dDigits in
      NN_ModExp_loop i c cDigits t bPower d dDigits
  end.

(** [a = b^c mod d]. *)
Definition NN_ModExp (a b c : list Z) (cDigits : nat) (d : list Z) (dDigits : nat)
  : option (list Z) :=
  let z := repeat 0 MAX_NN_DIGITS in
  let b0 := NN_Assign z b dDigits in
  let? b1 := NN_ModMult z b0 b d dDigits in
  let? b2 := NN_ModMult z b1 b d dDigits in
  let t := NN_ASSIGN_DIGIT z 1 dDigits in
  let cDigits := NN_Digits c cDigits in
  let? t := NN_ModExp_loop cDigits c cDigits t [b0; b1; b2] d dDigits in
  Some (NN_Assign a t dDigits).

(** The variables of the loop of [NN_ModInv]. *)
Record ModInvSt := mkModInv {
  mi_u1 : list Z; mi_u3 : list Z; mi_v1 : list Z; mi_v3 : list Z; mi_u1Sign : Z }.

(** One pass of the loop; it stops with an error of its own when a division does
    not return. *)
Definition NN_ModInv_step (digits : nat) (st : ModInvSt) : ModInvSt + option ModInvSt :=
  let z := repeat 0 MAX_NN_DIGITS in
  let '(mkModInv u1 u3 v1 v3 u1Sign) := st in
  if NN_Zero v3 digits then inr (Some st)
  else
    match NN_Div z z u3 digits v3 digits with
    | None => inr None
    | Some (q, t3) =>
        let w := NN_Mult (repeat 0 (2 * MAX_NN_DIGITS)) q v1 digits in
        let '(t1, _) := NN_Add z u1 w digits in
        let u1 := NN_Assign u1 v1 digits in
        let v1 := NN_Assign v1 t1 digits in
        let u3 := NN_Assign u3 v3 digits in
        let v3 := NN_Assign v3 t3 digits in
        inl (mkModInv u1 u3 v1 v3 (- u1Sign))
    end.

(** [a = 1/b mod c]. The fuel allows [2^(32 * digits)] passes. *)
Definition NN_ModInv (a b c : list Z) (digits : nat) : option (list Z) :=
  let z := repeat 0 MAX_NN_DIGITS in
  let u1 := NN_ASSIGN_DIGIT z 1 digits in
  let v1 := NN_AssignZero z digits in
  let u3 := NN_Assign z b digits in
  let v3 := NN_Assign z c digits in
  let? st := obind (run (32 * digits) (NN_ModInv_step digits) (mkModInv u1 u3 v1 v3 1)) (fun x => x) in
  Some (if mi_u1Sign st <? 0 then fst (NN_Sub a c (mi_u1 st) digits)
        else NN_Assign a (mi_u1 st) digits).

Definition iplus1 (i : nat) : nat := if Nat.eqb i 2 then 0 else i + 1.
Definition iminus1 (i : nat) : nat := if Nat.eqb i 0 then 2 else i - 1.

Definition NN_Gcd_step (digits : nat) (st : nat * list (list Z))
  : nat * list (list Z) + option (nat * list (list Z)) :=
  let '(i, t) := st in
  let g i := nth i t [] in
  if NN_Zero (g i) digits then inr (Some st)
  else
    match NN_Mod (g (iplus1 i)) (g (iminus1 i)) digits (g i) digits with
    | None => inr None
    | Some r => inl (iplus1 i, upd t (iplus1 i) r)
    end.

(** [a = gcd(b, c)]. *)
Definition NN_Gcd (a b c : list Z) (digits : nat) : option (list Z) :=
  let z := repeat 0 MAX_NN_DIGITS in
  let t := [NN_Assign z c digits; NN_Assign z b digits; z] in
  let? (i, t) := obind (run (32 * digits) (NN_Gcd_step digits) (1%nat, t)) (fun x => x) in
  Some (NN_Assign a (nth (iminus1 i) t []) digits).

(** ** Products and remainders *)

Lemma NN_Mod_total a b bDigits c cDigits :
  words a -> words b -> words c -> (bDigits <= 66)%nat -> (cDigits <= 33)%nat ->
  nn cDigits c <> 0 ->
  exists r, NN_Mod a b bDigits c cDigits = Some r /\ words r /\
            nn cDigits r = nn bDigits b mod nn cDigits c.
Proof.
  intros Wa Wb Wc Hb Hc H0. unfold NN_Mod.
  destruct (NN_Div_total (repeat 0 (2 * MAX_NN_DIGITS)) a b bDigits c cDigits)
    as (q & r & -> & _ & Wr & _ & E); auto with words.
  exists r. auto.
Qed.

Lemma NN_ModMult_total a b c d digits :
  words a -> words b -> words c -> words d -> (digits <= 33)%nat -> nn digits d <> 0 ->
  exists r, NN_ModMult a b c d digits = Some r /\ words r /\
            nn digits r = (nn digits b * nn digits c) mod nn digits d.
Proof.
  intros Wa Wb Wc Wd Hd H0. unfold NN_ModMult.
  destruct (NN_Mult_spec (repeat 0 (2 * MAX_NN_DIGITS)) b c digits ltac:(auto with words) Wb Wc)
    as [Wt Et].
  destruct (NN_Mod_total a (NN_Mult (repeat 0 (2 * MAX_NN_DIGITS)) b c digits) (2 * digits) d digits)
    as (r & -> & Wr & Er); auto; [lia|].
  exists r. rewrite Er, Et. auto.
Qed.

(** ** Exponentiation *)

Lemma DIGIT_2MSB_spec ci : is_word ci ->
  DIGIT_2MSB ci = ci / 2 ^ 30 /\ 0 <= DIGIT_2MSB ci < 4 /\
  w32 (ci .<< 2) = 4 * (ci mod 2 ^ 30).
Proof.
  intros H. unfold DIGIT_2MSB, is_word in *. rewrite shiftr_div by lia.
  assert (0 <= ci / 2 ^ 30 < 4) by (split; [apply Z.div_pos|apply Z.div_lt_upper_bound]; lia).
  change 3 with (Z.ones 2). rewrite Z.land_ones, Z.mod_small by (change (2 ^ 2) with 4; lia).
  splits; [reflexivity|lia|lia|]. unfold w32. rewrite Z.shiftl_mul_pow2 by lia.
  change (2 ^ 32) with (4 * 2 ^ 30). change (2 ^ 2) with 4.
  rewrite (Z.mul_comm ci). now rewrite Zmult_mod_distr_l.
Qed.

(** Reading two more bits of the exponent. *)
Lemma two_bits e ci n : is_word ci -> (S n <= 16)%nat ->
  (4 * e + ci / 2 ^ 30) * 4 ^ Z.of_nat n + 4 * (ci mod 2 ^ 30) / 2 ^ (32 - 2 * Z.of_nat n) =
  e * 4 ^ Z.of_nat (S n) + ci / 2 ^ (32 - 2 * Z.of_nat (S n)).
Proof.
  intros W Hn. rewrite Nat2Z.inj_succ, Z.pow_succ_r by lia.
  set (m := Z.of_nat n) in *. set (p := 2 ^ (30 - 2 * m)).
  assert (Pp : 0 < p) by (apply Z.pow_pos_nonneg; lia).
  replace (2 ^ (32 - 2 * m)) with (4 * p)
    by (change 4 with (2 ^ 2) at 1; unfold p; rewrite <- Z.pow_add_r by lia; f_equal; lia).
  replace (32 - 2 * Z.succ m) with (30 - 2 * m) by lia. fold p.
  rewrite Z.div_mul_cancel_l by lia.
  assert (E : 2 ^ 30 = 4 ^ m * p).
  { change 4 with (2 ^ 2) at 1. unfold p. rewrite <- Z.pow_mul_r, <- Z.pow_add_r by lia. f_equal. lia. }
  replace (ci / p) with (ci / 2 ^ 30 * 4 ^ m + ci mod 2 ^ 30 / p); [lia|].
  rewrite (Z.div_mod ci (2 ^ 30)) at 3 by lia.
  replace (2 ^ 30 * (ci / 2 ^ 30)) with (ci / 2 ^ 30 * 4 ^ m * p) by (rewrite E at 2; lia).
  rewrite Z.div_add_l by lia. reflexivity.
Qed.

Section ModExp.
Context (b d : list Z) (k : nat).
Hypotheses (Wb : words b) (Wd : words d) (Hk : (k <= 33)%nat) (Hd : 1 < nn k d).
Let B := nn k b.
Let N := nn k d.

Lemma N_gt_1 : 1 < N.
Proof. exact Hd. Qed.

(** [t] holds [b^e mod d]. *)
Definition holds (e : Z) (t : list Z) : Prop := words t /\ 0 <= e /\ nn k t = B ^ e mod N.

(** The table of small powers. *)
Definition powers (bPower : list (list Z)) : Prop :=
  forall s, 1 <= s < 4 ->
    words (nth (Z.to_nat (s - 1)) bPower []) /\
    nn k (nth (Z.to_nat (s - 1)) bPower []) mod N = B ^ s mod N.

Lemma holds_mult a x t e s : words a -> holds e t -> words x -> 0 <= s ->
  nn k x mod N = B ^ s mod N ->
  exists r, NN_ModMult a t x d k = Some r /\ holds (e + s) r.
Proof.
  intros Wa (Wt & He & Et) Wx Hs Ex. pose proof N_gt_1.
  destruct (NN_ModMult_total a t x d k Wa Wt Wx Wd Hk ltac:(lia)) as (r & -> & Wr & Er).
  exists r. unfold holds. splits; [auto|auto|lia|]. fold N in Er.
  rewrite Er, Et, Z.mul_mod_idemp_l, Z.pow_add_r by lia.
  rewrite (Z.mul_mod _ (nn k x)), Ex, <- Z.mul_mod by lia. reflexivity.
Qed.

Lemma holds_self t e : holds e t -> nn k t mod N = B ^ e mod N.
Proof. intros (_ & _ & ->). apply Z.mod_mod. unfold N. lia. Qed.

Lemma NN_ModExp_bits_total bPower n ci t e : powers bPower -> (n <= 16)%nat ->
  is_word ci -> holds e t ->
  exists r, NN_ModExp_bits n ci t bPower d k = Some r /\
    holds (e * 4 ^ Z.of_nat n + ci / 2 ^ (32 - 2 * Z.of_nat n)) r.
Proof.
  intros HP. revert ci t e; induction n as [|n IH]; intros ci t e Hn Wci Ht.
  { exists t. split; [reflexivity|]. change (2 ^ (32 - 2 * Z.of_nat 0)) with (2 ^ 32).
    rewrite Z.div_small, Z.add_0_r, Z.mul_1_r by exact Wci. exact Ht. }
  cbn [NN_ModExp_bits]. pose proof (proj1 Ht) as Wt.
  destruct (holds_mult t t t e e Wt Ht Wt (proj1 (proj2 Ht)) (holds_self t e Ht))
    as (t1 & -> & Ht1). cbn [obind].
  destruct (holds_mult t1 t1 t1 _ _ (proj1 Ht1) Ht1 (proj1 Ht1) (proj1 (proj2 Ht1)) (holds_self _ _ Ht1))
    as (t2 & -> & Ht2). cbn [obind].
  destruct (DIGIT_2MSB_spec ci Wci) as (Es & Hs & Ec). set (s := DIGIT_2MSB ci) in *.
  assert (exists t3, (if negb (s =? 0) then NN_ModMult t2 t2 (nth (Z.to_nat (s - 1)) bPower []) d k
                      else Some t2) = Some t3 /\ holds (4 * e + s) t3) as (t3 & -> & Ht3).
  { replace (4 * e + s) with (e + e + (e + e) + s) by lia. destruct (Z.eqb_spec s 0) as [->|Hne]; cbn [negb].
    - exists t2. split; [reflexivity|]. now rewrite Z.add_0_r.
    - destruct (HP s ltac:(lia)) as [Wx Ex]. apply holds_mult; auto; [apply Ht2|lia]. }
  cbn [obind].
  assert (Wci' : is_word (w32 (ci .<< 2))) by auto with words.
  destruct (IH _ t3 _ ltac:(lia) Wci' Ht3) as (r & -> & Hr). exists r. split; [reflexivity|].
  replace (_ + _ / _) with ((4 * e + s) * 4 ^ Z.of_nat n + w32 (ci .<< 2) / 2 ^ (32 - 2 * Z.of_nat n));
    [exact Hr|].
  rewrite Ec, Es. now apply two_bits.
Qed.

(** The scan leaves the leading digit shifted left, with the bits that remain. *)
Lemma NN_ModExp_scan_total c0 : is_word c0 -> c0 <> 0 ->
  exists ci m, run 5 NN_ModExp_scan (c0, NN_DIGIT_BITS) = Some (ci, 2 * Z.of_nat m) /\
    is_word ci /\ (m <= 16)%nat /\ ci / 2 ^ (32 - 2 * Z.of_nat m) = c0.
Proof.
  intros Wc H0.
  destruct (run_total NN_ModExp_scan
    (fun '(ci, bits) => is_word ci /\ exists m, bits = 2 * Z.of_nat m /\ (m <= 16)%nat /\
                        ci = c0 * 2 ^ (32 - bits))
    (fun '(_, bits) => bits / 2)
    (fun '(ci, bits) => is_word ci /\ exists m, bits = 2 * Z.of_nat m /\ (m <= 16)%nat /\
                        ci = c0 * 2 ^ (32 - bits)))
    with (n := 5%nat) (s := (c0, NN_DIGIT_BITS)) as ([ci bits] & R & W & m & -> & Hm & E).
  - intros [ci bits] (W & m & -> & Hm & E). unfold NN_ModExp_scan.
    destruct (DIGIT_2MSB_spec ci W) as (Es & Hs & Ec).
    destruct (Z.eqb_spec (DIGIT_2MSB ci) 0) as [E0|_]; [|split; [auto|exists m; splits; auto]].
    assert (Hlt : ci < 2 ^ 30) by (rewrite Es in E0; apply Z.div_small_iff in E0; lia).
    assert (0 < m)%nat.
    { destruct m; [|lia]. change (2 ^ (32 - 2 * Z.of_nat 0)) with (2 ^ 32) in E.
      unfold is_word in *. nia. }
    rewrite Ec, Z.mod_small by (unfold is_word in *; lia).
    split; [split; [unfold is_word in *; lia|]|].
    + exists (m - 1)%nat. splits; [lia|lia|].
      replace (32 - (2 * Z.of_nat m - 2)) with (2 + (32 - 2 * Z.of_nat m)) by lia.
      rewrite Z.pow_add_r, E by lia. lia.
    + rewrite (Z.mul_comm 2), Z.div_mul by lia.
      replace (Z.of_nat m * 2 - 2) with ((Z.of_nat m - 1) * 2) by lia.
      rewrite Z.div_mul by lia. lia.
  - split; [auto|]. exists 16%nat. splits; [reflexivity|lia|]. cbn. lia.
  - reflexivity.
  - exists ci, m. splits; auto. rewrite E. apply Z.div_mul.
    pose proof (Z.pow_pos_nonneg 2 (32 - 2 * Z.of_nat m)). lia.
Qed.

Lemma NN_ModExp_loop_total bPower c K n t : powers bPower -> words c -> (n <= K)%nat ->
  (0 < K)%nat -> nth (K - 1) c 0 <> 0 ->
  holds (nn (K - n) (skipn n c)) t ->
  exists r, NN_ModExp_loop n c K t bPower d k = Some r /\ holds (nn K c) r.
Proof.
  intros HP Wc. revert t; induction n as [|i IH]; intros t Hn HK Htop Ht.
  { exists t. split; [reflexivity|]. now rewrite Nat.sub_0_r in Ht. }
  cbn [NN_ModExp_loop]. assert (Wi : is_word (nth i c 0)) by auto with words.
  assert (exists ci m, (if Nat.eqb i (K - 1) then run 5 NN_ModExp_scan (nth i c 0, NN_DIGIT_BITS)
              else Some (nth i c 0, NN_DIGIT_BITS)) = Some (ci, 2 * Z.of_nat m) /\
            is_word ci /\ (m <= 16)%nat /\ ci / 2 ^ (32 - 2 * Z.of_nat m) = nth i c 0 /\
            nn (K - S i) (skipn (S i) c) * 4 ^ Z.of_nat m = 2 ^ 32 * nn (K - S i) (skipn (S i) c))
    as (ci & m & -> & Wci & Hm & E & Esh).
  { destruct (Nat.eqb_spec i (K - 1)) as [->|Hne].
    - destruct (NN_ModExp_scan_total _ Wi Htop) as (ci & m & R & ? & ? & ?).
      exists ci, m. splits; auto. replace (K - S (K - 1))%nat with 0%nat by lia. cbn [nn]. lia.
    - exists (nth i c 0), 16%nat. splits; auto. 2: { change (4 ^ Z.of_nat 16) with (2 ^ 32). lia. }
      change (2 ^ (32 - 2 * Z.of_nat 16)) with 1. apply Z.div_1_r. }
  cbn [obind]. rewrite Z.mul_comm, Z.div_mul, Nat2Z.id by lia.
  destruct (NN_ModExp_bits_total bPower m ci t _ HP Hm Wci Ht) as (t' & -> & Ht').
  cbn [obind]. apply IH; auto; [lia|].
  replace (K - i)%nat with (S (K - S i)) by lia. rewrite nn_skipn_S, <- Esh, Z.add_comm, <- E.
  exact Ht'.
Qed.

Lemma powers_table b1 b2 : words b1 -> words b2 ->
  nn k b1 = (B * B) mod N -> nn k b2 = (nn k b1 * B) mod N ->
  powers [NN_Assign (repeat 0 MAX_NN_DIGITS) b k; b1; b2].
Proof.
  intros W1 W2 E1 E2 s Hs. pose proof N_gt_1.
  assert (s = 1 \/ s = 2 \/ s = 3) as [-> | [-> | ->]] by lia.
  - change (Z.to_nat (1 - 1)) with 0%nat. cbn [nth]. rewrite NN_Assign_spec, Z.pow_1_r.
    split; [apply words_Assign; auto with words|reflexivity].
  - change (Z.to_nat (2 - 1)) with 1%nat. cbn [nth]. split; [auto|].
    rewrite E1, Z.mod_mod, Z.pow_2_r by lia. reflexivity.
  - change (Z.to_nat (3 - 1)) with 2%nat. cbn [nth]. split; [auto|].
    rewrite E2, E1, Z.mod_mod, Z.mul_mod_idemp_l by lia. f_equal. ring.
Qed.

(** [NN_ModExp] returns, and gives [b^c mod d]. *)
Lemma NN_ModExp_total a c cDigits : (0 < k)%nat -> words a -> words c ->
  exists r, NN_ModExp a b c cDigits d k = Some r /\ words r /\
            nn k r = B ^ nn cDigits c mod N.
Proof.
  intros Hk0 Wa Wc. unfold NN_ModExp. set (z := repeat 0 MAX_NN_DIGITS).
  assert (Wz : words z) by (unfold z; auto with words).
  assert (W0 : words (NN_Assign z b k)) by auto using words_Assign.
  destruct (NN_ModMult_total z (NN_Assign z b k) b d k) as (b1 & -> & W1 & E1); auto; [lia|].
  cbn [obind].
  destruct (NN_ModMult_total z b1 b d k) as (b2 & -> & W2 & E2); auto; [lia|]. cbn [obind].
  rewrite NN_Assign_spec in E1.
  pose proof (powers_table b1 b2 W1 W2 E1 E2) as HP. fold z in HP.
  assert (H0 : holds 0 (NN_ASSIGN_DIGIT z 1 k)).
  { pose proof N_gt_1. unfold holds. splits; [|lia|].
    - apply words_ASSIGN_DIGIT; auto. unfold is_word; lia.
    - rewrite NN_ASSIGN_DIGIT_spec by auto. cbn. symmetry. apply Z.mod_small. lia. }
  assert (exists r, NN_ModExp_loop (NN_Digits c cDigits) c (NN_Digits c cDigits)
            (NN_ASSIGN_DIGIT z 1 k) [NN_Assign z b k; b1; b2] d k = Some r /\
            holds (nn cDigits c) r) as (r & -> & Wr & _ & Er).
  { rewrite <- (NN_Digits_nn c cDigits).
    destruct (NN_Digits c cDigits) as [|j] eqn:D; [exists (NN_ASSIGN_DIGIT z 1 k); auto|].
    apply NN_ModExp_loop_total; auto; [lia| |].
    - replace (S j - 1)%nat with j by lia. now apply (NN_Digits_top c cDigits).
    - now rewrite Nat.sub_diag. }
  cbn [obind]. eexists. split; [reflexivity|].
  rewrite NN_Assign_spec. auto using words_Assign.
Qed.
End ModExp.

(** ** The modular inverse *)

Lemma nn_low n m a : (n <= m)%nat -> words a -> nn m a < Bn n -> nn n a = nn m a.
Proof.
  intros Hle Wa H. pose proof (nn_split n (m - n) a) as E.
  replace (n + (m - n))%nat with m in E by lia.
  pose proof (nn_bound (m - n) (skipn n a) ltac:(auto with words)).
  pose proof (nn_bound n a Wa). set (X := nn (m - n) _) in *.
  assert (X = 0 \/ 1 <= X) as [E0|E0] by lia; [rewrite E0 in E; lia|].
  assert (Bn n * 1 <= Bn n * X) by (apply Z.mul_le_mono_nonneg_l; lia). lia.
Qed.

(** The signed coefficient of [b] brought into [1, c). *)
Lemma inverse_range u s B C : 1 < C -> 0 <= u <= C -> s = 1 \/ s = -1 ->
  (C | s * u * B - 1) ->
  let r := if s <? 0 then C - u else u in 0 < r < C /\ (r * B) mod C = 1.
Proof.
  intros HC Hu Hs [y Hy] r. subst r.
  assert (N1 : forall x, C * x <> 1) by (intros x; assert (x <= 0 \/ 1 <= x) by lia; nia).
  destruct Hs as [-> | ->]; cbn [Z.ltb Z.compare].
  - assert (u <> 0) by (intros ->; apply (N1 (- y)); lia).
    assert (u <> C) by (intros ->; apply (N1 (B - y)); lia).
    split; [lia|]. symmetry. apply Z.mod_unique_pos with y; lia.
  - assert (u <> 0) by (intros ->; apply (N1 (- y)); lia).
    assert (u <> C) by (intros ->; apply (N1 (- B - y)); lia).
    split; [lia|]. symmetry. apply Z.mod_unique_pos with (B + y); lia.
Qed.

Section ModInv.
Context (b c : list Z) (k : nat).
Hypotheses (Wb : words b) (Wc : words c) (Hk : (k <= 33)%nat).
Let B := nn k b.
Let C := nn k c.
Hypotheses (Bpos : 0 < B) (Cpos : 1 < C).

(** The invariant of the loop: the determinant is [c], the two rows of the matrix
    give [u3] and [v3] as multiples of [b] modulo [c], and their gcd is that of
    [b] and [c]. *)
Definition ModInv_inv (st : ModInvSt) : Prop :=
  let '(mkModInv u1 u3 v1 v3 sg) := st in
  words u1 /\ words u3 /\ words v1 /\ words v3 /\ (sg = 1 \/ sg = -1) /\
  nn k v1 * nn k u3 + nn k u1 * nn k v3 = C /\ 0 < nn k u3 /\ nn k u1 <= C /\
  (C | sg * nn k u1 * B - nn k u3) /\ (C | sg * nn k v1 * B + nn k v3) /\
  Z.gcd (nn k u3) (nn k v3) = Z.gcd B C.

Lemma ModInv_step_ok st : ModInv_inv st ->
  match NN_ModInv_step k st with
  | inl st' => ModInv_inv st' /\ 0 <= nn k (mi_v3 st') < nn k (mi_v3 st)
  | inr r => exists st', r = Some st' /\ ModInv_inv st' /\ nn k (mi_v3 st') = 0
  end.
Proof.
  destruct st as [u1 u3 v1 v3 sg]. intros (W1 & W3 & V1 & V3 & Hsg & Hdet & H3 & Hu & D1 & D2 & G).
  unfold NN_ModInv_step. rewrite NN_Zero_spec by auto.
  destruct (Z.eqb_spec (nn k v3) 0) as [Z0|Hne].
  { eexists. split; [reflexivity|]. split; [|exact Z0]. unfold ModInv_inv. splits; auto. }
  set (z := repeat 0 MAX_NN_DIGITS). assert (Wz : words z) by (unfold z; auto with words).
  destruct (NN_Div_total z z u3 k v3 k Wz Wz W3 V3 ltac:(lia) Hk Hne)
    as (q & t3 & -> & Wq & Wt & Eq & Et).
  destruct (NN_Mult_spec (repeat 0 (2 * MAX_NN_DIGITS)) q v1 k ltac:(auto with words) Wq V1) as [Ww Ew].
  set (w := NN_Mult _ q v1 k) in *.
  pose proof (nn_bound k v3 V3). pose proof (nn_bound k v1 V1). pose proof (nn_bound k u1 W1).
  pose proof (nn_bound k c Wc) as BC. fold C in BC.
  pose proof (Z.div_mod (nn k u3) (nn k v3) Hne) as Hdm.
  pose proof (Z.mod_pos_bound (nn k u3) (nn k v3) ltac:(lia)) as Hm.
  assert (Hq : 0 <= nn k u3 / nn k v3) by (apply Z.div_pos; lia).
  rewrite <- Eq, <- Et in *. set (U1 := nn k u1) in *. set (X1 := nn k v1) in *.
  set (U3 := nn k u3) in *. set (X3 := nn k v3) in *. set (Q := nn k q) in *. set (T3 := nn k t3) in *.
  assert (Hnew : (U1 + Q * X1) * X3 + X1 * T3 = C) by nia.
  assert (P1 : 0 <= Q * X1) by (apply Z.mul_nonneg_nonneg; lia).
  assert (P2 : 0 <= X1 * T3) by (apply Z.mul_nonneg_nonneg; lia).
  assert (Hle : 0 <= U1 + Q * X1 <= C).
  { split; [lia|]. transitivity ((U1 + Q * X1) * X3); [|lia].
    rewrite <- (Z.mul_1_r (U1 + _)) at 1. apply Z.mul_le_mono_nonneg_l; lia. }
  assert (HX : X1 <= C).
  { transitivity (X1 * U3); [|nia]. rewrite <- (Z.mul_1_r X1) at 1. apply Z.mul_le_mono_nonneg_l; lia. }
  assert (Ew' : nn k w = Q * X1).
  { rewrite <- Ew. apply nn_low; [lia|auto|]. rewrite Ew. fold Q X1. lia. }
  destruct (NN_Add_nocarry z u1 w k Wz W1 Ww ltac:(rewrite Ew'; fold U1; lia)) as [Wt1 Et1].
  rewrite Ew' in Et1. fold U1 in Et1.
  destruct (NN_Add z u1 w k) as [t1 co]. cbn [fst] in *.
  unfold ModInv_inv. cbn [mi_v3]. rewrite !NN_Assign_spec, Et1. fold X3 X1 T3.
  splits; auto using words_Assign; try lia.
  - replace (- sg * X1 * B - X3) with (- (sg * X1 * B + X3)) by ring. now apply Z.divide_opp_r.
  - replace (- sg * (U1 + Q * X1) * B + T3)
      with (- (sg * U1 * B - U3) - Q * (sg * X1 * B + X3)) by (rewrite Hdm; ring).
    apply Z.divide_sub_r; [now apply Z.divide_opp_r|now apply Z.divide_mul_r].
  - rewrite <- G, Et, Z.gcd_comm, (Z.gcd_comm U3). apply Z.gcd_mod. lia.
Qed.

(** [NN_ModInv] returns; it gives the inverse of [b] modulo [c] in [1, c) when
    there is one. *)
Lemma NN_ModInv_returns a : words a -> (0 < k)%nat ->
  exists r, NN_ModInv a b c k = Some r /\ words r /\
            (Z.gcd B C = 1 -> 0 < nn k r < C /\ (nn k r * B) mod C = 1).
Proof.
  intros Wa Hk0. unfold NN_ModInv. set (z := repeat 0 MAX_NN_DIGITS).
  assert (Wz : words z) by (unfold z; auto with words).
  set (st0 := mkModInv _ _ _ _ _).
  assert (I0 : ModInv_inv st0).
  { unfold st0, ModInv_inv. rewrite NN_ASSIGN_DIGIT_spec, NN_AssignZero_spec, !NN_Assign_spec by auto.
    fold B C. splits; auto using words_Assign, words_AssignZero; try lia.
    - apply words_ASSIGN_DIGIT; auto. unfold is_word; lia.
    - exists 0. lia.
    - exists 1. lia. }
  destruct (run_total (NN_ModInv_step k) ModInv_inv (fun st => nn k (mi_v3 st))
    (fun r => exists st', r = Some st' /\ ModInv_inv st' /\ nn k (mi_v3 st') = 0) ModInv_step_ok
    (32 * k) st0 I0) as (r & -> & st & -> & I & Z3).
  { unfold st0. cbn [mi_v3]. rewrite NN_Assign_spec. pose proof (nn_bound k c Wc) as H.
    unfold Bn in H. rewrite Nat2Z.inj_mul. lia. }
  cbn [obind]. destruct st as [u1 u3 v1 v3 sg]. cbn [mi_v3 mi_u1 mi_u1Sign] in *.
  destruct I as (W1 & W3 & V1 & V3 & Hsg & Hdet & H3 & Hu & D1 & _ & G').
  eexists. split; [reflexivity|]. pose proof (nn_bound k u1 W1).
  destruct (NN_Sub_noborrow a c u1 k Wa Wc W1 Hu) as (Ws & _ & Es).
  split; [destruct (sg <? 0); auto using words_Assign|]. intros G.
  rewrite Z3, Z.gcd_0_r, G, Z.abs_eq in G' by lia. rewrite G' in D1.
  pose proof (inverse_range (nn k u1) sg B C Cpos ltac:(lia) Hsg D1) as HR.
  destruct (sg <? 0); [now rewrite Es|now rewrite NN_Assign_spec].
Qed.

Lemma NN_ModInv_total a : words a -> Z.gcd B C = 1 -> (0 < k)%nat ->
  exists r, NN_ModInv a b c k = Some r /\ words r /\
            0 < nn k r < C /\ (nn k r * B) mod C = 1.
Proof.
  intros Wa G Hk0. destruct (NN_ModInv_returns a Wa Hk0) as (r & E & W & H).
  exists r. destruct (H G). auto.
Qed.
End ModInv.

(** ** The greatest common divisor *)

Section Gcd.
Context (B C : Z) (k : nat) (Hk : (k <= 33)%nat).

Definition Gcd_inv (st : nat * list (list Z)) : Prop :=
  let '(i, t) := st in
  (i <= 2)%nat /\ length t = 3%nat /\ Forall (Forall is_word) t /\
  Z.gcd (nn k (nth i t [])) (nn k (nth (iminus1 i) t [])) = Z.gcd B C.

Lemma words_nth t i : Forall (Forall is_word) t -> words (nth i t []).
Proof.
  intros H. revert i. induction H; intros [|i]; cbn [nth]; auto.
Qed.

Lemma iplus1_facts i : (i <= 2)%nat ->
  (iplus1 i <= 2)%nat /\ iminus1 (iplus1 i) = i /\ iplus1 i <> i.
Proof. intros. destruct i as [|[|[|]]]; cbn; lia. Qed.

Lemma Gcd_step_ok st : Gcd_inv st ->
  match NN_Gcd_step k st with
  | inl st' => Gcd_inv st' /\
      0 <= nn k (nth (fst st') (snd st') []) < nn k (nth (fst st) (snd st) [])
  | inr r => exists st', r = Some st' /\ Gcd_inv st' /\ nn k (nth (fst st') (snd st') []) = 0
  end.
Proof.
  destruct st as [i t]. intros (Hi & Lt & Wt & G). unfold NN_Gcd_step. cbn [fst snd].
  rewrite NN_Zero_spec by auto using words_nth.
  destruct (Z.eqb_spec (nn k (nth i t [])) 0) as [Z0|Hne].
  { eexists. split; [reflexivity|]. split; [|exact Z0]. unfold Gcd_inv. auto. }
  destruct (NN_Mod_total (nth (iplus1 i) t []) (nth (iminus1 i) t []) k (nth i t []) k)
    as (r & -> & Wr & Er); auto using words_nth; [lia|].
  destruct (iplus1_facts i Hi) as (Hp & Hm & Hpi). cbn [fst snd].
  pose proof (nn_bound k (nth i t []) (words_nth _ _ Wt)).
  rewrite nth_upd_eq by lia.
  pose proof (Z.mod_pos_bound (nn k (nth (iminus1 i) t [])) (nn k (nth i t [])) ltac:(lia)).
  split; [|rewrite Er; lia].
  unfold Gcd_inv. rewrite Hm, nth_upd_eq, nth_upd_ne, length_upd by lia.
  splits; auto; [apply Forall_upd; auto|]. rewrite Er, Z.gcd_mod by lia. exact G.
Qed.
End Gcd.

(** [NN_Gcd] returns, and gives the greatest common divisor. *)
Lemma NN_Gcd_total a b c digits : words a -> words b -> words c -> (digits <= 33)%nat ->
  exists r, NN_Gcd a b c digits = Some r /\ words r /\
            nn digits r = Z.gcd (nn digits b) (nn digits c).
Proof.
  intros Wa Wb Wc Hd. unfold NN_Gcd. set (z := repeat 0 MAX_NN_DIGITS).
  assert (Wz : words z) by (unfold z; auto with words).
  set (t := [_; _; _]).
  assert (I0 : Gcd_inv (nn digits b) (nn digits c) digits (1%nat, t)).
  { unfold Gcd_inv, t. cbn [iminus1 Nat.eqb Nat.sub nth length]. rewrite !NN_Assign_spec.
    splits; auto. repeat (apply Forall_cons; [auto using words_Assign|]); apply Forall_nil. }
  destruct (run_total (NN_Gcd_step digits) (Gcd_inv (nn digits b) (nn digits c) digits)
    (fun st => nn digits (nth (fst st) (snd st) [])) _ (Gcd_step_ok _ _ digits Hd)
    (32 * digits) (1%nat, t) I0) as (r & -> & [i t'] & -> & (Hi & _ & Wt & G) & Z0).
  { unfold t. cbn [fst snd nth]. rewrite NN_Assign_spec. pose proof (nn_bound digits b Wb) as H.
    unfold Bn in H. rewrite Nat2Z.inj_mul. lia. }
  cbn [obind fst snd] in *. eexists. split; [reflexivity|]. rewrite NN_Assign_spec.
  split; [auto using words_Assign, words_nth|].
  pose proof (nn_bound digits _ (words_nth _ (iminus1 i) Wt)).
  rewrite Z0, Z.gcd_0_l, Z.abs_eq in G by lia. exact G.
Qed.

(** ** Facts the callers use *)

(** [NN_ModExp] writes the low digits of its destination only. *)
Lemma NN_ModExp_frame a b c cDigits d dDigits r j :
  NN_ModExp a b c cDigits d dDigits = Some r -> (dDigits <= j)%nat -> nth j r 0 = nth j a 0.
Proof.
  unfold NN_ModExp. destruct (NN_ModMult _ _ b d dDigits) as [b1|]; [|discriminate]. cbn [obind].
  destruct (NN_ModMult _ b1 b d dDigits) as [b2|]; [|discriminate]. cbn [obind].
  destruct (NN_ModExp_loop _ _ _ _ _ _ _) as [t|]; [|discriminate]. cbn [obind].
  intros [= <-] Hj. apply nth_store_above. now rewrite length_cells.
Qed.

Lemma NN_Digits_bound a digits k : words a -> nn digits a < Bn k -> (NN_Digits a digits <= k)%nat.
Proof.
  intros Wa H. destruct (NN_Digits a digits) as [|j] eqn:E; [lia|].
  pose proof (NN_Digits_top _ _ _ E) as Ht. pose proof (NN_Digits_nn a digits) as V. rewrite E in V.
  destruct (Nat.le_gt_cases (S j) k); [auto|]. exfalso.
  pose proof (Bn_mono k j ltac:(lia)). rewrite nn_snoc in V.
  pose proof (nn_bound j a Wa). pose proof (nth_word a j Wa). pose proof (Bn_pos j).
  unfold is_word in *. nia.
Qed.

Lemma nn_Digits_lt a digits : words a -> nn digits a < Bn (NN_Digits a digits).
Proof. intros Wa. rewrite <- NN_Digits_nn. apply nn_bound, Wa. Qed.

(** ** The claims *)

(** Claim C40: modular exponentiation by a window of two bits returns, and is exact, for every
    modulus above 1 of at most 33 digits, every base and every exponent. *)
Theorem NN_ModExp_exact (a b c d : list Z) (cDigits dDigits : nat) :
  words a -> words b -> words c -> words d -> (1 <= dDigits <= 33)%nat -> 1 < nn dDigits d ->
  exists r, NN_ModExp a b c cDigits d dDigits = Some r /\ words r /\
    nn dDigits r = nn dDigits b ^ nn cDigits c mod nn dDigits d.
Proof. intros. apply NN_ModExp_total; auto; lia. Qed.

Lemma NN_ModExp_exact_witness :
  exists r, NN_ModExp [0; 0] [3; 1] [0x10001] 1 [0xfffffffb; 0xffffffff] 2 = Some r /\ words r /\
    nn 2 r = nn 2 [3; 1] ^ nn 1 [0x10001] mod nn 2 [0xfffffffb; 0xffffffff].
Proof. apply NN_ModExp_exact; [check_words|check_words|check_words|check_words|lia|reflexivity]. Defined.

(** The extended Euclidean algorithm returns the inverse of every number prime to the
    modulus, between 1 and the modulus. *)
Theorem NN_ModInv_exact (a b c : list Z) (digits : nat) :
  words a -> words b -> words c -> (1 <= digits <= 33)%nat -> 0 < nn digits b -> 1 < nn digits c ->
  Z.gcd (nn digits b) (nn digits c) = 1 ->
  exists r, NN_ModInv a b c digits = Some r /\ words r /\ 0 < nn digits r < nn digits c /\
    (nn digits r * nn digits b) mod nn digits c = 1.
Proof. intros. apply NN_ModInv_total; auto; lia. Qed.

Lemma NN_ModInv_exact_witness :
  exists r, NN_ModInv [0; 0] [0x10001; 0] [0xfffffffb; 0xffffffff] 2 = Some r /\ words r /\
    0 < nn 2 r < nn 2 [0xfffffffb; 0xffffffff] /\
    (nn 2 r * nn 2 [0x10001; 0]) mod nn 2 [0xfffffffb; 0xffffffff] = 1.
Proof.
  apply NN_ModInv_exact; [check_words|check_words|check_words|lia|reflexivity|reflexivity|vm_compute; reflexivity].
Defined.

(** The Euclidean algorithm returns the greatest common divisor. *)
Theorem NN_Gcd_exact (a b c : list Z) (digits : nat) :
  words a -> words b -> words c -> (digits <= 33)%nat ->
  exists r, NN_Gcd a b c digits = Some r /\ words r /\
    nn digits r = Z.gcd (nn digits b) (nn digits c).
Proof. intros. now apply NN_Gcd_total. Qed.

Lemma NN_Gcd_exact_witness :
  exists r, NN_Gcd [0; 0] [12; 4] [18; 0] 2 = Some r /\ words r /\
    nn 2 r = Z.gcd (nn 2 [12; 4]) (nn 2 [18; 0]).
Proof. apply NN_Gcd_exact; [check_words|check_words|check_words|lia]. Defined.
