(* ===== verification/StdLib.v ===== *)
(** * StdLib: the memory routines (src/QBase/RSAEuro/r_stdlib.c)

    [R_memset], [R_memcpy] and [R_memcmp], the byte loops every other module of
    the library uses instead of the C library's. *)

From S2P Require Import Prelude.

(** ** Definitions *)

Fixpoint R_memset (output : list Z) (value : Z) (len : nat) : list Z :=
  match len with
  | O => output
  | S k => w8 value :: R_memset (tl output) value k
  end.

Fixpoint R_memcpy (output input : list Z) (len : nat) : list Z :=
  match len with
  | O => output
  | S k => hd 0 input :: R_memcpy (tl output) (tl input) k
  end.

(** The difference of the first bytes that differ, 0 when the blocks are equal. *)
Fixpoint R_memcmp (Block1 Block2 : list Z) (len : nat) : Z :=
  match len with
  | O => 0
  | S k =>
      if negb (hd 0 Block1 =? hd 0 Block2) then hd 0 Block1 - hd 0 Block2
      else R_memcmp (tl Block1) (tl Block2) k
  end.

(** ** Theorems *)

Lemma skipn_tl {A} n (l : list A) : skipn n (tl l) = skipn (S n) l.
Proof. destruct l; [now rewrite skipn_nil|reflexivity]. Qed.

Lemma R_memset_store output value len :
  R_memset output value len = store output (repeat (w8 value) len).
Proof.
  unfold store. rewrite repeat_length. revert output.
  induction len as [|k IH]; intros; cbn [R_memset repeat app]; [reflexivity|].
  now rewrite IH, skipn_tl.
Qed.

Lemma R_memcpy_store output input len :
  R_memcpy output input len = store output (cells len input).
Proof.
  unfold store. rewrite length_cells. revert output input.
  induction len as [|k IH]; intros; cbn [R_memcpy cells app]; [reflexivity|].
  now rewrite IH, skipn_tl.
Qed.

Lemma length_R_memset output value len :
  (len <= length output)%nat -> length (R_memset output value len) = length output.
Proof. intros. rewrite R_memset_store. apply length_store. now rewrite repeat_length. Qed.

Lemma length_R_memcpy output input len :
  (len <= length output)%nat -> length (R_memcpy output input len) = length output.
Proof. intros. rewrite R_memcpy_store. apply length_store. now rewrite length_cells. Qed.

Lemma bytes_R_memset output value len : bytes output -> bytes (R_memset output value len).
Proof. intros. rewrite R_memset_store. auto with words. Qed.

Lemma bytes_R_memcpy output input len :
  bytes output -> bytes input -> bytes (R_memcpy output input len).
Proof. intros. rewrite R_memcpy_store. auto with words. Qed.

Lemma firstn_R_memcpy output input len :
  (len <= length input)%nat -> firstn len (R_memcpy output input len) = firstn len input.
Proof.
  intros H. rewrite R_memcpy_store, <- (cells_firstn len input H).
  rewrite <- (length_cells len input) at 1. apply firstn_store.
Qed.

Lemma R_memcpy_all (p l : list Z) n : length p = n -> (n <= length l)%nat ->
  R_memcpy p l n = firstn n l.
Proof.
  intros Hp Hl. rewrite <- (firstn_R_memcpy p l n Hl). symmetry. apply firstn_all2.
  rewrite length_R_memcpy; lia.
Qed.

#[export] Hint Resolve bytes_R_memset bytes_R_memcpy : words.

(** [R_memcmp] answers 0 exactly on equal blocks, and has the sign of the first
    difference otherwise. *)
Lemma R_memcmp_0 a b len : R_memcmp a b len = 0 <-> cells len a = cells len b.
Proof.
  revert a b; induction len as [|k IH]; intros a b; cbn [R_memcmp cells]; [tauto|].
  destruct (Z.eqb_spec (hd 0 a) (hd 0 b)) as [E|E]; cbn [negb].
  - rewrite IH, E. split; [now intros ->|intros H; now injection H].
  - split; [lia|]. intros H; injection H; contradiction.
Qed.

Lemma R_memcmp_refl a b len : length a = len -> length b = len ->
  R_memcmp a b len = 0 <-> a = b.
Proof.
  intros <- Lb. rewrite R_memcmp_0, cells_all, <- Lb, cells_all. tauto.
Qed.

Lemma R_memcmp_sign a b len : bytes a -> bytes b -> length a = len -> length b = len ->
  Z.sgn (R_memcmp a b len) = Z.sgn (be a - be b).
Proof.
  intros Ha. revert b len; induction Ha as [|x a Hx Ha IH]; intros b len Hb La Lb.
  { cbn in La. subst len. now destruct b. }
  destruct Hb as [|y b Hy Hb]; [cbn in *; lia|]. cbn [length] in La, Lb. subst len.
  cbn [R_memcmp hd tl]. rewrite !be_cons. injection Lb as Lb.
  pose proof (be_bound a Ha). pose proof (be_bound b Hb). rewrite Lb in *.
  destruct (Z.eqb_spec x y) as [->|E]; cbn [negb].
  - rewrite (IH b) by auto. f_equal. lia.
  - destruct (Z.lt_total x y) as [L|[L|L]]; [|contradiction|].
    + rewrite !Z.sgn_neg by nia. reflexivity.
    + rewrite !Z.sgn_pos by nia. reflexivity.
Qed.

(** ** C strings *)

(** [strlen]: the number of bytes before the terminator. *)
Fixpoint strlen (s : list Z) : nat :=
  match s with [] => O | x :: s' => if x =? 0 then O else S (strlen s') end.

Lemma strlen_le s : (strlen s <= length s)%nat.
Proof. induction s as [|x s IH]; cbn [strlen length]; [lia|]. destruct (x =? 0); lia. Qed.

Lemma strlen_app s : Forall (fun c => c <> 0) s -> forall t, strlen (s ++ 0 :: t) = length s.
Proof.
  intros H t. induction H as [|c s Hc _ IH]; [reflexivity|]. cbn [app strlen length].
  apply Z.eqb_neq in Hc. now rewrite Hc, IH.
Qed.
