(* ===== verification/MDBuffer.v ===== *)
(** * MDBuffer: the buffering of the MD4 and MD5 digests
      (src/QBase/RSAEuro/md4c.c, md5c.c)

    The two C files share everything but the block transform: the context, the
    update that cuts the input into 64-byte blocks while keeping the remainder,
    the finalisation that pads to 56 modulo 64 and appends the bit count, and
    the little-endian [Encode]/[Decode]. This file models that part once, over an
    arbitrary transform, and proves that any sequence of updates followed by the
    finalisation computes the digest of the concatenated message.

    [absorb] and [pad] are the reference definitions: the message is split into
    blocks from its start, without any buffer. *)

From S2P Require Import Prelude StdLib.

(** ** Definitions *)

(** The context [MD4_CTX] and [MD5_CTX]. *)
Record MD_CTX := mkMD { state : list Z; count0 : Z; count1 : Z; buffer : list Z }.

Definition PADDING : list Z := 0x80 :: repeat 0 63.

Definition Encode_word (x : Z) : list Z :=
  [x .& 0xff; (x .>> 8) .& 0xff; (x .>> 16) .& 0xff; (x .>> 24) .& 0xff].

Definition Encode (input : list Z) (len : nat) : list Z :=
  flat_map Encode_word (cells (len / 4) input).

(** Word [i] of [input] read as bytes [4 * i], ..., [4 * i + 3]. *)
Definition Decode_word (input : list Z) : Z :=
  nth 0 input 0 .| (nth 1 input 0 .<< 8) .| (nth 2 input 0 .<< 16) .| (nth 3 input 0 .<< 24).

Fixpoint Decode (input : list Z) (n : nat) : list Z :=
  match n with
  | O => []
  | S k => Decode_word input :: Decode (skipn 4 input) k
  end.

Definition MD_Init (iv : list Z) (buf : list Z) : MD_CTX := mkMD iv 0 0 buf.

Section Update.
Context (Transform : list Z -> list Z -> list Z).

(** [for(i = partLen; i + 63 < inputLen; i += 64) Transform(state, &input[i]);] *)
Fixpoint MD_blocks (fuel : nat) (st : list Z) (i : nat) (input : list Z) (inputLen : nat)
  : list Z * nat :=
  match fuel with
  | O => (st, i)
  | S f =>
      if w32 (Z.of_nat i + 63) <? Z.of_nat inputLen then
        MD_blocks f (Transform st (cells 64 (skipn i input))) (i + 64) input inputLen
      else (st, i)
  end.

Definition MD_Update (context : MD_CTX) (input : list Z) (inputLen : nat) : MD_CTX :=
  let n := Z.of_nat inputLen in
  let index := Z.to_nat ((count0 context .>> 3) .& 0x3F) in
  let c0 := w32 (count0 context + w32 (n .<< 3)) in
  let c1 := if c0 <? w32 (n .<< 3) then w32 (count1 context + 1) else count1 context in
  let c1 := w32 (c1 + (n .>> 29)) in
  let partLen := (64 - index)%nat in
  let '(st, buf, i, index) :=
    if (partLen <=? inputLen)%nat then
      let buf := at_ptr index (fun p => R_memcpy p input partLen) (buffer context) in
      let st := Transform (state context) buf in
      let '(st, i) := MD_blocks inputLen st partLen input inputLen in
      (st, buf, i, 0%nat)
    else (state context, buffer context, 0%nat, index) in
  mkMD st c0 c1 (at_ptr index (fun p => R_memcpy p (skipn i input) (inputLen - i)) buf).

(** The digest, and the context that is left. *)
Definition MD_Final (context : MD_CTX) : list Z * MD_CTX :=
  let bits := Encode [count0 context; count1 context] 8 in
  let index := Z.to_nat ((count0 context .>> 3) .& 0x3f) in
  let padLen := if (index <? 56)%nat then (56 - index)%nat else (120 - index)%nat in
  let context := MD_Update context PADDING padLen in
  let context := MD_Update context bits 8 in
  let digest := Encode (state context) 16 in
  (digest, mkMD (repeat 0 4) 0 0 (R_memset (buffer context) 0 64)).
End Update.

(** ** Reference: blocks cut from the start of the message *)

Section Absorb.
Context {St : Type} (T : St -> list Z -> St) (B : nat).

Fixpoint absorb_n (n : nat) (st : St) (m : list Z) : St :=
  match n with
  | O => st
  | S k => absorb_n k (T st (firstn B m)) (skipn B m)
  end.

(** The state after the whole blocks of [m], and the bytes after them. *)
Definition absorb (st : St) (m : list Z) : St := absorb_n (length m / B) st m.
Definition tail (m : list Z) : list Z := skipn (B * (length m / B)) m.
End Absorb.

(** The padding of a message: a one bit, zeros up to 56 modulo 64, and the bit
    count modulo 2^64. *)
Definition pad (m : list Z) : list Z :=
  let n := (length m mod 64)%nat in
  let bits := 8 * Z.of_nat (length m) in
  m ++ firstn (if (n <? 56)%nat then 56 - n else 120 - n) PADDING
    ++ Encode [bits mod 2 ^ 32; (bits / 2 ^ 32) mod 2 ^ 32] 8.

(** ** The blocks of a concatenation *)

Section AbsorbFacts.
Context {St : Type} (T : St -> list Z -> St) (B : nat) (Bpos : (0 < B)%nat).

Lemma absorb_n_app k j st a b : length a = (B * k)%nat ->
  absorb_n T B (k + j) st (a ++ b) = absorb_n T B j (absorb_n T B k st a) b.
Proof.
  revert st a; induction k as [|k IH]; intros st a L; cbn [absorb_n plus].
  - destruct a; [reflexivity|cbn in L; lia].
  - rewrite firstn_app, skipn_app.
    replace (B - length a)%nat with 0%nat by lia. cbn [firstn skipn]. rewrite app_nil_r.
    apply IH. rewrite length_skipn. lia.
Qed.

Lemma absorb_n_more k st a b : (B * k <= length a)%nat ->
  absorb_n T B k st (a ++ b) = absorb_n T B k st a.
Proof.
  intros L. rewrite <- (firstn_skipn (B * k) a), <- app_assoc.
  replace k with (k + 0)%nat at 1 4 by lia.
  rewrite !absorb_n_app by (rewrite length_firstn; lia). reflexivity.
Qed.

Lemma length_tail m : length (tail B m) = (length m mod B)%nat.
Proof.
  unfold tail. rewrite length_skipn. symmetry. apply Nat.Div0.mod_eq.
Qed.

Lemma tail_short m : (length m < B)%nat -> tail B m = m /\ forall st, absorb T B st m = st.
Proof. intros. unfold tail, absorb. rewrite Nat.div_small by auto. now rewrite Nat.mul_0_r. Qed.

(** Absorbing in two parts: the remainder of the first is prepended to the second. *)
Lemma absorb_app st m x :
  absorb T B st (m ++ x) = absorb T B (absorb T B st m) (tail B m ++ x) /\
  tail B (m ++ x) = tail B (tail B m ++ x).
Proof.
  set (q := (length m / B)%nat).
  assert (E : m = firstn (B * q) m ++ tail B m) by (symmetry; apply firstn_skipn).
  assert (L : length (firstn (B * q) m) = (B * q)%nat).
  { rewrite length_firstn. apply Nat.min_l. apply Nat.Div0.mul_div_le. }
  set (h := firstn (B * q) m) in *. set (t := tail B m) in *.
  assert (Q : (length (m ++ x) / B = q + length (t ++ x) / B)%nat).
  { rewrite E, <- app_assoc, length_app, L, (Nat.add_comm (B * q)), Nat.mul_comm.
    rewrite Nat.div_add by lia. lia. }
  assert (A1 : absorb T B st m = absorb_n T B q st h).
  { unfold absorb. fold q. rewrite E at 1. apply absorb_n_more. lia. }
  split.
  - unfold absorb at 1. rewrite Q, E, <- app_assoc at 1. rewrite absorb_n_app by auto.
    rewrite A1. reflexivity.
  - unfold tail at 1. rewrite Q, Nat.mul_add_distr_l, Nat.add_comm, <- skipn_skipn.
    rewrite E at 1. rewrite <- app_assoc, skipn_app, (skipn_all2 h) by lia.
    replace (B * q - length h)%nat with 0%nat by lia. reflexivity.
Qed.

(** A whole block at the front. *)
Lemma absorb_block st a b : length a = B ->
  absorb T B st (a ++ b) = absorb T B (T st a) b /\ tail B (a ++ b) = tail B b.
Proof.
  intros L. destruct (absorb_app st a b) as [-> ->].
  assert (D : (length a / B = 1)%nat) by (rewrite L; apply Nat.div_same; lia).
  assert (Ta : tail B a = []) by (unfold tail; rewrite D; apply skipn_all2; lia).
  rewrite Ta. split; [|reflexivity]. unfold absorb at 2. rewrite D. cbn [absorb_n].
  now rewrite firstn_all2 by lia.
Qed.
End AbsorbFacts.

(** ** The loop over whole blocks *)

Section UpdateFacts.
Context (Transform : list Z -> list Z -> list Z) (iv : list Z).

Lemma MD_blocks_spec fuel st i input : (length input <= 64 * fuel + i)%nat -> (i <= length input)%nat ->
  Z.of_nat (length input) < 2 ^ 32 - 63 ->
  MD_blocks Transform fuel st i input (length input) =
    (absorb Transform 64 st (skipn i input),
     (i + 64 * (length (skipn i input) / 64))%nat).
Proof.
  revert st i; induction fuel as [|f IH]; intros st i Hf Hi Hn; cbn [MD_blocks].
  { unfold absorb. rewrite length_skipn. replace (length input - i)%nat with 0%nat by lia.
    change (0 / 64)%nat with 0%nat. cbn [absorb_n]. f_equal. lia. }
  rewrite w32_small by (unfold is_word; lia).
  destruct (Z.ltb_spec (Z.of_nat i + 63) (Z.of_nat (length input))) as [C|C].
  - rewrite IH by lia.
    assert (L : length (skipn i input) = (64 + length (skipn (i + 64) input))%nat)
      by (rewrite !length_skipn; lia).
    assert (Q : (length (skipn i input) / 64 = 1 + length (skipn (i + 64) input) / 64)%nat).
    { rewrite L, Nat.add_comm. rewrite <- (Nat.mul_1_l 64) at 2. rewrite Nat.div_add by lia. lia. }
    rewrite Q. unfold absorb. rewrite Q. cbn [absorb_n plus]. rewrite skipn_skipn.
    rewrite cells_firstn by (rewrite length_skipn; lia).
    replace (64 + i)%nat with (i + 64)%nat by lia. f_equal. lia.
  - unfold absorb. rewrite Nat.div_small by (rewrite length_skipn; lia).
    cbn [absorb_n]. f_equal. lia.
Qed.

(** ** The invariant: the context represents the message fed so far *)

Definition represents (c : MD_CTX) (m : list Z) : Prop :=
  length (buffer c) = 64%nat /\
  state c = absorb Transform 64 iv m /\
  firstn (length m mod 64) (buffer c) = tail 64 m /\
  count0 c = (8 * Z.of_nat (length m)) mod 2 ^ 32 /\
  count1 c = (8 * Z.of_nat (length m) / 2 ^ 32) mod 2 ^ 32.

Lemma represents_Init buf : length buf = 64%nat -> represents (MD_Init iv buf) [].
Proof. intros L. unfold represents. cbn. auto. Qed.

(** The 64-bit counter in two words. *)
Lemma count_add L n : 0 <= L -> 0 <= n < 2 ^ 32 ->
  let c0 := w32 ((8 * L) mod 2 ^ 32 + w32 (n .<< 3)) in
  let c1 := if c0 <? w32 (n .<< 3) then w32 ((8 * L / 2 ^ 32) mod 2 ^ 32 + 1)
            else (8 * L / 2 ^ 32) mod 2 ^ 32 in
  c0 = (8 * (L + n)) mod 2 ^ 32 /\ w32 (c1 + (n .>> 29)) = (8 * (L + n) / 2 ^ 32) mod 2 ^ 32.
Proof.
  intros HL Hn. rewrite Z.shiftl_mul_pow2, Z.shiftr_div_pow2 by lia.
  change (2 ^ 3) with 8. unfold w32. cbv zeta.
  set (a := 8 * L). replace (8 * (L + n)) with (a + n * 8) by (unfold a; lia).
  replace (n / 2 ^ 29) with (n * 8 / 2 ^ 32)
    by (change (2 ^ 32) with (2 ^ 29 * 8); apply Z.div_mul_cancel_r; lia).
  set (b := n * 8). assert (0 <= a /\ 0 <= b) as [Ha Hb] by (unfold a, b; lia). clearbody a b.
  split; [now rewrite <- Zplus_mod|].
  pose proof (Z.div_mod a (2 ^ 32) ltac:(lia)) as Ea.
  pose proof (Z.div_mod b (2 ^ 32) ltac:(lia)) as Eb.
  pose proof (Z.mod_pos_bound a (2 ^ 32) ltac:(lia)) as Ba.
  pose proof (Z.mod_pos_bound b (2 ^ 32) ltac:(lia)) as Bb.
  destruct (Z_lt_ge_dec (a mod 2 ^ 32 + b mod 2 ^ 32) (2 ^ 32)) as [C|C].
  - rewrite (Z.mod_small (a mod 2 ^ 32 + b mod 2 ^ 32)) by lia.
    replace (_ <? _) with false by (symmetry; apply Z.ltb_ge; lia).
    replace ((a + b) / 2 ^ 32) with (a / 2 ^ 32 + b / 2 ^ 32)
      by (apply Z.div_unique_pos with (a mod 2 ^ 32 + b mod 2 ^ 32); lia).
    apply Zplus_mod_idemp_l.
  - replace ((a mod 2 ^ 32 + b mod 2 ^ 32) mod 2 ^ 32) with (a mod 2 ^ 32 + b mod 2 ^ 32 - 2 ^ 32)
      by (apply Z.mod_unique_pos with 1; lia).
    replace (_ <? _) with true by (symmetry; apply Z.ltb_lt; lia).
    replace ((a + b) / 2 ^ 32) with (a / 2 ^ 32 + 1 + b / 2 ^ 32)
      by (apply Z.div_unique_pos with (a mod 2 ^ 32 + b mod 2 ^ 32 - 2 ^ 32); lia).
    rewrite Zplus_mod_idemp_l, <- Z.add_assoc, Zplus_mod_idemp_l. f_equal. lia.
Qed.

Lemma index_spec L : 0 <= L ->
  Z.to_nat ((((8 * L) mod 2 ^ 32) .>> 3) .& 0x3F) = Z.to_nat (L mod 64).
Proof.
  intros HL. rewrite Z.shiftr_div_pow2 by lia. change 0x3F with (Z.ones 6).
  rewrite Z.land_ones by lia. f_equal.
  change (2 ^ 32) with (8 * 2 ^ 29). change (2 ^ 3) with 8.
  rewrite Zmult_mod_distr_l, Z.mul_comm, Z.div_mul by lia.
  change (2 ^ 29) with (2 ^ 6 * 2 ^ 23). change 64 with (2 ^ 6).
  rewrite Z.rem_mul_r, (Z.mul_comm (2 ^ 6)), Z_mod_plus_full by lia. apply Z.mod_mod. lia.
Qed.

(** The buffer after the update, given its first [index] bytes. *)
Lemma at_ptr_memcpy k n (a b : list Z) : (k + n <= length a)%nat -> (n <= length b)%nat ->
  length (at_ptr k (fun p => R_memcpy p b n) a) = length a /\
  firstn (k + n) (at_ptr k (fun p => R_memcpy p b n) a) = firstn k a ++ firstn n b.
Proof.
  intros Ha Hb. unfold at_ptr. split.
  - rewrite length_app, length_R_memcpy, length_firstn, length_skipn; [lia|].
    rewrite length_skipn. lia.
  - rewrite firstn_app, length_firstn, Nat.min_l by lia.
    rewrite firstn_all2 by (rewrite length_firstn; lia).
    replace (k + n - k)%nat with n by lia. now rewrite firstn_R_memcpy.
Qed.

Lemma MD_Update_represents c m input : represents c m ->
  Z.of_nat (length input) < 2 ^ 32 - 63 ->
  represents (MD_Update Transform c input (length input)) (m ++ input).
Proof.
  intros (Lb & Es & Et & E0 & E1) Hn. unfold MD_Update.
  destruct (count_add (Z.of_nat (length m)) (Z.of_nat (length input)) ltac:(lia) ltac:(lia)) as [C0 C1].
  cbv zeta in C0, C1. rewrite E0, E1, C1, C0, index_spec by lia. clear C0 C1 E0 E1.
  set (r := (length m mod 64)%nat) in *.
  replace (Z.to_nat (Z.of_nat (length m) mod 64)) with r
    by (unfold r; change 64 with (Z.of_nat 64); now rewrite <- Nat2Z.inj_mod, Nat2Z.id).
  assert (Hr : (r < 64)%nat) by (apply Nat.mod_upper_bound; lia).
  assert (Lt : length (tail 64 m) = r) by (apply length_tail; lia).
  destruct (absorb_app Transform 64 ltac:(lia) iv m input) as [A1 A2].
  rewrite <- Es in A1. clear Es.
  assert (Hlen : (length (m ++ input) mod 64 = (r + length input) mod 64)%nat).
  { rewrite length_app, <- Nat.Div0.add_mod_idemp_l. reflexivity. }
  unfold represents. rewrite Hlen, A1, A2, <- Et in *. clear Hlen A1 A2 Et.
  rewrite length_app, Nat2Z.inj_add.
  destruct (Nat.leb_spec (64 - r) (length input)) as [C|C].
  - destruct (at_ptr_memcpy r (64 - r) (buffer c) input ltac:(lia) C) as [L1 F1].
    set (buf := at_ptr r _ (buffer c)) in *.
    rewrite firstn_all2 in F1 by lia.
    rewrite MD_blocks_spec by lia. set (rest := skipn (64 - r) input).
    set (i := (64 - r + _)%nat).
    assert (Li : length rest = (length input - (64 - r))%nat) by apply length_skipn.
    assert (Er : (length input - i = length rest mod 64)%nat).
    { unfold i. fold rest. rewrite Li, Nat.Div0.mod_eq. lia. }
    assert (Es : skipn i input = tail 64 rest)
      by (unfold tail, rest, i; rewrite skipn_skipn; f_equal; apply Nat.add_comm).
    pose proof (Nat.mod_upper_bound (length rest) 64 ltac:(lia)).
    destruct (at_ptr_memcpy 0 (length input - i) buf (skipn i input))
      as [L2 F2]; [lia|rewrite length_skipn; lia|].
    cbn [buffer state count0 count1].
    assert (Eb : firstn r (buffer c) ++ input = buf ++ rest)
      by (rewrite F1, <- app_assoc; f_equal; symmetry; apply firstn_skipn).
    destruct (absorb_block Transform 64 ltac:(lia) (state c) buf rest ltac:(lia)) as [B1 B2].
    rewrite Eb, B1, B2. splits; auto; [lia|].
    replace ((r + length input) mod 64)%nat with (0 + (length input - i))%nat.
    + rewrite F2, Es. cbn [firstn app]. apply firstn_all2. rewrite <- Es, length_skipn. lia.
    + rewrite Er, Li. replace (r + length input)%nat with (length input - (64 - r) + 1 * 64)%nat by lia.
      now rewrite Nat.Div0.mod_add.
  - destruct (at_ptr_memcpy r (length input) (buffer c) input ltac:(lia) ltac:(lia)) as [L1 F1].
    rewrite Nat.sub_0_r, skipn_O. cbn [buffer state count0 count1].
    destruct (tail_short Transform 64 (firstn r (buffer c) ++ input)) as [B1 B2].
    { rewrite length_app, length_firstn. lia. }
    rewrite B1, B2. splits; auto; [lia|]. rewrite Nat.mod_small by lia.
    rewrite F1. f_equal. apply firstn_all.
Qed.

(** Only the first [inputLen] bytes of the input are read. *)
Lemma MD_blocks_prefix f st i input n : Z.of_nat n < 2 ^ 32 - 63 -> (i <= n)%nat ->
  MD_blocks Transform f st i (firstn n input) n = MD_blocks Transform f st i input n.
Proof.
  intros Hn. revert st i; induction f as [|f IH]; intros st i Hi; cbn [MD_blocks]; [reflexivity|].
  rewrite w32_small by (unfold is_word; lia).
  destruct (Z.ltb_spec (Z.of_nat i + 63) (Z.of_nat n)) as [C|C]; [|reflexivity].
  rewrite IH, cells_prefix by lia. reflexivity.
Qed.

Lemma R_memcpy_prefix p i k n l : (i + k <= n)%nat ->
  R_memcpy p (skipn i (firstn n l)) k = R_memcpy p (skipn i l) k.
Proof. intros. now rewrite !R_memcpy_store, cells_prefix. Qed.

Lemma MD_Update_prefix c input n : Z.of_nat n < 2 ^ 32 - 63 -> (n <= length input)%nat ->
  MD_Update Transform c (firstn n input) n = MD_Update Transform c input n.
Proof.
  intros Hn Hl. unfold MD_Update.
  set (index := Z.to_nat _). destruct (Nat.leb_spec (64 - index) n) as [C|C].
  - replace (at_ptr index (fun p => R_memcpy p (firstn n input) (64 - index)) (buffer c))
      with (at_ptr index (fun p => R_memcpy p input (64 - index)) (buffer c)).
    2:{ unfold at_ptr. f_equal. symmetry. now apply (R_memcpy_prefix _ 0). }
    rewrite MD_blocks_prefix by lia.
    destruct (MD_blocks _ _ _ _ _ _) as [st i]. f_equal. unfold at_ptr. f_equal.
    destruct (Nat.le_gt_cases i n); [apply R_memcpy_prefix; lia|].
    now replace (n - i)%nat with 0%nat by lia.
  - f_equal. unfold at_ptr. f_equal. apply R_memcpy_prefix. lia.
Qed.

(** ** Finalisation *)

Lemma length_Encode l n : length (Encode l n) = (4 * (n / 4))%nat.
Proof.
  unfold Encode. generalize (n / 4)%nat. clear n. intros k. revert l.
  induction k as [|k IH]; intros; cbn [cells flat_map]; [reflexivity|].
  rewrite length_app, IH. cbn [length Encode_word]. lia.
Qed.

(** The digest is that of the padded message. *)
Lemma MD_Final_represents c m : represents c m ->
  fst (MD_Final Transform c) = Encode (absorb Transform 64 iv (pad m)) 16.
Proof.
  intros R. unfold MD_Final. cbn [fst]. pose proof R as (_ & _ & _ & E0 & E1).
  rewrite E0, E1, index_spec by lia.
  set (n := (length m mod 64)%nat).
  replace (Z.to_nat (Z.of_nat (length m) mod 64)) with n
    by (unfold n; change 64 with (Z.of_nat 64); now rewrite <- Nat2Z.inj_mod, Nat2Z.id).
  assert (Hn : (n < 64)%nat) by (apply Nat.mod_upper_bound; lia).
  set (padLen := if (n <? 56)%nat then (56 - n)%nat else (120 - n)%nat).
  assert (Hp : (padLen <= 64)%nat) by (unfold padLen; destruct (Nat.ltb_spec n 56); lia).
  set (bits := Encode _ 8).
  assert (Lb : length bits = 8%nat) by apply length_Encode.
  rewrite <- (MD_Update_prefix c PADDING padLen) by (cbn [length PADDING repeat]; lia).
  assert (Lp : length (firstn padLen PADDING) = padLen)
    by (rewrite length_firstn; cbn [length PADDING repeat]; lia).
  pose proof (MD_Update_represents c m (firstn padLen PADDING) R ltac:(lia)) as R1.
  rewrite Lp in R1.
  pose proof (MD_Update_represents _ _ bits R1 ltac:(lia)) as (_ & E & _).
  rewrite Lb in E. rewrite E, <- app_assoc. reflexivity.
Qed.

(** Any sequence of updates, then the finalisation. *)
Lemma MD_stream buf chunks : length buf = 64%nat ->
  Forall (fun x => Z.of_nat (length x) < 2 ^ 32 - 63) chunks ->
  fst (MD_Final Transform
    (fold_left (fun c x => MD_Update Transform c x (length x)) chunks (MD_Init iv buf))) =
  Encode (absorb Transform 64 iv (pad (concat chunks))) 16.
Proof.
  intros Lb H. apply MD_Final_represents.
  change (concat chunks) with ([] ++ concat chunks).
  pose proof (represents_Init buf Lb) as R. revert R.
  generalize (MD_Init iv buf) as c. generalize (@nil Z) as m.
  induction H as [|x l Hx Hl IH]; intros m c R; cbn [fold_left concat]; [now rewrite app_nil_r|].
  rewrite app_assoc. apply IH. now apply MD_Update_represents.
Qed.
End UpdateFacts.

(** ** The little-endian codec *)

Lemma Encode_word_bytes x : bytes (Encode_word x).
Proof.
  unfold Encode_word. repeat constructor; change 0xff with (Z.ones 8); rewrite Z.land_ones by lia;
    apply Z.mod_pos_bound; lia.
Qed.

Lemma le_Encode_word x : is_word x -> le (Encode_word x) = x.
Proof.
  intros H. unfold Encode_word. cbn [le]. change 0xff with (Z.ones 8).
  rewrite !Z.land_ones, !Z.shiftr_div_pow2 by lia. unfold is_word in H.
  Z.div_mod_to_equations. lia.
Qed.

Lemma Decode_word_le a b c d r : bytes [a; b; c; d] ->
  Decode_word (a :: b :: c :: d :: r) = le [a; b; c; d].
Proof.
  intros H. inversion_clear H as [|? ? Ha H0]. inversion_clear H0 as [|? ? Hb H].
  inversion_clear H as [|? ? Hc H0]. inversion_clear H0 as [|? ? Hd _].
  unfold Decode_word, is_byte in *. cbn [nth le].
  rewrite (lor_add a b 8), (lor_add _ c 16), (lor_add _ d 24) by lia. lia.
Qed.

Lemma Decode_word_Encode x r : is_word x -> Decode_word (Encode_word x ++ r) = x.
Proof.
  intros H. rewrite <- (le_Encode_word x H) at 2. apply Decode_word_le, Encode_word_bytes.
Qed.

Lemma Decode_Encode l k : words l -> Decode (Encode l (4 * k)) k = cells k l.
Proof.
  unfold Encode. rewrite Nat.mul_comm, Nat.div_mul by lia.
  revert l; induction k as [|k IH]; intros l H; cbn [Decode cells flat_map]; [reflexivity|].
  assert (W : is_word (hd 0 l)) by auto with words.
  f_equal; [|now apply IH; auto with words].
  now apply Decode_word_Encode.
Qed.

Lemma bytes_Encode l n : bytes (Encode l n).
Proof.
  unfold Encode. generalize (n / 4)%nat. intros k. revert l.
  induction k as [|k IH]; intros; cbn [cells flat_map]; [constructor|].
  apply Forall_app. split; [apply Encode_word_bytes|apply IH].
Qed.
