(* ===== verification/MD4.v ===== *)
(** * MD4: the MD4 message digest (src/QBase/RSAEuro/md4c.c)

    The block transform, the initial state, and [MD4Init], [MD4Update], [MD4Final]
    as instances of the buffering of MDBuffer. The theorems: a digest computed by
    any sequence of updates is that of the padded concatenation, and the RFC 1320
    test vectors. *)

From S2P Require Import Prelude StdLib MDBuffer.

(** ** Definitions *)

Definition ROTATE_LEFT (x : Z) (n : Z) : Z := w32 (x .<< n) .| (x .>> (32 - n)).

Definition S11 : Z := 3.
Definition S12 : Z := 7.
Definition S13 : Z := 11.
Definition S14 : Z := 19.
Definition S21 : Z := 3.
Definition S22 : Z := 5.
Definition S23 : Z := 9.
Definition S24 : Z := 13.
Definition S31 : Z := 3.
Definition S32 : Z := 9.
Definition S33 : Z := 11.
Definition S34 : Z := 15.

Definition F (x y z : Z) : Z := (x .& y) .| (not32 x .& z).
Definition G (x y z : Z) : Z := (x .& y) .| (x .& z) .| (y .& z).
Definition H (x y z : Z) : Z := x .^ y .^ z.

Definition FF (a b c d x s : Z) : Z := ROTATE_LEFT (w32 (a + w32 (F b c d + x))) s.
Definition GG (a b c d x s : Z) : Z :=
  ROTATE_LEFT (w32 (a + w32 (G b c d + x + 0x5a827999))) s.
Definition HH (a b c d x s : Z) : Z :=
  ROTATE_LEFT (w32 (a + w32 (H b c d + x + 0x6ed9eba1))) s.

Definition MD4Transform (state block : list Z) : list Z :=
  let a := nth 0 state 0 in let b := nth 1 state 0 in
  let c := nth 2 state 0 in let d := nth 3 state 0 in
  let x := Decode block 16 in
  (* Round 1 *)
  let a := FF a b c d (nth 0 x 0) S11 in
  let d := FF d a b c (nth 1 x 0) S12 in
  let c := FF c d a b (nth 2 x 0) S13 in
  let b := FF b c d a (nth 3 x 0) S14 in
  let a := FF a b c d (nth 4 x 0) S11 in
  let d := FF d a b c (nth 5 x 0) S12 in
  let c := FF c d a b (nth 6 x 0) S13 in
  let b := FF b c d a (nth 7 x 0) S14 in
  let a := FF a b c d (nth 8 x 0) S11 in
  let d := FF d a b c (nth 9 x 0) S12 in
  let c := FF c d a b (nth 10 x 0) S13 in
  let b := FF b c d a (nth 11 x 0) S14 in
  let a := FF a b c d (nth 12 x 0) S11 in
  let d := FF d a b c (nth 13 x 0) S12 in
  let c := FF c d a b (nth 14 x 0) S13 in
  let b := FF b c d a (nth 15 x 0) S14 in
  (* Round 2 *)
  let a := GG a b c d (nth 0 x 0) S21 in
  let d := GG d a b c (nth 4 x 0) S22 in
  let c := GG c d a b (nth 8 x 0) S23 in
  let b := GG b c d a (nth 12 x 0) S24 in
  let a := GG a b c d (nth 1 x 0) S21 in
  let d := GG d a b c (nth 5 x 0) S22 in
  let c := GG c d a b (nth 9 x 0) S23 in
  let b := GG b c d a (nth 13 x 0) S24 in
  let a := GG a b c d (nth 2 x 0) S21 in
  let d := GG d a b c (nth 6 x 0) S22 in
  let c := GG c d a b (nth 10 x 0) S23 in
  let b := GG b c d a (nth 14 x 0) S24 in
  let a := GG a b c d (nth 3 x 0) S21 in
  let d := GG d a b c (nth 7 x 0) S22 in
  let c := GG c d a b (nth 11 x 0) S23 in
  let b := GG b c d a (nth 15 x 0) S24 in
  (* Round 3 *)
  let a := HH a b c d (nth 0 x 0) S31 in
  let d := HH d a b c (nth 8 x 0) S32 in
  let c := HH c d a b (nth 4 x 0) S33 in
  let b := HH b c d a (nth 12 x 0) S34 in
  let a := HH a b c d (nth 2 x 0) S31 in
  let d := HH d a b c (nth 10 x 0) S32 in
  let c := HH c d a b (nth 6 x 0) S33 in
  let b := HH b c d a (nth 14 x 0) S34 in
  let a := HH a b c d (nth 1 x 0) S31 in
  let d := HH d a b c (nth 9 x 0) S32 in
  let c := HH c d a b (nth 5 x 0) S33 in
  let b := HH b c d a (nth 13 x 0) S34 in
  let a := HH a b c d (nth 3 x 0) S31 in
  let d := HH d a b c (nth 11 x 0) S32 in
  let c := HH c d a b (nth 7 x 0) S33 in
  let b := HH b c d a (nth 15 x 0) S34 in
  [w32 (nth 0 state 0 + a); w32 (nth 1 state 0 + b);
   w32 (nth 2 state 0 + c); w32 (nth 3 state 0 + d)].

Definition MD4_IV : list Z := [0x67452301; 0xefcdab89; 0x98badcfe; 0x10325476].

(** [context] is the uninitialised context, whose buffer is kept. *)
Definition MD4Init (context : MD_CTX) : MD_CTX := MD_Init MD4_IV (buffer context).

Definition MD4Update : MD_CTX -> list Z -> nat -> MD_CTX := MD_Update MD4Transform.

Definition MD4Final : MD_CTX -> list Z * MD_CTX := MD_Final MD4Transform.

(** The reference: the padded message absorbed block by block. *)
Definition MD4_digest (m : list Z) : list Z :=
  Encode (absorb MD4Transform 64 MD4_IV (pad m)) 16.

(** ** Theorems *)

Lemma MD4_stream_digest context chunks : length (buffer context) = 64%nat ->
  Forall (fun x => Z.of_nat (length x) < 2 ^ 32 - 63) chunks ->
  fst (MD4Final (fold_left (fun c x => MD4Update c x (length x)) chunks (MD4Init context))) =
  MD4_digest (concat chunks).
Proof. apply MD_stream. Qed.

Lemma MD4Final_bytes c : bytes (fst (MD4Final c)) /\ length (fst (MD4Final c)) = 16%nat.
Proof. split; [apply bytes_Encode|apply length_Encode]. Qed.

Lemma MD4Final_zeroised c : length (buffer c) = 64%nat ->
  state (snd (MD4Final c)) = repeat 0 4 /\ count0 (snd (MD4Final c)) = 0 /\
  count1 (snd (MD4Final c)) = 0.
Proof. cbn. auto. Qed.

(** The RFC 1320 test vectors for "", "a" and "abc". *)
Example MD4_empty : MD4_digest [] =
  [0x31; 0xd6; 0xcf; 0xe0; 0xd1; 0x6a; 0xe9; 0x31; 0xb7; 0x3c; 0x59; 0xd7; 0xe0; 0xc0; 0x89; 0xc0].
Proof. vm_compute. reflexivity. Qed.

Example MD4_a : MD4_digest [0x61] =
  [0xbd; 0xe5; 0x2c; 0xb3; 0x1d; 0xe3; 0x3e; 0x46; 0x24; 0x5e; 0x05; 0xfb; 0xdb; 0xd6; 0xfb; 0x24].
Proof. vm_compute. reflexivity. Qed.

Example MD4_abc : MD4_digest [0x61; 0x62; 0x63] =
  [0xa4; 0x48; 0x01; 0x7a; 0xaf; 0x21; 0xd8; 0x52; 0x5f; 0xc1; 0x0a; 0xe8; 0x7a; 0xa6; 0x72; 0x9d].
Proof. vm_compute. reflexivity. Qed.

(** ** The claims *)

(** Any sequence of updates followed by the finalisation gives the digest of the
    concatenated message as RFC 1320 defines it (padding and length appended, then
    the compression function over the blocks), sixteen bytes, and clears the context. *)
Theorem MD4_updates_digest (context : MD_CTX) (chunks : list (list Z)) : length (buffer context) = 64%nat ->
  Forall (fun x => Z.of_nat (length x) < 2 ^ 32 - 63) chunks ->
  let '(digest, after) := MD4Final (fold_left (fun c x => MD4Update c x (length x)) chunks (MD4Init context)) in
  digest = MD4_digest (concat chunks) /\ length digest = 16%nat /\ bytes digest /\
  state after = repeat 0 4 /\ count0 after = 0 /\ count1 after = 0.
Proof.
  intros L H. pose proof (MD4_stream_digest context chunks L H) as E. set (c := fold_left _ _ _) in *. clearbody c.
  rewrite (surjective_pairing (MD4Final c)). splits; [exact E|apply MD4Final_bytes|apply MD4Final_bytes| | |];
    unfold MD4Final, MD_Final; reflexivity.
Qed.

Lemma MD4_updates_digest_witness :
  let chunks := [[0x61]; []; [0x62; 0x63]] in
  let '(digest, after) := MD4Final (fold_left (fun c x => MD4Update c x (length x)) chunks
    (MD4Init (mkMD [] 5 6 (repeat 7 64)))) in
  digest = MD4_digest [0x61; 0x62; 0x63] /\ length digest = 16%nat /\ bytes digest /\
  state after = repeat 0 4 /\ count0 after = 0 /\ count1 after = 0.
Proof.
  apply (MD4_updates_digest (mkMD [] 5 6 (repeat 7 64)) [[0x61]; []; [0x62; 0x63]] eq_refl).
  repeat (apply Forall_cons; [reflexivity|]). apply Forall_nil.
Defined.
