(* ===== verification/MD5.v ===== *)
(** * MD5: the MD5 message digest (src/QBase/RSAEuro/md5c.c)

    The block transform, the initial state, and [MD5Init], [MD5Update], [MD5Final]
    as instances of the buffering of MDBuffer. The theorems: a digest computed by
    any sequence of updates is that of the padded concatenation, and the RFC 1321
    test vectors. *)

From S2P Require Import Prelude StdLib MDBuffer.

(** ** Definitions *)

Definition ROTATE_LEFT (x : Z) (n : Z) : Z := w32 (x .<< n) .| (x .>> (32 - n)).

Definition S11 : Z := 7.
Definition S12 : Z := 12.
Definition S13 : Z := 17.
Definition S14 : Z := 22.
Definition S21 : Z := 5.
Definition S22 : Z := 9.
Definition S23 : Z := 14.
Definition S24 : Z := 20.
Definition S31 : Z := 4.
Definition S32 : Z := 11.
Definition S33 : Z := 16.
Definition S34 : Z := 23.
Definition S41 : Z := 6.
Definition S42 : Z := 10.
Definition S43 : Z := 15.
Definition S44 : Z := 21.

Definition F (x y z : Z) : Z := (x .& y) .| (not32 x .& z).
Definition G (x y z : Z) : Z := (x .& z) .| (y .& not32 z).
Definition H (x y z : Z) : Z := x .^ y .^ z.
Definition I (x y z : Z) : Z := y .^ (x .| not32 z).

(** [a += f + x + ac; a = ROTATE_LEFT (a, s); a += b;] *)
Definition MD5_step (f a b x s ac : Z) : Z :=
  w32 (ROTATE_LEFT (w32 (a + w32 (f + x + ac))) s + b).

Definition FF (a b c d x s ac : Z) : Z := MD5_step (F b c d) a b x s ac.
Definition GG (a b c d x s ac : Z) : Z := MD5_step (G b c d) a b x s ac.
Definition HH (a b c d x s ac : Z) : Z := MD5_step (H b c d) a b x s ac.
Definition II (a b c d x s ac : Z) : Z := MD5_step (I b c d) a b x s ac.

(** Four lines of the transform: the registers take turns, each with its shift. *)
Definition quad (f : Z -> Z -> Z -> Z -> Z -> Z -> Z -> Z) (s1 s2 s3 s4 : Z)
    (x1 ac1 x2 ac2 x3 ac3 x4 ac4 : Z) (regs : Z * Z * Z * Z) : Z * Z * Z * Z :=
  let '(a, b, c, d) := regs in
  let a := f a b c d x1 s1 ac1 in
  let d := f d a b c x2 s2 ac2 in
  let c := f c d a b x3 s3 ac3 in
  let b := f b c d a x4 s4 ac4 in
  (a, b, c, d).

(** Round 1. *)
Definition round1 (x : list Z) (regs : Z * Z * Z * Z) : Z * Z * Z * Z :=
  let regs := quad FF S11 S12 S13 S14
    (nth 0 x 0) 0xd76aa478 (nth 1 x 0) 0xe8c7b756 (nth 2 x 0) 0x242070db (nth 3 x 0) 0xc1bdceee regs in
  let regs := quad FF S11 S12 S13 S14
    (nth 4 x 0) 0xf57c0faf (nth 5 x 0) 0x4787c62a (nth 6 x 0) 0xa8304613 (nth 7 x 0) 0xfd469501 regs in
  let regs := quad FF S11 S12 S13 S14
    (nth 8 x 0) 0x698098d8 (nth 9 x 0) 0x8b44f7af (nth 10 x 0) 0xffff5bb1 (nth 11 x 0) 0x895cd7be regs in
  let regs := quad FF S11 S12 S13 S14
    (nth 12 x 0) 0x6b901122 (nth 13 x 0) 0xfd987193 (nth 14 x 0) 0xa679438e (nth 15 x 0) 0x49b40821 regs in
  regs.

(** Round 2. *)
Definition round2 (x : list Z) (regs : Z * Z * Z * Z) : Z * Z * Z * Z :=
  let regs := quad GG S21 S22 S23 S24
    (nth 1 x 0) 0xf61e2562 (nth 6 x 0) 0xc040b340 (nth 11 x 0) 0x265e5a51 (nth 0 x 0) 0xe9b6c7aa regs in
  let regs := quad GG S21 S22 S23 S24
    (nth 5 x 0) 0xd62f105d (nth 10 x 0) 0x2441453 (nth 15 x 0) 0xd8a1e681 (nth 4 x 0) 0xe7d3fbc8 regs in
  let regs := quad GG S21 S22 S23 S24
    (nth 9 x 0) 0x21e1cde6 (nth 14 x 0) 0xc33707d6 (nth 3 x 0) 0xf4d50d87 (nth 8 x 0) 0x455a14ed regs in
  let regs := quad GG S21 S22 S23 S24
    (nth 13 x 0) 0xa9e3e905 (nth 2 x 0) 0xfcefa3f8 (nth 7 x 0) 0x676f02d9 (nth 12 x 0) 0x8d2a4c8a regs in
  regs.

(** Round 3. *)
Definition round3 (x : list Z) (regs : Z * Z * Z * Z) : Z * Z * Z * Z :=
  let regs := quad HH S31 S32 S33 S34
    (nth 5 x 0) 0xfffa3942 (nth 8 x 0) 0x8771f681 (nth 11 x 0) 0x6d9d6122 (nth 14 x 0) 0xfde5380c regs in
  let regs := quad HH S31 S32 S33 S34
    (nth 1 x 0) 0xa4beea44 (nth 4 x 0) 0x4bdecfa9 (nth 7 x 0) 0xf6bb4b60 (nth 10 x 0) 0xbebfbc70 regs in
  let regs := quad HH S31 S32 S33 S34
    (nth 13 x 0) 0x289b7ec6 (nth 0 x 0) 0xeaa127fa (nth 3 x 0) 0xd4ef3085 (nth 6 x 0) 0x4881d05 regs in
  let regs := quad HH S31 S32 S33 S34
    (nth 9 x 0) 0xd9d4d039 (nth 12 x 0) 0xe6db99e5 (nth 15 x 0) 0x1fa27cf8 (nth 2 x 0) 0xc4ac5665 regs in
  regs.

(** Round 4. *)
Definition round4 (x : list Z) (regs : Z * Z * Z * Z) : Z * Z * Z * Z :=
  let regs := quad II S41 S42 S43 S44
    (nth 0 x 0) 0xf4292244 (nth 7 x 0) 0x432aff97 (nth 14 x 0) 0xab9423a7 (nth 5 x 0) 0xfc93a039 regs in
  let regs := quad II S41 S42 S43 S44
    (nth 12 x 0) 0x655b59c3 (nth 3 x 0) 0x8f0ccc92 (nth 10 x 0) 0xffeff47d (nth 1 x 0) 0x85845dd1 regs in
  let regs := quad II S41 S42 S43 S44
    (nth 8 x 0) 0x6fa87e4f (nth 15 x 0) 0xfe2ce6e0 (nth 6 x 0) 0xa3014314 (nth 13 x 0) 0x4e0811a1 regs in
  let regs := quad II S41 S42 S43 S44
    (nth 4 x 0) 0xf7537e82 (nth 11 x 0) 0xbd3af235 (nth 2 x 0) 0x2ad7d2bb (nth 9 x 0) 0xeb86d391 regs in
  regs.

Definition MD5Transform (state block : list Z) : list Z :=
  let x := Decode block 16 in
  let regs := (nth 0 state 0, nth 1 state 0, nth 2 state 0, nth 3 state 0) in
  let '(a, b, c, d) := round4 x (round3 x (round2 x (round1 x regs))) in
  [w32 (nth 0 state 0 + a); w32 (nth 1 state 0 + b);
   w32 (nth 2 state 0 + c); w32 (nth 3 state 0 + d)].

Definition MD5_IV : list Z := [0x67452301; 0xefcdab89; 0x98badcfe; 0x10325476].

(** [context] is the uninitialised context, whose buffer is kept. *)
Definition MD5Init (context : MD_CTX) : MD_CTX := MD_Init MD5_IV (buffer context).

Definition MD5Update : MD_CTX -> list Z -> nat -> MD_CTX := MD_Update MD5Transform.

Definition MD5Final : MD_CTX -> list Z * MD_CTX := MD_Final MD5Transform.

(** The reference: the padded message absorbed block by block. *)
Definition MD5_digest (m : list Z) : list Z :=
  Encode (absorb MD5Transform 64 MD5_IV (pad m)) 16.

(** ** Theorems *)

Lemma MD5_stream_digest context chunks : length (buffer context) = 64%nat ->
  Forall (fun x => Z.of_nat (length x) < 2 ^ 32 - 63) chunks ->
  fst (MD5Final (fold_left (fun c x => MD5Update c x (length x)) chunks (MD5Init context))) =
  MD5_digest (concat chunks).
Proof. apply MD_stream. Qed.

Lemma MD5Final_bytes c : bytes (fst (MD5Final c)) /\ length (fst (MD5Final c)) = 16%nat.
Proof. split; [apply bytes_Encode|apply length_Encode]. Qed.

Lemma MD5Final_zeroised c : length (buffer c) = 64%nat ->
  state (snd (MD5Final c)) = repeat 0 4 /\ count0 (snd (MD5Final c)) = 0 /\
  count1 (snd (MD5Final c)) = 0.
Proof. cbn. auto. Qed.

(** The RFC 1321 test vectors for "", "a" and "abc". *)
Example MD5_empty : MD5_digest [] =
  [0xd4; 0x1d; 0x8c; 0xd9; 0x8f; 0x00; 0xb2; 0x04; 0xe9; 0x80; 0x09; 0x98; 0xec; 0xf8; 0x42; 0x7e].
Proof. vm_compute. reflexivity. Qed.

Example MD5_a : MD5_digest [0x61] =
  [0x0c; 0xc1; 0x75; 0xb9; 0xc0; 0xf1; 0xb6; 0xa8; 0x31; 0xc3; 0x99; 0xe2; 0x69; 0x77; 0x26; 0x61].
Proof. vm_compute. reflexivity. Qed.

Example MD5_abc : MD5_digest [0x61; 0x62; 0x63] =
  [0x90; 0x01; 0x50; 0x98; 0x3c; 0xd2; 0x4f; 0xb0; 0xd6; 0x96; 0x3f; 0x7d; 0x28; 0xe1; 0x7f; 0x72].
Proof. vm_compute. reflexivity. Qed.

(** ** The claims *)

(** Any sequence of updates followed by the finalisation gives the digest of the
    concatenated message as RFC 1321 defines it (padding and length appended, then
    the compression function over the blocks), sixteen bytes, and clears the context. *)
Theorem MD5_updates_digest (context : MD_CTX) (chunks : list (list Z)) : length (buffer context) = 64%nat ->
  Forall (fun x => Z.of_nat (length x) < 2 ^ 32 - 63) chunks ->
  let '(digest, after) := MD5Final (fold_left (fun c x => MD5Update c x (length x)) chunks (MD5Init context)) in
  digest = MD5_digest (concat chunks) /\ length digest = 16%nat /\ bytes digest /\
  state after = repeat 0 4 /\ count0 after = 0 /\ count1 after = 0.
Proof.
  intros L H. pose proof (MD5_stream_digest context chunks L H) as E. set (c := fold_left _ _ _) in *. clearbody c.
  rewrite (surjective_pairing (MD5Final c)). splits; [exact E|apply MD5Final_bytes|apply MD5Final_bytes| | |];
    unfold MD5Final, MD_Final; reflexivity.
Qed.

Lemma MD5_updates_digest_witness :
  let chunks := [[0x61]; []; [0x62; 0x63]] in
  let '(digest, after) := MD5Final (fold_left (fun c x => MD5Update c x (length x)) chunks
    (MD5Init (mkMD [] 5 6 (repeat 7 64)))) in
  digest = MD5_digest [0x61; 0x62; 0x63] /\ length digest = 16%nat /\ bytes digest /\
  state after = repeat 0 4 /\ count0 after = 0 /\ count1 after = 0.
Proof.
  apply (MD5_updates_digest (mkMD [] 5 6 (repeat 7 64)) [[0x61]; []; [0x62; 0x63]] eq_refl).
  repeat (apply Forall_cons; [reflexivity|]). apply Forall_nil.
Defined.
