(* ===== verification/CMD5.v ===== *)
(** * CMD5: the C++ MD5 of the service (QBase/md5.cpp, QBase/md5.h)

    The class keeps a running digest: [digest] finalises a copy of the state, so that
    more input may follow.  The theorems: after a reset and any updates the digest is the
    one of RFC 1321, as the RSAEURO implementation computes it ([MD5]); the copy is
    complete only when the unprocessed input leaves room for the length, otherwise the
    buffer is lost and the next digest is another one. *)

From S2P Require Import Prelude StdLib MDBuffer MD5.

(** ** Definitions *)

Record CMD5 := { _state : list Z; _count0 : Z; _count1 : Z; _buffer : list Z; _digest : list Z; _finished : bool }.

Definition S11 : Z := 7.
Definition S12 : Z := 12.
Definition S13 : Z := 17.
Definition S14 : Z := 22.
Definition S21 : Z := 5.
Definition S22 : Z := 9.
Definition S23 : Z := 14.
Definition S24 : Z := 20.
Definition S31 : Z := 4.
Definition S32 : Z := 11.
Definition S33 : Z := 16.
Definition S34 : Z := 23.
Definition S41 : Z := 6.
Definition S42 : Z := 10.
Definition S43 : Z := 15.
Definition S44 : Z := 21.

Definition F (x y z : Z) : Z := (x .& y) .| (not32 x .& z).
Definition G (x y z : Z) : Z := (x .& z) .| (y .& not32 z).
Definition H (x y z : Z) : Z := x .^ y .^ z.
Definition I (x y z : Z) : Z := y .^ (x .| not32 z).

Definition ROTATE_LEFT (x n : Z) : Z := w32 (x .<< n) .| (x .>> (32 - n)).

Definition FF (a b c d x s ac : Z) : Z :=
  let a := w32 (a + w32 (F b c d + x + ac)) in let a := ROTATE_LEFT a s in w32 (a + b).
Definition GG (a b c d x s ac : Z) : Z :=
  let a := w32 (a + w32 (G b c d + x + ac)) in let a := ROTATE_LEFT a s in w32 (a + b).
Definition HH (a b c d x s ac : Z) : Z :=
  let a := w32 (a + w32 (H b c d + x + ac)) in let a := ROTATE_LEFT a s in w32 (a + b).
Definition II (a b c d x s ac : Z) : Z :=
  let a := w32 (a + w32 (I b c d + x + ac)) in let a := ROTATE_LEFT a s in w32 (a + b).

Definition PADDING : list Z := 0x80 :: repeat 0 63.

Definition encode_word (x : Z) : list Z :=
  [x .& 0xff; (x .>> 8) .& 0xff; (x .>> 16) .& 0xff; (x .>> 24) .& 0xff].
Definition encode (input : list Z) (len : nat) : list Z := flat_map encode_word (cells (len / 4) input).

Fixpoint decode (input : list Z) (n : nat) : list Z :=
  match n with
  | O => []
  | S k => (nth 0 input 0 .| (nth 1 input 0 .<< 8) .| (nth 2 input 0 .<< 16) .| (nth 3 input 0 .<< 24))
             :: decode (skipn 4 input) k
  end.

(** Four lines of the transform: the registers take turns, each with its shift. *)
Definition quad (f : Z -> Z -> Z -> Z -> Z -> Z -> Z -> Z) (s1 s2 s3 s4 : Z)
    (x1 ac1 x2 ac2 x3 ac3 x4 ac4 : Z) (regs : Z * Z * Z * Z) : Z * Z * Z * Z :=
  let '(a, b, c, d) := regs in
  let a := f a b c d x1 s1 ac1 in
  let d := f d a b c x2 s2 ac2 in
  let c := f c d a b x3 s3 ac3 in
  let b := f b c d a x4 s4 ac4 in
  (a, b, c, d).

(** Round 1. *)
Definition round1 (x : list Z) (regs : Z * Z * Z * Z) : Z * Z * Z * Z :=
  let regs := quad FF S11 S12 S13 S14
    (nth 0 x 0) 0xd76aa478 (nth 1 x 0) 0xe8c7b756 (nth 2 x 0) 0x242070db (nth 3 x 0) 0xc1bdceee regs in
  let regs := quad FF S11 S12 S13 S14
    (nth 4 x 0) 0xf57c0faf (nth 5 x 0) 0x4787c62a (nth 6 x 0) 0xa8304613 (nth 7 x 0) 0xfd469501 regs in
  let regs := quad FF S11 S12 S13 S14
    (nth 8 x 0) 0x698098d8 (nth 9 x 0) 0x8b44f7af (nth 10 x 0) 0xffff5bb1 (nth 11 x 0) 0x895cd7be regs in
  let regs := quad FF S11 S12 S13 S14
    (nth 12 x 0) 0x6b901122 (nth 13 x 0) 0xfd987193 (nth 14 x 0) 0xa679438e (nth 15 x 0) 0x49b40821 regs in
  regs.

(** Round 2. *)
Definition round2 (x : list Z) (regs : Z * Z * Z * Z) : Z * Z * Z * Z :=
  let regs := quad GG S21 S22 S23 S24
    (nth 1 x 0) 0xf61e2562 (nth 6 x 0) 0xc040b340 (nth 11 x 0) 0x265e5a51 (nth 0 x 0) 0xe9b6c7aa regs in
  let regs := quad GG S21 S22 S23 S24
    (nth 5 x 0) 0xd62f105d (nth 10 x 0) 0x2441453 (nth 15 x 0) 0xd8a1e681 (nth 4 x 0) 0xe7d3fbc8 regs in
  let regs := quad GG S21 S22 S23 S24
    (nth 9 x 0) 0x21e1cde6 (nth 14 x 0) 0xc33707d6 (nth 3 x 0) 0xf4d50d87 (nth 8 x 0) 0x455a14ed regs in
  let regs := quad GG S21 S22 S23 S24
    (nth 13 x 0) 0xa9e3e905 (nth 2 x 0) 0xfcefa3f8 (nth 7 x 0) 0x676f02d9 (nth 12 x 0) 0x8d2a4c8a regs in
  regs.

(** Round 3. *)
Definition round3 (x : list Z) (regs : Z * Z * Z * Z) : Z * Z * Z * Z :=
  let regs := quad HH S31 S32 S33 S34
    (nth 5 x 0) 0xfffa3942 (nth 8 x 0) 0x8771f681 (nth 11 x 0) 0x6d9d6122 (nth 14 x 0) 0xfde5380c regs in
  let regs := quad HH S31 S32 S33 S34
    (nth 1 x 0) 0xa4beea44 (nth 4 x 0) 0x4bdecfa9 (nth 7 x 0) 0xf6bb4b60 (nth 10 x 0) 0xbebfbc70 regs in
  let regs := quad HH S31 S32 S33 S34
    (nth 13 x 0) 0x289b7ec6 (nth 0 x 0) 0xeaa127fa (nth 3 x 0) 0xd4ef3085 (nth 6 x 0) 0x4881d05 regs in
  let regs := quad HH S31 S32 S33 S34
    (nth 9 x 0) 0xd9d4d039 (nth 12 x 0) 0xe6db99e5 (nth 15 x 0) 0x1fa27cf8 (nth 2 x 0) 0xc4ac5665 regs in
  regs.

(** Round 4. *)
Definition round4 (x : list Z) (regs : Z * Z * Z * Z) : Z * Z * Z * Z :=
  let regs := quad II S41 S42 S43 S44
    (nth 0 x 0) 0xf4292244 (nth 7 x 0) 0x432aff97 (nth 14 x 0) 0xab9423a7 (nth 5 x 0) 0xfc93a039 regs in
  let regs := quad II S41 S42 S43 S44
    (nth 12 x 0) 0x655b59c3 (nth 3 x 0) 0x8f0ccc92 (nth 10 x 0) 0xffeff47d (nth 1 x 0) 0x85845dd1 regs in
  let regs := quad II S41 S42 S43 S44
    (nth 8 x 0) 0x6fa87e4f (nth 15 x 0) 0xfe2ce6e0 (nth 6 x 0) 0xa3014314 (nth 13 x 0) 0x4e0811a1 regs in
  let regs := quad II S41 S42 S43 S44
    (nth 4 x 0) 0xf7537e82 (nth 11 x 0) 0xbd3af235 (nth 2 x 0) 0x2ad7d2bb (nth 9 x 0) 0xeb86d391 regs in
  regs.

Definition transform (state block : list Z) : list Z :=
  let x := decode block 16 in
  let regs := (nth 0 state 0, nth 1 state 0, nth 2 state 0, nth 3 state 0) in
  let '(a, b, c, d) := round4 x (round3 x (round2 x (round1 x regs))) in
  [w32 (nth 0 state 0 + a); w32 (nth 1 state 0 + b);
   w32 (nth 2 state 0 + c); w32 (nth 3 state 0 + d)].

Definition reset (s : CMD5) : CMD5 :=
  {| _state := [0x67452301; 0xefcdab89; 0x98badcfe; 0x10325476]; _count0 := 0; _count1 := 0;
     _buffer := _buffer s; _digest := _digest s; _finished := false |}.

(** [for (i = partLen; i + 63 < length; i += 64) transform(&input[i]);]: [i] is a 32-bit
    word and [length] is not. *)
Fixpoint update_loop (fuel : nat) (st : list Z) (i : Z) (input : list Z) (length : Z) : option (list Z * Z) :=
  match fuel with
  | O => None
  | S f =>
      if w32 (i + 63) <? length then
        update_loop f (transform st (cells 64 (skipn (Z.to_nat i) input))) (w32 (i + 64)) input length
      else Some (st, i)
  end.

(** [None] when the loop does not end. *)
Definition update (s : CMD5) (input : list Z) (len : nat) : option CMD5 :=
  let length := Z.of_nat len in
  let index := Z.to_nat ((_count0 s .>> 3) .& 0x3f) in
  let c0 := w32 (_count0 s + w32 (w32 length .<< 3)) in
  let c1 := if c0 <? w32 (w32 length .<< 3) then w32 (_count1 s + 1) else _count1 s in
  let c1 := w32 (c1 + (w32 length .>> 29)) in
  let partLen := (64 - index)%nat in
  let? (st, buf, i, index) :=
    (if Nat.leb partLen len then
       let buf := at_ptr index (fun p => R_memcpy p input partLen) (_buffer s) in
       let st := transform (_state s) buf in
       let? (st, i) := update_loop (S len) st (Z.of_nat partLen) input length in
       Some (st, buf, Z.to_nat i, 0%nat)
     else Some (_state s, _buffer s, 0%nat, index)) in
  Some {| _state := st; _count0 := c0; _count1 := c1;
          _buffer := at_ptr index (fun p => R_memcpy p (skipn i input) (len - i)) buf;
          _digest := _digest s; _finished := false |}.

(** The state and the count are restored, the buffer is not. *)
Definition final (s : CMD5) : option CMD5 :=
  let bits := encode [_count0 s; _count1 s] 8 in
  let index := Z.to_nat ((_count0 s .>> 3) .& 0x3f) in
  let padLen := if Nat.ltb index 56 then (56 - index)%nat else (120 - index)%nat in
  let? s1 := update s PADDING padLen in
  let? s2 := update s1 bits 8 in
  Some {| _state := _state s; _count0 := _count0 s; _count1 := _count1 s; _buffer := _buffer s2;
          _digest := encode (_state s2) 16; _finished := _finished s2 |}.

(** The digest, and the object after the call. *)
Definition digest (s : CMD5) : option (list Z * CMD5) :=
  if _finished s then Some (_digest s, s)
  else
    let? s' := final {| _state := _state s; _count0 := _count0 s; _count1 := _count1 s; _buffer := _buffer s;
                        _digest := _digest s; _finished := true |} in
    Some (_digest s', s').

Definition HEX : list Z := [48; 49; 50; 51; 52; 53; 54; 55; 56; 57; 97; 98; 99; 100; 101; 102].

Definition bytesToHexString (input : list Z) (length : nat) : list Z :=
  flat_map (fun t => [nth (Z.to_nat (t / 16)) HEX 0; nth (Z.to_nat (t mod 16)) HEX 0]) (cells length input).

Definition toString (s : CMD5) : option (list Z * CMD5) :=
  let? (d, s') := digest s in Some (bytesToHexString d 16, s').

(** Several updates, one after the other. *)
Fixpoint updates (s : CMD5) (chunks : list (list Z)) : option CMD5 :=
  match chunks with
  | [] => Some s
  | x :: r => let? s' := update s x (length x) in updates s' r
  end.

(** ** The same computation as the RSAEURO one *)

(** The two texts agree, round by round. *)
Lemma FF_MD5 : FF = MD5.FF.
Proof. reflexivity. Qed.

Lemma GG_MD5 : GG = MD5.GG.
Proof. reflexivity. Qed.

Lemma HH_MD5 : HH = MD5.HH.
Proof. reflexivity. Qed.

Lemma II_MD5 : II = MD5.II.
Proof. reflexivity. Qed.

Lemma quad_MD5 : quad = MD5.quad.
Proof. reflexivity. Qed.

Lemma round1_MD5 : round1 = MD5.round1.
Proof. unfold round1. rewrite quad_MD5, FF_MD5. reflexivity. Qed.

Lemma round2_MD5 : round2 = MD5.round2.
Proof. unfold round2. rewrite quad_MD5, GG_MD5. reflexivity. Qed.

Lemma round3_MD5 : round3 = MD5.round3.
Proof. unfold round3. rewrite quad_MD5, HH_MD5. reflexivity. Qed.

Lemma round4_MD5 : round4 = MD5.round4.
Proof. unfold round4. rewrite quad_MD5, II_MD5. reflexivity. Qed.

Lemma transform_MD5 : transform = MD5Transform.
Proof.
  unfold transform, MD5Transform. now rewrite round1_MD5, round2_MD5, round3_MD5, round4_MD5.
Qed.

Lemma encode_Encode : encode = Encode.
Proof. reflexivity. Qed.

Definition ctx (s : CMD5) : MD_CTX := mkMD (_state s) (_count0 s) (_count1 s) (_buffer s).

Lemma update_loop_MD fuel : forall st i input n, Z.of_nat n < 2 ^ 32 - 63 -> Z.of_nat i <= Z.of_nat n ->
  (n < 64 * fuel + i)%nat ->
  update_loop fuel st (Z.of_nat i) input (Z.of_nat n) =
  (let '(st', i') := MD_blocks MD5Transform (Nat.pred fuel) st i input n in Some (st', Z.of_nat i')).
Proof.
  induction fuel as [|f IH]; intros st i input n Hn Hi Hf; [lia|].
  cbn [update_loop Nat.pred]. rewrite (w32_small (Z.of_nat i + 63)) by (unfold is_word; lia).
  destruct (Z.ltb_spec (Z.of_nat i + 63) (Z.of_nat n)) as [C|C].
  - rewrite w32_small by (unfold is_word; lia).
    replace (Z.of_nat i + 64) with (Z.of_nat (i + 64)) by lia. rewrite IH by lia.
    destruct f as [|f]; [lia|]. cbn [Nat.pred MD_blocks].
    rewrite (w32_small (Z.of_nat i + 63)) by (unfold is_word; lia).
    rewrite (proj2 (Z.ltb_lt _ _)) by lia. now rewrite Nat2Z.id, transform_MD5.
  - destruct f as [|f]; cbn [MD_blocks]; [reflexivity|].
    rewrite w32_small by (unfold is_word; lia). now rewrite (proj2 (Z.ltb_ge _ _)) by lia.
Qed.

Lemma update_MD s input n : Z.of_nat n < 2 ^ 32 - 63 ->
  exists s', update s input n = Some s' /\ ctx s' = MD_Update MD5Transform (ctx s) input n /\
    _finished s' = false /\ _digest s' = _digest s.
Proof.
  intros Hn. unfold update, MD_Update, ctx.
  rewrite (w32_small (Z.of_nat n)) by (unfold is_word; lia). cbn [count0 count1 buffer state].
  set (index := Z.to_nat _).
  destruct (Nat.leb_spec (64 - index) n) as [C|C].
  - rewrite update_loop_MD, transform_MD5 by lia. cbn [Nat.pred].
    destruct (MD_blocks MD5Transform n _ (64 - index) input n) as [st' i'] eqn:E. cbn [obind].
    rewrite Nat2Z.id. eexists; split; [reflexivity|]. cbn. auto.
  - cbn [obind]. eexists; split; [reflexivity|]. cbn. auto.
Qed.

(** ** The digest *)

(** The object holds the message [m] fed since the reset. *)
Definition rep (s : CMD5) (m : list Z) : Prop :=
  represents MD5Transform MD5_IV (ctx s) m /\ _finished s = false.

Lemma reset_rep s : length (_buffer s) = 64%nat -> rep (reset s) [].
Proof. intros L. split; [exact (represents_Init MD5Transform MD5_IV (_buffer s) L)|reflexivity]. Qed.

Lemma update_rep s m x : rep s m -> Z.of_nat (length x) < 2 ^ 32 - 63 ->
  exists s', update s x (length x) = Some s' /\ rep s' (m ++ x).
Proof.
  intros [R _] Hx. destruct (update_MD s x (length x) Hx) as (s' & E & C & F & _).
  exists s'. split; [exact E|]. split; [|exact F]. rewrite C. now apply MD_Update_represents.
Qed.

Lemma updates_rep chunks : Forall (fun x => Z.of_nat (length x) < 2 ^ 32 - 63) chunks ->
  forall s m, rep s m -> exists s', updates s chunks = Some s' /\ rep s' (m ++ concat chunks).
Proof.
  induction 1 as [|x r Hx _ IH]; intros s m R; cbn [updates concat].
  - exists s. now rewrite app_nil_r.
  - destruct (update_rep s m x R Hx) as (s1 & -> & R1). cbn [obind].
    rewrite app_assoc. now apply IH.
Qed.

(** What [digest] does, through the RSAEURO routines. *)
Lemma digest_MD s m : rep s m -> exists s' c1,
  let bits := Encode [_count0 s; _count1 s] 8 in
  let r := (length m mod 64)%nat in
  let padLen := if (r <? 56)%nat then (56 - r)%nat else (120 - r)%nat in
  c1 = MD_Update MD5Transform (ctx s) MDBuffer.PADDING padLen /\
  digest s = Some (MD5_digest m, s') /\ _finished s' = false /\
  ctx s' = mkMD (_state s) (_count0 s) (_count1 s) (buffer (MD_Update MD5Transform c1 bits 8)).
Proof.
  intros [R Hf]. pose proof (MD_Final_represents _ _ _ _ R) as D. unfold MD_Final in D. cbn [fst] in D.
  unfold digest. rewrite Hf.
  set (s0 := {| _state := _ |}). unfold final. cbn [_count0 _count1 _state s0].
  pose proof R as (_ & _ & _ & E0 & E1). cbn [ctx count0 count1] in E0, E1.
  pose proof (index_spec (Z.of_nat (length m)) ltac:(lia)) as Ei. rewrite <- E0 in Ei.
  change 0x3F with 0x3f in Ei. cbn [ctx count0 count1] in D. rewrite Ei in D |- *.
  replace (Z.to_nat (Z.of_nat (length m) mod 64)) with (length m mod 64)%nat in *
    by (change 64 with (Z.of_nat 64); now rewrite <- Nat2Z.inj_mod, Nat2Z.id).
  set (r := (length m mod 64)%nat) in *.
  assert (Hr : (r < 64)%nat) by (apply Nat.mod_upper_bound; lia).
  set (padLen := if (r <? 56)%nat then (56 - r)%nat else (120 - r)%nat) in *.
  change (if Nat.ltb r 56 then _ else _) with padLen.
  assert (Hp : (padLen <= 64)%nat) by (unfold padLen; destruct (Nat.ltb_spec r 56); lia).
  destruct (update_MD s0 PADDING padLen ltac:(lia)) as (s1 & -> & C1 & _ & _). cbn [obind].
  change (ctx s0) with (ctx s) in C1. change PADDING with MDBuffer.PADDING in C1.
  destruct (update_MD s1 (encode [_count0 s; _count1 s] 8) 8 ltac:(lia)) as (s2 & -> & C2 & F2 & _).
  cbn [obind]. rewrite C1 in C2.
  eexists _, _. split; [reflexivity|]. splits.
  - do 2 f_equal. cbn [_digest]. rewrite encode_Encode in *. unfold MD5_digest. rewrite <- D.
    change (_state s2) with (state (ctx s2)). rewrite C2. reflexivity.
  - exact F2.
  - unfold ctx at 1. cbn [_state _count0 _count1 _buffer]. f_equal.
    change (_buffer s2) with (buffer (ctx s2)). now rewrite C2, encode_Encode.
Qed.

(** Eight bytes after fifty-six complete the block and leave the rest. *)
Lemma update_bits c m bits : represents MD5Transform MD5_IV c m -> length bits = 8%nat ->
  (length m mod 64 = 56)%nat ->
  buffer (MD_Update MD5Transform c bits 8) = firstn 56 (buffer c) ++ bits.
Proof.
  intros (Lb & _ & _ & E0 & _) Ll Hm. unfold MD_Update. rewrite E0, index_spec by lia.
  replace (Z.to_nat (Z.of_nat (length m) mod 64)) with 56%nat
    by (change 64 with (Z.of_nat 64); now rewrite <- Nat2Z.inj_mod, Hm).
  change (64 - 56 <=? 8)%nat with true. cbv beta iota.
  change (64 - 56)%nat with 8%nat.
  assert (Es : forall st, MD_blocks MD5Transform 8 st 8 bits 8 = (st, 8%nat)) by reflexivity.
  rewrite Es. cbn [buffer Nat.sub]. unfold at_ptr at 1. cbn [firstn skipn app].
  rewrite R_memcpy_store. cbn [cells]. unfold store. cbn [length app]. rewrite skipn_O.
  unfold at_ptr. f_equal. rewrite R_memcpy_store, cells_firstn, firstn_all2 by lia. unfold store.
  rewrite skipn_all2; [apply app_nil_r|]. rewrite length_skipn. lia.
Qed.

Lemma padded_length (m : list Z) : let r := (length m mod 64)%nat in
  let padLen := if (r <? 56)%nat then (56 - r)%nat else (120 - r)%nat in
  ((length m + padLen) mod 64 = 56)%nat.
Proof.
  intros r padLen. assert (Hr : (r < 64)%nat) by (apply Nat.mod_upper_bound; lia).
  rewrite <- Nat.Div0.add_mod_idemp_l. fold r. unfold padLen. destruct (Nat.ltb_spec r 56).
  - replace (r + (56 - r))%nat with 56%nat by lia. reflexivity.
  - replace (r + (120 - r))%nat with (56 + 1 * 64)%nat by lia. now rewrite Nat.Div0.mod_add.
Qed.

(** The message after the padding, and its last partial block. *)
Lemma padded s m : rep s m ->
  let r := (length m mod 64)%nat in
  let padLen := if (r <? 56)%nat then (56 - r)%nat else (120 - r)%nat in
  represents MD5Transform MD5_IV (MD_Update MD5Transform (ctx s) MDBuffer.PADDING padLen)
    (m ++ firstn padLen MDBuffer.PADDING).
Proof.
  intros [R _] r padLen. assert (Hr : (r < 64)%nat) by (apply Nat.mod_upper_bound; lia).
  assert (Hp : (padLen <= 64)%nat) by (unfold padLen; destruct (Nat.ltb_spec r 56); lia).
  rewrite <- (MD_Update_prefix MD5Transform (ctx s) MDBuffer.PADDING padLen)
    by (cbn [length MDBuffer.PADDING repeat]; lia).
  assert (Lp : length (firstn padLen MDBuffer.PADDING) = padLen)
    by (rewrite length_firstn; cbn [length MDBuffer.PADDING repeat]; lia).
  rewrite <- Lp at 2. apply MD_Update_represents; [exact R|lia].
Qed.

(** With room for the length after the message the object is as before. *)
Lemma digest_rep s m : rep s m -> exists s', digest s = Some (MD5_digest m, s') /\
  ((length m mod 64 < 56)%nat -> rep s' m).
Proof.
  intros R. destruct (digest_MD s m R) as (s' & c1 & E1 & D & F & C). cbv zeta in E1.
  exists s'. split; [exact D|]. intros Hr. split; [|exact F].
  pose proof (padded s m R) as P. cbv zeta in P. pose proof (padded_length m) as PL. cbv zeta in PL.
  set (r := (length m mod 64)%nat) in *.
  rewrite (proj2 (Nat.ltb_lt r 56) Hr) in *. rewrite <- E1 in P.
  assert (Lp : length (firstn (56 - r) MDBuffer.PADDING) = (56 - r)%nat)
    by (rewrite length_firstn; cbn [length MDBuffer.PADDING repeat]; lia).
  rewrite (update_bits c1 _ _ P (length_Encode _ 8 : _ = 8%nat)) in C by (rewrite length_app, Lp; exact PL).
  destruct R as [(Lb & Es & Et & E0 & Ec1) _]. rewrite C. unfold represents. cbn [buffer state count0 count1].
  fold r in Et. fold r.
  destruct P as (Lb1 & _ & Et1 & _).
  splits; [rewrite length_app, length_Encode, length_firstn, Lb1; reflexivity|exact Es| |exact E0|exact Ec1].
  rewrite firstn_app, length_firstn, Lb1, firstn_firstn.
  replace (r - Nat.min 56 64)%nat with 0%nat by lia. rewrite firstn_O, app_nil_r.
  rewrite length_app, Lp, PL in Et1.
  destruct (absorb_app MD5Transform 64 ltac:(lia) MD5_IV m (firstn (56 - r) MDBuffer.PADDING)) as [_ T].
  assert (Lt : (length (tail 64 m ++ firstn (56 - r) MDBuffer.PADDING) < 64)%nat)
    by (rewrite length_app, length_tail, Lp; fold r; lia).
  rewrite T, (proj1 (tail_short MD5Transform 64 _ Lt)) in Et1.
  rewrite <- (firstn_firstn (buffer c1) r 56), Et1.
  rewrite firstn_app, length_tail. fold r. rewrite Nat.sub_diag, firstn_O, app_nil_r.
  apply firstn_all2. rewrite length_tail. fold r. lia.
Qed.

(** Otherwise the padding goes round the buffer: what is left of the last partial block
    is fifty-six zeros and the first bytes of the length. *)
Definition forgotten (m : list Z) : list Z :=
  let r := (length m mod 64)%nat in
  let bits := 8 * Z.of_nat (length m) in
  firstn (length m - r) m ++ repeat 0 56 ++
    firstn (r - 56) (Encode [bits mod 2 ^ 32; (bits / 2 ^ 32) mod 2 ^ 32] 8).

Lemma first_repeat {A} (x : A) k n : firstn k (repeat x n) = repeat x (Nat.min k n).
Proof. revert n; induction k as [|k IH]; intros [|n]; cbn; [..|now rewrite IH]; reflexivity. Qed.

Lemma tail_last (l : list Z) : tail 64 l = skipn (length l - length l mod 64) l.
Proof. unfold tail. f_equal. pose proof (Nat.div_mod_eq (length l) 64). lia. Qed.

Lemma forgotten_tail m : (56 <= length m mod 64)%nat ->
  length (forgotten m) = length m /\
  tail 64 (forgotten m) = repeat 0 56 ++ firstn (length m mod 64 - 56)
    (Encode [(8 * Z.of_nat (length m)) mod 2 ^ 32; (8 * Z.of_nat (length m) / 2 ^ 32) mod 2 ^ 32] 8) /\
  absorb MD5Transform 64 MD5_IV (forgotten m) = absorb MD5Transform 64 MD5_IV m.
Proof.
  intros Hr. pose proof (Nat.mod_upper_bound (length m) 64 ltac:(lia)) as Hu.
  pose proof (Nat.div_mod_eq (length m) 64) as D.
  set (r := (length m mod 64)%nat) in *.
  assert (Lf : length (firstn (length m - r) m) = (length m - r)%nat) by (rewrite length_firstn; lia).
  assert (L : length (forgotten m) = length m).
  { unfold forgotten. fold r. rewrite !length_app, Lf, repeat_length, length_firstn, length_Encode.
    change (4 * (8 / 4))%nat with 8%nat. lia. }
  splits; [exact L| |].
  - rewrite tail_last, L. fold r. unfold forgotten. fold r. rewrite <- Lf at 1. apply skipn_app_len.
  - unfold absorb. rewrite L. unfold forgotten. fold r.
    rewrite absorb_n_more by (rewrite ?Lf; lia).
    pose proof (absorb_n_more MD5Transform 64 ltac:(lia) (length m / 64) MD5_IV (firstn (length m - r) m)
      (skipn (length m - r) m)) as A. rewrite firstn_skipn in A. rewrite A by (rewrite Lf; lia). reflexivity.
Qed.

Lemma digest_forgets s m : rep s m -> (56 <= length m mod 64)%nat ->
  exists s', digest s = Some (MD5_digest m, s') /\ rep s' (forgotten m).
Proof.
  intros R Hr. destruct (digest_MD s m R) as (s' & c1 & E1 & D & F & C). cbv zeta in E1.
  exists s'. split; [exact D|]. split; [|exact F].
  pose proof (padded s m R) as P. cbv zeta in P. pose proof (padded_length m) as PL. cbv zeta in PL.
  pose proof (Nat.mod_upper_bound (length m) 64 ltac:(lia)) as Hu.
  destruct (forgotten_tail m Hr) as (FL & FT & FA).
  set (r := (length m mod 64)%nat) in *.
  rewrite (proj2 (Nat.ltb_ge r 56) Hr) in *. rewrite <- E1 in P.
  assert (Lp : length (firstn (120 - r) MDBuffer.PADDING) = (120 - r)%nat)
    by (rewrite length_firstn; cbn [length MDBuffer.PADDING repeat]; lia).
  rewrite (update_bits c1 _ _ P (length_Encode _ 8 : _ = 8%nat)) in C by (rewrite length_app, Lp; exact PL).
  destruct P as (Lb1 & _ & Et1 & _). rewrite length_app, Lp, PL in Et1.
  assert (Z56 : firstn 56 (buffer c1) = repeat 0 56).
  { rewrite Et1, tail_last, length_app, Lp, PL.
    rewrite skipn_app, skipn_all2 by lia. cbn [app].
    replace (length m + (120 - r) - 56 - length m)%nat with (S (63 - r)) by lia.
    replace (120 - r)%nat with (S (119 - r)) by lia.
    unfold MDBuffer.PADDING. cbn [firstn skipn]. rewrite skipn_firstn_comm, skipn_repeat, first_repeat.
    f_equal. lia. }
  rewrite Z56 in C.
  destruct R as [(Lb & Es & _ & E0 & Ec1) _]. rewrite C. unfold represents. cbn [buffer state count0 count1].
  rewrite FL, FT, FA. fold r. cbn [ctx count0 count1 state] in *.
  splits; [rewrite length_app, length_Encode, repeat_length; reflexivity|exact Es| |exact E0|exact Ec1].
  rewrite E0, Ec1, firstn_app, repeat_length, firstn_all2 by (rewrite repeat_length; lia). reflexivity.
Qed.

(** Claim C33: after a reset and any updates the digest is the one of RFC 1321 of everything that was fed, the same
    as RSAEURO's; and, if the last partial block has fewer than fifty-six bytes, the object still holds the message,
    so that more updates give the digest of the whole. *)
Theorem CMD5_digests s chunks chunks' : length (_buffer s) = 64%nat ->
  Forall (fun x => Z.of_nat (length x) < 2 ^ 32 - 63) chunks ->
  Forall (fun x => Z.of_nat (length x) < 2 ^ 32 - 63) chunks' ->
  exists s1 s2, updates (reset s) chunks = Some s1 /\ digest s1 = Some (MD5_digest (concat chunks), s2) /\
  ((length (concat chunks) mod 64 < 56)%nat ->
   exists s3 s4, updates s2 chunks' = Some s3 /\
     digest s3 = Some (MD5_digest (concat (chunks ++ chunks')), s4)).
Proof.
  intros L H H'.
  destruct (updates_rep chunks H (reset s) [] (reset_rep s L)) as (s1 & E1 & R1). cbn [app] in R1.
  destruct (digest_rep s1 _ R1) as (s2 & E2 & R2).
  exists s1, s2. splits; [exact E1|exact E2|]. intros Hr.
  destruct (updates_rep chunks' H' s2 _ (R2 Hr)) as (s3 & E3 & R3).
  destruct (digest_rep s3 _ R3) as (s4 & E4 & _).
  exists s3, s4. split; [exact E3|]. rewrite concat_app. exact E4.
Qed.

Lemma CMD5_digests_witness :
  let s := Build_CMD5 [] 3 4 (repeat 9 64) [] true in
  exists s1 s2, updates (reset s) [[97]; [98]] = Some s1 /\ digest s1 = Some (MD5_digest [97; 98], s2) /\
  exists s3 s4, updates s2 [[99]] = Some s3 /\ digest s3 = Some (MD5_digest [97; 98; 99], s4).
Proof.
  intros s.
  destruct (CMD5_digests s [[97]; [98]] [[99]] eq_refl) as (s1 & s2 & E1 & E2 & K).
  - repeat (apply Forall_cons; [reflexivity|]). apply Forall_nil.
  - repeat (apply Forall_cons; [reflexivity|]). apply Forall_nil.
  - exists s1, s2. split; [exact E1|]. split; [exact E2|]. apply K. cbn. lia.
Defined.

(** With fifty-six bytes or more in the last partial block, asking for the digest twice gives two
    different messages' digests: the second one is that of the message whose last bytes are replaced by zeros and by
    its own length. *)
Theorem CMD5_second_digest s m : rep s m -> (56 <= length m mod 64)%nat ->
  exists s1 s2, digest s = Some (MD5_digest m, s1) /\ digest s1 = Some (MD5_digest (forgotten m), s2).
Proof.
  intros R Hr. destruct (digest_forgets s m R Hr) as (s1 & E1 & R1).
  destruct (digest_rep s1 _ R1) as (s2 & E2 & _). eauto.
Qed.

(** Fifty-six letters: the two digests differ. *)
Lemma CMD5_second_digest_witness :
  exists s1 s2 d1 d2,
    digest (Build_CMD5 MD5_IV 448 0 (repeat 97 56 ++ repeat 0 8) [] false) = Some (d1, s1) /\
    digest s1 = Some (d2, s2) /\ d1 = MD5_digest (repeat 97 56) /\ d1 <> d2.
Proof.
  destruct (CMD5_second_digest (Build_CMD5 MD5_IV 448 0 (repeat 97 56 ++ repeat 0 8) [] false) (repeat 97 56))
    as (s1 & s2 & E1 & E2).
  - split; [|reflexivity]. unfold represents. splits; reflexivity.
  - cbn. lia.
  - exists s1, s2, (MD5_digest (repeat 97 56)), (MD5_digest (forgotten (repeat 97 56))).
    splits; [exact E1|exact E2|reflexivity|]. vm_compute. discriminate.
Defined.

(** On a 64-bit host an input of four gigabytes or more is never done: the 32-bit index wraps. *)
Theorem update_loop_endless fuel st i input length : 2 ^ 32 <= length ->
  update_loop fuel st i input length = None.
Proof.
  intros H. revert st i. induction fuel as [|f IH]; intros st i; [reflexivity|]. cbn [update_loop].
  pose proof (w32_word (i + 63)) as W. unfold is_word in W.
  rewrite (proj2 (Z.ltb_lt _ _)) by lia. apply IH.
Qed.

(** The printed form has two lower-case digits per byte. *)
Lemma bytesToHexString_digits l : bytes l ->
  length (bytesToHexString l (length l)) = (2 * length l)%nat /\
  Forall (fun c => In c HEX) (bytesToHexString l (length l)).
Proof.
  unfold bytesToHexString. rewrite cells_all. induction 1 as [|x l Hx _ [IH1 IH2]]; [split; constructor|].
  cbn [flat_map app length]. split; [lia|].
  assert (B : forall k, 0 <= k < 16 -> In (nth (Z.to_nat k) HEX 0) HEX)
    by (intros k Hk; apply nth_In; cbn [length HEX]; lia).
  unfold is_byte in Hx. constructor; [apply B; split; [apply Z.div_pos; lia|apply Z.div_lt_upper_bound; lia]|].
  constructor; [apply B, Z.mod_pos_bound; lia|exact IH2].
Qed.
