(* ===== verification/SHS.v ===== *)
(** * SHS: the secure hash standard (src/QBase/RSAEuro/shsc.c)

    The context keeps its 64-byte buffer as sixteen words; [R_memcpy] writes it
    through a byte pointer and [byteReverse] turns it into big-endian words in
    place. The model keeps the memory of the buffer as its bytes, on the
    little-endian hosts the server is built for. The theorems: streaming updates
    compute the digest of the padded concatenation, [byteReverse] reads
    big-endian words, and the FIPS 180 test vector. *)

From S2P Require Import Prelude StdLib MDBuffer.

(** ** Definitions *)

Definition SHS_BLOCKSIZE : nat := 64.
Definition SHS_DIGESTSIZE : nat := 20.

Definition K1 : Z := 0x5A827999.
Definition K2 : Z := 0x6ED9EBA1.
Definition K3 : Z := 0x8F1BBCDC.
Definition K4 : Z := 0xCA62C1D6.

Definition SHS_IV : list Z := [0x67452301; 0xEFCDAB89; 0x98BADCFE; 0x10325476; 0xC3D2E1F0].

Definition f1 (x y z : Z) : Z := (x .& y) .| (not32 x .& z).
Definition f2 (x y z : Z) : Z := x .^ y .^ z.
Definition f3 (x y z : Z) : Z := (x .& y) .| (x .& z) .| (y .& z).
Definition f4 (x y z : Z) : Z := x .^ y .^ z.

(** [S(n,X)] of the source. *)
Definition rotl (n X : Z) : Z := w32 (X .<< n) .| (X .>> (32 - n)).

(** [expand(count)] for [n] consecutive counts from the length of [W]. *)
Fixpoint expand (n : nat) (W : list Z) : list Z :=
  match n with
  | O => W
  | S k =>
      let count := length W in
      expand k (W ++ [nth (count - 3) W 0 .^ nth (count - 8) W 0
                      .^ nth (count - 14) W 0 .^ nth (count - 16) W 0])
  end.

(** The five working words [A], ..., [E]. *)
Definition work : Type := Z * Z * Z * Z * Z.

Definition subRound (f : Z -> Z -> Z -> Z) (K : Z) (W : list Z) (st : work) (count : nat) : work :=
  let '(A, B, C, D, E) := st in
  let temp := w32 (rotl 5 A + f B C D + E + nth count W 0 + K) in
  (temp, A, rotl 30 B, C, D).

Definition subRound1 := subRound f1 K1.
Definition subRound2 := subRound f2 K2.
Definition subRound3 := subRound f3 K3.
Definition subRound4 := subRound f4 K4.

(** [SHSTransform] on the digest and the sixteen words of the buffer. *)
Definition SHSTransform (digest data : list Z) : list Z :=
  let W := expand 64 (cells 16 data) in
  let st := (nth 0 digest 0, nth 1 digest 0, nth 2 digest 0, nth 3 digest 0, nth 4 digest 0) in
  let st := fold_left (subRound1 W) (seq 0 20) st in
  let st := fold_left (subRound2 W) (seq 20 20) st in
  let st := fold_left (subRound3 W) (seq 40 20) st in
  let '(A, B, C, D, E) := fold_left (subRound4 W) (seq 60 20) st in
  [w32 (nth 0 digest 0 + A); w32 (nth 1 digest 0 + B); w32 (nth 2 digest 0 + C);
   w32 (nth 3 digest 0 + D); w32 (nth 4 digest 0 + E)].

(** One word of [byteReverse] on a little-endian host. *)
Definition byteReverse_word (x : Z) : Z :=
  let value := w32 (x .<< 16) .| (x .>> 16) in
  ((value .& 0xFF00FF00) .>> 8) .| w32 ((value .& 0x00FF00FF) .<< 8).

Fixpoint byteReverse_words (n : nat) (buffer : list Z) : list Z :=
  match n with
  | O => buffer
  | S k => Encode_word (byteReverse_word (Decode_word buffer))
           ++ byteReverse_words k (skipn 4 buffer)
  end.

Definition byteReverse (buffer : list Z) (byteCount : nat) : list Z :=
  byteReverse_words (byteCount / 4) buffer.

(** [SHS_CTX]; [data] is the memory of the sixteen words. *)
Record SHS_CTX := mkSHS { digest : list Z; countLo : Z; countHi : Z; data : list Z }.

Definition SHSInit (context : SHS_CTX) : SHS_CTX := mkSHS SHS_IV 0 0 (data context).

(** [byteReverse(context->data, SHS_BLOCKSIZE); SHSTransform(context);] *)
Definition SHS_step (dg dat : list Z) : list Z * list Z :=
  let dat := byteReverse dat SHS_BLOCKSIZE in
  (SHSTransform dg (Decode dat 16), dat).

(** [while(count >= SHS_BLOCKSIZE)] *)
Fixpoint SHS_chunks (fuel : nat) (dg dat buffer : list Z) (count : nat)
  : list Z * list Z * list Z * nat :=
  match fuel with
  | O => (dg, dat, buffer, count)
  | S f =>
      if (SHS_BLOCKSIZE <=? count)%nat then
        let '(dg, dat) := SHS_step dg (R_memcpy dat buffer SHS_BLOCKSIZE) in
        SHS_chunks f dg dat (skipn SHS_BLOCKSIZE buffer) (count - SHS_BLOCKSIZE)
      else (dg, dat, buffer, count)
  end.

Definition SHSUpdate (context : SHS_CTX) (buffer : list Z) (count : nat) : SHS_CTX :=
  let tmp := countLo context in
  let n := Z.of_nat count in
  let hi := if w32 (countLo context + w32 (n .<< 3)) <? countLo context
            then w32 (countHi context + 1) else countHi context in
  let lo := w32 (countLo context + w32 (n .<< 3)) in
  let hi := w32 (hi + (n .>> 29)) in
  let dataCount := Z.to_nat ((tmp .>> 3) .& 0x3F) in
  let finish dg dat buffer count :=
    let '(dg, dat, buffer, count) := SHS_chunks count dg dat buffer count in
    mkSHS dg lo hi (R_memcpy dat buffer count) in
  if negb (Nat.eqb dataCount 0) then
    let room := (SHS_BLOCKSIZE - dataCount)%nat in
    if (count <? room)%nat then
      mkSHS (digest context) lo hi
        (at_ptr dataCount (fun ptr => R_memcpy ptr buffer count) (data context))
    else
      let dat := at_ptr dataCount (fun ptr => R_memcpy ptr buffer room) (data context) in
      let '(dg, dat) := SHS_step (digest context) dat in
      finish dg dat (skipn room buffer) (count - room)%nat
  else finish (digest context) (data context) buffer count.

(** The big-endian [Encode] of this file. *)
Definition Encode_BE_word (x : Z) : list Z :=
  [(x .>> 24) .& 0xff; (x .>> 16) .& 0xff; (x .>> 8) .& 0xff; x .& 0xff].

Definition Encode_BE (input : list Z) (len : nat) : list Z :=
  flat_map Encode_BE_word (cells (len / 4) input).

Definition SHSFinal (context : SHS_CTX) : list Z * SHS_CTX :=
  let lowBitcount := countLo context in
  let highBitcount := countHi context in
  let count := Z.to_nat ((countLo context .>> 3) .& 0x3F) in
  let dat := upd (data context) count 0x80 in
  let count := (count + 1)%nat in
  let '(dg, dat) :=
    if (56 <? count)%nat then
      let dat := at_ptr count (fun p => R_memset p 0 (64 - count)) dat in
      let '(dg, dat) := SHS_step (digest context) dat in
      (dg, R_memset dat 0 56)
    else (digest context, at_ptr count (fun p => R_memset p 0 (56 - count)) dat) in
  let dat := byteReverse dat SHS_BLOCKSIZE in
  let dat := at_ptr 56 (fun p => store p (Encode_word highBitcount ++ Encode_word lowBitcount)) dat in
  let dg := SHSTransform dg (Decode dat 16) in
  let dat := byteReverse dat SHS_DIGESTSIZE in
  (Encode_BE dg 20, mkSHS (repeat 0 5) 0 0 (R_memset dat 0 64)).

(** The reference: the padded message absorbed in blocks of big-endian words. *)
Definition SHS_pad (m : list Z) : list Z :=
  let n := (length m mod 64)%nat in
  let bits := 8 * Z.of_nat (length m) in
  m ++ [0x80] ++ repeat 0 (if (n <? 56)%nat then 55 - n else 119 - n)
    ++ Encode_BE [(bits / 2 ^ 32) mod 2 ^ 32; bits mod 2 ^ 32] 8.

Fixpoint Decode_BE (input : list Z) (n : nat) : list Z :=
  match n with
  | O => []
  | S k => be (firstn 4 input) :: Decode_BE (skipn 4 input) k
  end.

Definition SHS_block (dg block : list Z) : list Z := SHSTransform dg (Decode_BE block 16).

Definition SHS_digest (m : list Z) : list Z :=
  Encode_BE (absorb SHS_block 64 SHS_IV (SHS_pad m)) 20.

(** The FIPS 180 test vector "abc" (the 1993 standard, without the later rotation). *)
Example SHS_abc : SHS_digest [0x61; 0x62; 0x63] =
  [0x01; 0x64; 0xb8; 0xa9; 0x14; 0xcd; 0x2a; 0x5e; 0x74; 0xc4; 0xf7; 0xff; 0x08; 0x2c; 0x4d; 0x97;
   0xf1; 0xed; 0xf8; 0x80].
Proof. vm_compute. reflexivity. Qed.

Example SHS_abc_code :
  fst (SHSFinal (SHSUpdate (SHSInit (mkSHS [] 0 0 (repeat 0 64))) [0x61; 0x62; 0x63] 3)) =
  SHS_digest [0x61; 0x62; 0x63].
Proof. vm_compute. reflexivity. Qed.

(** ** [byteReverse] reads big-endian words *)

Lemma Encode_word_le a b c d : bytes [a; b; c; d] -> Encode_word (le [a; b; c; d]) = [a; b; c; d].
Proof.
  intros H. apply le_inj; auto using Encode_word_bytes. apply le_Encode_word.
  apply le_bound in H. exact H.
Qed.

Ltac word_bit :=
  rewrite ?Z.lor_spec, ?Z.land_spec, ?Z.shiftr_spec, ?Z.shiftl_spec, ?w32_testbit,
    ?Z.lor_spec, ?Z.shiftr_spec, ?Z.shiftl_spec by lia.

(** Decides the comparisons, drops the bits outside the bytes, and matches the rest. *)
Ltac byte_bits O :=
  repeat match goal with
  | |- context [(?p <=? ?q)%Z] => destruct (Z.leb_spec p q); try lia
  | |- context [(?p <? ?q)%Z] => destruct (Z.ltb_spec p q); try lia
  end;
  cbn [andb orb]; rewrite ?andb_true_r, ?andb_false_r, ?orb_false_l;
  repeat match goal with
  | |- context [Z.testbit ?y ?j] => rewrite (O y j) by (assumption || lia)
  end;
  cbn [orb]; rewrite ?orb_false_r; f_equal; lia.

Lemma byteReverse_word_bytes a b c d : bytes [a; b; c; d] ->
  byteReverse_word (Decode_word [a; b; c; d]) = Decode_word [d; c; b; a].
Proof.
  intros H.
  assert (W1 : is_word (Decode_word [a; b; c; d]))
    by (rewrite Decode_word_le by auto; apply (le_bound _ H)).
  assert (H' : bytes [d; c; b; a]) by exact (Forall_rev H).
  assert (W2 : is_word (Decode_word [d; c; b; a]))
    by (rewrite Decode_word_le by auto; apply (le_bound _ H')).
  inversion_clear H as [|? ? Ha H0]. inversion_clear H0 as [|? ? Hb H].
  inversion_clear H as [|? ? Hc H0]. inversion_clear H0 as [|? ? Hd _].
  unfold byteReverse_word. apply word_ext; auto.
  { assert (is_word (w32 (Decode_word [a; b; c; d] .<< 16) .| Decode_word [a; b; c; d] .>> 16))
      by (apply word_lor; [auto with words|apply word_shiftr; lia || auto]).
    apply word_lor; [|auto with words]. apply word_shiftr; [apply word_land|]; auto; lia. }
  set (x := Decode_word [a; b; c; d]) in *. intros i Hi.
  assert (Ex : forall j, 0 <= j -> Z.testbit x j =
    (Z.testbit a j || Z.testbit b (j - 8) || Z.testbit c (j - 16) || Z.testbit d (j - 24))).
  { intros j Hj. unfold x, Decode_word. cbn [nth]. now rewrite !Z.lor_spec, !Z.shiftl_spec. }
  assert (Ey : Z.testbit (Decode_word [d; c; b; a]) i =
    (Z.testbit d i || Z.testbit c (i - 8) || Z.testbit b (i - 16) || Z.testbit a (i - 24))).
  { unfold Decode_word. cbn [nth]. rewrite !Z.lor_spec, !Z.shiftl_spec; auto; lia. }
  rewrite Ey. clearbody x. clear Ey W2 H'.
  assert (V : forall j, 0 <= j < 32 -> Z.testbit (w32 (x .<< 16) .| x .>> 16) j =
    if j <? 16 then Z.testbit x (j + 16) else Z.testbit x (j - 16)).
  { intros j Hj. apply word_bits in W1. word_bit.
    destruct (Z.ltb_spec j 16).
    - now rewrite (Z.testbit_neg_r x) by lia.
    - rewrite (proj2 W1 (j + 16)) by lia. apply orb_false_r. }
  set (v := w32 (x .<< 16) .| x .>> 16) in *. clearbody v.
  assert (M : forall j, 0 <= j < 32 ->
    Z.testbit 0xFF00FF00 j = ((8 <=? j) && (j <? 16) || (24 <=? j)) /\
    Z.testbit 0x00FF00FF j = ((j <? 8) || (16 <=? j) && (j <? 24))).
  { intros j Hj. rewrite <- (Z2Nat.id j) by lia. assert (L : (Z.to_nat j < 32)%nat) by lia.
    revert L. generalize (Z.to_nat j) as n. intros n L.
    do 32 (destruct n as [|n]; [split; reflexivity|]). lia. }
  assert (O : forall y j, is_byte y -> j < 0 \/ 8 <= j -> Z.testbit y j = false).
  { intros y j Hy [Hj|Hj]; [now apply Z.testbit_neg_r|now apply byte_testbit]. }
  assert (Hi' : 0 <= i < 8 \/ 8 <= i < 16 \/ 16 <= i < 24 \/ 24 <= i < 32) by lia. clear Hi.
  destruct Hi' as [C|[C|[C|C]]].
  - rewrite Z.lor_spec, Z.shiftr_spec, w32_testbit, Z.shiftl_spec, Z.land_spec by lia.
    rewrite (Z.testbit_neg_r (_ .& _)), (proj1 (M (i + 8) ltac:(lia))), V, !Ex by lia.
    byte_bits O.
  - rewrite Z.lor_spec, Z.shiftr_spec, w32_testbit, Z.shiftl_spec, !Z.land_spec by lia.
    rewrite (proj1 (M (i + 8) ltac:(lia))), (proj2 (M (i - 8) ltac:(lia))), !V, !Ex by lia.
    byte_bits O.
  - rewrite Z.lor_spec, Z.shiftr_spec, w32_testbit, Z.shiftl_spec, !Z.land_spec by lia.
    rewrite (proj1 (M (i + 8) ltac:(lia))), (proj2 (M (i - 8) ltac:(lia))), !V, !Ex by lia.
    byte_bits O.
  - rewrite Z.lor_spec, Z.shiftr_spec, w32_testbit, Z.shiftl_spec, !Z.land_spec by lia.
    rewrite (proj2 (proj1 (word_bits 0xFF00FF00) ltac:(unfold is_word; lia)) (i + 8)) by lia.
    rewrite (proj2 (M (i - 8) ltac:(lia))), (V (i - 8)) by lia. rewrite !Ex by lia. rewrite andb_false_r.
    byte_bits O.
Qed.

Lemma bytes_4 (l : list Z) : bytes l -> (4 <= length l)%nat ->
  exists a b c d r, l = a :: b :: c :: d :: r /\ bytes [a; b; c; d] /\ bytes r.
Proof.
  intros H L. destruct l as [|a [|b [|c [|d r]]]]; cbn [length] in L; try lia.
  exists a, b, c, d, r. split; [reflexivity|].
  change (a :: b :: c :: d :: r) with ([a; b; c; d] ++ r) in H. now apply Forall_app in H.
Qed.

Lemma byteReverse_words_step k a b c d r : bytes [a; b; c; d] ->
  byteReverse_words (S k) (a :: b :: c :: d :: r) = [d; c; b; a] ++ byteReverse_words k r.
Proof.
  intros H. cbn [byteReverse_words skipn]. f_equal.
  change (Decode_word (a :: b :: c :: d :: r)) with (Decode_word [a; b; c; d]).
  rewrite byteReverse_word_bytes, Decode_word_le by (auto; exact (Forall_rev H)).
  apply Encode_word_le. exact (Forall_rev H).
Qed.

(** The words [SHSTransform] reads after [byteReverse] are the big-endian ones. *)
Lemma byteReverse_spec k l : bytes l -> length l = (4 * k)%nat ->
  Decode (byteReverse_words k l) k = Decode_BE l k /\
  length (byteReverse_words k l) = length l /\ bytes (byteReverse_words k l).
Proof.
  revert l; induction k as [|k IH]; intros l H L.
  { destruct l; [|cbn in L; lia]. cbn. auto. }
  destruct (bytes_4 l H ltac:(lia)) as (a & b & c & d & r & -> & Hw & Hr).
  rewrite byteReverse_words_step by auto. cbn [length] in L.
  destruct (IH r Hr ltac:(lia)) as (E & L' & B).
  cbn [Decode app skipn Decode_BE length firstn]. splits.
  - f_equal; [|exact E]. rewrite Decode_word_le by exact (Forall_rev Hw). reflexivity.
  - now rewrite L'.
  - apply (Forall_app _ [d; c; b; a]). split; [exact (Forall_rev Hw)|exact B].
Qed.

Lemma SHS_step_spec dg dat : bytes dat -> length dat = 64%nat ->
  fst (SHS_step dg dat) = SHS_block dg dat /\
  bytes (snd (SHS_step dg dat)) /\ length (snd (SHS_step dg dat)) = 64%nat.
Proof.
  intros H L. destruct (byteReverse_spec 16 dat H L) as (E & L' & B).
  unfold SHS_step, byteReverse. change (SHS_BLOCKSIZE / 4)%nat with 16%nat. cbn [fst snd].
  splits; [|auto|congruence]. unfold SHS_block. now rewrite E.
Qed.

(** ** Updates *)

Lemma SHS_chunks_spec fuel dg dat buffer : bytes dat -> length dat = 64%nat -> bytes buffer ->
  (length buffer <= fuel)%nat ->
  exists dat', SHS_chunks fuel dg dat buffer (length buffer) =
    (absorb SHS_block 64 dg buffer, dat', tail 64 buffer, (length buffer mod 64)%nat) /\
    bytes dat' /\ length dat' = 64%nat.
Proof.
  revert dg dat buffer; induction fuel as [|f IH]; intros dg dat buffer Hd Ld Hb Hf.
  { destruct buffer; [|cbn in Hf; lia]. exists dat. auto. }
  cbn [SHS_chunks]. unfold SHS_BLOCKSIZE.
  destruct (Nat.leb_spec 64 (length buffer)) as [C|C].
  - rewrite R_memcpy_all by auto.
    destruct (SHS_step_spec dg (firstn 64 buffer)) as (E & B & L);
      [auto with words|rewrite length_firstn; lia|].
    destruct (SHS_step dg _) as [dg' dat']. cbn [fst snd] in *. subst dg'.
    destruct (IH (SHS_block dg (firstn 64 buffer)) dat' (skipn 64 buffer)) as (d2 & E2 & B2 & L2);
      auto with words; [rewrite length_skipn; lia|].
    rewrite length_skipn in E2. exists d2. rewrite E2. splits; auto.
    destruct (absorb_block SHS_block 64 ltac:(lia) dg (firstn 64 buffer) (skipn 64 buffer)) as [A1 A2];
      [rewrite length_firstn; lia|].
    rewrite firstn_skipn in A1, A2. rewrite A1, A2. f_equal.
    rewrite <- (Nat.Div0.mod_add (length buffer - 64) 1 64). f_equal. lia.
  - destruct (tail_short SHS_block 64 buffer C) as [-> A]. rewrite A, Nat.mod_small by auto.
    exists dat. auto.
Qed.

(** The context represents the message fed so far. *)
Definition SHS_represents (c : SHS_CTX) (m : list Z) : Prop :=
  length (data c) = 64%nat /\ bytes (data c) /\
  digest c = absorb SHS_block 64 SHS_IV m /\
  firstn (length m mod 64) (data c) = tail 64 m /\
  countLo c = (8 * Z.of_nat (length m)) mod 2 ^ 32 /\
  countHi c = (8 * Z.of_nat (length m) / 2 ^ 32) mod 2 ^ 32.

Lemma SHSInit_represents c : length (data c) = 64%nat -> bytes (data c) ->
  SHS_represents (SHSInit c) [].
Proof. intros L H. unfold SHS_represents, SHSInit. cbn [data digest countLo countHi]. splits; auto. Qed.

(** The carry can be tested against either summand. *)
Lemma carry_sym a b : is_word a -> is_word b -> (w32 (a + b) <? a) = (w32 (a + b) <? b).
Proof.
  unfold is_word, w32. intros Ha Hb.
  destruct (Z_lt_ge_dec (a + b) (2 ^ 32)).
  - rewrite Z.mod_small by lia.
    destruct (Z.ltb_spec (a + b) a), (Z.ltb_spec (a + b) b); auto; lia.
  - replace ((a + b) mod 2 ^ 32) with (a + b - 2 ^ 32) by (apply Z.mod_unique_pos with 1; lia).
    destruct (Z.ltb_spec (a + b - 2 ^ 32) a), (Z.ltb_spec (a + b - 2 ^ 32) b); auto; lia.
Qed.

(** Filling the buffer from its byte [length t] on, after a remainder [t]. *)
Lemma at_ptr_memcpy_bytes k n (a b : list Z) : bytes a -> bytes b ->
  bytes (at_ptr k (fun p => R_memcpy p b n) a).
Proof. intros. unfold at_ptr. apply Forall_app. auto with words. Qed.

Lemma SHS_finish_represents lo hi m x dg dat : bytes dat -> length dat = 64%nat -> bytes x ->
  dg = absorb SHS_block 64 SHS_IV m -> tail 64 m = [] ->
  lo = (8 * Z.of_nat (length (m ++ x))) mod 2 ^ 32 ->
  hi = (8 * Z.of_nat (length (m ++ x)) / 2 ^ 32) mod 2 ^ 32 ->
  SHS_represents
    (let '(dg, dat, buffer, count) := SHS_chunks (length x) dg dat x (length x) in
     mkSHS dg lo hi (R_memcpy dat buffer count)) (m ++ x).
Proof.
  intros Bd Ld Bx Edg Et Elo Ehi.
  destruct (SHS_chunks_spec (length x) dg dat x Bd Ld Bx ltac:(lia)) as (d' & -> & B' & L').
  destruct (absorb_app SHS_block 64 ltac:(lia) SHS_IV m x) as [A1 A2].
  rewrite Et, <- Edg in A1. rewrite Et in A2. cbn [app] in A1, A2.
  pose proof (Nat.mod_upper_bound (length x) 64 ltac:(lia)).
  pose proof (length_tail 64 x) as Lt.
  unfold SHS_represents. cbn [digest countLo countHi data]. rewrite A1, A2.
  splits; auto.
  - rewrite length_R_memcpy; lia.
  - apply bytes_R_memcpy; [auto|]. unfold tail. auto with words.
  - replace (length (m ++ x) mod 64)%nat with (length x mod 64)%nat.
    + rewrite firstn_R_memcpy by lia. apply firstn_all2. lia.
    + assert (Lm : (length m mod 64 = 0)%nat) by (rewrite <- (length_tail 64), Et; reflexivity).
      rewrite length_app, <- Nat.Div0.add_mod_idemp_l, Lm. reflexivity.
Qed.

Lemma SHS_room (t x : list Z) : (length t < 64)%nat -> (64 - length t <= length x)%nat ->
  t ++ x = (t ++ firstn (64 - length t) x) ++ skipn (64 - length t) x /\
  length (t ++ firstn (64 - length t) x) = 64%nat.
Proof.
  intros. rewrite <- app_assoc, firstn_skipn, length_app, length_firstn. split; [auto|lia].
Qed.

Lemma SHSUpdate_represents c m x : SHS_represents c m -> bytes x ->
  Z.of_nat (length x) < 2 ^ 32 ->
  SHS_represents (SHSUpdate c x (length x)) (m ++ x).
Proof.
  intros (Ld & Bd & Eg & Et & E0 & E1) Bx Hn. unfold SHSUpdate.
  destruct (count_add (Z.of_nat (length m)) (Z.of_nat (length x)) ltac:(lia) ltac:(lia)) as [C0 C1].
  cbv zeta in C0, C1.
  rewrite carry_sym by (try apply w32_word; rewrite E0; apply w32_word).
  rewrite E0, E1, C1, C0, index_spec by lia. clear C0 C1 E0 E1.
  set (r := (length m mod 64)%nat) in *.
  replace (Z.to_nat (Z.of_nat (length m) mod 64)) with r
    by (unfold r; change 64 with (Z.of_nat 64); now rewrite <- Nat2Z.inj_mod, Nat2Z.id).
  assert (Hr : (r < 64)%nat) by (apply Nat.mod_upper_bound; lia).
  assert (Lt : length (tail 64 m) = r) by (apply length_tail; lia).
  rewrite <- Nat2Z.inj_add, <- length_app. unfold SHS_BLOCKSIZE.
  destruct (Nat.eqb_spec r 0) as [R0|R0]; cbn [negb].
  { apply SHS_finish_represents; auto. apply length_zero_iff_nil. congruence. }
  destruct (absorb_app SHS_block 64 ltac:(lia) SHS_IV m x) as [A1 A2].
  destruct (Nat.ltb_spec (length x) (64 - r)) as [C|C].
  - destruct (tail_short SHS_block 64 (tail 64 m ++ x)) as [T1 T2]; [rewrite length_app; lia|].
    destruct (at_ptr_memcpy r (length x) (data c) x ltac:(lia) ltac:(lia)) as [L1 F1].
    unfold SHS_represents. cbn [digest countLo countHi data]. rewrite A1, A2, T1, T2.
    splits; auto; [lia|now apply at_ptr_memcpy_bytes|].
    rewrite length_app, <- Nat.Div0.add_mod_idemp_l. fold r. rewrite Nat.mod_small by lia.
    now rewrite F1, Et, firstn_all.
  - destruct (SHS_room (tail 64 m) x ltac:(lia) ltac:(lia)) as [Ex Lx]. rewrite Lt in *.
    destruct (at_ptr_memcpy r (64 - r) (data c) x ltac:(lia) C) as [L1 F1].
    pose proof (at_ptr_memcpy_bytes r (64 - r) (data c) x Bd Bx) as B1.
    set (dat := at_ptr r _ (data c)) in *. rewrite firstn_all2, Et in F1 by lia.
    destruct (SHS_step_spec (digest c) dat B1 ltac:(lia)) as (S1 & S2 & S3).
    destruct (SHS_step (digest c) dat) as [dg' dat']. cbn [fst snd] in *.
    rewrite <- length_skipn.
    destruct (absorb_app SHS_block 64 ltac:(lia) SHS_IV m (firstn (64 - r) x)) as [P1 P2].
    destruct (absorb_block SHS_block 64 ltac:(lia) (digest c) dat [] ltac:(lia)) as [Q1 Q2].
    rewrite app_nil_r in Q1, Q2. rewrite <- F1 in P1, P2. rewrite <- Eg in P1. rewrite Q1 in P1. rewrite Q2 in P2.
    replace (m ++ x) with ((m ++ firstn (64 - r) x) ++ skipn (64 - r) x)
      by (now rewrite <- app_assoc, firstn_skipn).
    apply SHS_finish_represents; [exact S2|exact S3|auto with words| |exact P2|reflexivity|reflexivity].
    rewrite S1, P1. symmetry. apply (tail_short SHS_block 64 []). cbn [length]. lia.
Qed.

(** ** Finalisation *)

Lemma at_ptr_memset k n v (a : list Z) : (k + n <= length a)%nat ->
  length (at_ptr k (fun p => R_memset p v n) a) = length a /\
  firstn (k + n) (at_ptr k (fun p => R_memset p v n) a) = firstn k a ++ repeat (w8 v) n.
Proof.
  intros Ha. unfold at_ptr. split.
  - rewrite length_app, length_R_memset, length_firstn, length_skipn; [lia|].
    rewrite length_skipn. lia.
  - rewrite firstn_app, length_firstn, Nat.min_l by lia.
    rewrite firstn_all2 by (rewrite length_firstn; lia).
    replace (k + n - k)%nat with n by lia. f_equal. rewrite R_memset_store.
    rewrite <- (repeat_length (w8 v) n) at 1. apply firstn_store.
Qed.

Lemma at_ptr_memset_bytes k n v (a : list Z) : bytes a -> bytes (at_ptr k (fun p => R_memset p v n) a).
Proof. intros. unfold at_ptr. apply Forall_app. auto with words. Qed.

Lemma byteReverse_words_app k j a b : length a = (4 * k)%nat -> bytes a ->
  byteReverse_words (k + j) (a ++ b) = byteReverse_words k a ++ byteReverse_words j b.
Proof.
  revert a; induction k as [|k IH]; intros a L H.
  { destruct a; [reflexivity|cbn in L; lia]. }
  destruct (bytes_4 a H ltac:(lia)) as (w & x & y & z & r & -> & Hw & Hr). cbn [length] in L.
  cbn [plus]. rewrite byteReverse_words_step, <- app_assoc by auto. rewrite <- IH by (auto; lia).
  cbn [app]. now rewrite byteReverse_words_step.
Qed.

Lemma Decode_app k j a b : length a = (4 * k)%nat -> bytes a ->
  Decode (a ++ b) (k + j) = Decode a k ++ Decode b j.
Proof.
  revert a; induction k as [|k IH]; intros a L H.
  { destruct a; [reflexivity|cbn in L; lia]. }
  destruct (bytes_4 a H ltac:(lia)) as (w & x & y & z & r & -> & Hw & Hr). cbn [length] in L.
  cbn [plus Decode app skipn]. f_equal. apply IH; auto; lia.
Qed.

Lemma Decode_BE_app k j a b : length a = (4 * k)%nat ->
  Decode_BE (a ++ b) (k + j) = Decode_BE a k ++ Decode_BE b j.
Proof.
  revert a; induction k as [|k IH]; intros a L.
  { destruct a; [reflexivity|cbn in L; lia]. }
  cbn [plus Decode_BE app]. rewrite firstn_app, skipn_app.
  replace (4 - length a)%nat with 0%nat by lia. rewrite firstn_O, skipn_O, app_nil_r.
  rewrite IH by (rewrite length_skipn; lia). reflexivity.
Qed.

Lemma be_Encode_BE_word x : is_word x -> be (Encode_BE_word x) = x.
Proof. apply le_Encode_word. Qed.

(** The block that ends with the two words stored after [byteReverse]. *)
Lemma last_words dat hi lo : bytes dat -> length dat = 64%nat -> is_word hi -> is_word lo ->
  Decode (at_ptr 56 (fun p => store p (Encode_word hi ++ Encode_word lo))
            (byteReverse dat SHS_BLOCKSIZE)) 16 =
  Decode_BE (firstn 56 dat ++ Encode_BE [hi; lo] 8) 16.
Proof.
  intros H L Hh Hl. unfold byteReverse. change (SHS_BLOCKSIZE / 4)%nat with (14 + 2)%nat.
  set (a := firstn 56 dat). set (z := skipn 56 dat).
  assert (La : length a = 56%nat) by (unfold a; rewrite length_firstn; lia).
  assert (Lz : length z = 8%nat) by (unfold z; rewrite length_skipn; lia).
  assert (Ba : bytes a) by (unfold a; auto with words).
  assert (Bz : bytes z) by (unfold z; auto with words).
  replace dat with (a ++ z) by apply firstn_skipn.
  rewrite byteReverse_words_app by auto.
  destruct (byteReverse_spec 14 a Ba La) as (E & L14 & B14).
  destruct (byteReverse_spec 2 z Bz Lz) as (_ & L2 & _).
  set (A := byteReverse_words 14 a) in *. set (Z2 := byteReverse_words 2 z) in *.
  unfold at_ptr. rewrite firstn_app, skipn_app.
  rewrite (firstn_all2 A), (skipn_all2 A) by lia. replace (56 - length A)%nat with 0%nat by lia.
  rewrite firstn_O, skipn_O, app_nil_r, app_nil_l. unfold store.
  rewrite (skipn_all2 Z2) by (cbn [length app Encode_word]; lia). rewrite app_nil_r.
  change 16%nat with (14 + 2)%nat. rewrite Decode_app, Decode_BE_app, E by (auto; lia). f_equal.
  cbn [Encode_BE Nat.div Nat.divmod fst flat_map cells tl hd app].
  cbn [Decode Decode_BE]. transitivity [hi; lo].
  - rewrite Decode_word_Encode by auto.
    change (skipn 4 _) with (Encode_word lo ++ []). now rewrite Decode_word_Encode.
  - change (firstn 4 (skipn 4 _)) with (Encode_BE_word lo).
    change (firstn 4 _) with (Encode_BE_word hi). now rewrite !be_Encode_BE_word.
Qed.

(** The two shapes of the finalisation: one block, or two when fewer than eight bytes
    are left for the count. *)
Lemma SHS_last_block dg dat p hi lo : bytes dat -> length dat = 64%nat -> is_word hi -> is_word lo ->
  firstn 56 dat = p ->
  SHSTransform dg (Decode (at_ptr 56 (fun q => store q (Encode_word hi ++ Encode_word lo))
                             (byteReverse dat SHS_BLOCKSIZE)) 16) =
  absorb SHS_block 64 dg (p ++ Encode_BE [hi; lo] 8).
Proof.
  intros B L Wh Wl E. rewrite last_words, E by auto.
  set (b := p ++ _).
  assert (Lb : length b = 64%nat).
  { unfold b. rewrite length_app, <- E, length_firstn. cbn [length Encode_BE flat_map]. 
    change (length (Encode_BE [hi; lo] 8)) with 8%nat. lia. }
  destruct (absorb_block SHS_block 64 ltac:(lia) dg b [] Lb) as [A _].
  rewrite app_nil_r in A. rewrite A. symmetry.
  apply (tail_short SHS_block 64 []). cbn [length]. lia.
Qed.

Lemma SHS_pad_one dg dat t hi lo : bytes dat -> length dat = 64%nat -> is_word hi -> is_word lo ->
  firstn (length t + 1) dat = t ++ [0x80] -> (length t <= 55)%nat ->
  SHSTransform dg (Decode (at_ptr 56 (fun q => store q (Encode_word hi ++ Encode_word lo))
    (byteReverse (at_ptr (length t + 1) (fun q => R_memset q 0 (56 - (length t + 1))) dat)
       SHS_BLOCKSIZE)) 16) =
  absorb SHS_block 64 dg (t ++ [0x80] ++ repeat 0 (55 - length t) ++ Encode_BE [hi; lo] 8).
Proof.
  intros B L Wh Wl E Hn.
  destruct (at_ptr_memset (length t + 1) (56 - (length t + 1)) 0 dat ltac:(lia)) as [L1 F1].
  rewrite E, <- app_assoc in F1.
  rewrite (SHS_last_block dg _ (t ++ [0x80] ++ repeat 0 (55 - length t))); auto using at_ptr_memset_bytes.
  - now rewrite <- !app_assoc.
  - now rewrite L1.
  - replace (length t + 1 + (56 - (length t + 1)))%nat with 56%nat in F1 by lia.
    rewrite F1. change (w8 0) with 0. do 3 f_equal. lia.
Qed.

Lemma SHS_pad_two dg dat t hi lo : bytes dat -> length dat = 64%nat -> is_word hi -> is_word lo ->
  firstn (length t + 1) dat = t ++ [0x80] -> (56 <= length t <= 63)%nat ->
  (let '(dg, dat) := SHS_step dg
       (at_ptr (length t + 1) (fun q => R_memset q 0 (64 - (length t + 1))) dat) in
   SHSTransform dg (Decode (at_ptr 56 (fun q => store q (Encode_word hi ++ Encode_word lo))
     (byteReverse (R_memset dat 0 56) SHS_BLOCKSIZE)) 16)) =
  absorb SHS_block 64 dg (t ++ [0x80] ++ repeat 0 (119 - length t) ++ Encode_BE [hi; lo] 8).
Proof.
  intros B L Wh Wl E Hn.
  destruct (at_ptr_memset (length t + 1) (64 - (length t + 1)) 0 dat ltac:(lia)) as [L1 F1].
  pose proof (at_ptr_memset_bytes (length t + 1) (64 - (length t + 1)) 0 dat B) as B1.
  set (d1 := at_ptr _ _ dat) in *. rewrite firstn_all2, E, <- app_assoc in F1 by lia.
  destruct (SHS_step_spec dg d1 B1 ltac:(lia)) as (S1 & S2 & S3).
  destruct (SHS_step dg d1) as [dg' d2]. cbn [fst snd] in *. subst dg'.
  rewrite (SHS_last_block _ _ (repeat 0 56)); auto with words.
  - destruct (absorb_block SHS_block 64 ltac:(lia) dg d1 (repeat 0 56 ++ Encode_BE [hi; lo] 8) ltac:(lia))
      as [A _].
    rewrite <- A. f_equal. rewrite F1, <- !app_assoc. do 2 f_equal.
    rewrite app_assoc, <- repeat_app. do 2 f_equal. lia.
  - rewrite length_R_memset; lia.
Qed.

(** The digest is that of the padded message. *)
Lemma SHSFinal_represents c m : SHS_represents c m -> fst (SHSFinal c) = SHS_digest m.
Proof.
  intros (Ld & Bd & Eg & Et & E0 & E1). unfold SHSFinal, SHS_digest, SHS_pad.
  rewrite E0, E1, index_spec by lia.
  set (n := (length m mod 64)%nat) in *.
  replace (Z.to_nat (Z.of_nat (length m) mod 64)) with n
    by (unfold n; change 64 with (Z.of_nat 64); now rewrite <- Nat2Z.inj_mod, Nat2Z.id).
  assert (Hn : (n < 64)%nat) by (apply Nat.mod_upper_bound; lia).
  assert (Lt : length (tail 64 m) = n) by (apply length_tail).
  set (hi := (8 * Z.of_nat (length m) / 2 ^ 32) mod 2 ^ 32).
  set (lo := (8 * Z.of_nat (length m)) mod 2 ^ 32).
  assert (Wh : is_word hi) by apply w32_word. assert (Wl : is_word lo) by apply w32_word.
  set (dat := upd (data c) n 0x80).
  assert (Bdat : bytes dat) by (apply Forall_upd; auto; unfold is_byte; lia).
  assert (Ldat : length dat = 64%nat) by (unfold dat; now rewrite length_upd).
  assert (Fdat : firstn (n + 1) dat = tail 64 m ++ [0x80])
    by (unfold dat; rewrite firstn_upd, Et by lia; reflexivity).
  rewrite (proj1 (absorb_app SHS_block 64 ltac:(lia) SHS_IV m _)), <- Eg.
  clearbody n dat. subst n.
  destruct (Nat.ltb_spec 56 (length (tail 64 m) + 1)) as [C|C];
    destruct (Nat.ltb_spec (length (tail 64 m)) 56) as [C'|C']; try lia.
  - rewrite <- SHS_pad_two with (dat := dat) by (auto; lia).
    destruct (SHS_step _ _) as [dg' d2]. reflexivity.
  - rewrite <- SHS_pad_one with (dat := dat) by (auto; lia). reflexivity.
Qed.

(** Any sequence of updates, then the finalisation. *)
Lemma SHS_stream_digest c chunks : length (data c) = 64%nat -> bytes (data c) ->
  Forall (fun x => bytes x /\ Z.of_nat (length x) < 2 ^ 32) chunks ->
  fst (SHSFinal (fold_left (fun c x => SHSUpdate c x (length x)) chunks (SHSInit c))) =
  SHS_digest (concat chunks).
Proof.
  intros L B H. apply SHSFinal_represents.
  change (concat chunks) with ([] ++ concat chunks).
  pose proof (SHSInit_represents c L B) as R. revert R.
  generalize (SHSInit c) as c0. generalize (@nil Z) as m.
  induction H as [|x l [Hb Hx] Hl IH]; intros m c0 R; cbn [fold_left concat]; [now rewrite app_nil_r|].
  rewrite app_assoc. apply IH. now apply SHSUpdate_represents.
Qed.

(** ** The claims *)

(** Any sequence of updates followed by the finalisation gives the digest of the
    concatenated message as FIPS 180 (1993) defines it, although the implementation swaps
    the bytes of its buffer in place and keeps the bit count in two words. *)
Theorem SHS_updates_digest (c : SHS_CTX) (chunks : list (list Z)) : length (data c) = 64%nat -> bytes (data c) ->
  Forall (fun x => bytes x /\ Z.of_nat (length x) < 2 ^ 32) chunks ->
  fst (SHSFinal (fold_left (fun c x => SHSUpdate c x (length x)) chunks (SHSInit c))) =
  SHS_digest (concat chunks).
Proof. apply SHS_stream_digest. Qed.

Lemma SHS_updates_digest_witness :
  fst (SHSFinal (fold_left (fun c x => SHSUpdate c x (length x)) [[0x61]; []; [0x62; 0x63]]
    (SHSInit (mkSHS [] 0 0 (repeat 7 64))))) = SHS_digest [0x61; 0x62; 0x63].
Proof.
  apply (SHS_updates_digest (mkSHS [] 0 0 (repeat 7 64)) [[0x61]; []; [0x62; 0x63]] eq_refl); [check_bytes|].
  repeat (apply Forall_cons; [split; [check_bytes|reflexivity]|]). apply Forall_nil.
Defined.
