(* ===== verification/MD2.v ===== *)
(** * MD2: the MD2 message digest (src/QBase/RSAEuro/md2c.c)

    Blocks of 16 bytes, a state and a checksum; the padding repeats the number of
    bytes that are missing, and the checksum is hashed as a last block. The
    theorems: any sequence of updates computes the digest of the concatenation,
    every value stays a byte, and the RFC 1319 test vectors. *)

From S2P Require Import Prelude StdLib MDBuffer.

(** ** Definitions *)

Definition PI_SUBST : list Z :=
  [41; 46; 67; 201; 162; 216; 124; 1; 61; 54; 84; 161; 236; 240; 6; 19;
   98; 167; 5; 243; 192; 199; 115; 140; 152; 147; 43; 217; 188; 76; 130; 202;
   30; 155; 87; 60; 253; 212; 224; 22; 103; 66; 111; 24; 138; 23; 229; 18;
   190; 78; 196; 214; 218; 158; 222; 73; 160; 251; 245; 142; 187; 47; 238; 122;
   169; 104; 121; 145; 21; 178; 7; 63; 148; 194; 16; 137; 11; 34; 95; 33;
   128; 127; 93; 154; 90; 144; 50; 39; 53; 62; 204; 231; 191; 247; 151; 3;
   255; 25; 48; 179; 72; 165; 181; 209; 215; 94; 146; 42; 172; 86; 170; 198;
   79; 184; 56; 210; 150; 164; 125; 182; 118; 252; 107; 226; 156; 116; 4; 241;
   69; 157; 112; 89; 100; 113; 135; 32; 134; 91; 207; 101; 230; 45; 168; 2;
   27; 96; 37; 173; 174; 176; 185; 246; 28; 70; 97; 105; 52; 64; 126; 15;
   85; 71; 163; 35; 221; 81; 175; 58; 195; 92; 249; 206; 186; 197; 234; 38;
   44; 83; 13; 110; 133; 40; 132; 9; 211; 223; 205; 244; 65; 129; 77; 82;
   106; 220; 55; 200; 108; 193; 171; 250; 36; 225; 123; 8; 12; 189; 177; 74;
   120; 136; 149; 139; 227; 99; 232; 109; 233; 203; 213; 254; 59; 0; 29; 57;
   242; 239; 183; 14; 102; 88; 208; 228; 166; 119; 114; 248; 235; 117; 75; 10;
   49; 68; 80; 180; 143; 237; 31; 26; 219; 153; 141; 51; 159; 17; 131; 20].

(** [PADDING[n]] is the string of [n] bytes of value [n]. *)
Definition PADDING2 : list (list Z) := map (fun n => repeat (Z.of_nat n) n) (seq 0 17).

Definition pi_subst (i : Z) : Z := nth (Z.to_nat i) PI_SUBST 0.

(** [for (j = 0; j < 48; j++) t = x[j] ^= PI_SUBST[t];], returning [x] and [t]. *)
Fixpoint MD2_pass (x : list Z) (t : Z) : list Z * Z :=
  match x with
  | [] => ([], t)
  | y :: x =>
      let t := y .^ pi_subst t in
      let '(x, t') := MD2_pass x t in (t :: x, t')
  end.

(** The 18 rounds, from round [i] on. *)
Fixpoint MD2_rounds (n : nat) (i : Z) (x : list Z) (t : Z) : list Z :=
  match n with
  | O => x
  | S n =>
      let '(x, t) := MD2_pass x t in
      MD2_rounds n (i + 1) x ((t + i) .& 0xff)
  end.

(** [for(i = 0; i < 16; i++) t = checksum[i] ^= PI_SUBST[block[i] ^ t];] *)
Fixpoint MD2_checksum (checksum block : list Z) (t : Z) : list Z :=
  match checksum, block with
  | c :: checksum, b :: block =>
      let t := c .^ pi_subst (b .^ t) in t :: MD2_checksum checksum block t
  | _, _ => []
  end.

Fixpoint xor_bytes (a b : list Z) : list Z :=
  match a, b with
  | x :: a, y :: b => x .^ y :: xor_bytes a b
  | _, _ => []
  end.

(** The new state and checksum. *)
Definition MD2Transform (st : list Z * list Z) (block : list Z) : list Z * list Z :=
  let '(state, checksum) := st in
  let x := state ++ block ++ xor_bytes state block in
  let x := MD2_rounds 18 0 x 0 in
  (firstn 16 x, MD2_checksum checksum block (nth 15 checksum 0)).

Record MD2_CTX := mkMD2 {
  md2_state : list Z; md2_checksum : list Z; md2_count : nat; md2_buffer : list Z }.

Definition MD2_0 : list Z * list Z := (repeat 0 16, repeat 0 16).

Definition MD2Init (context : MD2_CTX) : MD2_CTX :=
  mkMD2 (R_memset (md2_state context) 0 16) (R_memset (md2_checksum context) 0 16) 0
    (md2_buffer context).

(** [for(i = partLen; i + 15 < inputLen; i += 16)] *)
Fixpoint MD2_blocks (fuel : nat) (st : list Z * list Z) (i : nat) (input : list Z) (inputLen : nat)
  : list Z * list Z * nat :=
  match fuel with
  | O => (st, i)
  | S f =>
      if w32 (Z.of_nat i + 15) <? Z.of_nat inputLen then
        MD2_blocks f (MD2Transform st (cells 16 (skipn i input))) (i + 16) input inputLen
      else (st, i)
  end.

Definition MD2Update (context : MD2_CTX) (input : list Z) (inputLen : nat) : MD2_CTX :=
  let index := md2_count context in
  let count := Z.to_nat (w32 (Z.of_nat index + Z.of_nat inputLen) .& 0xf) in
  let partLen := (16 - index)%nat in
  let st := (md2_state context, md2_checksum context) in
  let '(st, buf, i, index) :=
    if (partLen <=? inputLen)%nat then
      let buf := at_ptr index (fun p => R_memcpy p input partLen) (md2_buffer context) in
      let st := MD2Transform st buf in
      let '(st, i) := MD2_blocks inputLen st partLen input inputLen in
      (st, buf, i, 0%nat)
    else (st, md2_buffer context, 0%nat, index) in
  mkMD2 (fst st) (snd st) count
    (at_ptr index (fun p => R_memcpy p (skipn i input) (inputLen - i)) buf).

Definition MD2Final (context : MD2_CTX) : list Z * MD2_CTX :=
  let index := md2_count context in
  let padLen := (16 - index)%nat in
  let context := MD2Update context (nth padLen PADDING2 []) padLen in
  let context := MD2Update context (md2_checksum context) 16 in
  (R_memcpy (repeat 0 16) (md2_state context) 16,
   mkMD2 (repeat 0 16) (repeat 0 16) 0 (R_memset (md2_buffer context) 0 16)).

(** The reference: the padded message, then its checksum, block by block. *)
Definition MD2_pad (m : list Z) : list Z :=
  let n := (16 - length m mod 16)%nat in m ++ repeat (Z.of_nat n) n.

Definition MD2_digest (m : list Z) : list Z :=
  let st := absorb MD2Transform 16 MD2_0 (MD2_pad m) in
  fst (MD2Transform st (snd st)).

(** The RFC 1319 test vectors for "", "a" and "abc". *)
Example MD2_empty : MD2_digest [] =
  [0x83; 0x50; 0xe5; 0xa3; 0xe2; 0x4c; 0x15; 0x3d; 0xf2; 0x27; 0x5c; 0x9f; 0x80; 0x69; 0x27; 0x73].
Proof. vm_compute. reflexivity. Qed.

Example MD2_a : MD2_digest [0x61] =
  [0x32; 0xec; 0x01; 0xec; 0x4a; 0x6d; 0xac; 0x72; 0xc0; 0xab; 0x96; 0xfb; 0x34; 0xc0; 0xb5; 0xd1].
Proof. vm_compute. reflexivity. Qed.

Example MD2_abc : MD2_digest [0x61; 0x62; 0x63] =
  [0xda; 0x85; 0x3b; 0x0d; 0x3f; 0x88; 0xd9; 0x9b; 0x30; 0x28; 0x3a; 0x69; 0xe6; 0xde; 0xd6; 0xbb].
Proof. vm_compute. reflexivity. Qed.

(** ** The transform *)

Lemma length_MD2_pass x t : length (fst (MD2_pass x t)) = length x.
Proof.
  revert t; induction x as [|y x IH]; intros t; cbn [MD2_pass]; [reflexivity|].
  specialize (IH (y .^ pi_subst t)). destruct (MD2_pass x _) as [x' t']. cbn [fst length] in *. lia.
Qed.

Lemma length_MD2_rounds n i x t : length (MD2_rounds n i x t) = length x.
Proof.
  revert i x t; induction n as [|n IH]; intros; cbn [MD2_rounds]; [reflexivity|].
  pose proof (length_MD2_pass x t) as L. destruct (MD2_pass x t) as [x' t']. cbn [fst] in L.
  now rewrite IH.
Qed.

Lemma length_MD2_checksum c b t : length c = length b -> length (MD2_checksum c b t) = length c.
Proof.
  revert b t; induction c as [|x c IH]; intros [|y b] t L; cbn in *; try discriminate; auto.
Qed.

Definition MD2_sized (st : list Z * list Z) : Prop :=
  length (fst st) = 16%nat /\ length (snd st) = 16%nat.

Lemma MD2Transform_sized st b : MD2_sized st -> length b = 16%nat -> MD2_sized (MD2Transform st b).
Proof.
  destruct st as [s c]. intros [Ls Lc] Lb. cbn [fst snd] in *. unfold MD2_sized, MD2Transform. cbn [fst snd].
  rewrite length_firstn, length_MD2_rounds, !length_app, length_MD2_checksum; lia.
Qed.

Lemma absorb_n_sized n st m : MD2_sized st -> (16 * n <= length m)%nat ->
  MD2_sized (absorb_n MD2Transform 16 n st m).
Proof.
  revert st m; induction n as [|n IH]; intros st m Hs L; cbn [absorb_n]; [auto|].
  apply IH; [apply MD2Transform_sized; auto; rewrite length_firstn; lia|].
  rewrite length_skipn. lia.
Qed.

Lemma absorb_sized st m : MD2_sized st -> MD2_sized (absorb MD2Transform 16 st m).
Proof. intros H. apply absorb_n_sized; auto. apply Nat.Div0.mul_div_le. Qed.

(** ** Updates *)

Lemma MD2_blocks_spec fuel st i input n : (n <= 16 * fuel + i)%nat -> (i <= n)%nat ->
  (n <= length input)%nat -> Z.of_nat n < 2 ^ 32 - 15 ->
  MD2_blocks fuel st i input n =
    (absorb MD2Transform 16 st (skipn i (firstn n input)), (i + 16 * ((n - i) / 16))%nat).
Proof.
  revert st i; induction fuel as [|f IH]; intros st i Hf Hi Hl Hn; cbn [MD2_blocks].
  { unfold absorb. rewrite length_skipn, length_firstn.
    replace (Nat.min n (length input) - i)%nat with 0%nat by lia.
    replace (n - i)%nat with 0%nat by lia.
    change (0 / 16)%nat with 0%nat. cbn [absorb_n]. f_equal. lia. }
  rewrite w32_small by (unfold is_word; lia).
  assert (L : length (skipn i (firstn n input)) = (n - i)%nat)
    by (rewrite length_skipn, length_firstn; lia).
  destruct (Z.ltb_spec (Z.of_nat i + 15) (Z.of_nat n)) as [C|C].
  - rewrite IH by lia.
    set (r := skipn i (firstn n input)) in *.
    assert (Lb : length (firstn 16 r) = 16%nat) by (rewrite length_firstn; lia).
    destruct (absorb_block MD2Transform 16 ltac:(lia) st (firstn 16 r) (skipn 16 r) Lb) as [A _].
    rewrite firstn_skipn in A. rewrite A. f_equal.
    + f_equal; [f_equal|]; unfold r.
      * rewrite <- cells_firstn by (fold r; lia). symmetry. apply cells_prefix. lia.
      * rewrite skipn_skipn. f_equal. lia.
    + replace (n - i)%nat with (n - (i + 16) + 1 * 16)%nat by lia. rewrite Nat.div_add by lia. lia.
  - unfold absorb. rewrite L, !Nat.div_small by lia. cbn [absorb_n]. f_equal. lia.
Qed.

(** The context represents the message fed so far. *)
Definition MD2_represents (c : MD2_CTX) (m : list Z) : Prop :=
  length (md2_buffer c) = 16%nat /\
  (md2_state c, md2_checksum c) = absorb MD2Transform 16 MD2_0 m /\
  firstn (md2_count c) (md2_buffer c) = tail 16 m /\
  md2_count c = (length m mod 16)%nat.

Lemma MD2Init_represents c : length (md2_buffer c) = 16%nat ->
  length (md2_state c) = 16%nat -> length (md2_checksum c) = 16%nat ->
  MD2_represents (MD2Init c) [].
Proof.
  intros L Ls Lc. unfold MD2_represents, MD2Init.
  cbn [md2_buffer md2_state md2_checksum md2_count]. rewrite !R_memset_store. unfold store.
  rewrite repeat_length, !skipn_all2, !app_nil_r by lia. splits; auto.
Qed.

Lemma MD2_count_spec r n : (r < 16)%nat ->
  Z.to_nat (w32 (Z.of_nat r + Z.of_nat n) .& 0xf) = ((r + n) mod 16)%nat.
Proof.
  intros Hr. change 0xf with (Z.ones 4). rewrite Z.land_ones by lia. unfold w32.
  change (2 ^ 32) with (2 ^ 4 * 2 ^ 28).
  rewrite Z.rem_mul_r, (Z.mul_comm (2 ^ 4)), Z_mod_plus_full, Z.mod_mod by lia.
  change (2 ^ 4) with (Z.of_nat 16). rewrite <- Nat2Z.inj_add, <- Nat2Z.inj_mod. apply Nat2Z.id.
Qed.

Lemma MD2Update_represents c m input n : MD2_represents c m ->
  (n <= length input)%nat -> Z.of_nat n < 2 ^ 32 - 15 ->
  MD2_represents (MD2Update c input n) (m ++ firstn n input).
Proof.
  intros (Lb & Es & Et & Ec) Hl Hn. unfold MD2Update. rewrite Ec in *.
  set (r := (length m mod 16)%nat) in *.
  assert (Hr : (r < 16)%nat) by (apply Nat.mod_upper_bound; lia).
  assert (Lt : length (tail 16 m) = r) by apply length_tail.
  assert (Lx : length (firstn n input) = n) by (rewrite length_firstn; lia).
  set (x := firstn n input) in *.
  destruct (absorb_app MD2Transform 16 ltac:(lia) MD2_0 m x) as [A1 A2].
  rewrite <- Es in A1. rewrite MD2_count_spec by auto.
  assert (Hlen : (length (m ++ x) mod 16 = (r + n) mod 16)%nat).
  { rewrite length_app, Lx, <- Nat.Div0.add_mod_idemp_l. reflexivity. }
  unfold MD2_represents. rewrite Hlen, A1, A2, <- Et in *. clear Hlen A1 A2 Et.
  destruct (Nat.leb_spec (16 - r) n) as [C|C].
  - destruct (at_ptr_memcpy r (16 - r) (md2_buffer c) input ltac:(lia) ltac:(lia)) as [L1 F1].
    set (buf := at_ptr r _ (md2_buffer c)) in *. rewrite firstn_all2 in F1 by lia.
    rewrite MD2_blocks_spec by lia. fold x. set (rest := skipn (16 - r) x).
    assert (Lr : length rest = (n - (16 - r))%nat) by (unfold rest; rewrite length_skipn; lia).
    rewrite <- Lr. set (i := (16 - r + 16 * (length rest / 16))%nat).
    assert (Ei : skipn i x = tail 16 rest)
      by (unfold tail, rest, i; rewrite skipn_skipn; f_equal; apply Nat.add_comm).
    assert (Er : (n - i = length rest mod 16)%nat).
    { unfold i. rewrite Nat.Div0.mod_eq. lia. }
    pose proof (Nat.mod_upper_bound (length rest) 16 ltac:(lia)).
    assert (Eb : firstn r (md2_buffer c) ++ x = buf ++ rest).
    { rewrite F1, <- app_assoc. f_equal. unfold rest. rewrite <- (firstn_skipn (16 - r) x) at 1. f_equal.
      unfold x. rewrite firstn_firstn, Nat.min_l by lia. reflexivity. }
    destruct (absorb_block MD2Transform 16 ltac:(lia) (md2_state c, md2_checksum c) buf rest ltac:(lia))
      as [B1 B2].
    destruct (at_ptr_memcpy 0 (n - i) buf (skipn i input)) as [L2 F2];
      [lia|rewrite length_skipn; lia|].
    cbn [md2_buffer md2_state md2_checksum md2_count]. rewrite Eb, B1, B2.
    splits; [lia|now destruct (absorb _ _ _ rest)| |reflexivity].
    replace ((r + n) mod 16)%nat with (0 + (n - i))%nat.
    + rewrite F2. cbn [firstn app]. rewrite <- (cells_firstn (n - i) (skipn i input)) by (rewrite length_skipn; lia).
      assert (Hin : (i <= n)%nat).
      { unfold i. pose proof (Nat.Div0.mul_div_le (length rest) 16). lia. }
      clearbody i. rewrite <- (cells_prefix (n - i) i n) by lia. fold x.
      rewrite Ei.
      rewrite cells_firstn by (rewrite length_tail; lia). apply firstn_all2. rewrite length_tail. lia.
    + rewrite Er, Lr. cbn [plus]. replace (r + n)%nat with (n - (16 - r) + 1 * 16)%nat by lia.
      now rewrite Nat.Div0.mod_add.
  - destruct (at_ptr_memcpy r n (md2_buffer c) input ltac:(lia) ltac:(lia)) as [L1 F1].
    rewrite Nat.sub_0_r, skipn_O. cbn [md2_buffer md2_state md2_checksum md2_count fst snd].
    destruct (tail_short MD2Transform 16 (firstn r (md2_buffer c) ++ x)) as [B1 B2].
    { rewrite length_app, length_firstn. lia. }
    rewrite B1, B2. splits; auto; [lia|]. rewrite Nat.mod_small by lia. exact F1.
Qed.

(** ** Finalisation *)

Lemma nth_PADDING2 n : (n <= 16)%nat -> nth n PADDING2 [] = repeat (Z.of_nat n) n.
Proof. intros. do 17 (destruct n as [|n]; [reflexivity|]). lia. Qed.

Lemma MD2Final_represents c m : MD2_represents c m -> fst (MD2Final c) = MD2_digest m.
Proof.
  intros R. unfold MD2Final. pose proof R as (_ & _ & _ & Ec). rewrite Ec.
  set (p := (16 - length m mod 16)%nat).
  pose proof (Nat.mod_upper_bound (length m) 16 ltac:(lia)).
  rewrite nth_PADDING2 by lia.
  pose proof (MD2Update_represents c m (repeat (Z.of_nat p) p) p R
    ltac:(rewrite repeat_length; lia) ltac:(lia)) as R1.
  rewrite firstn_all2 in R1 by (rewrite repeat_length; lia).
  change (m ++ repeat (Z.of_nat p) p) with (MD2_pad m) in R1.
  set (c1 := MD2Update c _ p) in *. pose proof R1 as (_ & E1 & _ & _).
  pose proof (absorb_sized MD2_0 (MD2_pad m) (conj eq_refl eq_refl)) as [_ Lc].
  rewrite <- E1 in Lc. cbn [snd] in Lc.
  destruct (MD2Update_represents c1 (MD2_pad m) (md2_checksum c1) 16 R1 ltac:(lia) ltac:(lia))
    as (_ & E2 & _).
  rewrite firstn_all2 in E2 by lia.
  assert (T0 : tail 16 (MD2_pad m) = []).
  { apply length_zero_iff_nil. rewrite length_tail. unfold MD2_pad. fold p.
    rewrite length_app, repeat_length, (Nat.div_mod_eq (length m) 16).
    replace (_ + p)%nat with (0 + (length m / 16 + 1) * 16)%nat by (unfold p; lia).
    now rewrite Nat.Div0.mod_add. }
  rewrite (proj1 (absorb_app MD2Transform 16 ltac:(lia) MD2_0 (MD2_pad m) _)), T0, <- E1 in E2.
  rewrite app_nil_l in E2.
  destruct (absorb_block MD2Transform 16 ltac:(lia) (md2_state c1, md2_checksum c1)
    (md2_checksum c1) [] Lc) as [B _].
  rewrite app_nil_r, (proj2 (tail_short MD2Transform 16 [] ltac:(cbn [length]; lia))) in B.
  rewrite B in E2. unfold MD2_digest. cbv zeta. rewrite <- E1. cbn [fst snd] in *.
  destruct (MD2Transform_sized (md2_state c1, md2_checksum c1) (md2_checksum c1)) as [Ls _]; auto.
  { rewrite E1. now apply absorb_sized. }
  rewrite <- E2 in *. cbn [fst] in *.
  rewrite R_memcpy_all by (rewrite ?repeat_length; lia). apply firstn_all2. lia.
Qed.

(** Any sequence of updates, then the finalisation. *)
Lemma MD2_stream_digest c chunks : length (md2_buffer c) = 16%nat ->
  length (md2_state c) = 16%nat -> length (md2_checksum c) = 16%nat ->
  Forall (fun x => Z.of_nat (length x) < 2 ^ 32 - 15) chunks ->
  fst (MD2Final (fold_left (fun c x => MD2Update c x (length x)) chunks (MD2Init c))) =
  MD2_digest (concat chunks).
Proof.
  intros L1 L2 L3 H. apply MD2Final_represents.
  change (concat chunks) with ([] ++ concat chunks).
  pose proof (MD2Init_represents c L1 L2 L3) as R. revert R.
  generalize (MD2Init c) as c0. generalize (@nil Z) as m.
  induction H as [|x l Hx Hl IH]; intros m c0 R; cbn [fold_left concat]; [now rewrite app_nil_r|].
  rewrite app_assoc. apply IH. pose proof (MD2Update_represents c0 m x (length x) R ltac:(lia) Hx) as R1.
  now rewrite firstn_all in R1.
Qed.

(** ** The digest is made of bytes *)

Lemma pi_subst_byte i : is_byte (pi_subst i).
Proof. unfold pi_subst. apply (Forall_nth_d is_byte); [check_bytes|apply byte_0]. Qed.

Lemma MD2_pass_bytes x t : bytes x -> bytes (fst (MD2_pass x t)).
Proof.
  intros H. revert t. induction H as [|y x Hy Hx IH]; intros t; cbn [MD2_pass]; [constructor|].
  specialize (IH (y .^ pi_subst t)). destruct (MD2_pass x _) as [x' t']. cbn [fst] in *.
  constructor; [apply byte_lxor; auto using pi_subst_byte|auto].
Qed.

Lemma MD2_rounds_bytes n i x t : bytes x -> bytes (MD2_rounds n i x t).
Proof.
  revert i x t. induction n as [|n IH]; intros i x t H; cbn [MD2_rounds]; [auto|].
  pose proof (MD2_pass_bytes x t H). destruct (MD2_pass x t) as [x' t']. apply IH. auto.
Qed.

Lemma xor_bytes_bytes a b : bytes a -> bytes b -> bytes (xor_bytes a b).
Proof.
  intros H. revert b. induction H as [|x a Hx Ha IH]; intros b Hb; [constructor|].
  destruct Hb; cbn [xor_bytes]; constructor; auto using byte_lxor.
Qed.

Lemma MD2_checksum_bytes c b t : bytes c -> bytes (MD2_checksum c b t).
Proof.
  intros H. revert b t. induction H as [|x c Hx Hc IH]; intros [|y b] t; cbn [MD2_checksum]; constructor; auto.
  apply byte_lxor; auto using pi_subst_byte.
Qed.

Definition MD2_bytes (st : list Z * list Z) : Prop := bytes (fst st) /\ bytes (snd st).

Lemma MD2Transform_bytes st b : MD2_bytes st -> bytes b -> MD2_bytes (MD2Transform st b).
Proof.
  destruct st as [s c]. intros [Bs Bc] Bb. unfold MD2_bytes, MD2Transform. cbn [fst snd] in *. split.
  - apply Forall_firstn, MD2_rounds_bytes, Forall_app. split; [auto|]. apply Forall_app. auto using xor_bytes_bytes.
  - now apply MD2_checksum_bytes.
Qed.

Lemma absorb_n_bytes n st m : MD2_bytes st -> bytes m -> MD2_bytes (absorb_n MD2Transform 16 n st m).
Proof.
  revert st m. induction n as [|n IH]; intros st m Hs Hm; cbn [absorb_n]; [auto|].
  apply IH; auto using MD2Transform_bytes, Forall_firstn, Forall_skipn.
Qed.

Lemma MD2_digest_bytes m : bytes m -> bytes (MD2_digest m) /\ length (MD2_digest m) = 16%nat.
Proof.
  intros H. unfold MD2_digest.
  assert (B0 : MD2_bytes MD2_0) by (split; apply Forall_repeat, byte_0).
  assert (Bp : bytes (MD2_pad m)).
  { apply Forall_app. split; [auto|]. apply Forall_repeat.
    pose proof (Nat.mod_upper_bound (length m) 16 ltac:(lia)). unfold is_byte. lia. }
  pose proof (absorb_n_bytes (length (MD2_pad m) / 16) MD2_0 (MD2_pad m) B0 Bp) as B1.
  pose proof (absorb_sized MD2_0 (MD2_pad m) (conj eq_refl eq_refl)) as L1. unfold absorb in *.
  set (st := absorb_n _ _ _ _ _) in *. split.
  - apply MD2Transform_bytes; [auto|apply B1].
  - apply MD2Transform_sized; [auto|apply L1].
Qed.

(** ** The claims *)

(** Any sequence of updates followed by the finalisation gives the digest of the
    concatenated message as RFC 1319 defines it: padding, checksum block, and the state. *)
Theorem MD2_updates_digest (c : MD2_CTX) (chunks : list (list Z)) : length (md2_buffer c) = 16%nat ->
  length (md2_state c) = 16%nat -> length (md2_checksum c) = 16%nat ->
  Forall (fun x => Z.of_nat (length x) < 2 ^ 32 - 15) chunks ->
  fst (MD2Final (fold_left (fun c x => MD2Update c x (length x)) chunks (MD2Init c))) =
  MD2_digest (concat chunks).
Proof. apply MD2_stream_digest. Qed.

Lemma MD2_updates_digest_witness :
  let c := mkMD2 (repeat 1 16) (repeat 2 16) 3 (repeat 4 16) in
  fst (MD2Final (fold_left (fun c x => MD2Update c x (length x)) [[0x61]; []; [0x62; 0x63]] (MD2Init c))) =
  MD2_digest [0x61; 0x62; 0x63].
Proof.
  apply (MD2_updates_digest (mkMD2 (repeat 1 16) (repeat 2 16) 3 (repeat 4 16)) [[0x61]; []; [0x62; 0x63]]
    eq_refl eq_refl eq_refl).
  repeat (apply Forall_cons; [reflexivity|]). apply Forall_nil.
Defined.
