(* ===== verification/Encode.v ===== *)
(** * Encode: the PEM (RFC 1113) base-64 codec (src/QBase/RSAEuro/r_encode.c)

    [R_EncodePEMBlock] writes four characters for every three bytes; its helper
    reads three bytes from the block even when fewer remain, so the model gives it
    the memory that starts at the block. [R_DecodePEMBlock] writes three bytes for
    every four characters and announces the length without the padding. The
    theorems: decoding inverts encoding whatever bytes follow the block in memory,
    malformed input is rejected, and accepted input holds alphabet characters
    only. *)

From S2P Require Import Prelude Rsaeuro.

(** ** Definitions *)

Definition PAD : Z := 61.

(** "A-Za-z0-9+/" *)
Definition bintoasc : list Z :=
  [65;  66;  67;  68;  69;  70;  71;  72;  73;  74;  75;  76;  77;  78;  79;  80;
    81;  82;  83;  84;  85;  86;  87;  88;  89;  90;  97;  98;  99; 100; 101; 102;
   103; 104; 105; 106; 107; 108; 109; 110; 111; 112; 113; 114; 115; 116; 117; 118;
   119; 120; 121; 122;  48;  49;  50;  51;  52;  53;  54;  55;  56;  57;  43;  47].

Definition asctobin : list Z :=
  [128; 128; 128; 128; 128; 128; 128; 128; 128; 128; 128; 128; 128; 128; 128; 128;
   128; 128; 128; 128; 128; 128; 128; 128; 128; 128; 128; 128; 128; 128; 128; 128;
   128; 128; 128; 128; 128; 128; 128; 128; 128; 128; 128;  62; 128; 128; 128;  63;
    52;  53;  54;  55;  56;  57;  58;  59;  60;  61; 128; 128; 128; 128; 128; 128;
   128;   0;   1;   2;   3;   4;   5;   6;   7;   8;   9;  10;  11;  12;  13;  14;
    15;  16;  17;  18;  19;  20;  21;  22;  23;  24;  25; 128; 128; 128; 128; 128;
   128;  26;  27;  28;  29;  30;  31;  32;  33;  34;  35;  36;  37;  38;  39;  40;
    41;  42;  43;  44;  45;  46;  47;  48;  49;  50;  51; 128; 128; 128; 128; 128].

Definition ENC (c : Z) : Z := nth (Z.to_nat (c .& 63)) bintoasc 0.

(** One group of up to three bytes, read at [p]. *)
Definition encode (p : list Z) (count : Z) : list Z :=
  let p0 := nth 0 p 0 in let p1 := nth 1 p 0 in let p2 := nth 2 p 0 in
  let c1 := p0 .>> 2 in
  let c2 := ((p0 .<< 4) .& 48) .| ((p1 .>> 4) .& 15) in
  let c3 := ((p1 .<< 2) .& 60) .| ((p2 .>> 6) .& 3) in
  let c4 := p2 .& 63 in
  ENC c1 :: ENC c2 ::
    (if count =? 1 then [PAD; PAD]
     else ENC c3 :: [if count =? 2 then PAD else ENC c4]).

(** The loop over [i]; [fuel] bounds the number of groups. *)
Fixpoint R_EncodePEM_loop (fuel : nat) (block : list Z) (i lastLen blockLen : Z) : list Z :=
  match fuel with
  | O => []
  | S k =>
      if i <? blockLen then
        encode block (if lastLen >=? 3 then 3 else lastLen) ++
        R_EncodePEM_loop k (skipn 3 block) (i + 3) (w32 (lastLen - 3)) blockLen
      else []
  end.

(** The encoded block and its length; [block] is the memory from the block on. *)
Definition R_EncodePEMBlock (block : list Z) (blockLen : Z) : list Z * Z :=
  if blockLen <? 1 then ([], 0)
  else
    let encodedBlock := R_EncodePEM_loop (Z.to_nat blockLen) block 0 blockLen blockLen in
    (encodedBlock, w32 (Z.of_nat (length encodedBlock))).

(** The value of a character, [None] when it is illegal. *)
Definition asc_value (c : Z) : option Z :=
  if negb (c .& 0x80 =? 0) then None
  else
    let v := nth (Z.to_nat c) asctobin 0x80 in
    if negb (v .& 0x80 =? 0) then None else Some v.

(** One group: the four values and the number of bytes it stands for. *)
Definition decode_group (b1 b2 b3 b4 : Z) : option (Z * Z * Z * Z * nat) :=
  let? c1 := asc_value b1 in
  let? c2 := asc_value b2 in
  if b3 =? PAD then
    if negb (b4 =? PAD) then None else Some (c1, c2, 0, 0, 1%nat)
  else
    let? c3 := asc_value b3 in
    if b4 =? PAD then Some (c1, c2, c3, 0, 2%nat)
    else
      let? c4 := asc_value b4 in Some (c1, c2, c3, c4, 3%nat).

(** The three bytes a group writes. *)
Definition group_bytes (c1 c2 c3 c4 : Z) : list Z :=
  [w8 ((c1 .<< 2) .| (c2 .>> 4)); w8 ((c2 .<< 4) .| (c3 .>> 2)); w8 ((c3 .<< 6) .| c4)].

(** The bytes written to [outbuf] and the length, [None] at an illegal character. *)
Fixpoint R_DecodePEM_loop (groups : nat) (inbuf : list Z) (len : nat) (out : list Z)
  : option (list Z * nat) :=
  match groups with
  | O => Some (out, len)
  | S k =>
      let? (c1, c2, c3, c4, n) :=
        decode_group (nth 0 inbuf 0) (nth 1 inbuf 0) (nth 2 inbuf 0) (nth 3 inbuf 0) in
      R_DecodePEM_loop k (skipn 4 inbuf) (len + n) (out ++ group_bytes c1 c2 c3 c4)
  end.

(** Status, bytes written and [*outlength]. *)
Definition R_DecodePEMBlock (inbuf : list Z) (inlength : nat) : Z * list Z * nat :=
  if negb (Nat.eqb (inlength mod 4) 0) then (RE_ENCODING, [], 0%nat)
  else
    match R_DecodePEM_loop (inlength / 4) inbuf 0 [] with
    | None => (RE_ENCODING, [], 0%nat)
    | Some (out, len) => (ID_OK, out, len)
    end.

(** "Man" encodes as "TWFu", "Ma" followed by a zero byte as "TWE=". *)
Example encode_Man : R_EncodePEMBlock [77; 97; 110] 3 = ([84; 87; 70; 117], 4).
Proof. vm_compute. reflexivity. Qed.

Example encode_Ma : R_EncodePEMBlock [77; 97; 0] 2 = ([84; 87; 69; 61], 4).
Proof. vm_compute. reflexivity. Qed.

(** ** Facts by enumeration of the bytes *)

Lemma byte_enum (P : Z -> bool) :
  forallb P (map Z.of_nat (seq 0 256)) = true -> forall x, is_byte x -> P x = true.
Proof.
  rewrite forallb_forall. intros H x Hx. apply H. unfold is_byte in Hx.
  rewrite <- (Z2Nat.id x) by lia. apply in_map, in_seq. lia.
Qed.

Lemma sextet_enum (P : Z -> bool) :
  forallb P (map Z.of_nat (seq 0 64)) = true -> forall x, 0 <= x < 64 -> P x = true.
Proof.
  rewrite forallb_forall. intros H x Hx. apply H.
  rewrite <- (Z2Nat.id x) by lia. apply in_map, in_seq. lia.
Qed.

Lemma ENC_value v : 0 <= v < 64 -> asc_value (ENC v) = Some v /\ ENC v <> PAD.
Proof.
  intros H.
  pose proof (sextet_enum
    (fun v => match asc_value (ENC v) with Some u => (u =? v) && negb (ENC v =? PAD) | None => false end)
    ltac:(vm_compute; reflexivity) v H) as E. cbn beta in E.
  destruct (asc_value (ENC v)) as [u|]; [|discriminate].
  apply andb_true_iff in E. destruct E as [E1 E2]. apply Z.eqb_eq in E1. subst u.
  split; [reflexivity|]. now apply Z.eqb_neq, negb_true_iff.
Qed.

(** The four sextets of three bytes. *)
Lemma encode_sextets x y z : is_byte x -> is_byte y -> is_byte z ->
  let c1 := x .>> 2 in
  let c2 := ((x .<< 4) .& 48) .| ((y .>> 4) .& 15) in
  let c3 := ((y .<< 2) .& 60) .| ((z .>> 6) .& 3) in
  let c4 := z .& 63 in
  c1 = x / 4 /\ c2 = x mod 4 * 16 + y / 16 /\ c3 = y mod 16 * 4 + z / 64 /\ c4 = z mod 64.
Proof.
  intros Hx Hy Hz. cbv zeta.
  pose proof (byte_enum (fun x => (x .>> 2 =? x / 4) && ((x .<< 4) .& 48 =? x mod 4 * 16)
    && ((x .>> 4) .& 15 =? x / 16) && ((x .<< 2) .& 60 =? x mod 16 * 4)
    && ((x .>> 6) .& 3 =? x / 64) && (x .& 63 =? x mod 64)) ltac:(vm_compute; reflexivity)) as E.
  cbn beta in E. pose proof (E x Hx) as Ex. pose proof (E y Hy) as Ey. pose proof (E z Hz) as Ez. clear E.
  rewrite !andb_true_iff, !Z.eqb_eq in Ex, Ey, Ez.
  destruct Ex as (((((-> & ->) & _) & _) & _) & _).
  destruct Ey as (((((_ & _) & ->) & ->) & _) & _).
  destruct Ez as (((((_ & _) & _) & _) & ->) & ->).
  unfold is_byte in *. splits; auto.
  - apply (mul_lor_add 4); Z.div_mod_to_equations; lia.
  - apply (mul_lor_add 2); Z.div_mod_to_equations; lia.
Qed.

(** A group's bytes from sextets that carry them. *)
Lemma group_bytes_spec c1 c2 c3 c4 : 0 <= c1 < 64 -> 0 <= c2 < 64 -> 0 <= c3 < 64 -> 0 <= c4 < 64 ->
  group_bytes c1 c2 c3 c4 = [c1 * 4 + c2 / 16; c2 mod 16 * 16 + c3 / 4; c3 mod 4 * 64 + c4].
Proof.
  intros H1 H2 H3 H4. unfold group_bytes, w8.
  rewrite !(shiftr_div) by lia. change (2 ^ 4) with 16. change (2 ^ 2) with 4.
  assert (0 <= c2 / 16 < 4 /\ 0 <= c3 / 4 < 16) as [B1 B2] by (Z.div_mod_to_equations; lia).
  rewrite !shiftl_lor_add by lia. change (2 ^ 4) with 16. change (2 ^ 2) with 4.
  change (2 ^ 6) with 64. change (2 ^ 8) with 256.
  cons_eq; Z.div_mod_to_equations; lia.
Qed.

(** ** Round trip *)

Lemma group_roundtrip x y z : is_byte x -> is_byte y -> is_byte z ->
  let c1 := x / 4 in let c2 := x mod 4 * 16 + y / 16 in
  let c3 := y mod 16 * 4 + z / 64 in let c4 := z mod 64 in
  0 <= c1 < 64 /\ 0 <= c2 < 64 /\ 0 <= c3 < 64 /\ 0 <= c4 < 64 /\
  group_bytes c1 c2 c3 c4 = [x; y; z] /\
  (exists u, group_bytes c1 c2 c3 0 = [x; y; u]) /\
  (exists u v, group_bytes c1 c2 0 0 = [x; u; v]).
Proof.
  unfold is_byte. intros Hx Hy Hz. cbv zeta.
  assert (0 <= x / 4 < 64 /\ 0 <= x mod 4 * 16 + y / 16 < 64 /\
          0 <= y mod 16 * 4 + z / 64 < 64 /\ 0 <= z mod 64 < 64) as (B1 & B2 & B3 & B4)
    by (Z.div_mod_to_equations; lia).
  splits; try lia; rewrite ?group_bytes_spec by lia.
  - cons_eq; Z.div_mod_to_equations; lia.
  - eexists. cons_eq; Z.div_mod_to_equations; lia.
  - do 2 eexists. cons_eq. Z.div_mod_to_equations; lia.
Qed.

Lemma decode_encode_group p count : is_byte (nth 0 p 0) -> is_byte (nth 1 p 0) -> is_byte (nth 2 p 0) ->
  1 <= count <= 3 ->
  exists b1 b2 b3 b4 c1 c2 c3 c4, encode p count = [b1; b2; b3; b4] /\
    decode_group b1 b2 b3 b4 = Some (c1, c2, c3, c4, Z.to_nat count) /\
    firstn (Z.to_nat count) (group_bytes c1 c2 c3 c4) =
    firstn (Z.to_nat count) [nth 0 p 0; nth 1 p 0; nth 2 p 0].
Proof.
  intros Hx Hy Hz Hc. unfold encode.
  destruct (encode_sextets _ _ _ Hx Hy Hz) as (-> & -> & -> & ->).
  destruct (group_roundtrip _ _ _ Hx Hy Hz) as (B1 & B2 & B3 & B4 & R3 & R2 & R1).
  destruct (ENC_value _ B1) as [E1 _]. destruct (ENC_value _ B2) as [E2 _].
  destruct (ENC_value _ B3) as [E3 N3]. destruct (ENC_value _ B4) as [E4 N4].
  apply Z.eqb_neq in N3, N4.
  assert (count = 1 \/ count = 2 \/ count = 3) as [-> | [-> | ->]] by lia; cbn [Z.eqb Pos.eqb].
  - destruct R1 as (u & v & R1). do 8 eexists. split; [reflexivity|].
    unfold decode_group. rewrite E1, E2. cbn [obind]. split; [reflexivity|]. now rewrite R1.
  - destruct R2 as (u & R2). do 8 eexists. split; [reflexivity|].
    unfold decode_group. rewrite E1, E2, E3, N3. cbn [obind]. split; [reflexivity|]. now rewrite R2.
  - do 8 eexists. split; [reflexivity|].
    unfold decode_group. rewrite E1, E2, E3, E4, N3, N4. cbn [obind]. split; [reflexivity|]. now rewrite R3.
Qed.

Lemma encode_loop_end fuel block i lastLen blockLen : blockLen <= i ->
  R_EncodePEM_loop fuel block i lastLen blockLen = [].
Proof. intros. destruct fuel; cbn [R_EncodePEM_loop]; [reflexivity|]. now rewrite (proj2 (Z.ltb_ge _ _)). Qed.

Lemma encode_loop_spec fuel n block i blockLen len out :
  bytes block -> (n <= fuel)%nat -> (n <= length block)%nat -> 0 <= i ->
  blockLen = i + Z.of_nat n -> is_word blockLen ->
  exists g d, let enc := R_EncodePEM_loop fuel block i (Z.of_nat n) blockLen in
    length enc = (4 * g)%nat /\
    R_DecodePEM_loop g enc len out = Some (out ++ d, (len + n)%nat) /\
    firstn n d = firstn n block /\ (n <= length d)%nat.
Proof.
  revert n block i len out; induction fuel as [|fuel IH]; intros n block i len out Hb Hf Hl Hi E W.
  { replace n with 0%nat by lia. exists 0%nat, []. cbn. rewrite app_nil_r, Nat.add_0_r. auto. }
  destruct (Nat.eq_dec n 0) as [->|Hn].
  { rewrite encode_loop_end by lia. exists 0%nat, []. cbn. rewrite app_nil_r, Nat.add_0_r. auto. }
  cbn [R_EncodePEM_loop]. rewrite (proj2 (Z.ltb_lt i blockLen)) by lia.
  set (count := if Z.of_nat n >=? 3 then 3 else Z.of_nat n).
  assert (Hc : 1 <= count <= 3 /\ Z.to_nat count = Nat.min n 3).
  { unfold count. rewrite Z.geb_leb. destruct (Z.leb_spec 3 (Z.of_nat n)); lia. }
  assert (N : forall k, is_byte (nth k block 0)) by (intros; apply Forall_nth_d; auto with words).
  destruct (decode_encode_group block count (N _) (N _) (N _) (proj1 Hc))
    as (b1 & b2 & b3 & b4 & c1 & c2 & c3 & c4 & Ee & Ed & Eb). destruct Hc as [_ Hc].
  rewrite Hc in Ed, Eb. rewrite Ee.
  set (gb := group_bytes c1 c2 c3 c4) in *. assert (Lgb : length gb = 3%nat) by reflexivity.
  assert (Ef : firstn (Nat.min n 3) [nth 0 block 0; nth 1 block 0; nth 2 block 0] =
               firstn (Nat.min n 3) block).
  { clear -Hl Hn. destruct block as [|x [|y [|z r]]]; cbn [length] in Hl;
      destruct n as [|[|[|n]]]; try lia; rewrite ?(Nat.min_r (S (S (S n))) 3) by lia; reflexivity. }
  rewrite Ef in Eb. clear Ef.
  destruct (Nat.le_gt_cases n 3) as [L3|L3].
  - rewrite encode_loop_end, app_nil_r by lia. exists 1%nat, gb. cbn [length R_DecodePEM_loop nth].
    rewrite Ed. cbn [obind]. rewrite Nat.min_l in * by lia. auto.
  - rewrite w32_small by (unfold is_word in *; lia).
    replace (Z.of_nat n - 3) with (Z.of_nat (n - 3)) by lia.
    destruct (IH (n - 3)%nat (skipn 3 block) (i + 3) (len + 3)%nat (out ++ gb))
      as (g & d & Le & Dd & Fd & Ld); auto with words; try lia; [rewrite length_skipn; lia|].
    exists (S g), (gb ++ d). rewrite Nat.min_r in * by lia.
    rewrite !length_app. splits.
    + cbn [length]. lia.
    + set (rest := R_EncodePEM_loop _ _ _ _ _) in *.
      cbn [R_DecodePEM_loop nth app]. rewrite Ed. cbn [obind skipn]. fold gb. rewrite Dd, app_assoc. do 2 f_equal. lia.
    + rewrite firstn_app, Lgb, firstn_all2 in * by lia. rewrite Fd.
      rewrite Eb, <- firstn_plus. f_equal. lia.
    + lia.
Qed.

(** Decoding the encoding of a block gives the block back, whatever bytes follow it. *)
Lemma PEM_roundtrip block blockLen : bytes block -> (blockLen <= length block)%nat ->
  Z.of_nat blockLen < 2 ^ 32 ->
  let '(enc, encLen) := R_EncodePEMBlock block (Z.of_nat blockLen) in
  exists out, R_DecodePEMBlock enc (length enc) = (ID_OK, out, blockLen) /\
              firstn blockLen out = firstn blockLen block.
Proof.
  intros Hb Hl Hw. unfold R_EncodePEMBlock.
  destruct (Z.ltb_spec (Z.of_nat blockLen) 1) as [C|C].
  { replace blockLen with 0%nat by lia. exists []. auto. }
  rewrite Nat2Z.id.
  destruct (encode_loop_spec blockLen blockLen block 0 (Z.of_nat blockLen) 0 [] Hb)
    as (g & d & Le & Dd & Fd & Ld); try lia; [unfold is_word; lia|].
  cbv zeta. set (enc := R_EncodePEM_loop _ _ _ _ _) in *.
  exists d. unfold R_DecodePEMBlock. rewrite Le, Nat.mul_comm, Nat.Div0.mod_mul, Nat.div_mul by lia.
  cbn [Nat.eqb negb]. rewrite Dd. auto.
Qed.

(** ** Rejection *)

Lemma asc_value_alphabet c v : is_byte c -> asc_value c = Some v -> In c bintoasc.
Proof.
  intros Hc E.
  pose proof (byte_enum (fun c => match asc_value c with
    Some _ => existsb (Z.eqb c) bintoasc | None => true end) ltac:(vm_compute; reflexivity) c Hc) as H.
  cbn beta in H. rewrite E in H. apply existsb_exists in H. destruct H as (x & Hx & Ex).
  apply Z.eqb_eq in Ex. now subst.
Qed.

Definition pem_char (c : Z) : Prop := c = PAD \/ In c bintoasc.

Lemma decode_group_chars b1 b2 b3 b4 r : bytes [b1; b2; b3; b4] ->
  decode_group b1 b2 b3 b4 = Some r -> Forall pem_char [b1; b2; b3; b4] /\ (snd r <= 3)%nat.
Proof.
  intros H. inversion_clear H as [|? ? H1 H0]. inversion_clear H0 as [|? ? H2 H].
  inversion_clear H as [|? ? H3 H0]. inversion_clear H0 as [|? ? H4 _].
  unfold decode_group.
  destruct (asc_value b1) as [c1|] eqn:E1; [|discriminate]. cbn [obind].
  destruct (asc_value b2) as [c2|] eqn:E2; [|discriminate]. cbn [obind].
  pose proof (asc_value_alphabet _ _ H1 E1). pose proof (asc_value_alphabet _ _ H2 E2).
  unfold pem_char.
  destruct (Z.eqb_spec b3 PAD) as [->|_].
  - destruct (Z.eqb_spec b4 PAD) as [->|_]; cbn [negb]; [|discriminate]. intros [= <-].
    split; [repeat (apply Forall_cons; [auto|]); apply Forall_nil|cbn; lia].
  - destruct (asc_value b3) as [c3|] eqn:E3; [|discriminate]. cbn [obind].
    pose proof (asc_value_alphabet _ _ H3 E3).
    destruct (Z.eqb_spec b4 PAD) as [->|_].
    + intros [= <-]. split; [repeat (apply Forall_cons; [auto|]); apply Forall_nil|cbn; lia].
    + destruct (asc_value b4) as [c4|] eqn:E4; [|discriminate]. cbn [obind].
      pose proof (asc_value_alphabet _ _ H4 E4). intros [= <-].
      split; [repeat (apply Forall_cons; [auto|]); apply Forall_nil|cbn; lia].
Qed.

Lemma decode_loop_chars g inbuf len out o l : bytes inbuf -> length inbuf = (4 * g)%nat ->
  R_DecodePEM_loop g inbuf len out = Some (o, l) ->
  Forall pem_char inbuf /\ length o = (length out + 3 * g)%nat /\ (l <= len + 3 * g)%nat.
Proof.
  revert inbuf len out; induction g as [|g IH]; intros inbuf len out Hb L; cbn [R_DecodePEM_loop].
  { intros [= <- <-]. destruct inbuf; [|cbn in L; lia]. splits; auto; lia. }
  destruct inbuf as [|b1 [|b2 [|b3 [|b4 r]]]]; cbn [length] in L; try lia. cbn [nth skipn].
  change (b1 :: b2 :: b3 :: b4 :: r) with ([b1; b2; b3; b4] ++ r) in *.
  apply Forall_app in Hb. destruct Hb as [Hg Hr].
  destruct (decode_group b1 b2 b3 b4) as [[[[[c1 c2] c3] c4] n]|] eqn:E; [|discriminate].
  cbn [obind]. intros D. destruct (decode_group_chars _ _ _ _ _ Hg E) as [P Hn]. cbn [snd] in Hn.
  destruct (IH _ _ _ Hr ltac:(lia) D) as (P' & Lo & Hl). rewrite length_app in Lo. cbn [length group_bytes] in Lo.
  splits; [apply Forall_app; auto|lia|lia].
Qed.

(** Accepted input: whole groups of alphabet characters or padding, and an announced
    length within the bytes that were written. *)
Lemma R_DecodePEMBlock_sound inbuf out len : bytes inbuf ->
  R_DecodePEMBlock inbuf (length inbuf) = (ID_OK, out, len) ->
  (length inbuf mod 4 = 0)%nat /\ Forall pem_char inbuf /\
  length out = (3 * (length inbuf / 4))%nat /\ (len <= length out)%nat.
Proof.
  intros Hb. unfold R_DecodePEMBlock.
  destruct (Nat.eqb_spec (length inbuf mod 4) 0) as [M|M]; cbn [negb]; [|intros [=]].
  destruct (R_DecodePEM_loop _ _ _ _) as [[o l]|] eqn:D; [|intros [=]]. intros [= <- <-].
  pose proof (Nat.div_mod_eq (length inbuf) 4).
  destruct (decode_loop_chars (length inbuf / 4) _ _ _ _ _ Hb ltac:(lia) D) as (P & Lo & Hl).
  cbn [length] in Lo. splits; auto; lia.
Qed.

(** The bytes after the block leak into the encoding, which the comment of [encode]
    rules out ("the 1 or two extras must be zeros"). *)
Lemma PEM_overread :
  R_EncodePEMBlock [77; 0; 0] 1 = ([84; 81; 61; 61], 4) /\
  R_EncodePEMBlock [77; 255; 255] 1 = ([84; 102; 61; 61], 4).
Proof. split; vm_compute; reflexivity. Qed.

(** ** The claims *)

(** Decoding what [R_EncodePEMBlock] wrote for a block of any length below 2^32 succeeds,
    announces the length of the block and gives its bytes back, whatever bytes follow the
    block in memory. *)
Theorem PEM_encode_decode (block : list Z) (blockLen : nat) : bytes block -> (blockLen <= length block)%nat ->
  Z.of_nat blockLen < 2 ^ 32 ->
  let '(enc, encLen) := R_EncodePEMBlock block (Z.of_nat blockLen) in
  exists out, R_DecodePEMBlock enc (length enc) = (ID_OK, out, blockLen) /\
              firstn blockLen out = firstn blockLen block.
Proof. apply PEM_roundtrip. Qed.

Lemma PEM_encode_decode_witness :
  let '(enc, encLen) := R_EncodePEMBlock [77; 97; 110; 255; 128] (Z.of_nat 4) in
  exists out, R_DecodePEMBlock enc (length enc) = (ID_OK, out, 4%nat) /\
              firstn 4 out = firstn 4 [77; 97; 110; 255; 128].
Proof. apply (PEM_encode_decode [77; 97; 110; 255; 128] 4); [check_bytes|cbn; lia|reflexivity]. Defined.

(** The decoder accepts only whole groups of alphabet characters and padding, and the
    length it announces is within the bytes it wrote. *)
Theorem R_DecodePEMBlock_accepts (inbuf out : list Z) (len : nat) : bytes inbuf ->
  R_DecodePEMBlock inbuf (length inbuf) = (ID_OK, out, len) ->
  (length inbuf mod 4 = 0)%nat /\ Forall pem_char inbuf /\
  length out = (3 * (length inbuf / 4))%nat /\ (len <= length out)%nat.
Proof. apply R_DecodePEMBlock_sound. Qed.

Lemma R_DecodePEMBlock_accepts_witness :
  (length [84; 81; 61; 61] mod 4 = 0)%nat /\ Forall pem_char [84; 81; 61; 61] /\
  length [77; 0; 0] = (3 * (length [84; 81; 61; 61] / 4))%nat /\ (1 <= length [77; 0; 0])%nat.
Proof. apply (R_DecodePEMBlock_accepts [84; 81; 61; 61] [77; 0; 0] 1); [check_bytes|reflexivity]. Defined.
