(* ===== verification/Random.v ===== *)
(** * Random: the random object (src/QBase/RSAEuro/r_random.c)

    The object is a 16-byte state to which the MD5 digests of seed blocks are
    added, and from which output blocks are drawn as MD5 digests of the state
    followed by an increment. [clock], [time] and [gmtime] are parameters: the
    readings the C library returns. The theorems: seeding adds digests modulo
    2^128 and counts the bytes still required, generation refuses an unseeded
    object and otherwise delivers one byte stream however it is cut, and the
    increment is a counter of period 2^128. *)

From S2P Require Import Prelude Rsaeuro StdLib MDBuffer MD5.

(** ** Definitions *)

Definition RANDOM_BYTES_RQ : Z := 256.
Definition RANDOM_BYTES_RQINT : Z := 512.
Definition MIX_CNT : nat := 16.

(** A context on the stack; its contents do not matter. *)
Definition stack_MD5 : MD_CTX := mkMD (repeat 0 4) 0 0 (repeat 0 64).

(** [MD5Init(&context); MD5Update(&context, block, len); MD5Final(digest, &context);] *)
Definition MD5_once (block : list Z) (len : nat) : list Z :=
  fst (MD5Final (MD5Update (MD5Init stack_MD5) block len)).

Definition R_RandomInit (random : R_RANDOM_STRUCT) : Z * R_RANDOM_STRUCT :=
  (ID_OK, mkRandom RANDOM_BYTES_RQ (R_memset (rstate random) 0 16) 0 (output random)).

(** The loop over [i = 16], ..., 1 that adds the digest to the state; [j] is the carry. *)
Fixpoint add_digest (state digest : list Z) : list Z * Z :=
  match state, digest with
  | s :: state, d :: digest =>
      let '(r, j) := add_digest state digest in
      let j := w16 (j + (s + d)) in (w8 j :: r, j .>> 8)
  | _, _ => ([], 0)
  end.

Definition R_RandomUpdate (random : R_RANDOM_STRUCT) (block : list Z) (len : nat)
  : Z * R_RANDOM_STRUCT :=
  let digest := MD5_once block len in
  let state := fst (add_digest (rstate random) digest) in
  let needed := if bytesNeeded random <? Z.of_nat len then 0 else bytesNeeded random - Z.of_nat len in
  (ID_OK, mkRandom needed state (outputAvailable random) (output random)).

Definition R_GetRandomBytesNeeded (random : R_RANDOM_STRUCT) : Z := bytesNeeded random.

(** [for(i = 16; i > 0; i--) if(state[i-1]++) break;], with the answer whether the
    loop went past the first byte of the list. *)
Fixpoint increment (state : list Z) : list Z * bool :=
  match state with
  | [] => ([], true)
  | s :: state =>
      let '(r, more) := increment state in
      if more then (w8 (s + 1) :: r, s =? 0) else (s :: r, false)
  end.

(** The loop of [R_GenerateBytes]: [fuel] bounds the number of refills. It answers the
    bytes written and the state, output and available count it leaves. *)
Fixpoint R_Generate_loop (fuel : nat) (state out : list Z) (avail len : nat)
  : option (list Z * list Z * list Z * nat) :=
  if (avail <? len)%nat then
    match fuel with
    | O => None
    | S fuel =>
        let head := cells avail (skipn (16 - avail) out) in
        let? (block, state, out, avail) :=
          R_Generate_loop fuel (fst (increment state)) (MD5_once state 16) 16 (len - avail) in
        Some (head ++ block, state, out, avail)
    end
  else Some (cells len (skipn (16 - avail) out), state, out, (avail - len)%nat).

(** Status, block and object; [None] if the fuel does not suffice. *)
Definition R_GenerateBytes (len : nat) (random : R_RANDOM_STRUCT)
  : option (Z * list Z * R_RANDOM_STRUCT) :=
  if negb (bytesNeeded random =? 0) then Some (RE_NEED_RANDOM, [], random)
  else
    let? (block, state, out, avail) :=
      R_Generate_loop len (rstate random) (output random) (outputAvailable random) len in
    Some (ID_OK, block, mkRandom (bytesNeeded random) state avail out).

Definition R_RandomFinal (random : R_RANDOM_STRUCT) : R_RANDOM_STRUCT :=
  mkRandom 0 (repeat 0 16) 0 (repeat 0 16).

(** [subrand]: the static [idums] is passed and returned. *)
Definition NITER : nat := 4.
Definition sub_c1 : list Z := [0xbaa96887; 0x1e17d32c; 0x03dcbc3c; 0xf033d1b2].
Definition sub_c2 : list Z := [0x4bf03b58; 0xe8740fc3; 0x69aac5a6; 0x55a7ca46].

Fixpoint subrand_loop (n i : nat) (irword lword : Z) : Z :=
  match n with
  | O => irword
  | S n =>
      let iswap := irword in
      let ia := irword .^ nth i sub_c1 0 in
      let itmpl := ia .& 0xffff in
      let itmph := ia .>> 16 in
      let ib := w32 (w32 (itmpl * itmpl) + not32 (w32 (itmph * itmph))) in
      let ia := (ib .>> 16) .| w32 ((ib .& 0xffff) .<< 16) in
      let irword := lword .^ w32 ((ia .^ nth i sub_c2 0) + itmpl * itmph) in
      subrand_loop n (S i) irword iswap
  end.

Definition subrand (idum idums : Z) : Z * Z :=
  let '(idum, idums) := if idum <? 0 then (1, - idum) else (idum, idums) in
  (subrand_loop NITER 0 (w32 idum) (w32 idums), idums).

(** The readings of one pass of [R_RandomCreate]: [time], and the memory of
    [*gmtime] and of [clock()]. *)
Record readings := mkReadings { rd_time : Z; rd_gmt : list Z; rd_clock : list Z }.

Section Clock.
Context (read : nat -> readings).

(** [while(random->bytesNeeded)]; the pass number selects the readings. *)
Fixpoint R_RandomCreate_loop (fuel pass : nat) (idums : Z) (random : R_RANDOM_STRUCT)
  : option R_RANDOM_STRUCT :=
  if bytesNeeded random =? 0 then Some random
  else
    match fuel with
    | O => None
    | S fuel =>
        let r := read pass in
        let '(temp, idums) := subrand (rd_time r) idums in
        let '(_, random) := R_RandomUpdate random (Encode_word temp) 4 in
        let '(_, random) := R_RandomUpdate random (rd_gmt r) (length (rd_gmt r)) in
        let '(_, random) := R_RandomUpdate random (rd_clock r) (length (rd_clock r)) in
        R_RandomCreate_loop fuel (S pass) idums random
    end.

Definition R_RandomCreate (idums : Z) (random : R_RANDOM_STRUCT) : option R_RANDOM_STRUCT :=
  R_RandomCreate_loop 128 0 idums
    (mkRandom RANDOM_BYTES_RQINT (R_memset (rstate random) 0 16) 0 (output random)).
End Clock.

(** [R_RandomMix]: the readings of [clock()] and [time(NULL)] of pass [i]. *)
Fixpoint R_RandomMix_loop (n i : nat) (clock time : nat -> Z) (state : list Z) : list Z :=
  match n with
  | O => state
  | S n =>
      let state := upd state i (nth i state 0 .^ w8 (clock i)) in
      let state := upd state (15 - i) (nth (15 - i) state 0 .^ w8 (time i)) in
      R_RandomMix_loop n (S i) clock time state
  end.

Definition R_RandomMix (clock time : nat -> Z) (random : R_RANDOM_STRUCT) : R_RANDOM_STRUCT :=
  let state := R_RandomMix_loop MIX_CNT 0 clock time (rstate random) in
  mkRandom (bytesNeeded random) state 16 (MD5_once state 16).

(** ** Seeding *)

Lemma MD5_once_digest block : Z.of_nat (length block) < 2 ^ 32 - 63 ->
  MD5_once block (length block) = MD5_digest block.
Proof.
  intros H. unfold MD5_once.
  pose proof (MD5_stream_digest stack_MD5 [block] eq_refl ltac:(auto)) as E.
  cbn [fold_left concat] in E. rewrite app_nil_r in E. exact E.
Qed.

Lemma length_MD5_once block len : length (MD5_once block len) = 16%nat.
Proof. apply MD5Final_bytes. Qed.

Lemma bytes_MD5_once block len : bytes (MD5_once block len).
Proof. apply MD5Final_bytes. Qed.

Lemma add_digest_spec s d : bytes s -> bytes d -> length s = length d ->
  let '(r, j) := add_digest s d in
  length r = length s /\ bytes r /\ 0 <= j <= 1 /\
  be r + Pn (length s) * j = be s + be d.
Proof.
  intros Hs. revert d; induction Hs as [|x s Hx Hs IH]; intros d Hd L.
  { destruct d; [|discriminate]. cbn. splits; auto; lia. }
  destruct Hd as [|y d Hy Hd]; [discriminate|]. injection L as L. cbn [add_digest].
  specialize (IH d Hd L). destruct (add_digest s d) as [r j]. destruct IH as (Lr & Br & Hj & E).
  unfold is_byte in *. assert (Ej : w16 (j + (x + y)) = j + (x + y)) by (apply Z.mod_small; lia).
  rewrite Ej, shiftr_div by lia. unfold w8.
  assert (0 <= (j + (x + y)) / 2 ^ 8 <= 1) by (Z.div_mod_to_equations; lia).
  cbn [length]. rewrite !be_cons, Pn_S, Lr, <- L. splits; auto; try lia.
  - constructor; [apply w8_byte|auto].
  - pose proof (f_equal (Z.mul (Pn (length s))) (Z.div_mod (j + (x + y)) (2 ^ 8) ltac:(lia))). lia.
Qed.

(** Seeding adds the digest of the block to the state modulo 2^128, and counts the
    block against the bytes required. *)
Lemma R_RandomUpdate_spec random block : bytes (rstate random) -> length (rstate random) = 16%nat ->
  Z.of_nat (length block) < 2 ^ 32 - 63 -> 0 <= bytesNeeded random ->
  let '(status, r) := R_RandomUpdate random block (length block) in
  status = ID_OK /\ bytes (rstate r) /\ length (rstate r) = 16%nat /\
  be (rstate r) = (be (rstate random) + be (MD5_digest block)) mod 2 ^ 128 /\
  bytesNeeded r = Z.max 0 (bytesNeeded random - Z.of_nat (length block)) /\
  output r = output random /\ outputAvailable r = outputAvailable random.
Proof.
  intros Hb Hl Hn H0. unfold R_RandomUpdate. rewrite MD5_once_digest by auto.
  assert (Ld : length (MD5_digest block) = 16%nat) by apply length_Encode.
  pose proof (add_digest_spec (rstate random) (MD5_digest block) Hb ltac:(apply bytes_Encode)
    ltac:(lia)) as S1.
  destruct (add_digest _ _) as [r j]. destruct S1 as (L & B & Hj & E).
  cbn [fst rstate bytesNeeded output outputAvailable]. splits; auto; [lia| |].
  - pose proof (be_bound r B) as Hr. rewrite L, Hl in Hr. rewrite Hl in E. change (Pn 16) with (2 ^ 128) in *.
    apply Z.mod_unique_pos with j; lia.
  - destruct (Z.ltb_spec (bytesNeeded random) (Z.of_nat (length block))); lia.
Qed.

(** An object is refused until enough seed was mixed in. *)
Lemma R_GenerateBytes_unseeded len random : bytesNeeded random <> 0 ->
  R_GenerateBytes len random = Some (RE_NEED_RANDOM, [], random).
Proof. intros H. unfold R_GenerateBytes. apply Z.eqb_neq in H. now rewrite H. Qed.

(** ** The counter *)

(** Each byte of the state stands for the digit one below it. *)
Definition digit (b : Z) : Z := w8 (b - 1).

Lemma increment_spec s : bytes s ->
  let '(r, more) := increment s in
  length r = length s /\ bytes r /\
  be (map digit r) + Pn (length s) * Z.b2z more = be (map digit s) + 1.
Proof.
  induction 1 as [|x s Hx Hs IH]; cbn [increment]; [cbn; auto|].
  destruct (increment s) as [r more]. destruct IH as (L & B & E).
  destruct more; cbn [length map]; rewrite !be_cons, !length_map, ?Pn_S, ?L; cbn [Z.b2z] in *.
  - splits; [lia|constructor; auto with words|].
    unfold digit, w8, is_byte in *.
    destruct (Z.eqb_spec x 0) as [->|Hne]; cbn [Z.b2z]; [change ((0 + 1) mod 2 ^ 8 - 1) with 0; change ((0 - 1) mod 2 ^ 8) with 255; change (0 mod 2 ^ 8) with 0; lia|].
    assert (Ex : ((x + 1) mod 2 ^ 8 - 1) mod 2 ^ 8 = (x - 1) mod 2 ^ 8 + 1).
    { rewrite (Z.mod_small (x - 1)) by lia. rewrite Zminus_mod_idemp_l, Z.mod_small by lia. lia. }
    rewrite Ex. lia.
  - splits; [lia|constructor; auto|]. lia.
Qed.

(** The increment of the state is a step of a counter modulo 2^128. *)
Lemma increment_counter s : bytes s -> length s = 16%nat ->
  let r := fst (increment s) in
  bytes r /\ length r = 16%nat /\ be (map digit r) = (be (map digit s) + 1) mod 2 ^ 128.
Proof.
  intros Hb Hl. pose proof (increment_spec s Hb) as H. destruct (increment s) as [r more].
  destruct H as (L & B & E). cbn [fst]. splits; [auto|lia|].
  assert (Bd : bytes (map digit r)) by (apply Forall_map, Forall_forall; intros; apply w8_byte).
  pose proof (be_bound _ Bd) as Hr. rewrite length_map, L, Hl in Hr. rewrite Hl in E.
  change (Pn 16) with (2 ^ 128) in *. apply Z.mod_unique_pos with (Z.b2z more); lia.
Qed.

(** ** Generation *)

Lemma R_Generate_loop_total fuel state out avail len :
  (avail <= 16)%nat -> length out = 16%nat -> (len <= avail + 16 * fuel)%nat ->
  exists block state' out' avail',
    R_Generate_loop fuel state out avail len = Some (block, state', out', avail') /\
    length block = len /\ length out' = 16%nat /\ (avail' <= 16)%nat.
Proof.
  revert state out avail len; induction fuel as [|fuel IH]; intros state out avail len Ha Lo Hf;
    cbn [R_Generate_loop]; destruct (Nat.ltb_spec avail len) as [C|C]; try lia.
  - do 4 eexists. split; [reflexivity|]. rewrite length_cells. splits; auto; lia.
  - destruct (IH (fst (increment state)) (MD5_once state 16) 16%nat (len - avail)%nat)
      as (b & s & o & a & -> & Lb & Lo' & Ha'); auto using length_MD5_once; try lia.
    cbn [obind]. do 4 eexists. split; [reflexivity|].
    rewrite length_app, length_cells, Lb. splits; auto; lia.
  - do 4 eexists. split; [reflexivity|]. rewrite length_cells. splits; auto; lia.
Qed.

(** More fuel does not change the result. *)
Lemma R_Generate_loop_fuel f1 f2 state out avail len r : (f1 <= f2)%nat ->
  R_Generate_loop f1 state out avail len = Some r -> R_Generate_loop f2 state out avail len = Some r.
Proof.
  revert f2 state out avail len r; induction f1 as [|f1 IH]; intros f2 state out avail len r Hle;
    destruct f2 as [|f2]; try lia; cbn [R_Generate_loop]; destruct (avail <? len)%nat; auto; try discriminate.
  intros H. destruct (R_Generate_loop f1 _ _ _ _) as [x|] eqn:E; [|discriminate].
  now rewrite (IH f2 _ _ _ _ x ltac:(lia) E).
Qed.

Lemma R_Generate_loop_eq fuel state out avail len :
  R_Generate_loop fuel state out avail len =
  if (avail <? len)%nat then
    match fuel with
    | O => None
    | S fuel =>
        let? (block, state', out', avail') :=
          R_Generate_loop fuel (fst (increment state)) (MD5_once state 16) 16 (len - avail) in
        Some (cells avail (skipn (16 - avail) out) ++ block, state', out', avail')
    end
  else Some (cells len (skipn (16 - avail) out), state, out, (avail - len)%nat).
Proof. destruct fuel; reflexivity. Qed.

(** Two requests deliver the bytes of their sum. *)
Lemma R_Generate_loop_split f g state out avail a b ba s1 o1 v1 bb s2 o2 v2 :
  (avail <= 16)%nat ->
  R_Generate_loop f state out avail a = Some (ba, s1, o1, v1) ->
  R_Generate_loop g s1 o1 v1 b = Some (bb, s2, o2, v2) ->
  R_Generate_loop (f + g) state out avail (a + b) = Some (ba ++ bb, s2, o2, v2).
Proof.
  intros Ha H1 H2. revert state out avail a ba Ha H1.
  induction f as [|f IH]; intros state out avail a ba Ha H1; rewrite R_Generate_loop_eq in H1;
    destruct (Nat.ltb_spec avail a) as [C|C]; try discriminate.
  2:{ rewrite R_Generate_loop_eq, (proj2 (Nat.ltb_lt avail (a + b))) by lia. cbn [plus].
      destruct (R_Generate_loop f _ _ 16 (a - avail)) as [[[[b1 s1'] o1'] v1']|] eqn:E; [|discriminate].
      cbn [obind] in H1. injection H1 as <- -> -> ->.
      replace (a + b - avail)%nat with (a - avail + b)%nat by lia.
      rewrite (IH _ _ 16%nat _ _ ltac:(lia) E). cbn [obind]. now rewrite <- app_assoc. }
  all: injection H1 as <- -> -> <-; rewrite R_Generate_loop_eq in H2 |- *.
  all: replace (skipn (16 - (avail - a)) o1) with (skipn a (skipn (16 - avail) o1)) in H2
         by (rewrite skipn_skipn; f_equal; lia).
  all: destruct (Nat.ltb_spec (avail - a) b) as [D|D].
  all: try (rewrite (proj2 (Nat.ltb_ge avail (a + b))) by lia; injection H2 as <- <- <- <-;
            rewrite cells_plus, Nat.sub_add_distr; reflexivity).
  all: rewrite (proj2 (Nat.ltb_lt avail (a + b))) by lia; destruct g as [|g]; [discriminate|].
  all: destruct (R_Generate_loop g _ _ 16 _) as [[[[b2 s2'] o2'] v2']|] eqn:E; [|discriminate];
       cbn [obind] in H2; injection H2 as <- -> -> ->.
  all: replace (b - (avail - a))%nat with (a + b - avail)%nat in E by lia.
  1: cbn [plus]. 2: rewrite <- plus_n_Sm; cbn [plus]; apply (R_Generate_loop_fuel g (S f + g)) in E; [|lia]; cbn [plus] in E.
  all: rewrite E; cbn [obind]; do 4 f_equal; rewrite app_assoc, <- cells_plus; f_equal; f_equal; lia.
Qed.

(** Bytes come out when the output block holds bytes. *)
Lemma R_Generate_loop_bytes fuel state out avail len b s o a : bytes out ->
  R_Generate_loop fuel state out avail len = Some (b, s, o, a) -> bytes b /\ bytes o.
Proof.
  revert state out avail len b s o a; induction fuel as [|fuel IH]; intros state out avail len b s o a Bo;
    rewrite R_Generate_loop_eq; destruct (avail <? len)%nat; try discriminate.
  - intros [= <- <- <- <-]. auto with words.
  - destruct (R_Generate_loop fuel _ _ 16 _) as [[[[b1 s1] o1] a1]|] eqn:E; [|discriminate].
    cbn [obind]. intros [= <- <- <- <-].
    destruct (IH _ _ _ _ _ _ _ _ (bytes_MD5_once state 16) E). split; [|auto].
    apply Forall_app. auto with words.
  - intros [= <- <- <- <-]. auto with words.
Qed.

Definition well_formed (r : R_RANDOM_STRUCT) : Prop :=
  (outputAvailable r <= 16)%nat /\ length (output r) = 16%nat.

(** A seeded object always delivers the bytes requested. *)
Lemma R_GenerateBytes_total len r : bytesNeeded r = 0 -> well_formed r ->
  exists block r', R_GenerateBytes len r = Some (ID_OK, block, r') /\
    length block = len /\ bytesNeeded r' = 0 /\ well_formed r'.
Proof.
  intros H0 [Ha Lo]. unfold R_GenerateBytes. rewrite H0. cbn [Z.eqb negb].
  destruct (R_Generate_loop_total len (rstate r) (output r) (outputAvailable r) len Ha Lo ltac:(lia))
    as (b & s & o & a & -> & Lb & Lo' & Ha').
  cbn [obind]. do 2 eexists. split; [reflexivity|]. unfold well_formed. auto.
Qed.

Lemma R_GenerateBytes_bytes len r block r' : bytes (output r) ->
  R_GenerateBytes len r = Some (ID_OK, block, r') -> bytes block /\ bytes (output r').
Proof.
  intros Ho. unfold R_GenerateBytes. destruct (negb _); [intros [= <- <-]; auto|].
  destruct (R_Generate_loop _ _ _ _ _) as [[[[b s] o] v]|] eqn:E; [|discriminate].
  cbn [obind]. intros [= <- <-]. exact (R_Generate_loop_bytes _ _ _ _ _ _ _ _ _ Ho E).
Qed.

(** The output is one stream: cutting a request in two changes nothing. *)
Lemma R_GenerateBytes_stream a b r ba r1 bb r2 : well_formed r -> bytesNeeded r = 0 ->
  R_GenerateBytes a r = Some (ID_OK, ba, r1) ->
  R_GenerateBytes b r1 = Some (ID_OK, bb, r2) ->
  R_GenerateBytes (a + b) r = Some (ID_OK, ba ++ bb, r2).
Proof.
  intros [Ha Lo] H0. unfold R_GenerateBytes at 1 3. rewrite H0. cbn [Z.eqb negb].
  destruct (R_Generate_loop a _ _ _ a) as [[[[b1 s1] o1] v1]|] eqn:E1; [|discriminate].
  cbn [obind]. intros [= <- <-]. unfold R_GenerateBytes. cbn [bytesNeeded rstate output outputAvailable].
  destruct (R_Generate_loop b s1 _ _ b) as [[[[b2 s2] o2] v2]|] eqn:E2; [|discriminate].
  cbn [obind Z.eqb negb]. intros [= <- <-].
  now rewrite (R_Generate_loop_split a b _ _ _ a b _ _ _ _ _ _ _ _ Ha E1 E2).
Qed.

(** ** Creation *)

Lemma needed_update random block len : 0 <= bytesNeeded random ->
  bytesNeeded (snd (R_RandomUpdate random block len)) =
  Z.max 0 (bytesNeeded random - Z.of_nat len).
Proof.
  intros H. cbn. destruct (Z.ltb_spec (bytesNeeded random) (Z.of_nat len)); lia.
Qed.

(** The seeding loop ends with an object that is ready, whatever the clocks say. *)
Lemma R_RandomCreate_loop_total read fuel pass idums random : 0 <= bytesNeeded random ->
  bytesNeeded random <= 4 * Z.of_nat fuel ->
  exists r, R_RandomCreate_loop read fuel pass idums random = Some r /\ bytesNeeded r = 0 /\
            (well_formed random -> well_formed r).
Proof.
  revert pass idums random; induction fuel as [|fuel IH]; intros pass idums random H0 H;
    cbn [R_RandomCreate_loop]; destruct (Z.eqb_spec (bytesNeeded random) 0) as [E|E]; try lia;
    try (exists random; auto; fail).
  destruct (subrand _ _) as [temp idums'].
  set (r1 := snd (R_RandomUpdate random (Encode_word temp) 4)).
  set (r2 := snd (R_RandomUpdate r1 (rd_gmt (read pass)) (length (rd_gmt (read pass))))).
  set (r3 := snd (R_RandomUpdate r2 (rd_clock (read pass)) (length (rd_clock (read pass))))).
  assert (N1 : bytesNeeded r1 = Z.max 0 (bytesNeeded random - 4)) by (apply needed_update; lia).
  assert (N2 : 0 <= bytesNeeded r2 <= bytesNeeded r1) by (unfold r2; rewrite needed_update; lia).
  assert (N3 : 0 <= bytesNeeded r3 <= bytesNeeded r2) by (unfold r3; rewrite needed_update; lia).
  destruct (IH (S pass) idums' r3) as (r & E' & Z' & W); try lia.
  exists r. split; [exact E'|]. split; [exact Z'|]. intros Hw. apply W. exact Hw.
Qed.

Lemma R_RandomCreate_total read idums random : length (output random) = 16%nat ->
  exists r, R_RandomCreate read idums random = Some r /\ bytesNeeded r = 0 /\ well_formed r.
Proof.
  intros L. unfold R_RandomCreate, RANDOM_BYTES_RQINT.
  destruct (R_RandomCreate_loop_total read 128 0 idums
    (mkRandom 512 (R_memset (rstate random) 0 16) 0 (output random))) as (r & E & Z0 & W);
    cbn [bytesNeeded]; try lia.
  exists r. splits; auto. apply W. unfold well_formed. cbn. lia.
Qed.

(** ** The claims *)

(** The seeding of a new random structure with a list of blocks. *)
Definition seed_with (random : R_RANDOM_STRUCT) (blocks : list (list Z)) : R_RANDOM_STRUCT :=
  fold_left (fun r b => snd (R_RandomUpdate r b (length b))) blocks (snd (R_RandomInit random)).

Definition sum (l : list Z) : Z := fold_right Z.add 0 l.

Lemma seed_loop blocks r : bytes (rstate r) -> length (rstate r) = 16%nat -> 0 <= bytesNeeded r ->
  Forall (fun b => Z.of_nat (length b) < 2 ^ 32 - 63) blocks ->
  let r' := fold_left (fun r b => snd (R_RandomUpdate r b (length b))) blocks r in
  be (rstate r') = (be (rstate r) + sum (map (fun b => be (MD5_digest b)) blocks)) mod 2 ^ 128 /\
  bytesNeeded r' = Z.max 0 (bytesNeeded r - sum (map (fun b => Z.of_nat (length b)) blocks)).
Proof.
  intros Hb Hl H0 HB. revert r Hb Hl H0; induction HB as [|x l Hx _ IH]; intros r Hb Hl H0.
  { unfold sum. cbn [fold_left map fold_right]. rewrite Z.add_0_r, Z.sub_0_r. split; [|lia].
    symmetry. apply Z.mod_small. pose proof (be_bound _ Hb) as HB. rewrite Hl in HB. exact HB. }
  cbn [fold_left map]. change (sum (?a :: ?l)) with (a + sum l).
  pose proof (R_RandomUpdate_spec r x Hb Hl Hx H0) as S.
  destruct (R_RandomUpdate r x (length x)) as [st r1]. destruct S as (_ & B1 & L1 & V1 & N1 & _). cbn [snd].
  destruct (IH r1 B1 L1 ltac:(lia)) as [E1 E2]. split.
  - rewrite E1, V1, Z.add_mod_idemp_l by lia. f_equal. unfold sum. cbn [fold_right]. lia.
  - rewrite E2, N1. assert (0 <= sum (map (fun b => Z.of_nat (length b)) l))
      by (clear; unfold sum; induction l; cbn; lia).
    unfold sum in *. cbn [fold_right]. lia.
Qed.

(** Seeding.  After initialisation and any sequence of updates the state is the sum
    modulo 2^128 of the MD5 digests of the blocks, so their order does not matter, and the
    structure asks for 256 bytes less what it was given. *)
Theorem R_RandomUpdate_seeds (random : R_RANDOM_STRUCT) (blocks : list (list Z)) :
  length (rstate random) = 16%nat -> Forall (fun b => Z.of_nat (length b) < 2 ^ 32 - 63) blocks ->
  be (rstate (seed_with random blocks)) = sum (map (fun b => be (MD5_digest b)) blocks) mod 2 ^ 128 /\
  R_GetRandomBytesNeeded (seed_with random blocks) =
    Z.max 0 (256 - sum (map (fun b => Z.of_nat (length b)) blocks)).
Proof.
  intros L H. unfold seed_with, R_RandomInit, R_GetRandomBytesNeeded. cbn [snd].
  assert (E0 : R_memset (rstate random) 0 16 = repeat 0 16).
  { destruct random as [n s a o]. cbn [rstate] in *.
    do 16 (destruct s as [|? s]; [discriminate|]). destruct s; [reflexivity|discriminate]. }
  rewrite E0. apply (seed_loop blocks (mkRandom RANDOM_BYTES_RQ (repeat 0 16) 0 (output random)));
    [check_bytes|reflexivity|vm_compute; discriminate|exact H].
Qed.

Lemma R_RandomUpdate_seeds_witness :
  let r := mkRandom 9 (repeat 3 16) 1 (repeat 4 16) in let blocks := [[1; 2; 3]; repeat 7 300] in
  be (rstate (seed_with r blocks)) = sum (map (fun b => be (MD5_digest b)) blocks) mod 2 ^ 128 /\
  R_GetRandomBytesNeeded (seed_with r blocks) = Z.max 0 (256 - sum (map (fun b => Z.of_nat (length b)) blocks)).
Proof.
  apply (R_RandomUpdate_seeds (mkRandom 9 (repeat 3 16) 1 (repeat 4 16)) [[1; 2; 3]; repeat 7 300] eq_refl).
  repeat (apply Forall_cons; [reflexivity|]). apply Forall_nil.
Defined.

(** Output.  A seeded structure gives any number of bytes and stays ready; asking for
    [a] bytes and then for [b] gives the same bytes, and leaves the same structure, as asking
    for [a + b] at once; an unseeded one gives [RE_NEED_RANDOM] and nothing. *)
Theorem R_GenerateBytes_output (a b : nat) (r : R_RANDOM_STRUCT) : well_formed r -> bytes (output r) ->
  if bytesNeeded r =? 0 then
    exists ba r1 bb r2,
      R_GenerateBytes a r = Some (ID_OK, ba, r1) /\ R_GenerateBytes b r1 = Some (ID_OK, bb, r2) /\
      R_GenerateBytes (a + b) r = Some (ID_OK, ba ++ bb, r2) /\
      length ba = a /\ length bb = b /\ bytes (ba ++ bb) /\ bytesNeeded r2 = 0 /\ well_formed r2
  else R_GenerateBytes a r = Some (RE_NEED_RANDOM, [], r).
Proof.
  intros W Bo. destruct (Z.eqb_spec (bytesNeeded r) 0) as [H0|H0]; [|now apply R_GenerateBytes_unseeded].
  destruct (R_GenerateBytes_total a r H0 W) as (ba & r1 & E1 & L1 & H1 & W1).
  destruct (R_GenerateBytes_total b r1 H1 W1) as (bb & r2 & E2 & L2 & H2 & W2).
  destruct (R_GenerateBytes_bytes _ _ _ _ Bo E1) as [B1 Bo1].
  destruct (R_GenerateBytes_bytes _ _ _ _ Bo1 E2) as [B2 _].
  exists ba, r1, bb, r2. splits; auto; [now apply (R_GenerateBytes_stream a b r ba r1)|].
  now apply Forall_app.
Qed.

Lemma R_GenerateBytes_output_witness :
  let r := mkRandom 0 (repeat 3 16) 4 (repeat 4 16) in
  exists ba r1 bb r2,
    R_GenerateBytes 7 r = Some (ID_OK, ba, r1) /\ R_GenerateBytes 20 r1 = Some (ID_OK, bb, r2) /\
    R_GenerateBytes (7 + 20) r = Some (ID_OK, ba ++ bb, r2) /\
    length ba = 7%nat /\ length bb = 20%nat /\ bytes (ba ++ bb) /\ bytesNeeded r2 = 0 /\ well_formed r2.
Proof.
  apply (R_GenerateBytes_output 7 20 (mkRandom 0 (repeat 3 16) 4 (repeat 4 16)));
    [split; [apply Nat.leb_le; reflexivity|reflexivity]|check_bytes].
Defined.
