(* ===== verification/NumTheory.v ===== *)
(** * NumTheory: the arithmetic the RSA and Diffie-Hellman modules rest on

    Fermat's theorem in the form decryption needs, uniqueness in the Chinese
    remainder theorem, Garner's recombination, and a primality criterion (Proth)
    by which concrete keys are checked. No definition of the program is here. *)

From Stdlib Require Import Znumtheory Zdivisibility.
From Stdlib Require ZmodInv Zpow_facts.
From S2P Require Import Prelude.

(** Exponents congruent to 1 modulo p - 1 act as 1 modulo p. *)
Lemma fermat_exponent p m k : Z.prime p -> 0 < k -> k mod (p - 1) = 1 -> (m ^ k) mod p = m mod p.
Proof.
  intros Hp Hk E. pose proof (Z.prime_ge_2 _ Hp) as P2.
  destruct (Z.eq_dec (m mod p) 0) as [Z0|Hne].
  - replace k with (Z.succ (k - 1)) by lia. rewrite Z.pow_succ_r by lia.
    rewrite Z.mul_mod, Z0, Z.mul_0_l by lia. apply Z.mod_0_l. lia.
  - assert (1 < p - 1) by (destruct (Z.eq_dec p 2) as [->|]; [now rewrite Z.mod_1_r in E|lia]).
    rewrite (Z.div_mod k (p - 1)), E by lia.
    assert (0 <= k / (p - 1)) by (apply Z.div_pos; lia).
    rewrite Z.pow_add_r, Z.pow_mul_r by nia.
    rewrite Z.mul_mod, <- Z.mod_pow_l, (ZmodInv.Z.fermat_nz p m Hp Hne) by lia.
    rewrite Z.pow_1_l, Z.pow_1_r, (Z.mod_1_l p), Z.mul_1_l by lia. apply Z.mod_mod. lia.
Qed.

(** Numbers below p * q are determined by their residues. *)
Lemma crt_unique p q x y : Z.prime p -> Z.prime q -> q < p ->
  0 <= x < p * q -> 0 <= y < p * q -> x mod p = y mod p -> x mod q = y mod q -> x = y.
Proof.
  intros Hp Hq Hlt Hx Hy Ep Eq.
  pose proof (Z.prime_ge_2 _ Hp). pose proof (Z.prime_ge_2 _ Hq).
  assert (Dp : (p | x - y)) by (apply Z.mod_divide; [lia|]; rewrite Zminus_mod, Ep, Z.sub_diag; apply Z.mod_0_l; lia).
  assert (Dq : (q | x - y)) by (apply Z.mod_divide; [lia|]; rewrite Zminus_mod, Eq, Z.sub_diag; apply Z.mod_0_l; lia).
  destruct Dp as [u Eu]. rewrite Eu in Dq.
  assert (G : Z.gcd q p = 1).
  { rewrite Z.gcd_comm. apply Z.coprime_prime_small; [exact Hp|lia]. }
  rewrite Z.mul_comm in Dq. apply Z.gauss in Dq; [|exact G]. destruct Dq as [v Ev]. subst u.
  assert (v = 0) by nia. subst v. lia.
Qed.

(** Garner: the recombination has the residues of its two halves. *)
Lemma garner p q mp mq t qinv : 0 < p -> 0 < q -> 0 <= mq < q -> 0 <= mp < p ->
  t mod p = (mp - mq) mod p -> (qinv * q) mod p = 1 mod p ->
  let x := ((t * qinv) mod p) * q + mq in
  0 <= x < p * q /\ x mod p = mp /\ x mod q = mq.
Proof.
  intros Hp Hq Hmq Hmp Et Ei x.
  pose proof (Z.mod_pos_bound (t * qinv) p ltac:(lia)).
  splits; [unfold x; nia|unfold x; nia| |].
  - unfold x. rewrite Z.add_mod, Z.mul_mod_idemp_l, <- Z.mul_assoc, Z.mul_mod, Ei, Et by lia.
    rewrite <- Z.mul_mod, Z.mul_1_r, <- Z.add_mod by lia.
    replace (mp - mq + mq) with mp by lia. apply Z.mod_small. lia.
  - unfold x. rewrite Z.add_comm, Z_mod_plus_full. apply Z.mod_small. lia.
Qed.

(** ** Proth's criterion *)

Lemma pow_mod_1 b n x : 1 < n -> 0 <= x -> (b ^ x) mod n = 1 -> forall u, 0 <= u -> (b ^ (x * u)) mod n = 1.
Proof.
  intros Hn Hx E u Hu. rewrite Z.pow_mul_r, <- Z.mod_pow_l, E, Z.pow_1_l by lia. now apply Z.mod_1_l.
Qed.

Lemma odd_part n x : 0 < x < 2 ^ Z.of_nat n -> exists j o, 0 <= j /\ 0 <= o /\ x = 2 ^ j * (2 * o + 1).
Proof.
  revert x; induction n as [|n IH]; intros x Hx; [cbn in Hx; lia|].
  rewrite Nat2Z.inj_succ, Z.pow_succ_r in Hx by lia.
  pose proof (Z.div_mod x 2 ltac:(lia)) as D. pose proof (Z.mod_pos_bound x 2 ltac:(lia)).
  destruct (Z.eq_dec (x mod 2) 0) as [E|E].
  - destruct (IH (x / 2) ltac:(lia)) as (j & o & Hj & Ho & Ex). exists (Z.succ j), o.
    rewrite Z.pow_succ_r by lia. splits; lia.
  - exists 0, (x / 2). splits; lia.
Qed.

Lemma minus_one_odd r o : 1 < r -> 0 <= o -> ((r - 1) ^ (2 * o + 1)) mod r = r - 1.
Proof.
  intros Hr Ho. rewrite Z.pow_add_r, Z.pow_mul_r, Z.pow_1_r, Z.mul_mod, <- Z.mod_pow_l by lia.
  replace ((r - 1) ^ 2) with (1 + (r - 2) * r) by ring. rewrite Z_mod_plus_full, (Z.mod_1_l r) by lia.
  rewrite Z.pow_1_l, (Z.mod_1_l r), Z.mul_1_l, Z.mod_mod by lia. apply Z.mod_small. lia.
Qed.

(** When [b^(2^k)] is -1 modulo a prime [r], [2^(k+1)] divides [r - 1]. *)
Lemma order_two_power b r k : Z.prime r -> 2 < r -> 0 <= k ->
  (b ^ (2 ^ k)) mod r = r - 1 -> (2 ^ (k + 1) | r - 1).
Proof.
  intros Hr R2 Hk E. assert (Pk : 0 < 2 ^ k) by (apply Z.pow_pos_nonneg; lia).
  assert (B0 : b mod r <> 0).
  { intros B. rewrite <- Z.mod_pow_l, B, Z.pow_0_l, Z.mod_0_l in E by lia. lia. }
  pose proof (ZmodInv.Z.fermat_nz r b Hr B0) as F.
  assert (Hx : 0 < r - 1 < 2 ^ Z.of_nat (Z.to_nat r)).
  { rewrite Z2Nat.id by lia. split; [lia|]. pose proof (Z.pow_gt_lin_r 2 r ltac:(lia) ltac:(lia)). lia. }
  destruct (odd_part _ _ Hx) as (j & o & Hj & Ho & Ej).
  destruct (Z_lt_ge_dec j (k + 1)) as [L|L].
  - exfalso. assert (F2 : (b ^ (2 ^ k * (2 * o + 1))) mod r = 1).
    { replace (2 ^ k) with (2 ^ j * 2 ^ (k - j)) by (rewrite <- Z.pow_add_r by lia; f_equal; lia).
      replace (2 ^ j * 2 ^ (k - j) * (2 * o + 1)) with ((r - 1) * 2 ^ (k - j)) by (rewrite Ej; ring).
      apply pow_mod_1; auto; lia. }
    rewrite Z.pow_mul_r, <- Z.mod_pow_l, E, minus_one_odd in F2 by lia. lia.
  - exists (2 ^ (j - (k + 1)) * (2 * o + 1)). rewrite Ej.
    replace (2 ^ j) with (2 ^ (j - (k + 1)) * 2 ^ (k + 1)); [ring|].
    rewrite <- Z.pow_add_r by lia. f_equal. lia.
Qed.

Lemma prime_divisor m : 1 < m -> exists r, Z.prime r /\ (r | m).
Proof.
  intros Hm. assert (0 <= m) as H0 by lia. revert Hm. pattern m.
  apply Z_lt_induction; [|exact H0]. clear m H0. intros m IH Hm.
  destruct (prime_dec m) as [Hp|Hp].
  - exists m. split; [now apply prime_alt|apply Z.divide_refl].
  - destruct (not_prime_divide m Hm Hp) as (d & Hd & D).
    destruct (IH d ltac:(lia) ltac:(lia)) as (r & Hr & D'). exists r. split; [auto|].
    now apply Z.divide_trans with d.
Qed.

Lemma mod_divide_trans x n r y : 0 < r -> (r | n) -> 0 < n -> x mod n = y -> x mod r = y mod r.
Proof.
  intros Hr [c ->] Hn E. rewrite <- E, (Z.div_mod x (c * r)) at 1 by lia.
  replace (c * r * (x / (c * r)) + x mod (c * r)) with (x mod (c * r) + c * (x / (c * r)) * r) by ring.
  apply Z_mod_plus_full.
Qed.

(** Proth: [n = h 2^k + 1] with [n < 4^k] is prime when some [a^((n-1)/2)] is -1. *)
Lemma proth n h k a : 0 < k -> 0 < h -> n = h * 2 ^ k + 1 -> n < 2 ^ (2 * k) ->
  (a ^ (h * 2 ^ (k - 1))) mod n = n - 1 -> Z.prime n.
Proof.
  intros Hk Hh En Hn E. assert (Pk : 0 < 2 ^ k) by (apply Z.pow_pos_nonneg; lia).
  assert (E2 : 2 ^ k = 2 * 2 ^ (k - 1)) by (rewrite <- Z.pow_succ_r by lia; f_equal; lia).
  assert (Hno : forall m, 1 < m -> (m | n) -> m * m <= n -> False).
  { intros m Hm Dm Hmm. destruct (prime_divisor m Hm) as (r & Hr & Dr).
    pose proof (Z.prime_ge_2 _ Hr) as R2. assert (Drn : (r | n)) by now apply Z.divide_trans with m.
    assert (R3 : 2 < r).
    { destruct (Z.eq_dec r 2) as [->|]; [|lia]. destruct Drn as [c Ec]. exfalso.
      assert (n = 2 * (h * 2 ^ (k - 1)) + 1) by nia. lia. }
    assert (Er : ((a ^ h) ^ (2 ^ (k - 1))) mod r = r - 1).
    { rewrite <- Z.pow_mul_r by (try apply Z.pow_nonneg; lia).
      rewrite (mod_divide_trans _ n r (n - 1)) by (auto; lia).
      destruct Drn as [c ->]. replace (c * r - 1) with (r - 1 + (c - 1) * r) by ring.
      rewrite Z_mod_plus_full. apply Z.mod_small. lia. }
    apply order_two_power in Er; auto; [|lia]. replace (k - 1 + 1) with k in Er by lia.
    apply Z.divide_pos_le in Er; [|lia]. apply Z.divide_pos_le in Dr; [|lia].
    rewrite Z.mul_comm, Z.pow_mul_r, Z.pow_2_r in Hn by lia. nia. }
  split; [nia|]. intros d Hd [c Ec].
  destruct (Z_le_gt_dec d c).
  - apply (Hno d); [lia|now exists c|nia].
  - apply (Hno c); [nia|exists d; lia|nia].
Qed.

(** The criterion in a form that evaluates. *)
Lemma proth_check n h k a : (0 <? k) && (0 <? h) && (n =? h * 2 ^ k + 1) && (n <? 2 ^ (2 * k))
  && (Zpow_facts.Zpow_mod a (h * 2 ^ (k - 1)) n =? n - 1) = true -> Z.prime n.
Proof.
  rewrite !andb_true_iff, !Z.ltb_lt, !Z.eqb_eq. intros ((((Hk & Hh) & En) & Hn) & E).
  apply (proth n h k a); auto. rewrite <- Zpow_facts.Zpow_mod_correct; [exact E|].
  pose proof (Z.pow_pos_nonneg 2 k ltac:(lia) ltac:(lia)). nia.
Qed.
