(* ===== verification/RSA.v ===== *)
(** * RSA: raw RSA and PKCS #1 blocks (src/QBase/RSAEuro/rsa.c)

    [rsapublicfunc] is m^e mod n, [rsaprivatefunc] recombines two half-size
    exponentiations by the Chinese remainder theorem; the four entry points wrap
    them in PKCS #1 padding of type 1 (private key) and 2 (public key). The
    theorems: the private operation inverts the public one and conversely for a
    valid key pair, both padding types round-trip, and oversized input, input not
    below the modulus and malformed padding are rejected.

    A function receives the old contents of its output buffers and of [*outputLen]
    and returns the new ones after the status; [None] stands for fuel exhausted. *)

From Stdlib Require Import Znumtheory Zdivisibility.
From S2P Require Import Prelude Rsaeuro NN NNDiv NNMod StdLib MDBuffer NumTheory Random.

(** ** Definitions *)

Definition zeros : list Z := repeat 0 MAX_NN_DIGITS.

Definition modulusLen (bits : Z) : nat := Z.to_nat ((bits + 7) / 8).

(** Status, output buffer, output length. *)
Abbreviation rsa_result := (Z * list Z * nat)%type.

Definition rsapublicfunc (output : list Z) (outputLen : nat) (input : list Z) (inputLen : nat)
  (publicKey : R_RSA_PUBLIC_KEY) : option rsa_result :=
  let m := NN_Decode zeros MAX_NN_DIGITS input inputLen in
  let n := NN_Decode zeros MAX_NN_DIGITS (pub_modulus publicKey) MAX_RSA_MODULUS_LEN in
  let e := NN_Decode zeros MAX_NN_DIGITS (pub_exponent publicKey) MAX_RSA_MODULUS_LEN in
  let nDigits := NN_Digits n MAX_NN_DIGITS in
  let eDigits := NN_Digits e MAX_NN_DIGITS in
  if NN_Cmp m n nDigits >=? 0 then Some (RE_DATA, output, outputLen)
  else
    let outputLen := modulusLen (pub_bits publicKey) in
    let? c := NN_ModExp zeros m e eDigits n nDigits in
    Some (ID_OK, NN_Encode output outputLen c nDigits, outputLen).

Definition rsaprivatefunc (output : list Z) (outputLen : nat) (input : list Z) (inputLen : nat)
  (privateKey : R_RSA_PRIVATE_KEY) : option rsa_result :=
  let c := NN_Decode zeros MAX_NN_DIGITS input inputLen in
  let p := NN_Decode zeros MAX_NN_DIGITS (prime0 privateKey) MAX_RSA_PRIME_LEN in
  let q := NN_Decode zeros MAX_NN_DIGITS (prime1 privateKey) MAX_RSA_PRIME_LEN in
  let dP := NN_Decode zeros MAX_NN_DIGITS (primeExponent0 privateKey) MAX_RSA_PRIME_LEN in
  let dQ := NN_Decode zeros MAX_NN_DIGITS (primeExponent1 privateKey) MAX_RSA_PRIME_LEN in
  let n := NN_Decode zeros MAX_NN_DIGITS (priv_modulus privateKey) MAX_RSA_MODULUS_LEN in
  let qInv := NN_Decode zeros MAX_NN_DIGITS (coefficient privateKey) MAX_RSA_PRIME_LEN in
  let cDigits := NN_Digits c MAX_NN_DIGITS in
  let pDigits := NN_Digits p MAX_NN_DIGITS in
  let nDigits := NN_Digits n MAX_NN_DIGITS in
  if NN_Cmp c n nDigits >=? 0 then Some (RE_DATA, output, outputLen)
  else
    let outputLen := modulusLen (priv_bits privateKey) in
    let? cP := NN_Mod zeros c cDigits p pDigits in
    let? cQ := NN_Mod zeros c cDigits q pDigits in
    let mP := NN_AssignZero zeros nDigits in
    let? mP := NN_ModExp mP cP dP pDigits p pDigits in
    let mQ := NN_AssignZero zeros nDigits in
    let? mQ := NN_ModExp mQ cQ dQ pDigits q pDigits in
    let t := if NN_Cmp mP mQ pDigits >=? 0 then fst (NN_Sub zeros mP mQ pDigits)
             else
               let t := fst (NN_Sub zeros mQ mP pDigits) in
               fst (NN_Sub t p t pDigits) in
    let? t := NN_ModMult t t qInv p pDigits in
    let t := NN_Mult t t q pDigits in
    let t := fst (NN_Add t t mQ nDigits) in
    Some (ID_OK, NN_Encode output outputLen t nDigits, outputLen).

Definition pkcs0 : list Z := repeat 0 MAX_RSA_MODULUS_LEN.

(** [for (i = 2; i < end; i++) *(pkcsBlock+i) = 0xff;], [n] iterations from [i]. *)
Fixpoint put_ff (n i : nat) (pkcsBlock : list Z) : list Z :=
  match n with
  | O => pkcsBlock
  | S n => put_ff n (S i) (upd pkcsBlock i 0xff)
  end.

(** [do R_GenerateBytes(&byte, 1, randomStruct); while(byte == 0);] *)
Definition nonzero_step (random : R_RANDOM_STRUCT)
  : R_RANDOM_STRUCT + option (Z * R_RANDOM_STRUCT) :=
  match R_GenerateBytes 1 random with
  | Some (_, block, random) =>
      let byte := hd 0 block in
      if byte =? 0 then inl random else inr (Some (byte, random))
  | None => inr None
  end.

Definition nonzero_byte (random : R_RANDOM_STRUCT) : option (Z * R_RANDOM_STRUCT) :=
  obind (run 32 nonzero_step random) (fun x => x).

Fixpoint put_random (n i : nat) (pkcsBlock : list Z) (random : R_RANDOM_STRUCT)
  : option (list Z * R_RANDOM_STRUCT) :=
  match n with
  | O => Some (pkcsBlock, random)
  | S n =>
      let? (byte, random) := nonzero_byte random in
      put_random n (S i) (upd pkcsBlock i byte) random
  end.

(** [output], [outputLen] and the random structure after the call. *)
Definition RSAPublicEncrypt (output : list Z) (outputLen : nat) (input : list Z) (inputLen : nat)
  (publicKey : R_RSA_PUBLIC_KEY) (randomStruct : R_RANDOM_STRUCT)
  : option (rsa_result * R_RANDOM_STRUCT) :=
  let modulusLen := modulusLen (pub_bits publicKey) in
  if (modulusLen <? inputLen + 11)%nat then Some (RE_LEN, output, outputLen, randomStruct)
  else if negb (R_GetRandomBytesNeeded randomStruct =? 0) then
    Some (RE_NEED_RANDOM, output, outputLen, randomStruct)
  else
    let pkcsBlock := upd (upd pkcs0 0 0) 1 2 in
    let n := (modulusLen - inputLen - 1 - 2)%nat in
    let? (pkcsBlock, randomStruct) := put_random n 2 pkcsBlock randomStruct in
    let i := (2 + n)%nat in
    let pkcsBlock := upd pkcsBlock i 0 in
    let pkcsBlock := at_ptr (i + 1) (fun p => R_memcpy p input inputLen) pkcsBlock in
    let? r := rsapublicfunc output outputLen pkcsBlock modulusLen publicKey in
    Some (r, randomStruct).

Definition RSAPrivateEncrypt (output : list Z) (outputLen : nat) (input : list Z) (inputLen : nat)
  (privateKey : R_RSA_PRIVATE_KEY) : option rsa_result :=
  let modulusLen := modulusLen (priv_bits privateKey) in
  if (modulusLen <? inputLen + 11)%nat then Some (RE_LEN, output, outputLen)
  else
    let pkcsBlock := upd (upd pkcs0 0 0) 1 1 in
    let n := (modulusLen - inputLen - 1 - 2)%nat in
    let pkcsBlock := put_ff n 2 pkcsBlock in
    let i := (2 + n)%nat in
    let pkcsBlock := upd pkcsBlock i 0 in
    let pkcsBlock := at_ptr (i + 1) (fun p => R_memcpy p input inputLen) pkcsBlock in
    rsaprivatefunc output outputLen pkcsBlock modulusLen privateKey.

(** [for(i = start; i < end; i++) if(stop) break;] over [n] iterations: the index where
    the loop leaves off. *)
Fixpoint scan (stop : Z -> bool) (n i : nat) (pkcsBlock : list Z) : nat :=
  match n with
  | O => i
  | S n => if stop (nth i pkcsBlock 0) then i else scan stop n (S i) pkcsBlock
  end.

Definition RSAPublicDecrypt (output : list Z) (outputLen : nat) (input : list Z) (inputLen : nat)
  (publicKey : R_RSA_PUBLIC_KEY) : option rsa_result :=
  let modulusLen := modulusLen (pub_bits publicKey) in
  if (modulusLen <? inputLen)%nat then Some (RE_LEN, output, outputLen)
  else
    let? (status, pkcsBlock, pkcsBlockLen) := rsapublicfunc pkcs0 0 input inputLen publicKey in
    if negb (status =? 0) then Some (status, output, outputLen)
    else if negb (Nat.eqb pkcsBlockLen modulusLen) then Some (RE_LEN, output, outputLen)
    else if negb (nth 0 pkcsBlock 0 =? 0) || negb (nth 1 pkcsBlock 0 =? 1) then
      Some (RE_DATA, output, outputLen)
    else
      let i := scan (fun b => negb (b =? 0xff)) (modulusLen - 1 - 2) 2 pkcsBlock in
      if negb (nth i pkcsBlock 0 =? 0) then Some (RE_DATA, output, outputLen)
      else
        let i := (i + 1)%nat in
        let outputLen := (modulusLen - i)%nat in
        if (modulusLen <? outputLen + 11)%nat then Some (RE_DATA, output, outputLen)
        else Some (ID_OK, R_memcpy output (skipn i pkcsBlock) outputLen, outputLen).

Definition RSAPrivateDecrypt (output : list Z) (outputLen : nat) (input : list Z) (inputLen : nat)
  (privateKey : R_RSA_PRIVATE_KEY) : option rsa_result :=
  let modulusLen := modulusLen (priv_bits privateKey) in
  if (modulusLen <? inputLen)%nat then Some (RE_LEN, output, outputLen)
  else
    let? (status, pkcsBlock, pkcsBlockLen) := rsaprivatefunc pkcs0 0 input inputLen privateKey in
    if negb (status =? 0) then Some (status, output, outputLen)
    else if negb (Nat.eqb pkcsBlockLen modulusLen) then Some (RE_LEN, output, outputLen)
    else if negb (nth 0 pkcsBlock 0 =? 0) || negb (nth 1 pkcsBlock 0 =? 2) then
      Some (RE_DATA, output, outputLen)
    else
      let i := scan (fun b => b =? 0) (modulusLen - 1 - 2) 2 pkcsBlock in
      let i := (i + 1)%nat in
      if (modulusLen <=? i)%nat then Some (RE_DATA, output, outputLen)
      else
        let outputLen := (modulusLen - i)%nat in
        if (modulusLen <? outputLen + 11)%nat then Some (RE_DATA, output, outputLen)
        else Some (ID_OK, R_memcpy output (skipn i pkcsBlock) outputLen, outputLen).

(** ** Valid keys *)

(** A modulus of [bits] bits, stored in full width. *)
Record valid_modulus (bits : Z) (modulus : list Z) : Prop := {
  vm_bytes : bytes modulus;
  vm_length : length modulus = MAX_RSA_MODULUS_LEN;
  vm_bits : 2 ^ (bits - 1) <= be modulus < 2 ^ bits;
  vm_pos : 1 < bits <= MAX_RSA_MODULUS_BITS }.

Record valid_public (k : R_RSA_PUBLIC_KEY) : Prop := {
  vp_modulus : valid_modulus (pub_bits k) (pub_modulus k);
  vp_exponent : bytes (pub_exponent k);
  vp_exponent_length : length (pub_exponent k) = MAX_RSA_MODULUS_LEN }.

(** The components of a private key, and their relation to the public exponent [e]. *)
Record valid_private (k : R_RSA_PRIVATE_KEY) (e : Z) : Prop := {
  vs_modulus : valid_modulus (priv_bits k) (priv_modulus k);
  vs_bytes : bytes (prime0 k) /\ bytes (prime1 k) /\ bytes (primeExponent0 k) /\
             bytes (primeExponent1 k) /\ bytes (coefficient k);
  vs_lengths : length (prime0 k) = MAX_RSA_PRIME_LEN /\ length (prime1 k) = MAX_RSA_PRIME_LEN /\
               length (primeExponent0 k) = MAX_RSA_PRIME_LEN /\
               length (primeExponent1 k) = MAX_RSA_PRIME_LEN /\
               length (coefficient k) = MAX_RSA_PRIME_LEN;
  vs_primes : Z.prime (be (prime0 k)) /\ Z.prime (be (prime1 k));
  vs_order : be (prime1 k) < be (prime0 k);
  vs_product : be (priv_modulus k) = be (prime0 k) * be (prime1 k);
  vs_exponents : (e * be (primeExponent0 k)) mod (be (prime0 k) - 1) = 1 /\
                 (e * be (primeExponent1 k)) mod (be (prime1 k) - 1) = 1;
  vs_reduced : 0 < be (primeExponent0 k) < be (prime0 k) /\
               0 < be (primeExponent1 k) < be (prime1 k) /\ 0 < e;
  vs_coefficient : (be (coefficient k) * be (prime1 k)) mod be (prime0 k) = 1 /\
                   be (coefficient k) < be (prime0 k) }.

(** The two halves of a key pair. *)
Record key_pair (pub : R_RSA_PUBLIC_KEY) (priv : R_RSA_PRIVATE_KEY) : Prop := {
  kp_public : valid_public pub;
  kp_private : valid_private priv (be (pub_exponent pub));
  kp_bits : pub_bits pub = priv_bits priv;
  kp_modulus : be (pub_modulus pub) = be (priv_modulus priv) }.

(** ** Reading keys and messages *)

Lemma NN_Cmp_ge a b d : words a -> words b ->
  (NN_Cmp a b d >=? 0) = (nn d b <=? nn d a).
Proof.
  intros Wa Wb. rewrite NN_Cmp_sgn, Z.geb_leb by auto.
  destruct (Z.leb_spec (nn d b) (nn d a)).
  - apply Z.leb_le. apply Z.sgn_nonneg. lia.
  - apply Z.leb_gt. apply Z.sgn_neg_iff. lia.
Qed.

Lemma words_zeros : words zeros.
Proof. unfold zeros. auto with words. Qed.

#[local] Hint Resolve words_zeros : words.

(** A decoded byte string that fits. *)
Lemma decode_fits b len : bytes b -> (len <= 132)%nat ->
  words (NN_Decode zeros MAX_NN_DIGITS b len) /\
  nn MAX_NN_DIGITS (NN_Decode zeros MAX_NN_DIGITS b len) = be (firstn len b).
Proof.
  intros Hb Hl. destruct (NN_Decode_spec zeros MAX_NN_DIGITS b len words_zeros Hb) as [W E].
  split; [auto|]. rewrite E. apply Z.mod_small.
  pose proof (be_bound (firstn len b) ltac:(auto with words)) as Hr.
  pose proof (Pn_mono (length (firstn len b)) 132 ltac:(rewrite length_firstn; lia)).
  change (Bn MAX_NN_DIGITS) with (Pn 132). lia.
Qed.

Lemma decode_all b n : bytes b -> length b = n -> (n <= 132)%nat ->
  words (NN_Decode zeros MAX_NN_DIGITS b n) /\
  nn MAX_NN_DIGITS (NN_Decode zeros MAX_NN_DIGITS b n) = be b.
Proof.
  intros Hb L Hn. destruct (decode_fits b n Hb Hn) as [W E]. split; [auto|].
  now rewrite E, firstn_all2 by lia.
Qed.

(** The low digits of a number that is below a bound of as many digits. *)
Lemma nn_digits_of a n : words a -> words n -> nn MAX_NN_DIGITS a < Bn (NN_Digits n MAX_NN_DIGITS) ->
  nn (NN_Digits n MAX_NN_DIGITS) a = nn MAX_NN_DIGITS a.
Proof. intros Wa Wn H. apply nn_low; auto. apply NN_Digits_le. Qed.

Lemma modulusLen_bounds bits m : valid_modulus bits m ->
  be m < Pn (modulusLen bits) /\ Pn (modulusLen bits - 1) <= be m /\
  (1 <= modulusLen bits <= 128)%nat /\ 1 < be m.
Proof.
  intros [Hb Hl [Hlo Hhi] Hp]. unfold modulusLen, MAX_RSA_MODULUS_BITS in *.
  assert (B : 1 <= (bits + 7) / 8 <= 128) by (Z.div_mod_to_equations; lia).
  assert (2 ^ 1 <= 2 ^ (bits - 1)) by (apply Z.pow_le_mono_r; lia). change (2 ^ 1) with 2 in *.
  splits; try lia; unfold Pn.
  - eapply Z.lt_le_trans; [exact Hhi|]. apply Z.pow_le_mono_r; [lia|].
    rewrite Z2Nat.id by lia. Z.div_mod_to_equations; lia.
  - etransitivity; [|exact Hlo]. apply Z.pow_le_mono_r; [lia|].
    rewrite Nat2Z.inj_sub, Z2Nat.id by lia. Z.div_mod_to_equations; lia.
Qed.

(** The modulus in digits: a message of at most [modulusLen] bytes fits its digits. *)
Lemma message_fits bits m n b len : valid_modulus bits m -> words n ->
  nn MAX_NN_DIGITS n = be m -> bytes b -> (len <= modulusLen bits)%nat ->
  be (firstn len b) < Bn (NN_Digits n MAX_NN_DIGITS).
Proof.
  intros V Wn En Hb Hl. pose proof (modulusLen_bounds bits m V) as (B1 & B2 & B3 & B4).
  destruct V as [_ _ [Hlo Hhi] Hp].
  pose proof (be_bound (firstn len b) ltac:(auto with words)) as Hr.
  pose proof (Pn_mono (length (firstn len b)) (modulusLen bits) ltac:(rewrite length_firstn; lia)).
  pose proof (nn_Digits_lt n MAX_NN_DIGITS Wn) as Hd. rewrite En in Hd.
  set (k := NN_Digits n MAX_NN_DIGITS) in *.
  enough (Pn (modulusLen bits) <= Bn k) by lia.
  assert (Hbk : bits - 1 < 32 * Z.of_nat k).
  { apply (Z.pow_lt_mono_r_iff 2); try lia. unfold Bn in Hd. lia. }
  unfold Pn, Bn, modulusLen. apply Z.pow_le_mono_r; [lia|].
  rewrite Z2Nat.id by (apply Z.div_pos; lia). Z.div_mod_to_equations; lia.
Qed.

(** ** The raw operations *)

Lemma encode_result output L r k N x : bytes output -> words r -> nn k r = x -> 0 <= x < N -> N < Pn L ->
  let out := NN_Encode output L r k in
  bytes out /\ length (firstn L out) = L /\ be (firstn L out) = x.
Proof.
  intros Ho Wr E Hx HN. destruct (NN_Encode_spec output L r k Ho Wr) as (B & Ln & V).
  cbv zeta. splits; auto. rewrite V, E. apply Z.mod_small. lia.
Qed.

Section Public.
Context (k : R_RSA_PUBLIC_KEY) (Hk : valid_public k).
Let N := be (pub_modulus k).
Let E := be (pub_exponent k).
Let L := modulusLen (pub_bits k).

Lemma rsapublicfunc_ok output outputLen input inputLen : bytes output -> bytes input ->
  (inputLen <= L)%nat -> be (firstn inputLen input) < N ->
  exists out, rsapublicfunc output outputLen input inputLen k = Some (ID_OK, out, L) /\
    bytes out /\ length (firstn L out) = L /\
    be (firstn L out) = be (firstn inputLen input) ^ E mod N.
Proof.
  intros Ho Hi Hl Hlt. destruct Hk as [Vm He Le].
  destruct (modulusLen_bounds _ _ Vm) as (B1 & B2 & B3 & B4). fold N in B1, B2, B4. fold L in B1, B2, B3.
  unfold rsapublicfunc.
  destruct (decode_fits input inputLen Hi ltac:(lia)) as [Wm Em].
  destruct (decode_all (pub_modulus k) MAX_RSA_MODULUS_LEN (vm_bytes _ _ Vm) (vm_length _ _ Vm) ltac:(unfold MAX_RSA_MODULUS_LEN; lia)) as [Wn En].
  destruct (decode_all (pub_exponent k) MAX_RSA_MODULUS_LEN He Le ltac:(unfold MAX_RSA_MODULUS_LEN; lia)) as [We Ee].
  set (m := NN_Decode zeros _ input inputLen) in *.
  set (n := NN_Decode zeros _ (pub_modulus k) _) in *.
  set (e := NN_Decode zeros _ (pub_exponent k) _) in *. fold N in En. fold E in Ee.
  set (nd := NN_Digits n MAX_NN_DIGITS).
  pose proof (message_fits _ _ n input inputLen Vm Wn En Hi Hl) as Hfit. rewrite <- Em in Hfit.
  pose proof (nn_digits_of m n Wm Wn Hfit) as Em'. fold nd in Em'.
  assert (En' : nn nd n = N) by (unfold nd; now rewrite NN_Digits_nn).
  rewrite NN_Cmp_ge, En', Em', Em by auto.
  destruct (Z.leb_spec N (be (firstn inputLen input))); [lia|].
  assert (Hnd : (0 < nd <= 33)%nat).
  { split; [|apply NN_Digits_le]. destruct nd; [cbn [nn] in En'; lia|lia]. }
  destruct (NN_ModExp_total m n nd Wm Wn ltac:(lia) ltac:(rewrite En'; lia) zeros e
    (NN_Digits e MAX_NN_DIGITS) ltac:(lia) words_zeros We) as (r & -> & Wr & Er).
  cbn [obind]. rewrite En', Em', Em, NN_Digits_nn, Ee in Er.
  destruct (encode_result output L r nd N _ Ho Wr Er (Z.mod_pos_bound _ N ltac:(lia)) B1) as (Bo & Lo & Vo).
  eexists. split; [reflexivity|]. auto.
Qed.

Lemma rsapublicfunc_range output outputLen input inputLen : bytes input ->
  (inputLen <= L)%nat -> N <= be (firstn inputLen input) ->
  rsapublicfunc output outputLen input inputLen k = Some (RE_DATA, output, outputLen).
Proof.
  intros Hi Hl Hge. destruct Hk as [Vm He Le].
  destruct (modulusLen_bounds _ _ Vm) as (B1 & B2 & B3 & B4). fold N in B1, B2, B4. fold L in B1, B2, B3.
  unfold rsapublicfunc.
  destruct (decode_fits input inputLen Hi ltac:(lia)) as [Wm Em].
  destruct (decode_all (pub_modulus k) MAX_RSA_MODULUS_LEN (vm_bytes _ _ Vm) (vm_length _ _ Vm) ltac:(unfold MAX_RSA_MODULUS_LEN; lia)) as [Wn En].
  pose proof (message_fits _ _ _ input inputLen Vm Wn En Hi Hl) as Hfit. rewrite <- Em in Hfit.
  pose proof (nn_digits_of _ _ Wm Wn Hfit) as Em'.
  rewrite NN_Cmp_ge, Em', Em, NN_Digits_nn, En by auto. fold N.
  now rewrite (proj2 (Z.leb_le _ _) Hge).
Qed.
End Public.

(** The difference of the two halves modulo the first prime. *)
Lemma crt_difference mP mQ p k : words mP -> words mQ -> words p ->
  nn k mP < nn k p -> nn k mQ <= nn k p ->
  let t := if NN_Cmp mP mQ k >=? 0 then fst (NN_Sub zeros mP mQ k)
           else let t := fst (NN_Sub zeros mQ mP k) in fst (NN_Sub t p t k) in
  words t /\ nn k t mod nn k p = (nn k mP - nn k mQ) mod nn k p.
Proof.
  intros Wp Wq W Hp Hq. rewrite NN_Cmp_ge by auto.
  pose proof (nn_bound k mP Wp). pose proof (nn_bound k mQ Wq).
  destruct (Z.leb_spec (nn k mQ) (nn k mP)) as [C|C]; cbv zeta.
  - destruct (NN_Sub_noborrow zeros mP mQ k words_zeros Wp Wq C) as (Wt & _ & ->). auto.
  - destruct (NN_Sub_noborrow zeros mQ mP k words_zeros Wq Wp ltac:(lia)) as (Wt & _ & Et).
    destruct (NN_Sub_noborrow _ p _ k Wt W Wt ltac:(lia)) as (Wr & _ & ->). split; [auto|].
    rewrite Et. replace (nn k p - (nn k mQ - nn k mP)) with (nn k mP - nn k mQ + 1 * nn k p) by lia.
    apply Z_mod_plus_full.
Qed.

(** The recombination [t * q + mQ] on digits. *)
Lemma crt_recombine t q mQ pd nd n : words t -> words q -> words mQ ->
  (pd <= nd <= 2 * pd)%nat -> nn nd mQ = nn pd mQ ->
  nn pd t * nn pd q + nn pd mQ < n -> n <= Bn nd ->
  let t' := NN_Mult t t q pd in
  words (fst (NN_Add t' t' mQ nd)) /\ nn nd (fst (NN_Add t' t' mQ nd)) = nn pd t * nn pd q + nn pd mQ.
Proof.
  intros Wt Wq Wm Hd Em Hlt Hn. destruct (NN_Mult_spec t t q pd Wt Wt Wq) as [Wr Er].
  pose proof (nn_bound pd t Wt). pose proof (nn_bound pd q Wq). pose proof (nn_bound pd mQ Wm).
  assert (El : nn nd (NN_Mult t t q pd) = nn pd t * nn pd q).
  { rewrite <- Er. apply nn_low; [lia|auto|]. rewrite Er. lia. }
  destruct (NN_Add_nocarry (NN_Mult t t q pd) (NN_Mult t t q pd) mQ nd Wr Wr Wm) as [Ws Es].
  { rewrite El, Em. lia. }
  split; [exact Ws|]. now rewrite Es, El, Em.
Qed.

Section Private.
Context (k : R_RSA_PRIVATE_KEY) (e : Z) (Hk : valid_private k e).
Let N := be (priv_modulus k).
Let P := be (prime0 k).
Let Q := be (prime1 k).
Let L := modulusLen (priv_bits k).

(** The residues of the result determine it: each half is an exponentiation. *)
Definition private_result (c x : Z) : Prop :=
  0 <= x < N /\ x mod P = c ^ be (primeExponent0 k) mod P /\
  x mod Q = c ^ be (primeExponent1 k) mod Q.

Lemma primes_bounds : 2 <= Q /\ Q < P /\ N = P * Q /\ P < N.
Proof.
  destruct Hk as [_ _ _ [Hp Hq] Ho Hpq _ _ _].
  pose proof (Z.prime_ge_2 _ Hp). pose proof (Z.prime_ge_2 _ Hq). unfold P, Q, N. nia.
Qed.

(** The two exponentiations, on digit arrays of the width of the larger prime. *)
Lemma private_halves c p dP cd pd nd : words c -> words p -> words dP ->
  (cd <= 66)%nat -> (0 < pd <= 33)%nat -> (pd <= nd)%nat -> 1 < nn pd p ->
  exists cP mP, NN_Mod zeros c cd p pd = Some cP /\
    NN_ModExp (NN_AssignZero zeros nd) cP dP pd p pd = Some mP /\ words mP /\
    nn pd mP = (nn cd c) ^ nn pd dP mod nn pd p /\ nn nd mP = nn pd mP.
Proof.
  intros Wc Wp Wd Hc Hpd Hnd H1.
  destruct (NN_Mod_total zeros c cd p pd words_zeros Wc Wp Hc ltac:(lia) ltac:(lia)) as (cP & E1 & W1 & V1).
  destruct (NN_ModExp_total cP p pd W1 Wp ltac:(lia) H1 (NN_AssignZero zeros nd) dP pd ltac:(lia)
    ltac:(apply words_AssignZero; auto with words) Wd) as (mP & E2 & W2 & V2).
  exists cP, mP. splits; auto.
  - rewrite V2, V1. apply Z.mod_pow_l.
  - apply nn_zero_between; [lia|]. intros j Hj.
    rewrite (NN_ModExp_frame _ _ _ _ _ _ _ j E2) by lia. apply nth_store_zero. lia.
Qed.

Lemma rsaprivatefunc_ok output outputLen input inputLen : bytes output -> bytes input ->
  (inputLen <= L)%nat -> be (firstn inputLen input) < N ->
  exists out, rsaprivatefunc output outputLen input inputLen k = Some (ID_OK, out, L) /\
    bytes out /\ length (firstn L out) = L /\
    private_result (be (firstn inputLen input)) (be (firstn L out)).
Proof.
  intros Ho Hi Hl Hlt. destruct primes_bounds as (Q2 & QP & EN & PN).
  destruct Hk as [Vm (Bp & Bq & Bdp & Bdq & Bqi) (Lp & Lq & Ldp & Ldq & Lqi) _ _ _ _ (Rdp & Rdq & _) (Ci & Rqi)].
  fold P Q in Rdp, Rdq, Ci, Rqi.
  destruct (modulusLen_bounds _ _ Vm) as (B1 & B2 & B3 & B4). fold N in B1, B2, B4. fold L in B1, B2, B3.
  unfold rsaprivatefunc.
  destruct (decode_fits input inputLen Hi ltac:(lia)) as [Wc Ec].
  destruct (decode_all _ MAX_RSA_PRIME_LEN Bp Lp ltac:(unfold MAX_RSA_PRIME_LEN; lia)) as [Wp Ep].
  destruct (decode_all _ MAX_RSA_PRIME_LEN Bq Lq ltac:(unfold MAX_RSA_PRIME_LEN; lia)) as [Wq Eq].
  destruct (decode_all _ MAX_RSA_PRIME_LEN Bdp Ldp ltac:(unfold MAX_RSA_PRIME_LEN; lia)) as [Wdp Edp].
  destruct (decode_all _ MAX_RSA_PRIME_LEN Bdq Ldq ltac:(unfold MAX_RSA_PRIME_LEN; lia)) as [Wdq Edq].
  destruct (decode_all _ MAX_RSA_PRIME_LEN Bqi Lqi ltac:(unfold MAX_RSA_PRIME_LEN; lia)) as [Wqi Eqi].
  destruct (decode_all _ MAX_RSA_MODULUS_LEN (vm_bytes _ _ Vm) (vm_length _ _ Vm)
    ltac:(unfold MAX_RSA_MODULUS_LEN; lia)) as [Wn En].
  fold P in Ep. fold Q in Eq. fold N in En.
  pose proof (message_fits _ _ _ input inputLen Vm Wn En Hi Hl) as Hfit.
  set (c := NN_Decode zeros _ input inputLen) in *. set (p := NN_Decode zeros _ (prime0 k) _) in *.
  set (q := NN_Decode zeros _ (prime1 k) _) in *. set (dP := NN_Decode zeros _ (primeExponent0 k) _) in *.
  set (dQ := NN_Decode zeros _ (primeExponent1 k) _) in *. set (qi := NN_Decode zeros _ (coefficient k) _) in *.
  set (n := NN_Decode zeros _ (priv_modulus k) _) in *. clearbody c p q dP dQ qi n.
  rewrite <- Ec in Hfit. pose proof (nn_digits_of c n Wc Wn Hfit) as Ec'.
  pose proof (NN_Digits_nn p MAX_NN_DIGITS) as Vp. pose proof (NN_Digits_nn n MAX_NN_DIGITS) as Vn.
  pose proof (nn_Digits_lt p MAX_NN_DIGITS Wp) as Fp. pose proof (nn_Digits_lt n MAX_NN_DIGITS Wn) as Fn.
  pose proof (NN_Digits_le p MAX_NN_DIGITS) as Gp. pose proof (NN_Digits_le c MAX_NN_DIGITS) as Gc.
  set (pd := NN_Digits p MAX_NN_DIGITS) in *. set (nd := NN_Digits n MAX_NN_DIGITS) in *.
  rewrite Ep in Vp, Fp. rewrite En in Vn, Fn.
  assert (Hpd : (0 < pd <= nd)%nat /\ (nd <= 2 * pd)%nat).
  { splits.
    - destruct pd; [cbn [nn] in Vp; lia|lia].
    - apply NN_Digits_bound; [auto|]. rewrite Ep. lia.
    - apply NN_Digits_bound; [auto|]. rewrite En, EN. replace (2 * pd)%nat with (pd + pd)%nat by lia.
      rewrite Bn_add. nia. }
  assert (Low : forall a, words a -> nn MAX_NN_DIGITS a < P -> nn pd a = nn MAX_NN_DIGITS a)
    by (intros; apply nn_low; auto; lia).
  rewrite NN_Cmp_ge, Ec', Ec, Vn by auto.
  destruct (Z.leb_spec N (be (firstn inputLen input))); [lia|].
  unfold MAX_NN_DIGITS in Gp, Gc.
  destruct (private_halves c p dP (NN_Digits c MAX_NN_DIGITS) pd nd Wc Wp Wdp ltac:(unfold MAX_NN_DIGITS; lia)
    ltac:(lia) ltac:(lia) ltac:(rewrite Vp; lia)) as (cP & mP & -> & HmP & WmP & VmP & _).
  destruct (private_halves c q dQ (NN_Digits c MAX_NN_DIGITS) pd nd Wc Wq Wdq ltac:(unfold MAX_NN_DIGITS; lia)
    ltac:(lia) ltac:(lia) ltac:(rewrite Low by (auto; lia); lia)) as (cQ & mQ & -> & HmQ & WmQ & VmQ & FmQ).
  cbn [obind]. rewrite HmP. cbn [obind]. rewrite HmQ. cbn [obind].
  rewrite NN_Digits_nn, Ec, (Low dP), Edp, Vp in VmP by (auto; lia).
  rewrite NN_Digits_nn, Ec, (Low dQ), (Low q), Edq, Eq in VmQ by (auto; lia).
  pose proof (Z.mod_pos_bound (be (firstn inputLen input) ^ be (primeExponent0 k)) P ltac:(lia)) as MP.
  pose proof (Z.mod_pos_bound (be (firstn inputLen input) ^ be (primeExponent1 k)) Q ltac:(lia)) as MQ.
  rewrite <- VmP in MP. rewrite <- VmQ in MQ.
  destruct (crt_difference mP mQ p pd WmP WmQ Wp ltac:(lia) ltac:(lia)) as [Wt Et]. cbv zeta in Et, Wt.
  set (t := if NN_Cmp mP mQ pd >=? 0 then _ else _) in *. clearbody t. rewrite Vp in Et.
  destruct (NN_ModMult_total t t qi p pd Wt Wt Wqi Wp ltac:(unfold MAX_NN_DIGITS in *; lia)
    ltac:(lia)) as (u & -> & Wu & Vu). cbn [obind].
  rewrite Vp, (Low qi), Eqi in Vu by (auto; lia).
  destruct (garner P Q (nn pd mP) (nn pd mQ) (nn pd t) (be (coefficient k)) ltac:(lia) ltac:(lia) MQ MP Et
    ltac:(rewrite Ci, Z.mod_1_l; lia)) as (X0 & XP & XQ). rewrite <- Vu in X0, XP, XQ.
  destruct (crt_recombine u q mQ pd nd N Wu Wq WmQ ltac:(lia) FmQ
    ltac:(rewrite (Low q), Eq by (auto; lia); lia) ltac:(lia)) as [Wr Vr].
  rewrite (Low q), Eq in Vr by (auto; lia).
  destruct (encode_result output L _ nd N _ Ho Wr Vr ltac:(lia) B1) as (Bo & Lo & Vo).
  fold L. eexists. split; [reflexivity|]. splits; auto. rewrite Vo. unfold private_result.
  rewrite <- VmP, <- VmQ.
  splits; auto; lia.
Qed.
End Private.

(** ** The two operations are inverse *)

Lemma mod_pow_mod a b p : 0 < p -> 0 <= b -> (a mod p) ^ b mod p = a ^ b mod p.
Proof. intros. apply Z.mod_pow_l. Qed.

Lemma mod_mod_divide x n p : 0 < p -> 0 < n -> (p | n) -> (x mod n) mod p = x mod p.
Proof.
  intros Hp Hn D. symmetry. now apply (mod_divide_trans x n p (x mod n)).
Qed.

Section KeyPair.
Context (pub : R_RSA_PUBLIC_KEY) (priv : R_RSA_PRIVATE_KEY) (K : key_pair pub priv).
Let N := be (pub_modulus pub).
Let E := be (pub_exponent pub).
Let P := be (prime0 priv).
Let Q := be (prime1 priv).
Let DP := be (primeExponent0 priv).
Let DQ := be (primeExponent1 priv).

Lemma pair_facts : Z.prime P /\ Z.prime Q /\ 2 <= Q /\ Q < P /\ N = P * Q /\ 0 < E /\ 0 < DP /\ 0 < DQ /\
  (E * DP) mod (P - 1) = 1 /\ (E * DQ) mod (Q - 1) = 1 /\ (P | N) /\ (Q | N).
Proof.
  destruct K as [_ S _ EN]. destruct (primes_bounds priv _ S) as (Q2 & QP & EN' & _).
  destruct S as [_ _ _ [Hp Hq] _ _ [E1 E2] (R1 & R2 & R3) _].
  assert (EN2 : N = P * Q) by (unfold N; now rewrite EN).
  splits; auto; try apply R1; try apply R2.
  - exists Q. rewrite EN2. apply Z.mul_comm.
  - exists P. exact EN2.
Qed.

(** Raising to both exponents is the identity modulo each prime. *)
Lemma exponents_inverse m :
  (m ^ E mod N) ^ DP mod P = m mod P /\ (m ^ E mod N) ^ DQ mod Q = m mod Q.
Proof.
  destruct pair_facts as (Hp & Hq & Q2 & QP & EN & E0 & D0 & D1 & I1 & I2 & PN & QN).
  assert (0 < N) by nia.
  rewrite <- (mod_pow_mod (m ^ E mod N)), mod_mod_divide, mod_pow_mod, <- Z.pow_mul_r by (auto; lia).
  rewrite <- (mod_pow_mod (m ^ E mod N) _ Q), (mod_mod_divide _ N Q), mod_pow_mod, <- Z.pow_mul_r by (auto; lia).
  split; apply fermat_exponent; auto; nia.
Qed.

Lemma private_of_public m x : 0 <= m < N -> private_result priv (m ^ E mod N) x -> x = m.
Proof.
  destruct pair_facts as (Hp & Hq & Q2 & QP & EN & E0 & D0 & D1 & I1 & I2 & PN & QN).
  intros Hm (Hx & XP & XQ). destruct (exponents_inverse m) as [IP IQ].
  assert (EN' : be (priv_modulus priv) = N) by (symmetry; apply K).
  rewrite EN' in Hx. fold P DP in XP. fold Q DQ in XQ.
  apply (crt_unique P Q); auto; rewrite <- ?EN; congruence.
Qed.

Lemma public_of_private c x : 0 <= c < N -> private_result priv c x -> x ^ E mod N = c.
Proof.
  destruct pair_facts as (Hp & Hq & Q2 & QP & EN & E0 & D0 & D1 & I1 & I2 & PN & QN).
  intros Hc (Hx & XP & XQ). fold P DP in XP. fold Q DQ in XQ. assert (0 < N) by nia.
  apply (crt_unique P Q); auto; rewrite <- ?EN; auto.
  - apply Z.mod_pos_bound. lia.
  - rewrite mod_mod_divide, <- mod_pow_mod, XP, mod_pow_mod, <- Z.pow_mul_r, Z.mul_comm by (auto; lia).
    apply fermat_exponent; auto; nia.
  - rewrite mod_mod_divide, <- mod_pow_mod, XQ, mod_pow_mod, <- Z.pow_mul_r, Z.mul_comm by (auto; lia).
    apply fermat_exponent; auto; nia.
Qed.

Let L := modulusLen (pub_bits pub).

Lemma pair_length : modulusLen (priv_bits priv) = L.
Proof. unfold L. now rewrite (kp_bits _ _ K). Qed.

(** Encrypting with the public key and decrypting with the private one. *)
Lemma public_private m o1 l1 o2 l2 : bytes m -> bytes o1 -> bytes o2 -> (L <= length m)%nat ->
  be (firstn L m) < N ->
  exists c r, rsapublicfunc o1 l1 m L pub = Some (ID_OK, c, L) /\ bytes c /\
    rsaprivatefunc o2 l2 c L priv = Some (ID_OK, r, L) /\ bytes r /\
    firstn L r = firstn L m.
Proof.
  intros Bm B1 B2 Hl Hlt.
  destruct (rsapublicfunc_ok pub (kp_public _ _ K) o1 l1 m L B1 Bm ltac:(lia) Hlt) as (c & Ec & Bc & Lc & Vc).
  fold L in Ec, Lc, Vc. fold N E in Vc.
  assert (0 < N) by (pose proof pair_facts; nia).
  pose proof (Z.mod_pos_bound (be (firstn L m) ^ E) N ltac:(lia)) as Hc.
  assert (EN' : be (priv_modulus priv) = N) by (symmetry; apply K).
  destruct (rsaprivatefunc_ok priv _ (kp_private _ _ K) o2 l2 c L B2 Bc) as (r & Er & Br & Lr & Vr).
  { now rewrite pair_length. } { rewrite Vc, EN'. lia. }
  rewrite pair_length in Er, Lr, Vr. rewrite Vc in Vr.
  exists c, r. splits; auto. apply be_inj; auto with words.
  - rewrite Lr, length_firstn. lia.
  - apply private_of_public in Vr; [exact Vr|]. split; [|exact Hlt]. apply be_bound. auto with words.
Qed.

(** Signing with the private key and recovering with the public one. *)
Lemma private_public m o1 l1 o2 l2 : bytes m -> bytes o1 -> bytes o2 -> (L <= length m)%nat ->
  be (firstn L m) < N ->
  exists s r, rsaprivatefunc o1 l1 m L priv = Some (ID_OK, s, L) /\ bytes s /\
    rsapublicfunc o2 l2 s L pub = Some (ID_OK, r, L) /\ bytes r /\
    firstn L r = firstn L m.
Proof.
  intros Bm B1 B2 Hl Hlt. assert (EN' : be (priv_modulus priv) = N) by (symmetry; apply K).
  destruct (rsaprivatefunc_ok priv _ (kp_private _ _ K) o1 l1 m L B1 Bm) as (s & Es & Bs & Ls & Vs).
  { now rewrite pair_length. } { now rewrite EN'. }
  rewrite pair_length in Es, Ls, Vs. pose proof Vs as (Hs & _). rewrite EN' in Hs.
  destruct (rsapublicfunc_ok pub (kp_public _ _ K) o2 l2 s L B2 Bs ltac:(lia) ltac:(apply Hs)) as (r & Er & Br & Lr & Vr).
  fold L in Er, Lr, Vr. fold N E in Vr.
  exists s, r. splits; auto. apply be_inj; auto with words.
  - rewrite Lr, length_firstn. lia.
  - rewrite Vr. apply public_of_private; auto. split; [|exact Hlt]. apply be_bound. auto with words.
Qed.
End KeyPair.

(** ** PKCS #1 blocks *)

Lemma put_ff_spec n i b : (i + n <= length b)%nat ->
  length (put_ff n i b) = length b /\
  firstn (i + n) (put_ff n i b) = firstn i b ++ repeat 0xff n.
Proof.
  revert i b; induction n as [|n IH]; intros i b Hl; cbn [put_ff repeat].
  { now rewrite Nat.add_0_r, app_nil_r. }
  destruct (IH (S i) (upd b i 0xff)) as [L F]; [rewrite length_upd; lia|].
  rewrite length_upd in L. split; [auto|].
  replace (i + S n)%nat with (S i + n)%nat by lia. rewrite F.
  replace (S i) with (i + 1)%nat by lia. rewrite firstn_upd, <- app_assoc by lia. reflexivity.
Qed.

Lemma bytes_put_ff n i b : bytes b -> bytes (put_ff n i b).
Proof.
  revert i b; induction n as [|n IH]; intros i b Hb; cbn [put_ff]; [auto|].
  apply IH, Forall_upd; auto. unfold is_byte. lia.
Qed.

Definition nonzero_byte_p (b : Z) : Prop := is_byte b /\ b <> 0.

Lemma nonzero_byte_ok r b r' : bytes (output r) -> nonzero_byte r = Some (b, r') ->
  nonzero_byte_p b /\ bytes (output r').
Proof.
  intros Ho. unfold nonzero_byte. destruct (run 32 nonzero_step r) as [x|] eqn:E; [|discriminate].
  cbn [obind]. intros ->.
  apply (run_partial nonzero_step (fun r => bytes (output r))
    (fun x => match x with Some (b, r) => nonzero_byte_p b /\ bytes (output r) | None => True end)) in E; auto.
  clear. intros r Ho. unfold nonzero_step, R_GenerateBytes.
  destruct (negb (bytesNeeded r =? 0)); [cbn; auto|].
  destruct (R_Generate_loop 1 (rstate r) (output r) (outputAvailable r) 1) as [[[[bl s] o] a]|] eqn:E;
    cbn [obind]; [|auto].
  destruct (R_Generate_loop_bytes _ _ _ _ _ _ _ _ _ Ho E) as [Bb Bo].
  destruct (Z.eqb_spec (hd 0 bl) 0); cbn [output]; auto.
  split; [|auto]. split; [|auto]. apply Forall_hd; auto with words.
Qed.

Lemma put_random_spec n i b r b' r' : (i + n <= length b)%nat -> bytes (output r) -> bytes b ->
  put_random n i b r = Some (b', r') ->
  exists pad, length pad = n /\ Forall nonzero_byte_p pad /\ length b' = length b /\ bytes b' /\
    firstn (i + n) b' = firstn i b ++ pad.
Proof.
  revert i b r; induction n as [|n IH]; intros i b r Hl Ho Hb; cbn [put_random].
  { intros [= <- <-]. exists []. rewrite Nat.add_0_r, app_nil_r. auto. }
  destruct (nonzero_byte r) as [[x r1]|] eqn:E; [|discriminate]. cbn [obind]. intros H.
  destruct (nonzero_byte_ok _ _ _ Ho E) as [Hx Ho1].
  destruct (IH (S i) (upd b i x) r1 ltac:(rewrite length_upd; lia) Ho1
    ltac:(apply Forall_upd; [auto|apply Hx]) H) as (pad & Lp & Fp & Lb & Bb & Eb).
  exists (x :: pad). rewrite length_upd in Lb. cbn [length]. splits; auto.
  replace (i + S n)%nat with (S i + n)%nat by lia. rewrite Eb.
  replace (S i) with (i + 1)%nat by lia. rewrite firstn_upd, <- app_assoc by lia. reflexivity.
Qed.

(** The block both encryptions build: type, padding, separator, data. *)
Lemma block_shape X t pad input inputLen : length X = 128%nat -> bytes X -> bytes input ->
  firstn (2 + length pad) X = [0; t] ++ pad -> (inputLen <= length input)%nat ->
  (length pad + 3 + inputLen <= 128)%nat ->
  let b := at_ptr (2 + length pad + 1) (fun p => R_memcpy p input inputLen) (upd X (2 + length pad) 0) in
  length b = 128%nat /\ bytes b /\
  firstn (length pad + 3 + inputLen) b = 0 :: t :: pad ++ 0 :: firstn inputLen input.
Proof.
  intros LX BX Bi FX Hi Hl b.
  destruct (at_ptr_memcpy (2 + length pad + 1) inputLen (upd X (2 + length pad) 0) input
    ltac:(rewrite length_upd; lia) Hi) as [L F].
  rewrite length_upd in L. fold b in L, F. splits; [lia| |].
  - unfold b, at_ptr. apply Forall_app. split; auto with words.
  - replace (length pad + 3 + inputLen)%nat with (2 + length pad + 1 + inputLen)%nat by lia.
    rewrite F, firstn_upd, FX by lia. cbn [app]. now rewrite <- app_assoc.
Qed.

(** A block that starts with a zero byte is below the modulus. *)
Lemma block_below bits m b r : valid_modulus bits m -> bytes b ->
  firstn (modulusLen bits) b = 0 :: r -> be (firstn (modulusLen bits) b) < be m.
Proof.
  intros V Hb E. destruct (modulusLen_bounds _ _ V) as (_ & Hlo & Hp & _).
  assert (Br : bytes (0 :: r)) by (rewrite <- E; auto with words).
  pose proof (f_equal (@length Z) E) as Lr. rewrite length_firstn in Lr. cbn [length] in Lr.
  rewrite E, be_cons. inversion_clear Br as [|? ? _ Br'].
  pose proof (be_bound r Br'). pose proof (Pn_mono (length r) (modulusLen bits - 1) ltac:(lia)). lia.
Qed.

(** Decryption looks at the bytes of the message alone. *)
Lemma RSAPublicDecrypt_prefix o l a b n k : firstn n a = firstn n b ->
  RSAPublicDecrypt o l a n k = RSAPublicDecrypt o l b n k.
Proof. intros H. unfold RSAPublicDecrypt, rsapublicfunc, NN_Decode. now rewrite H. Qed.

Lemma RSAPrivateDecrypt_prefix o l a b n k : firstn n a = firstn n b ->
  RSAPrivateDecrypt o l a n k = RSAPrivateDecrypt o l b n k.
Proof. intros H. unfold RSAPrivateDecrypt, rsaprivatefunc, NN_Decode. now rewrite H. Qed.

Lemma put_random_output n : forall i b r b' r', bytes (output r) -> put_random n i b r = Some (b', r') -> bytes (output r').
Proof.
  induction n as [|n IH]; intros i b r b' r' Ho; cbn [put_random]; [now intros [= <- <-]|].
  destruct (nonzero_byte r) as [[x r1]|] eqn:E; [|discriminate]. cbn [obind]. intros H.
  exact (IH _ _ _ _ _ (proj2 (nonzero_byte_ok _ _ _ Ho E)) H).
Qed.

(** ** Scanning the padding *)

Lemma scan_bounds stop n i b : (i <= scan stop n i b <= i + n)%nat.
Proof.
  revert i; induction n as [|n IH]; intros i; cbn [scan]; [lia|].
  destruct (stop (nth i b 0)); [lia|]. specialize (IH (S i)). lia.
Qed.

Lemma scan_before stop n i b j : (i <= j < scan stop n i b)%nat -> stop (nth j b 0) = false.
Proof.
  revert i; induction n as [|n IH]; intros i; cbn [scan]; [lia|].
  destruct (stop (nth i b 0)) eqn:E; [lia|]. intros H.
  destruct (Nat.eq_dec i j) as [<-|]; [auto|]. apply (IH (S i)). lia.
Qed.

Lemma scan_pad stop n i b m : (m <= n)%nat -> (forall j, (j < m)%nat -> stop (nth (i + j) b 0) = false) ->
  m = n \/ stop (nth (i + m) b 0) = true -> scan stop n i b = (i + m)%nat.
Proof.
  revert i m; induction n as [|n IH]; intros i m Hm Hf Hs; cbn [scan]; [lia|].
  destruct m as [|m].
  - destruct Hs as [|Hs]; [lia|]. rewrite Nat.add_0_r in *. now rewrite Hs.
  - pose proof (Hf 0%nat ltac:(lia)) as H0. rewrite Nat.add_0_r in H0. rewrite H0.
    rewrite (IH (S i) m); [lia|lia| |].
    + intros j Hj. replace (S i + j)%nat with (i + S j)%nat by lia. apply Hf. lia.
    + destruct Hs as [|Hs]; [lia|right]. now replace (S i + m)%nat with (i + S m)%nat by lia.
Qed.

Lemma nth_of_firstn j n (b : list Z) : (j < n)%nat -> nth j b 0 = nth j (firstn n b) 0.
Proof. intros H. rewrite nth_firstn. now rewrite (proj2 (Nat.ltb_lt j n) H). Qed.

(** The cells of a padded block. *)
Lemma block_cells b L t pad data : firstn L b = 0 :: t :: pad ++ 0 :: data ->
  L = (length pad + 3 + length data)%nat ->
  nth 0 b 0 = 0 /\ nth 1 b 0 = t /\
  (forall j, (j < length pad)%nat -> nth (2 + j) b 0 = nth j pad 0) /\
  nth (2 + length pad) b 0 = 0 /\
  firstn (length data) (skipn (2 + length pad + 1) b) = data.
Proof.
  intros E HL.
  assert (N : forall j, (j < L)%nat -> nth j b 0 = nth j (0 :: t :: pad ++ 0 :: data) 0)
    by (intros j Hj; rewrite (nth_of_firstn j L b Hj), E; reflexivity).
  splits; try (apply N; lia).
  - intros j Hj. rewrite N by lia. cbn [nth plus]. now rewrite app_nth1.
  - rewrite N by lia. cbn [nth plus]. rewrite app_nth2, Nat.sub_diag by lia. reflexivity.
  - rewrite firstn_skipn_comm. replace (2 + length pad + 1 + length data)%nat with L by lia.
    rewrite E. replace (2 + length pad + 1)%nat with (length (0 :: t :: pad ++ [0]))
      by (cbn [length]; rewrite length_app; cbn [length]; lia).
    replace (0 :: t :: pad ++ 0 :: data) with ((0 :: t :: pad ++ [0]) ++ data)
      by (cbn [app]; now rewrite <- app_assoc).
    rewrite skipn_app, skipn_all2, Nat.sub_diag by lia. reflexivity.
Qed.

(** ** The padded operations *)

Lemma bytes_pkcs0 : bytes pkcs0.
Proof. unfold pkcs0. auto with words. Qed.

#[local] Hint Resolve bytes_pkcs0 : words.

Lemma memcpy_out o (l : list Z) n : firstn n (R_memcpy o l n) = cells n l.
Proof. rewrite R_memcpy_store. rewrite <- (length_cells n l) at 1. apply firstn_store. Qed.

(** What [RSAPublicDecrypt] does with a recovered block of type 1. *)
Lemma public_decrypt_block o l s b L pad data pub : L = modulusLen (pub_bits pub) ->
  rsapublicfunc pkcs0 0 s L pub = Some (ID_OK, b, L) -> (L <= length b)%nat ->
  firstn L b = 0 :: 1 :: pad ++ 0 :: data -> pad = repeat 0xff (length pad) ->
  (8 <= length pad)%nat ->
  exists out, RSAPublicDecrypt o l s L pub = Some (ID_OK, out, length data) /\
              firstn (length data) out = data.
Proof.
  intros -> E Hb F Hp Hl. set (L := modulusLen (pub_bits pub)) in *.
  assert (HL : L = (length pad + 3 + length data)%nat).
  { apply (f_equal (@length Z)) in F. rewrite length_firstn, Nat.min_l in F by auto.
    cbn [length] in F. rewrite length_app in F. cbn [length] in F. lia. }
  destruct (block_cells b L 1 pad data F HL) as (C0 & C1 & Cp & Cs & Cd).
  unfold RSAPublicDecrypt. fold L. rewrite Nat.ltb_irrefl, E. cbn [obind Z.eqb negb].
  rewrite Nat.eqb_refl, C0, C1. cbn [negb Z.eqb orb].
  rewrite (scan_pad _ _ 2 b (length pad)).
  - rewrite Cs. cbn [negb Z.eqb]. replace (L - (2 + length pad + 1))%nat with (length data) by lia.
    rewrite (proj2 (Nat.ltb_ge L (length data + 11))) by lia.
    eexists. split; [reflexivity|]. rewrite memcpy_out, cells_firstn; [exact Cd|].
    rewrite length_skipn. lia.
  - lia.
  - intros j Hj. rewrite Cp, Hp, nth_repeat_lt by auto. reflexivity.
  - right. now rewrite Cs.
Qed.

Lemma private_decrypt_block o l s b L pad data priv : L = modulusLen (priv_bits priv) ->
  rsaprivatefunc pkcs0 0 s L priv = Some (ID_OK, b, L) -> (L <= length b)%nat ->
  firstn L b = 0 :: 2 :: pad ++ 0 :: data -> Forall nonzero_byte_p pad ->
  (8 <= length pad)%nat ->
  match data with
  | [] => RSAPrivateDecrypt o l s L priv = Some (RE_DATA, o, l)
  | _ => exists out, RSAPrivateDecrypt o l s L priv = Some (ID_OK, out, length data) /\
                     firstn (length data) out = data
  end.
Proof.
  intros -> E Hb F Hp Hl. set (L := modulusLen (priv_bits priv)) in *.
  assert (HL : L = (length pad + 3 + length data)%nat).
  { apply (f_equal (@length Z)) in F. rewrite length_firstn, Nat.min_l in F by auto.
    cbn [length] in F. rewrite length_app in F. cbn [length] in F. lia. }
  destruct (block_cells b L 2 pad data F HL) as (C0 & C1 & Cp & Cs & Cd).
  unfold RSAPrivateDecrypt. fold L. rewrite Nat.ltb_irrefl, E. cbn [obind Z.eqb negb].
  rewrite Nat.eqb_refl, C0, C1. cbn [negb Z.eqb Pos.eqb orb].
  rewrite (scan_pad _ _ 2 b (length pad)).
  - destruct data as [|x data'].
    { cbn [length] in HL. now rewrite (proj2 (Nat.leb_le L (2 + length pad + 1))) by lia. }
    set (data := x :: data') in *. assert (0 < length data)%nat by (cbn; lia).
    rewrite (proj2 (Nat.leb_gt L (2 + length pad + 1))) by lia.
    replace (L - (2 + length pad + 1))%nat with (length data) by lia.
    rewrite (proj2 (Nat.ltb_ge L (length data + 11))) by lia.
    eexists. split; [reflexivity|]. rewrite memcpy_out, cells_firstn; [exact Cd|].
    rewrite length_skipn. lia.
  - lia.
  - intros j Hj. rewrite Cp by auto. apply Z.eqb_neq.
    rewrite Forall_forall in Hp. apply Hp. now apply nth_In.
  - right. now rewrite Cs.
Qed.

Lemma firstn_full n (b l : list Z) : firstn n b = l -> length l = n -> (n <= length b)%nat.
Proof. intros <- H. rewrite length_firstn in H. lia. Qed.

Section PKCS.
Context (pub : R_RSA_PUBLIC_KEY) (priv : R_RSA_PRIVATE_KEY) (K : key_pair pub priv).
Let L := modulusLen (pub_bits pub).

Lemma pair_L : modulusLen (priv_bits priv) = L /\ (L <= 128)%nat.
Proof.
  split; [now apply pair_length|]. destruct K as [[V _ _] _ _ _].
  destruct (modulusLen_bounds _ _ V) as (_ & _ & H & _). apply H.
Qed.

(** Encryption with the private key (type 1) is undone by decryption with the public
    key. *)
Lemma type1_roundtrip o1 l1 o2 l2 input inputLen : bytes o1 -> bytes input ->
  (inputLen <= length input)%nat -> (inputLen + 11 <= L)%nat ->
  exists s out, RSAPrivateEncrypt o1 l1 input inputLen priv = Some (ID_OK, s, L) /\ bytes s /\
    RSAPublicDecrypt o2 l2 s L pub = Some (ID_OK, out, inputLen) /\
    firstn inputLen out = firstn inputLen input.
Proof.
  intros B1 Bi Hi Hl. destruct pair_L as [EL L128]. unfold RSAPrivateEncrypt. rewrite EL.
  rewrite (proj2 (Nat.ltb_ge L (inputLen + 11))) by lia.
  set (n := (L - inputLen - 1 - 2)%nat).
  set (X0 := upd (upd pkcs0 0 0) 1 1). set (X := put_ff n 2 X0).
  destruct (put_ff_spec n 2 X0) as [LX FX]; [unfold X0; rewrite !length_upd; cbn [length pkcs0]; unfold pkcs0; rewrite repeat_length; unfold MAX_RSA_MODULUS_LEN; lia|].
  assert (LX0 : length X0 = 128%nat) by reflexivity. fold X in LX, FX. rewrite LX0 in LX.
  assert (BX : bytes X).
  { apply bytes_put_ff. unfold X0. apply Forall_upd; [apply Forall_upd|]; auto with words; unfold is_byte; lia. }
  assert (Ln : length (repeat 255 n) = n) by apply repeat_length.
  destruct (block_shape X 1 (repeat 255 n) input inputLen LX BX Bi) as (Lb & Bb & Fb);
    [rewrite Ln; exact FX|auto|lia|]. rewrite Ln in Lb, Bb, Fb.
  set (b := at_ptr _ _ _) in *. replace (n + 3 + inputLen)%nat with L in Fb by lia.
  destruct (private_public pub priv K b o1 l1 pkcs0 0 Bb B1 bytes_pkcs0 ltac:(fold L; lia)
    (block_below _ _ _ _ (vp_modulus _ (kp_public _ _ K)) Bb Fb)) as (s & r & Es & Bs & Er & Br & Fr).
  fold L in Es, Er, Fr. rewrite Fb in Fr.
  assert (Ld : length (firstn inputLen input) = inputLen) by (rewrite length_firstn; lia).
  destruct (public_decrypt_block o2 l2 s r L (repeat 255 n) (firstn inputLen input) pub eq_refl Er)
    as (out & Eo & Fo); auto.
  { apply (firstn_full _ _ _ Fr). cbn [length]. rewrite length_app, Ln. cbn [length]. lia. }
  { rewrite Ln. lia. }
  rewrite Ld in *. exists s, out. auto.
Qed.

(** Encryption with the public key (type 2) is undone by decryption with the private
    key, for the padding bytes that were drawn; only the empty message is refused. *)
Lemma type2_roundtrip o1 l1 o2 l2 input inputLen random b' r' : bytes o1 -> bytes input ->
  (inputLen <= length input)%nat -> (inputLen + 11 <= L)%nat ->
  bytes (output random) -> bytesNeeded random = 0 ->
  put_random (L - inputLen - 3) 2 (upd (upd pkcs0 0 0) 1 2) random = Some (b', r') ->
  exists c, RSAPublicEncrypt o1 l1 input inputLen pub random = Some (ID_OK, c, L, r') /\ bytes c /\
    if (inputLen =? 0)%nat then RSAPrivateDecrypt o2 l2 c L priv = Some (RE_DATA, o2, l2)
    else exists out, RSAPrivateDecrypt o2 l2 c L priv = Some (ID_OK, out, inputLen) /\
                     firstn inputLen out = firstn inputLen input.
Proof.
  intros B1 Bi Hi Hl Bo H0 HR. destruct pair_L as [EL L128]. unfold RSAPublicEncrypt. fold L.
  rewrite (proj2 (Nat.ltb_ge L (inputLen + 11))) by lia.
  unfold R_GetRandomBytesNeeded. rewrite H0. cbn [Z.eqb negb].
  replace (L - inputLen - 1 - 2)%nat with (L - inputLen - 3)%nat by lia.
  set (n := (L - inputLen - 3)%nat) in *. rewrite HR. cbn [obind].
  set (X0 := upd (upd pkcs0 0 0) 1 2) in *.
  assert (LX0 : length X0 = 128%nat) by reflexivity.
  assert (BX0 : bytes X0).
  { unfold X0. apply Forall_upd; [apply Forall_upd|]; auto with words; unfold is_byte; lia. }
  destruct (put_random_spec n 2 X0 random b' r' ltac:(lia) Bo BX0 HR) as (pad & Lp & Fp & LX & BX & FX).
  rewrite LX0 in LX.
  destruct (block_shape b' 2 pad input inputLen LX BX Bi) as (Lb & Bb & Fb);
    [rewrite Lp; exact FX|auto|lia|]. rewrite Lp in Lb, Bb, Fb.
  set (b := at_ptr _ _ _) in *. replace (n + 3 + inputLen)%nat with L in Fb by lia.
  destruct (public_private pub priv K b o1 l1 pkcs0 0 Bb B1 bytes_pkcs0 ltac:(fold L; lia)
    (block_below _ _ _ _ (vp_modulus _ (kp_public _ _ K)) Bb Fb)) as (c & r & Ec & Bc & Er & Br & Fr).
  fold L in Ec, Er, Fr. rewrite Fb in Fr. rewrite Ec. cbn [obind].
  exists c. split; [reflexivity|]. split; [auto|].
  assert (Ld : length (firstn inputLen input) = inputLen) by (rewrite length_firstn; lia).
  pose proof (private_decrypt_block o2 l2 c r L pad (firstn inputLen input) priv (eq_sym EL) Er) as D.
  assert (D' := D ltac:(apply (firstn_full _ _ _ Fr); cbn [length]; rewrite length_app; cbn [length]; lia)
    Fr Fp ltac:(lia)). clear D.
  destruct (firstn inputLen input) as [|x data]; cbn [length] in Ld.
  - now rewrite <- Ld.
  - rewrite (proj2 (Nat.eqb_neq inputLen 0)) by lia. cbn [length] in D'. now rewrite Ld in D'.
Qed.
End PKCS.

(** ** Error branches *)

Lemma RSAPublicEncrypt_long o l input inputLen pub random :
  (modulusLen (pub_bits pub) < inputLen + 11)%nat ->
  RSAPublicEncrypt o l input inputLen pub random = Some (RE_LEN, o, l, random).
Proof. intros H. unfold RSAPublicEncrypt. now rewrite (proj2 (Nat.ltb_lt _ _) H). Qed.

Lemma RSAPublicEncrypt_unseeded o l input inputLen pub random :
  (inputLen + 11 <= modulusLen (pub_bits pub))%nat -> bytesNeeded random <> 0 ->
  RSAPublicEncrypt o l input inputLen pub random = Some (RE_NEED_RANDOM, o, l, random).
Proof.
  intros H H0. unfold RSAPublicEncrypt. rewrite (proj2 (Nat.ltb_ge _ _) H).
  unfold R_GetRandomBytesNeeded. apply Z.eqb_neq in H0. now rewrite H0.
Qed.

Lemma RSAPrivateEncrypt_long o l input inputLen priv :
  (modulusLen (priv_bits priv) < inputLen + 11)%nat ->
  RSAPrivateEncrypt o l input inputLen priv = Some (RE_LEN, o, l).
Proof. intros H. unfold RSAPrivateEncrypt. now rewrite (proj2 (Nat.ltb_lt _ _) H). Qed.

(** A signature block that is not below the modulus is refused. *)
Lemma RSAPublicDecrypt_range o l input inputLen pub : valid_public pub -> bytes input ->
  (inputLen <= modulusLen (pub_bits pub))%nat ->
  be (pub_modulus pub) <= be (firstn inputLen input) ->
  RSAPublicDecrypt o l input inputLen pub = Some (RE_DATA, o, l).
Proof.
  intros V Hi Hl Hge. unfold RSAPublicDecrypt. rewrite (proj2 (Nat.ltb_ge _ _) Hl).
  now rewrite (rsapublicfunc_range pub V) by auto.
Qed.

(** What [RSAPublicDecrypt] accepts: exactly a block of type 1 with at least eight
    bytes 0xff, whose data it delivers. *)
Lemma RSAPublicDecrypt_sound o l input inputLen pub out len : valid_public pub -> bytes input ->
  RSAPublicDecrypt o l input inputLen pub = Some (ID_OK, out, len) ->
  let L := modulusLen (pub_bits pub) in
  (inputLen <= L)%nat /\ be (firstn inputLen input) < be (pub_modulus pub) /\
  exists n block, (8 <= n)%nat /\ (n + 3 + len = L)%nat /\ length block = L /\
    be block = be (firstn inputLen input) ^ be (pub_exponent pub) mod be (pub_modulus pub) /\
    block = 0 :: 1 :: repeat 0xff n ++ 0 :: firstn len out.
Proof.
  intros V Hi. unfold RSAPublicDecrypt. set (L := modulusLen (pub_bits pub)).
  destruct (Nat.ltb_spec L inputLen) as [|HL]; [intros [=]|].
  destruct (Z_lt_ge_dec (be (firstn inputLen input)) (be (pub_modulus pub))) as [Hlt|Hge].
  2:{ rewrite (rsapublicfunc_range pub V) by (auto; lia). cbn [obind]. intros [=]. }
  destruct (rsapublicfunc_ok pub V pkcs0 0 input inputLen bytes_pkcs0 Hi HL Hlt) as (r & -> & Br & Lr & Vr).
  fold L in Lr, Vr |- *. cbn [obind Z.eqb negb]. rewrite Nat.eqb_refl. cbn [negb].
  destruct (Z.eqb_spec (nth 0 r 0) 0) as [C0|]; [|intros [=]].
  destruct (Z.eqb_spec (nth 1 r 0) 1) as [C1|]; [|intros [=]]. cbn [negb orb].
  set (stop := fun b => negb (b =? 0xff)).
  pose proof (scan_bounds stop (L - 1 - 2) 2 r) as SB.
  pose proof (scan_before stop (L - 1 - 2) 2 r) as SF.
  set (i := scan stop (L - 1 - 2) 2 r) in *.
  destruct (Z.eqb_spec (nth i r 0) 0) as [Ci|]; [|intros [=]]. cbn [negb].
  destruct (Nat.ltb_spec L (L - (i + 1) + 11)) as [|C]; [intros [=]|]. intros [= <- <-].
  splits; auto. exists (i - 2)%nat, (firstn L r). splits; auto; [lia|lia|].
  rewrite memcpy_out.
  assert (Hr : (L <= length r)%nat) by (rewrite length_firstn in Lr; lia).
  apply nth_ext with (d := 0) (d' := 0).
  - cbn [length]. rewrite Lr, length_app, repeat_length. cbn [length]. rewrite length_cells. lia.
  - intros j Hj. rewrite Lr in Hj. rewrite <- nth_of_firstn by auto.
    destruct j as [|[|j]]; [exact C0|exact C1|]. cbn [nth].
    destruct (Nat.lt_total (S (S j)) i) as [H|[H|H]].
    + rewrite app_nth1 by (rewrite repeat_length; lia). rewrite nth_repeat_lt by lia.
      specialize (SF (S (S j)) ltac:(lia)). unfold stop in SF.
      apply negb_false_iff, Z.eqb_eq in SF. exact SF.
    + rewrite app_nth2 by (rewrite repeat_length; lia). rewrite repeat_length.
      replace (j - (i - 2))%nat with 0%nat by lia. cbn [nth]. now rewrite H.
    + rewrite app_nth2 by (rewrite repeat_length; lia). rewrite repeat_length.
      replace (j - (i - 2))%nat with (S (S (S j) - (i + 1))) by lia. cbn [nth].
      rewrite cells_firstn by (rewrite length_skipn; lia).
      rewrite nth_firstn, (proj2 (Nat.ltb_lt _ _)) by lia. rewrite nth_skipn. f_equal. lia.
Qed.

(** ** A concrete key pair (two Proth primes), for evaluation *)

Module TestKey.
(** The modulus, of 512 bits, and the public exponent 65537. *)
Definition test_modulus : list Z :=
  repeat 0 64 ++ [181; 170; 187; 71; 77; 13; 107; 140; 139; 85; 62; 205; 213; 82; 126; 235; 112; 139; 50;
   197; 25; 42; 84; 114; 245; 120; 108; 242; 248; 142; 139; 65; 176; 229; 5; 99; 201; 2; 253;
   210; 110; 67; 186; 95; 93; 179; 44; 144; 0; 0; 0; 0; 0; 0; 0; 0; 0; 0; 0; 0; 0; 0; 0; 1].
Definition test_exponent : list Z := repeat 0 125 ++ [1; 0; 1].

Definition public : R_RSA_PUBLIC_KEY := mkPublicKey 512 test_modulus test_exponent.

Definition private : R_RSA_PRIVATE_KEY :=
  mkPrivateKey 512 test_modulus test_exponent
    (repeat 0 64 ++ [158; 0; 168; 114; 19; 42; 32; 232; 84; 39; 8; 64; 173; 208; 218; 98; 155; 183; 245; 168;
   71; 130; 241; 128; 42; 207; 90; 178; 216; 75; 226; 0; 255; 255; 0; 0; 255; 255; 0; 0; 255;
   255; 0; 0; 255; 255; 0; 0; 255; 255; 0; 0; 255; 255; 0; 0; 255; 255; 0; 0; 255; 255; 0; 1])
    (repeat 0 32 ++ [234; 245; 168; 106; 68; 51; 106; 71; 231; 233; 182; 139; 71; 63; 105; 24; 0; 0; 0; 0; 0; 0;
   0; 0; 0; 0; 0; 0; 0; 0; 0; 1])
    (repeat 0 32 ++ [197; 239; 92; 249; 132; 207; 147; 138; 134; 90; 3; 212; 22; 115; 195; 120; 0; 0; 0; 0; 0;
   0; 0; 0; 0; 0; 0; 0; 0; 0; 0; 1])
    (repeat 0 32 ++ [189; 50; 229; 211; 244; 105; 70; 138; 242; 119; 163; 51; 210; 66; 128; 120; 255; 255; 0; 0;
   255; 255; 0; 0; 255; 255; 0; 0; 255; 255; 0; 1])
    (repeat 0 32 ++ [149; 33; 173; 233; 137; 249; 99; 238; 193; 31; 93; 55; 20; 219; 143; 240; 255; 255; 0; 0;
   255; 255; 0; 0; 255; 255; 0; 0; 255; 255; 0; 1])
    (repeat 0 32 ++ [102; 136; 103; 148; 61; 67; 173; 247; 163; 90; 189; 91; 225; 194; 134; 133; 92; 170; 62;
   70; 153; 242; 78; 65; 61; 205; 111; 195; 168; 61; 17; 92]).

Lemma prime_p : Z.prime 106275246457678033376151006166987662276803589226353045161575557979380501184513.
Proof. apply (proth_check _ 39039359951014640600382593067343408419 131 5); vm_compute; reflexivity. Qed.

Lemma prime_q : Z.prime 89528549307062751667210779300943279988751472067350671396001745790400758546433.
Proof. apply (proth_check _ 32887594983677152306881292414563022959 131 5); vm_compute; reflexivity. Qed.

Lemma modulus_valid : valid_modulus 512 (pub_modulus public).
Proof.
  split; [check_bytes|reflexivity|vm_compute; split; [discriminate|reflexivity]|
          unfold MAX_RSA_MODULUS_BITS; lia].
Qed.

Lemma pair : key_pair public private.
Proof.
  split; [split| |reflexivity|reflexivity].
  - exact modulus_valid.
  - check_bytes.
  - reflexivity.
  - split; try reflexivity; splits; try reflexivity; try check_bytes.
    + exact modulus_valid.
    + change (be (prime0 private)) with 106275246457678033376151006166987662276803589226353045161575557979380501184513. exact prime_p.
    + change (be (prime1 private)) with 89528549307062751667210779300943279988751472067350671396001745790400758546433. exact prime_q.
Qed.
End TestKey.

(** ** The claims *)

(** The two raw operations undo each other on every block below the modulus: the
    public one computes m^e mod n, and the private one, which works modulo each prime and
    recombines by the Chinese remainder theorem, inverts it, in both orders. *)
Theorem RSA_raw_inverse (pub : R_RSA_PUBLIC_KEY) (priv : R_RSA_PRIVATE_KEY) (m o1 o2 : list Z) (l1 l2 : nat) :
  key_pair pub priv -> bytes m -> bytes o1 -> bytes o2 ->
  let L := modulusLen (pub_bits pub) in
  (L <= length m)%nat -> be (firstn L m) < be (pub_modulus pub) ->
  (exists c r, rsapublicfunc o1 l1 m L pub = Some (ID_OK, c, L) /\
     be (firstn L c) = be (firstn L m) ^ be (pub_exponent pub) mod be (pub_modulus pub) /\
     rsaprivatefunc o2 l2 c L priv = Some (ID_OK, r, L) /\ firstn L r = firstn L m) /\
  (exists s r, rsaprivatefunc o1 l1 m L priv = Some (ID_OK, s, L) /\
     rsapublicfunc o2 l2 s L pub = Some (ID_OK, r, L) /\ firstn L r = firstn L m).
Proof.
  intros K Bm B1 B2 L HL Hlt. split.
  - destruct (public_private pub priv K m o1 l1 o2 l2 Bm B1 B2 HL Hlt) as (c & r & E1 & _ & E2 & _ & E3).
    destruct (rsapublicfunc_ok pub (kp_public _ _ K) o1 l1 m L B1 Bm ltac:(unfold L; lia) Hlt)
      as (c' & E1' & _ & _ & V). unfold L in E1'. rewrite E1 in E1'. injection E1' as <-.
    exists c, r. splits; auto.
  - destruct (private_public pub priv K m o1 l1 o2 l2 Bm B1 B2 HL Hlt) as (s & r & E1 & _ & E2 & _ & E3).
    exists s, r. splits; auto.
Qed.

(** A message encrypted with the private key (block type 1) is recovered by decryption
    with the public key. *)
Theorem RSA_private_encrypt_public_decrypt (pub : R_RSA_PUBLIC_KEY) (priv : R_RSA_PRIVATE_KEY)
  (o1 o2 input : list Z) (l1 l2 inputLen : nat) : key_pair pub priv -> bytes o1 -> bytes input ->
  let L := modulusLen (pub_bits pub) in
  (inputLen <= length input)%nat -> (inputLen + 11 <= L)%nat ->
  exists s out, RSAPrivateEncrypt o1 l1 input inputLen priv = Some (ID_OK, s, L) /\
    RSAPublicDecrypt o2 l2 s L pub = Some (ID_OK, out, inputLen) /\
    firstn inputLen out = firstn inputLen input.
Proof.
  intros K B1 Bi L H1 H2.
  destruct (type1_roundtrip pub priv K o1 l1 o2 l2 input inputLen B1 Bi H1 H2) as (s & out & E1 & _ & E2 & E3).
  exists s, out. auto.
Qed.

(** A message encrypted with the public key (block type 2, random nonzero padding) is
    recovered by decryption with the private key, whenever nonzero padding bytes can be
    drawn; the empty message is encrypted but refused by the decryption. *)
Theorem RSA_public_encrypt_private_decrypt (pub : R_RSA_PUBLIC_KEY) (priv : R_RSA_PRIVATE_KEY)
  (o1 o2 input b' : list Z) (l1 l2 inputLen : nat) (random r' : R_RANDOM_STRUCT) :
  key_pair pub priv -> bytes o1 -> bytes o2 -> bytes input ->
  let L := modulusLen (pub_bits pub) in
  (inputLen <= length input)%nat -> (inputLen + 11 <= L)%nat ->
  bytes (output random) -> bytesNeeded random = 0 ->
  put_random (L - inputLen - 3) 2 (upd (upd pkcs0 0 0) 1 2) random = Some (b', r') ->
  exists c, RSAPublicEncrypt o1 l1 input inputLen pub random = Some (ID_OK, c, L, r') /\
    if (inputLen =? 0)%nat then RSAPrivateDecrypt o2 l2 c L priv = Some (RE_DATA, o2, l2)
    else exists out, RSAPrivateDecrypt o2 l2 c L priv = Some (ID_OK, out, inputLen) /\
                     firstn inputLen out = firstn inputLen input.
Proof.
  intros K B1 B2 Bi L H1 H2 Bo H0 Hp.
  destruct (type2_roundtrip pub priv K o1 l1 o2 l2 input inputLen random b' r' B1 Bi H1 H2 Bo H0 Hp)
    as (c & E1 & _ & E2).
  exists c. auto.
Qed.

(** What public decryption accepts.  Success means that the input, raised to the public
    exponent modulo n, is exactly a block 00 01 ff...ff 00 data with at least eight bytes ff,
    and the output is that data. *)
Theorem RSAPublicDecrypt_accepts (o input out : list Z) (l inputLen len : nat) (pub : R_RSA_PUBLIC_KEY) :
  valid_public pub -> bytes input ->
  RSAPublicDecrypt o l input inputLen pub = Some (ID_OK, out, len) ->
  let L := modulusLen (pub_bits pub) in
  (inputLen <= L)%nat /\ be (firstn inputLen input) < be (pub_modulus pub) /\
  exists n block, (8 <= n)%nat /\ (n + 3 + len = L)%nat /\ length block = L /\
    be block = be (firstn inputLen input) ^ be (pub_exponent pub) mod be (pub_modulus pub) /\
    block = 0 :: 1 :: repeat 0xff n ++ 0 :: firstn len out.
Proof. apply RSAPublicDecrypt_sound. Qed.

(** Refusals.  A message longer than the modulus less eleven bytes is refused with
    [RE_LEN] by both encryptions, an unseeded random structure with [RE_NEED_RANDOM], and a
    cipher not below the modulus with [RE_DATA], all with the outputs unchanged. *)
Theorem RSA_refusals (o input : list Z) (l inputLen : nat) (pub : R_RSA_PUBLIC_KEY)
  (priv : R_RSA_PRIVATE_KEY) (random : R_RANDOM_STRUCT) : valid_public pub -> bytes input ->
  ((modulusLen (pub_bits pub) < inputLen + 11)%nat ->
   RSAPublicEncrypt o l input inputLen pub random = Some (RE_LEN, o, l, random)) /\
  ((inputLen + 11 <= modulusLen (pub_bits pub))%nat -> bytesNeeded random <> 0 ->
   RSAPublicEncrypt o l input inputLen pub random = Some (RE_NEED_RANDOM, o, l, random)) /\
  ((modulusLen (priv_bits priv) < inputLen + 11)%nat ->
   RSAPrivateEncrypt o l input inputLen priv = Some (RE_LEN, o, l)) /\
  ((inputLen <= modulusLen (pub_bits pub))%nat -> be (pub_modulus pub) <= be (firstn inputLen input) ->
   RSAPublicDecrypt o l input inputLen pub = Some (RE_DATA, o, l)).
Proof.
  intros V Bi. splits.
  - apply RSAPublicEncrypt_long.
  - apply RSAPublicEncrypt_unseeded.
  - apply RSAPrivateEncrypt_long.
  - now apply RSAPublicDecrypt_range.
Qed.

(** Witnesses, with the concrete key pair. *)
Import TestKey.

Lemma RSA_raw_inverse_witness :
  (exists c r, rsapublicfunc (repeat 0 128) 0 (0 :: repeat 5 63) 64 public = Some (ID_OK, c, 64%nat) /\
     be (firstn 64 c) = be (firstn 64 (0 :: repeat 5 63)) ^ be (pub_exponent public) mod be (pub_modulus public) /\
     rsaprivatefunc (repeat 0 128) 0 c 64 private = Some (ID_OK, r, 64%nat) /\
     firstn 64 r = firstn 64 (0 :: repeat 5 63)) /\
  (exists s r, rsaprivatefunc (repeat 0 128) 0 (0 :: repeat 5 63) 64 private = Some (ID_OK, s, 64%nat) /\
     rsapublicfunc (repeat 0 128) 0 s 64 public = Some (ID_OK, r, 64%nat) /\
     firstn 64 r = firstn 64 (0 :: repeat 5 63)).
Proof.
  apply (RSA_raw_inverse public private (0 :: repeat 5 63) (repeat 0 128) (repeat 0 128) 0 0 TestKey.pair);
    [check_bytes|check_bytes|check_bytes|apply Nat.leb_le; reflexivity|vm_compute; reflexivity].
Defined.

Lemma RSA_private_encrypt_public_decrypt_witness :
  exists s out, RSAPrivateEncrypt (repeat 0 128) 0 (repeat 9 40) 40 private = Some (ID_OK, s, 64%nat) /\
    RSAPublicDecrypt [] 0 s 64 public = Some (ID_OK, out, 40%nat) /\ firstn 40 out = firstn 40 (repeat 9 40).
Proof.
  apply (RSA_private_encrypt_public_decrypt public private (repeat 0 128) [] (repeat 9 40) 0 0 40 TestKey.pair);
    [check_bytes|check_bytes|apply Nat.leb_le; reflexivity|apply Nat.leb_le; reflexivity].
Defined.

Definition test_random : R_RANDOM_STRUCT := mkRandom 0 (repeat 1 16) 0 (repeat 0 16).

Lemma RSA_public_encrypt_private_decrypt_witness :
  exists r' c, RSAPublicEncrypt (repeat 0 128) 0 [1; 2; 3] 3 public test_random = Some (ID_OK, c, 64%nat, r') /\
    exists out, RSAPrivateDecrypt (repeat 0 128) 0 c 64 private = Some (ID_OK, out, 3%nat) /\
                firstn 3 out = [1; 2; 3].
Proof.
  destruct (put_random (64 - 3 - 3) 2 (upd (upd pkcs0 0 0) 1 2) test_random) as [[b r']|] eqn:E;
    [|vm_compute in E; discriminate E].
  exists r'.
  assert (B0 : bytes (repeat 0 128)) by check_bytes. assert (B1 : bytes [1; 2; 3]) by check_bytes.
  assert (B2 : bytes (output test_random)) by check_bytes.
  pose proof (RSA_public_encrypt_private_decrypt public private (repeat 0 128) (repeat 0 128) [1; 2; 3] b
    0 0 3 test_random r' TestKey.pair B0 B0 B1) as H.
  change (modulusLen (pub_bits public)) with 64%nat in H. cbv zeta in H.
  exact (H ltac:(apply Nat.leb_le; reflexivity) ltac:(apply Nat.leb_le; reflexivity) B2 eq_refl E).
Defined.

(** The signature of [7; 8]. *)
Definition test_signature : list Z :=
  [61; 48; 96; 82; 103; 196; 24; 150; 96; 159; 197; 224; 185; 122; 50; 236; 54; 249; 100; 254;
   137; 123; 73; 200; 225; 152; 24; 146; 157; 144; 34; 241; 209; 23; 179; 70; 229; 142; 160;
   5; 198; 225; 3; 97; 253; 147; 51; 199; 15; 46; 127; 90; 43; 182; 205; 195; 25; 139; 46;
   103; 52; 248; 228; 225].

Lemma test_signature_opens :
  RSAPublicDecrypt [0; 0] 0 test_signature 64 public = Some (ID_OK, [7; 8], 2%nat).
Proof. vm_compute. reflexivity. Qed.

Lemma RSAPublicDecrypt_accepts_witness :
  (64 <= 64)%nat /\ be (firstn 64 test_signature) < be (pub_modulus public) /\
  exists n block, (8 <= n)%nat /\ (n + 3 + 2 = 64)%nat /\ length block = 64%nat /\
    be block = be (firstn 64 test_signature) ^ be (pub_exponent public) mod be (pub_modulus public) /\
    block = 0 :: 1 :: repeat 0xff n ++ 0 :: firstn 2 [7; 8].
Proof.
  exact (RSAPublicDecrypt_accepts [0; 0] test_signature [7; 8] 0 64 2 public (kp_public _ _ TestKey.pair)
    ltac:(check_bytes) test_signature_opens).
Defined.

Lemma RSA_refusals_witness :
  RSAPublicEncrypt [0] 0 (repeat 1 60) 60 public test_random = Some (RE_LEN, [0], 0%nat, test_random) /\
  RSAPublicDecrypt [0] 0 (repeat 255 60 ++ repeat 255 4) 64 public = Some (RE_DATA, [0], 0%nat).
Proof.
  split.
  - apply (RSA_refusals [0] (repeat 1 60) 0 60 public private test_random (kp_public _ _ TestKey.pair));
      [check_bytes|apply Nat.leb_le; reflexivity].
  - apply (RSA_refusals [0] (repeat 255 60 ++ repeat 255 4) 0 64 public private test_random
      (kp_public _ _ TestKey.pair)); [check_bytes|apply Nat.leb_le; reflexivity|vm_compute; discriminate].
Defined.
