(* ===== verification/DES.v ===== *)
(** * DES: DES, triple DES and DESX in CBC mode (src/QBase/RSAEuro/desc.c)

    [desfunc] works in [unsigned long] variables, whose width is a parameter [LW]
    of the model: 32 bits on the 32-bit and Windows targets, 64 on 64-bit Unix.
    For [LW = 32] the theorems show that decryption inverts encryption for the
    block function and for the three chaining modes, across any number of
    updates, and the key schedule for decryption is the reversed one; for
    [LW = 64] a computation shows that the block function is not DES and that
    decryption fails. *)

From Stdlib Require Import Btauto.
From S2P Require Import Prelude Rsaeuro MDBuffer.

(** ** Tables *)

Definition bytebit : list Z :=
  [128; 64; 32; 16; 8; 4; 2; 1].

Definition bigbyte : list Z :=
  [0x800000; 0x400000; 0x200000; 0x100000; 0x80000; 0x40000; 0x20000; 0x10000;
   0x8000; 0x4000; 0x2000; 0x1000; 0x800; 0x400; 0x200; 0x100;
   0x80; 0x40; 0x20; 0x10; 0x8; 0x4; 0x2; 0x1].

Definition totrot : list nat :=
  [1; 2; 4; 6; 8; 10; 12; 14; 15; 17; 19; 21; 23; 25; 27; 28]%nat.

Definition pc1 : list nat :=
  [56; 48; 40; 32; 24; 16; 8; 0; 57; 49; 41; 33; 25; 17;
   9; 1; 58; 50; 42; 34; 26; 18; 10; 2; 59; 51; 43; 35;
   62; 54; 46; 38; 30; 22; 14; 6; 61; 53; 45; 37; 29; 21;
   13; 5; 60; 52; 44; 36; 28; 20; 12; 4; 27; 19; 11; 3]%nat.

Definition pc2 : list nat :=
  [13; 16; 10; 23; 0; 4; 2; 27; 14; 5; 20; 9;
   22; 18; 11; 3; 25; 7; 15; 6; 26; 19; 12; 1;
   40; 51; 30; 36; 46; 54; 29; 39; 50; 44; 32; 47;
   43; 48; 38; 55; 33; 52; 45; 41; 49; 35; 28; 31]%nat.

Definition Spbox0 : list Z :=
  [0x01010400; 0x00000000; 0x00010000; 0x01010404; 0x01010004; 0x00010404; 0x00000004; 0x00010000;
   0x00000400; 0x01010400; 0x01010404; 0x00000400; 0x01000404; 0x01010004; 0x01000000; 0x00000004;
   0x00000404; 0x01000400; 0x01000400; 0x00010400; 0x00010400; 0x01010000; 0x01010000; 0x01000404;
   0x00010004; 0x01000004; 0x01000004; 0x00010004; 0x00000000; 0x00000404; 0x00010404; 0x01000000;
   0x00010000; 0x01010404; 0x00000004; 0x01010000; 0x01010400; 0x01000000; 0x01000000; 0x00000400;
   0x01010004; 0x00010000; 0x00010400; 0x01000004; 0x00000400; 0x00000004; 0x01000404; 0x00010404;
   0x01010404; 0x00010004; 0x01010000; 0x01000404; 0x01000004; 0x00000404; 0x00010404; 0x01010400;
   0x00000404; 0x01000400; 0x01000400; 0x00000000; 0x00010004; 0x00010400; 0x00000000; 0x01010004].

Definition Spbox1 : list Z :=
  [0x80108020; 0x80008000; 0x00008000; 0x00108020; 0x00100000; 0x00000020; 0x80100020; 0x80008020;
   0x80000020; 0x80108020; 0x80108000; 0x80000000; 0x80008000; 0x00100000; 0x00000020; 0x80100020;
   0x00108000; 0x00100020; 0x80008020; 0x00000000; 0x80000000; 0x00008000; 0x00108020; 0x80100000;
   0x00100020; 0x80000020; 0x00000000; 0x00108000; 0x00008020; 0x80108000; 0x80100000; 0x00008020;
   0x00000000; 0x00108020; 0x80100020; 0x00100000; 0x80008020; 0x80100000; 0x80108000; 0x00008000;
   0x80100000; 0x80008000; 0x00000020; 0x80108020; 0x00108020; 0x00000020; 0x00008000; 0x80000000;
   0x00008020; 0x80108000; 0x00100000; 0x80000020; 0x00100020; 0x80008020; 0x80000020; 0x00100020;
   0x00108000; 0x00000000; 0x80008000; 0x00008020; 0x80000000; 0x80100020; 0x80108020; 0x00108000].

Definition Spbox2 : list Z :=
  [0x00000208; 0x08020200; 0x00000000; 0x08020008; 0x08000200; 0x00000000; 0x00020208; 0x08000200;
   0x00020008; 0x08000008; 0x08000008; 0x00020000; 0x08020208; 0x00020008; 0x08020000; 0x00000208;
   0x08000000; 0x00000008; 0x08020200; 0x00000200; 0x00020200; 0x08020000; 0x08020008; 0x00020208;
   0x08000208; 0x00020200; 0x00020000; 0x08000208; 0x00000008; 0x08020208; 0x00000200; 0x08000000;
   0x08020200; 0x08000000; 0x00020008; 0x00000208; 0x00020000; 0x08020200; 0x08000200; 0x00000000;
   0x00000200; 0x00020008; 0x08020208; 0x08000200; 0x08000008; 0x00000200; 0x00000000; 0x08020008;
   0x08000208; 0x00020000; 0x08000000; 0x08020208; 0x00000008; 0x00020208; 0x00020200; 0x08000008;
   0x08020000; 0x08000208; 0x00000208; 0x08020000; 0x00020208; 0x00000008; 0x08020008; 0x00020200].

Definition Spbox3 : list Z :=
  [0x00802001; 0x00002081; 0x00002081; 0x00000080; 0x00802080; 0x00800081; 0x00800001; 0x00002001;
   0x00000000; 0x00802000; 0x00802000; 0x00802081; 0x00000081; 0x00000000; 0x00800080; 0x00800001;
   0x00000001; 0x00002000; 0x00800000; 0x00802001; 0x00000080; 0x00800000; 0x00002001; 0x00002080;
   0x00800081; 0x00000001; 0x00002080; 0x00800080; 0x00002000; 0x00802080; 0x00802081; 0x00000081;
   0x00800080; 0x00800001; 0x00802000; 0x00802081; 0x00000081; 0x00000000; 0x00000000; 0x00802000;
   0x00002080; 0x00800080; 0x00800081; 0x00000001; 0x00802001; 0x00002081; 0x00002081; 0x00000080;
   0x00802081; 0x00000081; 0x00000001; 0x00002000; 0x00800001; 0x00002001; 0x00802080; 0x00800081;
   0x00002001; 0x00002080; 0x00800000; 0x00802001; 0x00000080; 0x00800000; 0x00002000; 0x00802080].

Definition Spbox4 : list Z :=
  [0x00000100; 0x02080100; 0x02080000; 0x42000100; 0x00080000; 0x00000100; 0x40000000; 0x02080000;
   0x40080100; 0x00080000; 0x02000100; 0x40080100; 0x42000100; 0x42080000; 0x00080100; 0x40000000;
   0x02000000; 0x40080000; 0x40080000; 0x00000000; 0x40000100; 0x42080100; 0x42080100; 0x02000100;
   0x42080000; 0x40000100; 0x00000000; 0x42000000; 0x02080100; 0x02000000; 0x42000000; 0x00080100;
   0x00080000; 0x42000100; 0x00000100; 0x02000000; 0x40000000; 0x02080000; 0x42000100; 0x40080100;
   0x02000100; 0x40000000; 0x42080000; 0x02080100; 0x40080100; 0x00000100; 0x02000000; 0x42080000;
   0x42080100; 0x00080100; 0x42000000; 0x42080100; 0x02080000; 0x00000000; 0x40080000; 0x42000000;
   0x00080100; 0x02000100; 0x40000100; 0x00080000; 0x00000000; 0x40080000; 0x02080100; 0x40000100].

Definition Spbox5 : list Z :=
  [0x20000010; 0x20400000; 0x00004000; 0x20404010; 0x20400000; 0x00000010; 0x20404010; 0x00400000;
   0x20004000; 0x00404010; 0x00400000; 0x20000010; 0x00400010; 0x20004000; 0x20000000; 0x00004010;
   0x00000000; 0x00400010; 0x20004010; 0x00004000; 0x00404000; 0x20004010; 0x00000010; 0x20400010;
   0x20400010; 0x00000000; 0x00404010; 0x20404000; 0x00004010; 0x00404000; 0x20404000; 0x20000000;
   0x20004000; 0x00000010; 0x20400010; 0x00404000; 0x20404010; 0x00400000; 0x00004010; 0x20000010;
   0x00400000; 0x20004000; 0x20000000; 0x00004010; 0x20000010; 0x20404010; 0x00404000; 0x20400000;
   0x00404010; 0x20404000; 0x00000000; 0x20400010; 0x00000010; 0x00004000; 0x20400000; 0x00404010;
   0x00004000; 0x00400010; 0x20004010; 0x00000000; 0x20404000; 0x20000000; 0x00400010; 0x20004010].

Definition Spbox6 : list Z :=
  [0x00200000; 0x04200002; 0x04000802; 0x00000000; 0x00000800; 0x04000802; 0x00200802; 0x04200800;
   0x04200802; 0x00200000; 0x00000000; 0x04000002; 0x00000002; 0x04000000; 0x04200002; 0x00000802;
   0x04000800; 0x00200802; 0x00200002; 0x04000800; 0x04000002; 0x04200000; 0x04200800; 0x00200002;
   0x04200000; 0x00000800; 0x00000802; 0x04200802; 0x00200800; 0x00000002; 0x04000000; 0x00200800;
   0x04000000; 0x00200800; 0x00200000; 0x04000802; 0x04000802; 0x04200002; 0x04200002; 0x00000002;
   0x00200002; 0x04000000; 0x04000800; 0x00200000; 0x04200800; 0x00000802; 0x00200802; 0x04200800;
   0x00000802; 0x04000002; 0x04200802; 0x04200000; 0x00200800; 0x00000000; 0x00000002; 0x04200802;
   0x00000000; 0x00200802; 0x04200000; 0x00000800; 0x04000002; 0x04000800; 0x00000800; 0x00200002].

Definition Spbox7 : list Z :=
  [0x10001040; 0x00001000; 0x00040000; 0x10041040; 0x10000000; 0x10001040; 0x00000040; 0x10000000;
   0x00040040; 0x10040000; 0x10041040; 0x00041000; 0x10041000; 0x00041040; 0x00001000; 0x00000040;
   0x10040000; 0x10000040; 0x10001000; 0x00001040; 0x00041000; 0x00040040; 0x10040040; 0x10041000;
   0x00001040; 0x00000000; 0x00000000; 0x10040040; 0x10000040; 0x10001000; 0x00041040; 0x00040000;
   0x00041040; 0x00040000; 0x10041000; 0x00001000; 0x00000040; 0x10040040; 0x00001000; 0x00041040;
   0x10001000; 0x00000040; 0x10000040; 0x10040000; 0x10040040; 0x10000000; 0x00040000; 0x10001040;
   0x00000000; 0x10041040; 0x00040040; 0x10000040; 0x10040000; 0x10001000; 0x10001040; 0x00000000;
   0x10041040; 0x00041000; 0x00041000; 0x00001040; 0x00001040; 0x00040040; 0x10000000; 0x10041000].

(** ** Definitions *)

(** One word of [scrunch]: four bytes, most significant first. *)
Definition scrunch_word (b : list Z) : Z :=
  ((nth 0 b 0 .& 0xff) .<< 24) .| ((nth 1 b 0 .& 0xff) .<< 16)
  .| ((nth 2 b 0 .& 0xff) .<< 8) .| (nth 3 b 0 .& 0xff).

(** Two words from eight bytes. *)
Definition scrunch (outof : list Z) : Z * Z := (scrunch_word outof, scrunch_word (skipn 4 outof)).

Definition unscrunch_word (x : Z) : list Z :=
  [(x .>> 24) .& 0xff; (x .>> 16) .& 0xff; (x .>> 8) .& 0xff; x .& 0xff].

Definition unscrunch (outof : Z * Z) : list Z :=
  unscrunch_word (fst outof) ++ unscrunch_word (snd outof).

(** [*raw0], [*raw1] to the two words of a round key. *)
Definition cook (raw0 raw1 : Z) : Z * Z :=
  (w32 ((raw0 .& 0x00fc0000) .<< 6) .| w32 ((raw0 .& 0x00000fc0) .<< 10)
   .| ((raw1 .& 0x00fc0000) .>> 10) .| ((raw1 .& 0x00000fc0) .>> 6),
   w32 ((raw0 .& 0x0003f000) .<< 12) .| w32 ((raw0 .& 0x0000003f) .<< 16)
   .| ((raw1 .& 0x0003f000) .>> 4) .| (raw1 .& 0x0000003f)).

(** The loop of [cookey]: [cooked] is the index of the next round key in [subkeys]. *)
Fixpoint cookey_loop (n i : nat) (subkeys kn : list Z) (cooked increment : Z) : list Z :=
  match n with
  | O => subkeys
  | S n =>
      let '(c0, c1) := cook (nth (2 * i) kn 0) (nth (2 * i + 1) kn 0) in
      let subkeys := upd subkeys (Z.to_nat cooked) c0 in
      let cooked := cooked + 1 in
      let subkeys := upd subkeys (Z.to_nat cooked) c1 in
      cookey_loop n (S i) subkeys kn (cooked + increment) increment
  end.

Definition cookey (subkeys kn : list Z) (encrypt : bool) : list Z :=
  let cooked := if encrypt then 0 else 30 in
  let increment := if encrypt then 1 else -3 in
  cookey_loop 16 0 subkeys kn cooked increment.

(** The key bits selected by [pc1]. *)
Definition pc1m (key : list Z) : list bool :=
  map (fun l => negb (nth (l / 8) key 0 .& nth (l mod 8) bytebit 0 =? 0)) pc1.

(** The bits of round [i], each half rotated. *)
Definition pcr (pc1m : list bool) (i : nat) : list bool :=
  map (fun j =>
    let l := (j + nth i totrot 0)%nat in
    if (j <? 28)%nat then
      if (l <? 28)%nat then nth l pc1m false else nth (l - 28) pc1m false
    else if (l <? 56)%nat then nth l pc1m false else nth (l - 28) pc1m false) (seq 0 56).

(** [kn[m]] or [kn[n]]: the bits that [pc2] selects from position [off]. *)
Definition kn_word (pcr : list bool) (off : nat) : Z :=
  fold_left (fun acc j =>
    if nth (nth (j + off) pc2 0%nat) pcr false then acc .| nth j bigbyte 0 else acc) (seq 0 24) 0.

Definition deskey (subkeys key : list Z) (encrypt : bool) : list Z :=
  let kn := flat_map (fun i => let r := pcr (pc1m key) i in [kn_word r 0; kn_word r 24]) (seq 0 16) in
  cookey subkeys kn encrypt.

Section Width.
Context (LW : Z).

(** The conversion to [unsigned long]. *)
Definition wL (x : Z) : Z := x mod 2 ^ LW.

(** The macro [F(l,r,key)]. *)
Definition F (l r key0 key1 : Z) : Z :=
  let work := ((r .>> 4) .| wL (r .<< 28)) .^ key0 in
  let l := l .^ nth (Z.to_nat (work .& 0x3f)) Spbox6 0 in
  let l := l .^ nth (Z.to_nat ((work .>> 8) .& 0x3f)) Spbox4 0 in
  let l := l .^ nth (Z.to_nat ((work .>> 16) .& 0x3f)) Spbox2 0 in
  let l := l .^ nth (Z.to_nat ((work .>> 24) .& 0x3f)) Spbox0 0 in
  let work := r .^ key1 in
  let l := l .^ nth (Z.to_nat (work .& 0x3f)) Spbox7 0 in
  let l := l .^ nth (Z.to_nat ((work .>> 8) .& 0x3f)) Spbox5 0 in
  let l := l .^ nth (Z.to_nat ((work .>> 16) .& 0x3f)) Spbox3 0 in
  l .^ nth (Z.to_nat ((work .>> 24) .& 0x3f)) Spbox1 0.

(** [work = ((x >> n) ^ y) & mask; y ^= work; x ^= work << n;] *)
Definition delta_swap (n mask : Z) (x y : Z) : Z * Z :=
  let work := ((x .>> n) .^ y) .& mask in
  (x .^ wL (work .<< n), y .^ work).

(** The initial permutation of [left] and [right]. *)
Definition des_initial (lft rgt : Z) : Z * Z :=
  let '(lft, rgt) := delta_swap 4 0x0f0f0f0f lft rgt in
  let '(lft, rgt) := delta_swap 16 0xffff lft rgt in
  let '(rgt, lft) := delta_swap 2 0x33333333 rgt lft in
  let '(rgt, lft) := delta_swap 8 0xff00ff rgt lft in
  let rgt := wL (rgt .<< 1) .| (rgt .>> 31) in
  let work := (lft .^ rgt) .& 0xaaaaaaaa in
  let lft := lft .^ work in
  let rgt := rgt .^ work in
  let lft := wL (lft .<< 1) .| (lft .>> 31) in
  (lft, rgt).

(** The 16 rounds, two at a time. *)
Fixpoint des_rounds (n i : nat) (ks : list Z) (lft rgt : Z) : Z * Z :=
  match n with
  | O => (lft, rgt)
  | S n =>
      let lft := F lft rgt (nth (4 * i) ks 0) (nth (4 * i + 1) ks 0) in
      let rgt := F rgt lft (nth (4 * i + 2) ks 0) (nth (4 * i + 3) ks 0) in
      des_rounds n (S i) ks lft rgt
  end.

(** The final permutation, and the two words of the block. *)
Definition des_final (lft rgt : Z) : Z * Z :=
  let rgt := wL (rgt .<< 31) .| (rgt .>> 1) in
  let work := (lft .^ rgt) .& 0xaaaaaaaa in
  let lft := lft .^ work in
  let rgt := rgt .^ work in
  let lft := (lft .>> 1) .| wL (lft .<< 31) in
  let '(lft, rgt) := delta_swap 8 0xff00ff lft rgt in
  let '(lft, rgt) := delta_swap 2 0x33333333 lft rgt in
  let '(rgt, lft) := delta_swap 16 0xffff rgt lft in
  let '(rgt, lft) := delta_swap 4 0x0f0f0f0f rgt lft in
  (w32 rgt, w32 lft).

Definition desfunc (block : Z * Z) (ks : list Z) : Z * Z :=
  let '(lft, rgt) := des_initial (fst block) (snd block) in
  let '(lft, rgt) := des_rounds 8 0 ks lft rgt in
  des_final lft rgt.

Definition xor2 (a b : Z * Z) : Z * Z := (fst a .^ fst b, snd a .^ snd b).

(** The loop of the three updates: [step] treats one block given the chaining value.
    It answers the output and the new chaining value. *)
Fixpoint cbc_loop (step : Z * Z -> Z * Z -> (Z * Z) * (Z * Z)) (blocks : nat) (iv : Z * Z)
  (input : list Z) : list Z * (Z * Z) :=
  match blocks with
  | O => ([], iv)
  | S n =>
      let '(work, iv) := step iv (scrunch input) in
      let '(output, iv) := cbc_loop step n iv (skipn 8 input) in
      (unscrunch work ++ output, iv)
  end.

(** DES in CBC mode. *)
Record DES_CBC_CTX := mkDES {
  des_subkeys : list Z; des_iv : Z * Z; des_originalIV : Z * Z; des_encrypt : bool }.

Definition DES_CBCInit (context : DES_CBC_CTX) (key iv : list Z) (encrypt : bool) : DES_CBC_CTX :=
  mkDES (deskey (des_subkeys context) key encrypt) (scrunch iv) (scrunch iv) encrypt.

Definition DES_block (context : DES_CBC_CTX) (iv inputBlock : Z * Z) : (Z * Z) * (Z * Z) :=
  if des_encrypt context then
    let work := desfunc (xor2 inputBlock iv) (des_subkeys context) in (work, work)
  else
    let work := desfunc inputBlock (des_subkeys context) in (xor2 work iv, inputBlock).

(** Status, output and context. *)
Definition DES_CBCUpdate (context : DES_CBC_CTX) (input : list Z) (len : nat)
  : Z * list Z * DES_CBC_CTX :=
  if negb (Nat.eqb (len mod 8) 0) then (RE_LEN, [], context)
  else
    let '(output, iv) := cbc_loop (DES_block context) (len / 8) (des_iv context) input in
    (ID_OK, output, mkDES (des_subkeys context) iv (des_originalIV context) (des_encrypt context)).

Definition DES_CBCRestart (context : DES_CBC_CTX) : DES_CBC_CTX :=
  mkDES (des_subkeys context) (des_originalIV context) (des_originalIV context) (des_encrypt context).

(** DESX: whiteners before and after. *)
Record DESX_CBC_CTX := mkDESX {
  desx_subkeys : list Z; desx_iv : Z * Z; inputWhitener : Z * Z; outputWhitener : Z * Z;
  desx_originalIV : Z * Z; desx_encrypt : bool }.

Definition DESX_CBCInit (context : DESX_CBC_CTX) (key iv : list Z) (encrypt : bool) : DESX_CBC_CTX :=
  mkDESX (deskey (desx_subkeys context) key encrypt) (scrunch iv) (scrunch (skipn 8 key))
    (scrunch (skipn 16 key)) (scrunch iv) encrypt.

Definition DESX_block (context : DESX_CBC_CTX) (iv inputBlock : Z * Z) : (Z * Z) * (Z * Z) :=
  if desx_encrypt context then
    let work := desfunc (xor2 (xor2 inputBlock iv) (inputWhitener context)) (desx_subkeys context) in
    let work := xor2 work (outputWhitener context) in (work, work)
  else
    let work := desfunc (xor2 inputBlock (outputWhitener context)) (desx_subkeys context) in
    (xor2 work (xor2 iv (inputWhitener context)), inputBlock).

Definition DESX_CBCUpdate (context : DESX_CBC_CTX) (input : list Z) (len : nat)
  : Z * list Z * DESX_CBC_CTX :=
  if negb (Nat.eqb (len mod 8) 0) then (RE_LEN, [], context)
  else
    let '(output, iv) := cbc_loop (DESX_block context) (len / 8) (desx_iv context) input in
    (ID_OK, output, mkDESX (desx_subkeys context) iv (inputWhitener context)
      (outputWhitener context) (desx_originalIV context) (desx_encrypt context)).

Definition DESX_CBCRestart (context : DESX_CBC_CTX) : DESX_CBC_CTX :=
  mkDESX (desx_subkeys context) (desx_originalIV context) (inputWhitener context)
    (outputWhitener context) (desx_originalIV context) (desx_encrypt context).

(** Triple DES: three key schedules. *)
Record DES3_CBC_CTX := mkDES3 {
  des3_subkeys : list (list Z); des3_iv : Z * Z; des3_originalIV : Z * Z; des3_encrypt : bool }.

Definition DES3_CBCInit (context : DES3_CBC_CTX) (key iv : list Z) (encrypt : bool) : DES3_CBC_CTX :=
  let sub i := nth i (des3_subkeys context) [] in
  mkDES3 [deskey (sub 0%nat) (if encrypt then key else skipn 16 key) encrypt;
          deskey (sub 1%nat) (skipn 8 key) (negb encrypt);
          deskey (sub 2%nat) (if encrypt then skipn 16 key else key) encrypt]
    (scrunch iv) (scrunch iv) encrypt.

Definition DES3_func (work : Z * Z) (subkeys : list (list Z)) : Z * Z :=
  let work := desfunc work (nth 0 subkeys []) in
  let work := desfunc work (nth 1 subkeys []) in
  desfunc work (nth 2 subkeys []).

Definition DES3_block (context : DES3_CBC_CTX) (iv inputBlock : Z * Z) : (Z * Z) * (Z * Z) :=
  if des3_encrypt context then
    let work := DES3_func (xor2 inputBlock iv) (des3_subkeys context) in (work, work)
  else
    let work := DES3_func inputBlock (des3_subkeys context) in (xor2 work iv, inputBlock).

Definition DES3_CBCUpdate (context : DES3_CBC_CTX) (input : list Z) (len : nat)
  : Z * list Z * DES3_CBC_CTX :=
  if negb (Nat.eqb (len mod 8) 0) then (RE_LEN, [], context)
  else
    let '(output, iv) := cbc_loop (DES3_block context) (len / 8) (des3_iv context) input in
    (ID_OK, output, mkDES3 (des3_subkeys context) iv (des3_originalIV context) (des3_encrypt context)).

Definition DES3_CBCRestart (context : DES3_CBC_CTX) : DES3_CBC_CTX :=
  mkDES3 (des3_subkeys context) (des3_originalIV context) (des3_originalIV context)
    (des3_encrypt context).
End Width.

(** The classic test vector: key 133457799BBCDFF1, plaintext 0123456789ABCDEF. *)
Example des_vector :
  desfunc 32 (0x01234567, 0x89ABCDEF)
    (deskey (repeat 0 32) [0x13; 0x34; 0x57; 0x79; 0x9B; 0xBC; 0xDF; 0xF1] true) =
  (0x85E81354, 0x0F0AB405).
Proof. vm_compute. reflexivity. Qed.

(** On 64-bit Unix, where [unsigned long] has 64 bits, the same call gives another
    block, and decrypting that block does not give the plaintext back. *)
Example desfunc_lp64 :
  desfunc 64 (0x01234567, 0x89ABCDEF)
    (deskey (repeat 0 32) [0x13; 0x34; 0x57; 0x79; 0x9B; 0xBC; 0xDF; 0xF1] true) =
  (2291820417, 1245368567).
Proof. vm_compute. reflexivity. Qed.

(** ** Words and bytes *)

Definition word_pair (p : Z * Z) : Prop := is_word (fst p) /\ is_word (snd p).

Lemma scrunch_word_be a b c d r : bytes [a; b; c; d] -> scrunch_word (a :: b :: c :: d :: r) = be [a; b; c; d].
Proof.
  intros H. repeat match goal with H : Forall _ (_ :: _) |- _ => inversion H; clear H; subst end.
  unfold is_byte in *. unfold scrunch_word. cbn [nth].
  change 0xff with (Z.ones 8). rewrite !Z.land_ones by lia. rewrite !Z.mod_small by lia.
  rewrite !Z.shiftl_mul_pow2 by lia. rewrite !be_cons. cbn [length].
  change (be []) with 0. change (Pn 3) with (2 ^ 24). change (Pn 2) with (2 ^ 16).
  change (Pn 1) with (2 ^ 8). change (Pn 0) with 1.
  rewrite (mul_lor_add 24) by lia.
  replace (a * 2 ^ 24 + b * 2 ^ 16) with ((a * 2 ^ 8 + b) * 2 ^ 16) by lia.
  rewrite (mul_lor_add 16) by lia.
  replace ((a * 2 ^ 8 + b) * 2 ^ 16 + c * 2 ^ 8) with (((a * 2 ^ 8 + b) * 2 ^ 8 + c) * 2 ^ 8) by lia.
  rewrite (mul_lor_add 8) by lia. lia.
Qed.

Lemma unscrunch_word_bytes x : bytes (unscrunch_word x).
Proof.
  unfold unscrunch_word. change 0xff with (Z.ones 8). rewrite !Z.land_ones by lia.
  repeat (apply Forall_cons; [apply Z.mod_pos_bound; lia|]). apply Forall_nil.
Qed.

Lemma be_unscrunch_word x : is_word x -> be (unscrunch_word x) = x.
Proof.
  intros H. unfold unscrunch_word, is_word in *. change 0xff with (Z.ones 8).
  rewrite !Z.land_ones, !shiftr_div by lia. rewrite !be_cons. cbn [length].
  change (be []) with 0. change (Pn 3) with (2 ^ 24). change (Pn 2) with (2 ^ 16).
  change (Pn 1) with (2 ^ 8). change (Pn 0) with 1. Z.to_euclidean_division_equations; lia.
Qed.

Lemma scrunch_unscrunch_word x r : is_word x -> scrunch_word (unscrunch_word x ++ r) = x.
Proof.
  intros H. transitivity (be (unscrunch_word x)); [|now apply be_unscrunch_word].
  apply scrunch_word_be. apply (unscrunch_word_bytes x).
Qed.

Lemma unscrunch_scrunch_word a b c d r : bytes [a; b; c; d] ->
  unscrunch_word (scrunch_word (a :: b :: c :: d :: r)) = [a; b; c; d] /\
  is_word (scrunch_word (a :: b :: c :: d :: r)).
Proof.
  intros H. rewrite scrunch_word_be by auto.
  assert (W : is_word (be [a; b; c; d])) by (apply (be_bound [a; b; c; d]); auto).
  split; [|exact W].
  apply be_inj; auto using unscrunch_word_bytes. now apply be_unscrunch_word.
Qed.

Lemma scrunch_unscrunch p r : word_pair p -> scrunch (unscrunch p ++ r) = p.
Proof.
  intros [H0 H1]. destruct p as [x y]. unfold scrunch, unscrunch. rewrite <- app_assoc.
  rewrite scrunch_unscrunch_word by auto. cbn [fst snd].
  change (skipn 4 (unscrunch_word x ++ unscrunch_word y ++ r)) with (unscrunch_word y ++ r).
  now rewrite scrunch_unscrunch_word by auto.
Qed.

Lemma skipn_unscrunch p r : skipn 8 (unscrunch p ++ r) = r.
Proof. reflexivity. Qed.

Lemma length_unscrunch p : length (unscrunch p) = 8%nat.
Proof. reflexivity. Qed.

Lemma unscrunch_bytes p : bytes (unscrunch p).
Proof. apply Forall_app. auto using unscrunch_word_bytes. Qed.

(** Reading a block of eight bytes and writing it back. *)
Lemma unscrunch_scrunch l : bytes l -> (8 <= length l)%nat ->
  unscrunch (scrunch l) = firstn 8 l /\ word_pair (scrunch l).
Proof.
  intros H L.
  destruct l as [|a [|b [|c [|d [|e [|f [|g [|h r]]]]]]]]; cbn [length] in L; try lia.
  assert (H0 : bytes [a; b; c; d]) by (apply (Forall_firstn _ 4) in H; exact H).
  assert (H1 : bytes [e; f; g; h]) by (apply (Forall_skipn _ 4), (Forall_firstn _ 4) in H; exact H).
  unfold scrunch. change (skipn 4 (a :: b :: c :: d :: e :: f :: g :: h :: r)) with (e :: f :: g :: h :: r).
  destruct (unscrunch_scrunch_word a b c d (e :: f :: g :: h :: r) H0) as [E0 W0].
  destruct (unscrunch_scrunch_word e f g h r H1) as [E1 W1].
  unfold unscrunch, word_pair. cbn [fst snd]. rewrite E0, E1. auto.
Qed.

(** ** Chaining

    A mode decrypts what it encrypts as soon as one block step undoes the other. *)
Section Chaining.
Context (step_e step_d : Z * Z -> Z * Z -> (Z * Z) * (Z * Z)).
Hypothesis step_inv : forall iv x, word_pair iv -> word_pair x ->
  word_pair (fst (step_e iv x)) /\ word_pair (snd (step_e iv x)) /\
  step_d iv (fst (step_e iv x)) = (x, snd (step_e iv x)).

Lemma cbc_loop_inv n iv input : bytes input -> (8 * n <= length input)%nat -> word_pair iv ->
  exists output iv', cbc_loop step_e n iv input = (output, iv') /\
    bytes output /\ length output = (8 * n)%nat /\ word_pair iv' /\
    cbc_loop step_d n iv output = (firstn (8 * n) input, iv').
Proof.
  revert iv input; induction n as [|n IH]; intros iv input H L Hiv.
  { exists [], iv. cbn. auto. }
  destruct (unscrunch_scrunch input H ltac:(lia)) as [E W].
  destruct (step_inv iv (scrunch input) Hiv W) as (Ww & Wi & D).
  cbn [cbc_loop]. destruct (step_e iv (scrunch input)) as [w iv1]. cbn [fst snd] in *.
  destruct (IH iv1 (skipn 8 input)) as (out & iv2 & E2 & B & L2 & W2 & D2);
    [auto with words|rewrite length_skipn; lia|auto|].
  rewrite E2. exists (unscrunch w ++ out), iv2. splits; auto.
  - apply Forall_app. auto using unscrunch_bytes.
  - rewrite length_app, length_unscrunch. lia.
  - rewrite scrunch_unscrunch, D, skipn_unscrunch, D2, E by auto.
    replace (8 * S n)%nat with (8 + 8 * n)%nat by lia. now rewrite firstn_plus.
Qed.
End Chaining.

Lemma cbc_loop_prefix step n iv a b : (length a = 8 * n)%nat ->
  cbc_loop step n iv (a ++ b) = cbc_loop step n iv a.
Proof.
  revert iv a; induction n as [|n IH]; intros iv a L; [reflexivity|].
  destruct a as [|x0 [|x1 [|x2 [|x3 [|x4 [|x5 [|x6 [|x7 a]]]]]]]]; cbn [length] in L; try lia.
  cbn [cbc_loop app]. change (scrunch (x0 :: x1 :: x2 :: x3 :: x4 :: x5 :: x6 :: x7 :: a ++ b))
    with (scrunch (x0 :: x1 :: x2 :: x3 :: x4 :: x5 :: x6 :: x7 :: a)).
  destruct (step iv _) as [w iv1].
  change (skipn 8 (x0 :: x1 :: x2 :: x3 :: x4 :: x5 :: x6 :: x7 :: a ++ b)) with (a ++ b).
  change (skipn 8 (x0 :: x1 :: x2 :: x3 :: x4 :: x5 :: x6 :: x7 :: a)) with a.
  rewrite IH by lia. reflexivity.
Qed.

(** Two updates in a row are one update of the concatenation. *)
Lemma cbc_loop_plus step n m iv a b : (length a = 8 * n)%nat ->
  cbc_loop step (n + m) iv (a ++ b) =
  let '(o1, iv1) := cbc_loop step n iv a in
  let '(o2, iv2) := cbc_loop step m iv1 b in (o1 ++ o2, iv2).
Proof.
  revert iv a; induction n as [|n IH]; intros iv a L.
  { destruct a; [|discriminate]. cbn [plus cbc_loop app]. now destruct (cbc_loop step m iv b). }
  destruct a as [|x0 [|x1 [|x2 [|x3 [|x4 [|x5 [|x6 [|x7 a]]]]]]]]; cbn [length] in L; try lia.
  cbn [cbc_loop app plus]. change (scrunch (x0 :: x1 :: x2 :: x3 :: x4 :: x5 :: x6 :: x7 :: a ++ b))
    with (scrunch (x0 :: x1 :: x2 :: x3 :: x4 :: x5 :: x6 :: x7 :: a)).
  destruct (step iv _) as [w iv1].
  change (skipn 8 (x0 :: x1 :: x2 :: x3 :: x4 :: x5 :: x6 :: x7 :: a ++ b)) with (a ++ b).
  change (skipn 8 (x0 :: x1 :: x2 :: x3 :: x4 :: x5 :: x6 :: x7 :: a)) with a.
  rewrite IH by lia. destruct (cbc_loop step n iv1 a) as [o1 iv2].
  destruct (cbc_loop step m iv2 b) as [o2 iv3]. now rewrite app_assoc.
Qed.

(** ** The block function on 32-bit words *)

Lemma xor_xor a b : a .^ b .^ b = a.
Proof. now rewrite Z.lxor_assoc, Z.lxor_nilpotent, Z.lxor_0_r. Qed.

Lemma xor_cancel a b c : (a .^ b) .^ (c .^ b) = a .^ c.
Proof. rewrite (Z.lxor_comm c b), <- Z.lxor_assoc, xor_xor. reflexivity. Qed.

Lemma xor2_xor2 a b : xor2 (xor2 a b) b = a.
Proof. destruct a, b. unfold xor2. cbn [fst snd]. now rewrite !xor_xor. Qed.

Lemma xor2_word a b : word_pair a -> word_pair b -> word_pair (xor2 a b).
Proof. intros [] []. split; cbn [xor2 fst snd]; auto with words. Qed.

Lemma wL_small x : is_word x -> wL 32 x = x.
Proof. apply w32_small. Qed.

(** A masked swap is its own inverse when no bit of the mask is shifted out. *)
Section DeltaSwap.
Context (n mask : Z) (Hn : 0 <= n) (Hm : 0 <= mask) (Hw : mask .<< n < 2 ^ 32).

Lemma delta_work z : is_word ((z .& mask) .<< n).
Proof.
  assert (B : Z.land z mask <= mask).
  { apply Z.ldiff_le; [auto|]. rewrite Z.ldiff_land. apply Z.bits_inj'. intros i Hi.
    rewrite !Z.land_spec, Z.lnot_spec, Z.bits_0 by auto. destruct (Z.testbit mask i), (Z.testbit z i); auto. }
  assert (0 <= Z.land z mask) by (apply Z.land_nonneg; auto).
  unfold is_word. rewrite Z.shiftl_mul_pow2 in * by auto. nia.
Qed.

Lemma delta_swap_word x y : is_word x -> is_word y ->
  is_word (fst (delta_swap 32 n mask x y)) /\ is_word (snd (delta_swap 32 n mask x y)).
Proof.
  intros Hx Hy. unfold delta_swap. cbn [fst snd].
  rewrite wL_small by apply delta_work. split; [apply word_lxor; auto using delta_work|].
  apply word_lxor; auto. apply word_land; auto. apply word_lxor; auto using word_shiftr.
Qed.

Lemma delta_swap_swap x y : is_word x -> is_word y ->
  delta_swap 32 n mask (fst (delta_swap 32 n mask x y)) (snd (delta_swap 32 n mask x y)) = (x, y).
Proof.
  intros Hx Hy. unfold delta_swap. cbn [fst snd].
  rewrite !wL_small by apply delta_work.
  set (w := ((x .>> n) .^ y) .& mask).
  assert (E : ((x .^ w .<< n) .>> n) .^ (y .^ w) = (x .>> n) .^ y).
  { rewrite Z.shiftr_lxor, Z.shiftr_shiftl_l, Z.sub_diag, Z.shiftl_0_r by auto. apply xor_cancel. }
  rewrite E. fold w. now rewrite !xor_xor.
Qed.
End DeltaSwap.

(** Rotation by one bit, both ways. *)
Definition rotl1 (x : Z) : Z := wL 32 (x .<< 1) .| (x .>> 31).
Definition rotr1 (x : Z) : Z := wL 32 (x .<< 31) .| (x .>> 1).

Lemma rotl1_spec x : is_word x -> rotl1 x = 2 * (x mod 2 ^ 31) + x / 2 ^ 31.
Proof.
  intros H. unfold rotl1, wL, is_word in *. rewrite shiftr_div, Z.shiftl_mul_pow2 by lia.
  replace ((x * 2 ^ 1) mod 2 ^ 32) with ((x mod 2 ^ 31) * 2 ^ 1)
    by (Z.to_euclidean_division_equations; lia).
  rewrite mul_lor_add; Z.to_euclidean_division_equations; lia.
Qed.

Lemma rotr1_spec x : is_word x -> rotr1 x = (x mod 2) * 2 ^ 31 + x / 2.
Proof.
  intros H. unfold rotr1, wL, is_word in *. rewrite shiftr_div, Z.shiftl_mul_pow2 by lia.
  replace ((x * 2 ^ 31) mod 2 ^ 32) with ((x mod 2) * 2 ^ 31)
    by (Z.to_euclidean_division_equations; lia).
  rewrite mul_lor_add; Z.to_euclidean_division_equations; lia.
Qed.

Lemma rotl1_word x : is_word x -> is_word (rotl1 x).
Proof. intros H. rewrite rotl1_spec by auto. unfold is_word in *. Z.to_euclidean_division_equations; lia. Qed.

Lemma rotr1_word x : is_word x -> is_word (rotr1 x).
Proof. intros H. rewrite rotr1_spec by auto. unfold is_word in *. Z.to_euclidean_division_equations; lia. Qed.

Lemma rotr1_rotl1 x : is_word x -> rotr1 (rotl1 x) = x.
Proof.
  intros H. rewrite rotr1_spec by auto using rotl1_word. rewrite rotl1_spec by auto.
  unfold is_word in *. Z.to_euclidean_division_equations; lia.
Qed.

Lemma rotl1_rotr1 x : is_word x -> rotl1 (rotr1 x) = x.
Proof.
  intros H. rewrite rotl1_spec by auto using rotr1_word. rewrite rotr1_spec by auto.
  unfold is_word in *. Z.to_euclidean_division_equations; lia.
Qed.

(** [work = (x ^ y) & mask; x ^= work; y ^= work] *)
Definition xor_swap (mask x y : Z) : Z * Z :=
  let work := (x .^ y) .& mask in (x .^ work, y .^ work).

Lemma xor_swap_swap mask x y :
  xor_swap mask (fst (xor_swap mask x y)) (snd (xor_swap mask x y)) = (x, y).
Proof. unfold xor_swap. cbn [fst snd]. now rewrite xor_cancel, !xor_xor. Qed.

Lemma xor_swap_word mask x y : 0 <= mask -> is_word x -> is_word y ->
  is_word (fst (xor_swap mask x y)) /\ is_word (snd (xor_swap mask x y)).
Proof.
  intros Hm Hx Hy. unfold xor_swap. cbn [fst snd].
  split; apply word_lxor; auto; apply word_land; auto with words.
Qed.

Lemma xor_swap_comm mask x y : xor_swap mask y x = (snd (xor_swap mask x y), fst (xor_swap mask x y)).
Proof. unfold xor_swap. cbn [fst snd]. now rewrite (Z.lxor_comm y x). Qed.

Lemma delta_step n mask x y : 0 <= n -> 0 <= mask -> mask .<< n < 2 ^ 32 -> is_word x -> is_word y ->
  exists a b, delta_swap 32 n mask x y = (a, b) /\ is_word a /\ is_word b /\
    delta_swap 32 n mask a b = (x, y).
Proof.
  intros Hn Hm Hw Hx Hy. exists (fst (delta_swap 32 n mask x y)), (snd (delta_swap 32 n mask x y)).
  destruct (delta_swap_word n mask Hn Hm Hw x y Hx Hy).
  splits; auto using delta_swap_swap, surjective_pairing.
Qed.

Lemma xor_step mask x y : 0 <= mask -> is_word x -> is_word y ->
  exists a b, xor_swap mask x y = (a, b) /\ is_word a /\ is_word b /\ xor_swap mask a b = (x, y).
Proof.
  intros Hm Hx Hy. exists (fst (xor_swap mask x y)), (snd (xor_swap mask x y)).
  destruct (xor_swap_word mask x y Hm Hx Hy).
  splits; auto using xor_swap_swap, surjective_pairing.
Qed.

(** The two permutations by their reversible steps. *)
Lemma des_initial_steps l r : des_initial 32 l r =
  let '(l, r) := delta_swap 32 4 0x0f0f0f0f l r in
  let '(l, r) := delta_swap 32 16 0xffff l r in
  let '(r, l) := delta_swap 32 2 0x33333333 r l in
  let '(r, l) := delta_swap 32 8 0xff00ff r l in
  let '(l, r) := xor_swap 0xaaaaaaaa l (rotl1 r) in
  (rotl1 l, r).
Proof.
  unfold des_initial. repeat (match goal with |- context [delta_swap 32 ?n ?m ?x ?y] =>
    destruct (delta_swap 32 n m x y) end). reflexivity.
Qed.

Lemma des_final_steps l r : des_final 32 l r =
  let '(l, r) := xor_swap 0xaaaaaaaa l (rotr1 r) in
  let '(l, r) := delta_swap 32 8 0xff00ff (rotr1 l) r in
  let '(l, r) := delta_swap 32 2 0x33333333 l r in
  let '(r, l) := delta_swap 32 16 0xffff r l in
  let '(r, l) := delta_swap 32 4 0x0f0f0f0f r l in
  (w32 r, w32 l).
Proof.
  unfold des_final, xor_swap. cbv zeta. rewrite (Z.lor_comm (_ .>> 1)). reflexivity.
Qed.

Ltac delta_step n m x y a b :=
  let E := fresh "E" in let D := fresh "D" in
  destruct (delta_step n m x y ltac:(lia) ltac:(lia) ltac:(reflexivity) ltac:(auto using rotl1_word, rotr1_word)
    ltac:(auto using rotl1_word, rotr1_word)) as (a & b & E & ? & ? & D); rewrite E; cbv beta iota.

Ltac xor_step x y a b :=
  let E := fresh "E" in let D := fresh "D" in
  destruct (xor_step 0xaaaaaaaa x y ltac:(lia) ltac:(auto using rotl1_word, rotr1_word)
    ltac:(auto using rotl1_word, rotr1_word)) as (a & b & E & ? & ? & D); rewrite E; cbv beta iota.

(** The final permutation undoes the initial one, with the halves exchanged. *)
Lemma des_initial_final l r : is_word l -> is_word r ->
  exists a b, des_initial 32 l r = (a, b) /\ is_word a /\ is_word b /\ des_final 32 b a = (l, r).
Proof.
  intros Hl Hr. rewrite des_initial_steps.
  delta_step 4 0x0f0f0f0f l r l1 r1. delta_step 16 0xffff l1 r1 l2 r2.
  delta_step 2 0x33333333 r2 l2 r3 l3. delta_step 8 0xff00ff r3 l3 r4 l4.
  xor_step l4 (rotl1 r4) l5 r5. exists (rotl1 l5), r5. splits; auto using rotl1_word.
  rewrite des_final_steps, rotr1_rotl1 by auto.
  rewrite xor_swap_comm, D3. cbn [fst snd]. rewrite rotr1_rotl1 by auto.
  rewrite D2, D1, D0, D, !w32_small by auto. reflexivity.
Qed.

Lemma des_final_initial l r : is_word l -> is_word r ->
  exists a b, des_final 32 l r = (a, b) /\ is_word a /\ is_word b /\ des_initial 32 a b = (r, l).
Proof.
  intros Hl Hr. rewrite des_final_steps.
  xor_step l (rotr1 r) l1 r1. delta_step 8 0xff00ff (rotr1 l1) r1 l2 r2.
  delta_step 2 0x33333333 l2 r2 l3 r3. delta_step 16 0xffff r3 l3 r4 l4.
  delta_step 4 0x0f0f0f0f r4 l4 r5 l5. rewrite !w32_small by auto.
  exists r5, l5. splits; auto. rewrite des_initial_steps, D3, D2, D1, D0, rotl1_rotr1 by auto.
  rewrite xor_swap_comm, D. cbn [fst snd]. now rewrite rotl1_rotr1.
Qed.

(** ** The rounds *)

Lemma Spbox_word k i : In k [Spbox0; Spbox1; Spbox2; Spbox3; Spbox4; Spbox5; Spbox6; Spbox7] ->
  is_word (nth i k 0).
Proof.
  intros H. apply nth_word. revert k H. apply Forall_forall.
  repeat (apply Forall_cons; [check_words|]). apply Forall_nil.
Qed.

(** What a round xors into the left half. *)
Definition Fxor (r k0 k1 : Z) : Z := F 32 0 r k0 k1.

Lemma F_xor l r k0 k1 : F 32 l r k0 k1 = l .^ Fxor r k0 k1.
Proof. unfold Fxor, F. cbv zeta. rewrite Z.lxor_0_l, !Z.lxor_assoc. reflexivity. Qed.

Lemma Fxor_word r k0 k1 : is_word (Fxor r k0 k1).
Proof.
  unfold Fxor, F. cbv zeta.
  repeat (apply word_lxor; [|apply Spbox_word; cbn; tauto]). apply word_0.
Qed.

Lemma F_word l r k0 k1 : is_word l -> is_word (F 32 l r k0 k1).
Proof. intros. rewrite F_xor. auto using word_lxor, Fxor_word. Qed.

Lemma F_F l r k0 k1 : F 32 (F 32 l r k0 k1) r k0 k1 = l.
Proof. now rewrite !F_xor, xor_xor. Qed.

Lemma des_rounds_word n i ks l r : is_word l -> is_word r ->
  is_word (fst (des_rounds 32 n i ks l r)) /\ is_word (snd (des_rounds 32 n i ks l r)).
Proof.
  revert i l r; induction n as [|n IH]; intros i l r Hl Hr; [auto|].
  cbn [des_rounds]. cbv zeta. apply IH; auto using F_word.
Qed.

(** The round keys in reverse order, two words each. *)
Fixpoint rev_pairs (ks : list Z) : list Z :=
  match ks with
  | a :: b :: r => rev_pairs r ++ [a; b]
  | _ => []
  end.

(** The rounds as a recursion on the key list. *)
Fixpoint feistel (ks : list Z) (l r : Z) : Z * Z :=
  match ks with
  | a :: b :: c :: d :: ks =>
      let l := F 32 l r a b in let r := F 32 r l c d in feistel ks l r
  | _ => (l, r)
  end.

Lemma feistel_app ks1 ks2 l r : (length ks1 mod 4 = 0)%nat ->
  feistel (ks1 ++ ks2) l r = feistel ks2 (fst (feistel ks1 l r)) (snd (feistel ks1 l r)).
Proof.
  remember (length ks1 / 4)%nat as n eqn:En. intros Em.
  assert (L : (length ks1 = 4 * n)%nat) by (pose proof (Nat.div_mod_eq (length ks1) 4); lia).
  clear En Em. revert ks1 L l r; induction n as [|n IH]; intros ks1 L l r.
  { destruct ks1; [reflexivity|discriminate]. }
  destruct ks1 as [|a [|b [|c [|d ks1]]]]; cbn [length] in L; try lia.
  cbn [app feistel]. cbv zeta. now rewrite IH by lia.
Qed.

Lemma feistel_undo n ks l r : length ks = (4 * n)%nat ->
  feistel (rev_pairs ks) (snd (feistel ks l r)) (fst (feistel ks l r)) = (r, l).
Proof.
  revert ks l r; induction n as [|n IH]; intros ks l r L.
  { destruct ks; [reflexivity|discriminate]. }
  destruct ks as [|a [|b [|c [|d ks]]]]; cbn [length] in L; try lia.
  cbn [rev_pairs feistel]. cbv zeta. rewrite <- app_assoc. cbn [app].
  assert (Lr : forall n ks, length ks = (4 * n)%nat -> length (rev_pairs ks) = length ks).
  { clear. induction n as [|n IH]; intros [|a [|b [|c [|d ks]]]] L; cbn [length] in L; try lia; [reflexivity|].
    cbn [rev_pairs]. rewrite !length_app, (IH ks) by lia. cbn [length]. lia. }
  rewrite feistel_app by (rewrite (Lr n), (Nat.mul_comm 4) in * by lia;
    replace (length ks) with (n * 4)%nat by lia; apply Nat.Div0.mod_mul).
  rewrite IH by lia. cbn [fst snd feistel]. now rewrite !F_F.
Qed.

Lemma des_rounds_feistel n i ks l r : length ks = (4 * (i + n))%nat ->
  des_rounds 32 n i ks l r = feistel (skipn (4 * i) ks) l r.
Proof.
  revert i l r; induction n as [|n IH]; intros i l r L.
  { rewrite skipn_all2 by lia. reflexivity. }
  cbn [des_rounds]. cbv zeta. rewrite IH by lia.
  assert (Hs : exists a b c d t, skipn (4 * i) ks = a :: b :: c :: d :: t).
  { assert (Ls : (4 <= length (skipn (4 * i) ks))%nat) by (rewrite length_skipn; lia).
    destruct (skipn (4 * i) ks) as [|a [|b [|c [|d t]]]]; cbn [length] in Ls; try lia.
    now exists a, b, c, d, t. }
  destruct Hs as (a & b & c & d & t & E).
  assert (N : forall j, nth (4 * i + j) ks 0 = nth j (a :: b :: c :: d :: t) 0).
  { intros j. rewrite <- E. symmetry. apply nth_skipn. }
  replace (4 * S i)%nat with (4 + 4 * i)%nat by lia. rewrite <- skipn_skipn, E.
  pose proof (N 0%nat) as N0. rewrite Nat.add_0_r in N0. rewrite N0, !N. reflexivity.
Qed.

(** Decryption by [desfunc] with the reversed round keys. *)
Lemma desfunc_undo ks block : length ks = 32%nat -> word_pair block ->
  word_pair (desfunc 32 block ks) /\ desfunc 32 (desfunc 32 block ks) (rev_pairs ks) = block.
Proof.
  intros L [H0 H1]. destruct block as [x y]. unfold desfunc. cbn [fst snd] in *.
  destruct (des_initial_final x y H0 H1) as (l & r & E & Hl & Hr & D). rewrite E. cbv iota beta.
  assert (Lr : length (rev_pairs ks) = 32%nat)
    by (do 32 (destruct ks as [|? ks]; [discriminate|]); destruct ks; [reflexivity|discriminate]).
  pose proof (feistel_undo 8 ks l r L) as U.
  pose proof (des_rounds_word 8 0 ks l r Hl Hr) as W.
  rewrite (des_rounds_feistel 8 0 ks) in * by auto. change (skipn (4 * 0) ks) with ks in *.
  destruct (feistel ks l r) as [l16 r16]. cbn [fst snd] in *.
  destruct (des_final_initial l16 r16) as (a & b & E2 & Ha & Hb & I2); try tauto.
  rewrite E2. cbn [fst snd]. split; [split; auto|].
  rewrite I2. rewrite (des_rounds_feistel 8 0 (rev_pairs ks)) by auto.
  change (skipn (4 * 0) (rev_pairs ks)) with (rev_pairs ks). rewrite U. exact D.
Qed.

(** ** The key schedule *)

Lemma cookey_loop_step n i subkeys kn cooked increment :
  cookey_loop (S n) i subkeys kn cooked increment =
  cookey_loop n (S i)
    (upd (upd subkeys (Z.to_nat cooked) (fst (cook (nth (2 * i) kn 0) (nth (2 * i + 1) kn 0))))
      (Z.to_nat (cooked + 1)) (snd (cook (nth (2 * i) kn 0) (nth (2 * i + 1) kn 0))))
    kn (cooked + 1 + increment) increment.
Proof. cbn [cookey_loop]. now destruct (cook _ _). Qed.

(** The keys of round [i], and all of them. *)
Definition round_key (kn : list Z) (i : nat) : list Z :=
  [fst (cook (nth (2 * i) kn 0) (nth (2 * i + 1) kn 0));
   snd (cook (nth (2 * i) kn 0) (nth (2 * i + 1) kn 0))].

Lemma cookey_spec subkeys kn : length subkeys = 32%nat ->
  cookey subkeys kn true = flat_map (round_key kn) (seq 0 16) /\
  cookey subkeys kn false = flat_map (round_key kn) (rev (seq 0 16)).
Proof.
  intros L. do 32 (destruct subkeys as [|? subkeys]; [discriminate|]).
  destruct subkeys; [|discriminate].
  unfold cookey. rewrite !cookey_loop_step. split; reflexivity.
Qed.

Lemma rev_pairs_round_keys kn : rev_pairs (flat_map (round_key kn) (seq 0 16)) =
  flat_map (round_key kn) (rev (seq 0 16)).
Proof. reflexivity. Qed.

Lemma rev_pairs_round_keys' kn : rev_pairs (flat_map (round_key kn) (rev (seq 0 16))) =
  flat_map (round_key kn) (seq 0 16).
Proof. reflexivity. Qed.

Lemma deskey_length subkeys key e : length subkeys = 32%nat -> length (deskey subkeys key e) = 32%nat.
Proof.
  intros L. unfold deskey. cbv zeta. set (kn := flat_map _ _).
  destruct (cookey_spec subkeys kn L) as [E D]. destruct e; [rewrite E|rewrite D]; reflexivity.
Qed.

(** The schedule for one direction is the reverse of the other. *)
Lemma deskey_rev subkeys subkeys' key e : length subkeys = 32%nat -> length subkeys' = 32%nat ->
  deskey subkeys' key (negb e) = rev_pairs (deskey subkeys key e).
Proof.
  intros L L'. unfold deskey. cbv zeta. set (kn := flat_map _ _).
  destruct (cookey_spec subkeys kn L) as [E D], (cookey_spec subkeys' kn L') as [E' D'].
  destruct e; cbn [negb].
  - rewrite E, D'. symmetry. apply rev_pairs_round_keys.
  - rewrite D, E'. symmetry. apply rev_pairs_round_keys'.
Qed.

(** One key, both directions. *)
Lemma desfunc_deskey s s' key e block : length s = 32%nat -> length s' = 32%nat -> word_pair block ->
  word_pair (desfunc 32 block (deskey s key e)) /\
  desfunc 32 (desfunc 32 block (deskey s key e)) (deskey s' key (negb e)) = block.
Proof. intros L L' W. rewrite (deskey_rev s s') by auto. apply desfunc_undo; auto using deskey_length. Qed.

(** ** The three modes as instances of one interface

    A mode has an update that answers a status, the output and the new context; it
    is a loop of a block step, and only the chaining value of the context changes. *)
Class CbcMode (C : Type) := {
  cbc_update : C -> list Z -> nat -> Z * list Z * C;
  cbc_step : C -> Z * Z -> Z * Z -> (Z * Z) * (Z * Z);
  cbc_iv : C -> Z * Z;
  cbc_with_iv : C -> Z * Z -> C;
  cbc_update_spec : forall c input len, (len mod 8 = 0)%nat ->
    cbc_update c input len =
    let '(output, iv) := cbc_loop (cbc_step c) (len / 8) (cbc_iv c) input in
    (ID_OK, output, cbc_with_iv c iv);
  cbc_step_with_iv : forall c iv, cbc_step (cbc_with_iv c iv) = cbc_step c;
  cbc_iv_with_iv : forall c iv, cbc_iv (cbc_with_iv c iv) = iv;
  cbc_with_with : forall c a b, cbc_with_iv (cbc_with_iv c a) b = cbc_with_iv c b;
  cbc_with_same : forall c, cbc_with_iv c (cbc_iv c) = c }.

(** A whole message given in chunks, stopping at the first error. *)
Fixpoint updates {C} `{CbcMode C} (c : C) (chunks : list (list Z)) : Z * list Z * C :=
  match chunks with
  | [] => (ID_OK, [], c)
  | x :: r =>
      let '(st, o, c1) := cbc_update c x (length x) in
      if st =? ID_OK then let '(st2, o2, c2) := updates c1 r in (st2, o ++ o2, c2)
      else (st, [], c1)
  end.

Definition whole_blocks (chunks : list (list Z)) : Prop :=
  Forall (fun x => length x mod 8 = 0)%nat chunks.

Section Modes.
Context {C : Type} `{M : CbcMode C}.

Lemma whole_length chunks : whole_blocks chunks -> (length (concat chunks) mod 8 = 0)%nat.
Proof.
  induction 1 as [|x r Hx _ IH]; [reflexivity|].
  cbn [concat]. rewrite length_app, Nat.Div0.add_mod, Hx, IH. reflexivity.
Qed.

(** Chunking does not matter. *)
Lemma updates_loop c chunks : whole_blocks chunks -> updates c chunks =
  let '(output, iv) := cbc_loop (cbc_step c) (length (concat chunks) / 8) (cbc_iv c) (concat chunks) in
  (ID_OK, output, cbc_with_iv c iv).
Proof.
  intros H. revert c; induction H as [|x r Hx Hr IH]; intros c.
  { cbn [updates concat length]. change (0 / 8)%nat with 0%nat. cbn [cbc_loop]. now rewrite cbc_with_same. }
  cbn [updates concat]. rewrite cbc_update_spec by auto.
  pose proof (Nat.div_mod_eq (length x) 8). 
  rewrite length_app.
  replace ((length x + length (concat r)) / 8)%nat with (length x / 8 + length (concat r) / 8)%nat.
  2:{ replace (length x + length (concat r))%nat with (length (concat r) + (length x / 8) * 8)%nat by lia.
      rewrite Nat.div_add by lia. lia. }
  rewrite cbc_loop_plus by lia.
  destruct (cbc_loop (cbc_step c) (length x / 8) (cbc_iv c) x) as [o1 iv1].
  rewrite Z.eqb_refl, IH, cbc_step_with_iv, cbc_iv_with_iv.
  destruct (cbc_loop (cbc_step c) (length (concat r) / 8) iv1 (concat r)) as [o2 iv2].
  now rewrite cbc_with_with.
Qed.

(** The block steps of two contexts undo each other. *)
Definition undoes (cd ce : C) : Prop := forall iv x, word_pair iv -> word_pair x ->
  word_pair (fst (cbc_step ce iv x)) /\ word_pair (snd (cbc_step ce iv x)) /\
  cbc_step cd iv (fst (cbc_step ce iv x)) = (x, snd (cbc_step ce iv x)).

Lemma updates_undo ce cd chunks : undoes cd ce -> cbc_iv cd = cbc_iv ce -> word_pair (cbc_iv ce) ->
  whole_blocks chunks -> Forall bytes chunks ->
  exists output iv, updates ce chunks = (ID_OK, output, cbc_with_iv ce iv) /\
    length output = length (concat chunks) /\ bytes output /\
    (forall chunks2, whole_blocks chunks2 -> concat chunks2 = output ->
      updates cd chunks2 = (ID_OK, concat chunks, cbc_with_iv cd iv)).
Proof.
  intros U Ei Wi Hw Hb. pose proof (whole_length chunks Hw) as Hl.
  pose proof (Nat.div_mod_eq (length (concat chunks)) 8).
  destruct (cbc_loop_inv (cbc_step ce) (cbc_step cd) U (length (concat chunks) / 8) (cbc_iv ce)
    (concat chunks)) as (out & iv & E & B & L & W & D); auto; [now apply Forall_concat|lia|].
  exists out, iv. rewrite updates_loop, E by auto. splits; auto; [lia|].
  intros chunks2 Hw2 E2. rewrite updates_loop, E2, Ei by auto.
  replace (length out / 8)%nat with (length (concat chunks) / 8)%nat by (f_equal; lia).
  rewrite D, firstn_all2 by lia. reflexivity.
Qed.
End Modes.

Lemma scrunch_word_pair l : bytes l -> (8 <= length l)%nat -> word_pair (scrunch l).
Proof. intros. now apply unscrunch_scrunch. Qed.

Ltac mode_update E := intros c input len H; unfold E; rewrite H; reflexivity.

#[export] Instance DES_mode : CbcMode DES_CBC_CTX.
Proof.
  refine {| cbc_update := DES_CBCUpdate 32; cbc_step := DES_block 32; cbc_iv := des_iv;
    cbc_with_iv := fun c iv => mkDES (des_subkeys c) iv (des_originalIV c) (des_encrypt c) |};
    [mode_update DES_CBCUpdate|now intros []..].
Defined.

#[export] Instance DESX_mode : CbcMode DESX_CBC_CTX.
Proof.
  refine {| cbc_update := DESX_CBCUpdate 32; cbc_step := DESX_block 32; cbc_iv := desx_iv;
    cbc_with_iv := fun c iv => mkDESX (desx_subkeys c) iv (inputWhitener c) (outputWhitener c)
      (desx_originalIV c) (desx_encrypt c) |};
    [mode_update DESX_CBCUpdate|now intros []..].
Defined.

#[export] Instance DES3_mode : CbcMode DES3_CBC_CTX.
Proof.
  refine {| cbc_update := DES3_CBCUpdate 32; cbc_step := DES3_block 32; cbc_iv := des3_iv;
    cbc_with_iv := fun c iv => mkDES3 (des3_subkeys c) iv (des3_originalIV c) (des3_encrypt c) |};
    [mode_update DES3_CBCUpdate|now intros []..].
Defined.

Lemma DES_undoes c c' key iv : length (des_subkeys c) = 32%nat -> length (des_subkeys c') = 32%nat ->
  undoes (DES_CBCInit c' key iv false) (DES_CBCInit c key iv true).
Proof.
  intros L L' v x Hv Hx. cbn [cbc_step DES_mode]. unfold DES_block, DES_CBCInit.
  cbn [des_encrypt des_subkeys fst snd].
  destruct (desfunc_deskey _ _ key true (xor2 x v) L L' (xor2_word _ _ Hx Hv)) as [W E].
  splits; auto. cbn [negb] in E. now rewrite E, xor2_xor2.
Qed.

Lemma DESX_undoes c c' key iv : length (desx_subkeys c) = 32%nat -> length (desx_subkeys c') = 32%nat ->
  bytes key -> (24 <= length key)%nat ->
  undoes (DESX_CBCInit c' key iv false) (DESX_CBCInit c key iv true).
Proof.
  intros L L' Hk Lk v x Hv Hx. cbn [cbc_step DESX_mode]. unfold DESX_block, DESX_CBCInit.
  cbn [desx_encrypt desx_subkeys inputWhitener outputWhitener fst snd].
  assert (W1 : word_pair (scrunch (skipn 8 key)))
    by (apply scrunch_word_pair; [auto with words|rewrite length_skipn; lia]).
  assert (W2 : word_pair (scrunch (skipn 16 key)))
    by (apply scrunch_word_pair; [auto with words|rewrite length_skipn; lia]).
  destruct (desfunc_deskey _ _ key true (xor2 (xor2 x v) (scrunch (skipn 8 key))) L L') as [W E];
    [auto using xor2_word|].
  splits; auto using xor2_word. cbn [negb] in E. rewrite xor2_xor2, E. f_equal.
  set (p := scrunch (skipn 8 key)). destruct x, v, p. unfold xor2. cbn [fst snd].
  now rewrite (Z.lxor_assoc z), (Z.lxor_assoc z0), !xor_xor.
Qed.

Definition subkeys_ok (c : DES3_CBC_CTX) : Prop :=
  length (nth 0 (des3_subkeys c) []) = 32%nat /\ length (nth 1 (des3_subkeys c) []) = 32%nat /\
  length (nth 2 (des3_subkeys c) []) = 32%nat.

(** Three keys, both directions. *)
Lemma DES3_func_undo s0 s1 s2 t0 t1 t2 k0 k1 k2 x :
  Forall (fun s => length s = 32%nat) [s0; s1; s2; t0; t1; t2] -> word_pair x ->
  word_pair (DES3_func 32 x [deskey s0 k0 true; deskey s1 k1 false; deskey s2 k2 true]) /\
  DES3_func 32 (DES3_func 32 x [deskey s0 k0 true; deskey s1 k1 false; deskey s2 k2 true])
    [deskey t0 k2 false; deskey t1 k1 true; deskey t2 k0 false] = x.
Proof.
  intros H Hx. repeat match goal with H : Forall _ (_ :: _) |- _ => inversion H; clear H; subst end.
  unfold DES3_func. cbn [nth].
  destruct (desfunc_deskey s0 t2 k0 true x) as [Wa Ea]; auto. revert Wa Ea.
  generalize (desfunc 32 x (deskey s0 k0 true)) as a. intros a Wa Ea.
  destruct (desfunc_deskey s1 t1 k1 false a) as [Wb Eb]; auto. revert Wb Eb.
  generalize (desfunc 32 a (deskey s1 k1 false)) as b. intros b Wb Eb.
  destruct (desfunc_deskey s2 t0 k2 true b) as [Wc Ec]; auto. split; [exact Wc|].
  cbn [negb] in *. rewrite Ec, Eb. exact Ea.
Qed.

Lemma DES3_undoes c c' key iv : subkeys_ok c -> subkeys_ok c' ->
  undoes (DES3_CBCInit c' key iv false) (DES3_CBCInit c key iv true).
Proof.
  intros (L0 & L1 & L2) (L0' & L1' & L2') v x Hv Hx. cbn [cbc_step DES3_mode].
  unfold DES3_block, DES3_CBCInit. cbn [des3_encrypt des3_subkeys negb fst snd].
  edestruct (DES3_func_undo _ _ _ _ _ _ key (skipn 8 key) (skipn 16 key) (xor2 x v)
    (Forall_cons _ L0 (Forall_cons _ L1 (Forall_cons _ L2
      (Forall_cons _ L0' (Forall_cons _ L1' (Forall_cons _ L2' (Forall_nil _))))))))
    as [W E]; [auto using xor2_word|].
  splits; [exact W|exact W|]. rewrite E, xor2_xor2. reflexivity.
Qed.

(** ** The claims *)


(** DESX, with its input and output whiteners: the same round trip. *)
Theorem DESX_CBC_roundtrip (c c' : DESX_CBC_CTX) (key iv : list Z) (chunks : list (list Z)) :
  length (desx_subkeys c) = 32%nat -> length (desx_subkeys c') = 32%nat ->
  bytes key -> (24 <= length key)%nat -> bytes iv -> (8 <= length iv)%nat ->
  whole_blocks chunks -> Forall bytes chunks ->
  exists output ce, updates (DESX_CBCInit c key iv true) chunks = (ID_OK, output, ce) /\
    length output = length (concat chunks) /\ bytes output /\
    DESX_CBCRestart ce = DESX_CBCInit c key iv true /\
    forall chunks2, whole_blocks chunks2 -> concat chunks2 = output ->
      exists cd, updates (DESX_CBCInit c' key iv false) chunks2 = (ID_OK, concat chunks, cd) /\
        desx_iv cd = desx_iv ce.
Proof.
  intros L L' Hk Lk Hiv Liv Hw Hb.
  destruct (updates_undo _ _ chunks (DESX_undoes c c' key iv L L' Hk Lk) eq_refl
    (scrunch_word_pair iv Hiv Liv) Hw Hb) as (out & v & E & Lo & B & D).
  eexists out, _. splits; [exact E|exact Lo|exact B|reflexivity|].
  intros chunks2 H2 E2. eexists. split; [exact (D chunks2 H2 E2)|reflexivity].
Qed.

(** Triple DES: the same round trip, the three schedules being built in the opposite
    order and direction for decryption. *)
Theorem DES3_CBC_roundtrip (c c' : DES3_CBC_CTX) (key iv : list Z) (chunks : list (list Z)) :
  subkeys_ok c -> subkeys_ok c' ->
  bytes iv -> (8 <= length iv)%nat -> whole_blocks chunks -> Forall bytes chunks ->
  exists output ce, updates (DES3_CBCInit c key iv true) chunks = (ID_OK, output, ce) /\
    length output = length (concat chunks) /\ bytes output /\
    DES3_CBCRestart ce = DES3_CBCInit c key iv true /\
    forall chunks2, whole_blocks chunks2 -> concat chunks2 = output ->
      exists cd, updates (DES3_CBCInit c' key iv false) chunks2 = (ID_OK, concat chunks, cd) /\
        des3_iv cd = des3_iv ce.
Proof.
  intros L L' Hiv Liv Hw Hb.
  destruct (updates_undo _ _ chunks (DES3_undoes c c' key iv L L') eq_refl
    (scrunch_word_pair iv Hiv Liv) Hw Hb) as (out & v & E & Lo & B & D).
  eexists out, _. splits; [exact E|exact Lo|exact B|reflexivity|].
  intros chunks2 H2 E2. eexists. split; [exact (D chunks2 H2 E2)|reflexivity].
Qed.

(** The key schedule for decryption is the encryption schedule in reverse order, and
    the block function run with it undoes the block function, for every key and block. *)
Theorem deskey_desfunc_inverse (subkeys subkeys' key : list Z) (block : Z * Z) :
  length subkeys = 32%nat -> length subkeys' = 32%nat -> word_pair block ->
  deskey subkeys' key false = rev_pairs (deskey subkeys key true) /\
  desfunc 32 (desfunc 32 block (deskey subkeys key true)) (deskey subkeys' key false) = block.
Proof. intros. split; [now apply (deskey_rev subkeys subkeys' key true)|now apply desfunc_deskey]. Qed.

(** With a 64-bit [unsigned long] the block function no longer computes DES, and
    decryption does not undo encryption (the variables of [desfunc] are declared
    [unsigned long], but the rotations need 32 bits). *)
Theorem desfunc_lp64_broken :
  exists key block, let ks := deskey (repeat 0 32) key true in
    let ks' := deskey (repeat 0 32) key false in
    bytes key /\ length key = 8%nat /\ word_pair block /\
    desfunc 64 block ks <> desfunc 32 block ks /\
    desfunc 64 (desfunc 64 block ks) ks' <> block.
Proof.
  exists [0x13; 0x34; 0x57; 0x79; 0x9B; 0xBC; 0xDF; 0xF1], (0x01234567, 0x89ABCDEF).
  cbv zeta. splits; [check_bytes|reflexivity|split; vm_compute; split; congruence|vm_compute; congruence..].
Qed.

(** A length that is not a multiple of eight is refused by the three updates, with no
    output and the context unchanged. *)
Theorem CBCUpdate_length_error (LW : Z) (c : DES_CBC_CTX) (x : DESX_CBC_CTX) (t : DES3_CBC_CTX)
  (input : list Z) (len : nat) : (len mod 8 <> 0)%nat ->
  DES_CBCUpdate LW c input len = (RE_LEN, [], c) /\
  DESX_CBCUpdate LW x input len = (RE_LEN, [], x) /\
  DES3_CBCUpdate LW t input len = (RE_LEN, [], t).
Proof.
  intros H. unfold DES_CBCUpdate, DESX_CBCUpdate, DES3_CBCUpdate.
  rewrite (proj2 (Nat.eqb_neq _ _) H). auto.
Qed.

(** Witnesses, on one key and a message in two chunks. *)
Definition test_key : list Z := [0x13; 0x34; 0x57; 0x79; 0x9B; 0xBC; 0xDF; 0xF1].
Definition test_chunks : list (list Z) := [[1; 2; 3; 4; 5; 6; 7; 8]; repeat 9 16].
Definition test_DES : DES_CBC_CTX := mkDES (repeat 0 32) (0, 0) (0, 0) true.
Definition test_DESX : DESX_CBC_CTX := mkDESX (repeat 0 32) (0, 0) (0, 0) (0, 0) (0, 0) true.
Definition test_DES3 : DES3_CBC_CTX := mkDES3 (repeat (repeat 0 32) 3) (0, 0) (0, 0) true.

Lemma test_chunks_ok : whole_blocks test_chunks /\ Forall bytes test_chunks.
Proof. split; repeat (apply Forall_cons; [first [reflexivity|check_bytes]|]); apply Forall_nil. Qed.


Lemma DESX_CBC_roundtrip_witness :
  exists output ce, updates (DESX_CBCInit test_DESX (repeat 7 24) test_key true) test_chunks = (ID_OK, output, ce) /\
    length output = length (concat test_chunks) /\ bytes output /\
    DESX_CBCRestart ce = DESX_CBCInit test_DESX (repeat 7 24) test_key true /\
    forall chunks2, whole_blocks chunks2 -> concat chunks2 = output ->
      exists cd, updates (DESX_CBCInit test_DESX (repeat 7 24) test_key false) chunks2 =
        (ID_OK, concat test_chunks, cd) /\ desx_iv cd = desx_iv ce.
Proof.
  apply (DESX_CBC_roundtrip test_DESX test_DESX (repeat 7 24) test_key test_chunks eq_refl eq_refl);
    [check_bytes|reflexivity|check_bytes|reflexivity|apply test_chunks_ok|apply test_chunks_ok].
Defined.

Lemma DES3_CBC_roundtrip_witness :
  exists output ce, updates (DES3_CBCInit test_DES3 (test_key ++ repeat 7 16) test_key true) test_chunks = (ID_OK, output, ce) /\
    length output = length (concat test_chunks) /\ bytes output /\
    DES3_CBCRestart ce = DES3_CBCInit test_DES3 (test_key ++ repeat 7 16) test_key true /\
    forall chunks2, whole_blocks chunks2 -> concat chunks2 = output ->
      exists cd, updates (DES3_CBCInit test_DES3 (test_key ++ repeat 7 16) test_key false) chunks2 =
        (ID_OK, concat test_chunks, cd) /\ des3_iv cd = des3_iv ce.
Proof.
  apply (DES3_CBC_roundtrip test_DES3 test_DES3 (test_key ++ repeat 7 16) test_key test_chunks);
    [unfold subkeys_ok; splits; reflexivity|unfold subkeys_ok; splits; reflexivity|check_bytes|reflexivity|apply test_chunks_ok|apply test_chunks_ok].
Defined.

Lemma deskey_desfunc_inverse_witness :
  deskey (repeat 0 32) test_key false = rev_pairs (deskey (repeat 0 32) test_key true) /\
  desfunc 32 (desfunc 32 (0x01234567, 0x89ABCDEF) (deskey (repeat 0 32) test_key true))
    (deskey (repeat 0 32) test_key false) = (0x01234567, 0x89ABCDEF).
Proof.
  apply (deskey_desfunc_inverse (repeat 0 32) (repeat 0 32) test_key (0x01234567, 0x89ABCDEF) eq_refl eq_refl).
  split; vm_compute; split; congruence.
Defined.

Lemma CBCUpdate_length_error_witness :
  DES_CBCUpdate 32 test_DES [1; 2; 3] 3 = (RE_LEN, [], test_DES) /\
  DESX_CBCUpdate 32 test_DESX [1; 2; 3] 3 = (RE_LEN, [], test_DESX) /\
  DES3_CBCUpdate 32 test_DES3 [1; 2; 3] 3 = (RE_LEN, [], test_DES3).
Proof. apply CBCUpdate_length_error. vm_compute. discriminate. Defined.
