(* ===== verification/Prime.v ===== *)
(** * Prime: probable primes (src/QBase/RSAEuro/prime.c)

    The test of a number by a table of small primes and Fermat's test to base 2,
    and the search for a probable prime in a progression. The theorems give what
    the test decides on numbers of any size, that it is exact below 2^26, and
    what the search returns on every branch. *)

From Stdlib Require Import Znumtheory Zdivisibility.
From S2P Require Import Prelude Rsaeuro NN NNDiv NNMod Random NumTheory.

(** ** Definitions *)

Definition SMALL_PRIME_COUNT : nat := 1027.

Definition SMALL_PRIMES : list Z :=
  [3; 5; 7; 11; 13; 17; 19; 23; 29; 31; 37; 41; 43; 47; 53; 59;
   61; 67; 71; 73; 79; 83; 89; 97; 101; 103; 107; 109; 113; 127; 131; 137;
   139; 149; 151; 157; 163; 167; 173; 179; 181; 191; 193; 197; 199; 211; 223; 227;
   229; 233; 239; 241; 251; 257; 263; 269; 271; 277; 281; 283; 293; 307; 311; 313;
   317; 331; 337; 347; 349; 353; 359; 367; 373; 379; 383; 389; 397; 401; 409; 419;
   421; 431; 433; 439; 443; 449; 457; 461; 463; 467; 479; 487; 491; 499; 503; 509;
   521; 523; 541; 547; 557; 563; 569; 571; 577; 587; 593; 599; 601; 607; 613; 617;
   619; 631; 641; 643; 647; 653; 659; 661; 673; 677; 683; 691; 701; 709; 719; 727;
   733; 739; 743; 751; 757; 761; 769; 773; 787; 797; 809; 811; 821; 823; 827; 829;
   839; 853; 857; 859; 863; 877; 881; 883; 887; 907; 911; 919; 929; 937; 941; 947;
   953; 967; 971; 977; 983; 991; 997; 1009; 1013; 1019; 1021; 1031; 1033; 1039; 1049; 1051;
   1061; 1063; 1069; 1087; 1091; 1093; 1097; 1103; 1109; 1117; 1123; 1129; 1151; 1153; 1163; 1171;
   1181; 1187; 1193; 1201; 1213; 1217; 1223; 1229; 1231; 1237; 1249; 1259; 1277; 1279; 1283; 1289;
   1291; 1297; 1301; 1303; 1307; 1319; 1321; 1327; 1361; 1367; 1373; 1381; 1399; 1409; 1423; 1427;
   1429; 1433; 1439; 1447; 1451; 1453; 1459; 1471; 1481; 1483; 1487; 1489; 1493; 1499; 1511; 1523;
   1531; 1543; 1549; 1553; 1559; 1567; 1571; 1579; 1583; 1597; 1601; 1607; 1609; 1613; 1619; 1621;
   1627; 1637; 1657; 1663; 1667; 1669; 1693; 1697; 1699; 1709; 1721; 1723; 1733; 1741; 1747; 1753;
   1759; 1777; 1783; 1787; 1789; 1801; 1811; 1823; 1831; 1847; 1861; 1867; 1871; 1873; 1877; 1879;
   1889; 1901; 1907; 1913; 1931; 1933; 1949; 1951; 1973; 1979; 1987; 1993; 1997; 1999; 2003; 2011;
   2017; 2027; 2029; 2039; 2053; 2063; 2069; 2081; 2083; 2087; 2089; 2099; 2111; 2113; 2129; 2131;
   2137; 2141; 2143; 2153; 2161; 2179; 2203; 2207; 2213; 2221; 2237; 2239; 2243; 2251; 2267; 2269;
   2273; 2281; 2287; 2293; 2297; 2309; 2311; 2333; 2339; 2341; 2347; 2351; 2357; 2371; 2377; 2381;
   2383; 2389; 2393; 2399; 2411; 2417; 2423; 2437; 2441; 2447; 2459; 2467; 2473; 2477; 2503; 2521;
   2531; 2539; 2543; 2549; 2551; 2557; 2579; 2591; 2593; 2609; 2617; 2621; 2633; 2647; 2657; 2659;
   2663; 2671; 2677; 2683; 2687; 2689; 2693; 2699; 2707; 2711; 2713; 2719; 2729; 2731; 2741; 2749;
   2753; 2767; 2777; 2789; 2791; 2797; 2801; 2803; 2819; 2833; 2837; 2843; 2851; 2857; 2861; 2879;
   2887; 2897; 2903; 2909; 2917; 2927; 2939; 2953; 2957; 2963; 2969; 2971; 2999; 3001; 3011; 3019;
   3023; 3037; 3041; 3049; 3061; 3067; 3079; 3083; 3089; 3109; 3119; 3121; 3137; 3163; 3167; 3169;
   3181; 3187; 3191; 3203; 3209; 3217; 3221; 3229; 3251; 3253; 3257; 3259; 3271; 3299; 3301; 3307;
   3313; 3319; 3323; 3329; 3331; 3343; 3347; 3359; 3361; 3371; 3373; 3389; 3391; 3407; 3413; 3433;
   3449; 3457; 3461; 3463; 3467; 3469; 3491; 3499; 3511; 3517; 3527; 3529; 3533; 3539; 3541; 3547;
   3557; 3559; 3571; 3581; 3583; 3593; 3607; 3613; 3617; 3623; 3631; 3637; 3643; 3659; 3671; 3673;
   3677; 3691; 3697; 3701; 3709; 3719; 3727; 3733; 3739; 3761; 3767; 3769; 3779; 3793; 3797; 3803;
   3821; 3823; 3833; 3847; 3851; 3853; 3863; 3877; 3881; 3889; 3907; 3911; 3917; 3919; 3923; 3929;
   3931; 3943; 3947; 3967; 3989; 4001; 4003; 4007; 4013; 4019; 4021; 4027; 4049; 4051; 4057; 4073;
   4079; 4091; 4093; 4099; 4111; 4127; 4129; 4133; 4139; 4153; 4157; 4159; 4177; 4201; 4211; 4217;
   4219; 4229; 4231; 4241; 4243; 4253; 4259; 4261; 4271; 4273; 4283; 4289; 4297; 4327; 4337; 4339;
   4349; 4357; 4363; 4373; 4391; 4397; 4409; 4421; 4423; 4441; 4447; 4451; 4457; 4463; 4481; 4483;
   4493; 4507; 4513; 4517; 4519; 4523; 4547; 4549; 4561; 4567; 4583; 4591; 4597; 4603; 4621; 4637;
   4639; 4643; 4649; 4651; 4657; 4663; 4673; 4679; 4691; 4703; 4721; 4723; 4729; 4733; 4751; 4759;
   4783; 4787; 4789; 4793; 4799; 4801; 4813; 4817; 4831; 4861; 4871; 4877; 4889; 4903; 4909; 4919;
   4931; 4933; 4937; 4943; 4951; 4957; 4967; 4969; 4973; 4987; 4993; 4999; 5003; 5009; 5011; 5021;
   5023; 5039; 5051; 5059; 5077; 5081; 5087; 5099; 5101; 5107; 5113; 5119; 5147; 5153; 5167; 5171;
   5179; 5189; 5197; 5209; 5227; 5231; 5233; 5237; 5261; 5273; 5279; 5281; 5297; 5303; 5309; 5323;
   5333; 5347; 5351; 5381; 5387; 5393; 5399; 5407; 5413; 5417; 5419; 5431; 5437; 5441; 5443; 5449;
   5471; 5477; 5479; 5483; 5501; 5503; 5507; 5519; 5521; 5527; 5531; 5557; 5563; 5569; 5573; 5581;
   5591; 5623; 5639; 5641; 5647; 5651; 5653; 5657; 5659; 5669; 5683; 5689; 5693; 5701; 5711; 5717;
   5737; 5741; 5743; 5749; 5779; 5783; 5791; 5801; 5807; 5813; 5821; 5827; 5839; 5843; 5849; 5851;
   5857; 5861; 5867; 5869; 5879; 5881; 5897; 5903; 5923; 5927; 5939; 5953; 5981; 5987; 6007; 6011;
   6029; 6037; 6043; 6047; 6053; 6067; 6073; 6079; 6089; 6091; 6101; 6113; 6121; 6131; 6133; 6143;
   6151; 6163; 6173; 6197; 6199; 6203; 6211; 6217; 6221; 6229; 6247; 6257; 6263; 6269; 6271; 6277;
   6287; 6299; 6301; 6311; 6317; 6323; 6329; 6337; 6343; 6353; 6359; 6361; 6367; 6373; 6379; 6389;
   6397; 6421; 6427; 6449; 6451; 6469; 6473; 6481; 6491; 6521; 6529; 6547; 6551; 6553; 6563; 6569;
   6571; 6577; 6581; 6599; 6607; 6619; 6637; 6653; 6659; 6661; 6673; 6679; 6689; 6691; 6701; 6703;
   6709; 6719; 6733; 6737; 6761; 6763; 6779; 6781; 6791; 6793; 6803; 6823; 6827; 6829; 6833; 6841;
   6857; 6863; 6869; 6871; 6883; 6899; 6907; 6911; 6917; 6947; 6949; 6959; 6961; 6967; 6971; 6977;
   6983; 6991; 6997; 7001; 7013; 7019; 7027; 7039; 7043; 7057; 7069; 7079; 7103; 7109; 7121; 7127;
   7129; 7151; 7159; 7177; 7187; 7193; 7207; 7211; 7213; 7219; 7229; 7237; 7243; 7247; 7253; 7283;
   7297; 7307; 7309; 7321; 7331; 7333; 7349; 7351; 7369; 7393; 7411; 7417; 7433; 7451; 7457; 7459;
   7477; 7481; 7487; 7489; 7499; 7507; 7517; 7523; 7529; 7537; 7541; 7547; 7549; 7559; 7561; 7573;
   7577; 7583; 7589; 7591; 7603; 7607; 7621; 7639; 7643; 7649; 7669; 7673; 7681; 7687; 7691; 7699;
   7703; 7717; 7723; 7727; 7741; 7753; 7757; 7759; 7789; 7793; 7817; 7823; 7829; 7841; 7853; 7867;
   7873; 7877; 7879; 7883; 7901; 7907; 7919; 7927; 7933; 7937; 7949; 7951; 7963; 7993; 8009; 8011;
   8017; 8039; 8053; 8059; 8069; 8081; 8087; 8089; 8093; 8101; 8111; 8117; 8123; 8147; 8161; 8167;
   8171; 8179; 8191; 0].

(** The loop over the table; [t] is the one-digit remainder. The answer is [status]. *)
Fixpoint small_primes_loop (primes a t : list Z) (aDigits : nat) : option bool :=
  match primes with
  | [] => Some true
  | p :: rest =>
      if p =? 0 then Some true
      else
        let t := upd t 0 p in
        if Nat.eqb aDigits 1 && (NN_Cmp a t 1 =? 0) then Some true
        else
          let? t := NN_Mod t a aDigits t 1 in
          if NN_Zero t 1 then Some false else small_primes_loop rest a t aDigits
  end.

Definition probableprime (a : list Z) (aDigits : nat) : option bool :=
  let z := repeat 0 MAX_NN_DIGITS in
  let? status := small_primes_loop SMALL_PRIMES a (NN_AssignZero z aDigits) aDigits in
  if status then
    let t := NN_ASSIGN_DIGIT z 2 aDigits in
    let? u := NN_ModExp z t a aDigits a aDigits in
    Some (NN_EQUAL t u aDigits)
  else Some false.

(** One turn of the search. *)
Definition GeneratePrime_step (t d : list Z) (digits : nat) (a : list Z)
  : list Z + option (Z * list Z) :=
  match probableprime a digits with
  | None => inr None
  | Some true => inr (Some (ID_OK, a))
  | Some false =>
      if NN_Cmp a t digits >? 0 then inr (Some (RE_DATA, a))
      else inl (fst (NN_Add a a d digits))
  end.

(** The number the search starts from. *)
Definition GeneratePrime_start (a b c d block : list Z) (digits : nat) : option (list Z) :=
  let z := repeat 0 MAX_NN_DIGITS in
  let a := NN_Decode a digits block (digits * Z.to_nat NN_DIGIT_LEN) in
  let t := fst (NN_Sub z c b digits) in
  let u := NN_ASSIGN_DIGIT z 1 digits in
  let t := fst (NN_Add t t u digits) in
  let? a := NN_Mod a a digits t digits in
  let a := fst (NN_Add a a b digits) in
  let? t := NN_Mod t a digits d digits in
  let a := fst (NN_Sub a a t digits) in
  let a := fst (NN_Add a a u digits) in
  let a := if NN_Cmp a b digits <? 0 then fst (NN_Add a a d digits) else a in
  let a := if NN_Cmp a c digits >? 0 then fst (NN_Sub a a d digits) else a in
  Some a.

(** Status, number and random structure. *)
Definition GeneratePrime (a b c d : list Z) (digits : nat) (randomStruct : R_RANDOM_STRUCT)
  : option (Z * list Z * R_RANDOM_STRUCT) :=
  let? (status, block, randomStruct) := R_GenerateBytes (digits * Z.to_nat NN_DIGIT_LEN) randomStruct in
  if negb (status =? 0) then Some (status, a, randomStruct)
  else
    let? a := GeneratePrime_start a b c d block digits in
    let t := NN_Assign (repeat 0 MAX_NN_DIGITS) c digits in
    let t := fst (NN_Sub t t d digits) in
    let? (status, a) := obind (run (32 * digits) (GeneratePrime_step t d digits) a) (fun x => x) in
    Some (status, a, randomStruct).

(** ** The table *)

Fixpoint zseq (n : nat) (start : Z) : list Z :=
  match n with O => [] | S n => start :: zseq n (start + 1) end.

Lemma in_zseq n start x : In x (zseq n start) <-> start <= x < start + Z.of_nat n.
Proof. revert start; induction n as [|n IH]; intros start; cbn [zseq In]; [lia|rewrite IH; lia]. Qed.

(** No number of [d], ..., [d+k-1] below [n] divides [n]. *)
Fixpoint no_divisor (k : nat) (d n : Z) : bool :=
  match k with
  | O => true
  | S k => if n <=? d then true else if n mod d =? 0 then false else no_divisor k (d + 1) n
  end.

Lemma no_divisor_spec k d n : no_divisor k d n = true <->
  forall e, d <= e < d + Z.of_nat k -> e < n -> n mod e <> 0.
Proof.
  revert d; induction k as [|k IH]; intros d; cbn [no_divisor].
  { split; [intros _ e ?; lia|auto]. }
  destruct (Z.leb_spec n d); [split; [intros _ e ?; lia|auto]|].
  destruct (Z.eqb_spec (n mod d) 0) as [E|E].
  - split; [discriminate|]. intros H1. now elim (H1 d ltac:(lia) ltac:(lia)).
  - rewrite IH. split; intros H1 e He Hn; [|apply H1; lia].
    destruct (Z.eq_dec e d) as [->|]; [auto|apply H1; lia].
Qed.

Definition trial (n : Z) : bool := if 1 <? n then no_divisor 89 2 n else false.

Lemma trial_prime n : n < 8192 -> trial n = true <-> Z.prime n.
Proof.
  intros Hn. unfold trial. destruct (Z.ltb_spec 1 n) as [H1|H1].
  2:{ split; [discriminate|]. intros Hp. pose proof (Z.prime_ge_2 _ Hp). lia. }
  rewrite no_divisor_spec. split.
  - intros H. assert (Hd : forall d, 1 < d <= 90 -> d < n -> (d | n) -> False).
    { intros d Hd Hlt Hdiv. apply (H d); [lia|auto|]. apply Z.mod_divide; [lia|auto]. }
    split; [auto|]. intros d Hdn [c Ec].
    destruct (Z_le_gt_dec d 90); [apply (Hd d); [lia|lia|now exists c]|].
    apply (Hd c); [nia|nia|exists d; lia].
  - intros Hp d Hd Hn' E.
    apply (proj2 Hp d); [lia|]. apply Z.mod_divide; [lia|auto].
Qed.

(** The table is the odd primes below 2^13, in order, and a final 0. *)
Lemma SMALL_PRIMES_sieve :
  filter (fun n => if Z.odd n then trial n else false) (zseq (Z.to_nat 8192) 0) ++ [0] = SMALL_PRIMES.
Proof. vm_compute. reflexivity. Qed.

Lemma SMALL_PRIMES_count : length SMALL_PRIMES = S SMALL_PRIME_COUNT.
Proof. reflexivity. Qed.

Definition small_primes : list Z := firstn SMALL_PRIME_COUNT SMALL_PRIMES.

Lemma SMALL_PRIMES_eq : SMALL_PRIMES = small_primes ++ [0].
Proof. vm_compute. reflexivity. Qed.

Lemma small_primes_spec p : In p small_primes <-> Z.odd p = true /\ Z.prime p /\ p < 8192.
Proof.
  assert (E : small_primes = filter (fun n => if Z.odd n then trial n else false) (zseq (Z.to_nat 8192) 0)).
  { apply (app_inv_tail [0]). now rewrite SMALL_PRIMES_sieve, SMALL_PRIMES_eq. }
  rewrite E, filter_In, in_zseq, Z2Nat.id by lia. clear E. split.
  - intros [Hp T]. destruct (Z.odd p); [|discriminate]. apply trial_prime in T; [|lia]. auto with zarith.
  - intros (O & Hp & L). pose proof (Z.prime_ge_2 _ Hp). rewrite O. split; [lia|]. now apply trial_prime.
Qed.

(** ** The test *)

(** The trial divisions on the number itself; [single] when it has one digit. *)
Fixpoint passes (single : bool) (primes : list Z) (A : Z) : bool :=
  match primes with
  | [] => true
  | p :: rest =>
      if single && (A =? p) then true
      else if A mod p =? 0 then false else passes single rest A
  end.

(** What [probableprime] decides. *)
Definition probable (single : bool) (A : Z) : bool :=
  passes single small_primes A && (2 ^ A mod A =? 2).

Lemma nn_1_upd t p : t <> [] -> nn 1 (upd t 0 p) = p.
Proof. destruct t; [congruence|]. intros _. cbn [upd]. rewrite nn_S. cbn. lia. Qed.

Lemma small_primes_loop_spec primes a k t : Forall (fun p => 0 < p < 2 ^ 32) primes ->
  words a -> (1 <= k <= 33)%nat -> words t -> t <> [] ->
  small_primes_loop (primes ++ [0]) a t k = Some (passes (k =? 1)%nat primes (nn k a)).
Proof.
  intros Hp Wa Hk. revert t; induction Hp as [|p rest Hp _ IH]; intros t Wt Nt; [reflexivity|].
  cbn [app small_primes_loop passes]. destruct (Z.eqb_spec p 0); [lia|].
  assert (Wu : words (upd t 0 p)) by (apply Forall_upd; auto; unfold is_word; lia).
  assert (Ec : (k =? 1)%nat && (NN_Cmp a (upd t 0 p) 1 =? 0) = (k =? 1)%nat && (nn k a =? p)).
  { destruct (Nat.eqb_spec k 1) as [->|]; [|reflexivity]. cbn [andb].
    rewrite NN_Cmp_sgn, nn_1_upd by auto.
    destruct (Z.eqb_spec (nn 1 a) p); destruct (Z.eqb_spec (Z.sgn (nn 1 a - p)) 0); auto; lia. }
  rewrite Ec. destruct ((k =? 1)%nat && (nn k a =? p)); [reflexivity|].
  destruct (NN_Mod_total (upd t 0 p) a k (upd t 0 p) 1) as (r & -> & Wr & Er); auto; try lia.
  { rewrite nn_1_upd by auto. lia. }
  cbn [obind]. rewrite NN_Zero_spec, Er, nn_1_upd by auto. rewrite nn_1_upd in Er by auto.
  destruct (Z.eqb_spec (nn k a mod p) 0) as [E0|E0]; [reflexivity|].
  apply IH; auto. intros ->. rewrite nn_nil in Er. lia.
Qed.

Lemma small_primes_range : Forall (fun p => 0 < p < 2 ^ 32) small_primes.
Proof.
  apply Forall_forall. intros p Hp. apply small_primes_spec in Hp. destruct Hp as (_ & Hp & ?).
  pose proof (Z.prime_ge_2 _ Hp). lia.
Qed.

(** The test returns, and answers [probable]. *)
Lemma probableprime_total a k : words a -> (1 <= k <= 33)%nat -> 1 < nn k a ->
  probableprime a k = Some (probable (k =? 1)%nat (nn k a)).
Proof.
  intros Wa Hk HA. unfold probableprime. set (z := repeat 0 MAX_NN_DIGITS).
  assert (Wz : words z) by (unfold z; auto with words).
  rewrite SMALL_PRIMES_eq, small_primes_loop_spec; auto using small_primes_range, words_AssignZero.
  2:{ unfold NN_AssignZero, store. destruct k; [lia|]. cbn [repeat app]. discriminate. }
  cbn [obind]. unfold probable. destruct (passes _ _ _); [|reflexivity]. cbn [andb].
  assert (W2 : words (NN_ASSIGN_DIGIT z 2 k)) by (apply words_ASSIGN_DIGIT; auto; unfold is_word; lia).
  destruct (NN_ModExp_total (NN_ASSIGN_DIGIT z 2 k) a k W2 Wa ltac:(lia) HA z a k ltac:(lia) Wz Wa)
    as (u & -> & Wu & Eu).
  cbn [obind]. rewrite NN_EQUAL_spec, Eu, NN_ASSIGN_DIGIT_spec by (auto; lia).
  f_equal. apply Z.eqb_sym.
Qed.

Lemma passes_true single primes A : passes single primes A = true ->
  (single = true /\ In A primes) \/ (forall p, In p primes -> A mod p <> 0).
Proof.
  induction primes as [|p rest IH]; cbn [passes]; [right; intros p []|].
  destruct (single && (A =? p)) eqn:E.
  { apply andb_true_iff in E. destruct E as [-> E]. apply Z.eqb_eq in E. left; cbn; auto. }
  destruct (Z.eqb_spec (A mod p) 0); [discriminate|]. intros H.
  destruct (IH H) as [[H1 H2]|H1]; [left; cbn; auto|]. right. intros q [<-|Hq]; auto.
Qed.

Lemma passes_prime single primes A : Z.prime A -> (single = true \/ 8192 <= A) ->
  Forall (fun p => 1 < p < 8192) primes -> passes single primes A = true.
Proof.
  intros HA H. induction 1 as [|p rest Hp _ IH]; [reflexivity|].
  cbn [passes]. destruct (single && (A =? p)) eqn:E; [reflexivity|].
  destruct (Z.eqb_spec (A mod p) 0) as [D|]; [exfalso|apply IH].
  apply Z.mod_divide in D; [|lia]. pose proof (Z.prime_ge_2 _ HA).
  destruct (Z.eq_dec p A) as [->|].
  - destruct H as [->|]; [|lia]. rewrite Z.eqb_refl in E. discriminate.
  - apply (proj2 HA p); [|auto]. apply Z.divide_pos_le in D; lia.
Qed.

Lemma small_primes_lt : Forall (fun p => 1 < p < 8192) small_primes.
Proof.
  apply Forall_forall. intros p Hp. apply small_primes_spec in Hp. destruct Hp as (_ & Hp & ?).
  pose proof (Z.prime_ge_2 _ Hp). lia.
Qed.

Lemma fermat_2 A : Z.prime A -> Z.odd A = true -> 2 ^ A mod A = 2.
Proof.
  intros Hp Ho. pose proof (Z.prime_ge_2 _ Hp).
  assert (A <> 2) by (intros ->; discriminate).
  rewrite fermat_exponent by (auto; try lia; replace A with (1 + 1 * (A - 1)) at 1 by lia;
    rewrite Z_mod_plus_full; apply Z.mod_small; lia).
  apply Z.mod_small. lia.
Qed.

(** Every odd prime passes, those of the table only as one-digit numbers. *)
Lemma probable_prime single A : Z.prime A -> Z.odd A = true -> (single = true \/ 8192 <= A) ->
  probable single A = true.
Proof.
  intros Hp Ho H. unfold probable. rewrite passes_prime, fermat_2 by auto using small_primes_lt. reflexivity.
Qed.

(** An odd composite below 2^26 has a factor in the table. *)
Lemma small_factor A : 1 < A < 2 ^ 26 -> Z.odd A = true -> ~ Z.prime A ->
  exists p, In p small_primes /\ (p | A).
Proof.
  intros HA Ho Hn. destruct (not_prime_divide A ltac:(lia)) as (d & Hd & [c Ec]).
  { intros P. apply Hn. now apply prime_alt. }
  assert (exists m, 1 < m /\ m < 8192 /\ (m | A)) as (m & Hm1 & Hm2 & Dm).
  { destruct (Z_lt_ge_dec d 8192); [exists d; splits; [lia|lia|now exists c]|].
    exists c. splits; [nia|nia|exists d; lia]. }
  destruct (prime_divisor m Hm1) as (p & Hp & Dp). exists p.
  assert (Dpa : (p | A)) by now apply Z.divide_trans with m.
  split; [|auto]. apply small_primes_spec. splits; auto.
  - destruct (Z.odd p) eqn:O; [auto|]. exfalso. destruct Dpa as [k ->].
    rewrite Z.odd_mul, O, andb_false_r in Ho. discriminate.
  - apply Z.divide_pos_le in Dp; lia.
Qed.

Lemma probable_exact single A : 1 < A < 2 ^ 26 -> Z.odd A = true ->
  probable single A = true <-> Z.prime A /\ (single = true \/ 8192 <= A).
Proof.
  intros HA Ho. split; [|intros [? ?]; now apply probable_prime].
  unfold probable. rewrite andb_true_iff. intros [H _]. destruct (passes_true _ _ _ H) as [[-> Hin]|Hf].
  - apply small_primes_spec in Hin. tauto.
  - assert (P : Z.prime A).
    { destruct (prime_dec A) as [P|P]; [now apply prime_alt|]. exfalso.
      destruct (small_factor A HA Ho) as (p & Hp & D); [now rewrite prime_alt|].
      apply (Hf p Hp). apply Z.mod_divide; [|auto].
      apply small_primes_spec in Hp. destruct Hp as (_ & Hp & _). pose proof (Z.prime_ge_2 _ Hp). lia. }
    split; [auto|]. destruct (Z_lt_ge_dec A 8192); [|lia]. left. exfalso.
    apply (Hf A); [apply small_primes_spec; auto|]. apply Z_mod_same_full.
Qed.

(** ** The search *)

(** The start of the progression for a random number [r]. *)
Definition start_at (B C D r : Z) : Z :=
  let a := r mod (C - B + 1) + B in
  let a := a - a mod D + 1 in
  let a := if a <? B then a + D else a in
  if C <? a then a - D else a.

Lemma start_range B C D r : 2 <= B < C -> 0 < D <= C - B ->
  B <= start_at B C D r <= C /\ start_at B C D r mod D = 1 mod D.
Proof.
  intros HB HD. unfold start_at. pose proof (Z.mod_pos_bound r (C - B + 1) ltac:(lia)).
  set (a := r mod (C - B + 1) + B) in *. pose proof (Z.mod_pos_bound a D ltac:(lia)).
  assert (E : (a - a mod D + 1) mod D = 1 mod D).
  { replace (a - a mod D + 1) with (1 + (a / D) * D) by (rewrite (Z.div_mod a D) at 2 by lia; ring).
    apply Z_mod_plus_full. }
  destruct (Z.ltb_spec (a - a mod D + 1) B).
  - destruct (Z.ltb_spec C (a - a mod D + 1 + D)); [lia|]. split; [lia|].
    rewrite <- E. replace (a - a mod D + 1 + D) with (a - a mod D + 1 + 1 * D) by lia. apply Z_mod_plus_full.
  - destruct (Z.ltb_spec C (a - a mod D + 1)); [|auto]. split; [lia|].
    rewrite <- E. replace (a - a mod D + 1 - D) with (a - a mod D + 1 + (-1) * D) by lia. apply Z_mod_plus_full.
Qed.

Section Search.
Context (b c d : list Z) (k : nat) (Wb : words b) (Wc : words c) (Wd : words d) (Hk : (1 <= k <= 33)%nat).
Let B := nn k b.
Let C := nn k c.
Let D := nn k d.
Hypothesis HB : 2 <= B < C.
Hypothesis HD : 0 < D <= C - B.
(** The addition of 1 to [a - a mod d] does not overflow. *)
Hypothesis HC : C mod D <> 0 \/ C + 1 < Bn k.

Lemma C_bound : C < Bn k.
Proof. apply nn_bound, Wc. Qed.

Lemma GeneratePrime_start_total a block : words a -> bytes block -> length block = (k * 4)%nat ->
  exists x, GeneratePrime_start a b c d block k = Some x /\ words x /\
    nn k x = start_at B C D (be block).
Proof.
  intros Wa Hb Lb. pose proof C_bound as HCb. pose proof (nn_bound k b Wb).
  unfold GeneratePrime_start. set (z := repeat 0 MAX_NN_DIGITS). change (Z.to_nat NN_DIGIT_LEN) with 4%nat.
  assert (Wz : words z) by (unfold z; auto with words).
  destruct (NN_Decode_spec a k block (k * 4) Wa Hb) as [W1 E1].
  rewrite firstn_all2 in E1 by lia.
  assert (Eb : be block mod Bn k = be block).
  { apply Z.mod_small. pose proof (be_bound block Hb) as HH. rewrite Lb in HH.
    unfold Pn, Bn in *. replace (32 * Z.of_nat k) with (8 * Z.of_nat (k * 4)) by lia. auto. }
  rewrite Eb in E1.
  destruct (NN_Sub_noborrow z c b k Wz Wc Wb) as (W2 & _ & E2); [fold B C; lia|].
  assert (W3 : words (NN_ASSIGN_DIGIT z 1 k)) by (apply words_ASSIGN_DIGIT; auto; unfold is_word; lia).
  pose proof (NN_ASSIGN_DIGIT_spec z 1 k ltac:(lia)) as E3.
  set (u := NN_ASSIGN_DIGIT z 1 k) in *. set (t := fst (NN_Sub z c b k)) in *.
  fold B C in E2.
  destruct (NN_Add_nocarry t t u k W2 W2 W3) as [W4 E4]; [rewrite E2, E3; lia|].
  rewrite E2, E3 in E4. set (t1 := fst (NN_Add t t u k)) in *.
  set (a1 := NN_Decode a k block (k * 4)) in *.
  destruct (NN_Mod_total a1 a1 k t1 k) as (a2 & -> & W5 & E5); auto; try lia.
  cbn [obind]. rewrite E1, E4 in E5. pose proof (Z.mod_pos_bound (be block) (C - B + 1) ltac:(lia)).
  destruct (NN_Add_nocarry a2 a2 b k W5 W5 Wb) as [W6 E6]; [fold B; lia|]. fold B in E6. rewrite E5 in E6.
  set (a3 := fst (NN_Add a2 a2 b k)) in *.
  destruct (NN_Mod_total t1 a3 k d k) as (t2 & -> & W7 & E7); auto; try lia.
  cbn [obind]. fold D in E7. pose proof (Z.mod_pos_bound (nn k a3) D ltac:(lia)).
  pose proof (Z.mod_le (nn k a3) D ltac:(lia) ltac:(lia)).
  destruct (NN_Sub_noborrow a3 a3 t2 k W6 W6 W7) as (W8 & _ & E8); [lia|].
  set (a4 := fst (NN_Sub a3 a3 t2 k)) in *.
  assert (B1 : nn k a3 - nn k a3 mod D + 1 < Bn k).
  { destruct HC as [N|N]; [|lia]. destruct (Z.eq_dec (nn k a3) C) as [Q|]; [|lia].
    rewrite <- Q in N. lia. }
  destruct (NN_Add_nocarry a4 a4 u k W8 W8 W3) as [W9 E9]; [lia|].
  set (a5 := fst (NN_Add a4 a4 u k)) in *. rewrite E8, E3, E7 in E9. clear W4 W5 W7 W8 E4 E5 E7 E8.
  pose proof (start_range B C D (be block) HB HD) as SR. unfold start_at in *. rewrite <- E6 in *. rewrite <- E9 in *.
  set (a6 := if _ <? 0 then _ else a5).
  assert (A6 : words a6 /\ nn k a6 = if nn k a5 <? B then nn k a5 + D else nn k a5).
  { unfold a6. rewrite NN_Cmp_sgn by auto. fold B.
    destruct (Z.ltb_spec (Z.sgn (nn k a5 - B)) 0); destruct (Z.ltb_spec (nn k a5) B); try lia; auto.
    apply NN_Add_nocarry; auto. fold D. lia. }
  destruct A6 as [W10 E10]. rewrite <- E10 in *. clearbody a6. eexists. split; [reflexivity|].
  rewrite NN_Cmp_sgn by auto. fold C.
  destruct (Z.gtb_spec (Z.sgn (nn k a6 - C)) 0); destruct (Z.ltb_spec C (nn k a6)); try lia; auto.
  destruct (NN_Sub_noborrow a6 a6 d k W10 W10 Wd) as (? & _ & ?); [fold D; lia|]. auto.
Qed.

(** The state of the search after [i] turns from [X]. *)
Definition Search_inv (X : Z) (a : list Z) : Prop :=
  words a /\ exists i, 0 <= i /\ nn k a = X + i * D /\ nn k a <= C /\
    forall j, 0 <= j < i -> probable (k =? 1)%nat (X + j * D) = false.

Definition Search_post (X : Z) (r : option (Z * list Z)) : Prop :=
  exists status p, r = Some (status, p) /\ Search_inv X p /\
    ((status = ID_OK /\ probable (k =? 1)%nat (nn k p) = true) \/
     (status = RE_DATA /\ probable (k =? 1)%nat (nn k p) = false /\ C < nn k p + D)).

Lemma GeneratePrime_search X a : B <= X -> Search_inv X a ->
  exists r, run (32 * k) (GeneratePrime_step
    (fst (NN_Sub (NN_Assign (repeat 0 MAX_NN_DIGITS) c k) (NN_Assign (repeat 0 MAX_NN_DIGITS) c k) d k)) d k) a
    = Some r /\ Search_post X r.
Proof.
  intros HX HI. pose proof C_bound as HCb. pose proof (words_0 MAX_NN_DIGITS) as Wz.
  set (z := repeat 0 MAX_NN_DIGITS) in *. pose proof (words_Assign z c k Wz Wc) as W1.
  pose proof (NN_Assign_spec z c k) as E1. fold C in E1. set (t := NN_Assign z c k) in *.
  destruct (NN_Sub_noborrow t t d k W1 W1 Wd) as (W2 & _ & E2); [fold D; lia|]. fold D in E2.
  set (t1 := fst (NN_Sub t t d k)) in *. clearbody t1.
  apply (run_total _ (Search_inv X) (fun a => C - nn k a)); [|exact HI|].
  2:{ destruct HI as (Wa & _). pose proof (nn_bound k a Wa). unfold Bn in *. rewrite Nat2Z.inj_mul. lia. }
  clear a HI. intros a HI. pose proof HI as (Wa & i & Hi & Ei & HC1 & Hf). unfold GeneratePrime_step.
  assert (0 <= i * D) by nia.
  rewrite probableprime_total by (auto; lia).
  destruct (probable (k =? 1)%nat (nn k a)) eqn:P.
  { exists ID_OK, a. auto. }
  rewrite NN_Cmp_sgn by auto.
  destruct (Z.gtb_spec (Z.sgn (nn k a - nn k t1)) 0) as [G|G].
  { exists RE_DATA, a. splits; auto. right. splits; auto. lia. }
  destruct (NN_Add_nocarry a a d k Wa Wa Wd) as [Ws Es]; [fold D; lia|]. fold D in Es.
  split; [|lia]. split; [auto|]. exists (i + 1). splits; try lia.
  intros j Hj. destruct (Z.eq_dec j i) as [->|]; [now rewrite <- Ei|apply Hf; lia].
Qed.

(** [GeneratePrime] on a ready random structure. *)
Lemma GeneratePrime_total a rs : words a -> bytesNeeded rs = 0 -> well_formed rs -> bytes (output rs) ->
  exists block rs' status p,
    R_GenerateBytes (k * 4) rs = Some (ID_OK, block, rs') /\
    bytesNeeded rs' = 0 /\ well_formed rs' /\ bytes (output rs') /\
    GeneratePrime a b c d k rs = Some (status, p, rs') /\
    Search_post (start_at B C D (be block)) (Some (status, p)).
Proof.
  intros Wa H0 Hw Hob. unfold GeneratePrime. change (Z.to_nat NN_DIGIT_LEN) with 4%nat.
  destruct (R_GenerateBytes_total (k * 4) rs H0 Hw) as (block & rs' & E & L & H0' & Hw').
  destruct (R_GenerateBytes_bytes _ _ _ _ Hob E) as [Hb Hob'].
  rewrite E. cbn [obind]. change (negb (ID_OK =? 0)) with false. cbv iota.
  destruct (GeneratePrime_start_total a block Wa Hb L) as (x & -> & Wx & Ex). cbn [obind].
  destruct (start_range B C D (be block) HB HD) as [SR _].
  destruct (GeneratePrime_search (start_at B C D (be block)) x) as (r & Er & status & p & -> & HP);
    [lia| |].
  { split; [auto|]. exists 0. splits; try lia. }
  cbv zeta. rewrite Er. cbn [obind]. do 4 eexists. splits; try reflexivity; auto.
  exists status, p. auto.
Qed.
End Search.

(** ** The claims *)

(** The primality test returns for every number above 1.  An odd prime passes (the
    primes of the table only when they have one digit, a longer number being compared with
    0); a number that passes satisfies 2^a = 2 modulo a and has no odd prime factor below
    2^13 unless it is itself such a prime; and the answer is exact for odd numbers below
    2^26. *)
Theorem probableprime_decides (a : list Z) (k : nat) :
  words a -> (1 <= k <= 33)%nat -> 1 < nn k a ->
  exists r, probableprime a k = Some r /\
    (Z.prime (nn k a) -> Z.odd (nn k a) = true -> (k = 1%nat \/ 8192 <= nn k a) -> r = true) /\
    (r = true -> 2 ^ nn k a mod nn k a = 2 /\
       forall p, Z.prime p -> Z.odd p = true -> p < 8192 -> (p | nn k a) ->
         k = 1%nat /\ Z.prime (nn k a) /\ nn k a < 8192) /\
    (nn k a < 2 ^ 26 -> Z.odd (nn k a) = true ->
       (r = true <-> Z.prime (nn k a) /\ (k = 1%nat \/ 8192 <= nn k a))).
Proof.
  intros Wa Hk HA. exists (probable (k =? 1)%nat (nn k a)).
  pose proof (Nat.eqb_eq k 1) as K1. splits.
  - now apply probableprime_total.
  - intros Hp Ho Hs. apply probable_prime; tauto.
  - unfold probable. rewrite andb_true_iff, Z.eqb_eq. intros [H F]. split; [auto|].
    intros p Hp Ho Hl D. destruct (passes_true _ _ _ H) as [[Hs Hin]|Hf].
    + apply small_primes_spec in Hin. tauto.
    + exfalso. apply (Hf p); [apply small_primes_spec; auto|].
      apply Z.mod_divide; [pose proof (Z.prime_ge_2 _ Hp); lia|auto].
  - intros Hl Ho. rewrite probable_exact, K1 by auto. reflexivity.
Qed.

(** On a ready random structure and bounds [2 <= b < c] with a step [0 < d <= c - b],
    [GeneratePrime] returns.  The search starts in [b, c] at a number that is 1 modulo d;
    every number of the progression before the answer fails the test; the status is
    [ID_OK] with a number at most c that passes, or [RE_DATA] when no number of the
    progression up to c passes. *)
Theorem GeneratePrime_result (a b c d : list Z) (k : nat) (rs : R_RANDOM_STRUCT) :
  words a -> words b -> words c -> words d -> (1 <= k <= 33)%nat ->
  2 <= nn k b < nn k c -> 0 < nn k d <= nn k c - nn k b ->
  nn k c mod nn k d <> 0 \/ nn k c + 1 < Bn k ->
  bytesNeeded rs = 0 -> well_formed rs -> bytes (output rs) ->
  exists status p rs' X i, GeneratePrime a b c d k rs = Some (status, p, rs') /\
    nn k b <= X <= nn k c /\ X mod nn k d = 1 mod nn k d /\
    0 <= i /\ nn k p = X + i * nn k d /\ nn k p <= nn k c /\
    (forall j, 0 <= j < i -> probable (k =? 1)%nat (X + j * nn k d) = false) /\
    ((status = ID_OK /\ probable (k =? 1)%nat (nn k p) = true) \/
     (status = RE_DATA /\ probable (k =? 1)%nat (nn k p) = false /\ nn k c < nn k p + nn k d)).
Proof.
  intros Wa Wb Wc Wd Hk HB HD HC H0 Hw Ho.
  destruct (GeneratePrime_total b c d k Wb Wc Wd Hk HB HD HC a rs Wa H0 Hw Ho)
    as (block & rs' & status & p & _ & _ & _ & _ & E & st & q & [= <- <-] & (Wp & i & Hi & Ep & Hc & Hf) & Hs).
  destruct (start_range _ _ _ (be block) HB HD) as [SR SM].
  exists status, p, rs', (start_at (nn k b) (nn k c) (nn k d) (be block)), i.
  splits; auto; lia.
Qed.

Lemma probableprime_decides_witness :
  exists r, probableprime [97] 1 = Some r /\
    (Z.prime 97 -> Z.odd 97 = true -> (1%nat = 1%nat \/ 8192 <= 97) -> r = true) /\
    (r = true -> 2 ^ 97 mod 97 = 2 /\
       forall p, Z.prime p -> Z.odd p = true -> p < 8192 -> (p | 97) ->
         1%nat = 1%nat /\ Z.prime 97 /\ 97 < 8192) /\
    (97 < 2 ^ 26 -> Z.odd 97 = true -> (r = true <-> Z.prime 97 /\ (1%nat = 1%nat \/ 8192 <= 97))).
Proof. apply (probableprime_decides [97] 1); [check_words|lia|reflexivity]. Defined.

(** The numbers between 200 and 300 that are 1 modulo 6, a ready random structure. *)
Lemma GeneratePrime_result_witness :
  let rs := mkRandom 0 (repeat 1 16) 0 (repeat 0 16) in
  exists status p rs' X i, GeneratePrime [0] [200] [300] [6] 1 rs = Some (status, p, rs') /\
    200 <= X <= 300 /\ X mod 6 = 1 mod 6 /\ 0 <= i /\ nn 1 p = X + i * 6 /\ nn 1 p <= 300 /\
    (forall j, 0 <= j < i -> probable true (X + j * 6) = false) /\
    ((status = ID_OK /\ probable true (nn 1 p) = true) \/
     (status = RE_DATA /\ probable true (nn 1 p) = false /\ 300 < nn 1 p + 6)).
Proof.
  apply (GeneratePrime_result [0] [200] [300] [6] 1 (mkRandom 0 (repeat 1 16) 0 (repeat 0 16)));
    [check_words|check_words|check_words|check_words|lia|split; vm_compute; congruence
    |split; vm_compute; congruence|right; reflexivity|reflexivity|split; [apply Nat.le_0_l|reflexivity]|check_bytes].
Defined.
