(* ===== verification/KeyGen.v ===== *)
(** * KeyGen: RSA key generation (src/QBase/RSAEuro/r_keygen.c)

    The search for the two primes is a loop without a bound in the code: it draws
    until a prime passes the filter. The model gives it fuel; the theorem about
    [R_GeneratePEMKeys] holds for every fuel, says what has been returned when the
    loops ended, and that otherwise every prime drawn was one that the filter
    rejects. *)

From Stdlib Require Import Znumtheory Zdivisibility.
From S2P Require Import Prelude Rsaeuro NN NNDiv NNMod StdLib Random NumTheory RSA Prime.

(** ** Definitions *)

(** Nonzero iff gcd (a - 1, b) = 1. *)
Definition RSAFilter (a : list Z) (aDigits : nat) (b : list Z) (bDigits : nat) : option bool :=
  let z := repeat 0 MAX_NN_DIGITS in
  let t := NN_ASSIGN_DIGIT z 1 aDigits in
  let aMinus1 := fst (NN_Sub z a t aDigits) in
  let? u := NN_Gcd z aMinus1 b aDigits in
  Some (NN_EQUAL t u aDigits).

(** [t], [u] and [v]: the bounds of the primes of [pBits] bits and the step. *)
Definition prime_bounds (t u v : list Z) (pBits : Z) (pDigits : nat) : list Z * list Z * list Z :=
  let t := NN_Assign2Exp t (pBits - 1) pDigits in
  let u := NN_Assign2Exp u (pBits - 2) pDigits in
  let t := fst (NN_Add t t u pDigits) in
  let v := NN_ASSIGN_DIGIT v 1 pDigits in
  let v := fst (NN_Sub v t v pDigits) in
  let u := fst (NN_Add u u v pDigits) in
  let v := NN_ASSIGN_DIGIT v 2 pDigits in
  (t, u, v).

(** [do GeneratePrime while(!RSAFilter)]. *)
Fixpoint filtered_prime (fuel : nat) (p t u v e : list Z) (pDigits : nat) (randomStruct : R_RANDOM_STRUCT)
  : option (Z * list Z * R_RANDOM_STRUCT) :=
  match fuel with
  | O => None
  | S fuel =>
      let? (status, p, randomStruct) := GeneratePrime p t u v pDigits randomStruct in
      if negb (status =? 0) then Some (status, p, randomStruct)
      else
        let? ok := RSAFilter p pDigits e 1 in
        if ok then Some (ID_OK, p, randomStruct)
        else filtered_prime fuel p t u v e pDigits randomStruct
  end.

(** The two keys, from the primes. *)
Definition make_keys (publicKey : R_RSA_PUBLIC_KEY) (privateKey : R_RSA_PRIVATE_KEY) (bits : Z)
  (p q e t : list Z) (pDigits nDigits : nat) : option (R_RSA_PUBLIC_KEY * R_RSA_PRIVATE_KEY) :=
  let z := repeat 0 MAX_NN_DIGITS in
  let '(p, q, t) :=
    if NN_Cmp p q pDigits <? 0 then
      let t := NN_Assign t p pDigits in
      let p := NN_Assign p q pDigits in
      let q := NN_Assign q t pDigits in (p, q, t)
    else (p, q, t) in
  let n := NN_Mult z p q pDigits in
  let? qInv := NN_ModInv z q p pDigits in
  let t := NN_ASSIGN_DIGIT t 1 pDigits in
  let pMinus1 := fst (NN_Sub z p t pDigits) in
  let qMinus1 := fst (NN_Sub z q t pDigits) in
  let phiN := NN_Mult z pMinus1 qMinus1 pDigits in
  let? d := NN_ModInv z e phiN nDigits in
  let? dP := NN_Mod z d nDigits pMinus1 pDigits in
  let? dQ := NN_Mod z d nDigits qMinus1 pDigits in
  let modulus := NN_Encode (pub_modulus publicKey) MAX_RSA_MODULUS_LEN n nDigits in
  let exponent := NN_Encode (pub_exponent publicKey) MAX_RSA_MODULUS_LEN e 1 in
  Some (mkPublicKey bits modulus exponent,
    mkPrivateKey bits
      (R_memcpy (priv_modulus privateKey) modulus MAX_RSA_MODULUS_LEN)
      (R_memcpy (publicExponent privateKey) exponent MAX_RSA_MODULUS_LEN)
      (NN_Encode (priv_exponent privateKey) MAX_RSA_MODULUS_LEN d nDigits)
      (NN_Encode (prime0 privateKey) MAX_RSA_PRIME_LEN p pDigits)
      (NN_Encode (prime1 privateKey) MAX_RSA_PRIME_LEN q pDigits)
      (NN_Encode (primeExponent0 privateKey) MAX_RSA_PRIME_LEN dP pDigits)
      (NN_Encode (primeExponent1 privateKey) MAX_RSA_PRIME_LEN dQ pDigits)
      (NN_Encode (coefficient privateKey) MAX_RSA_PRIME_LEN qInv pDigits)).

Definition R_GeneratePEMKeys (fuel : nat) (publicKey : R_RSA_PUBLIC_KEY) (privateKey : R_RSA_PRIVATE_KEY)
  (protoKey : R_RSA_PROTO_KEY) (randomStruct : R_RANDOM_STRUCT)
  : option (Z * R_RSA_PUBLIC_KEY * R_RSA_PRIVATE_KEY * R_RANDOM_STRUCT) :=
  let bits := proto_bits protoKey in
  if (bits <? MIN_RSA_MODULUS_BITS) || (bits >? MAX_RSA_MODULUS_BITS) then
    Some (RE_MODULUS_LEN, publicKey, privateKey, randomStruct)
  else
    let z := repeat 0 MAX_NN_DIGITS in
    let nDigits := Z.to_nat ((bits + NN_DIGIT_BITS - 1) / NN_DIGIT_BITS) in
    let pDigits := ((nDigits + 1) / 2)%nat in
    let pBits := (bits + 1) / 2 in
    let qBits := bits - pBits in
    let e := NN_ASSIGN_DIGIT z (if useFermat4 protoKey then 65537 else 3) nDigits in
    let '(t, u, v) := prime_bounds z z z pBits pDigits in
    let? (status, p, randomStruct) := filtered_prime fuel z t u v e pDigits randomStruct in
    if negb (status =? 0) then Some (status, publicKey, privateKey, randomStruct)
    else
      let '(t, u, v) := prime_bounds t u v qBits pDigits in
      let? (status, q, randomStruct) := filtered_prime fuel z t u v e pDigits randomStruct in
      if negb (status =? 0) then Some (status, publicKey, privateKey, randomStruct)
      else
        let? (publicKey, privateKey) := make_keys publicKey privateKey bits p q e t pDigits nDigits in
        Some (ID_OK, publicKey, privateKey, randomStruct).

(** ** The filter and the bounds *)

Lemma RSAFilter_total a k b bd : words a -> words b -> (1 <= k <= 33)%nat -> 0 < nn k a ->
  RSAFilter a k b bd = Some (Z.gcd (nn k a - 1) (nn k b) =? 1).
Proof.
  intros Wa Wb Hk HA. unfold RSAFilter. set (z := repeat 0 MAX_NN_DIGITS).
  assert (Wz : words z) by (unfold z; auto with words).
  assert (W1 : words (NN_ASSIGN_DIGIT z 1 k)) by (apply words_ASSIGN_DIGIT; auto; unfold is_word; lia).
  pose proof (NN_ASSIGN_DIGIT_spec z 1 k ltac:(lia)) as E1. set (t := NN_ASSIGN_DIGIT z 1 k) in *.
  destruct (NN_Sub_noborrow z a t k Wz Wa W1 ltac:(lia)) as (W2 & _ & E2).
  destruct (NN_Gcd_total z (fst (NN_Sub z a t k)) b k Wz W2 Wb ltac:(lia)) as (u & -> & Wu & Eu).
  cbn [obind]. rewrite NN_EQUAL_spec, E1, Eu, E2, E1 by auto. f_equal. apply Z.eqb_sym.
Qed.

Lemma pow2_double n : 1 <= n -> 2 ^ n = 2 * 2 ^ (n - 1).
Proof. intros. rewrite <- Z.pow_succ_r by lia. f_equal. lia. Qed.

Lemma prime_bounds_spec t u v n k : words t -> words u -> words v ->
  3 <= n <= 32 * Z.of_nat k ->
  let '(t', u', v') := prime_bounds t u v n k in
  words t' /\ words u' /\ words v' /\
  nn k t' = 3 * 2 ^ (n - 2) /\ nn k u' = 2 ^ n - 1 /\ nn k v' = 2.
Proof.
  intros Wt Wu Wv Hn. unfold prime_bounds.
  destruct (NN_Assign2Exp_spec t (n - 1) k Wt ltac:(lia)) as [W1 E1].
  destruct (NN_Assign2Exp_spec u (n - 2) k Wu ltac:(lia)) as [W2 E2].
  destruct (Z.ltb_spec (n - 1) (32 * Z.of_nat k)); [|lia].
  destruct (Z.ltb_spec (n - 2) (32 * Z.of_nat k)); [|lia].
  set (t1 := NN_Assign2Exp t (n - 1) k) in *. set (u1 := NN_Assign2Exp u (n - 2) k) in *.
  pose proof (pow2_double n ltac:(lia)) as P1. pose proof (pow2_double (n - 1) ltac:(lia)) as P2.
  replace (n - 1 - 1) with (n - 2) in P2 by lia.
  assert (P3 : 0 < 2 ^ (n - 2)) by (apply Z.pow_pos_nonneg; lia).
  assert (P4 : 2 ^ n <= Bn k) by (unfold Bn; apply Z.pow_le_mono_r; lia).
  destruct (NN_Add_nocarry t1 t1 u1 k W1 W1 W2) as [W3 E3]; [lia|].
  set (t2 := fst (NN_Add t1 t1 u1 k)) in *.
  assert (Wv1 : words (NN_ASSIGN_DIGIT v 1 k)) by (apply words_ASSIGN_DIGIT; auto; unfold is_word; lia).
  pose proof (NN_ASSIGN_DIGIT_spec v 1 k ltac:(lia)) as Ev1. set (v1 := NN_ASSIGN_DIGIT v 1 k) in *.
  destruct (NN_Sub_noborrow v1 t2 v1 k Wv1 W3 Wv1) as (W4 & _ & E4); [lia|].
  set (v2 := fst (NN_Sub v1 t2 v1 k)) in *.
  destruct (NN_Add_nocarry u1 u1 v2 k W2 W2 W4) as [W5 E5]; [lia|].
  splits; auto; try lia.
  - apply words_ASSIGN_DIGIT; auto. unfold is_word; lia.
  - apply NN_ASSIGN_DIGIT_spec. lia.
Qed.

(** ** The loop *)

(** A random structure ready to give bytes. *)
Definition ready (rs : R_RANDOM_STRUCT) : Prop :=
  bytesNeeded rs = 0 /\ well_formed rs /\ bytes (output rs).

(** The first [fuel] primes the search draws, up to a failure. *)
Fixpoint draws (fuel : nat) (p t u v : list Z) (k : nat) (rs : R_RANDOM_STRUCT) : list Z :=
  match fuel with
  | O => []
  | S fuel =>
      match GeneratePrime p t u v k rs with
      | Some (0, p, rs) => nn k p :: draws fuel p t u v k rs
      | _ => []
      end
  end.

(** A prime the search may keep. *)
Definition candidate (k : nat) (n : Z) (x : Z) : Prop :=
  3 * 2 ^ (n - 2) <= x < 2 ^ n /\ x mod 2 = 1 /\ probable (k =? 1)%nat x = true.

Section Filtered.
Context (t u v e : list Z) (k : nat) (n E : Z) (Wt : words t) (Wu : words u) (Wv : words v)
  (We : words e) (Hk : (1 <= k <= 33)%nat) (Hn : 4 <= n)
  (Et : nn k t = 3 * 2 ^ (n - 2)) (Eu : nn k u = 2 ^ n - 1) (Ev : nn k v = 2) (Ee : nn k e = E).

Lemma draw_one p rs : words p -> ready rs ->
  exists status p' rs', GeneratePrime p t u v k rs = Some (status, p', rs') /\ ready rs' /\ words p' /\
    ((status = ID_OK /\ candidate k n (nn k p')) \/ status = RE_DATA).
Proof.
  intros Wp (H0 & Hw & Hb).
  assert (P0 : 4 <= 2 ^ (n - 2)) by (change 4 with (2 ^ 2) at 1; apply Z.pow_le_mono_r; lia).
  pose proof (pow2_double n ltac:(lia)) as P1. pose proof (pow2_double (n - 1) ltac:(lia)) as P2.
  replace (n - 1 - 1) with (n - 2) in P2 by lia.
  assert (Em : (2 ^ n - 1) mod 2 = 1).
  { rewrite P1. replace (2 * 2 ^ (n - 1) - 1) with (1 + (2 ^ (n - 1) - 1) * 2) by lia.
    now rewrite Z_mod_plus_full. }
  destruct (GeneratePrime_total t u v k Wt Wu Wv Hk ltac:(lia) ltac:(lia)
    ltac:(left; rewrite Eu, Ev, Em; lia) p rs Wp H0 Hw Hb)
    as (block & rs' & status & p' & _ & H0' & Hw' & Hb' & EG & st & q & Eq & (Wq & i & Hi & Ei & Hc & _) & Hs).
  injection Eq as <- <-. exists status, p', rs'. splits; auto; [unfold ready; auto|].
  destruct Hs as [[-> Hp]|[-> _]]; [left|auto]. split; [auto|].
  destruct (start_range (nn k t) (nn k u) (nn k v) (be block) ltac:(lia) ltac:(lia)) as [SR SM].
  rewrite Ei, Ev in *. set (X := start_at _ _ _ _) in *. unfold candidate. splits; auto; try lia.
  rewrite Z_mod_plus_full, SM. reflexivity.
Qed.

Lemma filtered_prime_total fuel p rs : words p -> ready rs ->
  match filtered_prime fuel p t u v e k rs with
  | Some (status, p', rs') => ready rs' /\ words p' /\
      ((status = ID_OK /\ candidate k n (nn k p') /\ Z.gcd (nn k p' - 1) E = 1) \/ status = RE_DATA)
  | None => length (draws fuel p t u v k rs) = fuel /\
      Forall (fun x => candidate k n x /\ Z.gcd (x - 1) E <> 1) (draws fuel p t u v k rs)
  end.
Proof.
  revert p rs; induction fuel as [|fuel IH]; intros p rs Wp Hr; [cbn; auto|].
  cbn [filtered_prime draws].
  destruct (draw_one p rs Wp Hr) as (status & p' & rs' & -> & Hr' & Wp' & Hs). cbn [obind].
  destruct Hs as [[-> Hc]| ->]; [|cbn; auto]. change (negb (ID_OK =? 0)) with false. cbv iota.
  assert (0 < nn k p').
  { destruct Hc as [[Hc _] _]. pose proof (Z.pow_pos_nonneg 2 (n - 2) ltac:(lia) ltac:(lia)). lia. }
  rewrite RSAFilter_total, Ee by auto. cbn [obind].
  destruct (Z.eqb_spec (Z.gcd (nn k p' - 1) E) 1) as [G|G]; [splits; auto; left; auto|].
  specialize (IH p' rs' Wp' Hr').
  destruct (filtered_prime fuel p' t u v e k rs') as [[[st p2] rs2]|]; [exact IH|].
  destruct IH as [L F]. cbn [ID_OK length]. split; [now rewrite L|]. apply Forall_cons; auto.
Qed.
End Filtered.

(** ** The keys *)

Lemma encode_field a len b k x : bytes a -> length a = len -> words b -> nn k b = x -> x < Pn len ->
  bytes (NN_Encode a len b k) /\ length (NN_Encode a len b k) = len /\ be (NN_Encode a len b k) = x.
Proof.
  intros Ha La Wb Ex Hx. destruct (NN_Encode_spec a len b k Ha Wb) as (B & L & V).
  assert (Ll : length (NN_Encode a len b k) = len).
  { destruct (NN_Encode_loop_spec k b len Wb) as (L1 & _ & _).
    unfold NN_Encode. rewrite length_store by (rewrite length_rev; lia). exact La. }
  rewrite firstn_all2 in V by lia. splits; auto. rewrite V, Ex. apply Z.mod_small.
  pose proof (nn_bound k b Wb). lia.
Qed.

(** Key structures whose arrays have their declared sizes. *)
Definition public_shape (k : R_RSA_PUBLIC_KEY) : Prop :=
  (bytes (pub_modulus k) /\ length (pub_modulus k) = MAX_RSA_MODULUS_LEN) /\
  (bytes (pub_exponent k) /\ length (pub_exponent k) = MAX_RSA_MODULUS_LEN).

Definition private_shape (k : R_RSA_PRIVATE_KEY) : Prop :=
  (length (priv_modulus k) = MAX_RSA_MODULUS_LEN) /\ (length (publicExponent k) = MAX_RSA_MODULUS_LEN) /\
  (bytes (priv_exponent k) /\ length (priv_exponent k) = MAX_RSA_MODULUS_LEN) /\
  Forall (fun f => bytes f /\ length f = MAX_RSA_PRIME_LEN)
    [prime0 k; prime1 k; primeExponent0 k; primeExponent1 k; coefficient k].

(** What a generated pair satisfies, whether or not the factors are really prime. *)
Record generated (bits E : Z) (pub : R_RSA_PUBLIC_KEY) (priv : R_RSA_PRIVATE_KEY) : Prop := {
  gen_bits : pub_bits pub = bits /\ priv_bits priv = bits;
  gen_modulus : bytes (pub_modulus pub) /\ length (pub_modulus pub) = MAX_RSA_MODULUS_LEN;
  gen_same : priv_modulus priv = pub_modulus pub /\ publicExponent priv = pub_exponent pub;
  gen_exponent : bytes (pub_exponent pub) /\ length (pub_exponent pub) = MAX_RSA_MODULUS_LEN /\
                 be (pub_exponent pub) = E;
  gen_product : be (pub_modulus pub) = be (prime0 priv) * be (prime1 priv);
  gen_order : be (prime1 priv) <= be (prime0 priv);
  gen_fields : Forall (fun f => bytes f /\ length f = MAX_RSA_PRIME_LEN)
    [prime0 priv; prime1 priv; primeExponent0 priv; primeExponent1 priv; coefficient priv];
  gen_private : (be (priv_exponent priv) * E) mod ((be (prime0 priv) - 1) * (be (prime1 priv) - 1)) = 1;
  gen_halves : be (primeExponent0 priv) = be (priv_exponent priv) mod (be (prime0 priv) - 1) /\
               be (primeExponent1 priv) = be (priv_exponent priv) mod (be (prime1 priv) - 1);
  gen_coefficient : Z.gcd (be (prime1 priv)) (be (prime0 priv)) = 1 ->
    (be (coefficient priv) * be (prime1 priv)) mod be (prime0 priv) = 1 /\
    be (coefficient priv) < be (prime0 priv) }.

Section MakeKeys.
Context (k nd : nat) (e : list Z) (E : Z).
Hypotheses (Hk : (1 <= k <= 16)%nat) (Hnd : (k <= nd <= 2 * k)%nat) (We : words e)
  (Ee : nn nd e = E) (E1 : nn 1 e = E) (HE : 1 < E < 2 ^ 32).

Lemma coprime_phi P Q : Z.gcd (P - 1) E = 1 -> Z.gcd (Q - 1) E = 1 ->
  Z.gcd E ((P - 1) * (Q - 1)) = 1.
Proof. intros HP HQ. apply Z.coprime_mul_r; unfold Z.coprime; now rewrite Z.gcd_comm. Qed.

(** Encoding the numbers of a pair. *)
Lemma encode_keys pub priv bits n d p q dP dQ qi :
  public_shape pub -> private_shape priv ->
  words n -> words d -> words p -> words q -> words dP -> words dQ -> words qi ->
  nn nd n = nn k p * nn k q -> nn k q <= nn k p ->
  (nn nd d * E) mod ((nn k p - 1) * (nn k q - 1)) = 1 ->
  nn k dP = nn nd d mod (nn k p - 1) -> nn k dQ = nn nd d mod (nn k q - 1) ->
  (Z.gcd (nn k q) (nn k p) = 1 -> (nn k qi * nn k q) mod nn k p = 1 /\ nn k qi < nn k p) ->
  let modulus := NN_Encode (pub_modulus pub) MAX_RSA_MODULUS_LEN n nd in
  let exponent := NN_Encode (pub_exponent pub) MAX_RSA_MODULUS_LEN e 1 in
  let priv' := mkPrivateKey bits
    (R_memcpy (priv_modulus priv) modulus MAX_RSA_MODULUS_LEN)
    (R_memcpy (publicExponent priv) exponent MAX_RSA_MODULUS_LEN)
    (NN_Encode (priv_exponent priv) MAX_RSA_MODULUS_LEN d nd)
    (NN_Encode (prime0 priv) MAX_RSA_PRIME_LEN p k)
    (NN_Encode (prime1 priv) MAX_RSA_PRIME_LEN q k)
    (NN_Encode (primeExponent0 priv) MAX_RSA_PRIME_LEN dP k)
    (NN_Encode (primeExponent1 priv) MAX_RSA_PRIME_LEN dQ k)
    (NN_Encode (coefficient priv) MAX_RSA_PRIME_LEN qi k) in
  generated bits E (mkPublicKey bits modulus exponent) priv' /\
  be (prime0 priv') = nn k p /\ be (prime1 priv') = nn k q.
Proof.
  intros [[Bm Lm] [Be Le]] (Lpm & Lpe & [Bd Ld] & Fs) Wn Wd Wp Wq WdP WdQ Wqi En Ho Ed EdP EdQ Eqi.
  repeat match goal with H : Forall _ (_ :: _) |- _ => inversion H; clear H; subst end.
  repeat match goal with H : bytes _ /\ length _ = _ |- _ => destruct H end.
  assert (K64 : forall f b, bytes f -> length f = MAX_RSA_PRIME_LEN -> words b ->
    bytes (NN_Encode f MAX_RSA_PRIME_LEN b k) /\ length (NN_Encode f MAX_RSA_PRIME_LEN b k) = MAX_RSA_PRIME_LEN /\
    be (NN_Encode f MAX_RSA_PRIME_LEN b k) = nn k b).
  { intros f b Bf Lf Wb. apply encode_field; auto. apply Z.lt_le_trans with (Bn k); [apply nn_bound; auto|].
    unfold Bn, Pn, MAX_RSA_PRIME_LEN. apply Z.pow_le_mono_r; lia. }
  assert (K128 : forall f b j, (j <= 32)%nat -> bytes f -> length f = MAX_RSA_MODULUS_LEN -> words b ->
    bytes (NN_Encode f MAX_RSA_MODULUS_LEN b j) /\ length (NN_Encode f MAX_RSA_MODULUS_LEN b j) = MAX_RSA_MODULUS_LEN /\
    be (NN_Encode f MAX_RSA_MODULUS_LEN b j) = nn j b).
  { intros f b j Hj Bf Lf Wb. apply encode_field; auto. apply Z.lt_le_trans with (Bn j); [apply nn_bound; auto|].
    unfold Bn, Pn, MAX_RSA_MODULUS_LEN. apply Z.pow_le_mono_r; lia. }
  destruct (K128 (pub_modulus pub) n nd) as (M1 & M2 & M3); auto; [lia|].
  destruct (K128 (pub_exponent pub) e 1%nat) as (X1 & X2 & X3); auto; [lia|].
  destruct (K128 (priv_exponent priv) d nd) as (D1 & D2 & D3); auto; [lia|].
  destruct (K64 (prime0 priv) p) as (P1 & P2 & P3); auto.
  destruct (K64 (prime1 priv) q) as (Q1 & Q2 & Q3); auto.
  destruct (K64 (primeExponent0 priv) dP) as (DP1 & DP2 & DP3); auto.
  destruct (K64 (primeExponent1 priv) dQ) as (DQ1 & DQ2 & DQ3); auto.
  destruct (K64 (coefficient priv) qi) as (C1 & C2 & C3); auto.
  cbv zeta. rewrite !R_memcpy_all, !firstn_all2 by lia. cbn [prime0 prime1]. split; [|auto].
  split; cbn [pub_bits priv_bits pub_modulus priv_modulus publicExponent pub_exponent prime0 prime1
    primeExponent0 primeExponent1 coefficient priv_exponent];
    rewrite ?M3, ?X3, ?D3, ?P3, ?Q3, ?DP3, ?DQ3, ?C3; auto.
  repeat (apply Forall_cons; [auto|]). apply Forall_nil.
Qed.

(** The keys for primes in decreasing order. *)
Lemma make_sorted pub priv bits p q t : public_shape pub -> private_shape priv ->
  words p -> words q -> words t -> 3 < nn k q <= nn k p ->
  nn k p * nn k q < Bn nd -> Z.gcd (nn k p - 1) E = 1 -> Z.gcd (nn k q - 1) E = 1 ->
  exists pub' priv', make_keys pub priv bits p q e t k nd = Some (pub', priv') /\
    generated bits E pub' priv' /\ be (prime0 priv') = nn k p /\ be (prime1 priv') = nn k q.
Proof.
  intros Sp Ss Wp Wq Wt HQ HN GP GQ. unfold make_keys. set (z := repeat 0 MAX_NN_DIGITS).
  assert (Wz : words z) by (unfold z; auto with words).
  rewrite NN_Cmp_sgn by auto. destruct (Z.ltb_spec (Z.sgn (nn k p - nn k q)) 0); [lia|].
  destruct (NN_Mult_spec z p q k Wz Wp Wq) as [Wn En].
  assert (En' : nn nd (NN_Mult z p q k) = nn k p * nn k q) by (rewrite <- En; apply nn_low; auto; lia).
  destruct (NN_ModInv_returns q p k Wq Wp ltac:(lia) ltac:(lia) ltac:(lia) z Wz ltac:(lia))
    as (qi & -> & Wqi & Hqi). cbn [obind].
  assert (W1 : words (NN_ASSIGN_DIGIT t 1 k)) by (apply words_ASSIGN_DIGIT; auto; unfold is_word; lia).
  pose proof (NN_ASSIGN_DIGIT_spec t 1 k ltac:(lia)) as Et. set (t1 := NN_ASSIGN_DIGIT t 1 k) in *.
  destruct (NN_Sub_noborrow z p t1 k Wz Wp W1 ltac:(lia)) as (Wp1 & _ & Ep1).
  destruct (NN_Sub_noborrow z q t1 k Wz Wq W1 ltac:(lia)) as (Wq1 & _ & Eq1).
  rewrite Et in Ep1, Eq1. set (p1 := fst (NN_Sub z p t1 k)) in *. set (q1 := fst (NN_Sub z q t1 k)) in *.
  destruct (NN_Mult_spec z p1 q1 k Wz Wp1 Wq1) as [Wphi Ephi].
  rewrite Ep1, Eq1 in Ephi. set (phi := NN_Mult z p1 q1 k) in *.
  assert (Ephi' : nn nd phi = (nn k p - 1) * (nn k q - 1)).
  { rewrite <- Ephi. apply nn_low; auto; [lia|]. rewrite Ephi. nia. }
  assert (Hphi : 1 < nn nd phi) by (rewrite Ephi'; nia).
  destruct (NN_ModInv_total e phi nd We Wphi ltac:(lia) ltac:(lia) Hphi z Wz) as (d & -> & Wd & Hd & Ed);
    [rewrite Ephi', Ee; now apply coprime_phi|lia|].
  cbn [obind]. rewrite Ee, Ephi' in Ed. rewrite Ephi' in Hd.
  destruct (NN_Mod_total z d nd p1 k Wz Wd Wp1 ltac:(lia) ltac:(lia) ltac:(lia)) as (dP & -> & WdP & EdP).
  destruct (NN_Mod_total z d nd q1 k Wz Wd Wq1 ltac:(lia) ltac:(lia) ltac:(lia)) as (dQ & -> & WdQ & EdQ).
  cbn [obind]. rewrite Ep1 in EdP. rewrite Eq1 in EdQ. cbv zeta. do 2 eexists. split; [reflexivity|].
  apply encode_keys; auto; [lia|]. intros G. destruct (Hqi G). split; [auto|lia].
Qed.

(** The exchange of the primes. *)
Lemma make_swapped pub priv bits p q t : words p -> words q -> words t -> nn k p < nn k q ->
  make_keys pub priv bits p q e t k nd =
  make_keys pub priv bits (NN_Assign p q k) (NN_Assign q (NN_Assign t p k) k) e (NN_Assign t p k) k nd.
Proof.
  intros Wp Wq Wt H. unfold make_keys.
  rewrite !NN_Cmp_sgn by auto using words_Assign. rewrite !NN_Assign_spec.
  destruct (Z.ltb_spec (Z.sgn (nn k p - nn k q)) 0); [|lia].
  destruct (Z.ltb_spec (Z.sgn (nn k q - nn k p)) 0); [lia|]. reflexivity.
Qed.

Lemma make_keys_total pub priv bits p q t : public_shape pub -> private_shape priv ->
  words p -> words q -> words t -> 3 < nn k q -> 3 < nn k p ->
  nn k p * nn k q < Bn nd -> Z.gcd (nn k p - 1) E = 1 -> Z.gcd (nn k q - 1) E = 1 ->
  exists pub' priv', make_keys pub priv bits p q e t k nd = Some (pub', priv') /\
    generated bits E pub' priv' /\ be (prime0 priv') = Z.max (nn k p) (nn k q) /\
    be (prime1 priv') = Z.min (nn k p) (nn k q).
Proof.
  intros Sp Ss Wp Wq Wt HQ HP HN GP GQ. destruct (Z_lt_ge_dec (nn k p) (nn k q)) as [L|L].
  - rewrite make_swapped by auto. rewrite Z.max_r, Z.min_l by lia.
    destruct (make_sorted pub priv bits (NN_Assign p q k) (NN_Assign q (NN_Assign t p k) k) (NN_Assign t p k))
      as (pub' & priv' & E2 & G & P0 & P1); auto using words_Assign; rewrite ?NN_Assign_spec; auto; try lia.
    exists pub', priv'. rewrite P0, P1, !NN_Assign_spec. auto.
  - rewrite Z.max_l, Z.min_r by lia. apply make_sorted; auto; lia.
Qed.
End MakeKeys.

Lemma inverse_mod_factor d E A B : 1 < A -> 0 < B -> (d * E) mod (A * B) = 1 -> (E * (d mod A)) mod A = 1.
Proof.
  intros HA HB H. rewrite Z.mul_mod_idemp_r, (Z.mul_comm E) by lia.
  rewrite (Z.div_mod (d * E) (A * B)), H by nia.
  replace (A * B * (d * E / (A * B)) + 1) with (1 + B * (d * E / (A * B)) * A) by ring.
  rewrite Z_mod_plus_full. apply Z.mod_1_l. lia.
Qed.

(** A generated pair whose factors are distinct primes is one for which the RSA
    operations undo each other. *)
Lemma generated_key_pair bits E pub priv : generated bits E pub priv ->
  1 < bits <= MAX_RSA_MODULUS_BITS -> 2 ^ (bits - 1) <= be (pub_modulus pub) < 2 ^ bits -> 1 < E ->
  Z.prime (be (prime0 priv)) -> Z.prime (be (prime1 priv)) -> be (prime0 priv) <> be (prime1 priv) ->
  2 < be (prime1 priv) -> key_pair pub priv.
Proof.
  intros [[Gb Gb'] [Gm Lm] [Gs _] (Ge & Le & Ee) Gp Go Gf Gd [Gh0 Gh1] Gc] Hb Hm HE P0 P1 Hne H2.
  repeat match goal with H : Forall _ (_ :: _) |- _ => inversion H; clear H; subst end.
  repeat match goal with H : bytes _ /\ length _ = _ |- _ => destruct H end.
  set (P := be (prime0 priv)) in *. set (Q := be (prime1 priv)) in *. set (E := be (pub_exponent pub)) in *.
  set (D := be (priv_exponent priv)) in *.
  assert (EP : (E * (D mod (P - 1))) mod (P - 1) = 1) by (apply (inverse_mod_factor D E (P - 1) (Q - 1)); [lia|lia|exact Gd]).
  assert (EQ : (E * (D mod (Q - 1))) mod (Q - 1) = 1).
  { apply (inverse_mod_factor D E (Q - 1) (P - 1)); [lia|lia|]. now rewrite (Z.mul_comm (Q - 1)). }
  pose proof (Z.mod_pos_bound D (P - 1) ltac:(lia)). pose proof (Z.mod_pos_bound D (Q - 1) ltac:(lia)).
  assert (D mod (P - 1) <> 0) by (intros Z0; rewrite Z0, Z.mul_0_r, Z.mod_0_l in EP; lia).
  assert (D mod (Q - 1) <> 0) by (intros Z0; rewrite Z0, Z.mul_0_r, Z.mod_0_l in EQ; lia).
  assert (G : Z.gcd Q P = 1) by (rewrite Z.gcd_comm; apply Z.coprime_prime_small; [exact P0|lia]).
  assert (VM : valid_modulus (pub_bits pub) (pub_modulus pub)) by (split; auto).
  split; [split; auto| |congruence|now rewrite Gs].
  split; fold P Q; auto; try (splits; assumption).
  - rewrite Gs. now rewrite Gb'.
  - lia.
  - now rewrite Gs.
  - rewrite Gh0, Gh1. auto.
  - rewrite Gh0, Gh1. splits; lia.
Qed.

(** ** Key generation *)

(** The digit counts for a modulus of [bits] bits. *)
Lemma digit_counts bits : MIN_RSA_MODULUS_BITS <= bits <= MAX_RSA_MODULUS_BITS ->
  let nd := Z.to_nat ((bits + NN_DIGIT_BITS - 1) / NN_DIGIT_BITS) in
  let k := ((nd + 1) / 2)%nat in
  let pb := (bits + 1) / 2 in
  (2 <= k <= 16)%nat /\ (k <= nd <= 2 * k)%nat /\ bits <= 32 * Z.of_nat nd /\
  254 <= pb <= 32 * Z.of_nat k /\ 254 <= bits - pb <= 32 * Z.of_nat k.
Proof.
  intros H nd k pb. unfold MIN_RSA_MODULUS_BITS, MAX_RSA_MODULUS_BITS, NN_DIGIT_BITS in *.
  assert (Hnd : Z.of_nat nd = (bits + 32 - 1) / 32) by (apply Z2Nat.id, Z.div_pos; lia).
  assert (Hk : Z.of_nat k = (Z.of_nat nd + 1) / 2) by (unfold k; rewrite Nat2Z.inj_div, Nat2Z.inj_add; reflexivity).
  clearbody k nd. unfold pb. splits; Z.div_mod_to_equations; lia.
Qed.

Lemma product_bits pb qb P Q : 2 <= pb -> 2 <= qb ->
  3 * 2 ^ (pb - 2) <= P < 2 ^ pb -> 3 * 2 ^ (qb - 2) <= Q < 2 ^ qb ->
  2 ^ (pb + qb - 1) <= P * Q < 2 ^ (pb + qb).
Proof.
  intros Hp Hq HP HQ.
  assert (E1 : 2 ^ pb = 4 * 2 ^ (pb - 2)) by (change 4 with (2 ^ 2); rewrite <- Z.pow_add_r by lia; f_equal; lia).
  assert (E2 : 2 ^ qb = 4 * 2 ^ (qb - 2)) by (change 4 with (2 ^ 2); rewrite <- Z.pow_add_r by lia; f_equal; lia).
  assert (E3 : 2 ^ (pb + qb - 1) = 8 * (2 ^ (pb - 2) * 2 ^ (qb - 2))).
  { change 8 with (2 ^ 3). rewrite <- !Z.pow_add_r by lia. f_equal. lia. }
  rewrite E3, Z.pow_add_r by lia. assert (0 < 2 ^ (pb - 2)) by (apply Z.pow_pos_nonneg; lia).
  assert (0 < 2 ^ (qb - 2)) by (apply Z.pow_pos_nonneg; lia). nia.
Qed.

(** The primes drawn so far were all refused by the filter. *)
Definition all_rejected (fuel : nat) (E : Z) : Prop :=
  exists p t u v k n rs, length (draws fuel p t u v k rs) = fuel /\
    Forall (fun x => candidate k n x /\ Z.gcd (x - 1) E <> 1) (draws fuel p t u v k rs).

Section Generate.
Context (fuel : nat) (pub : R_RSA_PUBLIC_KEY) (priv : R_RSA_PRIVATE_KEY) (proto : R_RSA_PROTO_KEY).
Let bits := proto_bits proto.
Let E : Z := if useFermat4 proto then 65537 else 3.
Hypotheses (Sp : public_shape pub) (Ss : private_shape priv)
  (Hbits : MIN_RSA_MODULUS_BITS <= bits <= MAX_RSA_MODULUS_BITS).

(** A pair with the promised size, exponent and factors. *)
Definition good_keys (pub' : R_RSA_PUBLIC_KEY) (priv' : R_RSA_PRIVATE_KEY) : Prop :=
  generated bits E pub' priv' /\ 2 ^ (bits - 1) <= be (pub_modulus pub') < 2 ^ bits /\
  probable false (be (prime0 priv')) = true /\ probable false (be (prime1 priv')) = true /\
  (Z.prime (be (prime0 priv')) -> Z.prime (be (prime1 priv')) ->
   be (prime0 priv') <> be (prime1 priv') -> key_pair pub' priv').

Lemma make_good k nd e t p q pb : (2 <= k <= 16)%nat -> (k <= nd <= 2 * k)%nat ->
  bits <= 32 * Z.of_nat nd -> 254 <= pb -> 254 <= bits - pb ->
  words e -> words t -> words p -> words q -> nn nd e = E -> nn 1 e = E ->
  candidate k pb (nn k p) -> candidate k (bits - pb) (nn k q) ->
  Z.gcd (nn k p - 1) E = 1 -> Z.gcd (nn k q - 1) E = 1 ->
  exists pub' priv', make_keys pub priv bits p q e t k nd = Some (pub', priv') /\ good_keys pub' priv'.
Proof.
  intros Hk Hnd Hb Hp Hq We Wt Wp Wq Ee E1 (Rp & _ & Pp) (Rq & _ & Pq) GP GQ.
  pose proof (product_bits pb (bits - pb) _ _ ltac:(lia) ltac:(lia) Rp Rq) as HM.
  replace (pb + (bits - pb)) with bits in HM by lia.
  assert (HE : 1 < E < 2 ^ 32) by (unfold E; destruct (useFermat4 proto); lia).
  assert (4 <= 2 ^ (pb - 2)) by (change 4 with (2 ^ 2) at 1; apply Z.pow_le_mono_r; lia).
  assert (4 <= 2 ^ (bits - pb - 2)) by (change 4 with (2 ^ 2) at 1; apply Z.pow_le_mono_r; lia).
  assert (HB : 2 ^ bits <= Bn nd) by (unfold Bn; apply Z.pow_le_mono_r; lia).
  destruct (make_keys_total k nd e E ltac:(lia) Hnd We Ee E1 HE pub priv bits p q t Sp Ss Wp Wq Wt
    ltac:(lia) ltac:(lia) ltac:(lia) GP GQ) as (pub' & priv' & Em & G & P0 & P1).
  exists pub', priv'. split; [exact Em|]. destruct (Nat.eqb_spec k 1); [lia|].
  assert (Em' : be (pub_modulus pub') = nn k p * nn k q) by (rewrite (gen_product _ _ _ _ G), P0, P1; lia).
  unfold good_keys. rewrite Em', P0, P1. splits; auto; try lia.
  - destruct (Z.max_spec (nn k p) (nn k q)) as [[_ ->]|[_ ->]]; auto.
  - destruct (Z.min_spec (nn k p) (nn k q)) as [[_ ->]|[_ ->]]; auto.
  - intros HP0 HP1 Hne. unfold MAX_RSA_MODULUS_BITS, MIN_RSA_MODULUS_BITS in Hbits.
    apply (generated_key_pair bits E); rewrite ?P0, ?P1, ?Em'; auto; unfold MAX_RSA_MODULUS_BITS; lia.
Qed.

Lemma R_GeneratePEMKeys_total rs : ready rs ->
  match R_GeneratePEMKeys fuel pub priv proto rs with
  | Some (status, pub', priv', rs') =>
      (status = RE_DATA /\ pub' = pub /\ priv' = priv) \/ (status = ID_OK /\ good_keys pub' priv')
  | None => all_rejected fuel E
  end.
Proof.
  intros Hr. unfold R_GeneratePEMKeys. fold bits.
  destruct (Z.ltb_spec bits MIN_RSA_MODULUS_BITS); [lia|].
  rewrite Z.gtb_ltb. destruct (Z.ltb_spec MAX_RSA_MODULUS_BITS bits); [lia|]. cbn [orb].
  destruct (digit_counts bits Hbits) as (Hk & Hnd & Hb & Hp & Hq). cbv zeta in *.
  set (nd := Z.to_nat _) in *. set (k := ((nd + 1) / 2)%nat) in *. set (pb := (bits + 1) / 2) in *.
  clearbody nd k pb. fold E. set (z := repeat 0 MAX_NN_DIGITS).
  assert (Wz : words z) by (unfold z; auto with words).
  assert (HE : 1 < E < 2 ^ 32) by (unfold E; destruct (useFermat4 proto); lia).
  assert (We : words (NN_ASSIGN_DIGIT z E nd)) by (apply words_ASSIGN_DIGIT; auto; unfold is_word; lia).
  pose proof (NN_ASSIGN_DIGIT_spec z E nd ltac:(lia)) as Ee. set (e := NN_ASSIGN_DIGIT z E nd) in *.
  assert (Elow : forall j, (1 <= j <= nd)%nat -> nn j e = E).
  { intros j Hj. rewrite <- Ee. apply nn_low; [lia|auto|]. rewrite Ee.
    pose proof (Bn_mono 1 j ltac:(lia)) as HB1. change (Bn 1) with (2 ^ 32) in HB1. lia. }
  pose proof (prime_bounds_spec z z z pb k Wz Wz Wz ltac:(lia)) as PB.
  destruct (prime_bounds z z z pb k) as [[t u] v]. destruct PB as (Wt & Wu & Wv & Et & Eu & Ev).
  pose proof (filtered_prime_total t u v e k pb E Wt Wu Wv We ltac:(lia) ltac:(lia) Et Eu Ev
    (Elow k ltac:(lia)) fuel z rs Wz Hr) as F1.
  destruct (filtered_prime fuel z t u v e k rs) as [[[st p] rs1]|]; cbn [obind].
  2:{ exists z, t, u, v, k, pb, rs. exact F1. }
  destruct F1 as (Hr1 & Wp & [(-> & Cp & Gp)| ->]); [|left; auto]. change (negb (ID_OK =? 0)) with false. cbv iota.
  pose proof (prime_bounds_spec t u v (bits - pb) k Wt Wu Wv ltac:(lia)) as PB.
  destruct (prime_bounds t u v (bits - pb) k) as [[t2 u2] v2]. destruct PB as (Wt2 & Wu2 & Wv2 & Et2 & Eu2 & Ev2).
  pose proof (filtered_prime_total t2 u2 v2 e k (bits - pb) E Wt2 Wu2 Wv2 We ltac:(lia) ltac:(lia) Et2 Eu2 Ev2
    (Elow k ltac:(lia)) fuel z rs1 Wz Hr1) as F2.
  destruct (filtered_prime fuel z t2 u2 v2 e k rs1) as [[[st q] rs2]|]; cbn [obind].
  2:{ exists z, t2, u2, v2, k, (bits - pb), rs1. exact F2. }
  destruct F2 as (Hr2 & Wq & [(-> & Cq & Gq)| ->]); [|left; auto]. change (negb (ID_OK =? 0)) with false. cbv iota.
  destruct (make_good k nd e t2 p q pb Hk Hnd Hb ltac:(lia) ltac:(lia) We Wt2 Wp Wq Ee (Elow 1%nat ltac:(lia))
    Cp Cq Gp Gq) as (pub' & priv' & -> & G). cbn [obind]. right. auto.
Qed.
End Generate.

(** Claim C30: RSA key generation, for every size between 508 and 1024 bits, on a ready random
    structure.  When the two searches end, the call either reports [RE_DATA] and leaves the
    keys as they were, or gives keys with a modulus of exactly [bits] bits that is the
    product of two numbers that pass the primality test, the exponent 3 or 65537, the
    private exponent its inverse modulo (p-1)(q-1), the half exponents and the coefficient
    computed from them; and if the two numbers are distinct primes, the keys are a pair in
    the sense of the RSA theorems.  A search that has not ended after [fuel] draws has
    drawn that many probable primes p with p - 1 not prime to the exponent. *)
Theorem R_GeneratePEMKeys_result (fuel : nat) (pub : R_RSA_PUBLIC_KEY) (priv : R_RSA_PRIVATE_KEY)
  (proto : R_RSA_PROTO_KEY) (rs : R_RANDOM_STRUCT) :
  public_shape pub -> private_shape priv ->
  MIN_RSA_MODULUS_BITS <= proto_bits proto <= MAX_RSA_MODULUS_BITS -> ready rs ->
  match R_GeneratePEMKeys fuel pub priv proto rs with
  | Some (status, pub', priv', rs') =>
      (status = RE_DATA /\ pub' = pub /\ priv' = priv) \/
      (status = ID_OK /\ good_keys proto pub' priv')
  | None => all_rejected fuel (if useFermat4 proto then 65537 else 3)
  end.
Proof. intros. now apply R_GeneratePEMKeys_total. Qed.

(** A size out of range and an unseeded random structure are refused, with the keys
    and the random structure unchanged. *)
Theorem R_GeneratePEMKeys_errors (fuel : nat) (pub : R_RSA_PUBLIC_KEY) (priv : R_RSA_PRIVATE_KEY)
  (proto : R_RSA_PROTO_KEY) (rs : R_RANDOM_STRUCT) :
  (proto_bits proto < MIN_RSA_MODULUS_BITS \/ MAX_RSA_MODULUS_BITS < proto_bits proto ->
   R_GeneratePEMKeys fuel pub priv proto rs = Some (RE_MODULUS_LEN, pub, priv, rs)) /\
  (MIN_RSA_MODULUS_BITS <= proto_bits proto <= MAX_RSA_MODULUS_BITS -> bytesNeeded rs <> 0 -> (0 < fuel)%nat ->
   R_GeneratePEMKeys fuel pub priv proto rs = Some (RE_NEED_RANDOM, pub, priv, rs)).
Proof.
  unfold R_GeneratePEMKeys. rewrite Z.gtb_ltb. split.
  - intros H. rewrite (proj2 (orb_true_iff _ _)) by (rewrite !Z.ltb_lt; lia). reflexivity.
  - intros H Hn Hf. rewrite (proj2 (orb_false_iff _ _)) by (rewrite !Z.ltb_ge; lia).
    destruct fuel as [|f]; [lia|]. destruct (prime_bounds _ _ _ _ _) as [[t u] v].
    cbn [filtered_prime]. unfold GeneratePrime. rewrite R_GenerateBytes_unseeded by auto. reflexivity.
Qed.

(** Blank key structures and a ready random structure. *)
Definition blank_public : R_RSA_PUBLIC_KEY := mkPublicKey 0 (repeat 0 128) (repeat 0 128).
Definition blank_private : R_RSA_PRIVATE_KEY :=
  mkPrivateKey 0 (repeat 0 128) (repeat 0 128) (repeat 0 128) (repeat 0 64) (repeat 0 64) (repeat 0 64)
    (repeat 0 64) (repeat 0 64).
Definition seeded : R_RANDOM_STRUCT := mkRandom 0 (repeat 1 16) 0 (repeat 0 16).

Lemma R_GeneratePEMKeys_result_witness :
  match R_GeneratePEMKeys 20 blank_public blank_private (mkProtoKey 512 true) seeded with
  | Some (status, pub', priv', rs') =>
      (status = RE_DATA /\ pub' = blank_public /\ priv' = blank_private) \/
      (status = ID_OK /\ good_keys (mkProtoKey 512 true) pub' priv')
  | None => all_rejected 20 65537
  end.
Proof.
  refine (R_GeneratePEMKeys_result 20 blank_public blank_private (mkProtoKey 512 true) seeded _ _ _ _).
  - split; split; [check_bytes|reflexivity|check_bytes|reflexivity].
  - unfold private_shape. splits; [reflexivity|reflexivity|check_bytes|reflexivity|].
    repeat (apply Forall_cons; [split; [check_bytes|reflexivity]|]). apply Forall_nil.
  - vm_compute. split; discriminate.
  - unfold ready, well_formed. splits; [reflexivity|apply Nat.le_0_l|reflexivity|check_bytes].
Defined.

Lemma R_GeneratePEMKeys_errors_witness :
  R_GeneratePEMKeys 5 blank_public blank_private (mkProtoKey 256 true) seeded =
    Some (RE_MODULUS_LEN, blank_public, blank_private, seeded) /\
  R_GeneratePEMKeys 5 blank_public blank_private (mkProtoKey 512 true) (mkRandom 256 (repeat 0 16) 0 (repeat 0 16)) =
    Some (RE_NEED_RANDOM, blank_public, blank_private, mkRandom 256 (repeat 0 16) 0 (repeat 0 16)).
Proof.
  split.
  - apply R_GeneratePEMKeys_errors. left. reflexivity.
  - apply (R_GeneratePEMKeys_errors 5 blank_public blank_private (mkProtoKey 512 true)
      (mkRandom 256 (repeat 0 16) 0 (repeat 0 16))); [vm_compute; split; discriminate|discriminate|lia].
Defined.
