(* ===== verification/DH.v ===== *)
(** * DH: Diffie-Hellman key agreement (src/QBase/RSAEuro/r_dh.c)

    Generation of the parameters, the set-up of a party and the computation of the
    agreed key. The theorems: two parties that set up with the same parameters
    compute the same key, [g^(xy) mod p]; the generator produced has order dividing
    the subprime when the prime is prime; a public value not below the prime is
    refused. *)

From Stdlib Require Import Znumtheory Zdivisibility.
From Stdlib Require ZmodInv.
From S2P Require Import Prelude Rsaeuro NN NNDiv NNMod Random NumTheory Prime KeyGen.

(** ** Definitions *)

Definition DH_PRIME_LEN (bits : Z) : nat := Z.to_nat ((bits + 7) / 8).

(** The macro [PREP(x,y,z,a)], where [t] is the caller's; the new [x] and [z]. *)
Definition PREP (x y z t : list Z) (a : nat) : list Z * list Z :=
  let x := NN_Assign x y a in
  let z := NN_ASSIGN_DIGIT z 1 a in
  let z := fst (NN_Sub z t z a) in
  let x := fst (NN_Add x x z a) in
  (x, z).

Definition R_GenerateDHParams (params : R_DH_PARAMS) (primeBits subPrimeBits : Z)
  (randomStruct : R_RANDOM_STRUCT) : option (Z * R_DH_PARAMS * R_RANDOM_STRUCT) :=
  let arr := repeat 0 MAX_NN_DIGITS in
  let pDigits := Z.to_nat ((primeBits + NN_DIGIT_BITS - 1) / NN_DIGIT_BITS) in
  let t := NN_Assign2Exp arr (subPrimeBits - 1) pDigits in
  let '(u, v) := PREP arr t arr t pDigits in
  let v := NN_ASSIGN_DIGIT v 2 pDigits in
  let? (status, q, randomStruct) := GeneratePrime arr t u v pDigits randomStruct in
  if negb (status =? 0) then Some (status, params, randomStruct)
  else
    let t := NN_Assign2Exp t (primeBits - 1) pDigits in
    let '(u, v) := PREP u t v t pDigits in
    let v := fst (NN_LShift v q 1 pDigits) in
    let? (status, p, randomStruct) := GeneratePrime arr t u v pDigits randomStruct in
    if negb (status =? 0) then Some (status, params, randomStruct)
    else
      let g := NN_ASSIGN_DIGIT arr 2 pDigits in
      let? (t, u) := NN_Div t u p pDigits q pDigits in
      let? g := NN_ModExp g g t pDigits p pDigits in
      let len := DH_PRIME_LEN primeBits in
      Some (ID_OK, mkDHParams (NN_Encode (dh_prime params) len p pDigits) len
        (NN_Encode (dh_generator params) len g pDigits) len, randomStruct).

(** Status, public value, private value and random structure. *)
Definition R_SetupDHAgreement (publicValue privateValue : list Z) (privateValueLen : nat)
  (params : R_DH_PARAMS) (randomStruct : R_RANDOM_STRUCT)
  : option (Z * list Z * list Z * R_RANDOM_STRUCT) :=
  let arr := repeat 0 MAX_NN_DIGITS in
  let p := NN_Decode arr MAX_NN_DIGITS (dh_prime params) (dh_primeLen params) in
  let pDigits := NN_Digits p MAX_NN_DIGITS in
  let g := NN_Decode arr pDigits (dh_generator params) (dh_generatorLen params) in
  let? (status, block, randomStruct) := R_GenerateBytes privateValueLen randomStruct in
  let privateValue := store privateValue block in
  if negb (status =? 0) then Some (status, publicValue, privateValue, randomStruct)
  else
    let x := NN_Decode arr pDigits privateValue privateValueLen in
    let xDigits := NN_Digits x pDigits in
    let? y := NN_ModExp arr g x xDigits p pDigits in
    Some (ID_OK, NN_Encode publicValue (dh_primeLen params) y pDigits, privateValue, randomStruct).

(** Status and agreed key. *)
Definition R_ComputeDHAgreedKey (agreedKey otherPublicValue privateValue : list Z)
  (privateValueLen : nat) (params : R_DH_PARAMS) : option (Z * list Z) :=
  let arr := repeat 0 MAX_NN_DIGITS in
  let p := NN_Decode arr MAX_NN_DIGITS (dh_prime params) (dh_primeLen params) in
  let pDigits := NN_Digits p MAX_NN_DIGITS in
  let x := NN_Decode arr pDigits privateValue privateValueLen in
  let y := NN_Decode arr pDigits otherPublicValue (dh_primeLen params) in
  let xDigits := NN_Digits x pDigits in
  if NN_Cmp y p pDigits >=? 0 then Some (RE_DATA, agreedKey)
  else
    let? z := NN_ModExp arr y x xDigits p pDigits in
    Some (ID_OK, NN_Encode agreedKey (dh_primeLen params) z pDigits).

(** ** Agreement *)

(** Parameters the two parties can use: a prime of at most 33 digits, above 1. *)
Definition usable (params : R_DH_PARAMS) : Prop :=
  bytes (dh_prime params) /\ bytes (dh_generator params) /\ (dh_primeLen params <= 132)%nat /\
  1 < be (firstn (dh_primeLen params) (dh_prime params)).

(** The number of digits of the prime. *)
Definition prime_digits (params : R_DH_PARAMS) : nat :=
  NN_Digits (NN_Decode (repeat 0 MAX_NN_DIGITS) MAX_NN_DIGITS (dh_prime params) (dh_primeLen params)) MAX_NN_DIGITS.

Section Agreement.
Context (params : R_DH_PARAMS) (U : usable params).
Let arr := repeat 0 MAX_NN_DIGITS.
Let L := dh_primeLen params.
Let P := be (firstn L (dh_prime params)).
Let p := NN_Decode arr MAX_NN_DIGITS (dh_prime params) L.
Let pd := NN_Digits p MAX_NN_DIGITS.
Let g := NN_Decode arr pd (dh_generator params) (dh_generatorLen params).
Let G := nn pd g.

(** The exponent a private value stands for. *)
Definition exponent_of (privateValue : list Z) (len : nat) : Z := be (firstn len privateValue) mod Bn pd.

Lemma prime_facts : words p /\ nn pd p = P /\ (1 <= pd <= 33)%nat /\ P < Pn L /\ words g.
Proof.
  destruct U as (Bp & Bg & HL & H1).
  destruct (NN_Decode_spec arr MAX_NN_DIGITS (dh_prime params) L (words_0 _) Bp) as [W V].
  destruct (NN_Decode_spec arr pd (dh_generator params) (dh_generatorLen params) (words_0 _) Bg) as [Wg _].
  pose proof (be_bound (firstn L (dh_prime params)) ltac:(auto with words)) as HB.
  pose proof (Pn_mono (length (firstn L (dh_prime params))) L ltac:(rewrite length_firstn; lia)) as HM.
  assert (HP : Pn L <= Bn MAX_NN_DIGITS).
  { unfold Pn, Bn, MAX_NN_DIGITS. apply Z.pow_le_mono_r; unfold L; lia. }
  rewrite Z.mod_small in V by (fold P in HB |- *; lia).
  assert (E : nn pd p = P) by (unfold pd; rewrite NN_Digits_nn; exact V).
  assert (Hpd : (pd <= 33)%nat) by apply NN_Digits_le.
  splits; auto; [|unfold P; lia].
  destruct pd as [|j] eqn:D; [|lia]. cbn [nn] in E. fold L in H1. fold P in H1. lia.
Qed.

Lemma decode_exponent v len : bytes v ->
  words (NN_Decode arr pd v len) /\ nn (NN_Digits (NN_Decode arr pd v len) pd) (NN_Decode arr pd v len) =
    exponent_of v len.
Proof.
  intros Hv. destruct (NN_Decode_spec arr pd v len (words_0 _) Hv) as [W V].
  rewrite NN_Digits_nn. split; [exact W|exact V].
Qed.

(** What a set-up gives: the public value is [g^x mod p]. *)
Lemma setup_total publicValue privateValue len rs : bytes publicValue -> bytes privateValue ->
  (len <= length privateValue)%nat -> ready rs ->
  exists y x rs', R_SetupDHAgreement publicValue privateValue len params rs = Some (ID_OK, y, x, rs') /\
    ready rs' /\ bytes y /\ bytes x /\ length (firstn L y) = L /\
    be (firstn L y) = G ^ exponent_of x len mod P.
Proof.
  intros By Bx Hl (H0 & Hw & Ho). destruct prime_facts as (Wp & Ep & Hpd & HP & Wg).
  unfold R_SetupDHAgreement. fold arr L p pd g.
  destruct (R_GenerateBytes_total len rs H0 Hw) as (block & rs' & E & Lb & H0' & Hw').
  destruct (R_GenerateBytes_bytes _ _ _ _ Ho E) as [Bb Ho']. rewrite E. cbn [obind].
  change (negb (ID_OK =? 0)) with false. cbv iota.
  assert (Bs : bytes (store privateValue block)) by auto with words.
  destruct (decode_exponent (store privateValue block) len Bs) as [Wx Ex].
  assert (1 < P) by apply U.
  destruct (NN_ModExp_total g p pd Wg Wp ltac:(lia) ltac:(lia) arr (NN_Decode arr pd (store privateValue block) len)
    (NN_Digits (NN_Decode arr pd (store privateValue block) len) pd) ltac:(lia) (words_0 _) Wx)
    as (y & -> & Wy & Ey). cbn [obind].
  rewrite Ex, Ep in Ey. pose proof (Z.mod_pos_bound (nn pd g ^ exponent_of (store privateValue block) len) P ltac:(lia)).
  destruct (NN_Encode_spec publicValue L y pd By Wy) as (B1 & L1 & V1).
  do 3 eexists. split; [reflexivity|]. splits; auto; [unfold ready; auto|].
  rewrite V1, Ey. apply Z.mod_small. unfold G. lia.
Qed.

(** What the computation gives: [y^x mod p] for a public value below the prime. *)
Lemma compute_total agreedKey y x len : bytes agreedKey -> bytes y -> bytes x ->
  be (firstn L y) < P ->
  exists k, R_ComputeDHAgreedKey agreedKey y x len params = Some (ID_OK, k) /\
    bytes k /\ length (firstn L k) = L /\ be (firstn L k) = be (firstn L y) ^ exponent_of x len mod P.
Proof.
  intros Bk By Bx Hy. destruct prime_facts as (Wp & Ep & Hpd & HP & Wg).
  unfold R_ComputeDHAgreedKey. fold arr L p pd.
  destruct (decode_exponent x len Bx) as [Wx Ex].
  destruct (NN_Decode_spec arr pd y L (words_0 _) By) as [Wy Ey].
  pose proof (be_bound (firstn L y) ltac:(auto with words)) as Hb.
  pose proof (nn_bound pd p Wp). rewrite Z.mod_small in Ey by lia.
  rewrite NN_Cmp_sgn, Ey, Ep by auto. rewrite Z.geb_leb.
  destruct (Z.leb_spec 0 (Z.sgn (be (firstn L y) - P))); [lia|].
  assert (1 < P) by apply U.
  destruct (NN_ModExp_total (NN_Decode arr pd y L) p pd Wy Wp ltac:(lia) ltac:(lia) arr (NN_Decode arr pd x len)
    (NN_Digits (NN_Decode arr pd x len) pd) ltac:(lia) (words_0 _) Wx) as (z & -> & Wz & Ez). cbn [obind].
  rewrite Ex, Ep, Ey in Ez. pose proof (Z.mod_pos_bound (be (firstn L y) ^ exponent_of x len) P ltac:(lia)).
  destruct (NN_Encode_spec agreedKey L z pd Bk Wz) as (B1 & L1 & V1).
  eexists. split; [reflexivity|]. splits; auto. rewrite V1, Ez. apply Z.mod_small. lia.
Qed.

Lemma exponent_nonneg x len : 0 <= exponent_of x len.
Proof. apply Z.mod_pos_bound, Bn_pos. Qed.
End Agreement.

(** ** Generation of the parameters *)

Lemma PREP_spec x y z k : words x -> words y -> words z -> (1 <= k)%nat -> 0 < nn k y -> 2 * nn k y - 1 < Bn k ->
  words (fst (PREP x y z y k)) /\ words (snd (PREP x y z y k)) /\
  nn k (fst (PREP x y z y k)) = 2 * nn k y - 1.
Proof.
  intros Wx Wy Wz Hk H0 HB. unfold PREP. cbn [fst snd].
  assert (W1 : words (NN_ASSIGN_DIGIT z 1 k)) by (apply words_ASSIGN_DIGIT; auto; unfold is_word; lia).
  pose proof (NN_ASSIGN_DIGIT_spec z 1 k ltac:(lia)) as E1. set (z1 := NN_ASSIGN_DIGIT z 1 k) in *.
  destruct (NN_Sub_noborrow z1 y z1 k W1 Wy W1 ltac:(lia)) as (W2 & _ & E2).
  pose proof (words_Assign x y k Wx Wy) as W3. pose proof (NN_Assign_spec x y k) as E3.
  destruct (NN_Add_nocarry (NN_Assign x y k) (NN_Assign x y k) (fst (NN_Sub z1 y z1 k)) k W3 W3 W2 ltac:(lia)) as [W4 E4].
  splits; auto. lia.
Qed.

(** What is promised of generated parameters: the sizes; a subprime [q] of [subPrimeBits] bits
    and a prime of [primeBits] bits that pass the test, with [p = 1] modulo [2q]; and, when [p]
    is prime, a generator whose order divides [q]. *)
Definition good_params (primeBits subPrimeBits : Z) (params : R_DH_PARAMS) : Prop :=
  let len := DH_PRIME_LEN primeBits in
  let P := be (firstn len (dh_prime params)) in
  let G := be (firstn len (dh_generator params)) in
  dh_primeLen params = len /\ dh_generatorLen params = len /\
  2 ^ (primeBits - 1) <= P < 2 ^ primeBits /\ probable (primeBits <=? 32) P = true /\
  exists q, 2 ^ (subPrimeBits - 1) <= q < 2 ^ subPrimeBits /\ probable (primeBits <=? 32) q = true /\
    P mod (2 * q) = 1 /\ G = 2 ^ ((P - 1) / q) mod P /\
    (Z.prime P -> G ^ q mod P = 1).

Lemma subgroup P q : Z.prime P -> 2 < P -> 0 < q -> P mod (2 * q) = 1 ->
  (2 ^ ((P - 1) / q) mod P) ^ q mod P = 1.
Proof.
  intros HP H2 Hq H1. assert (E : P - 1 = q * ((P - 1) / q)).
  { apply Z.div_exact; [lia|]. rewrite (Z.div_mod P (2 * q)), H1 by lia.
    replace (2 * q * (P / (2 * q)) + 1 - 1) with ((2 * (P / (2 * q))) * q) by ring. apply Z.mod_mul. lia. }
  assert (0 <= (P - 1) / q) by (apply Z.div_pos; lia).
  rewrite Z.mod_pow_l, <- Z.pow_mul_r, (Z.mul_comm _ q), <- E by lia.
  apply ZmodInv.Z.fermat_nz; [exact HP|]. rewrite Z.mod_small; lia.
Qed.

Lemma div_quot P q : 1 < q -> P mod (2 * q) = 1 -> P / q = (P - 1) / q.
Proof.
  intros Hq H. rewrite (Z.div_mod P (2 * q)), H by lia.
  replace (2 * q * (P / (2 * q)) + 1) with (1 + (2 * (P / (2 * q))) * q) by ring.
  replace (1 + 2 * (P / (2 * q)) * q - 1) with (0 + (2 * (P / (2 * q))) * q) by ring.
  rewrite !Z.div_add, Z.div_0_l, Z.div_small by lia. reflexivity.
Qed.

(** The bounds of a search between [2^(n-1)] and [2^n - 1]. *)
Lemma exp_bounds a z k n : words a -> words z -> (1 <= k)%nat -> 2 <= n <= 32 * Z.of_nat k ->
  let t := NN_Assign2Exp a (n - 1) k in
  words t /\ nn k t = 2 ^ (n - 1) /\ 2 ^ n = 2 * 2 ^ (n - 1) /\ 2 <= 2 ^ (n - 1) /\
  forall x, words x -> words (fst (PREP x t z t k)) /\ words (snd (PREP x t z t k)) /\
    nn k (fst (PREP x t z t k)) = 2 ^ n - 1.
Proof.
  intros Wa Wz Hk Hn t. destruct (NN_Assign2Exp_spec a (n - 1) k Wa ltac:(lia)) as [W V]. fold t in W, V.
  destruct (Z.ltb_spec (n - 1) (32 * Z.of_nat k)); [|lia].
  pose proof (pow2_double n ltac:(lia)) as P2.
  assert (2 <= 2 ^ (n - 1)) by (change 2 with (2 ^ 1) at 1; apply Z.pow_le_mono_r; lia).
  assert (2 ^ n <= Bn k) by (unfold Bn; apply Z.pow_le_mono_r; lia).
  splits; auto. intros x Wx. destruct (PREP_spec x t z k Wx W Wz Hk ltac:(lia) ltac:(lia)) as (A & B & C).
  splits; auto. lia.
Qed.

(** A draw from the numbers of [n] bits that are 1 modulo an even step. *)
Lemma draw_bits a t u v k n rs : words a -> words t -> words u -> words v -> (1 <= k <= 33)%nat ->
  2 <= 2 ^ (n - 1) -> 2 ^ n = 2 * 2 ^ (n - 1) -> nn k t = 2 ^ (n - 1) -> nn k u = 2 ^ n - 1 ->
  0 < nn k v < 2 ^ (n - 1) -> nn k v mod 2 = 0 -> ready rs ->
  exists status p rs', GeneratePrime a t u v k rs = Some (status, p, rs') /\ ready rs' /\ words p /\
    ((status = ID_OK /\ 2 ^ (n - 1) <= nn k p < 2 ^ n /\ nn k p mod nn k v = 1 mod nn k v /\
      probable (k =? 1)%nat (nn k p) = true) \/ status = RE_DATA).
Proof.
  intros Wa Wt Wu Wv Hk H2 HD Et Eu Hv He (H0 & Hw & Ho).
  assert (Hodd : nn k u mod nn k v <> 0).
  { rewrite Eu. intros Z0. assert (D : (2 | 2 ^ n - 1)).
    { apply Z.divide_trans with (nn k v); [apply Z.mod_divide; lia|apply Z.mod_divide; [lia|exact Z0]]. }
    destruct D as [c Ec]. lia. }
  destruct (GeneratePrime_total t u v k Wt Wu Wv Hk ltac:(lia) ltac:(lia) (or_introl Hodd) a rs Wa H0 Hw Ho)
    as (block & rs' & status & p & _ & H0' & Hw' & Ho' & EG & st & p' & Eq & (Wp & i & Hi & Ei & Hc & _) & Hs).
  injection Eq as <- <-. exists status, p, rs'. splits; auto; [unfold ready; auto|].
  destruct Hs as [[-> Hp]|[-> _]]; [left|auto].
  destruct (start_range (nn k t) (nn k u) (nn k v) (be block) ltac:(lia) ltac:(lia)) as [SR SM].
  set (X := start_at _ _ _ _) in *. assert (0 <= i * nn k v) by nia. splits; auto; try lia.
  now rewrite Ei, Z_mod_plus_full.
Qed.

(** The last part: the generator and the encoding. *)
Lemma finish_params params pb sb k p q t u : (1 <= k <= 33)%nat -> pb <= 32 * Z.of_nat k ->
  (k =? 1)%nat = (pb <=? 32) -> 2 <= sb -> 2 <= pb -> words p -> words q -> words t -> words u ->
  bytes (dh_prime params) -> bytes (dh_generator params) ->
  2 ^ (sb - 1) <= nn k q < 2 ^ sb -> probable (k =? 1)%nat (nn k q) = true ->
  2 ^ (pb - 1) <= nn k p < 2 ^ pb -> probable (k =? 1)%nat (nn k p) = true ->
  nn k p mod (2 * nn k q) = 1 -> 2 < nn k p ->
  let g := NN_ASSIGN_DIGIT (repeat 0 MAX_NN_DIGITS) 2 k in
  exists t' u' g', NN_Div t u p k q k = Some (t', u') /\ NN_ModExp g g t' k p k = Some g' /\
    good_params pb sb (mkDHParams (NN_Encode (dh_prime params) (DH_PRIME_LEN pb) p k) (DH_PRIME_LEN pb)
      (NN_Encode (dh_generator params) (DH_PRIME_LEN pb) g' k) (DH_PRIME_LEN pb)).
Proof.
  intros Hk Hpb Hs H2 H2' Wp Wq Wt Wu Bp Bg Rq Pq Rp Pp Hm HP2 g.
  assert (Hq : 1 < nn k q).
  { pose proof (Z.pow_le_mono_r 2 1 (sb - 1) ltac:(lia) ltac:(lia)) as H1. change (2 ^ 1) with 2 in H1. lia. }
  destruct (NN_Div_total t u p k q k Wt Wu Wp Wq ltac:(lia) ltac:(lia) ltac:(lia))
    as (t' & u' & E & Wt' & _ & Et & _).
  assert (Wg : words g) by (apply words_ASSIGN_DIGIT; [auto with words|unfold is_word; lia]).
  assert (Eg : nn k g = 2) by (apply NN_ASSIGN_DIGIT_spec; lia).
  destruct (NN_ModExp_total g p k Wg Wp ltac:(lia) ltac:(lia) g t' k ltac:(lia) Wg Wt') as (g' & E' & Wg' & Eg').
  rewrite Eg, Et, div_quot in Eg' by auto. exists t', u', g'. splits; [exact E|exact E'|].
  set (len := DH_PRIME_LEN pb).
  assert (HL : 2 ^ pb <= Pn len).
  { unfold Pn, len, DH_PRIME_LEN. rewrite Z2Nat.id by (apply Z.div_pos; lia).
    apply Z.pow_le_mono_r; [lia|]. Z.div_mod_to_equations; lia. }
  destruct (NN_Encode_spec (dh_prime params) len p k Bp Wp) as (_ & _ & V1).
  destruct (NN_Encode_spec (dh_generator params) len g' k Bg Wg') as (_ & _ & V2).
  rewrite Z.mod_small in V1 by lia. rewrite Eg' in V2.
  pose proof (Z.mod_pos_bound (2 ^ ((nn k p - 1) / nn k q)) (nn k p) ltac:(lia)).
  rewrite (Z.mod_small _ (Pn len)) in V2 by lia.
  unfold good_params. cbn [dh_prime dh_primeLen dh_generator dh_generatorLen]. fold len. rewrite V1, V2, <- Hs.
  splits; auto; try lia. exists (nn k q). splits; auto; try lia. intros HP. apply subgroup; auto; lia.
Qed.

Lemma R_GenerateDHParams_total params pb sb rs : bytes (dh_prime params) -> bytes (dh_generator params) ->
  3 <= sb <= pb - 2 -> pb <= 1056 -> ready rs ->
  exists status params' rs', R_GenerateDHParams params pb sb rs = Some (status, params', rs') /\ ready rs' /\
    ((status = ID_OK /\ good_params pb sb params') \/ (status = RE_DATA /\ params' = params)).
Proof.
  intros Bp Bg Hsb Hpb Hr. unfold R_GenerateDHParams. set (arr := repeat 0 MAX_NN_DIGITS).
  assert (Wz : words arr) by (unfold arr; auto with words).
  assert (Hk : Z.of_nat (Z.to_nat ((pb + NN_DIGIT_BITS - 1) / NN_DIGIT_BITS)) = (pb + 31) / 32).
  { unfold NN_DIGIT_BITS. rewrite Z2Nat.id by (apply Z.div_pos; lia). f_equal. lia. }
  cbv zeta. set (k := Z.to_nat _) in *. clearbody k.
  assert (K : (1 <= k <= 33)%nat /\ pb <= 32 * Z.of_nat k) by (Z.div_mod_to_equations; lia). destruct K as [K Kp].
  assert (Hs : (k =? 1)%nat = (pb <=? 32)).
  { destruct (Nat.eqb_spec k 1); destruct (Z.leb_spec pb 32); auto; Z.div_mod_to_equations; lia. }
  destruct (exp_bounds arr arr k sb Wz Wz ltac:(lia) ltac:(lia)) as (Wt & Et & P2 & H2 & HPREP). cbv zeta in *.
  set (t := NN_Assign2Exp arr (sb - 1) k) in *. destruct (HPREP arr Wz) as (Wu & Wv & Eu).
  rewrite (surjective_pairing (PREP arr t arr t k)). cbn iota beta.
  set (u := fst (PREP arr t arr t k)) in *. set (v := snd (PREP arr t arr t k)) in *.
  assert (Wv2 : words (NN_ASSIGN_DIGIT v 2 k)) by (apply words_ASSIGN_DIGIT; auto; unfold is_word; lia).
  pose proof (NN_ASSIGN_DIGIT_spec v 2 k ltac:(lia)) as Ev2.
  assert (H4 : 4 <= 2 ^ (sb - 1)) by (change 4 with (2 ^ 2); apply Z.pow_le_mono_r; lia).
  destruct (draw_bits arr t u (NN_ASSIGN_DIGIT v 2 k) k sb rs Wz Wt Wu Wv2 K H2 P2 Et Eu ltac:(rewrite Ev2; lia)
    ltac:(now rewrite Ev2) Hr) as (st & q & rs1 & -> & Hr1 & Wq & Hq). cbn [obind].
  destruct Hq as [(-> & Rq & _ & Pq)| ->]; [|do 3 eexists; split; [reflexivity|auto]].
  change (negb (ID_OK =? 0)) with false. cbv iota.
  destruct (exp_bounds t (NN_ASSIGN_DIGIT v 2 k) k pb Wt Wv2 ltac:(lia) ltac:(lia)) as (Wt2 & Et2 & P3 & H3 & HPREP2). cbv zeta in *.
  set (t2 := NN_Assign2Exp t (pb - 1) k) in *. destruct (HPREP2 u Wu) as (Wu2 & Wv3 & Eu2).
  rewrite (surjective_pairing (PREP u t2 (NN_ASSIGN_DIGIT v 2 k) t2 k)). cbn iota beta.
  set (u2 := fst (PREP u t2 _ t2 k)) in *. set (v2 := snd (PREP u t2 _ t2 k)) in *.
  assert (Hsp : 2 * 2 ^ sb <= 2 ^ (pb - 1)).
  { rewrite <- Z.pow_succ_r by lia. apply Z.pow_le_mono_r; lia. }
  pose proof (nn_bound k t2 Wt2). pose proof (NN_LShift_spec v2 q 1 k Wv3 Wq ltac:(lia)) as LS.
  destruct (NN_LShift v2 q 1 k) as [v4 co]. destruct LS as (Wv4 & Hco & Ev4 & _). change (2 ^ 1) with 2 in *. cbn [fst].
  pose proof (nn_bound k v4 Wv4). assert (co = 0) by nia. subst co.
  destruct (draw_bits arr t2 u2 v4 k pb rs1 Wz Wt2 Wu2 Wv4 K H3 P3 Et2 Eu2 ltac:(lia)
    ltac:(replace (nn k v4) with (nn k q * 2) by lia; apply Z.mod_mul; lia) Hr1)
    as (st & p & rs2 & -> & Hr2 & Wp & Hp). cbn [obind].
  destruct Hp as [(-> & Rp & Mp & Pp)| ->]; [|do 3 eexists; split; [reflexivity|auto]].
  change (negb (ID_OK =? 0)) with false. cbv iota.
  replace (nn k v4) with (2 * nn k q) in Mp by lia. rewrite (Z.mod_1_l (2 * nn k q)) in Mp by lia.
  destruct (finish_params params pb sb k p q t2 u2) as (t' & u' & g' & -> & E' & G); auto; try lia.
  cbn [obind]. fold arr in E'. rewrite E'. cbn [obind]. do 3 eexists. split; [reflexivity|]. auto.
Qed.

(** ** The claims *)

(** Key agreement.  Two parties that set up with the same usable parameters, each
    with its own random source and length of private value, both succeed, and each computes
    the same agreed key from the other's public value: g^(xy) mod p. *)
Theorem DH_agreement (params : R_DH_PARAMS) (pub1 priv1 pub2 priv2 key1 key2 : list Z) (len1 len2 : nat)
  (rs1 rs2 : R_RANDOM_STRUCT) :
  usable params -> ready rs1 -> ready rs2 ->
  Forall (Forall is_byte) [pub1; priv1; pub2; priv2; key1; key2] ->
  (len1 <= length priv1)%nat -> (len2 <= length priv2)%nat ->
  exists y1 x1 rs1' y2 x2 rs2' k1 k2,
    R_SetupDHAgreement pub1 priv1 len1 params rs1 = Some (ID_OK, y1, x1, rs1') /\
    R_SetupDHAgreement pub2 priv2 len2 params rs2 = Some (ID_OK, y2, x2, rs2') /\
    R_ComputeDHAgreedKey key1 y2 x1 len1 params = Some (ID_OK, k1) /\
    R_ComputeDHAgreedKey key2 y1 x2 len2 params = Some (ID_OK, k2) /\
    firstn (dh_primeLen params) k1 = firstn (dh_primeLen params) k2 /\
    length (firstn (dh_primeLen params) k1) = dh_primeLen params.
Proof.
  intros U R1 R2 HB L1 L2.
  repeat match goal with H : Forall _ (_ :: _) |- _ => inversion H; clear H; subst end.
  destruct (setup_total params U pub1 priv1 len1 rs1) as (y1 & x1 & rs1' & E1 & _ & By1 & Bx1 & Ly1 & V1); auto.
  destruct (setup_total params U pub2 priv2 len2 rs2) as (y2 & x2 & rs2' & E2 & _ & By2 & Bx2 & Ly2 & V2); auto.
  set (P := be (firstn (dh_primeLen params) (dh_prime params))) in *.
  assert (HP : 1 < P) by apply U. set (G := nn _ _) in *.
  destruct (compute_total params U key1 y2 x1 len1) as (k1 & K1 & Bk1 & Lk1 & W1); auto;
    [fold P; rewrite V2; apply Z.mod_pos_bound; lia|].
  destruct (compute_total params U key2 y1 x2 len2) as (k2 & K2 & Bk2 & Lk2 & W2); auto;
    [fold P; rewrite V1; apply Z.mod_pos_bound; lia|].
  exists y1, x1, rs1', y2, x2, rs2', k1, k2. splits; auto.
  apply be_inj; auto with words; [congruence|]. rewrite W1, W2, V1, V2. fold P.
  pose proof (exponent_nonneg params x1 len1). pose proof (exponent_nonneg params x2 len2).
  rewrite !Z.mod_pow_l, <- !Z.pow_mul_r by lia. f_equal. f_equal. lia.
Qed.

(** A public value that is not below the prime is refused with [RE_DATA]; every value below
    the prime is accepted. *)
Theorem R_ComputeDHAgreedKey_range (params : R_DH_PARAMS) (key y x : list Z) (len : nat) :
  usable params -> bytes key -> bytes y -> bytes x -> (dh_primeLen params <= 4 * prime_digits params)%nat ->
  if be (firstn (dh_primeLen params) y) <? be (firstn (dh_primeLen params) (dh_prime params))
  then exists k, R_ComputeDHAgreedKey key y x len params = Some (ID_OK, k)
  else R_ComputeDHAgreedKey key y x len params = Some (RE_DATA, key).
Proof.
  intros U Bk By Bx HL. destruct (Z.ltb_spec (be (firstn (dh_primeLen params) y))
    (be (firstn (dh_primeLen params) (dh_prime params)))) as [C|C].
  - destruct (compute_total params U key y x len Bk By Bx C) as (k & E & _). eauto.
  - destruct (prime_facts params U) as (Wp & Ep & Hpd & HP & _).
    unfold R_ComputeDHAgreedKey, prime_digits in *. set (pd := NN_Digits _ MAX_NN_DIGITS) in *.
    destruct (NN_Decode_spec (repeat 0 MAX_NN_DIGITS) pd y (dh_primeLen params) (words_0 _) By) as [Wy Ey].
    pose proof (be_bound (firstn (dh_primeLen params) y) ltac:(auto with words)) as Hb.
    pose proof (Pn_mono (length (firstn (dh_primeLen params) y)) (4 * pd) ltac:(rewrite length_firstn; lia)) as HM.
    assert (EB : Pn (4 * pd) = Bn pd) by (unfold Pn, Bn; f_equal; lia).
    rewrite Z.mod_small in Ey by lia. rewrite NN_Cmp_sgn, Ey, Ep, Z.geb_leb by auto.
    destruct (Z.leb_spec 0 (Z.sgn (be (firstn (dh_primeLen params) y)
      - be (firstn (dh_primeLen params) (dh_prime params))))); [reflexivity|lia].
Qed.

(** Parameter generation returns, and gives a prime of [primeBits] bits and a subprime of
    [subPrimeBits] bits that both pass the test, p = 1 mod 2q, and the generator
    2^((p-1)/q) mod p, whose order divides q when p is prime; otherwise [RE_DATA], the
    parameters unchanged. *)
Theorem R_GenerateDHParams_result (params : R_DH_PARAMS) (primeBits subPrimeBits : Z) (rs : R_RANDOM_STRUCT) :
  bytes (dh_prime params) -> bytes (dh_generator params) ->
  3 <= subPrimeBits <= primeBits - 2 -> primeBits <= 1056 -> ready rs ->
  exists status params' rs', R_GenerateDHParams params primeBits subPrimeBits rs = Some (status, params', rs') /\
    ready rs' /\
    ((status = ID_OK /\ good_params primeBits subPrimeBits params') \/ (status = RE_DATA /\ params' = params)).
Proof. intros. now apply R_GenerateDHParams_total. Qed.

(** Parameters: the prime 65537 and the generator 3. *)
Definition test_params : R_DH_PARAMS := mkDHParams [1; 0; 1] 3 [0; 0; 3] 3.

Lemma test_params_usable : usable test_params.
Proof. unfold usable. splits; [check_bytes|check_bytes|cbn; lia|vm_compute; reflexivity]. Qed.

Lemma seeded_ready : ready seeded.
Proof. unfold ready, well_formed. splits; [reflexivity|apply Nat.le_0_l|reflexivity|check_bytes]. Qed.

Lemma DH_agreement_witness :
  exists y1 x1 rs1' y2 x2 rs2' k1 k2,
    R_SetupDHAgreement (repeat 0 3) (repeat 0 2) 2 test_params seeded = Some (ID_OK, y1, x1, rs1') /\
    R_SetupDHAgreement (repeat 0 3) (repeat 0 4) 4 test_params (mkRandom 0 (repeat 9 16) 0 (repeat 0 16)) =
      Some (ID_OK, y2, x2, rs2') /\
    R_ComputeDHAgreedKey (repeat 0 3) y2 x1 2 test_params = Some (ID_OK, k1) /\
    R_ComputeDHAgreedKey (repeat 0 3) y1 x2 4 test_params = Some (ID_OK, k2) /\
    firstn 3 k1 = firstn 3 k2 /\ length (firstn 3 k1) = 3%nat.
Proof.
  apply (DH_agreement test_params (repeat 0 3) (repeat 0 2) (repeat 0 3) (repeat 0 4) (repeat 0 3) (repeat 0 3) 2 4
    seeded (mkRandom 0 (repeat 9 16) 0 (repeat 0 16)));
    [exact test_params_usable|exact seeded_ready| |repeat (apply Forall_cons; [check_bytes|]); apply Forall_nil
    |reflexivity|reflexivity].
  unfold ready, well_formed. splits; [reflexivity|apply Nat.le_0_l|reflexivity|check_bytes].
Defined.

Lemma R_ComputeDHAgreedKey_range_witness :
  R_ComputeDHAgreedKey [0; 0; 0] [1; 0; 1] [5] 1 test_params = Some (RE_DATA, [0; 0; 0]).
Proof.
  apply (R_ComputeDHAgreedKey_range test_params [0; 0; 0] [1; 0; 1] [5] 1 test_params_usable);
    [check_bytes|check_bytes|check_bytes|vm_compute; lia].
Defined.

Lemma R_GenerateDHParams_result_witness :
  exists status params' rs', R_GenerateDHParams test_params 12 6 seeded = Some (status, params', rs') /\
    ready rs' /\
    ((status = ID_OK /\ good_params 12 6 params') \/ (status = RE_DATA /\ params' = test_params)).
Proof.
  apply (R_GenerateDHParams_result test_params 12 6 seeded);
    [check_bytes|check_bytes|lia|lia|exact seeded_ready].
Defined.
