(* ===== verification/Enhanc.v ===== *)
(** * Enhanc: digests and signatures (src/QBase/RSAEuro/r_enhanc.c)

    One interface to the four digests, and signatures: a digest, wrapped in its DigestInfo,
    encrypted with the private key, with the printable form of both. *)

From S2P Require Import Prelude Rsaeuro NN NNMod StdLib MDBuffer MD4 MD5 SHS MD2 Encode RSA.

(** The contexts.  The members of a union are fields; only the one that the algorithm names
    is read. *)
Record R_DIGEST_CTX := mkDigest {
  digestAlgorithm : Z; d_md2 : MD2_CTX; d_md4 : MD_CTX; d_md5 : MD_CTX; d_shs : SHS_CTX }.

Record R_SIGNATURE_CTX := mkSignature { digestContext : R_DIGEST_CTX }.

Definition DIGEST_INFO_A : list Z :=
  [0x30; 0x20; 0x30; 0x0c; 0x06; 0x08; 0x2a; 0x86; 0x48; 0x86; 0xf7; 0x0d; 0x02].
Definition DIGEST_INFO_A_LEN : nat := length DIGEST_INFO_A.
Definition DIGEST_INFO_B : list Z := [0x05; 0x00; 0x04; 0x10].
Definition DIGEST_INFO_B_LEN : nat := length DIGEST_INFO_B.
Definition DIGEST_INFO_LEN : nat := DIGEST_INFO_A_LEN + 1 + DIGEST_INFO_B_LEN + 16.

(** ** Digests *)

Definition set_alg (c : R_DIGEST_CTX) (t : Z) : R_DIGEST_CTX := mkDigest t (d_md2 c) (d_md4 c) (d_md5 c) (d_shs c).
Definition set_md2 (c : R_DIGEST_CTX) (x : MD2_CTX) : R_DIGEST_CTX := mkDigest (digestAlgorithm c) x (d_md4 c) (d_md5 c) (d_shs c).
Definition set_md4 (c : R_DIGEST_CTX) (x : MD_CTX) : R_DIGEST_CTX := mkDigest (digestAlgorithm c) (d_md2 c) x (d_md5 c) (d_shs c).
Definition set_md5 (c : R_DIGEST_CTX) (x : MD_CTX) : R_DIGEST_CTX := mkDigest (digestAlgorithm c) (d_md2 c) (d_md4 c) x (d_shs c).
Definition set_shs (c : R_DIGEST_CTX) (x : SHS_CTX) : R_DIGEST_CTX := mkDigest (digestAlgorithm c) (d_md2 c) (d_md4 c) (d_md5 c) x.

Definition R_DigestInit (context : R_DIGEST_CTX) (digesttype : Z) : R_DIGEST_CTX * Z :=
  let context := set_alg context digesttype in
  if digesttype =? DA_SHS then (set_shs context (SHSInit (d_shs context)), ID_OK)
  else if digesttype =? DA_MD2 then (set_md2 context (MD2Init (d_md2 context)), ID_OK)
  else if digesttype =? DA_MD4 then (set_md4 context (MD4Init (d_md4 context)), ID_OK)
  else if digesttype =? DA_MD5 then (set_md5 context (MD5Init (d_md5 context)), ID_OK)
  else (context, RE_DIGEST_ALGORITHM).

Definition R_DigestUpdate (context : R_DIGEST_CTX) (partIn : list Z) (partInLen : nat) : R_DIGEST_CTX * Z :=
  let t := digestAlgorithm context in
  if t =? DA_SHS then (set_shs context (SHSUpdate (d_shs context) partIn partInLen), ID_OK)
  else if t =? DA_MD2 then (set_md2 context (MD2Update (d_md2 context) partIn partInLen), ID_OK)
  else if t =? DA_MD4 then (set_md4 context (MD4Update (d_md4 context) partIn partInLen), ID_OK)
  else if t =? DA_MD5 then (set_md5 context (MD5Update (d_md5 context) partIn partInLen), ID_OK)
  else (context, RE_DIGEST_ALGORITHM).

(** Context, status, the bytes written to [digest] and [*digestLen]. *)
Definition R_DigestFinal (context : R_DIGEST_CTX) : R_DIGEST_CTX * Z * list Z * nat :=
  let t := digestAlgorithm context in
  let digestLen := if t =? DA_SHS then 20%nat else 16%nat in
  if t =? DA_SHS then let (d, c) := SHSFinal (d_shs context) in (set_shs context c, ID_OK, d, digestLen)
  else if t =? DA_MD2 then let (d, c) := MD2Final (d_md2 context) in (set_md2 context c, ID_OK, d, digestLen)
  else if t =? DA_MD4 then let (d, c) := MD4Final (d_md4 context) in (set_md4 context c, ID_OK, d, digestLen)
  else if t =? DA_MD5 then let (d, c) := MD5Final (d_md5 context) in (set_md5 context c, ID_OK, d, digestLen)
  else (context, RE_DIGEST_ALGORITHM, [], digestLen).

Definition R_DigestBlock (context : R_DIGEST_CTX) (block : list Z) (blockLen : nat) (digestAlgorithm : Z)
  : Z * list Z * nat :=
  let (context, status) := R_DigestInit context digestAlgorithm in
  if negb (status =? 0) then (status, [], 0%nat)
  else
    let (context, status) := R_DigestUpdate context block blockLen in
    if negb (status =? 0) then (status, [], 0%nat)
    else let '(context, status, digest, digestLen) := R_DigestFinal context in (status, digest, digestLen).

(** [digestInfo] is the array written to. *)
Definition R_EncodeDigestInfo (digestInfo : list Z) (digestAlgorithm : Z) (digest : list Z) : list Z :=
  if negb (digestAlgorithm =? DA_SHS) then
    let d := upd digestInfo DIGEST_INFO_A_LEN (w8 digestAlgorithm) in
    let d := at_ptr (DIGEST_INFO_A_LEN + 1) (fun p => R_memcpy p DIGEST_INFO_B DIGEST_INFO_B_LEN) d in
    let d := R_memcpy d DIGEST_INFO_A DIGEST_INFO_A_LEN in
    at_ptr (DIGEST_INFO_A_LEN + 1 + DIGEST_INFO_B_LEN) (fun p => R_memcpy p digest 16) d
  else digestInfo.

Definition R_CheckDigestInfo (originaldigestInfo digestInfo : list Z) : Z :=
  if nth DIGEST_INFO_A_LEN originaldigestInfo 0 =? nth DIGEST_INFO_A_LEN digestInfo 0 then ID_OK else RE_SIGNATURE.

Section Enhanc.
(** What the local arrays hold when a function is entered. *)
Context (stack : list Z).

(** ** Signatures *)

Definition sig_init (context : R_SIGNATURE_CTX) (t : Z) : R_SIGNATURE_CTX * Z :=
  if t =? DA_SHS then (context, RE_DIGEST_ALGORITHM)
  else let (c, status) := R_DigestInit (digestContext context) t in (mkSignature c, status).

Definition sig_update (context : R_SIGNATURE_CTX) (partIn : list Z) (partInLen : nat) : R_SIGNATURE_CTX * Z :=
  if digestAlgorithm (digestContext context) =? DA_SHS then (context, RE_DIGEST_ALGORITHM)
  else let (c, status) := R_DigestUpdate (digestContext context) partIn partInLen in (mkSignature c, status).

Definition R_SignInit := sig_init.
Definition R_SignUpdate := sig_update.
Definition R_VerifyInit := sig_init.
Definition R_VerifyUpdate := sig_update.

(** Context, status, signature and its length. *)
Definition R_SignFinal (context : R_SIGNATURE_CTX) (signature : list Z) (signatureLen : nat)
    (privateKey : R_RSA_PRIVATE_KEY) : option (R_SIGNATURE_CTX * Z * list Z * nat) :=
  let t := digestAlgorithm (digestContext context) in
  if t =? DA_SHS then Some (context, RE_DIGEST_ALGORITHM, signature, signatureLen)
  else
    let '(c, status, digest, digestLen) := R_DigestFinal (digestContext context) in
    if negb (status =? 0) then Some (mkSignature c, status, signature, signatureLen)
    else
      let digestInfo := R_EncodeDigestInfo (cells DIGEST_INFO_LEN stack) (digestAlgorithm c) digest in
      let? (st, signature, signatureLen) := RSAPrivateEncrypt signature signatureLen digestInfo DIGEST_INFO_LEN privateKey in
      if negb (st =? 0) then Some (mkSignature c, RE_PRIVATE_KEY, signature, signatureLen)
      else Some (mkSignature (fst (R_DigestInit c (digestAlgorithm c))), status, signature, signatureLen).

Definition R_VerifyFinal (context : R_SIGNATURE_CTX) (signature : list Z) (signatureLen : nat)
    (publicKey : R_RSA_PUBLIC_KEY) : option (R_SIGNATURE_CTX * Z) :=
  let status := if MAX_SIGNATURE_LEN <? Z.of_nat signatureLen then RE_LEN else 0 in
  let status := if digestAlgorithm (digestContext context) =? DA_SHS then RE_DIGEST_ALGORITHM else status in
  if negb (status =? 0) then Some (context, status)
  else
    let '(c, status, digest, digestLen) := R_DigestFinal (digestContext context) in
    if negb (status =? 0) then Some (mkSignature c, status)
    else
      let digestInfo := R_EncodeDigestInfo (cells DIGEST_INFO_LEN stack) (digestAlgorithm c) digest in
      let? (st, originalDigestInfo, originalDigestInfoLen) :=
        RSAPublicDecrypt (cells (Z.to_nat MAX_SIGNATURE_LEN) stack) 0 signature signatureLen publicKey in
      if negb (st =? 0) then Some (mkSignature c, RE_PUBLIC_KEY)
      else if negb (Nat.eqb originalDigestInfoLen DIGEST_INFO_LEN)
              || negb (R_CheckDigestInfo originalDigestInfo digestInfo =? 0)
              || negb (R_memcmp originalDigestInfo digestInfo DIGEST_INFO_LEN =? 0)
      then Some (mkSignature c, RE_SIGNATURE)
      else Some (mkSignature (fst (R_DigestInit c (digestAlgorithm c))), status).

Definition R_SignBlock (context : R_SIGNATURE_CTX) (signature : list Z) (signatureLen : nat)
    (block : list Z) (blockLen : nat) (digestAlgorithm : Z) (privateKey : R_RSA_PRIVATE_KEY)
  : option (Z * list Z * nat) :=
  let (context, status) := R_SignInit context digestAlgorithm in
  if negb (status =? 0) then Some (status, signature, signatureLen)
  else
    let (context, status) := R_SignUpdate context block blockLen in
    if negb (status =? 0) then Some (status, signature, signatureLen)
    else
      let? (context, status, signature, signatureLen) := R_SignFinal context signature signatureLen privateKey in
      Some (status, signature, signatureLen).

Definition R_VerifyBlockSignature (context : R_SIGNATURE_CTX) (block : list Z) (blockLen : nat)
    (signature : list Z) (signatureLen : nat) (digestAlgorithm : Z) (publicKey : R_RSA_PUBLIC_KEY) : option Z :=
  let (context, status) := R_VerifyInit context digestAlgorithm in
  if negb (status =? 0) then Some status
  else
    let (context, status) := R_VerifyUpdate context block blockLen in
    if negb (status =? 0) then Some status
    else let? (context, status) := R_VerifyFinal context signature signatureLen publicKey in Some status.

(** Status, encoded content (when recoded) and encoded signature. *)
Definition R_SignPEMBlock (context : R_SIGNATURE_CTX) (content : list Z) (contentLen : nat) (recode : bool)
    (digestAlgorithm : Z) (privateKey : R_RSA_PRIVATE_KEY) : option (Z * option (list Z) * list Z) :=
  let? (status, signature, signatureLen) :=
    R_SignBlock context (cells (Z.to_nat MAX_SIGNATURE_LEN) stack) 0 content contentLen digestAlgorithm privateKey in
  if negb (status =? 0) then Some (status, None, [])
  else
    let encodedContent := if recode then Some (fst (R_EncodePEMBlock content (Z.of_nat contentLen))) else None in
    Some (ID_OK, encodedContent, fst (R_EncodePEMBlock signature (Z.of_nat signatureLen))).

(** Status, and the content with its length. *)
Definition R_VerifyPEMSignature (context : R_SIGNATURE_CTX) (encodedContent : list Z) (encodedContentLen : nat)
    (encodedSignature : list Z) (encodedSignatureLen : nat) (recode : bool) (digestAlgorithm : Z)
    (publicKey : R_RSA_PUBLIC_KEY) : option (Z * list Z * nat) :=
  if MAX_PEM_SIGNATURE_LEN <? Z.of_nat encodedSignatureLen then Some (RE_SIGNATURE_ENCODING, [], 0%nat)
  else
    let '(st, content, contentLen) :=
      if recode then R_DecodePEMBlock encodedContent encodedContentLen else (ID_OK, encodedContent, encodedContentLen) in
    if negb (st =? 0) then Some (RE_CONTENT_ENCODING, content, contentLen)
    else
      let '(st, signature, signatureLen) := R_DecodePEMBlock encodedSignature encodedSignatureLen in
      if negb (st =? 0) then Some (RE_SIGNATURE_ENCODING, content, contentLen)
      else
        let? status := R_VerifyBlockSignature context content contentLen signature signatureLen digestAlgorithm publicKey in
        Some (status, content, contentLen).

End Enhanc.

(** ** Digests: one abstract state for the four algorithms *)

Definition signing_algorithm (t : Z) : Prop := t = DA_MD2 \/ t = DA_MD4 \/ t = DA_MD5.
Definition digest_algorithm (t : Z) : Prop := t = DA_SHS \/ signing_algorithm t.

(** The digest of a message. *)
Definition digest_of (t : Z) (m : list Z) : list Z :=
  if t =? DA_SHS then SHS_digest m
  else if t =? DA_MD2 then MD2_digest m
  else if t =? DA_MD4 then MD4_digest m
  else MD5_digest m.

(** The arrays of the context have the sizes that the structures declare. *)
Record digest_sized (c : R_DIGEST_CTX) : Prop := {
  ds_md2 : length (md2_buffer (d_md2 c)) = 16%nat /\ length (md2_state (d_md2 c)) = 16%nat /\
           length (md2_checksum (d_md2 c)) = 16%nat;
  ds_md4 : length (buffer (d_md4 c)) = 64%nat;
  ds_md5 : length (buffer (d_md5 c)) = 64%nat;
  ds_shs : length (data (d_shs c)) = 64%nat /\ bytes (data (d_shs c)) }.

(** The context holds the digest state of the message fed so far. *)
Definition digest_represents (t : Z) (c : R_DIGEST_CTX) (m : list Z) : Prop :=
  digestAlgorithm c = t /\
  if t =? DA_SHS then SHS_represents (d_shs c) m
  else if t =? DA_MD2 then MD2_represents (d_md2 c) m
  else if t =? DA_MD4 then represents MD4Transform MD4_IV (d_md4 c) m
  else represents MD5Transform MD5_IV (d_md5 c) m.

(** A piece of a message: the counts of the digests are taken modulo 2^32. *)
Definition piece (x : list Z) : Prop := bytes x /\ Z.of_nat (length x) < 2 ^ 32 - 63.

Ltac algorithms H := destruct H as [->|[->|[->| ->]]].
Ltac pick := cbv beta iota delta [DA_SHS DA_MD2 DA_MD4 DA_MD5 Z.eqb Pos.eqb] in *.
Ltac signing H := destruct H as [->|[->| ->]].

Lemma R_DigestInit_represents t c : digest_algorithm t -> digest_sized c ->
  snd (R_DigestInit c t) = ID_OK /\ digest_represents t (fst (R_DigestInit c t)) [].
Proof.
  intros H [(L1 & L2 & L3) L4 L5 (L6 & B6)].
  algorithms H; (split; [reflexivity|split; [reflexivity|]]); unfold R_DigestInit; pick; cbn [fst].
  - now apply SHSInit_represents.
  - now apply MD2Init_represents.
  - now apply represents_Init.
  - now apply represents_Init.
Qed.

Lemma R_DigestUpdate_represents t c m x : digest_algorithm t -> digest_represents t c m -> piece x ->
  snd (R_DigestUpdate c x (length x)) = ID_OK /\
  digest_represents t (fst (R_DigestUpdate c x (length x))) (m ++ x).
Proof.
  intros H [E R] [Bx Lx]. unfold R_DigestUpdate, digest_represents. rewrite E.
  algorithms H; pick; (split; [reflexivity|split; [exact E|]]); cbn [fst].
  - apply SHSUpdate_represents; auto. lia.
  - pose proof (MD2Update_represents (d_md2 c) m x (length x) R ltac:(lia) ltac:(lia)) as R'.
    now rewrite firstn_all in R'.
  - now apply MD_Update_represents.
  - now apply MD_Update_represents.
Qed.

Lemma R_DigestFinal_represents t c m : digest_algorithm t -> digest_represents t c m ->
  exists c', R_DigestFinal c = (c', ID_OK, digest_of t m, if t =? DA_SHS then 20%nat else 16%nat) /\
    digestAlgorithm c' = t.
Proof.
  intros H [E R]. unfold R_DigestFinal, digest_of. rewrite E. algorithms H; pick.
  - pose proof (SHSFinal_represents _ _ R). destruct (SHSFinal _) as [d x]. cbn [fst] in *. subst. eauto.
  - pose proof (MD2Final_represents _ _ R). destruct (MD2Final _) as [d x]. cbn [fst] in *. subst. eauto.
  - pose proof (MD_Final_represents _ _ _ _ R). unfold MD4Final. destruct (MD_Final _ _) as [d x].
    cbn [fst] in *. subst. eauto.
  - pose proof (MD_Final_represents _ _ _ _ R). unfold MD5Final. destruct (MD_Final _ _) as [d x].
    cbn [fst] in *. subst. eauto.
Qed.

Lemma signing_not_SHS t : signing_algorithm t -> (t =? DA_SHS) = false.
Proof. intros H. now signing H. Qed.
#[local] Hint Resolve signing_not_SHS : core.

Lemma digest_of_block t m : signing_algorithm t -> bytes m ->
  bytes (digest_of t m) /\ length (digest_of t m) = 16%nat.
Proof.
  intros H Hm. signing H; unfold digest_of; pick.
  - now apply MD2_digest_bytes.
  - split; [apply bytes_Encode|apply length_Encode].
  - split; [apply bytes_Encode|apply length_Encode].
Qed.

(** The DigestInfo of a digest: the object identifier of the algorithm around its number,
    then the digest. *)
Definition digest_info (t : Z) (m : list Z) : list Z :=
  DIGEST_INFO_A ++ [t] ++ DIGEST_INFO_B ++ digest_of t m.

Lemma at_ptr_app k f (a b : list Z) : length a = k -> at_ptr k f (a ++ b) = a ++ f b.
Proof. intros <-. unfold at_ptr. now rewrite firstn_app_len, skipn_app_len. Qed.

Lemma R_memcpy_app (a b src : list Z) n : length a = n -> length src = n -> R_memcpy (a ++ b) src n = src ++ b.
Proof.
  intros La Ls. rewrite R_memcpy_store. unfold store. rewrite length_cells. subst n.
  now rewrite <- Ls at 1 2; rewrite cells_all, Ls, skipn_app_len.
Qed.

Lemma upd_mid {A} (a b : list A) x y n : length a = n -> upd (a ++ x :: b) n y = a ++ y :: b.
Proof. intros <-. induction a as [|z a IH]; cbn [upd app length]; congruence. Qed.

Lemma R_EncodeDigestInfo_spec d t m : signing_algorithm t -> length d = DIGEST_INFO_LEN -> bytes m ->
  R_EncodeDigestInfo d t (digest_of t m) = digest_info t m.
Proof.
  intros H Ld Hm. destruct (digest_of_block t m H Hm) as [_ Lg]. unfold digest_info.
  revert Lg. generalize (digest_of t m). intros g Lg. change DIGEST_INFO_LEN with 34%nat in Ld.
  assert (E : exists a x b c, d = a ++ x :: b ++ c /\ length a = 13%nat /\ length b = 4%nat /\ length c = 16%nat).
  { exists (firstn 13 d), (nth 13 d 0), (firstn 4 (skipn 14 d)), (skipn 18 d). splits.
    - rewrite <- (firstn_skipn 13 d) at 1. f_equal.
      destruct (skipn 13 d) as [|x r] eqn:E; [apply (f_equal (@length Z)) in E; rewrite length_skipn in E; cbn in E; lia|].
      assert (Ex : nth 0 (skipn 13 d) 0 = x) by now rewrite E. rewrite nth_skipn in Ex. cbn [plus] in Ex. rewrite Ex.
      f_equal. replace 18%nat with (4 + 14)%nat by reflexivity. rewrite <- skipn_skipn, firstn_skipn.
      replace 14%nat with (1 + 13)%nat by reflexivity. rewrite <- skipn_skipn, E. reflexivity.
    - rewrite length_firstn. lia.
    - rewrite length_firstn, length_skipn. lia.
    - rewrite length_skipn. lia. }
  destruct E as (a & x & b & c & -> & La & Lb & Lc).
  unfold R_EncodeDigestInfo. rewrite (signing_not_SHS t H). cbn [negb].
  replace (w8 t) with t by (signing H; reflexivity).
  change DIGEST_INFO_A_LEN with 13%nat. change DIGEST_INFO_B_LEN with 4%nat. cbn [plus].
  rewrite (upd_mid a _ x t 13 La).
  change (a ++ t :: b ++ c) with (a ++ [t] ++ b ++ c). rewrite app_assoc.
  rewrite (at_ptr_app 14) by (rewrite length_app, La; reflexivity).
  rewrite (R_memcpy_app b c) by auto. rewrite <- !app_assoc, (R_memcpy_app a) by auto.
  rewrite !app_assoc. rewrite (at_ptr_app 18) by reflexivity.
  rewrite <- (app_nil_r c), (R_memcpy_app c []), app_nil_r by auto. now rewrite <- !app_assoc.
Qed.

Lemma digest_info_bytes t m : signing_algorithm t -> bytes m ->
  bytes (digest_info t m) /\ length (digest_info t m) = DIGEST_INFO_LEN.
Proof.
  intros H Hm. destruct (digest_of_block t m H Hm) as [B L]. unfold digest_info. split.
  - apply Forall_app. split; [check_bytes|]. constructor; [signing H; unfold is_byte, DA_MD2, DA_MD4, DA_MD5; lia|].
    apply Forall_app. split; [check_bytes|exact B].
  - rewrite !length_app, L. reflexivity.
Qed.

(** Two messages have the same DigestInfo only when their digests are equal. *)
Lemma digest_info_inj t m m' : digest_info t m = digest_info t m' -> digest_of t m = digest_of t m'.
Proof. unfold digest_info. intros E. now apply app_inv_head, app_inv_head, app_inv_head in E. Qed.

(** ** Feeding a signature context *)

Definition sig_feed (c : R_SIGNATURE_CTX) (xs : list (list Z)) : R_SIGNATURE_CTX :=
  fold_left (fun c x => fst (sig_update c x (length x))) xs c.

Definition sig_represents (t : Z) (c : R_SIGNATURE_CTX) (m : list Z) : Prop :=
  digest_represents t (digestContext c) m.

Lemma signing_digest t : signing_algorithm t -> digest_algorithm t.
Proof. now right. Qed.

#[local] Hint Resolve signing_digest : core.

Lemma sig_init_represents t c : signing_algorithm t -> digest_sized (digestContext c) ->
  snd (sig_init c t) = ID_OK /\ sig_represents t (fst (sig_init c t)) [].
Proof.
  intros H S. unfold sig_init. rewrite signing_not_SHS by auto.
  destruct (R_DigestInit_represents t (digestContext c)) as [E R]; auto.
  destruct (R_DigestInit _ _). auto.
Qed.

Lemma sig_update_represents t c m x : signing_algorithm t -> sig_represents t c m -> piece x ->
  snd (sig_update c x (length x)) = ID_OK /\ sig_represents t (fst (sig_update c x (length x))) (m ++ x).
Proof.
  intros H R Hx. unfold sig_update. rewrite (proj1 R), signing_not_SHS by auto.
  destruct (R_DigestUpdate_represents t (digestContext c) m x) as [E R']; auto.
  destruct (R_DigestUpdate _ _ _). auto.
Qed.

Lemma sig_feed_represents t c m xs : signing_algorithm t -> sig_represents t c m -> Forall piece xs ->
  sig_represents t (sig_feed c xs) (m ++ concat xs).
Proof.
  intros H R Hx. revert c m R. induction Hx as [|x xs Hx _ IH]; intros c m R; cbn [concat].
  { now rewrite app_nil_r. }
  rewrite app_assoc. apply IH. now apply sig_update_represents.
Qed.

(** ** The lengths of the RSA outputs *)

Lemma NN_Encode_digit_length k u t len :
  (length (fst (NN_Encode_digit k u t len)) + snd (NN_Encode_digit k u t len) = len)%nat.
Proof.
  revert u len. induction k as [|k IH]; intros u [|len]; cbn [NN_Encode_digit]; try (cbn; lia).
  specialize (IH (u + 8) len). destruct (NN_Encode_digit k (u + 8) t len). cbn in *. lia.
Qed.

Lemma NN_Encode_loop_length digits b len : length (NN_Encode_loop digits b len) = len.
Proof.
  revert b len. induction digits as [|d IH]; intros b len; cbn [NN_Encode_loop]; [apply repeat_length|].
  pose proof (NN_Encode_digit_length 4 0 (hd 0 b) len). destruct (NN_Encode_digit 4 0 (hd 0 b) len).
  cbn [fst snd] in *. rewrite length_app, IH. lia.
Qed.

Lemma NN_Encode_length a len b digits : (len <= length (NN_Encode a len b digits))%nat.
Proof. unfold NN_Encode, store. rewrite length_app, length_rev, NN_Encode_loop_length. lia. Qed.

Ltac rsa_steps :=
  repeat (match goal with
  | |- context [if ?b then _ else _] => destruct b; cbn [obind]; try (now intros [=])
  | |- context [obind ?x _] => destruct x; cbn [obind]; try (now intros [=])
  end).

Lemma RSAPrivateEncrypt_length o l input n priv s len :
  RSAPrivateEncrypt o l input n priv = Some (ID_OK, s, len) -> (len <= length s)%nat.
Proof.
  unfold RSAPrivateEncrypt, rsaprivatefunc. cbv zeta. rsa_steps; intros [= <- <-]; apply NN_Encode_length.
Qed.

Lemma RSAPublicEncrypt_length o l input n pub random s len r :
  RSAPublicEncrypt o l input n pub random = Some (ID_OK, s, len, r) -> (len <= length s)%nat.
Proof.
  unfold RSAPublicEncrypt, rsapublicfunc. cbv zeta. rsa_steps. destruct p as [b r1].
  destruct (_ >=? 0); cbn [obind]; [now intros [=]|].
  destruct (NN_ModExp _ _ _ _ _ _); cbn [obind]; intros [=]. subst. apply NN_Encode_length.
Qed.

Lemma pieces_bytes xs : Forall piece xs -> bytes (concat xs).
Proof. intros H. apply Forall_concat. eapply Forall_impl; [|exact H]. now intros x []. Qed.

(** Two contexts that have been fed the same message: what one signs the other verifies. *)
Lemma signature_verifies stack stack' pub priv t c1 c2 m o n :
  key_pair pub priv -> (45 <= modulusLen (pub_bits pub))%nat -> signing_algorithm t ->
  sig_represents t c1 m -> sig_represents t c2 m -> bytes m -> bytes o ->
  exists signature cs' cv', bytes signature /\ (modulusLen (pub_bits pub) <= length signature)%nat /\
    R_SignFinal stack c1 o n priv = Some (cs', ID_OK, signature, modulusLen (pub_bits pub)) /\
    R_VerifyFinal stack' c2 signature (modulusLen (pub_bits pub)) pub = Some (cv', ID_OK).
Proof.
  intros K HL H Rs Rv Bm Bo.
  destruct (digest_info_bytes t m H Bm) as [Bi Li].
  destruct (R_DigestFinal_represents t _ m (signing_digest t H) Rs) as (d1 & F1 & A1).
  destruct (R_DigestFinal_represents t _ m (signing_digest t H) Rv) as (d2 & F2 & A2).
  destruct (type1_roundtrip pub priv K o n (cells (Z.to_nat MAX_SIGNATURE_LEN) stack') 0 (digest_info t m)
    DIGEST_INFO_LEN Bo Bi ltac:(lia) ltac:(cbn; lia)) as (s & out & E1 & Bs & E2 & E3).
  exists s, (mkSignature (fst (R_DigestInit d1 t))), (mkSignature (fst (R_DigestInit d2 t))).
  destruct (pair_L pub priv K) as [_ L128].
  unfold R_SignFinal, R_VerifyFinal. rewrite (proj1 Rs), (proj1 Rv), (signing_not_SHS t H), F1, F2.
  rewrite (proj2 (Z.ltb_ge _ _)) by (unfold MAX_SIGNATURE_LEN; lia).
  cbn [Z.eqb negb ID_OK]. rewrite A1, A2, !R_EncodeDigestInfo_spec by (auto; apply length_cells).
  rewrite E1, E2. cbn [obind Z.eqb negb ID_OK]. rewrite Nat.eqb_refl. cbn [negb orb].
  assert (Eo : cells DIGEST_INFO_LEN out = digest_info t m).
  { rewrite (firstn_all2 (digest_info t m)) in E3 by lia. rewrite <- E3. apply cells_firstn.
    apply (f_equal (@length Z)) in E3. rewrite length_firstn in E3. lia. }
  assert (Ec : R_CheckDigestInfo out (digest_info t m) = 0).
  { unfold R_CheckDigestInfo. rewrite <- Eo. rewrite <- Eo in E3.
    rewrite (nth_of_firstn DIGEST_INFO_A_LEN DIGEST_INFO_LEN out), E3 by (cbn; lia).
    rewrite firstn_all2 by (rewrite length_cells; lia). now rewrite Z.eqb_refl. }
  rewrite Ec. rewrite (proj2 (R_memcmp_0 out (digest_info t m) DIGEST_INFO_LEN)).
  2:{ rewrite Eo. rewrite <- Li. symmetry. apply cells_all. }
  split; [exact Bs|split; [exact (RSAPrivateEncrypt_length _ _ _ _ _ _ _ E1)|split; reflexivity]].
Qed.

(** ** The claims *)

(** Claim C27: a signature verifies.  With a key pair whose modulus has room for the DigestInfo, and
    any of the three signing digests, the signer may be given the message in any pieces
    and the verifier in any others; signing succeeds with a signature of the length of the
    modulus and the verifier accepts it. *)
Theorem sign_verify (stack stack' : list Z) (pub : R_RSA_PUBLIC_KEY) (priv : R_RSA_PRIVATE_KEY) (t : Z)
    (cs cv : R_SIGNATURE_CTX) (xs ys : list (list Z)) (o : list Z) (n : nat) :
  key_pair pub priv -> (45 <= modulusLen (pub_bits pub))%nat -> signing_algorithm t ->
  digest_sized (digestContext cs) -> digest_sized (digestContext cv) -> Forall piece xs -> Forall piece ys ->
  concat xs = concat ys -> bytes o ->
  exists signature cs' cv',
    R_SignFinal stack (sig_feed (fst (R_SignInit cs t)) xs) o n priv =
      Some (cs', ID_OK, signature, modulusLen (pub_bits pub)) /\
    R_VerifyFinal stack' (sig_feed (fst (R_VerifyInit cv t)) ys) signature (modulusLen (pub_bits pub)) pub =
      Some (cv', ID_OK).
Proof.
  intros K HL H Ss Sv Hx Hy Exy Bo.
  pose proof (sig_feed_represents t _ [] xs H (proj2 (sig_init_represents t cs H Ss)) Hx) as Rs.
  pose proof (sig_feed_represents t _ [] ys H (proj2 (sig_init_represents t cv H Sv)) Hy) as Rv.
  rewrite !app_nil_l in *. rewrite <- Exy in Rv.
  destruct (signature_verifies stack stack' pub priv t _ _ _ o n K HL H Rs Rv (pieces_bytes xs Hx) Bo)
    as (s & cs' & cv' & _ & _ & E1 & E2). eauto.
Qed.

(** Claim C28: what verification accepts.  When the verifier, fed the message in any pieces, accepts
    a signature, then the signature raised to the public exponent modulo n is exactly the
    block 00 01 ff...ff 00 with at least eight bytes ff followed by the DigestInfo of this
    message under the verifier's own algorithm, and nothing more. *)
Theorem verify_accepts (stack : list Z) (pub : R_RSA_PUBLIC_KEY) (t : Z) (cv cv' : R_SIGNATURE_CTX)
    (ys : list (list Z)) (signature : list Z) (signatureLen : nat) :
  valid_public pub -> signing_algorithm t -> digest_sized (digestContext cv) -> Forall piece ys -> bytes signature ->
  R_VerifyFinal stack (sig_feed (fst (R_VerifyInit cv t)) ys) signature signatureLen pub = Some (cv', ID_OK) ->
  let L := modulusLen (pub_bits pub) in
  (signatureLen <= L)%nat /\ be (firstn signatureLen signature) < be (pub_modulus pub) /\
  exists n block, (8 <= n)%nat /\ (n + 3 + DIGEST_INFO_LEN = L)%nat /\ length block = L /\
    be block = be (firstn signatureLen signature) ^ be (pub_exponent pub) mod be (pub_modulus pub) /\
    block = 0 :: 1 :: repeat 0xff n ++ 0 :: digest_info t (concat ys).
Proof.
  intros V H Sv Hy Bs. unfold R_VerifyInit.
  pose proof (sig_feed_represents t _ [] ys H (proj2 (sig_init_represents t cv H Sv)) Hy) as Rv.
  rewrite !app_nil_l in *. set (c2 := sig_feed _ ys) in *. clearbody c2.
  pose proof (pieces_bytes ys Hy) as Bm.
  set (m := concat ys) in *. destruct (digest_info_bytes t m H Bm) as [Bi Li].
  destruct (R_DigestFinal_represents t _ m (signing_digest t H) Rv) as (d2 & F2 & A2).
  unfold R_VerifyFinal. rewrite (proj1 Rv), (signing_not_SHS t H), F2.
  destruct (MAX_SIGNATURE_LEN <? Z.of_nat signatureLen); [intros [=]|].
  cbn [Z.eqb negb ID_OK]. rewrite A2, !R_EncodeDigestInfo_spec by (auto; apply length_cells).
  destruct (RSAPublicDecrypt _ _ _ _ _) as [[[st out] len]|] eqn:ED; [|intros [=]]. cbn [obind].
  destruct (Z.eqb_spec st 0) as [->|]; [|intros [=]]. cbn [negb].
  destruct (Nat.eqb_spec len DIGEST_INFO_LEN) as [->|]; [|intros [=]]. cbn [negb orb].
  destruct (R_CheckDigestInfo _ _ =? 0); [|intros [=]]. cbn [negb orb].
  destruct (Z.eqb_spec (R_memcmp out (digest_info t m) DIGEST_INFO_LEN) 0) as [EC|]; [|intros [=]]. intros _.
  apply R_memcmp_0 in EC. rewrite <- Li in EC at 2. rewrite cells_all in EC.
  destruct (RSAPublicDecrypt_sound _ _ _ _ _ _ _ V Bs ED) as (H1 & H2 & k & b & H3 & H4 & H5 & H6 & H7).
  splits; auto. exists k, b. splits; auto. rewrite H7. do 4 f_equal. rewrite <- EC. symmetry. apply cells_firstn.
  apply (f_equal (@length Z)) in H7. cbn [length] in H7. rewrite length_app, repeat_length in H7.
  cbn [length] in H7. rewrite length_firstn in H7. lia.
Qed.

(** SHS is refused for signatures, and so is an unknown algorithm, before anything is
    computed. *)
Theorem sig_init_refusals (c : R_SIGNATURE_CTX) (t : Z) : ~ signing_algorithm t ->
  snd (sig_init c t) = RE_DIGEST_ALGORITHM.
Proof.
  unfold signing_algorithm, sig_init, R_DigestInit. intros H.
  destruct (Z.eqb_spec t DA_SHS); [reflexivity|].
  destruct (Z.eqb_spec t DA_MD2); [tauto|]. destruct (Z.eqb_spec t DA_MD4); [tauto|].
  destruct (Z.eqb_spec t DA_MD5); [tauto|]. reflexivity.
Qed.

(** Witnesses, with the concrete key pair: the message "abc" in two ways of cutting it. *)
Definition test_context : R_SIGNATURE_CTX := mkSignature (mkDigest 0 (mkMD2 (repeat 1 16) (repeat 2 16) 3 (repeat 4 16))
  (mkMD (repeat 0 4) 0 0 (repeat 5 64)) (mkMD (repeat 0 4) 0 0 (repeat 6 64)) (mkSHS [] 0 0 (repeat 7 64))).

Lemma test_context_sized : digest_sized (digestContext test_context).
Proof. split; [repeat split|reflexivity|reflexivity|split; [reflexivity|check_bytes]]. Qed.

Lemma test_pieces : Forall piece [[97]; []; [98; 99]] /\ Forall piece [[97; 98]; [99]].
Proof. split; repeat (apply Forall_cons; [split; [check_bytes|reflexivity]|]); apply Forall_nil. Qed.

Definition signature_abc : list Z :=
  [172; 94; 230; 6; 65; 155; 18; 214; 179; 10; 139; 158; 202; 14; 200; 46; 149; 158; 4; 244; 22; 64; 57; 23; 75;
   130; 4; 192; 73; 26; 32; 214; 176; 113; 76; 125; 130; 244; 246; 115; 245; 7; 72; 149; 34; 80; 15; 117; 87; 23;
   240; 37; 149; 175; 205; 16; 197; 95; 53; 185; 186; 197; 225; 28].

Lemma sign_verify_witness :
  exists signature cs' cv',
    R_SignFinal [] (sig_feed (fst (R_SignInit test_context DA_MD5)) [[97]; []; [98; 99]]) [] 0 TestKey.private =
      Some (cs', ID_OK, signature, 64%nat) /\
    R_VerifyFinal [] (sig_feed (fst (R_VerifyInit test_context DA_MD5)) [[97; 98]; [99]]) signature 64 TestKey.public =
      Some (cv', ID_OK).
Proof.
  apply (sign_verify [] [] TestKey.public TestKey.private DA_MD5 test_context test_context
    [[97]; []; [98; 99]] [[97; 98]; [99]] [] 0 TestKey.pair).
  - apply Nat.leb_le. reflexivity.
  - right; right; reflexivity.
  - apply test_context_sized.
  - apply test_context_sized.
  - apply test_pieces.
  - apply test_pieces.
  - reflexivity.
  - apply Forall_nil.
Defined.

Lemma signature_abc_verifies : exists cv',
  R_VerifyFinal [] (sig_feed (fst (R_VerifyInit test_context DA_MD5)) [[97; 98]; [99]]) signature_abc 64 TestKey.public =
  Some (cv', ID_OK).
Proof. eexists. vm_compute. reflexivity. Qed.

Lemma verify_accepts_witness :
  be signature_abc < be (pub_modulus TestKey.public) /\
  exists n block, (8 <= n)%nat /\ (n + 3 + 34 = 64)%nat /\ length block = 64%nat /\
    be block = be signature_abc ^ be (pub_exponent TestKey.public) mod be (pub_modulus TestKey.public) /\
    block = 0 :: 1 :: repeat 0xff n ++ 0 :: digest_info DA_MD5 [97; 98; 99].
Proof.
  destruct signature_abc_verifies as [cv' E].
  apply (verify_accepts [] TestKey.public DA_MD5 test_context cv' [[97; 98]; [99]] signature_abc 64
    (kp_public _ _ TestKey.pair)).
  - right; right; reflexivity.
  - apply test_context_sized.
  - apply test_pieces.
  - check_bytes.
  - exact E.
Defined.
