(* ===== verification/Envelope.v ===== *)
(** * Envelope: sealed messages (src/QBase/RSAEuro/r_enhanc.c)

    Envelopes are made of a cipher whose key is encrypted for each recipient; the message goes
    through in pieces of any size, with a buffer of up to eight bytes between two calls, and
    ends with padding. *)

From S2P Require Import Prelude Rsaeuro StdLib MDBuffer Random RSA DES Enhanc.

(** As for the digests, the members of the union are fields. *)
Record R_ENVELOPE_CTX := mkEnvelope {
  encryptionAlgorithm : Z; e_des : DES_CBC_CTX; e_des3 : DES3_CBC_CTX; e_desx : DESX_CBC_CTX;
  e_buffer : list Z; bufferLen : nat }.

Definition PADDING8 : list (list Z) := map (fun n => repeat (Z.of_nat n) n) (seq 0 9).

Section Envelope.
(** What the local arrays hold when a function is entered. *)
Context (stack : list Z).

(** ** Envelopes *)

Definition set_des (c : R_ENVELOPE_CTX) (x : DES_CBC_CTX) : R_ENVELOPE_CTX :=
  mkEnvelope (encryptionAlgorithm c) x (e_des3 c) (e_desx c) (e_buffer c) (bufferLen c).
Definition set_des3 (c : R_ENVELOPE_CTX) (x : DES3_CBC_CTX) : R_ENVELOPE_CTX :=
  mkEnvelope (encryptionAlgorithm c) (e_des c) x (e_desx c) (e_buffer c) (bufferLen c).
Definition set_desx (c : R_ENVELOPE_CTX) (x : DESX_CBC_CTX) : R_ENVELOPE_CTX :=
  mkEnvelope (encryptionAlgorithm c) (e_des c) (e_des3 c) x (e_buffer c) (bufferLen c).
Definition set_buf (c : R_ENVELOPE_CTX) (b : list Z) (n : nat) : R_ENVELOPE_CTX :=
  mkEnvelope (encryptionAlgorithm c) (e_des c) (e_des3 c) (e_desx c) b n.
Definition set_algorithm (c : R_ENVELOPE_CTX) (t : Z) : R_ENVELOPE_CTX :=
  mkEnvelope t (e_des c) (e_des3 c) (e_desx c) (e_buffer c) (bufferLen c).

Definition CipherInit (context : R_ENVELOPE_CTX) (encryptionAlgorithm : Z) (key iv : list Z) (encrypt : bool)
  : R_ENVELOPE_CTX * Z :=
  if encryptionAlgorithm =? EA_DES_CBC then (set_des context (DES_CBCInit (e_des context) key iv encrypt), ID_OK)
  else if encryptionAlgorithm =? EA_DESX_CBC then (set_desx context (DESX_CBCInit (e_desx context) key iv encrypt), ID_OK)
  else if (encryptionAlgorithm =? EA_DES_EDE2_CBC) || (encryptionAlgorithm =? EA_DES_EDE3_CBC) then
    (set_des3 context (DES3_CBCInit (e_des3 context) key iv encrypt), ID_OK)
  else (context, RE_ENCRYPTION_ALGORITHM).

(** The bytes written and the context; [unsigned long] has 32 bits. *)
Definition EncryptBlk (context : R_ENVELOPE_CTX) (input : list Z) (len : nat) : list Z * R_ENVELOPE_CTX :=
  let t := encryptionAlgorithm context in
  if t =? EA_DES_CBC then
    let '(st, o, c) := DES_CBCUpdate 32 (e_des context) input len in (o, set_des context c)
  else if t =? EA_DESX_CBC then
    let '(st, o, c) := DESX_CBCUpdate 32 (e_desx context) input len in (o, set_desx context c)
  else if (t =? EA_DES_EDE2_CBC) || (t =? EA_DES_EDE3_CBC) then
    let '(st, o, c) := DES3_CBCUpdate 32 (e_des3 context) input len in (o, set_des3 context c)
  else ([], context).

Definition RestartCipher (context : R_ENVELOPE_CTX) : R_ENVELOPE_CTX :=
  let t := encryptionAlgorithm context in
  if t =? EA_DES_CBC then set_des context (DES_CBCRestart (e_des context))
  else if t =? EA_DESX_CBC then set_desx context (DESX_CBCRestart (e_desx context))
  else if (t =? EA_DES_EDE2_CBC) || (t =? EA_DES_EDE3_CBC) then set_des3 context (DES3_CBCRestart (e_des3 context))
  else context.

(** The loop over the recipients; the keys not reached keep their buffers. *)
Fixpoint seal_keys (encryptedKeys : list (list Z * nat)) (publicKeys : list R_RSA_PUBLIC_KEY) (key : list Z)
    (keyLen : nat) (randomStruct : R_RANDOM_STRUCT) : option (Z * list (list Z * nat) * R_RANDOM_STRUCT) :=
  match publicKeys, encryptedKeys with
  | pub :: publicKeys, (o, n) :: encryptedKeys =>
      let? (r, randomStruct) := RSAPublicEncrypt o n key keyLen pub randomStruct in
      let '(st, o, n) := r in
      if negb (st =? 0) then Some (RE_PUBLIC_KEY, (o, n) :: encryptedKeys, randomStruct)
      else
        let? (status, rest, randomStruct) := seal_keys encryptedKeys publicKeys key keyLen randomStruct in
        Some (status, (o, n) :: rest, randomStruct)
  | _, _ => Some (0, encryptedKeys, randomStruct)
  end.

(** Context, status, encrypted keys, initialization vector and random structure. *)
Definition R_SealInit (context : R_ENVELOPE_CTX) (encryptedKeys : list (list Z * nat)) (iv : list Z)
    (publicKeys : list R_RSA_PUBLIC_KEY) (encryptionAlgorithm : Z) (randomStruct : R_RANDOM_STRUCT)
  : option (R_ENVELOPE_CTX * Z * list (list Z * nat) * list Z * R_RANDOM_STRUCT) :=
  let context := set_algorithm context encryptionAlgorithm in
  let keyLen := if encryptionAlgorithm =? EA_DES_CBC then 8%nat else 24%nat in
  let? (status, key, randomStruct) := R_GenerateBytes keyLen randomStruct in
  if negb (status =? 0) then Some (context, status, encryptedKeys, iv, randomStruct)
  else
    let? (status, iv', randomStruct) := R_GenerateBytes 8 randomStruct in
    if negb (status =? 0) then Some (context, status, encryptedKeys, iv, randomStruct)
    else
      let iv := store iv iv' in
      let key := if encryptionAlgorithm =? EA_DES_EDE2_CBC then at_ptr 16 (fun p => R_memcpy p key 8) key else key in
      let (context, status) := CipherInit context encryptionAlgorithm key iv true in
      let? (status, encryptedKeys, randomStruct) :=
        if status =? 0 then seal_keys encryptedKeys publicKeys key keyLen randomStruct
        else Some (status, encryptedKeys, randomStruct) in
      let context := if status =? 0 then set_buf context (e_buffer context) 0 else context in
      Some (context, status, encryptedKeys, iv, randomStruct).

(** Context, the bytes written to [partOut] and [*partOutLen]. *)
Definition R_SealUpdate (context : R_ENVELOPE_CTX) (partIn : list Z) (partInLen : nat)
  : R_ENVELOPE_CTX * list Z * nat :=
  let temp := (8 - bufferLen context)%nat in
  if (partInLen <? temp)%nat then
    (set_buf context (at_ptr (bufferLen context) (fun p => R_memcpy p partIn partInLen) (e_buffer context))
       (bufferLen context + partInLen), [], 0%nat)
  else
    let context := set_buf context
      (at_ptr (bufferLen context) (fun p => R_memcpy p partIn temp) (e_buffer context)) (bufferLen context) in
    let (o1, context) := EncryptBlk context (e_buffer context) 8 in
    let partIn := skipn temp partIn in
    let partInLen := (partInLen - temp)%nat in
    let temp := (8 * (partInLen / 8))%nat in
    let (o2, context) := EncryptBlk context partIn temp in
    let partIn := skipn temp partIn in
    let partInLen := (partInLen - temp)%nat in
    (set_buf context (R_memcpy (e_buffer context) partIn partInLen) partInLen, o1 ++ o2, (8 + temp)%nat).

Definition R_SealFinal (context : R_ENVELOPE_CTX) : R_ENVELOPE_CTX * list Z * nat :=
  let padLen := (8 - bufferLen context)%nat in
  let context := set_buf context
    (at_ptr (bufferLen context) (fun p => R_memset p (Z.of_nat padLen) padLen) (e_buffer context)) (bufferLen context) in
  let (o, context) := EncryptBlk context (e_buffer context) 8 in
  let context := RestartCipher context in
  (set_buf context (e_buffer context) 0, o, 8%nat).

Definition R_OpenInit (context : R_ENVELOPE_CTX) (encryptionAlgorithm : Z) (encryptedKey : list Z)
    (encryptedKeyLen : nat) (iv : list Z) (privateKey : R_RSA_PRIVATE_KEY) : option (R_ENVELOPE_CTX * Z) :=
  if MAX_ENCRYPTED_KEY_LEN <? Z.of_nat encryptedKeyLen then Some (context, RE_LEN)
  else
    let context := set_algorithm context encryptionAlgorithm in
    let? (st, key, keyLen) :=
      RSAPrivateDecrypt (cells (Z.to_nat MAX_ENCRYPTED_KEY_LEN) stack) 0 encryptedKey encryptedKeyLen privateKey in
    if negb (st =? 0) then Some (context, RE_PRIVATE_KEY)
    else if negb (Nat.eqb keyLen (if encryptionAlgorithm =? EA_DES_CBC then 8 else 24)) then Some (context, RE_PRIVATE_KEY)
    else
      let (context, status) := CipherInit context encryptionAlgorithm key iv false in
      Some (if status =? 0 then set_buf context (e_buffer context) 0 else context, status).

Definition R_OpenUpdate (context : R_ENVELOPE_CTX) (partIn : list Z) (partInLen : nat)
  : R_ENVELOPE_CTX * list Z * nat :=
  let tempLen := (8 - bufferLen context)%nat in
  if (partInLen <=? tempLen)%nat then
    (set_buf context (at_ptr (bufferLen context) (fun p => R_memcpy p partIn partInLen) (e_buffer context))
       (bufferLen context + partInLen), [], 0%nat)
  else
    let context := set_buf context
      (at_ptr (bufferLen context) (fun p => R_memcpy p partIn tempLen) (e_buffer context)) (bufferLen context) in
    let (o1, context) := EncryptBlk context (e_buffer context) 8 in
    let partIn := skipn tempLen partIn in
    let partInLen := (partInLen - tempLen)%nat in
    let tempLen := (8 * ((partInLen - 1) / 8))%nat in
    let (o2, context) := EncryptBlk context partIn tempLen in
    let partIn := skipn tempLen partIn in
    let partInLen := (partInLen - tempLen)%nat in
    (set_buf context (R_memcpy (e_buffer context) partIn partInLen) partInLen, o1 ++ o2, (8 + tempLen)%nat).

(** Context, status, the bytes written and [*partOutLen], which keeps its value [n] on the
    error exits. *)
Definition R_OpenFinal (context : R_ENVELOPE_CTX) (n : nat) : R_ENVELOPE_CTX * Z * list Z * nat :=
  if Nat.eqb (bufferLen context) 0 then (context, 0, [], 0%nat)
  else if negb (Nat.eqb (bufferLen context) 8) then (context, RE_KEY, [], n)
  else
    let (lastPart, context) := EncryptBlk context (e_buffer context) 8 in
    let padLen := Z.to_nat (nth 7 lastPart 0) in
    if Nat.eqb padLen 0 || (8 <? padLen)%nat then (context, RE_KEY, [], n)
    else if negb (R_memcmp (skipn (8 - padLen) lastPart) (nth padLen PADDING8 []) padLen =? 0) then (context, RE_KEY, [], n)
    else
      let context := RestartCipher context in
      (set_buf context (e_buffer context) 0, 0, cells (8 - padLen) lastPart, (8 - padLen)%nat).

End Envelope.

(** ** The cipher of a context

    Whatever the algorithm, the context has a block step, a chaining value and the value the
    chaining started with; [EncryptBlk] is the loop of the step. *)

Definition cipher_algorithm (t : Z) : Prop :=
  t = EA_DES_CBC \/ t = EA_DESX_CBC \/ t = EA_DES_EDE2_CBC \/ t = EA_DES_EDE3_CBC.

Definition by_cipher {A} (t : Z) (des desx des3 : A) : A :=
  if t =? EA_DES_CBC then des else if t =? EA_DESX_CBC then desx else des3.

Definition env_step (c : R_ENVELOPE_CTX) : Z * Z -> Z * Z -> (Z * Z) * (Z * Z) :=
  by_cipher (encryptionAlgorithm c) (cbc_step (e_des c)) (cbc_step (e_desx c)) (cbc_step (e_des3 c)).
Definition env_iv (c : R_ENVELOPE_CTX) : Z * Z :=
  by_cipher (encryptionAlgorithm c) (cbc_iv (e_des c)) (cbc_iv (e_desx c)) (cbc_iv (e_des3 c)).
Definition env_originalIV (c : R_ENVELOPE_CTX) : Z * Z :=
  by_cipher (encryptionAlgorithm c) (des_originalIV (e_des c)) (desx_originalIV (e_desx c)) (des3_originalIV (e_des3 c)).

(** What a context is for its user: the cipher, the chaining value and the bytes waiting. *)
Record holds (step : Z * Z -> Z * Z -> (Z * Z) * (Z * Z)) (orig iv : Z * Z) (p : list Z) (c : R_ENVELOPE_CTX)
  : Prop := {
  h_alg : cipher_algorithm (encryptionAlgorithm c);
  h_step : env_step c = step;
  h_orig : env_originalIV c = orig;
  h_iv : env_iv c = iv;
  h_room : length (e_buffer c) = 8%nat;
  h_len : bufferLen c = length p;
  h_pending : firstn (length p) (e_buffer c) = p }.

Ltac ciphers H := destruct H as [H|[H|[H|H]]].
Ltac pick_cipher := cbv beta iota delta [by_cipher EA_DES_CBC EA_DESX_CBC EA_DES_EDE2_CBC EA_DES_EDE3_CBC
  Z.eqb Pos.eqb orb] in *.

Lemma EncryptBlk_spec step orig iv p c input n : holds step orig iv p c ->
  exists c', EncryptBlk c input (8 * n) = (fst (cbc_loop step n iv input), c') /\
    holds step orig (snd (cbc_loop step n iv input)) p c' /\ e_buffer c' = e_buffer c.
Proof.
  intros [Ha <- <- <- Hr Hl Hp]. unfold EncryptBlk, env_step, env_originalIV, env_iv in *.
  assert (Hn : (8 * n mod 8 = 0)%nat) by (rewrite Nat.mul_comm; apply Nat.Div0.mod_mul).
  assert (Hd : (8 * n / 8 = n)%nat) by (rewrite Nat.mul_comm; apply Nat.div_mul; lia).
  ciphers Ha; rewrite Ha; pick_cipher;
    unfold DES_CBCUpdate, DESX_CBCUpdate, DES3_CBCUpdate; rewrite Hn, Hd; cbn [Nat.eqb negb cbc_step cbc_iv
      DES_mode DESX_mode DES3_mode];
    destruct (cbc_loop _ _ _ _) as [o v]; (eexists; split; [reflexivity|split; [|reflexivity]]);
    (constructor; unfold cipher_algorithm, env_step, env_originalIV, env_iv; cbn [encryptionAlgorithm set_des set_desx set_des3 e_buffer bufferLen];
     rewrite ?Ha; first [tauto|reflexivity|assumption]).
Qed.

Lemma RestartCipher_spec step orig iv p c : holds step orig iv p c -> holds step orig orig p (RestartCipher c).
Proof.
  intros [Ha <- <- <- Hr Hl Hp]. unfold RestartCipher, env_step, env_originalIV, env_iv in *.
  ciphers Ha; rewrite Ha; pick_cipher;
    (constructor; unfold cipher_algorithm, env_step, env_originalIV, env_iv; cbn [encryptionAlgorithm set_des set_desx set_des3 e_buffer bufferLen];
     rewrite ?Ha; first [tauto|reflexivity|assumption]).
Qed.

Lemma holds_set_buf step orig iv p q b c : holds step orig iv p c -> length b = 8%nat ->
  firstn (length q) b = q -> holds step orig iv q (set_buf c b (length q)).
Proof. intros [Ha Hs Ho Hi Hr Hl Hp] Lb Eq. constructor; auto. Qed.

(** ** One update *)

Lemma cbc_loop_firstn step n iv (l : list Z) m : (8 * n <= m)%nat -> (8 * n <= length l)%nat ->
  cbc_loop step n iv (firstn m l) = cbc_loop step n iv l.
Proof.
  intros Hm Hl. rewrite <- (firstn_skipn (8 * n) l) at 2. rewrite <- (firstn_skipn (8 * n) (firstn m l)).
  rewrite firstn_firstn, Nat.min_l by lia.
  rewrite !cbc_loop_prefix by (rewrite length_firstn; lia). reflexivity.
Qed.

(** Filling the buffer from the input. *)
Lemma fill_buffer step orig iv p c x t : holds step orig iv p c -> (t <= length x)%nat -> (length p + t <= 8)%nat ->
  holds step orig iv (p ++ firstn t x)
    (set_buf c (at_ptr (bufferLen c) (fun b => R_memcpy b x t) (e_buffer c)) (bufferLen c + t)).
Proof.
  intros H Ht Hp. pose proof H as [_ _ _ _ Hr Hl Hb]. rewrite Hl.
  destruct (at_ptr_memcpy (length p) t (e_buffer c) x ltac:(lia) Ht) as [L F].
  replace (length p + t)%nat with (length (p ++ firstn t x)) in * by (rewrite length_app, length_firstn; lia).
  apply (holds_set_buf step orig iv p); [auto|lia|]. now rewrite F, Hb.
Qed.

(** The common part of the two updates: [8 - bufferLen] bytes fill the buffer, [j] further
    blocks follow, the rest waits. *)
Definition feed (context : R_ENVELOPE_CTX) (partIn : list Z) (partInLen j : nat) : R_ENVELOPE_CTX * list Z * nat :=
  let temp := (8 - bufferLen context)%nat in
  let context := set_buf context
    (at_ptr (bufferLen context) (fun p => R_memcpy p partIn temp) (e_buffer context)) (bufferLen context) in
  let (o1, context) := EncryptBlk context (e_buffer context) 8 in
  let (o2, context) := EncryptBlk context (skipn temp partIn) (8 * j) in
  let partInLen := (partInLen - temp - 8 * j)%nat in
  (set_buf context (R_memcpy (e_buffer context) (skipn (8 * j) (skipn temp partIn)) partInLen) partInLen,
   o1 ++ o2, (8 + 8 * j)%nat).

Lemma feed_spec step orig iv p c x n j : holds step orig iv p c -> (length p <= 8)%nat -> (n <= length x)%nat ->
  (8 + 8 * j <= length p + n <= 8 + 8 * j + 8)%nat ->
  let q := p ++ firstn n x in
  exists c', feed c x n j = (c', fst (cbc_loop step (S j) iv q), 8 * S j)%nat /\
    holds step orig (snd (cbc_loop step (S j) iv q)) (skipn (8 * S j) q) c'.
Proof.
  intros H Hp Hn Hj q. pose proof H as [_ _ _ _ Hr Hl Hb]. unfold feed. rewrite Hl. set (t := (8 - length p)%nat).
  pose proof (fill_buffer step orig iv p c x t H ltac:(lia) ltac:(lia)) as F. rewrite Hl in F.
  set (buf := at_ptr _ _ _) in *.
  assert (Lf : length (firstn t x) = t) by (rewrite length_firstn; lia).
  assert (Eb : buf = p ++ firstn t x).
  { destruct F as [_ _ _ _ Lb _ Fb]. cbn [e_buffer set_buf] in Lb, Fb. rewrite <- Fb. symmetry.
    apply firstn_all2. rewrite length_app. lia. }
  assert (Lb : length buf = 8%nat) by (rewrite Eb, length_app; lia).
  assert (F' : holds step orig iv p (set_buf c buf (length p))).
  { apply (holds_set_buf step orig iv p); auto. now rewrite Eb, firstn_app_len. }
  destruct (EncryptBlk_spec step orig iv p _ buf 1 F') as (c1 & E1 & H1 & B1). cbn [e_buffer set_buf] in *.
  change (8 * 1)%nat with 8%nat in E1. rewrite E1.
  destruct (EncryptBlk_spec _ _ _ _ _ (skipn t x) j H1) as (c2 & E2 & H2 & B2). rewrite E2.
  assert (Eq : q = buf ++ firstn (n - t) (skipn t x)).
  { unfold q. replace n with (t + (n - t))%nat at 1 by lia. now rewrite Eb, <- app_assoc, firstn_plus. }
  assert (Ls : length (skipn t x) = (length x - t)%nat) by apply length_skipn.
  rewrite Eq. change (S j) with (1 + j)%nat. rewrite cbc_loop_plus by lia.
  destruct (cbc_loop step 1 iv buf) as [o1 v1]. cbn [fst snd] in *.
  rewrite cbc_loop_firstn by lia. destruct (cbc_loop step j v1 (skipn t x)) as [o2 v2]. cbn [fst snd] in *.
  replace (8 + 8 * j)%nat with (8 * (1 + j))%nat by lia. eexists. split; [reflexivity|].
  set (r := (n - t - 8 * j)%nat). set (w := skipn (8 * j) (skipn t x)).
  assert (Lw : (r <= length w)%nat) by (unfold w; rewrite !length_skipn; lia).
  assert (Ew : skipn (8 * (1 + j)) (buf ++ firstn (n - t) (skipn t x)) = firstn r w).
  { replace (8 * (1 + j))%nat with (8 * j + 8)%nat by lia. rewrite <- skipn_skipn.
    assert (E8 : forall l, skipn 8 (buf ++ l) = l) by (intros l; rewrite <- Lb; apply skipn_app_len).
    rewrite E8. apply skipn_firstn_comm. }
  rewrite Ew. replace r with (length (firstn r w)) at 3 by (rewrite length_firstn; lia).
  apply (holds_set_buf step orig v2 p); [auto|..]; rewrite B2, B1.
  - rewrite length_R_memcpy; lia.
  - rewrite length_firstn, Nat.min_l by lia. now apply firstn_R_memcpy.
Qed.

(** ** Streams of updates

    [kf n] is the number of blocks an update takes when [n] bytes are at hand. *)
Section Stream.
Context (update : R_ENVELOPE_CTX -> list Z -> nat -> R_ENVELOPE_CTX * list Z * nat) (kf : nat -> nat).
Context (kf_le : forall n, (8 * kf n <= n)%nat)
        (kf_add : forall n r, kf (n + r) = (kf n + kf (n - 8 * kf n + r))%nat).

Definition update_ok : Prop := forall step orig iv p c x n, holds step orig iv p c -> kf (length p) = 0%nat ->
  (n <= length x)%nat -> let q := p ++ firstn n x in
  exists c', update c x n = (c', fst (cbc_loop step (kf (length q)) iv q), 8 * kf (length q))%nat /\
    holds step orig (snd (cbc_loop step (kf (length q)) iv q)) (skipn (8 * kf (length q)) q) c'.

(** The output of a sequence of updates. *)
Fixpoint stream (c : R_ENVELOPE_CTX) (xs : list (list Z)) : R_ENVELOPE_CTX * list Z :=
  match xs with
  | [] => (c, [])
  | x :: xs =>
      let '(c, o, n) := update c x (length x) in
      let (c, out) := stream c xs in (c, o ++ out)
  end.

Lemma stream_spec step orig iv p c xs : update_ok -> holds step orig iv p c -> kf (length p) = 0%nat ->
  let q := p ++ concat xs in let k := kf (length q) in
  exists c', stream c xs = (c', fst (cbc_loop step k iv q)) /\
    holds step orig (snd (cbc_loop step k iv q)) (skipn (8 * k) q) c'.
Proof.
  intros U. revert iv p c. induction xs as [|x xs IH]; intros iv p c H Hk; cbn [stream concat].
  { rewrite app_nil_r. cbn zeta. rewrite Hk. exists c. auto. }
  destruct (U step orig iv p c x (length x) H Hk (le_n _)) as (c1 & E1 & H1). rewrite firstn_all in *. rewrite E1.
  set (q1 := p ++ x) in *. set (k1 := kf (length q1)) in *. pose proof (kf_le (length q1)) as Hle. fold k1 in Hle.
  assert (Lr : length (skipn (8 * k1) q1) = (length q1 - 8 * k1)%nat) by apply length_skipn.
  destruct (IH _ _ _ H1) as (c2 & E2 & H2).
  { rewrite Lr. pose proof (kf_add (length q1) 0) as A. fold k1 in A. rewrite !Nat.add_0_r in A. fold k1 in A. lia. }
  rewrite E2. rewrite app_assoc. fold q1.
  assert (Ek : kf (length (q1 ++ concat xs)) = (k1 + kf (length (skipn (8 * k1) q1 ++ concat xs)))%nat)
    by (rewrite !length_app, Lr; apply kf_add).
  assert (Eq : q1 ++ concat xs = firstn (8 * k1) q1 ++ skipn (8 * k1) q1 ++ concat xs)
    by (now rewrite app_assoc, firstn_skipn).
  assert (Lf : length (firstn (8 * k1) q1) = (8 * k1)%nat) by (rewrite length_firstn; lia).
  set (q2 := skipn (8 * k1) q1 ++ concat xs) in *. cbv zeta. rewrite Ek. set (k2 := kf (length q2)) in *.
  rewrite Eq, cbc_loop_plus by exact Lf.
  rewrite cbc_loop_firstn by lia.
  destruct (cbc_loop step k1 iv q1) as [o1 v1]. cbn [fst snd] in *.
  destruct (cbc_loop step k2 v1 q2) as [o2 v2]. cbn [fst snd] in *.
  exists c2. split; [reflexivity|]. replace (8 * (k1 + k2))%nat with (8 * k2 + 8 * k1)%nat by lia.
  rewrite <- skipn_skipn, <- Lf at 1. rewrite skipn_app_len. exact H2.
Qed.
End Stream.

(** ** Sealing and opening a message *)

Definition seal_blocks (n : nat) : nat := (n / 8)%nat.
Definition open_blocks (n : nat) : nat := ((n - 1) / 8)%nat.

Lemma seal_blocks_le n : (8 * seal_blocks n <= n)%nat.
Proof. apply Nat.Div0.mul_div_le. Qed.

Lemma seal_blocks_add n r : seal_blocks (n + r) = (seal_blocks n + seal_blocks (n - 8 * seal_blocks n + r))%nat.
Proof.
  unfold seal_blocks. pose proof (Nat.div_mod_eq n 8). set (k := (n / 8)%nat) in *.
  replace (n + r)%nat with (n - 8 * k + r + k * 8)%nat by lia. rewrite Nat.div_add by lia. lia.
Qed.

Lemma open_blocks_le n : (8 * open_blocks n <= n)%nat.
Proof. unfold open_blocks. pose proof (Nat.Div0.mul_div_le (n - 1) 8). lia. Qed.

Lemma open_blocks_add n r : open_blocks (n + r) = (open_blocks n + open_blocks (n - 8 * open_blocks n + r))%nat.
Proof.
  unfold open_blocks. destruct n as [|n]; [reflexivity|].
  replace (S n - 1)%nat with n by lia. pose proof (Nat.div_mod_eq n 8). set (k := (n / 8)%nat) in *.
  replace (S n + r - 1)%nat with (S n - 8 * k + r - 1 + k * 8)%nat by lia. rewrite Nat.div_add by lia. lia.
Qed.

Lemma seal_update_ok : update_ok R_SealUpdate seal_blocks.
Proof.
  intros step orig iv p c x n H Hk Hn q. pose proof H as [_ _ _ _ Hr Hl Hb].
  assert (Hp : (length p < 8)%nat) by (unfold seal_blocks, open_blocks in Hk; apply Nat.div_small_iff in Hk; lia).
  assert (Lq : length q = (length p + n)%nat) by (unfold q; rewrite length_app, length_firstn; lia).
  unfold R_SealUpdate. rewrite Lq, Hl.
  destruct (Nat.ltb_spec n (8 - length p)) as [C|C].
  - unfold seal_blocks. rewrite (Nat.div_small (length p + n)) by lia. cbn [cbc_loop fst snd skipn Nat.mul].
    eexists. split; [reflexivity|]. pose proof (fill_buffer _ _ _ _ _ x n H Hn ltac:(lia)) as F. now rewrite Hl in F.
  - set (j := ((n - (8 - length p)) / 8)%nat).
    assert (Ek : seal_blocks (length p + n) = S j).
    { unfold seal_blocks, j. replace (length p + n)%nat with (n - (8 - length p) + 1 * 8)%nat by lia.
      rewrite Nat.div_add by lia. lia. }
    rewrite Ek. pose proof (Nat.div_mod_eq (n - (8 - length p)) 8) as D. fold j in D.
    pose proof (Nat.mod_upper_bound (n - (8 - length p)) 8 ltac:(lia)).
    destruct (feed_spec _ _ _ _ _ x n j H ltac:(lia) Hn ltac:(lia)) as (c' & E & H'). unfold feed in E. rewrite Hl in E.
    exists c'. auto.
Qed.

Lemma open_update_ok : update_ok R_OpenUpdate open_blocks.
Proof.
  intros step orig iv p c x n H Hk Hn q. pose proof H as [_ _ _ _ Hr Hl Hb].
  assert (Hp : (length p <= 8)%nat) by (unfold seal_blocks, open_blocks in Hk; apply Nat.div_small_iff in Hk; lia).
  assert (Lq : length q = (length p + n)%nat) by (unfold q; rewrite length_app, length_firstn; lia).
  unfold R_OpenUpdate. rewrite Lq, Hl.
  destruct (Nat.leb_spec n (8 - length p)) as [C|C].
  - unfold open_blocks. rewrite (Nat.div_small (length p + n - 1)) by lia. cbn [cbc_loop fst snd skipn Nat.mul].
    eexists. split; [reflexivity|]. pose proof (fill_buffer _ _ _ _ _ x n H Hn ltac:(lia)) as F. now rewrite Hl in F.
  - set (j := ((n - (8 - length p) - 1) / 8)%nat).
    assert (Ek : open_blocks (length p + n) = S j).
    { unfold open_blocks, j. replace (length p + n - 1)%nat with (n - (8 - length p) - 1 + 1 * 8)%nat by lia.
      rewrite Nat.div_add by lia. lia. }
    rewrite Ek. pose proof (Nat.div_mod_eq (n - (8 - length p) - 1) 8) as D. fold j in D.
    pose proof (Nat.mod_upper_bound (n - (8 - length p) - 1) 8 ltac:(lia)).
    destruct (feed_spec _ _ _ _ _ x n j H ltac:(lia) Hn ltac:(lia)) as (c' & E & H'). unfold feed in E. rewrite Hl in E.
    exists c'. auto.
Qed.

(** The padding: between one and eight bytes, each the number of them. *)
Definition padding (n : nat) : list Z := let k := (8 - n mod 8)%nat in repeat (Z.of_nat k) k.
Definition padded (m : list Z) : list Z := m ++ padding (length m).

Lemma length_padded m : length (padded m) = (8 * S (length m / 8))%nat.
Proof.
  unfold padded, padding. rewrite length_app, repeat_length.
  pose proof (Nat.div_mod_eq (length m) 8). pose proof (Nat.mod_upper_bound (length m) 8 ltac:(lia)). lia.
Qed.

Lemma R_SealFinal_spec step orig iv p c : holds step orig iv p c -> (length p < 8)%nat ->
  exists c', R_SealFinal c = (c', fst (cbc_loop step 1 iv (padded p)), 8%nat) /\ holds step orig orig [] c'.
Proof.
  intros H Hp. pose proof H as [_ _ _ _ Hr Hl Hb]. unfold R_SealFinal. rewrite Hl.
  set (buf := at_ptr _ _ _).
  assert (Eb : buf = padded p).
  { unfold buf, padded, padding. rewrite Nat.mod_small by lia. unfold at_ptr. rewrite Hb. f_equal.
    rewrite R_memset_store. unfold store. rewrite repeat_length, skipn_all2, app_nil_r by (rewrite length_skipn; lia).
    f_equal. apply w8_small. unfold is_byte. lia. }
  assert (Lb : length buf = 8%nat) by (rewrite Eb, length_padded, Nat.div_small by lia; reflexivity).
  assert (F : holds step orig iv p (set_buf c buf (length p))).
  { apply (holds_set_buf step orig iv p); auto. rewrite Eb. apply firstn_app_len. }
  destruct (EncryptBlk_spec step orig iv p _ buf 1 F) as (c1 & E1 & H1 & B1). cbn [e_buffer set_buf] in *.
  change (8 * 1)%nat with 8%nat in E1. rewrite E1, Eb.
  eexists. split; [reflexivity|]. pose proof (RestartCipher_spec _ _ _ _ _ H1) as H2.
  apply (holds_set_buf step orig orig p [] _ _ H2); [apply H2|reflexivity].
Qed.

(** What sealing a message in pieces gives. *)
Definition seal (c : R_ENVELOPE_CTX) (xs : list (list Z)) : R_ENVELOPE_CTX * list Z :=
  let (c, out) := stream R_SealUpdate c xs in
  let '(c, o, n) := R_SealFinal c in (c, out ++ o).

Definition open (c : R_ENVELOPE_CTX) (ys : list (list Z)) : R_ENVELOPE_CTX * Z * list Z :=
  let (c, out) := stream R_OpenUpdate c ys in
  let '(c, st, o, n) := R_OpenFinal c 0 in (c, st, out ++ o).

Lemma seal_spec step orig iv c xs : holds step orig iv [] c ->
  let m := concat xs in
  exists c', seal c xs = (c', fst (cbc_loop step (S (length m / 8)) iv (padded m))) /\ holds step orig orig [] c'.
Proof.
  intros H m. unfold seal.
  destruct (stream_spec R_SealUpdate seal_blocks seal_blocks_le seal_blocks_add step orig iv [] c xs
    seal_update_ok H eq_refl) as (c1 & E1 & H1). rewrite app_nil_l in *. fold m in E1, H1. rewrite E1. unfold seal_blocks in *.
  set (k := (length m / 8)%nat) in *. pose proof (Nat.div_mod_eq (length m) 8) as D. fold k in D.
  pose proof (Nat.mod_upper_bound (length m) 8 ltac:(lia)).
  assert (Lr : length (skipn (8 * k) m) = (length m mod 8)%nat) by (rewrite length_skipn; lia).
  destruct (R_SealFinal_spec _ _ _ _ _ H1 ltac:(lia)) as (c2 & E2 & H2). rewrite E2.
  assert (Em : padded m = firstn (8 * k) m ++ padded (skipn (8 * k) m)).
  { unfold padded, padding. now rewrite Lr, Nat.Div0.mod_mod, app_assoc, firstn_skipn. }
  exists c2. split; [|exact H2]. rewrite Em. replace (S k) with (k + 1)%nat by lia.
  rewrite cbc_loop_plus by (rewrite length_firstn; lia). rewrite cbc_loop_firstn by lia.
  destruct (cbc_loop step k iv m) as [o1 v1]. cbn [fst snd].
  now destruct (cbc_loop step 1 v1 (padded (skipn (8 * k) m))).
Qed.

(** ** Padding *)

Lemma padding_last a k : (1 <= k)%nat -> (length a + k = 8)%nat -> nth 7 (a ++ repeat (Z.of_nat k) k) 0 = Z.of_nat k.
Proof. intros Hk Hl. rewrite app_nth2, nth_repeat_lt by lia. reflexivity. Qed.

Lemma nth_PADDING8 k : (k <= 8)%nat -> nth k PADDING8 [] = repeat (Z.of_nat k) k.
Proof. intros. do 9 (destruct k as [|k]; [reflexivity|]). lia. Qed.

Lemma length_cbc_loop step n iv l : length (fst (cbc_loop step n iv l)) = (8 * n)%nat.
Proof.
  revert iv l; induction n as [|n IH]; intros iv l; cbn [cbc_loop]; [reflexivity|].
  destruct (step iv (scrunch l)) as [w v]. specialize (IH v (skipn 8 l)).
  destruct (cbc_loop step n v (skipn 8 l)) as [o v']. cbn [fst] in *. rewrite length_app, length_unscrunch. lia.
Qed.

(** The test of [R_OpenFinal] on the last block. *)
Lemma padding_test last k : length last = 8%nat -> (k <= 8)%nat ->
  R_memcmp (skipn (8 - k) last) (nth k PADDING8 []) k = 0 <-> last = firstn (8 - k) last ++ repeat (Z.of_nat k) k.
Proof.
  intros L Hk. rewrite nth_PADDING8, R_memcmp_0 by auto.
  rewrite !cells_firstn by (rewrite ?length_skipn, ?repeat_length; lia).
  rewrite !firstn_all2 by (rewrite ?length_skipn, ?repeat_length; lia). split; intros E.
  - now rewrite <- E, firstn_skipn.
  - rewrite E at 1. replace (8 - k)%nat with (length (firstn (8 - k) last)) at 1 by (rewrite length_firstn; lia).
    apply skipn_app_len.
Qed.

Lemma R_OpenFinal_accepts step orig iv p c n a k : holds step orig iv p c -> length p = 8%nat ->
  (1 <= k <= 8)%nat -> fst (cbc_loop step 1 iv p) = a ++ repeat (Z.of_nat k) k ->
  exists c', R_OpenFinal c n = (c', 0, a, (8 - k)%nat) /\ holds step orig orig [] c'.
Proof.
  intros H Hp Hk El. pose proof H as [_ _ _ _ Hr Hl Hb]. unfold R_OpenFinal. rewrite Hl, Hp. cbn [Nat.eqb negb].
  destruct (EncryptBlk_spec step orig iv p c (e_buffer c) 1 H) as (c1 & E1 & H1 & B1).
  change (8 * 1)%nat with 8%nat in E1. rewrite E1.
  assert (Eb : e_buffer c = p) by (rewrite <- Hb; symmetry; apply firstn_all2; lia). rewrite Eb in *.
  set (last := fst (cbc_loop step 1 iv p)) in *.
  assert (L : length last = 8%nat).
  { unfold last. apply length_cbc_loop. }
  assert (La : (length a + k = 8)%nat) by (rewrite El, length_app, repeat_length in L; lia).
  assert (E7 : nth 7 last 0 = Z.of_nat k) by (rewrite El; apply padding_last; lia).
  rewrite E7, Nat2Z.id.
  rewrite (proj2 (Nat.eqb_neq k 0)), (proj2 (Nat.ltb_ge 8 k)) by lia. cbn [orb].
  assert (Ef : firstn (8 - k) last = a) by (replace (8 - k)%nat with (length a) by lia; rewrite El; apply firstn_app_len).
  rewrite (proj2 (padding_test last k L ltac:(lia))) by (rewrite Ef; exact El). cbn [Z.eqb negb].
  rewrite cells_firstn, Ef by lia. eexists. split; [reflexivity|].
  pose proof (RestartCipher_spec _ _ _ _ _ H1) as H2.
  apply (holds_set_buf step orig orig p [] _ _ H2); [apply H2|reflexivity].
Qed.

Lemma R_OpenFinal_accepted step orig iv p c n c' a len : holds step orig iv p c ->
  R_OpenFinal c n = (c', 0, a, len) -> p = [] /\ a = [] /\ len = 0%nat \/
  length p = 8%nat /\ exists k, (1 <= k <= 8)%nat /\ len = (8 - k)%nat /\
    fst (cbc_loop step 1 iv p) = a ++ repeat (Z.of_nat k) k.
Proof.
  intros H. pose proof H as [_ _ _ _ Hr Hl Hb]. unfold R_OpenFinal. rewrite Hl.
  destruct (Nat.eqb_spec (length p) 0) as [E|E].
  { intros [= _ <- <-]. left. apply length_zero_iff_nil in E. auto. }
  destruct (Nat.eqb_spec (length p) 8) as [E8|E8]; [|intros [=]]. cbn [negb].
  destruct (EncryptBlk_spec step orig iv p c (e_buffer c) 1 H) as (c1 & E1 & H1 & B1).
  change (8 * 1)%nat with 8%nat in E1. rewrite E1.
  assert (Eb : e_buffer c = p) by (rewrite <- Hb; symmetry; apply firstn_all2; lia). rewrite Eb in *.
  set (last := fst (cbc_loop step 1 iv p)) in *.
  assert (L : length last = 8%nat).
  { unfold last. apply length_cbc_loop. }
  set (k := Z.to_nat (nth 7 last 0)). destruct (Nat.eqb_spec k 0) as [|K0]; [intros [=]|].
  destruct (Nat.ltb_spec 8 k) as [|K8]; [intros [=]|]. cbn [orb].
  destruct (Z.eqb_spec (R_memcmp (skipn (8 - k) last) (nth k PADDING8 []) k) 0) as [EM|]; [|intros [=]].
  cbn [negb]. rewrite cells_firstn by lia. intros [= _ <- <-]. right. split; [auto|].
  exists k. splits; auto; [lia|]. now apply padding_test.
Qed.

(** One block more. *)
Lemma cbc_loop_last step N iv q : (8 * S N <= length q)%nat ->
  fst (cbc_loop step (S N) iv q) =
  fst (cbc_loop step N iv q) ++ fst (cbc_loop step 1 (snd (cbc_loop step N iv q)) (skipn (8 * N) q)).
Proof.
  intros L. rewrite <- (firstn_skipn (8 * N) q) at 1. replace (S N) with (N + 1)%nat by lia.
  rewrite cbc_loop_plus, cbc_loop_firstn by (rewrite ?length_firstn; lia).
  destruct (cbc_loop step N iv q) as [o v]. cbn [fst snd].
  now destruct (cbc_loop step 1 v (skipn (8 * N) q)).
Qed.

(** ** Opening: exactly the padded messages *)

Lemma open_streamed step orig iv c ys N : holds step orig iv [] c -> length (concat ys) = (8 * S N)%nat ->
  exists c1 p, stream R_OpenUpdate c ys = (c1, fst (cbc_loop step N iv (concat ys))) /\ length p = 8%nat /\
    holds step orig (snd (cbc_loop step N iv (concat ys))) p c1 /\
    fst (cbc_loop step (S N) iv (concat ys)) =
    fst (cbc_loop step N iv (concat ys)) ++ fst (cbc_loop step 1 (snd (cbc_loop step N iv (concat ys))) p).
Proof.
  intros H L.
  destruct (stream_spec R_OpenUpdate open_blocks open_blocks_le open_blocks_add step orig iv [] c ys
    open_update_ok H eq_refl) as (c1 & E1 & H1). rewrite app_nil_l in *. set (q := concat ys) in *.
  assert (Ek : open_blocks (length q) = N).
  { unfold open_blocks. rewrite L. replace (8 * S N - 1)%nat with (7 + N * 8)%nat by lia. now rewrite Nat.div_add by lia. }
  rewrite Ek in *. exists c1, (skipn (8 * N) q). splits; auto; [rewrite length_skipn; lia|].
  apply cbc_loop_last. lia.
Qed.

Lemma app_split_len {A} (a b c d : list A) : length a = length c -> a ++ b = c ++ d -> a = c /\ b = d.
Proof.
  revert c; induction a as [|x a IH]; intros [|y c] L E; cbn in *; try discriminate; [auto|].
  injection E as -> E. injection L as L. destruct (IH c L E) as [-> ->]. auto.
Qed.

Lemma open_complete step orig iv c ys N m : holds step orig iv [] c -> length (concat ys) = (8 * S N)%nat ->
  fst (cbc_loop step (S N) iv (concat ys)) = padded m ->
  exists c', open c ys = (c', 0, m) /\ holds step orig orig [] c'.
Proof.
  intros H L E. destruct (open_streamed step orig iv c ys N H L) as (c1 & p & E1 & Lp & H1 & E2).
  unfold open. rewrite E1. pose proof (length_cbc_loop step N iv (concat ys)) as Lo.
  pose proof (length_cbc_loop step (S N) iv (concat ys)) as Lm. rewrite E in E2, Lm.
  set (o := fst (cbc_loop step N iv (concat ys))) in *.
  pose proof (length_padded m) as Lm'. pose proof (Nat.div_mod_eq (length m) 8).
  pose proof (Nat.mod_upper_bound (length m) 8 ltac:(lia)).
  unfold padded in E2. rewrite <- (firstn_skipn (length o) m) in E2 at 1. rewrite <- app_assoc in E2.
  apply app_split_len in E2 as [Eo El]; [|rewrite length_firstn; lia].
  destruct (R_OpenFinal_accepts _ _ _ _ _ 0 (skipn (length o) m) (8 - length m mod 8) H1 Lp ltac:(lia) (eq_sym El))
    as (c' & E3 & H3). rewrite E3. exists c'. split; [|exact H3]. f_equal.
  transitivity (firstn (length o) m ++ skipn (length o) m); [now rewrite Eo|apply firstn_skipn].
Qed.

Lemma open_sound step orig iv c ys c' m : holds step orig iv [] c -> open c ys = (c', 0, m) ->
  concat ys = [] /\ m = [] \/
  (length (concat ys) mod 8 = 0)%nat /\ concat ys <> [] /\
  fst (cbc_loop step (length (concat ys) / 8) iv (concat ys)) = padded m.
Proof.
  intros H. unfold open. set (q := concat ys).
  destruct (stream_spec R_OpenUpdate open_blocks open_blocks_le open_blocks_add step orig iv [] c ys
    open_update_ok H eq_refl) as (c1 & E1 & H1). rewrite app_nil_l in *. fold q in E1, H1. rewrite E1.
  destruct (R_OpenFinal c1 0) as [[[c2 st] a] len] eqn:E2. intros [= _ -> <-].
  destruct (R_OpenFinal_accepted _ _ _ _ _ _ _ _ _ H1 E2) as [(Hp & -> & _)|(Hp & k & Hk & _ & Ha)].
  - left. apply (f_equal (@length Z)) in Hp. rewrite length_skipn in Hp. cbn [length] in Hp.
    unfold open_blocks in *. pose proof (Nat.Div0.mul_div_le (length q - 1) 8).
    assert (Lq : length q = 0%nat) by lia. apply length_zero_iff_nil in Lq.
    rewrite Lq. change ((length (@nil Z) - 1) / 8)%nat with 0%nat. auto.
  - right. rewrite length_skipn in Hp. set (N := open_blocks (length q)) in *.
    pose proof (length_cbc_loop step N iv q) as Lo.
    assert (Lq : length q = (S N * 8)%nat) by lia. rewrite Lq, Nat.Div0.mod_mul, Nat.div_mul by lia.
    split; [reflexivity|]. split; [intros E; rewrite E in Lq; discriminate|].
    rewrite cbc_loop_last, Ha, app_assoc by lia. unfold padded, padding. f_equal.
    apply (f_equal (@length Z)) in Ha. rewrite length_cbc_loop, length_app, repeat_length in Ha.
    rewrite length_app, Lo. replace (8 * N + length a)%nat with (length a + N * 8)%nat by lia.
    rewrite Nat.Div0.mod_add, Nat.mod_small by lia. now replace (8 - length a)%nat with k by lia.
Qed.

(** ** Initialising the two ends

    The ciphers read the first bytes of the key: eight for DES, 24 for the others. *)

Lemma nth_agree n (a b : list Z) i : firstn n a = firstn n b -> (i < n)%nat -> nth i a 0 = nth i b 0.
Proof. intros E Hi. rewrite (nth_of_firstn i n a), (nth_of_firstn i n b) by auto. now rewrite E. Qed.

Lemma firstn_skipn_agree n m (a b : list Z) : firstn (n + m) a = firstn (n + m) b ->
  firstn m (skipn n a) = firstn m (skipn n b).
Proof. intros E. rewrite !firstn_skipn_comm. now rewrite E. Qed.

Lemma firstn_agree n m (a b : list Z) : (n <= m)%nat -> firstn m a = firstn m b -> firstn n a = firstn n b.
Proof. intros Hn E. apply (f_equal (@firstn Z n)) in E. now rewrite !firstn_firstn, !Nat.min_l in E by auto. Qed.

Lemma deskey_agree s a b e : firstn 8 a = firstn 8 b -> deskey s a e = deskey s b e.
Proof.
  intros E. unfold deskey. replace (pc1m a) with (pc1m b); [reflexivity|]. unfold pc1m. apply map_ext_in.
  intros l Hl. assert (Hp : forallb (fun l => (l / 8 <? 8)%nat) pc1 = true) by reflexivity.
  rewrite forallb_forall in Hp. apply Hp, Nat.ltb_lt in Hl. now rewrite (nth_agree 8 a b).
Qed.

Lemma scrunch_agree a b : firstn 8 a = firstn 8 b -> scrunch a = scrunch b.
Proof.
  intros E. unfold scrunch, scrunch_word. rewrite !nth_skipn. cbn [plus].
  now rewrite !(nth_agree 8 a b _ E) by lia.
Qed.

Definition key_length (t : Z) : nat := if t =? EA_DES_CBC then 8 else 24.

Lemma DES_key c a b iv e : firstn 8 a = firstn 8 b -> DES_CBCInit c a iv e = DES_CBCInit c b iv e.
Proof. intros E. unfold DES_CBCInit. now rewrite (deskey_agree _ a b). Qed.

Lemma key_parts (a b : list Z) : firstn 24 a = firstn 24 b -> firstn 8 a = firstn 8 b /\
  firstn 8 (skipn 8 a) = firstn 8 (skipn 8 b) /\ firstn 8 (skipn 16 a) = firstn 8 (skipn 16 b).
Proof.
  intros E. splits.
  - exact (firstn_agree 8 24 a b ltac:(lia) E).
  - apply firstn_skipn_agree. exact (firstn_agree 16 24 a b ltac:(lia) E).
  - now apply firstn_skipn_agree.
Qed.

Lemma DESX_key c a b iv e : firstn 24 a = firstn 24 b -> DESX_CBCInit c a iv e = DESX_CBCInit c b iv e.
Proof.
  intros E. apply key_parts in E as (E1 & E2 & E3). unfold DESX_CBCInit.
  now rewrite (deskey_agree _ a b _ E1), (scrunch_agree _ _ E2), (scrunch_agree _ _ E3).
Qed.

Lemma DES3_key c a b iv e : firstn 24 a = firstn 24 b -> DES3_CBCInit c a iv e = DES3_CBCInit c b iv e.
Proof.
  intros E. apply key_parts in E as (E1 & E2 & E3). unfold DES3_CBCInit.
  destruct e; now rewrite (deskey_agree _ a b _ E1), (deskey_agree _ _ _ _ E2), (deskey_agree _ _ _ _ E3).
Qed.

Lemma CipherInit_key c t a b iv e : firstn (key_length t) a = firstn (key_length t) b ->
  CipherInit c t a iv e = CipherInit c t b iv e.
Proof.
  unfold CipherInit, key_length. destruct (t =? EA_DES_CBC); intros E.
  - now rewrite (DES_key _ a b).
  - now rewrite (DESX_key _ a b), (DES3_key _ a b).
Qed.

(** The arrays of a context have their sizes. *)
Record env_sized (c : R_ENVELOPE_CTX) : Prop := {
  es_des : length (des_subkeys (e_des c)) = 32%nat;
  es_desx : length (desx_subkeys (e_desx c)) = 32%nat;
  es_des3 : subkeys_ok (e_des3 c);
  es_buffer : length (e_buffer c) = 8%nat }.

(** An initialised context, ready for a message. *)
Definition started (c : R_ENVELOPE_CTX) (t : Z) (key iv : list Z) (encrypt : bool) : R_ENVELOPE_CTX :=
  let c := fst (CipherInit (set_algorithm c t) t key iv encrypt) in set_buf c (e_buffer c) 0.

Definition inverse_steps (step_e step_d : Z * Z -> Z * Z -> (Z * Z) * (Z * Z)) : Prop :=
  forall iv x, word_pair iv -> word_pair x ->
    word_pair (fst (step_e iv x)) /\ word_pair (snd (step_e iv x)) /\
    step_d iv (fst (step_e iv x)) = (x, snd (step_e iv x)).

Lemma CipherInit_ok c t key iv e : cipher_algorithm t -> snd (CipherInit c t key iv e) = ID_OK.
Proof. intros H. ciphers H; subst t; reflexivity. Qed.

Lemma CipherInit_refuses c t key iv e : snd (CipherInit c t key iv e) = ID_OK -> cipher_algorithm t.
Proof.
  unfold CipherInit, cipher_algorithm.
  destruct (Z.eqb_spec t EA_DES_CBC); [auto|]. destruct (Z.eqb_spec t EA_DESX_CBC); [auto|].
  destruct (Z.eqb_spec t EA_DES_EDE2_CBC); [auto|]. destruct (Z.eqb_spec t EA_DES_EDE3_CBC); [auto|].
  intros [=].
Qed.

Lemma started_pair ce cd t key iv : cipher_algorithm t -> env_sized ce -> env_sized cd ->
  bytes key -> length key = key_length t -> bytes iv -> (8 <= length iv)%nat ->
  exists step_e step_d, holds step_e (scrunch iv) (scrunch iv) [] (started ce t key iv true) /\
    holds step_d (scrunch iv) (scrunch iv) [] (started cd t key iv false) /\ inverse_steps step_e step_d.
Proof.
  intros H [L1 L2 L3 L4] [M1 M2 M3 M4] Bk Lk Bi Li.
  exists (env_step (started ce t key iv true)), (env_step (started cd t key iv false)).
  assert (HS : forall c e, length (e_buffer c) = 8%nat ->
    holds (env_step (started c t key iv e)) (scrunch iv) (scrunch iv) [] (started c t key iv e)).
  { intros c e L. constructor; ciphers H; subst t; first [reflexivity|exact L|unfold cipher_algorithm; auto]. }
  splits; auto. intros v x Hv Hx.
  ciphers H; subst t.
  - exact (DES_undoes (e_des ce) (e_des cd) key iv L1 M1 v x Hv Hx).
  - exact (DESX_undoes (e_desx ce) (e_desx cd) key iv L2 M2 Bk ltac:(rewrite Lk; reflexivity) v x Hv Hx).
  - exact (DES3_undoes (e_des3 ce) (e_des3 cd) key iv L3 M3 v x Hv Hx).
  - exact (DES3_undoes (e_des3 ce) (e_des3 cd) key iv L3 M3 v x Hv Hx).
Qed.

(** ** The encrypted keys *)

(** An encrypted key that the holder of the private key recovers. *)
Definition opens (key : list Z) (pub : R_RSA_PUBLIC_KEY) (ek : list Z * nat) : Prop :=
  forall priv o l, key_pair pub priv -> bytes o ->
    snd ek = modulusLen (pub_bits pub) /\ bytes (fst ek) /\ (snd ek <= length (fst ek))%nat /\
    exists out, RSAPrivateDecrypt o l (fst ek) (snd ek) priv = Some (ID_OK, out, length key) /\
      firstn (length key) out = key.

Lemma RSAPublicEncrypt_opens o l key pub random c n r' : bytes o -> bytes key -> key <> [] -> bytes (output random) ->
  RSAPublicEncrypt o l key (length key) pub random = Some (ID_OK, c, n, r') ->
  opens key pub (c, n) /\ bytes (output r').
Proof.
  intros Bo Bk Nk Br. set (L := modulusLen (pub_bits pub)). intros E.
  assert (H : exists b', (length key + 11 <= L)%nat /\ bytesNeeded random = 0 /\
    put_random (L - length key - 3) 2 (upd (upd pkcs0 0 0) 1 2) random = Some (b', r')).
  { revert E. unfold RSAPublicEncrypt. fold L. destruct (Nat.ltb_spec L (length key + 11)) as [|HL]; [intros [=]|].
    unfold R_GetRandomBytesNeeded. destruct (Z.eqb_spec (bytesNeeded random) 0) as [H0|]; [|intros [=]]. cbn [negb].
    replace (L - length key - 1 - 2)%nat with (L - length key - 3)%nat by lia.
    destruct (put_random _ _ _ _) as [[b' r1]|]; [|intros [=]]. cbn [obind].
    destruct (rsapublicfunc _ _ _ _ _) as [x|]; [|intros [=]]. cbn [obind]. intros [= _ <-]. eauto. }
  destruct H as (b' & HL & H0 & HP). split; [|exact (put_random_output _ _ _ _ _ _ Br HP)].
  intros priv o2 l2 K B2.
  destruct (type2_roundtrip pub priv K o l o2 l2 key (length key) random b' r' Bo Bk (le_n _) HL Br H0 HP)
    as (c2 & E2 & Bc & D). pose proof (RSAPublicEncrypt_length _ _ _ _ _ _ _ _ _ E) as Lc. rewrite E in E2. apply (f_equal (fun x => match x with Some (_, c, n, _) => (c, n) | None => ([], 0%nat) end)) in E2.
  cbn [fst snd] in *. injection E2 as -> ->. split; [reflexivity|split; [exact Bc|split; [exact Lc|]]].
  rewrite (proj2 (Nat.eqb_neq (length key) 0)) in D by (intros E0; apply length_zero_iff_nil in E0; contradiction).
  destruct D as (out & D1 & D2). exists out. split; [exact D1|]. now rewrite D2, firstn_all.
Qed.

Lemma seal_keys_spec key pubs eks random eks' r' : bytes key -> key <> [] -> bytes (output random) ->
  Forall (fun e => bytes (fst e)) eks -> length eks = length pubs ->
  seal_keys eks pubs key (length key) random = Some (ID_OK, eks', r') -> Forall2 (opens key) pubs eks'.
Proof.
  intros Bk Nk. revert eks random eks'. induction pubs as [|pub pubs IH]; intros eks random eks' Br Be Le.
  { destruct eks; [|discriminate]. intros [= <- _]. constructor. }
  destruct eks as [|[o n] eks]; [discriminate|]. inversion Be as [|? ? Bo Be']; subst. cbn [seal_keys fst] in *.
  destruct (RSAPublicEncrypt _ _ _ _ _ _) as [[[[st o1] n1] r1]|] eqn:E; [|discriminate]. cbn [obind].
  destruct (Z.eqb_spec st 0) as [->|]; [|intros [=]]. cbn [negb].
  destruct (RSAPublicEncrypt_opens _ _ _ _ _ _ _ _ Bo Bk Nk Br E) as [O1 Br1].
  destruct (seal_keys eks _ _ _ _) as [[[st2 rest] r2]|] eqn:E2; [|discriminate]. cbn [obind].
  intros [= -> <- ->]. constructor; [exact O1|]. apply (IH eks r1 rest Br1 Be' ltac:(cbn in Le; lia) E2).
Qed.

(** What a successful [R_SealInit] has set up. *)
Lemma R_SealInit_spec c eks iv pubs t random c' eks' iv' r' : well_formed random -> bytes (output random) ->
  bytes iv -> length iv = 8%nat -> Forall (fun e => bytes (fst e)) eks -> length eks = length pubs ->
  R_SealInit c eks iv pubs t random = Some (c', ID_OK, eks', iv', r') ->
  cipher_algorithm t /\ bytes iv' /\ length iv' = 8%nat /\
  exists key, bytes key /\ length key = key_length t /\ c' = started c t key iv' true /\ Forall2 (opens key) pubs eks'.
Proof.
  intros Wr Br Bi Li Be Le. unfold R_SealInit. fold (key_length t).
  destruct (R_GenerateBytes (key_length t) random) as [[[st key] r1]|] eqn:E1; [|intros [=]]. cbn [obind].
  destruct (Z.eqb_spec st 0) as [->|]; [|intros [=]; contradiction]. cbn [negb].
  assert (H0 : bytesNeeded random = 0).
  { revert E1. unfold R_GenerateBytes. destruct (Z.eqb_spec (bytesNeeded random) 0); [auto|intros [=]]. }
  destruct (R_GenerateBytes_total (key_length t) random H0 Wr) as (? & ? & E1' & Lk & H1 & Wr1).
  rewrite E1 in E1'. injection E1' as <- <-.
  destruct (R_GenerateBytes_bytes _ _ _ _ Br E1) as [Bk Br1].
  destruct (R_GenerateBytes_total 8 r1 H1 Wr1) as (iv1 & r2 & E2 & L2 & H2 & Wr2). rewrite E2. cbn [obind Z.eqb ID_OK negb].
  destruct (R_GenerateBytes_bytes _ _ _ _ Br1 E2) as [Bv Br2].
  assert (Ev : store iv iv1 = iv1) by (unfold store; rewrite skipn_all2, app_nil_r by lia; reflexivity). rewrite Ev.
  set (key' := if t =? EA_DES_EDE2_CBC then at_ptr 16 (fun p => R_memcpy p key 8) key else key).
  assert (K' : bytes key' /\ length key' = key_length t).
  { unfold key'. destruct (Z.eqb_spec t EA_DES_EDE2_CBC) as [->|]; [|auto]. change (key_length EA_DES_EDE2_CBC) with 24%nat in *.
    split; [apply Forall_app; auto using Forall_firstn, Forall_skipn, bytes_R_memcpy|]. destruct (at_ptr_memcpy 16 8 key key ltac:(lia) ltac:(lia)). lia. }
  destruct K' as [Bk' Lk']. set (cc := CipherInit _ _ _ _ _). rewrite (surjective_pairing cc).
  destruct (Z.eqb_spec (snd cc) 0) as [Ec|Nc]; [|intros [=]; contradiction].
  apply CipherInit_refuses in Ec. rewrite <- Lk'.
  destruct (seal_keys _ _ _ _ _) as [[[st2 eks2] r3]|] eqn:E3; [|intros [=]]. cbn [obind]. intros [= <- -> <- <- <-].
  splits; auto. exists key'. splits; auto.
  apply (seal_keys_spec key' pubs eks r2 eks2 r3); auto. intros E0. rewrite E0 in Lk'.
  unfold key_length in Lk'. destruct (t =? EA_DES_CBC); discriminate Lk'.
Qed.

(** What [R_OpenInit] sets up from an encrypted key that opens. *)
Lemma R_OpenInit_spec stack c t key pub priv ek iv : cipher_algorithm t -> bytes stack -> key_pair pub priv ->
  length key = key_length t -> opens key pub ek ->
  R_OpenInit stack c t (fst ek) (snd ek) iv priv = Some (started c t key iv false, ID_OK).
Proof.
  intros H Bs K Lk O. unfold R_OpenInit.
  destruct (O priv (cells (Z.to_nat MAX_ENCRYPTED_KEY_LEN) stack) 0%nat K ltac:(auto with words)) as (Ln & _ & _ & out & E & Eo).
  destruct (pair_L pub priv K) as [_ L128]. rewrite Ln in *.
  rewrite (proj2 (Z.ltb_ge _ _)) by (unfold MAX_ENCRYPTED_KEY_LEN; lia). rewrite E. cbn [obind Z.eqb ID_OK negb].
  fold (key_length t). rewrite Lk, Nat.eqb_refl. cbn [negb].
  rewrite (CipherInit_key _ t out key) by (rewrite <- Lk, Eo; symmetry; apply firstn_all2; lia).
  unfold started. pose proof (CipherInit_ok (set_algorithm c t) t key iv false H) as Es.
  destruct (CipherInit _ _ _ _ _) as [c1 st]. cbn [fst snd] in *. now subst st.
Qed.

(** ** Conversations *)

(** One context seals several messages, one after the other; the other opens them. *)
Fixpoint seal_messages (c : R_ENVELOPE_CTX) (messages : list (list (list Z))) : list (list Z) :=
  match messages with
  | [] => []
  | xs :: r => let (c, o) := seal c xs in o :: seal_messages c r
  end.

Fixpoint open_messages (c : R_ENVELOPE_CTX) (ciphers : list (list (list Z))) : list (Z * list Z) :=
  match ciphers with
  | [] => []
  | ys :: r => let '(c, st, m) := open c ys in (st, m) :: open_messages c r
  end.

Lemma open_encrypted se sd v cd m ys : inverse_steps se sd -> word_pair v -> holds sd v v [] cd -> bytes m ->
  concat ys = fst (cbc_loop se (S (length m / 8)) v (padded m)) ->
  exists cd', open cd ys = (cd', 0, m) /\ holds sd v v [] cd'.
Proof.
  intros HI Hv Hd Bm Ey. pose proof (length_padded m) as Lp.
  assert (Bp : bytes (padded m)).
  { apply Forall_app. split; [auto|]. apply Forall_repeat. unfold is_byte. lia. }
  destruct (cbc_loop_inv se sd HI (S (length m / 8)) v (padded m) Bp ltac:(lia) Hv)
    as (out & v' & E1 & _ & L1 & _ & E2). rewrite E1 in Ey. cbn [fst] in Ey.
  apply (open_complete sd v v cd ys (length m / 8) m Hd); rewrite Ey; [exact L1|].
  rewrite E2. cbn [fst]. apply firstn_all2. lia.
Qed.

Lemma seal_open_once se sd v ce cd xs ys : inverse_steps se sd -> word_pair v ->
  holds se v v [] ce -> holds sd v v [] cd -> bytes (concat xs) -> concat ys = snd (seal ce xs) ->
  holds se v v [] (fst (seal ce xs)) /\
  exists cd', open cd ys = (cd', 0, concat xs) /\ holds sd v v [] cd'.
Proof.
  intros HI Hv He Hd Bm Ey. destruct (seal_spec se v v ce xs He) as (ce' & E & He').
  rewrite E in *. cbn [fst snd] in *. split; [exact He'|]. now apply (open_encrypted se sd v).
Qed.

Lemma seal_open_all se sd v ce cd messages ciphers : inverse_steps se sd -> word_pair v ->
  holds se v v [] ce -> holds sd v v [] cd -> Forall (fun xs => bytes (concat xs)) messages ->
  map (@concat Z) ciphers = seal_messages ce messages ->
  open_messages cd ciphers = map (fun xs => (ID_OK, concat xs)) messages.
Proof.
  intros HI Hv He Hd Hm. revert ce cd ciphers He Hd. induction Hm as [|xs messages Bx _ IH]; intros ce cd [|ys ciphers] He Hd;
    [reflexivity|discriminate|cbn [map seal_messages]; destruct (seal ce xs); discriminate|].
  intros E. pose proof (fun E => seal_open_once se sd v ce cd xs ys HI Hv He Hd Bx E) as H1.
  cbn [seal_messages] in E. destruct (seal ce xs) as [ce' o]. cbn [map fst snd] in *.
  injection E as Ey E. destruct (H1 Ey) as (He' & cd' & Eo & Hd'). cbn [open_messages map].
  rewrite Eo. f_equal. now apply (IH ce').
Qed.

(** ** The claims *)

(** An envelope opens.  When [R_SealInit] succeeds for a list of recipients, each of them,
    with the private key that belongs to the public key, initialises an opening context from the
    encrypted key of the same position and the initialization vector; and whatever messages
    are then sealed one after the other, each in any pieces, every ciphertext is opened,
    received in any pieces, with status 0 and the message.  This holds for DES, DESX and both
    forms of triple DES. *)
Theorem seal_open (stack : list Z) (c co : R_ENVELOPE_CTX) (eks : list (list Z * nat)) (iv : list Z)
    (pubs : list R_RSA_PUBLIC_KEY) (t : Z) (random : R_RANDOM_STRUCT)
    (c1 : R_ENVELOPE_CTX) (eks1 : list (list Z * nat)) (iv1 : list Z) (random1 : R_RANDOM_STRUCT)
    (i : nat) (pub : R_RSA_PUBLIC_KEY) (ek : list Z) (n : nat) (priv : R_RSA_PRIVATE_KEY)
    (messages ciphers : list (list (list Z))) :
  well_formed random -> bytes (output random) -> bytes iv -> length iv = 8%nat ->
  Forall (fun e => bytes (fst e)) eks -> length eks = length pubs -> bytes stack -> env_sized c -> env_sized co ->
  R_SealInit c eks iv pubs t random = Some (c1, ID_OK, eks1, iv1, random1) ->
  nth_error pubs i = Some pub -> nth_error eks1 i = Some (ek, n) -> key_pair pub priv ->
  Forall (fun xs => bytes (concat xs)) messages ->
  map (@concat Z) ciphers = seal_messages c1 messages ->
  exists co1, R_OpenInit stack co t ek n iv1 priv = Some (co1, ID_OK) /\
    open_messages co1 ciphers = map (fun xs => (ID_OK, concat xs)) messages.
Proof.
  intros Wr Br Bi Li Be Le Bs Sc So ES Hp He K Hm Ec.
  destruct (R_SealInit_spec _ _ _ _ _ _ _ _ _ _ Wr Br Bi Li Be Le ES) as (H & Bv & Lv & key & Bk & Lk & -> & F).
  assert (O : opens key pub (ek, n)).
  { clear -F Hp He. revert i Hp He. induction F as [|p e ps es Hx _ IH]; intros [|i] Hp He; cbn in *; try discriminate.
    - injection Hp as ->. injection He as ->. exact Hx.
    - eauto. }
  exists (started co t key iv1 false). split; [exact (R_OpenInit_spec stack co t key pub priv (ek, n) iv1 H Bs K Lk O)|].
  destruct (started_pair c co t key iv1 H Sc So Bk Lk Bv ltac:(lia)) as (se & sd & He1 & Hd1 & HI).
  apply (seal_open_all se sd (scrunch iv1) (started c t key iv1 true)); auto.
  apply scrunch_word_pair; auto. lia.
Qed.

(** Claim C26: what opening accepts.  When a ciphertext, received in any pieces by an initialised
    context, is accepted, then either it is empty and so is the message, or its length is a
    multiple of eight and its decryption is exactly the message followed by its padding; a
    ciphertext of any other length, and every other padding, is refused. *)
Theorem open_accepts (c c' : R_ENVELOPE_CTX) (ys : list (list Z)) (m : list Z) :
  cipher_algorithm (encryptionAlgorithm c) -> length (e_buffer c) = 8%nat -> bufferLen c = 0%nat ->
  open c ys = (c', 0, m) ->
  concat ys = [] /\ m = [] \/
  (length (concat ys) mod 8 = 0)%nat /\ concat ys <> [] /\
  fst (cbc_loop (env_step c) (length (concat ys) / 8) (env_iv c) (concat ys)) = padded m.
Proof. intros H L B E. apply (open_sound (env_step c) (env_originalIV c) (env_iv c) c ys c' m); [now constructor|exact E]. Qed.

(** Witnesses: two messages, sealed with triple DES for one recipient. *)
Definition test_envelope : R_ENVELOPE_CTX := mkEnvelope 0 test_DES test_DES3 test_DESX (repeat 0 8) 5.

Lemma test_envelope_sized : env_sized test_envelope.
Proof. repeat split. Qed.

Definition test_messages : list (list (list Z)) := [[[1; 2; 3]; [4; 5; 6; 7; 8; 9; 10; 11; 12; 13; 14; 15; 16; 17]]; [[]]].

Lemma test_sealed_ok : exists c1 ek n iv1 r1, R_SealInit test_envelope [([], 0%nat)] (repeat 0 8) [TestKey.public] EA_DES_EDE3_CBC test_random = Some (c1, ID_OK, [(ek, n)], iv1, r1).
Proof.
  destruct (R_SealInit test_envelope [([], 0%nat)] (repeat 0 8) [TestKey.public] EA_DES_EDE3_CBC test_random) as [[[[[c1 st] eks] iv1] r1]|] eqn:E.
  - assert (H : match R_SealInit test_envelope [([], 0%nat)] (repeat 0 8) [TestKey.public] EA_DES_EDE3_CBC test_random with Some (_, st, [_], _, _) => st | _ => 1 end = 0) by (vm_compute; reflexivity).
    rewrite E in H. destruct eks as [|[ek n] [|]]; [discriminate H| |discriminate H]. exists c1, ek, n, iv1, r1. now rewrite H.
  - assert (H : match R_SealInit test_envelope [([], 0%nat)] (repeat 0 8) [TestKey.public] EA_DES_EDE3_CBC test_random with Some _ => 0 | _ => 1 end = 0) by (vm_compute; reflexivity). rewrite E in H. discriminate H.
Qed.

Lemma seal_open_witness : exists c1 ek n iv1 r1 co1,
  R_SealInit test_envelope [([], 0%nat)] (repeat 0 8) [TestKey.public] EA_DES_EDE3_CBC test_random = Some (c1, ID_OK, [(ek, n)], iv1, r1) /\
  R_OpenInit [] test_envelope EA_DES_EDE3_CBC ek n iv1 TestKey.private = Some (co1, ID_OK) /\
  open_messages co1 (map (fun o => [firstn 5 o; skipn 5 o]) (seal_messages c1 test_messages)) =
    [(0, [1; 2; 3; 4; 5; 6; 7; 8; 9; 10; 11; 12; 13; 14; 15; 16; 17]); (0, [])].
Proof.
  destruct test_sealed_ok as (c1 & ek & n & iv1 & r1 & E).
  destruct (seal_open [] test_envelope test_envelope [([], 0%nat)] (repeat 0 8) [TestKey.public] EA_DES_EDE3_CBC
    test_random c1 [(ek, n)] iv1 r1 0 TestKey.public ek n TestKey.private test_messages
    (map (fun o => [firstn 5 o; skipn 5 o]) (seal_messages c1 test_messages))) as (co1 & E1 & E2).
  - split; [apply Nat.leb_le|]; reflexivity.
  - check_bytes.
  - check_bytes.
  - reflexivity.
  - apply Forall_cons; [apply Forall_nil|apply Forall_nil].
  - reflexivity.
  - apply Forall_nil.
  - apply test_envelope_sized.
  - apply test_envelope_sized.
  - exact E.
  - reflexivity.
  - reflexivity.
  - exact TestKey.pair.
  - repeat (apply Forall_cons; [check_bytes|]). apply Forall_nil.
  - rewrite map_map. rewrite <- (map_id (seal_messages c1 test_messages)) at 2. apply map_ext.
    intros o. cbn [concat]. now rewrite app_nil_r, firstn_skipn.
  - exists c1, ek, n, iv1, r1, co1. auto.
Defined.

(** A context that decrypts, and the ciphertext of one byte, in two pieces. *)
Definition test_opening : R_ENVELOPE_CTX := started test_envelope EA_DES_CBC test_key (repeat 0 8) false.
Definition test_cipher : list Z := snd (seal (started test_envelope EA_DES_CBC test_key (repeat 0 8) true) [[7]]).

Lemma test_opening_opens : exists c', open test_opening [firstn 3 test_cipher; skipn 3 test_cipher] = (c', 0, [7]).
Proof. eexists. vm_compute. reflexivity. Qed.

Lemma open_accepts_witness :
  concat [firstn 3 test_cipher; skipn 3 test_cipher] = [] /\ [7] = [] \/
  (length test_cipher mod 8 = 0)%nat /\ concat [firstn 3 test_cipher; skipn 3 test_cipher] <> [] /\
  fst (cbc_loop (env_step test_opening) 1 (env_iv test_opening) (concat [firstn 3 test_cipher; skipn 3 test_cipher])) = padded [7].
Proof.
  destruct test_opening_opens as [c' E].
  exact (open_accepts test_opening c' [firstn 3 test_cipher; skipn 3 test_cipher] [7] (or_introl eq_refl) eq_refl eq_refl E).
Defined.
