(* ===== verification/PemEnvelope.v ===== *)
(** * PemEnvelope: printable envelopes (src/QBase/RSAEuro/r_enhanc.c)

    The printable form of an envelope: a content and its signature, both encrypted under one
    DES key and encoded in groups of 24 bytes, which become 32 characters. *)

From S2P Require Import Prelude Rsaeuro NN NNMod StdLib MDBuffer Encode Random RSA DES Enhanc Envelope.

Definition MAX_PEM_ENCRYPTED_SIGNATURE_LEN : Z := ENCRYPTED_CONTENT_LEN MAX_SIGNATURE_LEN.

Section PemEnvelope.
(** What the local arrays hold when a function is entered. *)
Context (stack : list Z).

(** [for (i = 0; i < inputLen / 24; ++i)]; [encryptedPart] is the array of 24 bytes. *)
Fixpoint encrypt_groups (n : nat) (context : R_ENVELOPE_CTX) (encryptedPart input : list Z)
  : R_ENVELOPE_CTX * list Z * list Z :=
  match n with
  | O => (context, encryptedPart, [])
  | S n =>
      let '(context, o, tempLen) := R_SealUpdate context input 24 in
      let encryptedPart := store encryptedPart o in
      let enc := fst (R_EncodePEMBlock encryptedPart 24) in
      let '(context, encryptedPart, out) := encrypt_groups n context encryptedPart (skipn 24 input) in
      (context, encryptedPart, enc ++ out)
  end.

(** Context, output and its length.  The final [R_memset] clears the pointer, not the
    context. *)
Definition R_EncryptOpenPEMBlock (context : R_ENVELOPE_CTX) (input : list Z) (inputLen : nat)
  : R_ENVELOPE_CTX * list Z * Z :=
  let i := (inputLen / 24)%nat in
  let '(context, encryptedPart, out) := encrypt_groups i context (cells 24 stack) input in
  let '(context, o, lastPartLen) := R_SealUpdate context (skipn (24 * i) input) (inputLen - 24 * i) in
  let encryptedPart := store encryptedPart o in
  let '(context, o, len) := R_SealFinal context in
  let encryptedPart := at_ptr lastPartLen (fun p => store p o) encryptedPart in
  let lastPartLen := (lastPartLen + len)%nat in
  let (enc, len) := R_EncodePEMBlock encryptedPart (Z.of_nat lastPartLen) in
  (context, out ++ enc, 32 * Z.of_nat i + len).

(** [for (i = 0; i < inputLen/32; i++)] with the variable [status]. *)
Fixpoint decrypt_groups (n : nat) (context : R_ENVELOPE_CTX) (status : Z) (input : list Z)
  : R_ENVELOPE_CTX * Z * list Z * nat :=
  match n with
  | O => (context, status, [], 0%nat)
  | S n =>
      let '(status, encryptedPart, len) := R_DecodePEMBlock input 32 in
      if negb (status =? 0) then (context, status, [], 0%nat)
      else
        let '(context, o, len) := R_OpenUpdate context encryptedPart 24 in
        let '(context, status, out, outputLen) := decrypt_groups n context status (skipn 32 input) in
        (context, status, o ++ out, (len + outputLen)%nat)
  end.

(** Context, status, output and its length.  [status0] is what the variable [status], which
    is not initialised, holds. *)
Definition R_DecryptOpenPEMBlock (status0 : Z) (context : R_ENVELOPE_CTX) (input : list Z) (inputLen : nat)
  : R_ENVELOPE_CTX * Z * list Z * nat :=
  let i := (inputLen / 32)%nat in
  let '(context, status, out, outputLen) := decrypt_groups i context status0 input in
  if status =? 0 then
    let '(status, encryptedPart, len) := R_DecodePEMBlock (skipn (32 * i) input) (inputLen - 32 * i) in
    if negb (status =? 0) then (context, status, out, outputLen)
    else
      let '(context, o, len) := R_OpenUpdate context encryptedPart len in
      let '(context, status, o', len') := R_OpenFinal context len in
      if status =? 0 then (context, status, out ++ o ++ o', (outputLen + len + len')%nat)
      else (context, status, out ++ o, (outputLen + len)%nat)
  else (context, status, out, outputLen).

(** Status, the encoded content, key and signature, the initialization vector and the random
    structure. *)
Definition R_SealPEMBlock (context : R_ENVELOPE_CTX) (sctx : R_SIGNATURE_CTX) (iv content : list Z) (contentLen : nat)
    (digestAlgorithm : Z) (publicKey : R_RSA_PUBLIC_KEY) (privateKey : R_RSA_PRIVATE_KEY) (randomStruct : R_RANDOM_STRUCT)
  : option (Z * (list Z * list Z * list Z) * list Z * R_RANDOM_STRUCT) :=
  let? (status, signature, signatureLen) :=
    R_SignBlock stack sctx (cells (Z.to_nat MAX_SIGNATURE_LEN) stack) 0 content contentLen digestAlgorithm privateKey in
  if negb (status =? 0) then Some (status, ([], [], []), iv, randomStruct)
  else
    let? (context, status, keys, iv, randomStruct) :=
      R_SealInit context [(cells (Z.to_nat MAX_ENCRYPTED_KEY_LEN) stack, 0%nat)] iv [publicKey] EA_DES_CBC randomStruct in
    if negb (status =? 0) then Some (status, ([], [], []), iv, randomStruct)
    else
      let (encryptedKeyBlock, encryptedKeyBlockLen) := hd ([], 0%nat) keys in
      let encryptedKey := fst (R_EncodePEMBlock encryptedKeyBlock (Z.of_nat encryptedKeyBlockLen)) in
      let '(context, encryptedContent, _) := R_EncryptOpenPEMBlock context content contentLen in
      let '(context, encryptedSignature, _) := R_EncryptOpenPEMBlock context signature signatureLen in
      Some (status, (encryptedContent, encryptedKey, encryptedSignature), iv, randomStruct).

(** Status, the content and its length. *)
Definition R_OpenPEMBlock (status0 : Z) (context : R_ENVELOPE_CTX) (sctx : R_SIGNATURE_CTX)
    (encryptedContent : list Z) (encryptedContentLen : nat) (encryptedKey : list Z) (encryptedKeyLen : nat)
    (encryptedSignature : list Z) (encryptedSignatureLen : nat) (iv : list Z) (digestAlgorithm : Z)
    (privateKey : R_RSA_PRIVATE_KEY) (publicKey : R_RSA_PUBLIC_KEY) : option (Z * list Z * nat) :=
  if MAX_PEM_ENCRYPTED_SIGNATURE_LEN <? Z.of_nat encryptedSignatureLen then Some (RE_SIGNATURE_ENCODING, [], 0%nat)
  else if MAX_PEM_ENCRYPTED_KEY_LEN <? Z.of_nat encryptedKeyLen then Some (RE_KEY_ENCODING, [], 0%nat)
  else
    let '(st, encryptedKeyBlock, encryptedKeyBlockLen) := R_DecodePEMBlock encryptedKey encryptedKeyLen in
    if negb (st =? 0) then Some (RE_KEY_ENCODING, [], 0%nat)
    else
      let? (context, status) := R_OpenInit stack context EA_DES_CBC encryptedKeyBlock encryptedKeyBlockLen iv privateKey in
      if negb (status =? 0) then Some (status, [], 0%nat)
      else
        let '(context, status, content, contentLen) :=
          R_DecryptOpenPEMBlock status0 context encryptedContent encryptedContentLen in
        if negb (status =? 0) then
          Some (if (status =? RE_LEN) || (status =? RE_ENCODING) then RE_CONTENT_ENCODING else RE_KEY, content, contentLen)
        else
          let '(context, status, signature, signatureLen) :=
            R_DecryptOpenPEMBlock status0 context encryptedSignature encryptedSignatureLen in
          if negb (status =? 0) then
            Some (if (status =? RE_LEN) || (status =? RE_ENCODING) then RE_SIGNATURE_ENCODING else RE_KEY, content, contentLen)
          else
            let? status := R_VerifyBlockSignature stack sctx content contentLen signature signatureLen digestAlgorithm publicKey in
            Some (status, content, contentLen).
End PemEnvelope.

(** ** What is read of an array

    The routines read the announced number of bytes of their arrays and nothing after them. *)

Lemma NN_Decode_prefix a d x y n : firstn n x = firstn n y -> NN_Decode a d x n = NN_Decode a d y n.
Proof. intros E. unfold NN_Decode. now rewrite E. Qed.

Lemma cells_agree n (x y : list Z) : firstn n x = firstn n y -> (n <= length x)%nat -> (n <= length y)%nat ->
  cells n x = cells n y.
Proof. intros. now rewrite !cells_firstn. Qed.

Lemma R_memcpy_prefix2 p (x : list Z) t n : (t <= n)%nat -> (n <= length x)%nat ->
  R_memcpy p (firstn n x) t = R_memcpy p x t.
Proof.
  intros Ht Hn. rewrite !R_memcpy_store. f_equal. apply cells_agree; try rewrite length_firstn; try lia.
  rewrite firstn_firstn. f_equal. lia.
Qed.

Lemma EncryptBlk_prefix c x n m : (8 * n <= m)%nat -> (m <= length x)%nat ->
  EncryptBlk c (firstn m x) (8 * n) = EncryptBlk c x (8 * n).
Proof.
  intros Hm Hx. unfold EncryptBlk, DES_CBCUpdate, DESX_CBCUpdate, DES3_CBCUpdate.
  assert (Hd : (8 * n / 8 = n)%nat) by (rewrite Nat.mul_comm; apply Nat.div_mul; lia).
  rewrite Hd, !cbc_loop_firstn by lia. reflexivity.
Qed.

Lemma R_OpenUpdate_prefix c x n : (n <= length x)%nat -> (bufferLen c <= 8)%nat ->
  R_OpenUpdate c (firstn n x) n = R_OpenUpdate c x n.
Proof.
  intros Hn Hb. unfold R_OpenUpdate, at_ptr. set (t := (8 - bufferLen c)%nat).
  destruct (Nat.leb_spec n t) as [C|C]; [now rewrite R_memcpy_prefix2 by lia|].
  rewrite R_memcpy_prefix2 by lia. set (c1 := set_buf c _ _). destruct (EncryptBlk c1 _ 8) as [o1 c2].
  set (j := ((n - t - 1) / 8)%nat). pose proof (Nat.Div0.mul_div_le (n - t - 1) 8). fold j in H.
  rewrite skipn_firstn_comm, EncryptBlk_prefix by (rewrite ?length_skipn; lia).
  destruct (EncryptBlk c2 _ _) as [o2 c3].
  rewrite skipn_firstn_comm, R_memcpy_prefix2 by (rewrite ?length_skipn; lia). reflexivity.
Qed.

(** ** Encoded groups *)

Lemma encode_length p count : length (encode p count) = 4%nat.
Proof. unfold encode. destruct (count =? 1); [reflexivity|]. now destruct (count =? 2). Qed.

Lemma length_EncodePEM_loop fuel block i lastLen n : (n <= 3 * fuel)%nat ->
  length (R_EncodePEM_loop fuel block i lastLen (i + Z.of_nat n)) = (4 * ((n + 2) / 3))%nat.
Proof.
  revert block i lastLen n. induction fuel as [|fuel IH]; intros block i lastLen n Hn; cbn [R_EncodePEM_loop].
  { now replace n with 0%nat by lia. }
  destruct (Z.ltb_spec i (i + Z.of_nat n)) as [C|C]; [|now replace n with 0%nat by lia].
  rewrite length_app, encode_length. destruct (Nat.le_gt_cases n 3) as [L|L].
  - rewrite encode_loop_end by lia. replace ((n + 2) / 3)%nat with 1%nat; [reflexivity|].
    do 4 (destruct n as [|n]; [cbn in *; lia || reflexivity|]). lia.
  - replace (i + Z.of_nat n) with (i + 3 + Z.of_nat (n - 3)) by lia. rewrite IH by lia.
    replace (n + 2)%nat with (n - 3 + 2 + 1 * 3)%nat by lia. rewrite Nat.div_add by lia. lia.
Qed.

Lemma length_EncodePEM block n : Z.of_nat n < 2 ^ 30 ->
  length (fst (R_EncodePEMBlock block (Z.of_nat n))) = (4 * ((n + 2) / 3))%nat /\
  snd (R_EncodePEMBlock block (Z.of_nat n)) = Z.of_nat (length (fst (R_EncodePEMBlock block (Z.of_nat n)))).
Proof.
  intros Hn. unfold R_EncodePEMBlock. destruct (Z.ltb_spec (Z.of_nat n) 1) as [C|C].
  { replace n with 0%nat by lia. auto. }
  rewrite Nat2Z.id. cbn [fst snd].
  pose proof (length_EncodePEM_loop n block 0 (Z.of_nat n) n ltac:(lia)) as L. rewrite Z.add_0_l in L. rewrite L.
  split; [reflexivity|]. apply w32_small. unfold is_word.
  pose proof (Nat.Div0.mul_div_le (n + 2) 3). lia.
Qed.

Lemma length_DecodePEM_loop g inbuf len out o l : R_DecodePEM_loop g inbuf len out = Some (o, l) ->
  length o = (length out + 3 * g)%nat.
Proof.
  revert inbuf len out. induction g as [|g IH]; intros inbuf len out; cbn [R_DecodePEM_loop].
  { intros [= <- _]. lia. }
  destruct (decode_group _ _ _ _) as [[[[[c1 c2] c3] c4] n]|]; [|discriminate]. cbn [obind].
  intros E. apply IH in E. rewrite length_app in E. cbn [group_bytes length] in E. lia.
Qed.

Lemma DecodePEM_loop_prefix g a b len out : length a = (4 * g)%nat ->
  R_DecodePEM_loop g (a ++ b) len out = R_DecodePEM_loop g a len out.
Proof.
  revert a len out. induction g as [|g IH]; intros a len out L; [reflexivity|].
  destruct a as [|x0 [|x1 [|x2 [|x3 a]]]]; cbn [length] in L; try lia. cbn [R_DecodePEM_loop nth app skipn].
  destruct (decode_group _ _ _ _) as [[[[[c1 c2] c3] c4] n]|]; [|reflexivity]. cbn [obind]. apply IH. lia.
Qed.

(** A full group: 24 bytes, 32 characters, decoded whatever follows. *)
Lemma decode_full_group block rest : bytes block -> (24 <= length block)%nat ->
  R_DecodePEMBlock (fst (R_EncodePEMBlock block 24) ++ rest) 32 = (ID_OK, firstn 24 block, 24%nat) /\
  length (fst (R_EncodePEMBlock block 24)) = 32%nat.
Proof.
  intros B L. change 24 with (Z.of_nat 24). pose proof (proj1 (length_EncodePEM block 24 ltac:(lia))) as Le.
  change (4 * ((24 + 2) / 3))%nat with 32%nat in Le. split; [|exact Le].
  pose proof (PEM_roundtrip block 24 B L ltac:(lia)) as P. destruct (R_EncodePEMBlock block (Z.of_nat 24)) as [enc n].
  cbn [fst] in *. destruct P as (out & P & F). rewrite Le in P. unfold R_DecodePEMBlock in *.
  change (negb (Nat.eqb (32 mod 4) 0)) with false in *. change (32 / 4)%nat with 8%nat in *. cbn iota in *.
  rewrite DecodePEM_loop_prefix by (rewrite Le; reflexivity).
  destruct (R_DecodePEM_loop 8 enc 0 []) as [[o l]|] eqn:E; [|discriminate]. injection P as -> ->.
  apply length_DecodePEM_loop in E. cbn [length plus] in E. rewrite <- F, firstn_all2 by lia. reflexivity.
Qed.

(** The text of whole groups. *)
Fixpoint enc_groups (n : nat) (o : list Z) : list Z :=
  match n with
  | O => []
  | S n => fst (R_EncodePEMBlock (firstn 24 o) 24) ++ enc_groups n (skipn 24 o)
  end.

Fixpoint chunks24 (n : nat) (o : list Z) : list (list Z) :=
  match n with
  | O => []
  | S n => firstn 24 o :: chunks24 n (skipn 24 o)
  end.

Lemma concat_chunks24 n o : concat (chunks24 n o) = firstn (24 * n) o.
Proof.
  revert o. induction n as [|n IH]; intros o; [reflexivity|]. cbn [chunks24 concat]. rewrite IH.
  replace (24 * S n)%nat with (24 + 24 * n)%nat by lia. now rewrite firstn_plus.
Qed.

Lemma enc_groups_app i j a b : length a = (24 * i)%nat -> enc_groups (i + j) (a ++ b) = enc_groups i a ++ enc_groups j b.
Proof.
  revert a. induction i as [|i IH]; intros a L; [now destruct a|]. cbn [plus enc_groups].
  rewrite firstn_app, skipn_app. replace (24 - length a)%nat with 0%nat by lia. rewrite firstn_O, skipn_O.
  rewrite app_nil_r, <- app_assoc, <- (IH (skipn 24 a)) by (rewrite length_skipn; lia). reflexivity.
Qed.

Lemma length_enc_groups n o : bytes o -> (24 * n <= length o)%nat -> length (enc_groups n o) = (32 * n)%nat.
Proof.
  revert o. induction n as [|n IH]; intros o B L; [reflexivity|]. cbn [enc_groups].
  rewrite length_app, IH by (rewrite ?length_skipn; auto with words; lia).
  rewrite (proj2 (decode_full_group (firstn 24 o) [] ltac:(auto with words) ltac:(rewrite length_firstn; lia))). lia.
Qed.

(** A text of a ciphertext: whole groups, then the rest, which decodes to the rest. *)
Definition pem_text (C text : list Z) : Prop :=
  exists e x n, text = enc_groups (length C / 24) C ++ e /\ (length e < 32)%nat /\
    (2 * length e = 3 * (length C mod 24))%nat /\
    R_DecodePEMBlock e (length e) = (ID_OK, x, n) /\ (n <= length x)%nat /\
    firstn n x = skipn (24 * (length C / 24)) C.

Lemma bytes_cbc_loop step n iv l : bytes (fst (cbc_loop step n iv l)).
Proof.
  revert iv l. induction n as [|n IH]; intros iv l; cbn [cbc_loop]; [constructor|].
  destruct (step iv (scrunch l)) as [w v]. specialize (IH v (skipn 8 l)).
  destruct (cbc_loop step n v (skipn 8 l)) as [o v']. cbn [fst] in *. apply Forall_app. auto using unscrunch_bytes.
Qed.

(** ** Encrypting to text *)

Lemma encrypt_groups_spec step orig n : forall iv c ep input, holds step orig iv [] c -> length ep = 24%nat -> bytes ep ->
  (24 * n <= length input)%nat ->
  exists c' ep', encrypt_groups n c ep input = (c', ep', enc_groups n (fst (cbc_loop step (3 * n) iv input))) /\
    length ep' = 24%nat /\ bytes ep' /\ holds step orig (snd (cbc_loop step (3 * n) iv input)) [] c'.
Proof.
  induction n as [|n IH]; intros iv c ep input H Le Be Li; cbn [encrypt_groups].
  { exists c, ep. auto. }
  destruct (seal_update_ok step orig iv [] c input 24%nat H eq_refl ltac:(lia)) as (c1 & E1 & H1).
  rewrite app_nil_l in *. assert (L24 : length (firstn 24 input) = 24%nat) by (rewrite length_firstn; lia).
  rewrite L24 in *. change (seal_blocks 24) with 3%nat in *. change (8 * 3)%nat with 24%nat in *.
  rewrite (skipn_all2 (firstn 24 input)) in H1 by lia. rewrite E1.
  replace (3 * S n)%nat with (3 + 3 * n)%nat by lia.
  assert (E3 : cbc_loop step (3 + 3 * n) iv input = let '(o1, v1) := cbc_loop step 3 iv (firstn 24 input) in
    let '(o2, v2) := cbc_loop step (3 * n) v1 (skipn 24 input) in (o1 ++ o2, v2)).
  { rewrite <- (firstn_skipn 24 input) at 1. now apply cbc_loop_plus. }
  rewrite E3. clear E3.
  pose proof (length_cbc_loop step 3 iv (firstn 24 input)) as Lo.
  pose proof (bytes_cbc_loop step 3 iv (firstn 24 input)) as Bo.
  destruct (cbc_loop step 3 iv (firstn 24 input)) as [o v]. cbn [fst snd] in *.
  assert (Es : store ep o = o) by (unfold store; rewrite skipn_all2, app_nil_r by lia; reflexivity). rewrite Es.
  destruct (IH v c1 o (skipn 24 input) H1 Lo Bo ltac:(rewrite length_skipn; lia)) as (c2 & ep2 & E2 & L2 & B2 & H2).
  rewrite E2. destruct (cbc_loop step (3 * n) v (skipn 24 input)) as [o2 v2]. cbn [fst snd] in *.
  exists c2, ep2. splits; auto. cbn [enc_groups].
  rewrite firstn_app, skipn_app, firstn_all2, skipn_all2 by lia.
  replace (24 - length o)%nat with 0%nat by lia. rewrite firstn_O, skipn_O. now rewrite app_nil_r, app_nil_l.
Qed.

(** The last part: the blocks that remain and the padded block, in the array of 24 bytes. *)
Lemma last_part step orig iv c x r ep : holds step orig iv [] c -> (r <= length x)%nat -> (r < 24)%nat ->
  length ep = 24%nat -> bytes ep ->
  exists c2 c3 o2 o3, R_SealUpdate c x r = (c2, o2, 8 * (r / 8))%nat /\ R_SealFinal c2 = (c3, o3, 8%nat) /\
    holds step orig orig [] c3 /\
    let ep' := at_ptr (8 * (r / 8)) (fun p => store p o3) (store ep o2) in
    length ep' = 24%nat /\ bytes ep' /\
    firstn (8 * (r / 8) + 8) ep' = fst (cbc_loop step (S (r / 8)) iv (padded (firstn r x))).
Proof.
  intros H Hr H24 Le Be. destruct (seal_update_ok step orig iv [] c x r H eq_refl Hr) as (c2 & E2 & H2).
  rewrite app_nil_l in *. set (q := firstn r x) in *. assert (Lq : length q = r) by (unfold q; rewrite length_firstn; lia).
  rewrite Lq in *. unfold seal_blocks in *. set (k := (r / 8)%nat) in *. pose proof (Nat.div_mod_eq r 8) as D. fold k in D.
  pose proof (Nat.mod_upper_bound r 8 ltac:(lia)).
  assert (Ls : length (skipn (8 * k) q) = (r mod 8)%nat) by (rewrite length_skipn; lia).
  destruct (R_SealFinal_spec _ _ _ _ _ H2 ltac:(lia)) as (c3 & E3 & H3).
  set (o2 := fst (cbc_loop step k iv q)) in *. set (o3 := fst (cbc_loop step 1 _ _)) in *.
  exists c2, c3, o2, o3. split; [exact E2|split; [exact E3|split; [exact H3|]]].
  set (ep' := at_ptr (8 * k) (fun p => store p o3) (store ep o2)).
  assert (L2 : length o2 = (8 * k)%nat) by apply length_cbc_loop.
  assert (L3 : length o3 = 8%nat) by apply length_cbc_loop.
  assert (Eep : ep' = o2 ++ o3 ++ skipn (8 * k + 8) ep).
  { unfold ep', at_ptr, store. rewrite <- L2, firstn_app_len, skipn_app_len, L2, L3, skipn_skipn.
    do 3 f_equal. lia. }
  rewrite Eep. splits.
  - rewrite !length_app, length_skipn. lia.
  - apply Forall_app. split; [apply bytes_cbc_loop|]. apply Forall_app. split; [apply bytes_cbc_loop|auto with words].
  - rewrite app_assoc. replace (8 * k + 8)%nat with (length (o2 ++ o3)) at 1 by (rewrite length_app; lia).
    rewrite firstn_app_len.
    assert (Em : padded q = firstn (8 * k) q ++ padded (skipn (8 * k) q)).
    { unfold padded, padding. now rewrite Ls, Lq, Nat.Div0.mod_mod, app_assoc, firstn_skipn. }
    rewrite Em. replace (S k) with (k + 1)%nat by lia. rewrite cbc_loop_plus by (rewrite length_firstn; lia).
    unfold o2, o3. rewrite cbc_loop_firstn by lia. destruct (cbc_loop step k iv q) as [a v]. cbn [fst snd].
    now destruct (cbc_loop step 1 v (padded (skipn (8 * k) q))).
Qed.

Lemma mod24 k r : (r < 24)%nat -> ((24 * k + r) / 24 = k /\ (24 * k + r) mod 24 = r)%nat.
Proof.
  intros H. replace (24 * k + r)%nat with (r + k * 24)%nat by lia.
  rewrite Nat.div_add, Nat.Div0.mod_add, Nat.div_small, Nat.mod_small by lia. lia.
Qed.

(** The last part of the text, in its three lengths. *)
Lemma pem_text_last i C1 ep s : length C1 = (24 * i)%nat -> bytes ep -> length ep = 24%nat -> (s = 1 \/ s = 2 \/ s = 3)%nat ->
  pem_text (C1 ++ firstn (8 * s) ep) (enc_groups i C1 ++ fst (R_EncodePEMBlock ep (Z.of_nat (8 * s)))).
Proof.
  intros L1 Be Le Hs. assert (L : length (C1 ++ firstn (8 * s) ep) = (24 * i + 8 * s)%nat)
    by (rewrite length_app, length_firstn; lia).
  assert (Hc : (s = 3 \/ 8 * s < 24)%nat) by lia. destruct Hc as [->|Hlt].
  - exists [], [], 0%nat. change (8 * 3)%nat with 24%nat in *. rewrite L.
    destruct (mod24 (S i) 0 ltac:(lia)) as [D M]. replace (24 * i + 24)%nat with (24 * S i + 0)%nat by lia. rewrite D, M.
    rewrite (firstn_all2 ep) by lia. rewrite app_nil_r. splits; auto; try (cbn [length]; lia).
    + replace (S i) with (i + 1)%nat by lia. rewrite enc_groups_app by auto. f_equal. cbn [enc_groups].
      rewrite (firstn_all2 ep) by lia. now rewrite app_nil_r.
    + symmetry. rewrite firstn_O. apply skipn_all2. rewrite length_app. lia.
  - pose proof (length_EncodePEM ep (8 * s) ltac:(lia)) as [Ln _].
    pose proof (PEM_roundtrip ep (8 * s) Be ltac:(lia) ltac:(lia)) as P.
    destruct (R_EncodePEMBlock ep (Z.of_nat (8 * s))) as [e n]. cbn [fst] in *. destruct P as (x & P & F).
    unfold pem_text. rewrite L. destruct (mod24 i (8 * s) Hlt) as [D M]. rewrite D, M.
    assert (Lx : (8 * s <= length x)%nat).
    { apply (f_equal (@length Z)) in F. rewrite !length_firstn in F. lia. }
    exists e, x, (8 * s)%nat. splits; auto.
    + f_equal. replace i with (i + 0)%nat at 2 by lia. rewrite enc_groups_app by auto. cbn [enc_groups]. now rewrite app_nil_r.
    + destruct Hs as [->|[->| ->]]; cbn in Ln; lia.
    + destruct Hs as [->|[->| ->]]; cbn in Ln; lia.
    + rewrite F, <- L1, skipn_app_len. reflexivity.
Qed.

Lemma R_EncryptOpenPEMBlock_spec stack step orig iv c input n : holds step orig iv [] c -> bytes stack ->
  (n <= length input)%nat -> 
  exists c' text len, R_EncryptOpenPEMBlock stack c input n = (c', text, len) /\ holds step orig orig [] c' /\
    pem_text (fst (cbc_loop step (S (n / 8)) iv (padded (firstn n input)))) text.
Proof.
  intros H Bs Hn. unfold R_EncryptOpenPEMBlock. set (i := (n / 24)%nat).
  pose proof (Nat.div_mod_eq n 24) as D. fold i in D. set (r := (n mod 24)%nat) in *.
  assert (Hr : (r < 24)%nat) by (apply Nat.mod_upper_bound; lia).
  replace (n - 24 * i)%nat with r by lia.
  destruct (encrypt_groups_spec step orig i iv c (cells 24 stack) input H (length_cells 24 stack)
    (bytes_cells 24 stack Bs) ltac:(lia)) as (c1 & ep & E1 & L1 & B1 & H1). rewrite E1.
  destruct (last_part _ _ _ _ (skipn (24 * i) input) r ep H1 ltac:(rewrite length_skipn; lia) Hr L1 B1)
    as (c2 & c3 & o2 & o3 & E2 & E3 & H3 & P). rewrite E2, E3. cbv zeta in P. set (ep' := at_ptr _ _ _) in *.
  destruct P as (L4 & B4 & F4). set (k := (r / 8)%nat) in *.
  assert (Hk : (S k = 1 \/ S k = 2 \/ S k = 3)%nat).
  { pose proof (Nat.div_mod_eq r 8). pose proof (Nat.mod_upper_bound r 8 ltac:(lia)). fold k in H0. lia. }
  pose proof (pem_text_last i (fst (cbc_loop step (3 * i) iv input)) ep' (S k)
    ltac:(rewrite length_cbc_loop; lia) B4 L4 Hk) as T.
  replace (8 * S k)%nat with (8 * k + 8)%nat in T by lia.
  destruct (R_EncodePEMBlock ep' (Z.of_nat (8 * k + 8))) as [enc len]. cbn [fst] in T.
  do 3 eexists. split; [reflexivity|]. split; [exact H3|].
  replace (fst (cbc_loop step (S (n / 8)) iv (padded (firstn n input))))
    with (fst (cbc_loop step (3 * i) iv input) ++ firstn (8 * k + 8) ep'); [exact T|].
  rewrite F4. set (q := firstn r (skipn (24 * i) input)).
  assert (Lq : length q = r) by (unfold q; rewrite length_firstn, length_skipn; lia).
  assert (Lf : length (firstn (24 * i) input) = (24 * i)%nat) by (rewrite length_firstn; lia).
  assert (Em : padded (firstn n input) = firstn (24 * i) input ++ padded q).
  { rewrite D, firstn_plus. fold q. unfold padded, padding. rewrite length_app, Lf, Lq, app_assoc.
    replace ((24 * i + r) mod 8)%nat with (r mod 8)%nat; [reflexivity|].
    replace (24 * i + r)%nat with (r + 3 * i * 8)%nat by lia. now rewrite Nat.Div0.mod_add. }
  assert (En : S (n / 8) = (3 * i + S k)%nat).
  { replace n with (r + 3 * i * 8)%nat by lia. rewrite Nat.div_add by lia. fold k. lia. }
  rewrite En, Em, cbc_loop_plus by lia. rewrite cbc_loop_firstn by lia.
  destruct (cbc_loop step (3 * i) iv input) as [o v]. cbn [fst snd].
  now destruct (cbc_loop step (S k) v (padded q)).
Qed.

(** ** Decrypting a text *)

Lemma stream_app update c xs ys : stream update c (xs ++ ys) =
  let (c1, o1) := stream update c xs in let (c2, o2) := stream update c1 ys in (c2, o1 ++ o2).
Proof.
  revert c. induction xs as [|x xs IH]; intros c; cbn [stream app]; [now destruct (stream update c ys)|].
  destruct (update c x (length x)) as [[c1 o] n]. rewrite IH.
  destruct (stream update c1 xs) as [c2 o2]. destruct (stream update c2 ys) as [c3 o3]. now rewrite app_assoc.
Qed.

Lemma decrypt_groups_spec step orig n : forall iv p c st C rest, holds step orig iv p c -> (length p <= 8)%nat ->
  bytes C -> (24 * n <= length C)%nat ->
  exists c' iv' p', decrypt_groups n c st (enc_groups n C ++ rest) =
      (c', (if (n =? 0)%nat then st else ID_OK), snd (stream R_OpenUpdate c (chunks24 n C)),
       length (snd (stream R_OpenUpdate c (chunks24 n C)))) /\
    fst (stream R_OpenUpdate c (chunks24 n C)) = c' /\ holds step orig iv' p' c' /\ (length p' <= 8)%nat.
Proof.
  induction n as [|n IH]; intros iv p c st C rest H Hp BC L.
  { exists c, iv, p. auto. }
  cbn [decrypt_groups enc_groups chunks24 stream]. rewrite <- app_assoc.
  assert (L24 : length (firstn 24 C) = 24%nat) by (rewrite length_firstn; lia).
  destruct (decode_full_group (firstn 24 C) (enc_groups n (skipn 24 C) ++ rest) ltac:(auto with words) ltac:(lia)) as [Ed Le].
  rewrite Ed. cbn [Z.eqb ID_OK negb]. rewrite (firstn_all2 (firstn 24 C)), L24 by lia.
  assert (Hk : open_blocks (length p) = 0%nat) by (unfold open_blocks; apply Nat.div_small; lia).
  destruct (open_update_ok step orig iv p c (firstn 24 C) 24%nat H Hk ltac:(lia)) as (c1 & E1 & H1).
  rewrite firstn_firstn in *. change (Nat.min 24 24) with 24%nat in *. rewrite E1.
  set (q := p ++ firstn 24 C) in *. set (k := open_blocks (length q)) in *.
  rewrite skipn_app, Le, Nat.sub_diag, skipn_O, skipn_all2, app_nil_l by lia.
  assert (Hk' : (length (skipn (8 * k) q) <= 8)%nat).
  { rewrite length_skipn. unfold k, open_blocks. pose proof (Nat.div_mod_eq (length q - 1) 8).
    pose proof (Nat.mod_upper_bound (length q - 1) 8 ltac:(lia)). lia. }
  destruct (IH _ _ c1 ID_OK (skipn 24 C) rest H1 Hk' ltac:(auto with words) ltac:(rewrite length_skipn; lia))
    as (c2 & iv2 & p2 & E2 & F2 & H2 & P2). rewrite E2.
  pose proof (length_cbc_loop step k iv q) as Lo. set (o := fst (cbc_loop step k iv q)) in *.
  destruct (stream R_OpenUpdate c1 (chunks24 n (skipn 24 C))) as [c3 o3]. cbn [fst snd] in *. subst c3.
  exists c2, iv2, p2. splits; auto. cbn [Nat.eqb]. rewrite length_app, Lo. now destruct (n =? 0)%nat.
Qed.

Lemma R_OpenFinal_any c n c' a l : R_OpenFinal c 0 = (c', 0, a, l) -> R_OpenFinal c n = (c', 0, a, l) /\ length a = l.
Proof.
  unfold R_OpenFinal. destruct (Nat.eqb (bufferLen c) 0); [intros [= <- <- <-]; auto|].
  destruct (negb (Nat.eqb (bufferLen c) 8)); [intros [=]|]. destruct (EncryptBlk c (e_buffer c) 8) as [o c1].
  destruct (_ || _); [intros [=]|]. destruct (negb _); [intros [=]|].
  intros [= <- <- <-]. split; [reflexivity|apply length_cells].
Qed.

Lemma R_OpenUpdate_length step orig iv p c x n : holds step orig iv p c -> (length p <= 8)%nat -> (n <= length x)%nat ->
  let '(c', o, l) := R_OpenUpdate c x n in length o = l.
Proof.
  intros H Hp Hn. assert (Hk : open_blocks (length p) = 0%nat) by (unfold open_blocks; apply Nat.div_small; lia).
  destruct (open_update_ok step orig iv p c x n H Hk Hn) as (c' & E & _). rewrite E. apply length_cbc_loop.
Qed.

(** A text decrypts to what its ciphertext opens to; when it has no whole group the variable
    [status] must happen to be zero. *)
Lemma decrypt_text status0 step v c C text m P : holds step v v [] c -> bytes C -> pem_text C text ->
  (24 <= length C)%nat \/ status0 = 0 ->
  (forall ys, concat ys = C -> exists c', open c ys = (c', 0, m) /\ P c') ->
  exists c', R_DecryptOpenPEMBlock status0 c text (length text) = (c', 0, m, length m) /\ P c'.
Proof.
  intros H BC (e & x & n & -> & Le & _ & De & Ln & Fx) H0 Ho.
  set (i := (length C / 24)%nat) in *. pose proof (Nat.Div0.mul_div_le (length C) 24) as D. fold i in D.
  pose proof (length_enc_groups i C BC D) as Lg.
  assert (Ed : (length (enc_groups i C ++ e) / 32 = i)%nat).
  { rewrite length_app, Lg. replace (32 * i + length e)%nat with (length e + i * 32)%nat by lia.
    rewrite Nat.div_add, Nat.div_small by lia. lia. }
  unfold R_DecryptOpenPEMBlock. rewrite Ed.
  destruct (decrypt_groups_spec step v i v [] c status0 C e H ltac:(cbn; lia) BC D) as (c1 & iv1 & p1 & E1 & F1 & H1 & P1).
  rewrite E1. clear E1.
  specialize (Ho (chunks24 i C ++ [firstn n x])).
  rewrite concat_app, concat_chunks24 in Ho. cbn [concat] in Ho. rewrite app_nil_r, Fx in Ho.
  destruct (Ho (firstn_skipn _ _)) as (c' & Ho' & Pc). clear Ho. rename Ho' into Ho. exists c'. split; [|exact Pc]. unfold open in Ho. rewrite <- Fx, stream_app in Ho.
  destruct (stream R_OpenUpdate c (chunks24 i C)) as [c1' o1]. cbn [fst snd] in *. subst c1'. cbn [stream] in Ho.
  assert (Ln' : length (firstn n x) = n) by (rewrite length_firstn; lia). rewrite Ln' in Ho.
  rewrite R_OpenUpdate_prefix in Ho by (auto; rewrite (h_len _ _ _ _ _ H1); lia).
  assert (Es : (if (i =? 0)%nat then status0 else ID_OK) = 0).
  { destruct (Nat.eqb_spec i 0) as [E|]; [|reflexivity]. destruct H0; [|auto].
    apply Nat.div_small_iff in E; lia. }
  rewrite Es. cbn [Z.eqb].
  rewrite skipn_app, length_app, Lg, skipn_all2, Nat.sub_diag, skipn_O, app_nil_l by lia.
  replace (32 * i + length e - 32 * i)%nat with (length e) by lia. rewrite De. cbn [Z.eqb ID_OK negb].
  pose proof (R_OpenUpdate_length _ _ _ _ _ x n H1 P1 Ln) as Lo.
  destruct (R_OpenUpdate c1 x n) as [[c2 o2] l2]. 
  destruct (R_OpenFinal c2 0) as [[[c3 st] o3] l3] eqn:EF. rewrite app_nil_r in Ho. injection Ho as <- -> <-.
  apply (R_OpenFinal_any _ l2) in EF as [EF L3]. rewrite EF. cbn [Z.eqb].
  f_equal; [now rewrite <- app_assoc|rewrite !length_app; lia].
Qed.

(** ** Signing, sealing, opening, verifying *)

Lemma R_VerifyFinal_prefix stack c x y n pub : firstn n x = firstn n y ->
  R_VerifyFinal stack c x n pub = R_VerifyFinal stack c y n pub.
Proof. intros E. unfold R_VerifyFinal. now rewrite (fun o l => RSAPublicDecrypt_prefix o l x y n pub E). Qed.

(** Signing a block, and verifying it, in one call each. *)
Lemma sign_block_verifies stack stack' pub priv t cs cv m o n status s len :
  key_pair pub priv -> (45 <= modulusLen (pub_bits pub))%nat -> signing_algorithm t ->
  digest_sized (digestContext cs) -> digest_sized (digestContext cv) -> piece m -> bytes o ->
  R_SignBlock stack cs o n m (length m) t priv = Some (status, s, len) ->
  status = ID_OK /\ len = modulusLen (pub_bits pub) /\ bytes s /\ (len <= length s)%nat /\
  forall x, firstn len x = firstn len s ->
    R_VerifyBlockSignature stack' cv m (length m) x len t pub = Some ID_OK.
Proof.
  intros K HL H Ss Sv Hm Bo. unfold R_SignBlock, R_VerifyBlockSignature, R_SignInit, R_VerifyInit, R_SignUpdate, R_VerifyUpdate.
  destruct (sig_init_represents t cs H Ss) as [I1 R1]. destruct (sig_init_represents t cv H Sv) as [I2 R2].
  destruct (sig_init cs t) as [c1 st1]. destruct (sig_init cv t) as [c2 st2]. cbn [fst snd] in *. subst st1 st2.
  cbn [Z.eqb ID_OK negb].
  destruct (sig_update_represents t c1 [] m H R1 Hm) as [U1 V1]. destruct (sig_update_represents t c2 [] m H R2 Hm) as [U2 V2].
  destruct (sig_update c1 m (length m)) as [d1 st1]. destruct (sig_update c2 m (length m)) as [d2 st2].
  cbn [fst snd app] in *. subst st1 st2. cbn [Z.eqb ID_OK negb].
  destruct (signature_verifies stack stack' pub priv t d1 d2 m o n K HL H V1 V2 (proj1 Hm) Bo)
    as (s' & cs' & cv' & Bs & Ls & E1 & E2).
  rewrite E1. cbn [obind]. intros [= <- <- <-]. splits; auto.
  intros x Hx. rewrite (R_VerifyFinal_prefix _ _ _ _ _ _ Hx), E2. reflexivity.
Qed.

Lemma R_OpenInit_prefix stack c t x y n iv priv : firstn n x = firstn n y ->
  R_OpenInit stack c t x n iv priv = R_OpenInit stack c t y n iv priv.
Proof. intros E. unfold R_OpenInit. now rewrite (fun o l => RSAPrivateDecrypt_prefix o l x y n priv E). Qed.

Lemma pem_text_length C text : pem_text C text -> bytes C -> (2 * length text <= 64 * (length C / 24) + 3 * (length C mod 24))%nat.
Proof.
  intros (e & x & n & -> & _ & Le & _) B. pose proof (Nat.Div0.mul_div_le (length C) 24).
  rewrite length_app, length_enc_groups by auto. lia.
Qed.

Lemma EncodePEM_decodes block n : bytes block -> (n <= length block)%nat -> Z.of_nat n < 2 ^ 30 ->
  let e := fst (R_EncodePEMBlock block (Z.of_nat n)) in
  exists x, R_DecodePEMBlock e (length e) = (ID_OK, x, n) /\ firstn n x = firstn n block /\
    length e = (4 * ((n + 2) / 3))%nat.
Proof.
  intros B L Hn. pose proof (proj1 (length_EncodePEM block n Hn)) as Le.
  pose proof (PEM_roundtrip block n B L ltac:(lia)) as P. destruct (R_EncodePEMBlock block (Z.of_nat n)) as [e k].
  cbn [fst] in *. destruct P as (x & P & F). exists x. auto.
Qed.

Lemma one_buffer stack n : bytes stack ->
  Forall (fun e : list Z * nat => bytes (fst e)) [(cells (Z.to_nat MAX_ENCRYPTED_KEY_LEN) stack, n)].
Proof. intros B. apply Forall_cons; [apply bytes_cells; exact B|apply Forall_nil]. Qed.

(** ** The claims *)


(** What happens to a short content otherwise: whatever the text and the keys, a text of fewer
    than 32 characters is refused when the uninitialised variable is not zero. *)
Theorem short_text_refused (stack : list Z) (status0 : Z) (co : R_ENVELOPE_CTX) (so : R_SIGNATURE_CTX)
    (ec ek es iv : list Z) (ecLen ekLen esLen : nat) (t : Z) (rpriv : R_RSA_PRIVATE_KEY) (spub : R_RSA_PUBLIC_KEY)
    (st : Z) (content : list Z) (n : nat) :
  status0 <> 0 -> (ecLen < 32)%nat ->
  R_OpenPEMBlock stack status0 co so ec ecLen ek ekLen es esLen iv t rpriv spub = Some (st, content, n) ->
  st <> ID_OK /\ content = [] /\ n = 0%nat.
Proof.
  intros H0 Hl. unfold R_OpenPEMBlock.
  destruct (_ <? _); [now intros [= <- <- <-]|]. destruct (_ <? _); [now intros [= <- <- <-]|].
  destruct (R_DecodePEMBlock ek ekLen) as [[st1 k] kl]. destruct (negb (st1 =? 0)); [now intros [= <- <- <-]|].
  destruct (R_OpenInit _ _ _ _ _ _ _) as [[c1 st2]|]; [|discriminate]. cbn [obind].
  destruct (Z.eqb_spec st2 0); cbn [negb]; [|now intros [= <- <- <-]].
  unfold R_DecryptOpenPEMBlock at 1. rewrite (Nat.div_small ecLen) by auto. cbn [decrypt_groups].
  rewrite (proj2 (Z.eqb_neq status0 0)) by auto. cbv iota beta. rewrite (proj2 (Z.eqb_neq status0 0)) by auto.
  cbn [negb]. destruct (_ || _); now intros [= <- <- <-].
Qed.

(** Witnesses: the content "abcdefghijklmnop", signed and sealed under the concrete key pair. *)
Definition content16 : list Z := [97; 98; 99; 100; 101; 102; 103; 104; 105; 106; 107; 108; 109; 110; 111; 112].

Lemma content16_piece : piece content16.
Proof. split; [check_bytes|reflexivity]. Qed.

Lemma MD5_signing : signing_algorithm DA_MD5.
Proof. now right; right. Qed.

Lemma test_fits : (45 <= modulusLen (pub_bits TestKey.public))%nat.
Proof. apply Nat.leb_le. reflexivity. Qed.

Lemma test_signed : exists s len,
  R_SignBlock [] test_context (cells (Z.to_nat MAX_SIGNATURE_LEN) []) 0 content16 (length content16) DA_MD5 TestKey.private =
  Some (ID_OK, s, len).
Proof.
  pose proof MD5_signing as H. destruct (sig_init_represents DA_MD5 test_context H test_context_sized) as [I R].
  unfold R_SignBlock, R_SignInit, R_SignUpdate. destruct (sig_init test_context DA_MD5) as [c1 st1]. cbn [fst snd] in *. subst st1.
  destruct (sig_update_represents DA_MD5 c1 [] content16 H R content16_piece) as [U V].
  destruct (sig_update c1 content16 (length content16)) as [d1 st1]. cbn [fst snd app] in *. subst st1.
  destruct (signature_verifies [] [] TestKey.public TestKey.private DA_MD5 d1 d1 content16
    (cells (Z.to_nat MAX_SIGNATURE_LEN) []) 0 TestKey.pair test_fits H V V (proj1 content16_piece)
    (bytes_cells _ _ (Forall_nil _))) as (s & cs' & cv' & _ & _ & E & _).
  cbn [Z.eqb ID_OK negb]. rewrite E. exists s, (modulusLen (pub_bits TestKey.public)). reflexivity.
Qed.

Lemma test_key_sealed : exists c1 keys iv1 r1,
  R_SealInit test_envelope [(cells (Z.to_nat MAX_ENCRYPTED_KEY_LEN) [], 0%nat)] (repeat 0 8) [TestKey.public] EA_DES_CBC
    test_random = Some (c1, ID_OK, keys, iv1, r1).
Proof.
  destruct (R_SealInit test_envelope [(cells (Z.to_nat MAX_ENCRYPTED_KEY_LEN) [], 0%nat)] (repeat 0 8) [TestKey.public]
    EA_DES_CBC test_random) as [[[[[c1 st] keys] iv1] r1]|] eqn:E.
  - assert (H : match R_SealInit test_envelope [(cells (Z.to_nat MAX_ENCRYPTED_KEY_LEN) [], 0%nat)] (repeat 0 8) [TestKey.public]
      EA_DES_CBC test_random with Some (_, st, _, _, _) => st | _ => 1 end = 0) by (vm_compute; reflexivity).
    rewrite E in H. subst st. exists c1, keys, iv1, r1. reflexivity.
  - assert (H : match R_SealInit test_envelope [(cells (Z.to_nat MAX_ENCRYPTED_KEY_LEN) [], 0%nat)] (repeat 0 8) [TestKey.public]
      EA_DES_CBC test_random with Some _ => 0 | _ => 1 end = 0) by (vm_compute; reflexivity).
    rewrite E in H. discriminate H.
Qed.

Lemma test_pem_sealed : exists ec ek es iv1 r1,
  R_SealPEMBlock [] test_envelope test_context (repeat 0 8) content16 (length content16) DA_MD5 TestKey.public
    TestKey.private test_random = Some (ID_OK, (ec, ek, es), iv1, r1).
Proof.
  destruct test_signed as (s & len & E1). destruct test_key_sealed as (c1 & keys & iv1 & r1 & E2).
  unfold R_SealPEMBlock. rewrite E1. cbn [obind Z.eqb ID_OK negb]. rewrite E2. cbn [obind Z.eqb ID_OK negb].
  destruct (hd ([], 0%nat) keys) as [ekb ekl].
  destruct (R_EncryptOpenPEMBlock [] c1 content16 (length content16)) as [[c2 t1] l1].
  destruct (R_EncryptOpenPEMBlock [] c2 s len) as [[c3 t2] l2]. do 5 eexists. reflexivity.
Qed.

