(* ===== verification/OSFunc.v ===== *)
(** * OSFunc: [ntohl64] (QBase/OSFunc.cpp) *)

From S2P Require Import Prelude.

(** The two halves of the word are reversed by [ntohl] and exchanged.  The test of the
    host's byte order is settled: the model's hosts are little endian. *)
Definition ntohl64 (host : Z) : Z :=
  let ulLow := host .& 4294967295 in
  let ulHigh := (host .>> 32) .& 4294967295 in
  let ulLow := ntohl ulLow in
  let ulHigh := ntohl ulHigh in
  w64 (ulLow .<< 32) .| ulHigh.

Lemma le_bytes_add n m x : le_bytes (n + m) x = le_bytes n x ++ le_bytes m (x / Pn n).
Proof.
  revert x. induction n; intros x; [cbn [le_bytes app]; rewrite Pn_0, Z.div_1_r; reflexivity|].
  cbn [plus le_bytes app]. rewrite IHn. do 3 f_equal. rewrite Pn_S, Z.div_div; auto; try lia.
  apply Pn_pos.
Qed.

(** [ntohl64] reverses the eight bytes of the word. *)
Lemma ntohl64_be x : 0 <= x -> ntohl64 x = be (le_bytes 8 x).
Proof.
  intros Hx. unfold ntohl64, ntohl.
  change 4294967295 with (Z.ones 32). rewrite !Z.land_ones by lia. rewrite shiftr_div by lia.
  change (2 ^ 32) with (Pn 4). rewrite !le_bytes_mod.
  rewrite (le_bytes_add 4 4), be_app, length_le_bytes.
  pose proof (be_bound _ (bytes_le_bytes 4 x)) as B1.
  pose proof (be_bound _ (bytes_le_bytes 4 (x / Pn 4))) as B2.
  rewrite !length_le_bytes in *. change (Pn 4) with (2 ^ 32) in *.
  rewrite Z.shiftl_mul_pow2 by lia. unfold w64.
  rewrite Z.mod_small by lia. rewrite mul_lor_add by lia. reflexivity.
Qed.

Lemma le_bytes_ntohl64 x : 0 <= x -> le_bytes 8 (ntohl64 x) = rev (le_bytes 8 x).
Proof. intros. rewrite ntohl64_be by assumption. apply le_bytes_be. Qed.
