(* ===== verification/Enum.v ===== *)
(** * Enum: the enumerations the components share (QBase/Enum.h, QBase/Macros.h) *)

From S2P Require Import Prelude.

Definition Q_RTN_OK : Z := 0.
Definition Q_RTN_FAILE : Z := -1.
Definition Q_INVALID_SOCK : Z := -1.
Definition Q_INVALID_ID : Z := -1.
Definition Q_INIT_NUMBER : Z := 0.

(** [WebSockOpCode] *)
Definition WSOCK_CONTINUATION : Z := 0.
Definition WSOCK_TEXTFRAME : Z := 1.
Definition WSOCK_BINARYFRAME : Z := 2.
Definition WSOCK_CLOSE : Z := 8.
Definition WSOCK_PING : Z := 9.
Definition WSOCK_PONG : Z := 10.

(** [SessionType] *)
Definition STYPE_TCP : Z := 0.
Definition STYPE_TCPCLIENT : Z := 1.
Definition STYPE_WEBSOCK : Z := 2.
Definition STYPE_DEBUG : Z := 3.

(** [SessionStatus] *)
Definition SESSSTATUS_CLOSED : Z := -1.
Definition SESSSTATUS_CONNECT : Z := 0.
Definition SESSSTATUS_LINKED : Z := 1.

(** [DataType]: the types of a field in a structure description *)
Definition DTYPE_SINT8 : Z := 0.
Definition DTYPE_UINT8 : Z := 1.
Definition DTYPE_BOOL : Z := 2.
Definition DTYPE_SINT16 : Z := 3.
Definition DTYPE_UINT16 : Z := 4.
Definition DTYPE_SINT32 : Z := 5.
Definition DTYPE_UINT32 : Z := 6.
Definition DTYPE_SINT64 : Z := 7.
Definition DTYPE_UINT64 : Z := 8.
Definition DTYPE_FLOAT : Z := 9.
Definition DTYPE_DOUBLE : Z := 10.
Definition DTYPE_STRING : Z := 11.
Definition DTYPE_BYTE : Z := 12.
Definition DTYPE_STRUCT : Z := 13.
Definition DTYPE_SKIP : Z := 14.

(** [StructAttr]: the positions of a field's description *)
Definition STATTR_NAME : Z := 1.
Definition STATTR_TYPE : Z := 2.
Definition STATTR_SIZE : Z := 3.
Definition STATTR_STATTR : Z := 4.

(** [AESKeyType]: the size of a key in bits *)
Definition AESKEY_NONE : Z := 0.
Definition AESKEY_128 : Z := 128.
Definition AESKEY_192 : Z := 192.
Definition AESKEY_256 : Z := 256.
