(* ===== verification/EventBuffer.v ===== *)
(** * EventBuffer: [CEventBuffer] (QBase/EventBuffer.cpp) over libevent's buffers

    libevent is not part of the repository: its [evbuffer] is the class [EvBuffer],
    the operations the code calls with the behaviour its header documents
    ([event2/buffer.h]), and [list_buffer] is the instance the witnesses run.  The
    methods of [CEventBuffer] are written against the class. *)

From S2P Require Import Prelude Enum.

(** ** What the code relies on of libevent *)

(** The operations of [struct evbuffer].  [evbuffer_pullup b n] is the memory the
    returned pointer addresses, [None] the null pointer; [evbuffer_poke b l] is the
    buffer after the bytes [l] have been stored through that pointer. *)
Class EvBuffer (B : Type) := {
  contents : B -> list Z;
  evbuffer_get_length : B -> Z;
  evbuffer_pullup : B -> Z -> option (list Z);
  evbuffer_poke : B -> list Z -> B;
  evbuffer_drain : B -> Z -> B * Z;
  evbuffer_add : B -> list Z -> B * Z;
  evbuffer_search : B -> list Z -> Z
}.

(** The documented behaviour.  The result of a pull-up of zero bytes is not
    documented and no law constrains it. *)
Class EvBufferLaws (B : Type) {E : EvBuffer B} := {
  get_length_spec b : evbuffer_get_length b = Z.of_nat (length (contents b));
  pullup_enough b n : 0 < n <= Z.of_nat (length (contents b)) ->
    evbuffer_pullup b n = Some (firstn (Z.to_nat n) (contents b));
  pullup_short b n : Z.of_nat (length (contents b)) < n -> evbuffer_pullup b n = None;
  poke_spec b l : contents (evbuffer_poke b l) = store (contents b) l;
  drain_spec b n : 0 <= n -> snd (evbuffer_drain b n) = 0 /\
    contents (fst (evbuffer_drain b n)) = skipn (Z.to_nat n) (contents b);
  add_spec b l :
    (snd (evbuffer_add b l) = 0 /\ contents (fst (evbuffer_add b l)) = contents b ++ l) \/
    (snd (evbuffer_add b l) = -1 /\ contents (fst (evbuffer_add b l)) = contents b);
  search_found b w i : evbuffer_search b w = i -> i <> -1 ->
    0 <= i /\ (Z.to_nat i + length w <= length (contents b))%nat /\
    sub_at (contents b) w (Z.to_nat i) /\
    forall j, (j < Z.to_nat i)%nat -> ~ sub_at (contents b) w j;
  search_missing b w j : evbuffer_search b w = -1 -> w <> [] -> ~ sub_at (contents b) w j
}.

(** ** An instance: the buffer as the list of its bytes *)

#[export] Instance list_buffer : EvBuffer (list Z) := {
  contents b := b;
  evbuffer_get_length b := Z.of_nat (length b);
  evbuffer_pullup b n :=
    if (n <=? 0) || (Z.of_nat (length b) <? n) then None else Some (firstn (Z.to_nat n) b);
  evbuffer_poke b l := store b l;
  evbuffer_drain b n := (skipn (Z.to_nat n) b, 0);
  evbuffer_add b l := (b ++ l, 0);
  evbuffer_search b w := find b w 0
}.

#[export] Instance list_buffer_laws : EvBufferLaws (list Z).
Proof.
  constructor; cbn.
  - reflexivity.
  - intros b n Hn. replace ((n <=? 0) || _) with false; [reflexivity|].
    symmetry. apply orb_false_iff. lia.
  - intros b n Hn. replace ((n <=? 0) || _) with true; [reflexivity|].
    symmetry. apply orb_true_iff. lia.
  - reflexivity.
  - auto.
  - auto.
  - intros b w i H Hi. destruct (find_found b w 0 i ltac:(lia) H Hi) as (H1 & H2 & H3 & H4).
    rewrite Z.sub_0_r in *. auto.
  - intros b w j H Hw. apply (find_missing b w 0); auto; lia.
Qed.

(** ** [CEventBuffer] *)

Section EventBuffer.
Context {B : Type} {E : EvBuffer B} {L : EvBufferLaws B}.
(** ErrorCode.h's values, which only have to differ from [Q_RTN_OK]. *)
Context (Q_ERROR_NULLPOINTER Q_ERROR_INVALIDSOCK : Z).

(** A [struct bufferevent] as libevent's accessors show it: its address, its input and
    output buffers and its descriptor. *)
Record bufferevent := {
  bev_addr : positive;
  bufferevent_get_input : option B;
  bufferevent_get_output : option B;
  bufferevent_getfd : Z
}.

Record CEventBuffer := {
  m_pBev : option positive;
  m_pReadBuffer : option B;
  m_pWriteBuffer : option B;
  m_FD : Z
}.

Definition CEventBuffer_new : CEventBuffer :=
  {| m_pBev := None; m_pReadBuffer := None; m_pWriteBuffer := None; m_FD := Q_INVALID_SOCK |}.

(** [setBuffer]: the state it leaves on every exit and the code it returns. *)
Definition setBuffer (s : CEventBuffer) (pBev : option bufferevent) : CEventBuffer * Z :=
  match pBev with
  | None => (CEventBuffer_new, Q_ERROR_NULLPOINTER)
  | Some bev =>
      match bufferevent_get_input bev with
      | None => ({| m_pBev := Some (bev_addr bev); m_pReadBuffer := None;
                    m_pWriteBuffer := m_pWriteBuffer s; m_FD := m_FD s |}, Q_ERROR_NULLPOINTER)
      | Some r =>
          match bufferevent_get_output bev with
          | None => ({| m_pBev := Some (bev_addr bev); m_pReadBuffer := Some r;
                        m_pWriteBuffer := None; m_FD := m_FD s |}, Q_ERROR_NULLPOINTER)
          | Some w =>
              let s' := {| m_pBev := Some (bev_addr bev); m_pReadBuffer := Some r;
                           m_pWriteBuffer := Some w; m_FD := bufferevent_getfd bev |} in
              if bufferevent_getfd bev =? Q_INVALID_SOCK then (s', Q_ERROR_INVALIDSOCK)
              else (s', Q_RTN_OK)
          end
      end
  end.

Definition getTotalLens (s : CEventBuffer) : Z :=
  match m_pReadBuffer s with None => Q_INIT_NUMBER | Some b => evbuffer_get_length b end.

(** [(ev_ssize_t)iLens]: the unsigned length as the signed type of libevent. *)
Definition as_ssize (n : Z) : Z := if n <? 2 ^ 63 then n else n - 2 ^ 64.

Definition readBuffer (s : CEventBuffer) (iLens : Z) : option (list Z) :=
  match m_pReadBuffer s with None => None | Some b => evbuffer_pullup b (as_ssize iLens) end.

Definition set_read (s : CEventBuffer) (b : B) : CEventBuffer :=
  {| m_pBev := m_pBev s; m_pReadBuffer := Some b;
     m_pWriteBuffer := m_pWriteBuffer s; m_FD := m_FD s |}.

Definition set_write (s : CEventBuffer) (b : B) : CEventBuffer :=
  {| m_pBev := m_pBev s; m_pReadBuffer := m_pReadBuffer s;
     m_pWriteBuffer := Some b; m_FD := m_FD s |}.

(** Storing through the pointer [readBuffer] returned. *)
Definition pokeBuffer (s : CEventBuffer) (l : list Z) : CEventBuffer :=
  match m_pReadBuffer s with None => s | Some b => set_read s (evbuffer_poke b l) end.

Definition delBuffer (s : CEventBuffer) (iLens : Z) : CEventBuffer * Z :=
  match m_pReadBuffer s with
  | None => (s, Q_RTN_OK)
  | Some b => let (b', rc) := evbuffer_drain b iLens in (set_read s b', rc)
  end.

Definition writeBuffer (s : CEventBuffer) (pszBuffer : option (list Z)) : CEventBuffer * Z :=
  match pszBuffer, m_pWriteBuffer s with
  | Some l, Some b => let (b', rc) := evbuffer_add b l in (set_write s b', rc)
  | _, _ => (s, Q_ERROR_NULLPOINTER)
  end.

(** [Search] on a connection without a read buffer dereferences the null pointer;
    the parsers never call it there. *)
Definition Search (s : CEventBuffer) (w : list Z) : Z :=
  match m_pReadBuffer s with None => -1 | Some b => evbuffer_search b w end.

(** The unread input and the pending output of a connection. *)
Definition input (s : CEventBuffer) : list Z :=
  match m_pReadBuffer s with None => [] | Some b => contents b end.
Definition output (s : CEventBuffer) : list Z :=
  match m_pWriteBuffer s with None => [] | Some b => contents b end.

(** More bytes have arrived from the peer. *)
Definition arrives (s : CEventBuffer) (l : list Z) (s' : CEventBuffer) : Prop :=
  m_pBev s' = m_pBev s /\ m_FD s' = m_FD s /\ m_pWriteBuffer s' = m_pWriteBuffer s /\
  exists b b', m_pReadBuffer s = Some b /\ m_pReadBuffer s' = Some b' /\
               contents b' = contents b ++ l.

Lemma getTotalLens_spec s : getTotalLens s = Z.of_nat (length (input s)).
Proof.
  unfold getTotalLens, input. destruct (m_pReadBuffer s); [apply get_length_spec | reflexivity].
Qed.

Lemma as_ssize_small n : n < 2 ^ 63 -> as_ssize n = n.
Proof. unfold as_ssize. intros H. apply Z.ltb_lt in H. rewrite H. reflexivity. Qed.

Lemma readBuffer_enough s n : 0 < n <= Z.of_nat (length (input s)) -> n < 2 ^ 63 ->
  readBuffer s n = Some (firstn (Z.to_nat n) (input s)).
Proof.
  intros Hn H. unfold readBuffer, input in *. rewrite as_ssize_small by exact H.
  destruct (m_pReadBuffer s); cbn in *; [apply pullup_enough; exact Hn | lia].
Qed.

Lemma readBuffer_short s n : Z.of_nat (length (input s)) < n < 2 ^ 63 -> readBuffer s n = None.
Proof.
  intros Hn. unfold readBuffer, input in *. rewrite as_ssize_small by lia.
  destruct (m_pReadBuffer s); [apply pullup_short; lia | auto].
Qed.

Lemma delBuffer_input s n : 0 <= n -> input (fst (delBuffer s n)) = skipn (Z.to_nat n) (input s).
Proof.
  intros Hn. unfold delBuffer, input. destruct (m_pReadBuffer s) as [b|] eqn:Eb.
  - destruct (drain_spec b n Hn) as [_ H]. destruct (evbuffer_drain b n). exact H.
  - cbn. rewrite Eb, skipn_nil. reflexivity.
Qed.

Lemma delBuffer_output s n : output (fst (delBuffer s n)) = output s.
Proof.
  unfold delBuffer, output. destruct (m_pReadBuffer s) as [b|]; [|reflexivity].
  destruct (evbuffer_drain b n). reflexivity.
Qed.

Lemma pokeBuffer_input s l : (length l <= length (input s))%nat ->
  input (pokeBuffer s l) = store (input s) l.
Proof.
  unfold pokeBuffer, input. destruct (m_pReadBuffer s) as [b|] eqn:Eb; cbn; [intros _; apply poke_spec|].
  rewrite Eb. destruct l; cbn; [reflexivity | lia].
Qed.

Lemma pokeBuffer_output s l : output (pokeBuffer s l) = output s.
Proof. unfold pokeBuffer. destruct (m_pReadBuffer s); reflexivity. Qed.

(** The search finds the first occurrence. *)
Lemma Search_none s w : (forall j, ~ sub_at (input s) w j) -> Search s w = -1.
Proof.
  unfold Search, input. destruct (m_pReadBuffer s) as [b|]; [|reflexivity]. intros H.
  destruct (Z.eq_dec (evbuffer_search b w) (-1)) as [E1|E1]; [exact E1|].
  destruct (search_found b w _ eq_refl E1) as (_ & _ & H1 & _). contradiction (H _ H1).
Qed.

Lemma Search_first s w k : w <> [] -> sub_at (input s) w k -> (forall j, (j < k)%nat -> ~ sub_at (input s) w j) ->
  Search s w = Z.of_nat k.
Proof.
  unfold Search, input. intros Hw Hk Hj. destruct (m_pReadBuffer s) as [b|].
  - destruct (Z.eq_dec (evbuffer_search b w) (-1)) as [E1|E1]; [contradiction (search_missing b w k E1 Hw)|].
    destruct (search_found b w _ eq_refl E1) as (H0 & _ & H1 & H2).
    destruct (Nat.lt_trichotomy (Z.to_nat (evbuffer_search b w)) k) as [C | [C | C]]; [|lia|].
    + contradiction (Hj _ C).
    + contradiction (H2 _ C).
  - unfold sub_at in Hk. rewrite skipn_nil, firstn_nil in Hk. congruence.
Qed.

(** A write appends all of its bytes or, when it reports an error, none. *)
Lemma writeBuffer_output s l : let (s', rc) := writeBuffer s (Some l) in
  input s' = input s /\
  (rc = Q_RTN_OK -> m_pWriteBuffer s <> None -> output s' = output s ++ l) /\
  (rc <> Q_RTN_OK -> output s' = output s).
Proof.
  unfold writeBuffer, output, input, Q_RTN_OK. destruct (m_pWriteBuffer s) as [b|] eqn:Eb.
  - destruct (add_spec b l) as [[H1 H2] | [H1 H2]]; destruct (evbuffer_add b l) as [b' rc];
      cbn in *; subst rc; splits; auto; congruence || lia.
  - rewrite Eb. splits; auto; congruence.
Qed.

Lemma setBuffer_ok s bev s' : setBuffer s (Some bev) = (s', Q_RTN_OK) ->
  Q_ERROR_NULLPOINTER <> Q_RTN_OK -> Q_ERROR_INVALIDSOCK <> Q_RTN_OK ->
  m_pBev s' = Some (bev_addr bev) /\ m_FD s' = bufferevent_getfd bev /\ m_FD s' <> Q_INVALID_SOCK /\
  m_pReadBuffer s' = bufferevent_get_input bev /\ m_pReadBuffer s' <> None /\
  m_pWriteBuffer s' = bufferevent_get_output bev /\ m_pWriteBuffer s' <> None.
Proof.
  unfold setBuffer. destruct (bufferevent_get_input bev), (bufferevent_get_output bev);
    try congruence; try (intros [= _ ->]; congruence).
  destruct (bufferevent_getfd bev =? Q_INVALID_SOCK) eqn:E1; intros [= <-] H1 H2; try congruence.
  apply Z.eqb_neq in E1. cbn. splits; auto; discriminate.
Qed.

End EventBuffer.

Arguments bufferevent : clear implicits.
Arguments CEventBuffer : clear implicits.
