(* ===== verification/TcpParser.v ===== *)
(** * TcpParser: the frame format of TCP connections (QBase/TcpParser.cpp)

    A message is preceded by a head: one byte for a length up to 125, the byte 126 and
    a big-endian 16-bit length, or the byte 127 and a 32-bit length in a field of the
    size of [size_t].  [SZ] is [sizeof(size_t)], 4 or 8 on the hosts the project builds
    for. *)

From S2P Require Import Prelude Enum EventBuffer.

Definition TCP_HRAD_MAXLENS : Z := 5.
Definition TCPBUFLENS_125 : Z := 125.
Definition TCPBUFLENS_126 : Z := 126.
Definition TCPBUFLENS_127 : Z := 127.

Record CTcpParser := {
  m_iParsedLens : Z;
  m_iBufLens : Z;
  m_iHeadLens : Z;
  m_iTotalLens : Z;
  m_iNeedReadLens : Z;
  m_acHead : list Z
}.

Definition CTcpParser_new : CTcpParser :=
  {| m_iParsedLens := 0; m_iBufLens := 0; m_iHeadLens := 0; m_iTotalLens := 0;
     m_iNeedReadLens := 0; m_acHead := repeat 0 (Z.to_nat TCP_HRAD_MAXLENS) |}.

Definition getParsedLens : CTcpParser -> Z := m_iParsedLens.
Definition getBufLens : CTcpParser -> Z := m_iBufLens.

Definition set_lens (p : CTcpParser) (parsed buf head total need : Z) : CTcpParser :=
  {| m_iParsedLens := parsed; m_iBufLens := buf; m_iHeadLens := head;
     m_iTotalLens := total; m_iNeedReadLens := need; m_acHead := m_acHead p |}.

Definition set_need (p : CTcpParser) (need : Z) : CTcpParser :=
  set_lens p (m_iParsedLens p) (m_iBufLens p) (m_iHeadLens p) (m_iTotalLens p) need.

Definition set_head (p : CTcpParser) (buf head : Z) : CTcpParser :=
  set_lens p (m_iParsedLens p) buf head (m_iTotalLens p) (m_iNeedReadLens p).

Section TcpParser.
Context {B : Type} {E : EvBuffer B} {L : EvBufferLaws B}.
Context (SZ : nat).

(** [(size_t)] of an integer. *)
Definition size_t (x : Z) : Z := x mod Pn SZ.

(** [junk] is the memory that follows the bytes pulled up: the long form reads a
    [size_t] where only four bytes were asked for. *)
Definition parseHead (p : CTcpParser) (pBuffer : CEventBuffer B) (junk : list Z) : CTcpParser * bool :=
  let p := set_need p 1 in
  match readBuffer pBuffer 1 with
  | None => (p, false)
  | Some pHead =>
      let cFlag := sx8 (nth 0 pHead 0) in
      if cFlag <=? TCPBUFLENS_125 then (set_head p (size_t cFlag) 1, true)
      else if cFlag =? TCPBUFLENS_126 then
        let p := set_need p (1 + 2) in
        if m_iTotalLens p <? m_iNeedReadLens p then (p, false)
        else match readBuffer pBuffer (m_iNeedReadLens p) with
             | None => (p, false)
             | Some pHead => (set_head p (ntohs (le (firstn 2 (skipn 1 pHead)))) (1 + 2), true)
             end
      else if cFlag =? TCPBUFLENS_127 then
        let p := set_need p (1 + 4) in
        if m_iTotalLens p <? m_iNeedReadLens p then (p, false)
        else match readBuffer pBuffer (m_iNeedReadLens p) with
             | None => (p, false)
             | Some pHead =>
                 let u := le (firstn SZ (skipn 1 pHead ++ junk)) in
                 (set_head p (ntohl (w32 u)) (1 + Z.of_nat SZ), true)
             end
      else (p, false)
  end.

(** [parsePack]: the bytes at the pointer it returns, [None] for the null pointer.
    The caller takes the first [getBufLens] of them. *)
Definition parsePack (p : CTcpParser) (pBuffer : CEventBuffer B) (junk : list Z)
  : CTcpParser * option (list Z) :=
  let total := getTotalLens pBuffer in
  let p := set_lens p 0 0 (m_iHeadLens p) total (m_iNeedReadLens p) in
  if total =? 0 then (p, None)
  else match parseHead p pBuffer junk with
       | (p, false) => (p, None)
       | (p, true) =>
           let p := set_need p (size_t (m_iHeadLens p + m_iBufLens p)) in
           if m_iTotalLens p <? m_iNeedReadLens p then (p, None)
           else if m_iBufLens p =? 0 then
             (set_lens p (m_iHeadLens p) (m_iBufLens p) (m_iHeadLens p)
                (m_iTotalLens p) (m_iNeedReadLens p), Some [])
           else match readBuffer pBuffer (m_iNeedReadLens p) with
                | None => (p, None)
                | Some pMsg =>
                    (set_lens p (size_t (m_iHeadLens p + m_iBufLens p)) (m_iBufLens p)
                       (m_iHeadLens p) (m_iTotalLens p) (m_iNeedReadLens p),
                     Some (skipn (Z.to_nat (m_iHeadLens p)) pMsg))
                end
       end.

(** The bytes [createHead] writes from [m_acHead] on, which are also the first
    [iHeadLens] bytes at the pointer it returns. *)
Definition head_bytes (iLens : Z) : list Z :=
  if iLens <=? TCPBUFLENS_125 then [w8 iLens]
  else if iLens <=? 65535 then TCPBUFLENS_126 :: le_bytes 2 (ntohs (w16 iLens))
  else TCPBUFLENS_127 :: le_bytes SZ (ntohl (w32 iLens)).

(** [createHead] with a memory: [after] are the bytes that follow the array
    [m_acHead], which the write reaches when it is longer than the array.  The
    result is the parser, the memory after the array and [iHeadLens]. *)
Definition createHead (p : CTcpParser) (after : list Z) (iLens : Z) : CTcpParser * list Z * Z :=
  let mem := store (m_acHead p ++ after) (head_bytes iLens) in
  ({| m_iParsedLens := m_iParsedLens p; m_iBufLens := m_iBufLens p;
      m_iHeadLens := m_iHeadLens p; m_iTotalLens := m_iTotalLens p;
      m_iNeedReadLens := m_iNeedReadLens p;
      m_acHead := firstn (length (m_acHead p)) mem |},
   skipn (length (m_acHead p)) mem,
   Z.of_nat (length (head_bytes iLens))).

(** What the caller sends: [iHeadLens] bytes from the returned pointer. *)
Definition sent_head (r : CTcpParser * list Z * Z) : list Z :=
  let '(p, after, n) := r in firstn (Z.to_nat n) (m_acHead p ++ after).

Lemma createHead_sent p after iLens : sent_head (createHead p after iLens) = head_bytes iLens.
Proof.
  unfold sent_head, createHead. cbn [m_acHead]. rewrite firstn_skipn, Nat2Z.id.
  apply firstn_store.
Qed.

(** A frame on the wire. *)
Definition frame (m : list Z) : list Z := head_bytes (Z.of_nat (length m)) ++ m.

(** ** The head as a function of the unread bytes *)

(** The lengths of the head and of the message that the first bytes announce;
    [None] when more bytes are needed. *)
Definition head_of (l : list Z) : option (Z * Z) :=
  match l with
  | [] => None
  | f :: r =>
      if (sx8 f <=? TCPBUFLENS_125) then Some (1, size_t (sx8 f))
      else if f =? TCPBUFLENS_126 then
        if Nat.ltb (length r) 2 then None else Some (1 + 2, be (firstn 2 r))
      else if Nat.ltb (length r) 4 then None else Some (1 + Z.of_nat SZ, be (firstn 4 r))
  end.

Context (HSZ : SZ = 4%nat \/ SZ = 8%nat).

Lemma sx8_cases f : is_byte f -> (sx8 f <=? TCPBUFLENS_125) = false ->
  (f = 126 \/ f = 127) /\ sx8 f = f.
Proof.
  unfold is_byte, sx8, TCPBUFLENS_125. intros Hf. destruct (Z.ltb_spec f (2 ^ 7)); lia.
Qed.

(** The over-read of the long form never shows: only its low four bytes are kept. *)
Lemma long_field a junk : length a = 4%nat -> bytes a -> ntohl (w32 (le (firstn SZ (a ++ junk)))) = be a.
Proof.
  intros La Ha. replace (firstn SZ (a ++ junk)) with (a ++ firstn (SZ - 4) junk)
    by (rewrite firstn_app, La, (firstn_all2 a); [reflexivity | lia]).
  rewrite le_app, La. unfold w32, ntohl. change (2 ^ 32) with (Pn 4).
  rewrite Z.add_comm, Z.mul_comm, mod_add_small by (rewrite <- La; apply le_bound, Ha).
  rewrite <- La. apply be_le_bytes_le, Ha.
Qed.

Lemma short_field a : length a = 2%nat -> bytes a -> ntohs (le a) = be a.
Proof. intros La Ha. unfold ntohs. rewrite <- La. apply be_le_bytes_le, Ha. Qed.

Lemma parseHead_spec p pBuffer junk : bytes (input pBuffer) -> m_iTotalLens p = getTotalLens pBuffer ->
  let (p', ok) := parseHead p pBuffer junk in
  m_iParsedLens p' = m_iParsedLens p /\ m_iTotalLens p' = m_iTotalLens p /\ m_acHead p' = m_acHead p /\
  match head_of (input pBuffer) with
  | None => ok = false /\ m_iBufLens p' = m_iBufLens p
  | Some (h, n) => ok = true /\ m_iHeadLens p' = h /\ m_iBufLens p' = n
  end.
Proof.
  intros HB HT. rewrite getTotalLens_spec in HT. unfold parseHead, head_of.
  assert (E1 := fun n => readBuffer_enough pBuffer n). assert (E2 := fun n => readBuffer_short pBuffer n).
  destruct (input pBuffer) as [|f r] eqn:EI; [rewrite E2 by (cbn; lia); cbn; auto|].
  cbn [length] in *. inversion HB as [|? ? Hf Hr]; subst.
  rewrite E1 by lia. change (nth 0 (firstn (Z.to_nat 1) (f :: r)) 0) with f.
  destruct (sx8 f <=? TCPBUFLENS_125) eqn:E125; [cbn; splits; reflexivity|].
  cbn [m_iTotalLens m_iNeedReadLens set_need set_lens]. rewrite HT.
  destruct (sx8_cases f Hf E125) as [[-> | ->] Hsx]; rewrite Hsx;
    [change (126 =? TCPBUFLENS_126) with true
    |change (127 =? TCPBUFLENS_126) with false; change (127 =? TCPBUFLENS_127) with true];
    cbv iota.
  - destruct (Nat.ltb_spec (length r) 2) as [Hl|Hl].
    + rewrite (proj2 (Z.ltb_lt _ _)) by lia. splits; (reflexivity || exact HT).
    + rewrite (proj2 (Z.ltb_ge _ _)) by lia. rewrite E1 by lia.
      change (Z.to_nat (1 + 2)) with 3%nat. change (skipn 1 (firstn 3 (126 :: r))) with (firstn 2 r).
      rewrite firstn_firstn. cbn [Nat.min].
      rewrite short_field by (rewrite ?length_firstn; auto with words; lia).
      splits; (reflexivity || exact HT).
  - destruct (Nat.ltb_spec (length r) 4) as [Hl|Hl].
    + rewrite (proj2 (Z.ltb_lt _ _)) by lia. splits; (reflexivity || exact HT).
    + rewrite (proj2 (Z.ltb_ge _ _)) by lia. rewrite E1 by lia.
      change (Z.to_nat (1 + 4)) with 5%nat. change (skipn 1 (firstn 5 (127 :: r))) with (firstn 4 r).
      rewrite long_field by (rewrite ?length_firstn; auto with words; lia).
      splits; (reflexivity || exact HT).
Qed.

(** ** Frames *)

(** The messages whose length the head can carry; on a 64-bit host, those shorter
    than 2^32 bytes. *)
Definition fits (m : list Z) : Prop :=
  Z.of_nat (length m) < 2 ^ 32 /\ 1 + Z.of_nat SZ + Z.of_nat (length m) < Pn SZ.

Lemma be_head2 n l : 0 <= n < 2 ^ 16 -> be (firstn 2 (le_bytes 2 (ntohs (w16 n)) ++ l)) = n.
Proof.
  intros Hn. rewrite firstn_app, length_le_bytes, firstn_all2, Nat.sub_diag, app_nil_r
    by (rewrite length_le_bytes; lia).
  unfold ntohs. rewrite le_bytes_be, be_rev_le_bytes. unfold w16. change (Pn 2) with (2 ^ 16).
  rewrite Z.mod_mod by lia. apply Z.mod_small, Hn.
Qed.

Lemma be_head4 n l : 0 <= n < 2 ^ 32 -> be (firstn 4 (le_bytes SZ (ntohl (w32 n)) ++ l)) = n.
Proof.
  intros Hn. replace (firstn 4 (le_bytes SZ (ntohl (w32 n)) ++ l)) with (le_bytes 4 (ntohl (w32 n))).
  - unfold ntohl. rewrite le_bytes_be, be_rev_le_bytes. unfold w32. change (Pn 4) with (2 ^ 32).
    rewrite Z.mod_mod by lia. apply Z.mod_small, Hn.
  - destruct HSZ as [-> | ->]; reflexivity.
Qed.

Lemma length_head_bytes n : (length (head_bytes n) <= 1 + SZ)%nat /\ (1 <= length (head_bytes n))%nat.
Proof.
  unfold head_bytes. destruct (n <=? _); [|destruct (n <=? _)]; cbn [length];
    rewrite ?length_le_bytes; lia.
Qed.

Lemma bytes_head_bytes n : bytes (head_bytes n).
Proof.
  unfold head_bytes. destruct (n <=? _); [|destruct (n <=? _)]; repeat constructor;
    auto with words; unfold is_byte, w8, TCPBUFLENS_126, TCPBUFLENS_127; try lia;
    apply Z.mod_pos_bound; lia.
Qed.

(** The head of a frame is recognised whatever follows it. *)
Lemma head_of_head n rest : 0 <= n < 2 ^ 32 ->
  head_of (head_bytes n ++ rest) = Some (Z.of_nat (length (head_bytes n)), n).
Proof.
  intros Hn. unfold head_bytes, head_of, TCPBUFLENS_125, TCPBUFLENS_126, TCPBUFLENS_127.
  destruct (Z.leb_spec n 125); [|destruct (Z.leb_spec n 65535)]; cbn [app].
  - rewrite w8_small by (unfold is_byte; lia). unfold sx8.
    rewrite (proj2 (Z.ltb_lt n (2 ^ 7))) by lia. rewrite (proj2 (Z.leb_le n 125)) by lia.
    unfold size_t. rewrite Z.mod_small; [reflexivity|]. destruct HSZ as [-> | ->]; [change (Pn 4) with (2 ^ 32) | change (Pn 8) with (2 ^ 64)]; lia.
  - change (sx8 126 <=? 125) with false. change (126 =? 126) with true. cbv iota.
    destruct (Nat.ltb_spec (length (le_bytes 2 (ntohs (w16 n)) ++ rest)) 2) as [Hl|_];
      [rewrite length_app, length_le_bytes in Hl; lia|].
    rewrite be_head2 by lia. cbn [length]. rewrite length_le_bytes. reflexivity.
  - change (sx8 127 <=? 125) with false. change (127 =? 126) with false. cbv iota.
    destruct (Nat.ltb_spec (length (le_bytes SZ (ntohl (w32 n)) ++ rest)) 4) as [Hl|_];
      [rewrite length_app, length_le_bytes in Hl; lia|].
    rewrite be_head4 by lia. cbn [length]. rewrite length_le_bytes, Nat2Z.inj_succ. do 2 f_equal. lia.
Qed.

(** More bytes never change a head once it is recognised. *)
Lemma head_of_app l l' r : head_of l = Some r -> head_of (l ++ l') = Some r.
Proof.
  destruct l as [|f l]; [discriminate|]. cbn [app head_of].
  destruct (sx8 f <=? _); [auto|]. destruct (f =? _).
  all: rewrite length_app; destruct (Nat.ltb_spec (length l) 2), (Nat.ltb_spec (length l) 4);
    try discriminate.
  all: rewrite (proj2 (Nat.ltb_ge _ _)) by lia; rewrite firstn_app.
  all: try (replace (2 - length l)%nat with 0%nat by lia);
       try (replace (4 - length l)%nat with 0%nat by lia); rewrite app_nil_r; auto.
Qed.

(** What [parsePack] does, by the head. *)
Lemma parsePack_head p pBuffer junk : bytes (input pBuffer) ->
  let total := Z.of_nat (length (input pBuffer)) in
  let (p', r) := parsePack p pBuffer junk in
  m_acHead p' = m_acHead p /\
  match head_of (input pBuffer) with
  | None => r = None /\ getParsedLens p' = 0
  | Some (h, n) =>
      let need := size_t (h + n) in
      if total <? need then r = None /\ getParsedLens p' = 0
      else getBufLens p' = n /\
        if n =? 0 then r = Some [] /\ getParsedLens p' = h
        else match readBuffer pBuffer need with
             | None => r = None /\ getParsedLens p' = 0
             | Some pMsg => r = Some (skipn (Z.to_nat h) pMsg) /\ getParsedLens p' = need
             end
  end.
Proof.
  intros HB total. unfold parsePack. rewrite getTotalLens_spec. fold total.
  destruct (Z.eqb_spec total 0) as [E0|E0].
  - replace (input pBuffer) with (@nil Z); [split; [reflexivity | split; reflexivity]|].
    subst total. destruct (input pBuffer); [reflexivity | discriminate].
  - set (p0 := set_lens p 0 0 (m_iHeadLens p) total (m_iNeedReadLens p)).
    pose proof (parseHead_spec p0 pBuffer junk HB) as H. rewrite getTotalLens_spec in H.
    specialize (H eq_refl). destruct (parseHead p0 pBuffer junk) as [p' ok].
    destruct H as (H1 & H2 & H3 & H).
    destruct (head_of (input pBuffer)) as [[h n]|]; [|destruct H as [-> Hb]; splits; auto].
    destruct H as (-> & Hh & Hn). cbn [m_iHeadLens m_iBufLens m_iTotalLens m_iNeedReadLens set_need set_lens].
    rewrite Hh, Hn, H2. cbn [m_iTotalLens p0 set_lens].
    destruct (total <? size_t (h + n)); [splits; auto|].
    destruct (n =? 0); [splits; auto|].
    destruct (readBuffer pBuffer (size_t (h + n))); splits; auto.
Qed.

Lemma length_frame m : length (frame m) = (length (head_bytes (Z.of_nat (length m))) + length m)%nat.
Proof. apply length_app. Qed.

Lemma frame_need m : fits m ->
  size_t (Z.of_nat (length (head_bytes (Z.of_nat (length m)))) + Z.of_nat (length m)) =
  Z.of_nat (length (frame m)).
Proof.
  intros [H1 H2]. destruct (length_head_bytes (Z.of_nat (length m))).
  unfold size_t. rewrite length_frame, Z.mod_small by lia. lia.
Qed.

(** A frame at the front of the input is delivered and nothing else is. *)
Lemma parsePack_frame p pBuffer junk m rest : fits m -> bytes (input pBuffer) ->
  input pBuffer = frame m ++ rest ->
  let (p', r) := parsePack p pBuffer junk in
  (exists s, r = Some s /\ firstn (length m) s = m) /\
  getBufLens p' = Z.of_nat (length m) /\ getParsedLens p' = Z.of_nat (length (frame m)) /\
  m_acHead p' = m_acHead p.
Proof.
  intros Hf HB EI. pose proof (parsePack_head p pBuffer junk HB) as H. cbv zeta in H.
  destruct (parsePack p pBuffer junk) as [p' r]. destruct H as [Ha H].
  assert (Hh : head_of (input pBuffer) = Some (Z.of_nat (length (head_bytes (Z.of_nat (length m)))),
                                              Z.of_nat (length m))).
  { rewrite EI. unfold frame. rewrite <- app_assoc. apply head_of_head. destruct Hf; lia. }
  rewrite Hh, (frame_need m Hf) in H.
  assert (Hl : length (input pBuffer) = (length (frame m) + length rest)%nat) by (rewrite EI; apply length_app).
  rewrite (proj2 (Z.ltb_ge _ _)) in H by lia. destruct H as [Hb H].
  destruct (Z.eqb_spec (Z.of_nat (length m)) 0) as [E0|E0].
  - destruct H as [-> Hp]. destruct m; [|discriminate]. splits; auto.
    exists []. auto.
  - destruct (length_head_bytes (Z.of_nat (length m))). rewrite length_frame in *. destruct Hf as [Hf1 Hf2].
    assert (SZ <= 8)%nat by lia.
    rewrite readBuffer_enough in H by lia.
    destruct H as [-> Hp]. splits; auto. eexists. split; [reflexivity|].
    rewrite !Nat2Z.id, EI. unfold frame.
    rewrite <- length_app, firstn_app_len, skipn_app, skipn_all, Nat.sub_diag. apply firstn_all.
Qed.

(** Until the whole frame is there, nothing is delivered and nothing consumed. *)
Lemma parsePack_partial p pBuffer junk m k : fits m -> bytes (input pBuffer) ->
  (k < length (frame m))%nat -> input pBuffer = firstn k (frame m) ->
  let (p', r) := parsePack p pBuffer junk in
  r = None /\ getParsedLens p' = 0 /\ m_acHead p' = m_acHead p.
Proof.
  intros Hf HB Hk EI. pose proof (parsePack_head p pBuffer junk HB) as H. cbv zeta in H.
  destruct (parsePack p pBuffer junk) as [p' r]. destruct H as [Ha H].
  destruct (head_of (input pBuffer)) as [[h n]|] eqn:Eh; [|destruct H; auto].
  assert (Hh : Some (h, n) = Some (Z.of_nat (length (head_bytes (Z.of_nat (length m)))),
                                  Z.of_nat (length m))).
  { rewrite <- (head_of_head _ m) by (destruct Hf; lia).
    symmetry. replace (_ ++ m) with (firstn k (frame m) ++ skipn k (frame m)) by apply firstn_skipn.
    apply head_of_app. rewrite <- EI. exact Eh. }
  injection Hh as -> ->. rewrite (frame_need m Hf) in H.
  rewrite EI, length_firstn, (proj2 (Z.ltb_lt _ _)) in H by lia. destruct H; auto.
Qed.

(** A message that is returned takes at least a byte of the input, provided a pull-up of
    zero bytes returns the null pointer. *)
Lemma parsePack_progress p pBuffer junk p' l : (forall b, evbuffer_pullup b 0 = None) ->
  parsePack p pBuffer junk = (p', Some l) -> 1 <= getParsedLens p' /\ (0 < length (input pBuffer))%nat.
Proof.
  intros H0. unfold parsePack. rewrite getTotalLens_spec.
  destruct (Z.eqb_spec (Z.of_nat (length (input pBuffer))) 0) as [E0|E0]; [discriminate|].
  set (p0 := set_lens p 0 0 _ _ _). destruct (parseHead p0 pBuffer junk) as [p1 [|]] eqn:EH; [|discriminate].
  assert (Hh : 1 <= m_iHeadLens p1).
  { revert EH. unfold parseHead. destruct (readBuffer _ 1); [|discriminate].
    destruct (_ <=? _); [intros [= <-]; cbn; lia|].
    destruct (_ =? _); [|destruct (_ =? _); [|discriminate]]; (destruct (_ <? _); [discriminate|]);
      (destruct (readBuffer _ _); [|discriminate]); intros H; apply (f_equal fst) in H; cbn [fst] in H; subst p1; cbn [m_iHeadLens set_head set_lens]; lia. }
  destruct (_ <? _); [discriminate|]. destruct (_ =? 0).
  { intros [= <- _]. split; [exact Hh | lia]. }
  cbn [m_iNeedReadLens set_need set_lens m_iHeadLens m_iBufLens].
  set (need := size_t (m_iHeadLens p1 + m_iBufLens p1)).
  destruct (readBuffer pBuffer need) eqn:ER; [|discriminate].
  intros [= <- _]. cbn [getParsedLens m_iParsedLens set_lens]. split; [|lia].
  assert (Hn : 0 <= need) by (apply Z.mod_pos_bound; destruct HSZ as [-> | ->]; unfold Pn; lia).
  destruct (Z.eq_dec need 0) as [Ez|]; [exfalso | unfold need in *; lia].
  rewrite Ez in ER. unfold readBuffer in ER. change (as_ssize 0) with 0 in ER.
  destruct (m_pReadBuffer pBuffer) as [b|]; [rewrite H0 in ER|]; discriminate ER.
Qed.

(** A first byte between 128 and 254 is a negative [char]: the length it is read as
    exceeds every input, so the connection waits for ever. *)
Lemma parsePack_stuck p pBuffer junk f r : input pBuffer = f :: r -> bytes (input pBuffer) ->
  128 <= f < 255 -> Z.of_nat (length (input pBuffer)) < Pn SZ - 128 ->
  let (p', res) := parsePack p pBuffer junk in res = None /\ getParsedLens p' = 0.
Proof.
  intros EI HB Hf Hl. pose proof (parsePack_head p pBuffer junk HB) as H. cbv zeta in H.
  destruct (parsePack p pBuffer junk) as [p' res]. destruct H as [_ H].
  assert (Hh : head_of (input pBuffer) = Some (1, size_t (f - 2 ^ 8))).
  { rewrite EI. cbn [head_of]. unfold sx8, TCPBUFLENS_125.
    rewrite (proj2 (Z.ltb_ge f (2 ^ 7))), (proj2 (Z.leb_le (f - 2 ^ 8) 125)) by lia. reflexivity. }
  rewrite Hh in H. cbv zeta in H.
  assert (HP : 2 ^ 32 <= Pn SZ) by (destruct HSZ as [-> | ->]; unfold Pn; vm_compute; discriminate).
  unfold size_t in H. rewrite Z.add_mod_idemp_r in H by lia.
  replace ((1 + (f - 2 ^ 8)) mod Pn SZ) with (f - 255 + Pn SZ) in H
    by (apply (Z.mod_unique_pos _ _ (-1)); lia).
  rewrite (proj2 (Z.ltb_lt _ _)) in H by lia. exact H.
Qed.

(** ** The array [m_acHead] *)

Lemma le_bytes_small n k x : 0 <= x < Pn n -> le_bytes (n + k) x = le_bytes n x ++ repeat 0 k.
Proof.
  revert x. induction n; intros x Hx.
  - rewrite Pn_0 in Hx. replace x with 0 by lia. cbn [plus app le_bytes].
    induction k; [reflexivity|]. cbn [le_bytes repeat].
    rewrite Z.mod_0_l, Z.div_0_l, IHk by lia. reflexivity.
  - cbn [plus le_bytes app]. rewrite Pn_S in Hx. rewrite IHn; [reflexivity|].
    split; [apply Z.div_pos; lia | apply Z.div_lt_upper_bound; lia].
Qed.

Lemma ntohl_bound x : 0 <= ntohl x < Pn 4.
Proof. unfold ntohl. rewrite <- (length_le_bytes 4 x). apply be_bound, bytes_le_bytes. Qed.

(** What [createHead] leaves in the memory after the array: the long form writes
    [SZ - 4] zero bytes there. *)
Lemma createHead_after p after n : length (m_acHead p) = Z.to_nat TCP_HRAD_MAXLENS ->
  (SZ - 4 <= length after)%nat ->
  snd (fst (createHead p after n)) =
  if n <=? 65535 then after else repeat 0 (SZ - 4) ++ skipn (SZ - 4) after.
Proof.
  unfold createHead, TCP_HRAD_MAXLENS, head_bytes, TCPBUFLENS_125. change (Z.to_nat 5) with 5%nat.
  intros La Hl. cbn [fst snd]. rewrite La. unfold store.
  destruct (Z.leb_spec n 125), (Z.leb_spec n 65535); try lia; cbn [length];
    rewrite ?length_le_bytes.
  1-2: rewrite skipn_app, ?length_cons, ?length_le_bytes; cbn [length skipn];
    destruct (m_acHead p) as [|? [|? [|? [|? [|? [|? ?]]]]]]; try discriminate; reflexivity.
  replace SZ with (4 + (SZ - 4))%nat at 1 by lia. rewrite le_bytes_small by apply ntohl_bound.
  destruct (m_acHead p) as [|? [|? [|? [|? [|? [|? ?]]]]]]; try discriminate.
  destruct HSZ as [-> | ->]; reflexivity.
Qed.

End TcpParser.

(** ** The claims *)

(** Claim C17: a message of any length the head can carry comes back from its frame.
    With [createHead]'s bytes and the message at the front of the connection's input
    (on 32- and 64-bit hosts, whatever follows and whatever lies in memory after the
    bytes pulled up), [parsePack] returns the message, its length and the number of
    bytes to drain; as long as only a proper prefix of the frame has arrived it returns
    the null pointer and asks to drain nothing. *)
Theorem frame_roundtrip {B} {E : EvBuffer B} {L : EvBufferLaws B} SZ (q p : CTcpParser) after
  (m rest junk : list Z) (pBuffer : CEventBuffer B)
  (HSZ : SZ = 4%nat \/ SZ = 8%nat) (Hm : fits SZ m) (HB : bytes m) (HR : bytes rest) :
  let wire := sent_head (createHead SZ q after (Z.of_nat (length m))) ++ m in
  (input pBuffer = wire ++ rest ->
   let (p', r) := parsePack SZ p pBuffer junk in
   (exists s, r = Some s /\ firstn (Z.to_nat (getBufLens p')) s = m) /\
   getBufLens p' = Z.of_nat (length m) /\ getParsedLens p' = Z.of_nat (length wire)) /\
  (forall k, (k < length wire)%nat -> input pBuffer = firstn k wire ->
   let (p', r) := parsePack SZ p pBuffer junk in r = None /\ getParsedLens p' = 0).
Proof.
  cbv zeta. rewrite createHead_sent. change (head_bytes SZ _ ++ m) with (frame SZ m).
  assert (HF : bytes (frame SZ m)) by (apply Forall_app; split; [apply bytes_head_bytes, HSZ | exact HB]).
  split.
  - intros EI. pose proof (parsePack_frame SZ HSZ p pBuffer junk m rest Hm) as H.
    rewrite EI in H. specialize (H ltac:(apply Forall_app; auto) eq_refl).
    destruct (parsePack SZ p pBuffer junk) as [p' r]. destruct H as ((s & Hs & Hs') & Hb & Hp & _).
    splits; auto. exists s. rewrite Hb, Nat2Z.id. auto.
  - intros k Hk EI. pose proof (parsePack_partial SZ HSZ p pBuffer junk m k Hm) as H.
    rewrite EI in H. specialize (H ltac:(auto with words) Hk eq_refl).
    destruct (parsePack SZ p pBuffer junk) as [p' r]. destruct H as (H1 & H2 & _). auto.
Qed.

Lemma frame_roundtrip_witness :
  let buf := {| m_pBev := Some 1%positive; m_pReadBuffer := Some (repeat 7 3); m_pWriteBuffer := None; m_FD := 5 |} in
  fits 8 [1; 2; 3] /\
  parsePack 8 CTcpParser_new
    (set_read buf (sent_head (createHead 8 CTcpParser_new (repeat 0 8) 3) ++ [1; 2; 3; 9])) [] =
  (set_lens CTcpParser_new 4 3 1 5 4, Some [1; 2; 3]).
Proof.
  cbv zeta. split; [split; vm_compute; reflexivity|].
  pose proof (frame_roundtrip 8 CTcpParser_new CTcpParser_new (repeat 0 8) [1; 2; 3] [9] []
    (set_read (B := list Z) {| m_pBev := Some 1%positive; m_pReadBuffer := Some (repeat 7 3);
      m_pWriteBuffer := None; m_FD := 5 |}
      (sent_head (createHead 8 CTcpParser_new (repeat 0 8) 3) ++ [1; 2; 3; 9]))
    (or_intror eq_refl) ltac:(split; vm_compute; reflexivity) ltac:(check_bytes) ltac:(check_bytes)) as H.
  destruct H as [H _]. specialize (H eq_refl). vm_compute. reflexivity.
Defined.

(** [createHead] never disturbs the memory after [m_acHead] for messages up
    to 65535 bytes, nor on 32-bit hosts; on 64-bit hosts the head of a longer message is
    nine bytes and the last four of them, zeros, are written past the end of the array. *)
Theorem createHead_overflow p after n (HP : length (m_acHead p) = Z.to_nat TCP_HRAD_MAXLENS)
  (HA : (4 <= length after)%nat) :
  snd (fst (createHead 4 p after n)) = after /\
  (n <= 65535 -> snd (fst (createHead 8 p after n)) = after) /\
  (65535 < n -> snd (fst (createHead 8 p after n)) = [0; 0; 0; 0] ++ skipn 4 after).
Proof.
  splits.
  - rewrite createHead_after; auto; [destruct (n <=? _); reflexivity | cbn; lia].
  - intros Hn. rewrite createHead_after; auto. rewrite (proj2 (Z.leb_le _ _)) by lia. reflexivity.
  - intros Hn. rewrite createHead_after; auto. rewrite (proj2 (Z.leb_gt _ _)) by lia. reflexivity.
Qed.

Lemma createHead_overflow_witness :
  snd (fst (createHead 8 CTcpParser_new [1; 2; 3; 4; 5] 65536)) = [0; 0; 0; 0; 5].
Proof.
  apply (createHead_overflow CTcpParser_new [1; 2; 3; 4; 5] 65536); vm_compute;
    (reflexivity || auto 10 with arith).
Defined.
