(* ===== verification/BufferMgr.v ===== *)
(** * BufferMgr: the growing byte buffer [CBuffer] (QBase/BufferMgr.cpp)

    The block [new char[n]] returns is the parameter [new_char n]: [None] when the
    allocation fails, otherwise [n] bytes of unknown content. *)

From S2P Require Import Prelude.

Record CBuffer := {
  m_pBuffer : option (list Z);
  m_iOffset : Z;
  m_iTotalSize : Z
}.

Section BufferMgr.
Context (new_char : Z -> option (list Z)).

(** [New]: keeps a block that is large enough, otherwise replaces it. *)
Definition New (s : CBuffer) (iLens : Z) : CBuffer * bool :=
  let replace :=
    match new_char iLens with
    | None => ({| m_pBuffer := None; m_iOffset := m_iOffset s; m_iTotalSize := 0 |}, false)
    | Some p => ({| m_pBuffer := Some p; m_iOffset := m_iOffset s; m_iTotalSize := iLens |}, true)
    end in
  match m_pBuffer s with
  | None => replace
  | Some _ => if m_iTotalSize s <? iLens then replace else (s, true)
  end.

(** [reNew]: the same, but a replaced block's bytes are copied. *)
Definition reNew (s : CBuffer) (iLens : Z) : CBuffer * bool :=
  match m_pBuffer s with
  | None => New s iLens
  | Some old =>
      if iLens <=? m_iTotalSize s then (s, true)
      else match new_char iLens with
           | None => ({| m_pBuffer := None; m_iOffset := m_iOffset s; m_iTotalSize := 0 |}, false)
           | Some p => ({| m_pBuffer := Some (store p (firstn (Z.to_nat (m_iTotalSize s)) old));
                          m_iOffset := m_iOffset s; m_iTotalSize := iLens |}, true)
           end
  end.

Definition CBuffer_new : CBuffer :=
  fst (New {| m_pBuffer := None; m_iOffset := 0; m_iTotalSize := 0 |} (5 * 1024)).

Definition CBuffer_new_size (iInitSize : Z) : CBuffer :=
  let n := if iInitSize =? 0 then 1 else iInitSize in
  fst (New {| m_pBuffer := None; m_iOffset := 0; m_iTotalSize := n |} n).

Definition reSet (s : CBuffer) : CBuffer :=
  {| m_pBuffer := m_pBuffer s; m_iOffset := 0; m_iTotalSize := m_iTotalSize s |}.

Definition getLens : CBuffer -> Z := m_iOffset.
Definition getTotalLens : CBuffer -> Z := m_iTotalSize.

(** The bytes written so far: the first [getLens] bytes at [getBuffer]. *)
Definition written (s : CBuffer) : list Z :=
  match m_pBuffer s with None => [] | Some b => firstn (Z.to_nat (m_iOffset s)) b end.

(** [pushBuff]: [None] for the bytes stands for a null pointer, which appends zeros;
    the result [false] is the exception thrown when there is no memory. *)
Definition pushBuff (s : CBuffer) (pBuff : option (list Z)) (iLens : Z) : CBuffer * bool :=
  let (s', ok) := reNew s (m_iOffset s + iLens) in
  match m_pBuffer s' with
  | Some b =>
      if ok then
        let data := match pBuff with
                    | None => repeat 0 (Z.to_nat iLens)
                    | Some l => firstn (Z.to_nat iLens) l
                    end in
        ({| m_pBuffer := Some (at_ptr (Z.to_nat (m_iOffset s)) (fun a => store a data) b);
            m_iOffset := m_iOffset s + iLens; m_iTotalSize := m_iTotalSize s' |}, true)
      else (s', false)
  | None => (s', false)
  end.

(** The invariant: the block is as long as the recorded capacity and holds the bytes
    written.  It is lost only with the block, when an allocation fails. *)
Definition well_formed (s : CBuffer) : Prop :=
  0 <= m_iOffset s /\
  match m_pBuffer s with
  | None => m_iTotalSize s = 0 /\ m_iOffset s = 0
  | Some b => Z.of_nat (length b) = m_iTotalSize s /\ m_iOffset s <= m_iTotalSize s
  end.

Context (new_char_length : forall n p, new_char n = Some p -> length p = Z.to_nat n).

Lemma reNew_spec s n s' : well_formed s -> m_iOffset s <= n -> reNew s n = (s', true) ->
  well_formed s' /\ written s' = written s /\ m_iOffset s' = m_iOffset s /\
  n <= m_iTotalSize s' /\ m_pBuffer s' <> None.
Proof.
  unfold reNew, New, well_formed, written. intros [H0 Hw] Hn.
  destruct (m_pBuffer s) as [old|] eqn:Eb.
  - destruct Hw as [Hl Ho]. destruct (Z.leb_spec n (m_iTotalSize s)).
    + intros [= <-]. rewrite Eb. splits; auto; congruence.
    + destruct (new_char n) as [p|] eqn:Ep; [|discriminate]. intros [= <-]. cbn.
      apply new_char_length in Ep.
      rewrite <- Hl, Nat2Z.id, firstn_all, length_store by lia.
      splits; try lia; try discriminate. unfold store.
      rewrite firstn_app. replace (Z.to_nat (m_iOffset s) - length old)%nat with 0%nat by lia.
      apply app_nil_r.
  - destruct Hw as [Ht Ho]. destruct (new_char n) as [p|] eqn:Ep; [|discriminate].
    intros [= <-]. cbn. apply new_char_length in Ep. rewrite Ho. splits; auto; try lia; discriminate.
Qed.

(** [pushBuff] appends exactly its bytes. *)
Lemma pushBuff_spec s pBuff iLens s' : well_formed s -> 0 <= iLens ->
  match pBuff with None => True | Some l => iLens <= Z.of_nat (length l) end ->
  pushBuff s pBuff iLens = (s', true) ->
  well_formed s' /\ m_iOffset s' = m_iOffset s + iLens /\ m_iTotalSize s <= m_iTotalSize s' /\
  written s' = written s ++ match pBuff with
                            | None => repeat 0 (Z.to_nat iLens)
                            | Some l => firstn (Z.to_nat iLens) l
                            end.
Proof.
  unfold pushBuff. intros Hw H0 Hl.
  destruct (reNew s (m_iOffset s + iLens)) as [s1 ok] eqn:E. destruct (m_pBuffer s1) as [b|] eqn:Eb;
    [|discriminate]. destruct ok; [|discriminate]. intros [= <-].
  destruct (reNew_spec s (m_iOffset s + iLens) s1 Hw ltac:(lia) E) as (Hw1 & Hc & Ho & Ht & _).
  assert (Hgrow : m_iTotalSize s <= m_iTotalSize s1).
  { revert E. unfold reNew, New. destruct Hw as [_ Hw]. destruct (m_pBuffer s).
    - destruct (Z.leb_spec (m_iOffset s + iLens) (m_iTotalSize s)); [intros [= <-]; lia|].
      destruct (new_char _); [intros [= <-]; cbn; lia | discriminate].
    - destruct (new_char _); [intros [= <-]; cbn; lia | discriminate]. }
  set (data := match pBuff with None => _ | Some l => _ end).
  assert (Ld : Z.of_nat (length data) = iLens)
    by (subst data; destruct pBuff; rewrite ?repeat_length, ?length_firstn; lia).
  unfold well_formed, written in *. rewrite Eb in *. cbn [m_pBuffer m_iOffset m_iTotalSize].
  destruct Hw1 as [H1 [H2 H3]]. rewrite Ho in *.
  unfold at_ptr. rewrite length_app, length_store by (rewrite length_skipn; lia).
  rewrite length_firstn, length_skipn.
  splits; try lia.
  rewrite <- Hc, <- Ld. replace (Z.to_nat (m_iOffset s + Z.of_nat (length data)))
    with (length (firstn (Z.to_nat (m_iOffset s)) b) + length data)%nat by (rewrite length_firstn; lia).
  rewrite firstn_app_2, firstn_store. reflexivity.
Qed.

Lemma reSet_spec s : well_formed s -> well_formed (reSet s) /\ written (reSet s) = [].
Proof.
  unfold well_formed, written, reSet. cbn. destruct (m_pBuffer s); intros [H1 H2]; splits; auto; lia.
Qed.

(** Where every allocation succeeds no push fails. *)
Lemma pushBuff_total s pBuff iLens : (forall n, new_char n <> None) ->
  snd (pushBuff s pBuff iLens) = true.
Proof.
  intros H. unfold pushBuff, reNew, New.
  destruct (m_pBuffer s) as [old|] eqn:Eb.
  - destruct (_ <=? _); [rewrite Eb; reflexivity|].
    destruct (new_char _) eqn:E; [reflexivity | destruct (H _ E)].
  - destruct (new_char _) eqn:E; [reflexivity | destruct (H _ E)].
Qed.

(** An empty buffer of the default size. *)
Lemma CBuffer_new_spec : new_char (5 * 1024) <> None ->
  well_formed CBuffer_new /\ written CBuffer_new = [].
Proof.
  unfold CBuffer_new, New, well_formed, written. cbn [m_pBuffer]. intros H.
  destruct (new_char (5 * 1024)) eqn:E; [|congruence]. cbn. apply new_char_length in E.
  splits; auto; lia.
Qed.

End BufferMgr.

(** ** What the users of a buffer return *)

(** An exception, a null pointer, or [getBuffer()] with the length [iOutLens]. *)
Inductive outcome :=
  | Thrown
  | Null
  | Lens (iOutLens : Z).

(** What the caller reads at the returned pointer. *)
Definition returned (b : CBuffer) (iOutLens : Z) : option (list Z) :=
  option_map (firstn (Z.to_nat iOutLens)) (m_pBuffer b).

Lemma returned_written b n : m_pBuffer b <> None -> 0 <= n <= m_iOffset b ->
  returned b n = Some (firstn (Z.to_nat n) (written b)).
Proof.
  unfold returned, written. destruct (m_pBuffer b) as [l|]; [|congruence]. intros _ Hn.
  cbn [option_map]. rewrite firstn_firstn. do 2 f_equal. lia.
Qed.

Lemma length_written b : well_formed b -> Z.of_nat (length (written b)) = m_iOffset b.
Proof.
  unfold well_formed, written. intros [H0 H]. destruct (m_pBuffer b) as [p|]; [rewrite length_firstn|cbn [length]]; lia.
Qed.

(** Where every allocation succeeds, a push appends the first bytes of an array. *)
Lemma push_bytes new_char (HL : forall n p, new_char n = Some p -> length p = Z.to_nat n)
  (HN : forall n, new_char n <> None) b l n : well_formed b -> (n <= length l)%nat ->
  exists b', pushBuff new_char b (Some l) (Z.of_nat n) = (b', true) /\ well_formed b' /\
    m_iOffset b' = m_iOffset b + Z.of_nat n /\ m_pBuffer b' <> None /\ written b' = written b ++ firstn n l.
Proof.
  intros W L. destruct (pushBuff new_char b (Some l) (Z.of_nat n)) as [b' ok] eqn:E.
  pose proof (pushBuff_total new_char b (Some l) (Z.of_nat n) HN) as T. rewrite E in T. cbn in T. subst ok.
  destruct (pushBuff_spec new_char HL b (Some l) (Z.of_nat n) b' W) as (W' & O' & _ & Wr); [lia|lia|exact E|].
  rewrite Nat2Z.id in Wr. exists b'. splits; auto. revert E. unfold pushBuff.
  destruct (reNew new_char b _) as [b1 k]. destruct (m_pBuffer b1); [|discriminate].
  destruct k; [|discriminate]. intros [= <-]. discriminate.
Qed.

(** An allocator that never fails, for examples. *)
Definition fresh_block (n : Z) : option (list Z) := Some (repeat 170 (Z.to_nat n)).

Lemma fresh_block_length n p : fresh_block n = Some p -> length p = Z.to_nat n.
Proof. intros [= <-]. apply repeat_length. Qed.

Lemma fresh_block_total n : fresh_block n <> None.
Proof. discriminate. Qed.
