(* ===== verification/Stream.v ===== *)
(** * Stream: integers through a string stream

    What the code uses of the C++ standard streams: [stream << n] writes an integer in
    decimal, [stream >> n] skips blanks and reads an optional sign and digits into a
    variable of some integer type, with the standard's result when there is no number
    (0) or when it is out of range (the nearest bound; a negative number read into an
    unsigned type is reduced). *)

From S2P Require Import Prelude.

(** Decimal digits, most significant first; twenty are enough for 64 bits. *)
Fixpoint show_digits (fuel : nat) (n : Z) : list Z :=
  match fuel with
  | O => []
  | S f => (if n <? 10 then [] else show_digits f (n / 10)) ++ [48 + n mod 10]
  end.

Definition show_int (n : Z) : list Z :=
  if n <? 0 then 45 :: show_digits 20 (- n) else show_digits 20 n.

Definition is_space (c : Z) : bool := (c =? 32) || ((9 <=? c) && (c <=? 13)).
Definition is_digit (c : Z) : bool := (48 <=? c) && (c <=? 57).

Fixpoint skip_space (l : list Z) : list Z :=
  match l with c :: l' => if is_space c then skip_space l' else l | [] => [] end.

Fixpoint read_digits (acc : Z) (l : list Z) : Z :=
  match l with
  | c :: l' => if is_digit c then read_digits (10 * acc + (c - 48)) l' else acc
  | [] => acc
  end.

(** The integer types: their width and whether they are signed. *)
Record int_type := { width : Z; signed : bool }.

Definition int_min (t : int_type) : Z := if signed t then - 2 ^ (width t - 1) else 0.
Definition int_max (t : int_type) : Z := if signed t then 2 ^ (width t - 1) - 1 else 2 ^ width t - 1.

(** The value of type [t] congruent to [n], a C cast. *)
Definition cast (t : int_type) (n : Z) : Z :=
  let u := n mod 2 ^ width t in
  if signed t && (2 ^ (width t - 1) <=? u) then u - 2 ^ width t else u.

Definition in_range (t : int_type) (n : Z) : Prop := int_min t <= n <= int_max t.

Definition stored (t : int_type) (neg : bool) (m : Z) : Z :=
  if signed t then
    if neg then Z.max (int_min t) (- m) else Z.min (int_max t) m
  else if int_max t <? m then int_max t
  else if neg then cast t (- m) else m.

Definition read_int (t : int_type) (l : list Z) : Z :=
  match skip_space l with
  | 45 :: l' => stored t true (read_digits 0 l')
  | 43 :: l' => stored t false (read_digits 0 l')
  | l' => stored t false (read_digits 0 l')
  end.

Definition SHORT : int_type := {| width := 16; signed := true |}.
Definition USHORT : int_type := {| width := 16; signed := false |}.
Definition INT : int_type := {| width := 32; signed := true |}.
Definition UINT : int_type := {| width := 32; signed := false |}.
Definition INT64 : int_type := {| width := 64; signed := true |}.
Definition UINT64 : int_type := {| width := 64; signed := false |}.

(** ** Casts *)

Lemma cast_range t n : 1 <= width t -> in_range t (cast t n).
Proof.
  intros Hw. unfold in_range, cast, int_min, int_max.
  pose proof (Z.mod_pos_bound n (2 ^ width t) ltac:(lia)) as B.
  assert (E : 2 ^ width t = 2 * 2 ^ (width t - 1))
    by (rewrite <- Z.pow_succ_r by lia; f_equal; lia).
  destruct (signed t); cbn [andb]; [|lia].
  destruct (Z.leb_spec (2 ^ (width t - 1)) (n mod 2 ^ width t)); lia.
Qed.

Lemma cast_id t n : 1 <= width t -> in_range t n -> cast t n = n.
Proof.
  intros Hw. unfold in_range, cast, int_min, int_max. intros B.
  assert (E : 2 ^ width t = 2 * 2 ^ (width t - 1))
    by (rewrite <- Z.pow_succ_r by lia; f_equal; lia).
  destruct (signed t); cbn [andb]; [|apply Z.mod_small; lia].
  destruct (Z.lt_ge_cases n 0).
  - replace (n mod 2 ^ width t) with (n + 2 ^ width t)
      by (apply Z.mod_unique_pos with (-1); lia).
    destruct (Z.leb_spec (2 ^ (width t - 1)) (n + 2 ^ width t)); lia.
  - rewrite Z.mod_small by lia. destruct (Z.leb_spec (2 ^ (width t - 1)) n); lia.
Qed.

Lemma cast_mod t n : cast t (n mod 2 ^ width t) = cast t n.
Proof. unfold cast. now rewrite Zmod_mod. Qed.

(** ** What is written is read back *)

Lemma show_digits_digit fuel n : 0 <= n -> Forall (fun c => is_digit c = true) (show_digits fuel n).
Proof.
  revert n; induction fuel as [|f IH]; intros n Hn; cbn [show_digits]; [constructor|].
  apply Forall_app. split.
  - destruct (n <? 10); [constructor|]. apply IH, Z.div_pos; lia.
  - constructor; [|constructor]. unfold is_digit. pose proof (Z.mod_pos_bound n 10 ltac:(lia)).
    rewrite andb_true_iff, !Z.leb_le. lia.
Qed.

Lemma read_digits_app l c acc : Forall (fun c => is_digit c = true) l -> is_digit c = true ->
  read_digits acc (l ++ [c]) = 10 * read_digits acc l + (c - 48).
Proof.
  intros Hl Hc. revert acc. induction Hl as [|x l Hx _ IH]; intros acc; cbn [app read_digits].
  - now rewrite Hc.
  - now rewrite Hx, IH.
Qed.

Lemma read_show_digits fuel n : 0 <= n < 10 ^ Z.of_nat fuel -> read_digits 0 (show_digits fuel n) = n.
Proof.
  revert n; induction fuel as [|f IH]; intros n Hn; [change (10 ^ Z.of_nat 0) with 1 in Hn; cbn; lia|].
  rewrite Nat2Z.inj_succ, Z.pow_succ_r in Hn by lia. cbn [show_digits].
  pose proof (Z.mod_pos_bound n 10 ltac:(lia)) as B. pose proof (Z.div_mod n 10 ltac:(lia)) as D.
  rewrite read_digits_app.
  - destruct (Z.ltb_spec n 10).
    + cbn [read_digits]. rewrite Z.mod_small by lia. lia.
    + rewrite IH; [lia|]. split; [apply Z.div_pos; lia|apply Z.div_lt_upper_bound; lia].
  - destruct (n <? 10); [constructor|]. apply show_digits_digit, Z.div_pos; lia.
  - unfold is_digit. rewrite andb_true_iff, !Z.leb_le. lia.
Qed.

Lemma show_digits_head fuel n : 0 <= n -> (0 < fuel)%nat ->
  exists c l, show_digits fuel n = c :: l /\ is_digit c = true.
Proof.
  intros Hn Hf. pose proof (show_digits_digit fuel n Hn) as H.
  destruct (show_digits fuel n) as [|c l] eqn:E.
  - destruct fuel; [lia|]. cbn [show_digits] in E. apply app_eq_nil in E as [_ E]. discriminate E.
  - inversion H; subst. eauto.
Qed.

Lemma read_int_digits t fuel n : 0 <= n < 10 ^ Z.of_nat fuel -> (0 < fuel)%nat ->
  read_int t (show_digits fuel n) = stored t false n.
Proof.
  intros Hn Hf. rewrite <- (read_show_digits fuel n Hn) at 2.
  destruct (show_digits_head fuel n ltac:(lia) Hf) as (c & l & -> & Hc).
  unfold is_digit in Hc. apply andb_true_iff in Hc as [H1 H2]. apply Z.leb_le in H1, H2.
  unfold read_int. cbn [skip_space]. unfold is_space.
  replace (c =? 32) with false by (symmetry; apply Z.eqb_neq; lia).
  replace (c <=? 13) with false by (symmetry; apply Z.leb_gt; lia).
  rewrite andb_false_r. cbn [orb].
  assert (H : c = 48 \/ c = 49 \/ c = 50 \/ c = 51 \/ c = 52 \/ c = 53 \/ c = 54 \/ c = 55 \/ c = 56 \/ c = 57) by lia.
  repeat destruct H as [->|H]; try subst; reflexivity.
Qed.

(** The stream gives back the numbers of its type. *)
Lemma read_show_int t n : 1 <= width t <= 64 -> in_range t n -> read_int t (show_int n) = n.
Proof.
  intros Hw Hr.
  assert (P : 2 ^ width t <= 2 ^ 64) by (apply Z.pow_le_mono_r; lia).
  assert (E : 2 ^ width t = 2 * 2 ^ (width t - 1))
    by (rewrite <- Z.pow_succ_r by lia; f_equal; lia).
  assert (B : 2 ^ 64 < 10 ^ Z.of_nat 20) by reflexivity.
  unfold in_range, int_min, int_max in Hr. unfold show_int. destruct (Z.ltb_spec n 0).
  - destruct (signed t) eqn:Es; [|lia].
    unfold read_int. cbn [skip_space]. change (is_space 45) with false. cbv beta iota.
    rewrite read_show_digits by lia.
    unfold stored, int_min, int_max. rewrite Es. lia.
  - rewrite read_int_digits by (destruct (signed t); lia).
    unfold stored, int_max. destruct (signed t); [lia|].
    destruct (Z.ltb_spec (2 ^ width t - 1) n); lia.
Qed.
