(* ===== verification/LuaNumber.v ===== *)
(** * LuaNumber: Lua's numbers and their conversions

    A Lua 5.2 number is a C [double].  It is kept as the 64-bit pattern it has in memory
    (sign, eleven bits of exponent, 52 of mantissa), a [float] as its 32-bit pattern, so
    that reading and writing memory is exact.  The conversions are those of C on the
    64-bit hosts the service runs on: [(lua_Integer)d] truncates and gives the smallest
    integer when the result does not fit, [(double)n] is exact below 2^53 (the code only
    converts integers of at most 32 bits), [(float)d] rounds to the nearest, ties to even. *)

From S2P Require Import Prelude.

Section Double.
Variable d : Z.

Definition dsign : bool := Z.testbit d 63.
Definition dexp : Z := (d .>> 52) .& 2047.
Definition dman : Z := d .& (2 ^ 52 - 1).

(** The significand with its implicit bit; the value is [dsig * 2^dshift]. *)
Definition dsig : Z := if dexp =? 0 then dman else 2 ^ 52 + dman.
Definition dshift : Z := Z.max 1 dexp - 1075.

Definition num_to_int : Z :=
  if dexp =? 2047 then - 2 ^ 63
  else
    let m := dsig .<< dshift in
    let n := if dsign then - m else m in
    if (- 2 ^ 63 <=? n) && (n <? 2 ^ 63) then n else - 2 ^ 63.

(** Division by [2^k], rounded to the nearest, ties to even. *)
Definition rne (m k : Z) : Z :=
  let q := m .>> k in
  let r := m - q .<< k in
  let half := 1 .<< (k - 1) in
  if (half <? r) || ((r =? half) && Z.odd q) then q + 1 else q.

(** [(float)d]: the exponent field is added to the rounded significand, so that a carry
    moves to the next binade (and past the last one gives an infinity). *)
Definition num_to_float : Z :=
  let s := if dsign then 2 ^ 31 else 0 in
  if dexp =? 2047 then
    s + 255 * 2 ^ 23 + (if dman =? 0 then 0 else Z.lor (2 ^ 22) (dman .>> 29))
  else
    let e := dexp - 1023 in
    let b := if e <? -126 then rne dsig (29 + (-126 - e)) else (e + 126) * 2 ^ 23 + rne dsig 29 in
    s + Z.min b (255 * 2 ^ 23).
End Double.

(** [(double)n] for an integer of at most 53 bits. *)
Definition num_of_int (n : Z) : Z :=
  if n =? 0 then 0
  else
    let m := Z.abs n in
    let e := Z.log2 m in
    (if n <? 0 then 2 ^ 63 else 0) + (e + 1023) * 2 ^ 52 + (m .<< (52 - e) - 2 ^ 52).

(** [(double)f] for a float given by its pattern: always exact. *)
Definition num_of_float (f : Z) : Z :=
  let s := if Z.testbit f 31 then 2 ^ 63 else 0 in
  let e := (f .>> 23) .& 255 in
  let m := f .& (2 ^ 23 - 1) in
  if e =? 255 then s + 2047 * 2 ^ 52 + (if m =? 0 then 0 else Z.lor (2 ^ 51) (m .<< 29))
  else if e =? 0 then
    if m =? 0 then s
    else let k := Z.log2 m in s + (k - 149 + 1023) * 2 ^ 52 + (m .<< (52 - k) - 2 ^ 52)
  else s + (e - 127 + 1023) * 2 ^ 52 + m .<< 29.

(** A float that is not a signalling NaN, which conversions do not keep. *)
Definition quiet (f : Z) : Prop :=
  0 <= f < 2 ^ 32 /\ ((f .>> 23) .& 255 = 255 -> f .& (2 ^ 23 - 1) = 0 \/ Z.testbit f 22 = true).

(** ** Fields of a pattern *)

(** The pattern made of three fields. *)
Definition pack (s : bool) (e m : Z) : Z := (if s then 2 ^ 63 else 0) + e * 2 ^ 52 + m.

Lemma pack_fields s e m : 0 <= e < 2048 -> 0 <= m < 2 ^ 52 ->
  dsign (pack s e m) = s /\ dexp (pack s e m) = e /\ dman (pack s e m) = m.
Proof.
  intros He Hm. unfold dsign, dexp, dman, pack.
  change (2 ^ 52 - 1) with (Z.ones 52). change 2047 with (Z.ones 11). rewrite !Z.land_ones by lia.
  rewrite shiftr_div by lia.
  replace ((if s then 2 ^ 63 else 0) + e * 2 ^ 52 + m)
    with (((if s then 1 else 0) * 2 ^ 11 + e) * 2 ^ 52 + m) by (destruct s; lia).
  rewrite div_add_small, !mod_add_small by lia.
  split; [|split; reflexivity].
  rewrite Z.testbit_odd, Z.shiftr_div_pow2 by lia.
  replace (2 ^ 63) with (2 ^ 52 * 2 ^ 11) by reflexivity.
  rewrite <- Z.div_div, div_add_small, div_add_small by lia. destruct s; reflexivity.
Qed.

(** A number of magnitude [m * 2^k] with [m] brought to 53 bits. *)
Lemma norm_bounds m : 0 < m < 2 ^ 53 ->
  0 <= Z.log2 m <= 52 /\ 0 <= m .<< (52 - Z.log2 m) - 2 ^ 52 < 2 ^ 52.
Proof.
  intros Hm. pose proof (Z.log2_nonneg m). pose proof (Z.log2_spec m ltac:(lia)) as [L1 L2].
  assert (Z.log2 m < 53) by (apply Z.log2_lt_pow2; lia).
  split; [lia|]. rewrite Z.shiftl_mul_pow2 by lia.
  assert (E : 2 ^ 52 = 2 ^ Z.log2 m * 2 ^ (52 - Z.log2 m)) by (rewrite <- Z.pow_add_r by lia; f_equal; lia).
  rewrite Z.pow_succ_r in L2 by lia.
  pose proof (Z.pow_pos_nonneg 2 (52 - Z.log2 m)). nia.
Qed.

Lemma num_of_int_pack n : n <> 0 -> Z.abs n < 2 ^ 53 ->
  num_of_int n = pack (n <? 0) (Z.log2 (Z.abs n) + 1023) (Z.abs n .<< (52 - Z.log2 (Z.abs n)) - 2 ^ 52).
Proof.
  intros Hn Hb. unfold num_of_int, pack. destruct (Z.eqb_spec n 0); [lia|]. reflexivity.
Qed.

(** Integers of at most 53 bits survive in a number. *)
Lemma num_to_of_int n : Z.abs n < 2 ^ 53 -> num_to_int (num_of_int n) = n.
Proof.
  intros Hb. destruct (Z.eq_dec n 0) as [->|Hn]; [reflexivity|].
  rewrite num_of_int_pack by lia.
  destruct (norm_bounds (Z.abs n) ltac:(lia)) as [L B].
  destruct (pack_fields (n <? 0) (Z.log2 (Z.abs n) + 1023) _ ltac:(lia) B) as (Es & Ee & Em).
  unfold num_to_int, dsig, dshift. rewrite Es, Ee, Em.
  rewrite (proj2 (Z.eqb_neq _ 2047)), (proj2 (Z.eqb_neq _ 0)) by lia.
  rewrite Z.max_r by lia.
  replace (2 ^ 52 + (Z.abs n .<< (52 - Z.log2 (Z.abs n)) - 2 ^ 52)) with (Z.abs n .<< (52 - Z.log2 (Z.abs n))) by lia.
  rewrite Z.shiftl_shiftl by lia. replace (52 - Z.log2 (Z.abs n) + (Z.log2 (Z.abs n) + 1023 - 1075)) with 0 by lia.
  rewrite Z.shiftl_0_r.
  replace (if n <? 0 then - Z.abs n else Z.abs n) with n by (destruct (Z.ltb_spec n 0); lia).
  rewrite (proj2 (Z.leb_le _ n)), (proj2 (Z.ltb_lt n _)) by lia. reflexivity.
Qed.

(** Rounding a multiple is exact. *)
Lemma rne_exact m k : 0 < k -> rne (m .<< k) k = m.
Proof.
  intros Hk. unfold rne.
  rewrite Z.shiftr_shiftl_l by lia. rewrite Z.sub_diag, Z.shiftl_0_r, Z.sub_diag.
  assert (0 < 1 .<< (k - 1)) by (rewrite Z.shiftl_mul_pow2 by lia; pose proof (Z.pow_pos_nonneg 2 (k - 1)); lia).
  rewrite (proj2 (Z.ltb_ge _ 0)), (proj2 (Z.eqb_neq 0 _)) by lia. reflexivity.
Qed.

Lemma float_fields f : 0 <= f < 2 ^ 32 ->
  0 <= (f .>> 23) .& 255 < 256 /\ 0 <= f .& (2 ^ 23 - 1) < 2 ^ 23 /\
  f = (if Z.testbit f 31 then 2 ^ 31 else 0) + (f .>> 23) .& 255 * 2 ^ 23 + f .& (2 ^ 23 - 1).
Proof.
  intros Hf. change 255 with (Z.ones 8). change (2 ^ 23 - 1) with (Z.ones 23).
  rewrite !Z.land_ones, shiftr_div by lia.
  pose proof (Z.mod_pos_bound f (2 ^ 23) ltac:(lia)).
  pose proof (Z.mod_pos_bound (f / 2 ^ 23) (2 ^ 8) ltac:(lia)).
  splits; try lia.
  pose proof (Z.div_mod f (2 ^ 23) ltac:(lia)) as D1.
  pose proof (Z.div_mod (f / 2 ^ 23) (2 ^ 8) ltac:(lia)) as D2.
  rewrite Z.testbit_odd, shiftr_div by lia.
  rewrite Z.div_div in D2 by lia. replace (2 ^ 23 * 2 ^ 8) with (2 ^ 31) in D2 by reflexivity.
  assert (H01 : f / 2 ^ 31 = 0 \/ f / 2 ^ 31 = 1).
  { assert (0 <= f / 2 ^ 31 < 2); [split; [apply Z.div_pos; lia|apply Z.div_lt_upper_bound; lia]|lia]. }
  destruct H01 as [E|E]; rewrite E in *; cbn [Z.odd]; lia.
Qed.

(** The three kinds of floats, by their fields. *)
Lemma float_special s m : 0 <= m < 2 ^ 23 -> m = 0 \/ Z.testbit m 22 = true ->
  num_to_float (pack s 2047 (if m =? 0 then 0 else Z.lor (2 ^ 51) (m .<< 29))) =
  (if s then 2 ^ 31 else 0) + 255 * 2 ^ 23 + m.
Proof.
  intros Hm Hq.
  assert (Hl : Z.lor (2 ^ 51) (m .<< 29) = (Z.lor (2 ^ 22) m) .<< 29)
    by (rewrite Z.shiftl_lor; reflexivity).
  assert (Hb : 0 <= Z.lor (2 ^ 22) m < 2 ^ 23).
  { split; [apply Z.lor_nonneg; lia|]. apply lt_pow2_bits; [lia|apply Z.lor_nonneg; lia|].
    intros i Hi. rewrite Z.lor_spec, (proj1 (lt_pow2_bits 23 m ltac:(lia) ltac:(lia))) by lia.
    rewrite Z.pow2_bits_false by lia. reflexivity. }
  destruct (Z.eqb_spec m 0) as [->|Nm].
  - destruct (pack_fields s 2047 0 ltac:(lia) ltac:(lia)) as (Es & Ee & Em).
    unfold num_to_float. rewrite Es, Ee, Em. reflexivity.
  - rewrite Hl. destruct (pack_fields s 2047 ((Z.lor (2 ^ 22) m) .<< 29) ltac:(lia)) as (Es & Ee & Em);
      [rewrite Z.shiftl_mul_pow2 by lia; lia|].
    unfold num_to_float. rewrite Es, Ee, Em. change (2047 =? 2047) with true. cbv iota.
    assert (Hx : Z.lor (2 ^ 22) m = m).
    { destruct Hq as [|Hq]; [lia|]. apply Z.bits_inj'. intros i Hi. rewrite Z.lor_spec.
      destruct (Z.eq_dec i 22) as [->|]; [rewrite Hq; reflexivity|].
      rewrite Z.pow2_bits_false by lia. reflexivity. }
    rewrite Hx. rewrite (proj2 (Z.eqb_neq (m .<< 29) 0)) by (rewrite Z.shiftl_mul_pow2 by lia; lia).
    rewrite Z.shiftr_shiftl_l, Z.shiftl_0_r by lia. rewrite Hx. lia.
Qed.

Lemma float_finite s e g m k : 0 < e < 2047 -> 0 <= g < 2 ^ 52 ->
  2 ^ 52 + g = m .<< k -> k = (if e - 1023 <? -126 then 29 + (-126 - (e - 1023)) else 29) ->
  num_to_float (pack s e g) =
  (if s then 2 ^ 31 else 0) +
  Z.min (if e - 1023 <? -126 then m else (e - 1023 + 126) * 2 ^ 23 + m) (255 * 2 ^ 23).
Proof.
  intros He Hg Hm Hk. destruct (pack_fields s e g ltac:(lia) Hg) as (Es & Ee & Em).
  unfold num_to_float, dsig. rewrite Es, Ee, Em.
  rewrite (proj2 (Z.eqb_neq e 2047)), (proj2 (Z.eqb_neq e 0)), Hm by lia. cbv zeta.
  destruct (Z.ltb_spec (e - 1023) (-126)); rewrite <- Hk, rne_exact by lia; reflexivity.
Qed.

(** Every float but a signalling NaN survives in a number. *)
Lemma num_to_of_float f : quiet f -> num_to_float (num_of_float f) = f.
Proof.
  intros [Hf Hq]. destruct (float_fields f Hf) as (He & Hm & E).
  unfold num_of_float. etransitivity; [|symmetry; exact E]. revert Hq He Hm.
  assert (H22 : Z.testbit f 22 = Z.testbit (f .& (2 ^ 23 - 1)) 22)
    by (change (2 ^ 23 - 1) with (Z.ones 23); rewrite Z.land_ones, Z.mod_pow2_bits_low by lia; reflexivity).
  rewrite H22. clear E H22.
  set (s := Z.testbit f 31). set (e := (f .>> 23) .& 255). set (m := f .& (2 ^ 23 - 1)). clearbody s e m.
  intros Hq He Hm. cbv zeta.
  destruct (Z.eqb_spec e 255) as [Ee|Ne].
  - rewrite Ee. apply (float_special s m Hm). auto.
  - destruct (Z.eqb_spec e 0) as [Ee|N0].
    + destruct (Z.eqb_spec m 0) as [Em|Nm]; [rewrite Ee, Em; destruct s; reflexivity|].
      destruct (norm_bounds m ltac:(lia)) as [L B].
      assert (Z.log2 m < 23) by (apply Z.log2_lt_pow2; lia).
      replace ((if s then 2 ^ 63 else 0) + (Z.log2 m - 149 + 1023) * 2 ^ 52 + (m .<< (52 - Z.log2 m) - 2 ^ 52))
        with (pack s (Z.log2 m - 149 + 1023) (m .<< (52 - Z.log2 m) - 2 ^ 52)) by (unfold pack; lia).
      assert (Hlt : (Z.log2 m - 149 + 1023 - 1023 <? -126) = true) by (apply Z.ltb_lt; lia).
      rewrite (float_finite s _ _ m (52 - Z.log2 m)); rewrite ?Hlt; try lia.
    + replace ((if s then 2 ^ 63 else 0) + (e - 127 + 1023) * 2 ^ 52 + m .<< 29)
        with (pack s (e - 127 + 1023) (m .<< 29)) by (unfold pack; lia).
      assert (Hlt : (e - 127 + 1023 - 1023 <? -126) = false) by (apply Z.ltb_ge; lia).
      rewrite (float_finite s _ _ (2 ^ 23 + m) 29); rewrite ?Hlt; rewrite ?Z.shiftl_mul_pow2 by lia; try lia.
Qed.
