(* ===== verification/Binary.v ===== *)
(** * Binary: structures as bytes, [CLuaBinary] (QBase/Binary.cpp, QBase/Binary.h)

    [CLuaBinary] reads a byte buffer and fills another one, field by field, for Lua
    scripts: integers in network order, floating point numbers as they lie in memory,
    strings with their terminator, and whole structures described by nested Lua tables.
    The write buffer is the [CBuffer] of [BufferMgr].  The model's host is 64-bit and
    little endian: [size_t] and [lua_Integer] have eight bytes. *)

From S2P Require Import Prelude OSFunc Enum BufferMgr Stream LuaNumber.

(** ** Lua values

    What a [LuaRef] refers to: numbers are bit patterns (see [LuaNumber]); a table has
    the values at the keys 1, 2, ..., without a trailing nil, and those at string keys.
    Functions and other kinds behave like [LuaNil] in everything the code does with
    them, and metatables are not used. *)
#[local] Unset Elimination Schemes.
Inductive LuaRef :=
| LuaNil
| LuaBool (b : bool)
| LuaNumber (d : Z)
| LuaString (s : list Z)
| LuaTable (arr : list LuaRef) (fields : list (list Z * LuaRef)).
#[local] Set Elimination Schemes.

Definition key_eqb (a b : list Z) : bool := if list_eq_dec Z.eq_dec a b then true else false.

(** [t[key]] and [t[key] = v]. *)
Fixpoint get_field (fields : list (list Z * LuaRef)) (k : list Z) : LuaRef :=
  match fields with
  | [] => LuaNil
  | (k', v) :: fields' => if key_eqb k' k then v else get_field fields' k
  end.

Fixpoint set_field (fields : list (list Z * LuaRef)) (k : list Z) (v : LuaRef) : list (list Z * LuaRef) :=
  match fields with
  | [] => [(k, v)]
  | (k', v') :: fields' => if key_eqb k' k then (k, v) :: fields' else (k', v') :: set_field fields' k v
  end.

(** The string at a [char*]: the bytes before the first zero; [None] when the memory
    holds none. *)
Fixpoint c_string (l : list Z) : option (list Z) :=
  match l with
  | [] => None
  | c :: l' => if c =? 0 then Some [] else option_map (cons c) (c_string l')
  end.

(** The same for a Lua string, which is always followed by a zero. *)
Definition c_str (s : list Z) : list Z :=
  match c_string (s ++ [0]) with Some r => r | None => [] end.

(** ** Outcomes

    An operation may stop the program or leave its behaviour undefined: a Lua error
    raised by a conversion, a failed [assert], a read outside the memory given.
    [no_fuel] is the model's own, see [struct_depth]. *)
Inductive failure := lua_error | assertion | bad_read | no_fuel.

Inductive outcome (A : Type) :=
| Done (a : A)
| Stop (f : failure).
Arguments Done {A}. Arguments Stop {A}.

Definition bind {A B} (x : outcome A) (f : A -> outcome B) : outcome B :=
  match x with Done a => f a | Stop e => Stop e end.

Notation "'let!' x ':=' e 'in' k" := (bind e (fun x => k))
  (at level 10, x pattern, e at level 200, k at level 200).

(** ** The state *)
Record CLuaBinary := {
  m_pParseBuffer : list Z;      (* the memory at the pointer, at least the buffer *)
  m_iParseBufLens : Z;
  m_iCurParseLens : Z;
  m_objWritBuffer : CBuffer
}.

(** The constructor: no buffer to read, an empty one to write. *)
Definition CLuaBinary_new (new_char : Z -> option (list Z)) : CLuaBinary :=
  {| m_pParseBuffer := []; m_iParseBufLens := 0; m_iCurParseLens := 0;
     m_objWritBuffer := CBuffer_new new_char |}.

Definition setBuffer (b : CLuaBinary) (pszBuf : list Z) (iLens : Z) : CLuaBinary :=
  {| m_pParseBuffer := pszBuf; m_iParseBufLens := iLens; m_iCurParseLens := 0;
     m_objWritBuffer := m_objWritBuffer b |}.

Definition getLens (b : CLuaBinary) : Z := w32 (m_iParseBufLens b).

Definition set_writ (b : CLuaBinary) (w : CBuffer) : CLuaBinary :=
  {| m_pParseBuffer := m_pParseBuffer b; m_iParseBufLens := m_iParseBufLens b;
     m_iCurParseLens := m_iCurParseLens b; m_objWritBuffer := w |}.

Definition reSetWrite (b : CLuaBinary) : CLuaBinary := set_writ b (reSet (m_objWritBuffer b)).

Definition getBuffer (b : CLuaBinary) : list Z := written (m_objWritBuffer b).

(** ** Reading *)

(** [m_iCurParseLens += n]. *)
Definition advance (b : CLuaBinary) (n : Z) : CLuaBinary :=
  {| m_pParseBuffer := m_pParseBuffer b; m_iParseBufLens := m_iParseBufLens b;
     m_iCurParseLens := w64 (m_iCurParseLens b + n); m_objWritBuffer := m_objWritBuffer b |}.

Definition skipRead (b : CLuaBinary) (iLens : Z) : CLuaBinary := advance b (w32 iLens).

(** The [n] bytes at the current position. *)
Definition peek (b : CLuaBinary) (n : nat) : outcome (list Z) :=
  let l := firstn n (skipn (Z.to_nat (m_iCurParseLens b)) (m_pParseBuffer b)) in
  if Nat.eqb (length l) n then Done l else Stop bad_read.

(** [readNumber<T>], [n] being [sizeof(T)]: the bytes as an unsigned number. *)
Definition readNumber (n : nat) (b : CLuaBinary) : outcome (Z * CLuaBinary) :=
  if m_iParseBufLens b <? w64 (m_iCurParseLens b + Z.of_nat n) then Done (0, b)
  else let! l := peek b n in Done (le l, advance b (Z.of_nat n)).

Definition getSint8 (b : CLuaBinary) : outcome (Z * CLuaBinary) :=
  let! (v, b') := readNumber 1 b in Done (sx8 v, b').
Definition getUint8 (b : CLuaBinary) : outcome (Z * CLuaBinary) := readNumber 1 b.
Definition getBool (b : CLuaBinary) : outcome (bool * CLuaBinary) :=
  let! (v, b') := readNumber 1 b in Done (if 0 =? v then false else true, b').
Definition getSint16 (b : CLuaBinary) : outcome (Z * CLuaBinary) :=
  let! (v, b') := readNumber 2 b in Done (cast SHORT (ntohs v), b').
Definition getUint16 (b : CLuaBinary) : outcome (Z * CLuaBinary) :=
  let! (v, b') := readNumber 2 b in Done (ntohs v, b').
Definition getSint32 (b : CLuaBinary) : outcome (Z * CLuaBinary) :=
  let! (v, b') := readNumber 4 b in Done (cast INT (ntohl v), b').
Definition getUint32 (b : CLuaBinary) : outcome (Z * CLuaBinary) :=
  let! (v, b') := readNumber 4 b in Done (ntohl v, b').
Definition getSint64 (b : CLuaBinary) : outcome (list Z * CLuaBinary) :=
  let! (v, b') := readNumber 8 b in Done (show_int (cast INT64 (ntohl64 v)), b').
Definition getUint64 (b : CLuaBinary) : outcome (list Z * CLuaBinary) :=
  let! (v, b') := readNumber 8 b in Done (show_int (ntohl64 v), b').
Definition getDouble (b : CLuaBinary) : outcome (Z * CLuaBinary) := readNumber 8 b.
Definition getFloat (b : CLuaBinary) : outcome (Z * CLuaBinary) := readNumber 4 b.

(** [getString] reads up to a zero, wherever it is. *)
Definition getString (b : CLuaBinary) : outcome (list Z * CLuaBinary) :=
  if m_iParseBufLens b <=? m_iCurParseLens b then Done ([], b)
  else match c_string (skipn (Z.to_nat (m_iCurParseLens b)) (m_pParseBuffer b)) with
       | None => Stop bad_read
       | Some s => Done (s, advance b (Z.of_nat (length s) + 1))
       end.

Definition getByte (b : CLuaBinary) (iLens : Z) : outcome (list Z * CLuaBinary) :=
  if m_iParseBufLens b <? w64 (m_iCurParseLens b + w32 iLens) then Done ([], b)
  else let! l := peek b (Z.to_nat (w32 iLens)) in Done (l, advance b (w32 iLens)).

(** ** Writing: the boolean is the function's result, [false] when memory ran out *)
Section Write.
Context (new_char : Z -> option (list Z)).

Definition setVal (b : CLuaBinary) (pszBuf : option (list Z)) (iLens : Z) : CLuaBinary * bool :=
  let (w, ok) := pushBuff new_char (m_objWritBuffer b) pszBuf iLens in (set_writ b w, ok).

Definition skipWrite (b : CLuaBinary) (iLens : Z) : CLuaBinary * bool :=
  if 0 =? w32 iLens then (b, true) else setVal b None (w32 iLens).

Definition setSint8 (b : CLuaBinary) (sVal : Z) := setVal b (Some (le_bytes 1 sVal)) 1.
Definition setUint8 (b : CLuaBinary) (usVal : Z) := setVal b (Some (le_bytes 1 usVal)) 1.
Definition setBool (b : CLuaBinary) (bVal : bool) :=
  setVal b (Some (le_bytes 1 (if bVal then 1 else 0))) 1.
Definition setSint16 (b : CLuaBinary) (sVal : Z) := setVal b (Some (le_bytes 2 (ntohs (cast USHORT sVal)))) 2.
Definition setUint16 (b : CLuaBinary) (usVal : Z) := setVal b (Some (le_bytes 2 (ntohs usVal))) 2.
Definition setSint32 (b : CLuaBinary) (iVal : Z) := setVal b (Some (le_bytes 4 (ntohl (cast UINT iVal)))) 4.
Definition setUint32 (b : CLuaBinary) (uiVal : Z) := setVal b (Some (le_bytes 4 (ntohl uiVal))) 4.
Definition setSint64 (b : CLuaBinary) (pszVal : list Z) :=
  let iVal := ntohl64 (cast UINT64 (read_int INT64 pszVal)) in setVal b (Some (le_bytes 8 iVal)) 8.
Definition setUint64 (b : CLuaBinary) (pszVal : list Z) :=
  let uiVal := ntohl64 (read_int UINT64 pszVal) in setVal b (Some (le_bytes 8 uiVal)) 8.
Definition setDouble (b : CLuaBinary) (dVal : Z) := setVal b (Some (le_bytes 8 dVal)) 8.
Definition setFloat (b : CLuaBinary) (fVal : Z) := setVal b (Some (le_bytes 4 fVal)) 4.

(** [pszVal] is the content of a Lua string. *)
Definition setString (b : CLuaBinary) (pszVal : list Z) : CLuaBinary * bool :=
  let (b', ok) := setVal b (Some (c_str pszVal)) (Z.of_nat (length (c_str pszVal))) in
  if ok then skipWrite b' 1 else (b', false).

Definition setByte (b : CLuaBinary) (pszVal : list Z) (iLens : Z) : CLuaBinary * bool :=
  setVal b (Some pszVal) (w32 iLens).
End Write.

(** ** Structures

    Conversions of the C library and of Lua that the code reaches only with values of
    another type than the one described are parameters: decimal fractions to floating
    point numbers ([stream >> double], [stream >> float]), Lua's own conversions of
    numbers to strings and of strings to numbers. *)
Section Struct.
Context (new_char : Z -> option (list Z)).
Context (read_double read_float : list Z -> Z) (lua_tostring : Z -> list Z) (lua_tonumber : list Z -> option Z).

(** [getLuaNumber<T>] for an integer type, for [double] and for [float]. *)
Definition getLuaInt (t : int_type) (objTmp : LuaRef) : Z :=
  match objTmp with
  | LuaNumber d => cast t (num_to_int d)
  | LuaString s => read_int t (c_str s)
  | _ => 0
  end.
Definition getLuaDouble (objTmp : LuaRef) : Z :=
  match objTmp with LuaNumber d => d | LuaString s => read_double (c_str s) | _ => 0 end.
Definition getLuaFloat (objTmp : LuaRef) : Z :=
  match objTmp with LuaNumber d => num_to_float d | LuaString s => read_float (c_str s) | _ => 0 end.

(** [cast<std::string>] and [cast<int>], which raise an error for other values. *)
Definition cast_string (v : LuaRef) : outcome (list Z) :=
  match v with
  | LuaString s => Done s
  | LuaNumber d => Done (lua_tostring d)
  | _ => Stop lua_error
  end.
Definition cast_int (v : LuaRef) : outcome Z :=
  match v with
  | LuaNumber d => Done (cast INT (num_to_int d))
  | LuaString s => match lua_tonumber s with Some d => Done (cast INT (num_to_int d)) | None => Stop lua_error end
  | _ => Stop lua_error
  end.

Record StructAttr := { strName : list Z; emType : Z; iSize : Z; objTable : LuaRef }.

Fixpoint attr_loop (j : Z) (objAttr : list LuaRef) (a : StructAttr) : outcome StructAttr :=
  match objAttr with
  | [] => Done a
  | x :: objAttr' =>
      let! a' :=
        (if j =? STATTR_NAME then
           let! s := cast_string x in
           Done {| strName := s; emType := emType a; iSize := iSize a; objTable := objTable a |}
         else if j =? STATTR_TYPE then
           let! n := cast_int x in
           Done {| strName := strName a; emType := n; iSize := iSize a; objTable := objTable a |}
         else if j =? STATTR_SIZE then
           let! n := cast_int x in
           Done {| strName := strName a; emType := emType a; iSize := n; objTable := objTable a |}
         else if j =? STATTR_STATTR then
           Done {| strName := strName a; emType := emType a; iSize := iSize a; objTable := x |}
         else Done a)
      in attr_loop (j + 1) objAttr' a'
  end.

Definition getStructAttr (objAttr : list LuaRef) : outcome StructAttr :=
  attr_loop 1 objAttr {| strName := []; emType := DTYPE_SINT8; iSize := 0; objTable := LuaTable [] [] |}.

(** The switch of [setStruct]: the new state and [bOk], whose value before is kept by a
    field of type [DTYPE_SKIP] and no size.  [rec] is [setStruct]. *)
Definition set_switch (rec : CLuaBinary -> LuaRef -> LuaRef -> outcome (CLuaBinary * bool))
    (b : CLuaBinary) (a : StructAttr) (v : LuaRef) (bOk : bool) : outcome (CLuaBinary * bool) :=
  let ty := emType a in
  if ty =? DTYPE_SINT8 then Done (setSint8 new_char b (getLuaInt SHORT v))
  else if ty =? DTYPE_UINT8 then Done (setUint8 new_char b (getLuaInt USHORT v))
  else if ty =? DTYPE_BOOL then Done (setBool new_char b (if 0 =? getLuaInt USHORT v then false else true))
  else if ty =? DTYPE_SINT16 then Done (setSint16 new_char b (getLuaInt SHORT v))
  else if ty =? DTYPE_UINT16 then Done (setUint16 new_char b (getLuaInt USHORT v))
  else if ty =? DTYPE_SINT32 then Done (setSint32 new_char b (getLuaInt INT v))
  else if ty =? DTYPE_UINT32 then Done (setUint32 new_char b (getLuaInt UINT v))
  else if ty =? DTYPE_SINT64 then Done (setSint64 new_char b (show_int (getLuaInt INT64 v)))
  else if ty =? DTYPE_UINT64 then Done (setUint64 new_char b (show_int (getLuaInt UINT64 v)))
  else if ty =? DTYPE_FLOAT then Done (setFloat new_char b (getLuaFloat v))
  else if ty =? DTYPE_DOUBLE then Done (setDouble new_char b (getLuaDouble v))
  else if ty =? DTYPE_STRING then
    Done match v with
         | LuaString s =>
             let len := Z.of_nat (length s) in
             if iSize a <=? len then (b, false)
             else let (b', ok) := setString new_char b s in
                  if ok then skipWrite new_char b' (iSize a - (len + 1)) else (b', false)
         | _ => (b, false)
         end
  else if ty =? DTYPE_BYTE then
    Done match v with
         | LuaString s =>
             let len := Z.of_nat (length s) in
             if iSize a <? len then (b, false)
             else let (b', ok) := setByte new_char b s len in
                  if ok then skipWrite new_char b' (iSize a - len) else (b', false)
         | _ => (b, false)
         end
  else if ty =? DTYPE_STRUCT then
    match v, objTable a with
    | LuaTable _ _, LuaTable _ _ => rec b v (objTable a)
    | _, _ => Done (b, false)
    end
  else if ty =? DTYPE_SKIP then
    Done (if 0 <? iSize a then skipWrite new_char b (iSize a) else (b, bOk))
  else Done (b, false).

(** The loop over the fields of a description. *)
Fixpoint set_loop (rec : CLuaBinary -> LuaRef -> LuaRef -> outcome (CLuaBinary * bool))
    (vals : list (list Z * LuaRef)) (attrs : list LuaRef) (b : CLuaBinary) (bOk : bool)
    : outcome (CLuaBinary * bool) :=
  match attrs with
  | [] => Done (b, true)
  | LuaTable objTmp _ :: attrs' =>
      if Nat.ltb (length objTmp) 2 then Done (b, false)
      else
        let! a := getStructAttr objTmp in
        let! (b', bOk') := set_switch rec b a (get_field vals (strName a)) bOk in
        if bOk' then set_loop rec vals attrs' b' bOk' else Done (b', false)
  | _ :: _ => Done (b, false)
  end.

Fixpoint setStruct (fuel : nat) (b : CLuaBinary) (objVal objAttr : LuaRef) : outcome (CLuaBinary * bool) :=
  match fuel with
  | O => Stop no_fuel
  | S fuel' =>
      match objVal, objAttr with
      | LuaTable _ vals, LuaTable attrs _ => set_loop (setStruct fuel') vals attrs b false
      | _, _ => Stop assertion
      end
  end.

(** The switch of [getStruct]: the value of the field, if it has one.  A number is
    pushed as a Lua number, a [const char*] and a [std::string] as a Lua string. *)
Definition get_switch (rec : CLuaBinary -> LuaRef -> outcome (LuaRef * CLuaBinary))
    (b : CLuaBinary) (a : StructAttr) : outcome (option LuaRef * CLuaBinary) :=
  let int (x : outcome (Z * CLuaBinary)) := let! (n, b') := x in Done (Some (LuaNumber (num_of_int n)), b') in
  let str (x : outcome (list Z * CLuaBinary)) := let! (s, b') := x in Done (Some (LuaString s), b') in
  let ty := emType a in
  if ty =? DTYPE_SINT8 then int (getSint8 b)
  else if ty =? DTYPE_UINT8 then int (getUint8 b)
  else if ty =? DTYPE_BOOL then let! (v, b') := getBool b in Done (Some (LuaBool v), b')
  else if ty =? DTYPE_SINT16 then int (getSint16 b)
  else if ty =? DTYPE_UINT16 then int (getUint16 b)
  else if ty =? DTYPE_SINT32 then int (getSint32 b)
  else if ty =? DTYPE_UINT32 then int (getUint32 b)
  else if ty =? DTYPE_SINT64 then str (getSint64 b)
  else if ty =? DTYPE_UINT64 then str (getUint64 b)
  else if ty =? DTYPE_FLOAT then let! (f, b') := getFloat b in Done (Some (LuaNumber (num_of_float f)), b')
  else if ty =? DTYPE_DOUBLE then let! (d, b') := getDouble b in Done (Some (LuaNumber d), b')
  else if ty =? DTYPE_STRING then
    let! (s, b') := getString b in
    Done (Some (LuaString s), skipRead b' (iSize a - (Z.of_nat (length s) + 1)))
  else if ty =? DTYPE_BYTE then str (getByte b (iSize a))
  else if ty =? DTYPE_STRUCT then let! (v, b') := rec b (objTable a) in Done (Some v, b')
  else if ty =? DTYPE_SKIP then Done (None, if 0 <? iSize a then skipRead b (iSize a) else b)
  else Done (None, b).

Fixpoint get_loop (rec : CLuaBinary -> LuaRef -> outcome (LuaRef * CLuaBinary))
    (attrs : list LuaRef) (b : CLuaBinary) (objVal : list (list Z * LuaRef))
    : outcome (list (list Z * LuaRef) * CLuaBinary) :=
  match attrs with
  | LuaTable objTmp _ :: attrs' =>
      if Nat.ltb (length objTmp) 2 then Done (objVal, b)
      else
        let! a := getStructAttr objTmp in
        let! (v, b') := get_switch rec b a in
        get_loop rec attrs' b' (match v with Some v => set_field objVal (strName a) v | None => objVal end)
  | _ => Done (objVal, b)
  end.

Fixpoint getStruct (fuel : nat) (b : CLuaBinary) (objAttr : LuaRef) : outcome (LuaRef * CLuaBinary) :=
  match fuel with
  | O => Stop no_fuel
  | S fuel' =>
      match objAttr with
      | LuaTable attrs _ =>
          let! (fields, b') := get_loop (getStruct fuel') attrs b [] in Done (LuaTable [] fields, b')
      | _ => Stop assertion
      end
  end.
End Struct.

(** Takes the branch of a switch over a known type. *)
Ltac this_type := cbv beta iota delta
    [DTYPE_SINT8 DTYPE_UINT8 DTYPE_BOOL DTYPE_SINT16 DTYPE_UINT16 DTYPE_SINT32 DTYPE_UINT32 DTYPE_SINT64
     DTYPE_UINT64 DTYPE_FLOAT DTYPE_DOUBLE DTYPE_STRING DTYPE_BYTE DTYPE_STRUCT DTYPE_SKIP Z.eqb Pos.eqb].

(** ** Reading what is there *)

(** A position inside the buffer, and the bytes not read yet. *)
Definition good (b : CLuaBinary) : Prop :=
  0 <= m_iCurParseLens b <= m_iParseBufLens b /\
  m_iParseBufLens b <= Z.of_nat (length (m_pParseBuffer b)) /\ m_iParseBufLens b < 2 ^ 63.

Definition rest (b : CLuaBinary) : list Z :=
  firstn (Z.to_nat (m_iParseBufLens b - m_iCurParseLens b)) (skipn (Z.to_nat (m_iCurParseLens b)) (m_pParseBuffer b)).

Lemma advance_advance b n m : advance (advance b n) m = advance b (n + m).
Proof. unfold advance, w64. cbn. f_equal. rewrite Zplus_mod_idemp_l. f_equal. lia. Qed.

Lemma advance_0 b : good b -> advance b 0 = b.
Proof.
  intros [H1 [H2 H3]]. unfold advance, w64. rewrite Z.add_0_r, Z.mod_small by lia. now destruct b.
Qed.

Lemma good_setBuffer b l junk : Z.of_nat (length l) < 2 ^ 63 ->
  good (setBuffer b (l ++ junk) (Z.of_nat (length l))) /\
  rest (setBuffer b (l ++ junk) (Z.of_nat (length l))) = l.
Proof.
  intros H. split; [repeat split; cbn; rewrite ?length_app; lia|].
  unfold rest. cbn [m_iParseBufLens m_iCurParseLens m_pParseBuffer setBuffer].
  rewrite Z.sub_0_r, Nat2Z.id. cbn [Z.to_nat skipn]. apply firstn_app_len.
Qed.

(** The step every read makes. *)
Lemma read_step b l r : good b -> rest b = l ++ r ->
  let n := Z.of_nat (length l) in
  good (advance b n) /\ rest (advance b n) = r /\
  w64 (m_iCurParseLens b + n) = m_iCurParseLens b + n /\ m_iCurParseLens b + n <= m_iParseBufLens b /\
  firstn (length l) (skipn (Z.to_nat (m_iCurParseLens b)) (m_pParseBuffer b)) = l.
Proof.
  intros [H1 [H2 H3]] E n. unfold rest in E.
  assert (L : Z.of_nat (length l + length r) = m_iParseBufLens b - m_iCurParseLens b).
  { rewrite <- length_app, <- E, length_firstn, length_skipn. lia. }
  assert (W : w64 (m_iCurParseLens b + n) = m_iCurParseLens b + n) by (apply Z.mod_small; lia).
  subst n. splits; [| |exact W|lia|].
  - unfold good, advance. cbn. rewrite W. lia.
  - unfold rest, advance. cbn [m_iParseBufLens m_iCurParseLens m_pParseBuffer]. rewrite W.
    replace (Z.to_nat (m_iCurParseLens b + Z.of_nat (length l)))
      with (length l + Z.to_nat (m_iCurParseLens b))%nat by lia.
    rewrite <- skipn_skipn, <- (skipn_app_len l r), <- E, skipn_firstn_comm. f_equal. lia.
  - apply (f_equal (firstn (length l))) in E. rewrite firstn_app_len, firstn_firstn in E.
    rewrite <- E at 2. f_equal. lia.
Qed.

Lemma readNumber_rest b l r : good b -> rest b = l ++ r ->
  readNumber (length l) b = Done (le l, advance b (Z.of_nat (length l))).
Proof.
  intros G E. destruct (read_step b l r G E) as (_ & _ & W & B & F).
  unfold readNumber, peek. rewrite W, F, Nat.eqb_refl.
  rewrite (proj2 (Z.ltb_ge _ _)) by lia. reflexivity.
Qed.

Lemma c_string_app s l : ~ In 0 s -> c_string (s ++ 0 :: l) = Some s.
Proof.
  induction s as [|c s IH]; intros H; [reflexivity|]. cbn [app c_string].
  destruct (Z.eqb_spec c 0) as [->|_]; [exfalso; apply H; now left|].
  rewrite IH; [reflexivity|]. intros Hi; apply H; now right.
Qed.

Lemma c_str_id s : ~ In 0 s -> c_str s = s.
Proof. intros H. unfold c_str. now rewrite c_string_app. Qed.

Lemma getString_rest b s r : good b -> ~ In 0 s -> rest b = (s ++ [0]) ++ r ->
  getString b = Done (s, advance b (Z.of_nat (length s) + 1)).
Proof.
  intros G H E. destruct (read_step b _ r G E) as (_ & _ & W & B & F).
  rewrite length_app in *. cbn [length] in *. unfold getString.
  rewrite (proj2 (Z.leb_gt _ _)) by lia.
  rewrite <- (firstn_skipn (length s + 1) (skipn _ _)), F, <- app_assoc. cbn [app].
  now rewrite c_string_app.
Qed.

Lemma getByte_rest b l r : good b -> rest b = l ++ r -> Z.of_nat (length l) < 2 ^ 32 ->
  getByte b (Z.of_nat (length l)) = Done (l, advance b (Z.of_nat (length l))).
Proof.
  intros G E H. destruct (read_step b l r G E) as (_ & _ & W & B & F).
  unfold getByte, peek. rewrite (w32_small (Z.of_nat (length l))) by (unfold is_word; lia).
  rewrite W, Nat2Z.id, F, Nat.eqb_refl.
  rewrite (proj2 (Z.ltb_ge _ _)) by lia. reflexivity.
Qed.

(** ** Writing *)
Section Writes.
Context (new_char : Z -> option (list Z)).
Context (new_char_length : forall n p, new_char n = Some p -> length p = Z.to_nat n).
Context (new_char_total : forall n, new_char n <> None).

(** [b'] is [b] with [l] appended to what was written. *)
Definition wrote (b : CLuaBinary) (l : list Z) (b' : CLuaBinary) : Prop :=
  well_formed (m_objWritBuffer b') /\ getBuffer b' = getBuffer b ++ l.

Lemma setVal_wrote b p n l : well_formed (m_objWritBuffer b) -> 0 <= n ->
  l = match p with None => repeat 0 (Z.to_nat n) | Some l => firstn (Z.to_nat n) l end ->
  match p with None => True | Some l => n <= Z.of_nat (length l) end ->
  exists b', setVal new_char b p n = (b', true) /\ wrote b l b'.
Proof.
  intros Hw Hn -> Hl. unfold setVal.
  pose proof (pushBuff_total new_char (m_objWritBuffer b) p n new_char_total) as T.
  destruct (pushBuff new_char (m_objWritBuffer b) p n) as [w ok] eqn:E. cbn in T. subst ok.
  destruct (pushBuff_spec new_char new_char_length _ p n w Hw Hn Hl E) as (W & _ & _ & C).
  eexists; split; [reflexivity|]. split; [exact W|exact C].
Qed.

Lemma setVal_all b l n : well_formed (m_objWritBuffer b) -> n = Z.of_nat (length l) ->
  exists b', setVal new_char b (Some l) n = (b', true) /\ wrote b l b'.
Proof.
  intros Hw ->. apply setVal_wrote; auto; try lia. now rewrite Nat2Z.id, firstn_all.
Qed.

Lemma skipWrite_wrote b n : well_formed (m_objWritBuffer b) -> 0 <= n < 2 ^ 32 ->
  exists b', skipWrite new_char b n = (b', true) /\ wrote b (repeat 0 (Z.to_nat n)) b'.
Proof.
  intros Hw Hn. unfold skipWrite. rewrite w32_small by exact Hn. destruct (Z.eqb_spec 0 n) as [<-|].
  - exists b. split; [reflexivity|]. split; [exact Hw|]. symmetry. apply app_nil_r.
  - apply setVal_wrote; auto. lia.
Qed.

Lemma wrote_trans b l b1 l1 b2 : wrote b l b1 -> wrote b1 l1 b2 -> wrote b (l ++ l1) b2.
Proof. intros [_ E1] [W E2]. split; [exact W|]. rewrite E2, E1. symmetry; apply app_assoc. Qed.

Lemma setString_wrote b s : well_formed (m_objWritBuffer b) -> ~ In 0 s ->
  exists b', setString new_char b s = (b', true) /\ wrote b (s ++ [0]) b'.
Proof.
  intros Hw Hs. unfold setString. rewrite c_str_id by exact Hs.
  destruct (setVal_all b s (Z.of_nat (length s)) Hw eq_refl) as (b1 & E1 & W1). rewrite E1.
  destruct (skipWrite_wrote b1 1 (proj1 W1) ltac:(lia)) as (b2 & E2 & W2).
  exists b2. split; [exact E2|]. exact (wrote_trans _ _ _ _ _ W1 W2).
Qed.
End Writes.

(** ** The wire format

    What a description makes of a value: the bytes, and the value that reading them back
    gives.  Integers become big-endian bytes; 64-bit ones come back as decimal strings,
    booleans (written from a number) as Lua booleans, byte fields with their padding. *)

Definition SCHAR : int_type := {| width := 8; signed := true |}.
Definition UCHAR : int_type := {| width := 8; signed := false |}.

(** The type the value is converted to, the type on the wire, its size. *)
Definition int_layout (ty : Z) : option (int_type * int_type * nat) :=
  if ty =? DTYPE_SINT8 then Some (SHORT, SCHAR, 1%nat)
  else if ty =? DTYPE_UINT8 then Some (USHORT, UCHAR, 1%nat)
  else if ty =? DTYPE_SINT16 then Some (SHORT, SHORT, 2%nat)
  else if ty =? DTYPE_UINT16 then Some (USHORT, USHORT, 2%nat)
  else if ty =? DTYPE_SINT32 then Some (INT, INT, 4%nat)
  else if ty =? DTYPE_UINT32 then Some (UINT, UINT, 4%nat)
  else None.

Definition be_bytes (k : nat) (n : Z) : list Z := rev (le_bytes k n).

Section Wire.
Context (read_double read_float : list Z -> Z) (lua_tostring : Z -> list Z) (lua_tonumber : list Z -> option Z).

Inductive wire_scalar : Z -> Z -> LuaRef -> list Z -> LuaRef -> Prop :=
| wire_int ty size v n arg t k : int_layout ty = Some (arg, t, k) -> getLuaInt arg v = n -> in_range t n ->
    wire_scalar ty size v (be_bytes k n) (LuaNumber (num_of_int n))
| wire_bool size v n : getLuaInt USHORT v = n ->
    wire_scalar DTYPE_BOOL size v [if 0 =? n then 0 else 1] (LuaBool (negb (0 =? n)))
| wire_sint64 size v n : getLuaInt INT64 v = n -> in_range INT64 n ->
    wire_scalar DTYPE_SINT64 size v (be_bytes 8 n) (LuaString (show_int n))
| wire_uint64 size v n : getLuaInt UINT64 v = n -> in_range UINT64 n ->
    wire_scalar DTYPE_UINT64 size v (be_bytes 8 n) (LuaString (show_int n))
| wire_float size v f : getLuaFloat read_float v = f -> is_word f ->
    wire_scalar DTYPE_FLOAT size v (le_bytes 4 f) (LuaNumber (num_of_float f))
| wire_double size v d : getLuaDouble read_double v = d -> 0 <= d < 2 ^ 64 ->
    wire_scalar DTYPE_DOUBLE size v (le_bytes 8 d) (LuaNumber d)
| wire_string size s : ~ In 0 s -> Z.of_nat (length s) < size < 2 ^ 31 ->
    wire_scalar DTYPE_STRING size (LuaString s)
      ((s ++ [0]) ++ repeat 0 (Z.to_nat (size - (Z.of_nat (length s) + 1)))) (LuaString s)
| wire_byte size s : Z.of_nat (length s) <= size < 2 ^ 31 ->
    wire_scalar DTYPE_BYTE size (LuaString s)
      (s ++ repeat 0 (Z.to_nat (size - Z.of_nat (length s))))
      (LuaString (s ++ repeat 0 (Z.to_nat (size - Z.of_nat (length s))))).

(** The fields of a description, the values, the bytes; the last two arguments are the
    fields read back before and after. *)
Inductive wire_fields : list LuaRef -> list (list Z * LuaRef) -> list Z ->
    list (list Z * LuaRef) -> list (list Z * LuaRef) -> Prop :=
| wire_nil vals acc : wire_fields [] vals [] acc acc
| wire_field e eh a attrs vals l l' r acc acc' :
    (2 <= length e)%nat -> getStructAttr lua_tostring lua_tonumber e = Done a ->
    wire_scalar (emType a) (iSize a) (get_field vals (strName a)) l r ->
    wire_fields attrs vals l' (set_field acc (strName a) r) acc' ->
    wire_fields (LuaTable e eh :: attrs) vals (l ++ l') acc acc'
| wire_struct e eh a attrs vals sub subh arr vs l l' r acc acc' :
    (2 <= length e)%nat -> getStructAttr lua_tostring lua_tonumber e = Done a ->
    emType a = DTYPE_STRUCT -> objTable a = LuaTable sub subh ->
    get_field vals (strName a) = LuaTable arr vs ->
    wire_fields sub vs l [] r ->
    wire_fields attrs vals l' (set_field acc (strName a) (LuaTable [] r)) acc' ->
    wire_fields (LuaTable e eh :: attrs) vals (l ++ l') acc acc'
| wire_skip e eh a attrs vals l' acc acc' :
    (2 <= length e)%nat -> getStructAttr lua_tostring lua_tonumber e = Done a ->
    emType a = DTYPE_SKIP -> 0 < iSize a < 2 ^ 31 ->
    wire_fields attrs vals l' acc acc' ->
    wire_fields (LuaTable e eh :: attrs) vals (repeat 0 (Z.to_nat (iSize a)) ++ l') acc acc'.

(** *** Integers *)

Lemma le_bytes_ntohs n : le_bytes 2 (ntohs n) = be_bytes 2 n.
Proof. apply le_bytes_be. Qed.

Lemma ntohl64_written n : 0 <= n -> le_bytes 8 (ntohl64 n) = be_bytes 8 n.
Proof. apply OSFunc.le_bytes_ntohl64. Qed.

Lemma le_bytes_ntohl n : le_bytes 4 (ntohl n) = be_bytes 4 n.
Proof. apply le_bytes_be. Qed.

Lemma cast_unsigned t n : signed t = false -> cast t n = n mod 2 ^ width t.
Proof. intros E. unfold cast. now rewrite E. Qed.

Lemma le_bytes_1 n : le_bytes 1 n = be_bytes 1 n.
Proof. reflexivity. Qed.

Lemma ntohs_be_bytes n : ntohs (le (be_bytes 2 n)) = n mod 2 ^ 16.
Proof.
  unfold ntohs, be_bytes. change 2%nat with (length (rev (le_bytes 2 n))) at 1.
  rewrite be_le_bytes_le by auto with words. apply be_rev_le_bytes.
Qed.

Lemma ntohl_be_bytes n : ntohl (le (be_bytes 4 n)) = n mod 2 ^ 32.
Proof.
  unfold ntohl, be_bytes. change 4%nat with (length (rev (le_bytes 4 n))) at 1.
  rewrite be_le_bytes_le by auto with words. apply be_rev_le_bytes.
Qed.

Lemma ntohl64_be_bytes n : ntohl64 (le (be_bytes 8 n)) = n mod 2 ^ 64.
Proof.
  assert (B : bytes (rev (le_bytes 8 n))) by auto with words.
  unfold be_bytes. rewrite ntohl64_be by (pose proof (le_bound _ B); lia).
  change 8%nat with (length (rev (le_bytes 8 n))) at 1.
  rewrite be_le_bytes_le by exact B. apply be_rev_le_bytes.
Qed.

Lemma length_be_bytes k n : length (be_bytes k n) = k.
Proof. unfold be_bytes. now rewrite length_rev, length_le_bytes. Qed.

Lemma be_bytes_mod k n : be_bytes k (n mod Pn k) = be_bytes k n.
Proof. unfold be_bytes. now rewrite le_bytes_mod. Qed.

(** Which type a layout belongs to. *)
Lemma int_layout_inv ty x : int_layout ty = Some x ->
  (ty = 0 /\ x = (SHORT, SCHAR, 1%nat)) \/ (ty = 1 /\ x = (USHORT, UCHAR, 1%nat)) \/
  (ty = 3 /\ x = (SHORT, SHORT, 2%nat)) \/ (ty = 4 /\ x = (USHORT, USHORT, 2%nat)) \/
  (ty = 5 /\ x = (INT, INT, 4%nat)) \/ (ty = 6 /\ x = (UINT, UINT, 4%nat)).
Proof.
  unfold int_layout.
  destruct (Z.eqb_spec ty DTYPE_SINT8) as [->|_]; [intros [= <-]; tauto|].
  destruct (Z.eqb_spec ty DTYPE_UINT8) as [->|_]; [intros [= <-]; tauto|].
  destruct (Z.eqb_spec ty DTYPE_SINT16) as [->|_]; [intros [= <-]; tauto|].
  destruct (Z.eqb_spec ty DTYPE_UINT16) as [->|_]; [intros [= <-]; tauto|].
  destruct (Z.eqb_spec ty DTYPE_SINT32) as [->|_]; [intros [= <-]; tauto|].
  destruct (Z.eqb_spec ty DTYPE_UINT32) as [->|_]; [intros [= <-]; tauto|].
  discriminate 1.
Qed.

Lemma sx8_be_bytes n : in_range SCHAR n -> sx8 (le (be_bytes 1 n)) = n.
Proof.
  unfold in_range, int_min, int_max, SCHAR. cbn [signed width]. intros H.
  change (le (be_bytes 1 n)) with (n mod 2 ^ 8 + 2 ^ 8 * 0). rewrite Z.mul_0_r, Z.add_0_r. unfold sx8.
  destruct (Z.lt_ge_cases n 0).
  - replace (n mod 2 ^ 8) with (n + 2 ^ 8) by (apply Z.mod_unique_pos with (-1); lia).
    destruct (Z.ltb_spec (n + 2 ^ 8) (2 ^ 7)); lia.
  - rewrite Z.mod_small by lia. destruct (Z.ltb_spec n (2 ^ 7)); lia.
Qed.

Section Set_get.
Context (new_char : Z -> option (list Z)).
Context (new_char_length : forall n p, new_char n = Some p -> length p = Z.to_nat n).
Context (new_char_total : forall n, new_char n <> None).
Abbreviation set_sw := (set_switch new_char read_double read_float).

(** *** Scalars *)

(** An integer field: the bytes [setVal] is given. *)
Lemma set_switch_int rec b a v bOk arg t k : int_layout (emType a) = Some (arg, t, k) ->
  set_sw rec b a v bOk = Done (setVal new_char b (Some (be_bytes k (getLuaInt arg v))) (Z.of_nat k)).
Proof.
  intros H. unfold set_switch.
  destruct (int_layout_inv _ _ H) as [[-> [= -> -> ->]]|[[-> [= -> -> ->]]|[[-> [= -> -> ->]]|
    [[-> [= -> -> ->]]|[[-> [= -> -> ->]]|[-> [= -> -> ->]]]]]]]; this_type;
    unfold setSint8, setUint8, setSint16, setUint16, setSint32, setUint32;
    rewrite ?cast_unsigned, ?le_bytes_ntohs, ?le_bytes_ntohl, ?le_bytes_1 by reflexivity; try reflexivity;
    cbn [width]; rewrite ?(be_bytes_mod 2), ?(be_bytes_mod 4); reflexivity.
Qed.

(** Every scalar writes its bytes. *)
Lemma set_scalar rec b a v l r bOk : well_formed (m_objWritBuffer b) ->
  wire_scalar (emType a) (iSize a) v l r ->
  exists b', set_sw rec b a v bOk = Done (b', true) /\ wrote b l b'.
Proof.
  intros Hw H.
  assert (fin : forall l n, n = Z.of_nat (length l) ->
    set_sw rec b a v bOk = Done (setVal new_char b (Some l) n) ->
    exists b', set_sw rec b a v bOk = Done (b', true) /\ wrote b l b').
  { intros l0 n Hn ->. destruct (setVal_all new_char new_char_length new_char_total b l0 n Hw Hn)
      as (b' & E & W). exists b'. now rewrite E. }
  remember (emType a) as ty eqn:Ety. remember (iSize a) as size eqn:Esz.
  destruct H as [ty size v n arg t k Hl Hv Hr| size v n Hv| size v n Hv Hr| size v n Hv Hr
    | size v f Hv Hr| size v d Hv Hr| size s Hs Hl| size s Hl].
  1: { apply (fin _ (Z.of_nat k)); [now rewrite length_be_bytes|].
       rewrite <- Hv. apply set_switch_int with t. congruence. }
  all: unfold set_switch in *; rewrite <- Ety, <- ?Esz in *; this_type.
  - apply (fin _ 1); [reflexivity|]. rewrite Hv. unfold setBool. now destruct n.
  - apply (fin _ 8); [now rewrite length_be_bytes|]. rewrite Hv. unfold setSint64.
    rewrite read_show_int by (exact Hr || (cbn; lia)). rewrite cast_unsigned by reflexivity.
    rewrite ntohl64_written by (apply Z.mod_pos_bound; reflexivity).
    now rewrite (be_bytes_mod 8).
  - apply (fin _ 8); [now rewrite length_be_bytes|]. rewrite Hv. unfold setUint64.
    rewrite read_show_int by (exact Hr || (cbn; lia)). rewrite ntohl64_written by apply Hr.
    reflexivity.
  - apply (fin _ 4); [now rewrite length_le_bytes|]. now rewrite Hv.
  - apply (fin _ 8); [now rewrite length_le_bytes|]. now rewrite Hv.
  - cbv zeta. rewrite (proj2 (Z.leb_gt _ _)) by lia.
    destruct (setString_wrote new_char new_char_length new_char_total b s Hw Hs) as (b1 & E1 & W1).
    rewrite E1.
    destruct (skipWrite_wrote new_char new_char_length new_char_total b1
      (size - (Z.of_nat (length s) + 1)) (proj1 W1) ltac:(lia)) as (b2 & E2 & W2).
    exists b2. split; [f_equal; exact E2|]. exact (wrote_trans _ _ _ _ _ W1 W2).
  - cbv zeta. rewrite (proj2 (Z.ltb_ge _ _)) by lia. unfold setByte.
    rewrite w32_small by (unfold is_word; lia).
    destruct (setVal_all new_char new_char_length new_char_total b s _ Hw eq_refl) as (b1 & E1 & W1).
    rewrite E1.
    destruct (skipWrite_wrote new_char new_char_length new_char_total b1
      (size - Z.of_nat (length s)) (proj1 W1) ltac:(lia)) as (b2 & E2 & W2).
    exists b2. split; [f_equal; exact E2|]. exact (wrote_trans _ _ _ _ _ W1 W2).
Qed.

(** *** Structures: writing *)

Lemma set_fields attrs vals l acc acc' : wire_fields attrs vals l acc acc' ->
  exists n, forall fuel, (n <= fuel)%nat -> forall b bOk, well_formed (m_objWritBuffer b) ->
  exists b', set_loop new_char read_double read_float lua_tostring lua_tonumber
      (setStruct new_char read_double read_float lua_tostring lua_tonumber fuel) vals attrs b bOk = Done (b', true) /\
    wrote b l b'.
Proof.
  induction 1 as [vals acc
    | e eh a attrs vals l l' r acc acc' He Ea Hs _ [n IH]
    | e eh a attrs vals sub subh arr vs l l' r acc acc' He Ea Ety Eo Ev _ [n1 IH1] _ [n IH]
    | e eh a attrs vals l' acc acc' He Ea Ety Hsz _ [n IH]].
  - exists 0%nat. intros fuel _ b bOk Hw. exists b. split; [reflexivity|].
    split; [exact Hw|]. symmetry; apply app_nil_r.
  - exists n. intros fuel Hf b bOk Hw. cbn [set_loop].
    rewrite (proj2 (Nat.ltb_ge _ _)) by lia. rewrite Ea. cbn [bind].
    destruct (set_scalar (setStruct new_char read_double read_float lua_tostring lua_tonumber fuel)
      b a _ l r bOk Hw Hs) as (b1 & E1 & W1). rewrite E1. cbn [bind].
    destruct (IH fuel Hf b1 true (proj1 W1)) as (b2 & E2 & W2). exists b2. split; [exact E2|].
    exact (wrote_trans _ _ _ _ _ W1 W2).
  - exists (Nat.max (S n1) n). intros [|fuel] Hf b bOk Hw; [lia|]. cbn [set_loop].
    rewrite (proj2 (Nat.ltb_ge _ _)) by lia. rewrite Ea. cbn [bind]. unfold set_switch at 1.
    rewrite Ety, Eo, Ev. change (DTYPE_STRUCT =? DTYPE_STRUCT) with true.
    this_type.
    cbn [setStruct]. destruct (IH1 fuel ltac:(lia) b false Hw) as (b1 & E1 & W1). rewrite E1. cbn [bind].
    destruct (IH (S fuel) ltac:(lia) b1 true (proj1 W1)) as (b2 & E2 & W2). exists b2. split; [exact E2|].
    exact (wrote_trans _ _ _ _ _ W1 W2).
  - exists n. intros fuel Hf b bOk Hw. cbn [set_loop].
    rewrite (proj2 (Nat.ltb_ge _ _)) by lia. rewrite Ea. cbn [bind]. unfold set_switch at 1. rewrite Ety.
    this_type.
    rewrite (proj2 (Z.ltb_lt _ _)) by lia.
    destruct (skipWrite_wrote new_char new_char_length new_char_total b (iSize a) Hw ltac:(lia))
      as (b1 & E1 & W1). rewrite E1. cbn [bind].
    destruct (IH fuel Hf b1 true (proj1 W1)) as (b2 & E2 & W2). exists b2. split; [exact E2|].
    exact (wrote_trans _ _ _ _ _ W1 W2).
Qed.
End Set_get.

(** *** Structures: reading *)

(** Reading a whole number, by its bytes. *)
Lemma read_bytes b k l r : good b -> rest b = l ++ r -> length l = k ->
  readNumber k b = Done (le l, advance b (Z.of_nat k)).
Proof. intros G E <-. now apply readNumber_rest with r. Qed.

Lemma get_switch_int rec b a arg t k n r : int_layout (emType a) = Some (arg, t, k) -> in_range t n ->
  good b -> rest b = be_bytes k n ++ r ->
  get_switch rec b a = Done (Some (LuaNumber (num_of_int n)), advance b (Z.of_nat k)).
Proof.
  intros H Hr G E. pose proof (read_bytes b k _ r G E (length_be_bytes k n)) as R.
  unfold get_switch.
  destruct (int_layout_inv _ _ H) as [[-> [= -> -> ->]]|[[-> [= -> -> ->]]|[[-> [= -> -> ->]]|
    [[-> [= -> -> ->]]|[[-> [= -> -> ->]]|[-> [= -> -> ->]]]]]]]; this_type;
    unfold getSint8, getUint8, getSint16, getUint16, getSint32, getUint32; rewrite R; cbn [bind];
    rewrite ?sx8_be_bytes by exact Hr; rewrite ?ntohs_be_bytes, ?ntohl_be_bytes;
    rewrite ?(cast_mod SHORT), ?(cast_mod INT), ?cast_id by (exact Hr || (cbn; lia)); try reflexivity.
  - change (le (be_bytes 1 n)) with (n mod 2 ^ 8 + 2 ^ 8 * 0). rewrite Z.mul_0_r, Z.add_0_r.
    rewrite Z.mod_small; [reflexivity|]. unfold in_range, int_min, int_max in Hr. cbn in Hr. lia.
  - rewrite Z.mod_small; [reflexivity|]. unfold in_range, int_min, int_max in Hr. cbn in Hr. lia.
  - rewrite Z.mod_small; [reflexivity|]. unfold in_range, int_min, int_max in Hr. cbn in Hr. lia.
Qed.

Lemma get_scalar rec b a v l r tail : wire_scalar (emType a) (iSize a) v l r ->
  good b -> rest b = l ++ tail ->
  get_switch rec b a = Done (Some r, advance b (Z.of_nat (length l))).
Proof.
  intros H G E. remember (emType a) as ty eqn:Ety. remember (iSize a) as size eqn:Esz.
  destruct H as [ty size v n arg t k Hl Hv Hr| size v n Hv| size v n Hv Hr| size v n Hv Hr
    | size v f Hv Hr| size v d Hv Hr| size s Hs Hl| size s Hl].
  1: { rewrite length_be_bytes. apply (get_switch_int rec b a arg t k n tail); congruence. }
  all: unfold get_switch; rewrite <- Ety, <- ?Esz; this_type.
  - pose proof (read_bytes b 1 _ tail G E eq_refl) as R. unfold getBool. rewrite R. destruct n; reflexivity.
  - pose proof (read_bytes b 8 _ tail G E (length_be_bytes 8 n)) as R. unfold getSint64. rewrite R. cbn [bind].
    rewrite ntohl64_be_bytes, (cast_mod INT64), cast_id by (exact Hr || (cbn; lia)). reflexivity.
  - pose proof (read_bytes b 8 _ tail G E (length_be_bytes 8 n)) as R. unfold getUint64. rewrite R. cbn [bind].
    rewrite ntohl64_be_bytes, Z.mod_small; [reflexivity|]. unfold in_range, int_min, int_max in Hr. cbn in Hr. lia.
  - pose proof (read_bytes b 4 _ tail G E (length_le_bytes 4 f)) as R. unfold getFloat. rewrite R. cbn [bind].
    rewrite le_le_bytes, Z.mod_small by exact Hr. reflexivity.
  - pose proof (read_bytes b 8 _ tail G E (length_le_bytes 8 d)) as R. unfold getDouble. rewrite R. cbn [bind].
    rewrite le_le_bytes, Z.mod_small by exact Hr. reflexivity.
  - rewrite <- app_assoc in E. rewrite (getString_rest b s _ G Hs E). cbn [bind].
    unfold skipRead. rewrite w32_small by (unfold is_word; lia). rewrite advance_advance. do 3 f_equal.
    rewrite !length_app, repeat_length. cbn [length]. lia.
  - replace size with (Z.of_nat (length (s ++ repeat 0 (Z.to_nat (size - Z.of_nat (length s))))))
      at 1 by (rewrite length_app, repeat_length; lia).
    rewrite (getByte_rest b _ tail G E) by (rewrite length_app, repeat_length; lia). reflexivity.
Qed.

Lemma get_fields attrs vals l acc acc' : wire_fields attrs vals l acc acc' ->
  exists n, forall fuel, (n <= fuel)%nat -> forall b tail, good b -> rest b = l ++ tail ->
  get_loop lua_tostring lua_tonumber (getStruct lua_tostring lua_tonumber fuel) attrs b acc =
    Done (acc', advance b (Z.of_nat (length l))).
Proof.
  induction 1 as [vals acc
    | e eh a attrs vals l l' r acc acc' He Ea Hs _ [n IH]
    | e eh a attrs vals sub subh arr vs l l' r acc acc' He Ea Ety Eo Ev _ [n1 IH1] _ [n IH]
    | e eh a attrs vals l' acc acc' He Ea Ety Hsz _ [n IH]].
  - exists 0%nat. intros fuel _ b tail G E. cbn [length get_loop]. now rewrite advance_0.
  - exists n. intros fuel Hf b tail G E. cbn [get_loop].
    rewrite (proj2 (Nat.ltb_ge _ _)) by lia. rewrite Ea. cbn [bind].
    rewrite <- app_assoc in E. destruct (read_step b l _ G E) as (G1 & E1 & _).
    rewrite (get_scalar _ b a _ l r _ Hs G E). cbn [bind].
    rewrite (IH fuel Hf _ tail G1 E1), advance_advance, length_app, Nat2Z.inj_add. reflexivity.
  - exists (Nat.max (S n1) n). intros [|fuel] Hf b tail G E; [lia|]. cbn [get_loop].
    rewrite (proj2 (Nat.ltb_ge _ _)) by lia. rewrite Ea. cbn [bind]. unfold get_switch at 1.
    rewrite Ety, Eo. this_type.
    rewrite <- app_assoc in E. destruct (read_step b l _ G E) as (G1 & E1 & _).
    assert (R : getStruct lua_tostring lua_tonumber (S fuel) b (LuaTable sub subh) =
        Done (LuaTable [] r, advance b (Z.of_nat (length l))))
      by (cbn [getStruct]; rewrite (IH1 fuel ltac:(lia) b _ G E); reflexivity).
    rewrite R. cbn [bind].
    rewrite (IH (S fuel) ltac:(lia) _ tail G1 E1), advance_advance, length_app, Nat2Z.inj_add. reflexivity.
  - exists n. intros fuel Hf b tail G E. cbn [get_loop].
    rewrite (proj2 (Nat.ltb_ge _ _)) by lia. rewrite Ea. cbn [bind]. unfold get_switch at 1. rewrite Ety.
    this_type. rewrite (proj2 (Z.ltb_lt _ _)) by lia. cbn [bind].
    rewrite <- app_assoc in E. destruct (read_step b _ _ G E) as (G1 & E1 & _).
    rewrite repeat_length in *. unfold skipRead. rewrite w32_small by (unfold is_word; lia).
    rewrite Z2Nat.id in * by lia.
    rewrite (IH fuel Hf _ tail G1 E1), advance_advance. do 3 f_equal.
    rewrite length_app, repeat_length. lia.
Qed.
End Wire.

(** ** Reading never leaves the buffer, whatever it holds

    A buffer followed by a zero, like the bytes of a [std::string] or of a Lua string. *)

Definition terminated (b : CLuaBinary) : Prop :=
  0 <= m_iParseBufLens b < 2 ^ 62 /\
  exists tail, skipn (Z.to_nat (m_iParseBufLens b)) (m_pParseBuffer b) = 0 :: tail.

(** Depth and number of entries of a description, nested ones included. *)
Fixpoint struct_depth (v : LuaRef) : nat :=
  match v with
  | LuaTable arr _ => S (fold_right (fun x n => Nat.max (struct_depth x) n) 0%nat arr)
  | _ => 1
  end.

Fixpoint struct_weight (v : LuaRef) : Z :=
  match v with
  | LuaTable arr _ => fold_right (fun x n => 1 + struct_weight x + n) 0 arr
  | _ => 0
  end.

(** The position has moved [K] times at most. *)
Definition moved (K : Z) (b : CLuaBinary) : Prop :=
  terminated b /\ 0 <= K /\ 0 <= m_iCurParseLens b <= 2 ^ 62 + K * 2 ^ 33.

(** A good outcome: a state, or an error raised on purpose. *)
Definition stays {A} (K : Z) (x : outcome (A * CLuaBinary)) : Prop :=
  match x with
  | Done (_, b) => moved K b
  | Stop f => f = lua_error \/ f = assertion
  end.

Lemma terminated_length b : terminated b -> m_iParseBufLens b < Z.of_nat (length (m_pParseBuffer b)).
Proof.
  intros [H [t E]]. apply (f_equal (@length Z)) in E. rewrite length_skipn in E. cbn [length] in E. lia.
Qed.

Lemma moved_advance b K n : moved K b -> K < 2 ^ 28 -> 0 <= n <= 2 ^ 33 -> moved (K + 1) (advance b n).
Proof.
  intros [T H] HK Hn. split; [exact T|]. unfold advance. cbn [m_iCurParseLens]. unfold w64.
  rewrite Z.mod_small by lia. lia.
Qed.

Lemma moved_more b K K' : moved K b -> K <= K' -> moved K' b.
Proof. intros [T H] HK. split; [exact T|]. lia. Qed.

Lemma stays_more {A} K K' (x : outcome (A * CLuaBinary)) : stays K x -> K <= K' -> stays K' x.
Proof. destruct x as [[v b]|f]; [|auto]. apply moved_more. Qed.

Lemma stays_bind {A B} K K' (x : outcome (A * CLuaBinary)) (f : A * CLuaBinary -> outcome (B * CLuaBinary)) :
  stays K x -> (forall v b, moved K b -> stays K' (f (v, b))) -> stays K' (bind x f).
Proof. destruct x as [[v b]|e]; cbn; auto. Qed.

Lemma peek_inside b n : terminated b -> 0 <= m_iCurParseLens b ->
  m_iCurParseLens b + Z.of_nat n <= m_iParseBufLens b -> exists l, peek b n = Done l.
Proof.
  intros T H0 H. pose proof (terminated_length b T). unfold peek.
  rewrite (proj2 (Nat.eqb_eq _ _)); [eauto|]. rewrite length_firstn, length_skipn. lia.
Qed.

Lemma readNumber_stays b K n : moved K b -> K < 2 ^ 28 -> (n <= 8)%nat -> stays (K + 1) (readNumber n b).
Proof.
  intros M HK Hn. assert (M' := M). destruct M' as [T H]. unfold readNumber.
  replace (w64 (m_iCurParseLens b + Z.of_nat n)) with (m_iCurParseLens b + Z.of_nat n)
    by (symmetry; apply Z.mod_small; lia).
  destruct (Z.ltb_spec (m_iParseBufLens b) (m_iCurParseLens b + Z.of_nat n)).
  - apply (moved_more b K (K + 1)); [exact M|lia].
  - destruct (peek_inside b n T ltac:(lia) ltac:(lia)) as [l ->]. apply moved_advance; auto; lia.
Qed.

Lemma c_string_bound i l t : skipn i l = 0 :: t -> exists s, c_string l = Some s /\ (length s <= i)%nat.
Proof.
  revert l; induction i as [|i IH]; intros l E.
  - cbn [skipn] in E. subst. exists []. split; [reflexivity|cbn; lia].
  - destruct l as [|c l]; [discriminate E|]. cbn [c_string]. destruct (c =? 0).
    + exists []. split; [reflexivity|cbn; lia].
    + destruct (IH l E) as (s & -> & Hs). exists (c :: s). split; [reflexivity|cbn; lia].
Qed.

Lemma getString_stays b K : moved K b -> K < 2 ^ 28 -> stays (K + 1) (getString b).
Proof.
  intros M HK. assert (M' := M). destruct M' as [[HL [t Et]] H]. unfold getString.
  destruct (Z.leb_spec (m_iParseBufLens b) (m_iCurParseLens b)); [apply (moved_more b K); [exact M|lia]|].
  destruct (c_string_bound (Z.to_nat (m_iParseBufLens b - m_iCurParseLens b))
    (skipn (Z.to_nat (m_iCurParseLens b)) (m_pParseBuffer b)) t) as (s & -> & Hs).
  { rewrite skipn_skipn, <- Et. f_equal. lia. }
  split; [exact (conj HL (ex_intro _ t Et))|]. unfold advance. cbn [m_iCurParseLens]. unfold w64.
  rewrite Z.mod_small by lia. lia.
Qed.

Lemma getByte_stays b K n : moved K b -> K < 2 ^ 28 -> stays (K + 1) (getByte b n).
Proof.
  intros M HK. assert (M' := M). destruct M' as [T H]. pose proof (w32_word n) as W. unfold is_word in W.
  unfold getByte.
  replace (w64 (m_iCurParseLens b + w32 n)) with (m_iCurParseLens b + w32 n)
    by (symmetry; apply Z.mod_small; lia).
  destruct (Z.ltb_spec (m_iParseBufLens b) (m_iCurParseLens b + w32 n)).
  - apply (moved_more b K (K + 1)); [exact M|lia].
  - destruct (peek_inside b (Z.to_nat (w32 n)) T ltac:(lia) ltac:(lia)) as [l ->].
    apply moved_advance; auto; lia.
Qed.

Lemma skipRead_moved b K n : moved K b -> K < 2 ^ 28 -> moved (K + 1) (skipRead b n).
Proof.
  intros M HK. pose proof (w32_word n) as W. unfold is_word in W. apply moved_advance; auto; lia.
Qed.

(** A read followed by nothing but the conversion of its value. *)
Lemma stays_map {A B} K (g : A -> B) (x : outcome (A * CLuaBinary)) :
  stays K x -> stays K (let! (v, b) := x in Done (g v, b)).
Proof. destruct x as [[v b]|e]; cbn; auto. Qed.

Section Memory.
Context (lua_tostring : Z -> list Z) (lua_tonumber : list Z -> option Z).
Abbreviation attr := (getStructAttr lua_tostring lua_tonumber).

Lemma cast_string_error v : match cast_string lua_tostring v with Done _ => True | Stop f => f = lua_error end.
Proof. destruct v; cbn; auto. Qed.

Lemma cast_int_error v : match cast_int lua_tonumber v with Done _ => True | Stop f => f = lua_error end.
Proof. destruct v; cbn; auto. now destruct (lua_tonumber s). Qed.

Lemma attr_loop_spec l : forall j a,
  match attr_loop lua_tostring lua_tonumber j l a with
  | Done a' => objTable a' = objTable a \/ In (objTable a') l
  | Stop f => f = lua_error
  end.
Proof.
  induction l as [|x l IH]; intros j a; cbn [attr_loop]; [now left|].
  pose proof (cast_string_error x) as Hs. pose proof (cast_int_error x) as Hi.
  destruct (j =? STATTR_NAME); [|destruct (j =? STATTR_TYPE); [|destruct (j =? STATTR_SIZE);
    [|destruct (j =? STATTR_STATTR)]]].
  - destruct (cast_string _ x); [|exact Hs]. cbn [bind].
    specialize (IH (j + 1) {| strName := a0; emType := emType a; iSize := iSize a; objTable := objTable a |}).
    destruct (attr_loop _ _ _ _ _); [|exact IH]. cbn [objTable] in IH. cbn [In]. tauto.
  - destruct (cast_int _ x); [|exact Hi]. cbn [bind].
    specialize (IH (j + 1) {| strName := strName a; emType := a0; iSize := iSize a; objTable := objTable a |}).
    destruct (attr_loop _ _ _ _ _); [|exact IH]. cbn [objTable] in IH. cbn [In]. tauto.
  - destruct (cast_int _ x); [|exact Hi]. cbn [bind].
    specialize (IH (j + 1) {| strName := strName a; emType := emType a; iSize := a0; objTable := objTable a |}).
    destruct (attr_loop _ _ _ _ _); [|exact IH]. cbn [objTable] in IH. cbn [In]. tauto.
  - cbn [bind].
    specialize (IH (j + 1) {| strName := strName a; emType := emType a; iSize := iSize a; objTable := x |}).
    destruct (attr_loop _ _ _ _ _); [|exact IH]. cbn [objTable] in IH. cbn [In].
    destruct IH as [->|IH]; auto.
  - cbn [bind]. specialize (IH (j + 1) a). destruct (attr_loop _ _ _ _ _); [|exact IH]. cbn [In]. tauto.
Qed.

Lemma weight_nonneg n : forall v, (struct_depth v <= n)%nat -> 0 <= struct_weight v.
Proof.
  induction n as [|n IH]; intros [| | | |arr f] H; cbn [struct_depth struct_weight] in *; try lia.
  apply le_S_n in H. induction arr as [|x arr IHa]; cbn [fold_right] in *; [lia|].
  specialize (IH x ltac:(lia)). specialize (IHa ltac:(lia)). lia.
Qed.

Lemma depth_pos v : (1 <= struct_depth v)%nat.
Proof. destruct v; cbn; lia. Qed.

Lemma child_bounds e eh a : attr e = Done a ->
  (struct_depth (objTable a) <= struct_depth (LuaTable e eh))%nat /\
  0 <= struct_weight (objTable a) <= struct_weight (LuaTable e eh).
Proof.
  intros E. pose proof (attr_loop_spec e 1 {| strName := []; emType := DTYPE_SINT8; iSize := 0;
    objTable := LuaTable [] [] |}) as H.
  change (attr_loop _ _ 1 e _) with (attr e) in H. rewrite E in H. cbn [objTable] in H.
  destruct H as [->|H].
  - pose proof (weight_nonneg _ (LuaTable e eh) (le_n _)). cbn in *. lia.
  - pose proof (weight_nonneg _ _ (le_n (struct_depth (objTable a)))) as P0.
    cbn [struct_depth struct_weight]. revert H P0.
    generalize (objTable a). clear E. intros v. induction e as [|x e IH]; intros H2 H1; [destruct H2|].
    destruct H2 as [->|H2]; cbn [fold_right].
    + pose proof (weight_nonneg _ (LuaTable e []) (le_n _)) as P. cbn [struct_weight] in P. lia.
    + specialize (IH H2 H1). pose proof (weight_nonneg _ x (le_n _)). lia.
Qed.

Lemma get_switch_stays rec b K a W : moved K b -> 0 <= W -> K + W + 2 < 2 ^ 28 ->
  (emType a = DTYPE_STRUCT -> stays (K + W) (rec b (objTable a))) ->
  stays (K + W + 2) (get_switch rec b a).
Proof.
  intros M HW HK Hrec. unfold get_switch.
  assert (num : forall n, (n <= 8)%nat -> stays (K + W + 2) (readNumber n b))
    by (intros n Hn; apply (stays_more (K + 1)); [apply readNumber_stays; auto; lia|lia]).
  unfold getSint8, getUint8, getBool, getSint16, getUint16, getSint32, getUint32, getSint64, getUint64,
    getFloat, getDouble.
  repeat match goal with
  | |- stays _ (if ?c then _ else _) => destruct c eqn:?
  | |- stays _ (bind _ _) => first [apply (stays_map _ _ (bind _ _)) | apply stays_map]
  end; try (apply num; lia).
  - apply (stays_bind (K + 1)); [apply getString_stays; auto; lia|]. intros s b' M'.
    apply (moved_more _ (K + 1 + 1)); [apply skipRead_moved; auto; lia|lia].
  - apply (stays_more (K + 1)); [apply getByte_stays; auto; lia|lia].
  - apply (stays_more (K + W)); [|lia]. apply Hrec. now apply Z.eqb_eq.
  - cbn. destruct (0 <? iSize a).
    + apply (moved_more _ (K + 1)); [apply skipRead_moved; auto; lia|lia].
    + apply (moved_more _ K); [exact M|lia].
  - apply (moved_more _ K); [exact M|lia].
Qed.

(** Twice the weight, since a string moves the position twice. *)
Lemma get_loop_stays rec : forall attrs b K acc, moved K b ->
  K + 2 * struct_weight (LuaTable attrs []) < 2 ^ 28 ->
  (forall e eh b K v, In (LuaTable e eh) attrs -> moved K b -> K + 2 * struct_weight v < 2 ^ 28 ->
    (struct_depth v <= struct_depth (LuaTable e eh))%nat -> stays (K + 2 * struct_weight v) (rec b v)) ->
  stays (K + 2 * struct_weight (LuaTable attrs [])) (get_loop lua_tostring lua_tonumber rec attrs b acc).
Proof.
  induction attrs as [|x attrs IH]; intros b K acc M HK Hrec; cbn [get_loop struct_weight fold_right] in *;
    [cbn [stays]; replace (K + 2 * 0) with K by lia; exact M|].
  pose proof (weight_nonneg _ (LuaTable attrs []) (le_n _)) as P. cbn [struct_weight] in P.
  pose proof (weight_nonneg _ x (le_n _)) as Px.
  assert (stop : stays (K + 2 * (1 + struct_weight x +
      fold_right (fun x0 n => 1 + struct_weight x0 + n) 0 attrs)) (Done (acc, b)))
    by (apply (moved_more b K); [exact M|lia]).
  destruct x as [| | | |e eh]; try exact stop. destruct (Nat.ltb (length e) 2); [exact stop|]. clear stop.
  destruct (attr e) as [a|f] eqn:Ea; cbn [bind].
  - destruct (child_bounds e eh a Ea) as [D [W0 W]].
    apply (stays_bind (K + 2 * struct_weight (objTable a) + 2)).
    + apply get_switch_stays; auto; try lia. intros _. apply (Hrec e eh); auto; [now left|lia].
    + intros v b' M'.
      apply (stays_more (K + 2 * struct_weight (objTable a) + 2 +
        2 * fold_right (fun x0 n => 1 + struct_weight x0 + n) 0 attrs)); [|lia].
      apply IH; [exact M'|lia|]. intros e' eh' b1 K1 v1 Hin. apply (Hrec e' eh'). now right.
  - left. pose proof (attr_loop_spec e 1 {| strName := []; emType := DTYPE_SINT8;
      iSize := 0; objTable := LuaTable [] [] |}) as H.
    change (attr_loop _ _ 1 e _) with (attr e) in H. now rewrite Ea in H.
Qed.

Lemma depth_in x f (arr : list LuaRef) : In x arr -> (struct_depth x < struct_depth (LuaTable arr f))%nat.
Proof.
  cbn [struct_depth]. induction arr as [|y arr IH]; intros H; [destruct H|]. cbn [fold_right].
  destruct H as [->|H]; [lia|]. specialize (IH H). lia.
Qed.

Lemma getStruct_stays fuel : forall b K v, moved K b -> K + 2 * struct_weight v < 2 ^ 28 ->
  (struct_depth v <= fuel)%nat -> stays (K + 2 * struct_weight v) (getStruct lua_tostring lua_tonumber fuel b v).
Proof.
  induction fuel as [|fuel IH]; intros b K v M HK Hf; [pose proof (depth_pos v); lia|].
  cbn [getStruct]. destruct v as [| | | |attrs f]; try (now right). apply stays_map.
  apply get_loop_stays; [exact M|exact HK|].
  intros e eh b1 K1 v1 Hin M1 HK1 D. pose proof (depth_in _ f _ Hin). apply IH; auto. lia.
Qed.
End Memory.


(** Claim C13: a structure written by [setStruct] is what [getStruct] reads.  When a description fits a value, with
    bytes [l] and fields [r] ([wire_fields], the format: big-endian integers, terminated and padded strings, nested
    structures, gaps), [setStruct] succeeds and leaves exactly [l] in the buffer, and [getStruct] gives [r] from
    these bytes, wherever they are followed by others, and stops at their end.  Fuel beyond some amount changes
    nothing. *)
Theorem struct_roundtrip new_char read_double read_float lua_tostring lua_tonumber attrs vals l r arr h b c junk
    (new_char_length : forall n p, new_char n = Some p -> length p = Z.to_nat n)
    (new_char_total : forall n, new_char n <> None) :
  wire_fields read_double read_float lua_tostring lua_tonumber attrs vals l [] r ->
  well_formed (m_objWritBuffer b) -> Z.of_nat (length l) < 2 ^ 63 ->
  exists n, forall fuel, (n <= fuel)%nat ->
  exists b', setStruct new_char read_double read_float lua_tostring lua_tonumber fuel (reSetWrite b)
      (LuaTable arr vals) (LuaTable attrs h) = Done (b', true) /\
    getBuffer b' = l /\
    getStruct lua_tostring lua_tonumber fuel
      (setBuffer c (getBuffer b' ++ junk) (Z.of_nat (length (getBuffer b')))) (LuaTable attrs h) =
    Done (LuaTable [] r,
      advance (setBuffer c (getBuffer b' ++ junk) (Z.of_nat (length (getBuffer b')))) (Z.of_nat (length l))).
Proof.
  intros H Hw Hl.
  destruct (set_fields read_double read_float lua_tostring lua_tonumber new_char new_char_length new_char_total
    _ _ _ _ _ H) as [n1 S].
  destruct (get_fields _ _ _ _ _ _ _ _ _ H) as [n2 G].
  destruct (reSet_spec _ Hw) as [Hw' E0].
  exists (Datatypes.S (Nat.max n1 n2)). intros [|fuel] Hf; [lia|].
  destruct (S fuel ltac:(lia) (reSetWrite b) false Hw') as (b' & E & [_ W]).
  assert (EW : getBuffer b' = l) by (rewrite W; unfold getBuffer, reSetWrite; cbn [m_objWritBuffer set_writ]; now rewrite E0).
  exists b'. split; [exact E|]. split; [exact EW|]. rewrite EW.
  destruct (good_setBuffer c l junk Hl) as [Gd R].
  cbn [getStruct]. rewrite (G fuel ltac:(lia) _ [] Gd); [reflexivity|]. now rewrite R, app_nil_r.
Qed.

(** *** A concrete description *)

Definition entry (name : list Z) (ty size : Z) : list LuaRef :=
  [LuaString name; LuaNumber (num_of_int ty); LuaNumber (num_of_int size)].


(** A number, a padded string, a gap and a nested structure. *)
Lemma struct_roundtrip_witness :
  let new_char := fun n => Some (repeat 0 (Z.to_nat n)) in
  let b := {| m_pParseBuffer := []; m_iParseBufLens := 0; m_iCurParseLens := 0;
    m_objWritBuffer := {| m_pBuffer := None; m_iOffset := 0; m_iTotalSize := 0 |} |} in
  let attrs := [LuaTable (entry [105] DTYPE_SINT32 0) []; LuaTable (entry [110] DTYPE_STRING 4) [];
    LuaTable (entry [112] DTYPE_STRUCT 0 ++ [LuaTable [LuaTable (entry [120] DTYPE_UINT16 0) []] []]) [];
    LuaTable (entry [] DTYPE_SKIP 2) []] in
  let vals := [([105], LuaNumber (num_of_int (-2))); ([110], LuaString [65; 66]);
    ([112], LuaTable [] [([120], LuaNumber (num_of_int 258))])] in
  let l := [255; 255; 255; 254; 65; 66; 0; 0; 1; 2; 0; 0] in
  exists n, forall fuel, (n <= fuel)%nat ->
  exists b', setStruct new_char (fun _ => 0) (fun _ => 0) (fun _ => []) (fun _ => None) fuel (reSetWrite b)
      (LuaTable [] vals) (LuaTable attrs []) = Done (b', true) /\
    getBuffer b' = l /\
    getStruct (fun _ => []) (fun _ => None) fuel
      (setBuffer b (getBuffer b' ++ []) (Z.of_nat (length (getBuffer b')))) (LuaTable attrs []) =
    Done (LuaTable [] vals, advance (setBuffer b (getBuffer b' ++ []) (Z.of_nat (length (getBuffer b')))) 12).
Proof.
  intros new_char b attrs vals l.
  apply (struct_roundtrip new_char (fun _ => 0) (fun _ => 0) (fun _ => []) (fun _ => None) attrs vals l vals [] [] b b []).
  - intros n p [= <-]. apply repeat_length.
  - discriminate.
  - change l with ([255; 255; 255; 254] ++ (([65; 66] ++ [0]) ++ repeat 0 1) ++ ([1; 2] ++ []) ++ repeat 0 2 ++ []).
    eapply wire_field; [cbn; lia|reflexivity| |].
    { change [255; 255; 255; 254] with (be_bytes 4 (-2)). eapply wire_int; [reflexivity|reflexivity|vm_compute; split; discriminate]. }
    eapply wire_field; [cbn; lia|reflexivity| |].
    { apply (wire_string _ _ 4 [65; 66]); [cbn; intuition discriminate|vm_compute; split; reflexivity]. }
    eapply wire_struct; [cbn; lia|reflexivity|reflexivity|reflexivity|reflexivity| |].
    { eapply wire_field; [cbn; lia|reflexivity| |apply wire_nil].
      change [1; 2] with (be_bytes 2 258). eapply wire_int; [reflexivity|reflexivity|vm_compute; split; discriminate]. }
    apply (wire_skip _ _ _ _ _ _ {| strName := []; emType := DTYPE_SKIP; iSize := 2; objTable := LuaTable [] [] |});
      [cbn; lia|reflexivity|reflexivity|vm_compute; split; reflexivity|apply wire_nil].
  - vm_compute. split; [discriminate|split; reflexivity].
  - reflexivity.
Defined.

(** ** Behaviour that surprises *)

(** A Lua boolean, which is what [getStruct] gives for a boolean field, is written as
    false: only numbers and strings are looked at. *)
Theorem bool_value_lost new_char rd rf rec b a x bOk : emType a = DTYPE_BOOL ->
  set_switch new_char rd rf rec b a (LuaBool x) bOk = Done (setBool new_char b false).
Proof. intros E. unfold set_switch. rewrite E. reflexivity. Qed.

(** A description that starts with an empty gap is refused by [setStruct]. *)
Theorem leading_empty_skip new_char rd rf ts tn fuel b objTmp eh attrs h arr vals a :
  (2 <= length objTmp)%nat -> getStructAttr ts tn objTmp = Done a -> emType a = DTYPE_SKIP -> iSize a <= 0 ->
  setStruct new_char rd rf ts tn (S fuel) b (LuaTable arr vals) (LuaTable (LuaTable objTmp eh :: attrs) h) =
  Done (b, false).
Proof.
  intros Hl Ea Ety Hs. cbn [setStruct set_loop]. rewrite (proj2 (Nat.ltb_ge _ _)) by lia.
  rewrite Ea. cbn [bind]. unfold set_switch. rewrite Ety. this_type.
  rewrite (proj2 (Z.ltb_ge _ _)) by lia. reflexivity.
Qed.

(** A string field of a message that holds no zero is read past the end of the message. *)
Theorem unterminated_string b l : l <> [] -> ~ In 0 l ->
  getString (setBuffer b l (Z.of_nat (length l))) = Stop bad_read.
Proof.
  intros Hl H. unfold getString. cbn [m_iParseBufLens m_iCurParseLens m_pParseBuffer setBuffer Z.to_nat skipn].
  rewrite (proj2 (Z.leb_gt _ _)) by (destruct l; [congruence|cbn [length]; lia]).
  replace (c_string l) with (@None (list Z)); [reflexivity|].
  clear Hl. induction l as [|c l IH]; [reflexivity|]. cbn [c_string].
  destruct (Z.eqb_spec c 0) as [->|_]; [exfalso; apply H; now left|].
  rewrite <- IH; [reflexivity|]. intros Hi. apply H. now right.
Qed.
