(* ===== verification/Base64.v ===== *)
(** * Base64: [CBase64] (QBase/Base64.cpp)

    [Encode] and [Decode] go through the input byte by byte and collect three bytes, or
    four characters, before they emit a group; the padding of a last short group is
    written but not required when decoding. *)

From S2P Require Import Prelude.

(** "A".."Z", "a".."z", "0".."9", "+", "/" *)
Definition base64_chars : list Z :=
  map Z.of_nat (seq 65 26 ++ seq 97 26 ++ seq 48 10) ++ [43; 47].

Definition isalnum (c : Z) : bool :=
  ((48 <=? c) && (c <=? 57)) || ((65 <=? c) && (c <=? 90)) || ((97 <=? c) && (c <=? 122)).

Definition is_base64 (c : Z) : bool := isalnum c || (c =? 43) || (c =? 47).

(** [base64_chars[v]] and [base64_chars.find(c)], whose [npos] is stored in an
    [unsigned char] as 255. *)
Definition char_at (v : Z) : Z := nth (Z.to_nat v) base64_chars 0.

Fixpoint index_of (c : Z) (l : list Z) (i : Z) : Z :=
  match l with [] => 255 | x :: r => if x =? c then i else index_of c r (i + 1) end.

Definition find_char (c : Z) : Z := index_of c base64_chars 0.

(** [char_array_4] from [char_array_3], and back. *)
Definition group4 (a b c : Z) : list Z :=
  [(a .& 252) .>> 2; ((a .& 3) .<< 4) + ((b .& 240) .>> 4);
   ((b .& 15) .<< 2) + ((c .& 192) .>> 6); c .& 63].

Definition group3 (a b c d : Z) : list Z :=
  [w8 ((a .<< 2) + ((b .& 48) .>> 4)); w8 (((b .& 15) .<< 4) + ((c .& 60) .>> 2));
   w8 (((c .& 3) .<< 6) + d)].

Definition at3 (l : list Z) (i : nat) : Z := nth i l 0.

(** The loop of [Encode]: [acc] are the first [i] cells of [char_array_3]. *)
Fixpoint encode_loop (l acc ret : list Z) : list Z * list Z :=
  match l with
  | [] => (acc, ret)
  | x :: r =>
      let acc := acc ++ [x] in
      if Nat.eqb (length acc) 3 then
        encode_loop r [] (ret ++ map char_at (group4 (at3 acc 0) (at3 acc 1) (at3 acc 2)))
      else encode_loop r acc ret
  end.

Definition Encode (pszData : list Z) : list Z :=
  let (acc, ret) := encode_loop pszData [] [] in
  match length acc with
  | O => ret
  | i => ret ++ firstn (i + 1) (map char_at (group4 (at3 acc 0) (at3 acc 1) (at3 acc 2)))
             ++ repeat 61 (3 - i)
  end.

(** The loop of [Decode]: [acc] are the first [i] cells of [char_array_4]; it stops at
    the end, at a padding character or at a character outside the alphabet. *)
Fixpoint decode_loop (l acc ret : list Z) : list Z * list Z :=
  match l with
  | [] => (acc, ret)
  | x :: r =>
      if negb (x =? 61) && is_base64 x then
        let acc := acc ++ [x] in
        if Nat.eqb (length acc) 4 then
          let v := map find_char acc in
          decode_loop r [] (ret ++ group3 (at3 v 0) (at3 v 1) (at3 v 2) (at3 v 3))
        else decode_loop r acc ret
      else (acc, ret)
  end.

Definition Decode (strEncoded : list Z) : list Z :=
  let (acc, ret) := decode_loop strEncoded [] [] in
  match length acc with
  | O => ret
  | i => let v := map find_char (acc ++ repeat 0 (4 - i)) in
         ret ++ firstn (i - 1) (group3 (at3 v 0) (at3 v 1) (at3 v 2) (at3 v 3))
  end.

(** ** Groups *)

Definition sextet (v : Z) : Prop := 0 <= v < 64.

Lemma char_at_ok v : sextet v ->
  find_char (char_at v) = v /\ negb (char_at v =? 61) && is_base64 (char_at v) = true /\ is_byte (char_at v).
Proof.
  intros Hv.
  assert (H : forallb (fun i => let c := char_at (Z.of_nat i) in
            (find_char c =? Z.of_nat i) && (negb (c =? 61) && is_base64 c) && is_byteb c) (seq 0 64) = true)
    by (vm_compute; reflexivity).
  rewrite forallb_forall in H. unfold sextet in Hv.
  specialize (H (Z.to_nat v) ltac:(apply in_seq; lia)). cbv zeta in H. rewrite Z2Nat.id in H by lia.
  apply andb_true_iff in H as [H H3]. apply andb_true_iff in H as [H1 H2].
  splits; [apply Z.eqb_eq, H1 | exact H2 | apply is_byteb_spec, H3].
Qed.

Lemma high_bits a k m : 0 <= k -> 0 <= m -> 0 <= a < 2 ^ (k + m) ->
  (a .& (Z.ones m * 2 ^ k)) .>> k = a / 2 ^ k.
Proof.
  intros Hk Hm Ha. rewrite Z.shiftr_land, !shiftr_div by lia. rewrite Z.div_mul by (apply Z.pow_nonzero; lia).
  rewrite Z.land_ones by lia. apply Z.mod_small.
  split; [apply Z.div_pos; lia|]. apply Z.div_lt_upper_bound; [lia|]. rewrite <- Z.pow_add_r by lia. lia.
Qed.

Lemma low_bits a k m : 0 <= k -> 0 <= m -> (a .& Z.ones m) .<< k = (a mod 2 ^ m) * 2 ^ k.
Proof. intros Hk Hm. rewrite Z.land_ones, Z.shiftl_mul_pow2 by lia. reflexivity. Qed.

Lemma group4_arith a b c : is_byte a -> is_byte b -> is_byte c ->
  group4 a b c = [a / 4; (a mod 4) * 16 + b / 16; (b mod 16) * 4 + c / 64; c mod 64].
Proof.
  unfold is_byte, group4. intros Ha Hb Hc.
  assert (E1 : (a .& 252) .>> 2 = a / 4) by exact (high_bits a 2 6 ltac:(lia) ltac:(lia) Ha).
  assert (E2 : (b .& 240) .>> 4 = b / 16) by exact (high_bits b 4 4 ltac:(lia) ltac:(lia) Hb).
  assert (E3 : (c .& 192) .>> 6 = c / 64) by exact (high_bits c 6 2 ltac:(lia) ltac:(lia) Hc).
  assert (E4 : (a .& 3) .<< 4 = a mod 4 * 16) by exact (low_bits a 4 2 ltac:(lia) ltac:(lia)).
  assert (E5 : (b .& 15) .<< 2 = b mod 16 * 4) by exact (low_bits b 2 4 ltac:(lia) ltac:(lia)).
  rewrite E1, E2, E3, E4, E5.
  change 63 with (Z.ones 6). rewrite Z.land_ones by lia. reflexivity.
Qed.

Lemma mid_bits b k m : 0 <= k -> 0 <= m -> (b .& (Z.ones m * 2 ^ k)) .>> k = (b / 2 ^ k) mod 2 ^ m.
Proof.
  intros Hk Hm. rewrite Z.shiftr_land, !shiftr_div by lia. rewrite Z.div_mul by (apply Z.pow_nonzero; lia).
  apply Z.land_ones, Hm.
Qed.

Lemma group3_arith a b c d : sextet a -> sextet b -> sextet c -> sextet d ->
  group3 a b c d = [a * 4 + b / 16; (b mod 16) * 16 + c / 4; (c mod 4) * 64 + d].
Proof.
  unfold sextet, group3. intros Ha Hb Hc Hd.
  assert (E1 : (b .& 48) .>> 4 = b / 16 mod 4) by exact (mid_bits b 4 2 ltac:(lia) ltac:(lia)).
  assert (E2 : (c .& 60) .>> 2 = c / 4 mod 16) by exact (mid_bits c 2 4 ltac:(lia) ltac:(lia)).
  assert (E3 : (b .& 15) .<< 4 = b mod 16 * 16) by exact (low_bits b 4 4 ltac:(lia) ltac:(lia)).
  assert (E4 : (c .& 3) .<< 6 = c mod 4 * 64) by exact (low_bits c 6 2 ltac:(lia) ltac:(lia)).
  rewrite E1, E2, E3, E4.
  rewrite Z.shiftl_mul_pow2 by lia. unfold w8.
  change (2 ^ 2) with 4. change (2 ^ 4) with 16. change (2 ^ 6) with 64. change (2 ^ 8) with 256.
  assert (E5 : b / 16 mod 4 = b / 16) by (Z.to_euclidean_division_equations; lia).
  assert (E6 : c / 4 mod 16 = c / 4) by (Z.to_euclidean_division_equations; lia).
  rewrite E5, E6. cons_eq; Z.to_euclidean_division_equations; lia.
Qed.

Lemma group4_sextets a b c : is_byte a -> is_byte b -> is_byte c -> Forall sextet (group4 a b c).
Proof.
  intros Ha Hb Hc. rewrite group4_arith by assumption. unfold is_byte in *.
  repeat constructor; unfold sextet; Z.to_euclidean_division_equations; lia.
Qed.

Lemma group3_group4 a b c : is_byte a -> is_byte b -> is_byte c ->
  forall v, v = group4 a b c -> group3 (at3 v 0) (at3 v 1) (at3 v 2) (at3 v 3) = [a; b; c].
Proof.
  intros Ha Hb Hc v ->. pose proof (group4_sextets a b c Ha Hb Hc) as H.
  rewrite group4_arith in * by assumption. inversion H as [|? ? S0 H0]; subst.
  inversion H0 as [|? ? S1 H1]; subst. inversion H1 as [|? ? S2 H2]; subst.
  inversion H2 as [|? ? S3 _]; subst.
  unfold at3. cbn [nth]. rewrite group3_arith by assumption. unfold is_byte in *.
  assert (E1 : (a mod 4 * 16 + b / 16) / 16 = a mod 4) by (Z.to_euclidean_division_equations; lia).
  assert (E2 : (a mod 4 * 16 + b / 16) mod 16 = b / 16) by (Z.to_euclidean_division_equations; lia).
  assert (E3 : (b mod 16 * 4 + c / 64) / 4 = b mod 16) by (Z.to_euclidean_division_equations; lia).
  assert (E4 : (b mod 16 * 4 + c / 64) mod 4 = c / 64) by (Z.to_euclidean_division_equations; lia).
  rewrite E1, E2, E3, E4. cons_eq; Z.to_euclidean_division_equations; lia.
Qed.

(** A group as four numbers below 64. *)
Lemma group4_cases a b c : is_byte a -> is_byte b -> is_byte c -> exists v0 v1 v2 v3,
  group4 a b c = [v0; v1; v2; v3] /\ sextet v0 /\ sextet v1 /\ sextet v2 /\ sextet v3 /\
  group3 v0 v1 v2 v3 = [a; b; c].
Proof.
  intros Ha Hb Hc. pose proof (group4_sextets a b c Ha Hb Hc) as H.
  pose proof (group3_group4 a b c Ha Hb Hc _ eq_refl) as G.
  destruct (group4 a b c) as [|v0 [|v1 [|v2 [|v3 [|? ?]]]]] eqn:E; try discriminate.
  inversion H as [|? ? S0 H0]; subst. inversion H0 as [|? ? S1 H1]; subst.
  inversion H1 as [|? ? S2 H2]; subst. inversion H2 as [|? ? S3 _]; subst.
  exists v0, v1, v2, v3. splits; auto.
Qed.

(** ** Decoding an encoding *)

(** Characters of a group are consumed one by one. *)
Lemma decode_char v l acc ret : sextet v -> (length acc < 3)%nat ->
  decode_loop (char_at v :: l) acc ret = decode_loop l (acc ++ [char_at v]) ret.
Proof.
  intros Hv Ha. cbn [decode_loop]. destruct (char_at_ok v Hv) as (_ & -> & _).
  rewrite (proj2 (Nat.eqb_neq _ _)); [reflexivity|]. rewrite length_app. cbn. lia.
Qed.

Lemma decode_group a b c l ret : is_byte a -> is_byte b -> is_byte c ->
  decode_loop (map char_at (group4 a b c) ++ l) [] ret = decode_loop l [] (ret ++ [a; b; c]).
Proof.
  intros Ha Hb Hc. destruct (group4_cases a b c Ha Hb Hc) as (v0 & v1 & v2 & v3 & -> & S0 & S1 & S2 & S3 & G).
  cbn [map app]. rewrite !decode_char by (assumption || (cbn; lia)). cbn [app].
  cbn [decode_loop]. destruct (char_at_ok v3 S3) as (E3 & -> & _). cbn [app length Nat.eqb map].
  destruct (char_at_ok v0 S0) as (-> & _), (char_at_ok v1 S1) as (-> & _), (char_at_ok v2 S2) as (-> & _).
  rewrite E3. unfold at3. cbn [nth]. rewrite G. reflexivity.
Qed.

(** ** The encoding group by group *)

Fixpoint b64 (l : list Z) : list Z :=
  match l with
  | a :: b :: c :: r => map char_at (group4 a b c) ++ b64 r
  | [a; b] => firstn 3 (map char_at (group4 a b 0)) ++ [61]
  | [a] => firstn 2 (map char_at (group4 a 0 0)) ++ [61; 61]
  | [] => []
  end.

(** Induction by groups of three. *)
Lemma triple_ind (P : list Z -> Prop) : P [] -> (forall a, P [a]) -> (forall a b, P [a; b]) ->
  (forall a b c r, P r -> P (a :: b :: c :: r)) -> forall l, P l.
Proof.
  intros H0 H1 H2 H3. fix IH 1. intros [|a [|b [|c r]]]; [exact H0 | apply H1 | apply H2 | apply H3, IH].
Qed.

Lemma encode_loop_b64 l : forall ret, let (acc, ret') := encode_loop l [] ret in
  (match length acc with
   | O => ret'
   | i => ret' ++ firstn (i + 1) (map char_at (group4 (at3 acc 0) (at3 acc 1) (at3 acc 2)))
               ++ repeat 61 (3 - i)
   end) = ret ++ b64 l.
Proof.
  induction l as [|a|a b|a b c r IH] using triple_ind; intros ret; try reflexivity.
  - cbn [encode_loop length app]. symmetry. apply app_nil_r.
  - change (encode_loop (a :: b :: c :: r) [] ret) with
      (encode_loop r [] (ret ++ map char_at (group4 a b c))).
    specialize (IH (ret ++ map char_at (group4 a b c))).
    destruct (encode_loop r [] _) as [acc ret']. rewrite IH, <- app_assoc. reflexivity.
Qed.

Lemma Encode_b64 l : Encode l = b64 l.
Proof.
  pose proof (encode_loop_b64 l []) as H. unfold Encode.
  destruct (encode_loop l [] []) as [acc ret]. exact H.
Qed.

Lemma decode_loop_b64 l : bytes l -> forall ret, let (acc, ret') := decode_loop (b64 l) [] ret in
  (match length acc with
   | O => ret'
   | i => let v := map find_char (acc ++ repeat 0 (4 - i)) in
          ret' ++ firstn (i - 1) (group3 (at3 v 0) (at3 v 1) (at3 v 2) (at3 v 3))
   end) = ret ++ l.
Proof.
  assert (Hstop : forall acc ret l, decode_loop (61 :: l) acc ret = (acc, ret)) by reflexivity.
  induction l as [|a|a b|a b c r IH] using triple_ind; intros Hl ret.
  - cbn. symmetry. apply app_nil_r.
  - inversion Hl as [|? ? Ha _]; subst.
    destruct (group4_cases a 0 0 Ha byte_0 byte_0) as (v0 & v1 & v2 & v3 & E & S0 & S1 & _ & _ & G).
    cbn [b64]. rewrite E. cbn [map firstn app].
    rewrite !decode_char, Hstop by (assumption || (cbn; lia)). cbn [app length repeat Nat.sub map].
    destruct (char_at_ok _ S0) as (-> & _), (char_at_ok _ S1) as (-> & _).
    unfold at3. cbn [nth]. apply (f_equal (firstn 1)) in G. f_equal. exact G.
  - inversion Hl as [|? ? Ha Hl']; subst. inversion Hl' as [|? ? Hb _]; subst.
    destruct (group4_cases a b 0 Ha Hb byte_0) as (v0 & v1 & v2 & v3 & E & S0 & S1 & S2 & _ & G).
    cbn [b64]. rewrite E. cbn [map firstn app].
    rewrite !decode_char, Hstop by (assumption || (cbn; lia)). cbn [app length repeat Nat.sub map].
    destruct (char_at_ok _ S0) as (-> & _), (char_at_ok _ S1) as (-> & _), (char_at_ok _ S2) as (-> & _).
    unfold at3. cbn [nth]. apply (f_equal (firstn 2)) in G. f_equal. exact G.
  - inversion Hl as [|? ? Ha Hl1]; subst. inversion Hl1 as [|? ? Hb Hl2]; subst.
    inversion Hl2 as [|? ? Hc Hr]; subst.
    change (b64 (a :: b :: c :: r)) with (map char_at (group4 a b c) ++ b64 r).
    rewrite decode_group by assumption. specialize (IH Hr (ret ++ [a; b; c])).
    destruct (decode_loop (b64 r) [] _) as [acc ret']. rewrite IH, <- app_assoc. reflexivity.
Qed.

Lemma b64_chars l : bytes l -> bytes (b64 l) /\ Forall (fun c => is_base64 c = true \/ c = 61) (b64 l).
Proof.
  intros Hl. cut (Forall (fun c => is_byte c /\ (is_base64 c = true \/ c = 61)) (b64 l)).
  { intros H. split; revert H; apply Forall_impl; tauto. }
  assert (C : forall v, Forall sextet v ->
              Forall (fun c => is_byte c /\ (is_base64 c = true \/ c = 61)) (map char_at v)).
  { intros v Hv. apply Forall_map. revert Hv. apply Forall_impl. intros x Hx.
    destruct (char_at_ok x Hx) as (_ & H1 & H2). apply andb_true_iff in H1 as [_ H1]. auto. }
  assert (P : is_byte 61 /\ (is_base64 61 = true \/ 61 = 61)) by (split; [unfold is_byte; lia | auto]).
  induction l as [|a|a b|a b c r IH] using triple_ind.
  - constructor.
  - inversion Hl; subst. change (b64 [a]) with (firstn 2 (map char_at (group4 a 0 0)) ++ [61; 61]).
    apply Forall_app. split; [apply Forall_firstn, C, group4_sextets; auto with words|].
    repeat (apply Forall_cons; [exact P|]). apply Forall_nil.
  - inversion Hl as [|? ? ? Hl']; subst. inversion Hl'; subst.
    change (b64 [a; b]) with (firstn 3 (map char_at (group4 a b 0)) ++ [61]). apply Forall_app.
    split; [apply Forall_firstn, C, group4_sextets; auto with words|]. repeat (apply Forall_cons; [exact P|]). apply Forall_nil.
  - inversion Hl as [|? ? ? Hl1]; subst. inversion Hl1 as [|? ? ? Hl2]; subst. inversion Hl2; subst.
    change (b64 (a :: b :: c :: r)) with (map char_at (group4 a b c) ++ b64 r).
    apply Forall_app. split; [apply C, group4_sextets; assumption | auto].
Qed.

Lemma Base64_Decode_Encode l : bytes l -> Decode (Encode l) = l.
Proof.
  intros H. rewrite Encode_b64. pose proof (decode_loop_b64 l H []) as D. unfold Decode.
  destruct (decode_loop (b64 l) [] []) as [acc ret]. exact D.
Qed.

Lemma Encode_chars l : bytes l -> Forall (fun c => is_base64 c = true \/ c = 61) (Encode l).
Proof. intros H. rewrite Encode_b64. apply b64_chars, H. Qed.

(** ** The claims *)

(** [Decode] undoes [Encode] on every byte string; an encoding consists of
    whole groups of four characters of the alphabet or padding. *)
Theorem base64_roundtrip l (H : bytes l) :
  Decode (Encode l) = l /\ length (Encode l) = (4 * ((length l + 2) / 3))%nat /\
  Forall (fun c => is_base64 c = true \/ c = 61) (Encode l).
Proof.
  splits; [now apply Base64_Decode_Encode| | now apply Encode_chars].
  rewrite Encode_b64.
  - clear H. induction l as [|a|a b|a b c r IH] using triple_ind; try reflexivity.
    change (b64 (a :: b :: c :: r)) with (map char_at (group4 a b c) ++ b64 r).
    rewrite length_app, IH. change (length (map char_at (group4 a b c))) with 4%nat.
    cbn [length]. replace (S (S (S (length r))) + 2)%nat with (1 * 3 + (length r + 2))%nat by lia.
    rewrite Nat.div_add_l by lia. lia.
Qed.

Lemma base64_roundtrip_witness :
  Encode [97; 110; 121; 49] = [89; 87; 53; 53; 77; 81; 61; 61] /\
  Decode [89; 87; 53; 53; 77; 81; 61; 61] = [97; 110; 121; 49].
Proof.
  split; [vm_compute; reflexivity|].
  exact (proj1 (base64_roundtrip [97; 110; 121; 49] ltac:(check_bytes))).
Defined.
