(* ===== verification/Crc.v ===== *)
(** * Crc: the checksums of [CEncrypt] (QBase/Encrypt.cpp)

    [hashCRC16] and [hashCRC32] go byte by byte through tables of 256 entries.  The
    reference is the division of polynomials over the field of two elements, one bit at
    a time.  The theorems: the tables compute the reference, and a checksum tells apart
    messages that differ in as many adjacent bytes as it has itself. *)

From S2P Require Import Prelude.

(** ** Definitions *)

Definition ausCRC16 : list Z :=
  [0x0000; 0x1021; 0x2042; 0x3063; 0x4084; 0x50a5; 0x60c6; 0x70e7;
   0x8108; 0x9129; 0xa14a; 0xb16b; 0xc18c; 0xd1ad; 0xe1ce; 0xf1ef;
   0x1231; 0x0210; 0x3273; 0x2252; 0x52b5; 0x4294; 0x72f7; 0x62d6;
   0x9339; 0x8318; 0xb37b; 0xa35a; 0xd3bd; 0xc39c; 0xf3ff; 0xe3de;
   0x2462; 0x3443; 0x0420; 0x1401; 0x64e6; 0x74c7; 0x44a4; 0x5485;
   0xa56a; 0xb54b; 0x8528; 0x9509; 0xe5ee; 0xf5cf; 0xc5ac; 0xd58d;
   0x3653; 0x2672; 0x1611; 0x0630; 0x76d7; 0x66f6; 0x5695; 0x46b4;
   0xb75b; 0xa77a; 0x9719; 0x8738; 0xf7df; 0xe7fe; 0xd79d; 0xc7bc;
   0x48c4; 0x58e5; 0x6886; 0x78a7; 0x0840; 0x1861; 0x2802; 0x3823;
   0xc9cc; 0xd9ed; 0xe98e; 0xf9af; 0x8948; 0x9969; 0xa90a; 0xb92b;
   0x5af5; 0x4ad4; 0x7ab7; 0x6a96; 0x1a71; 0x0a50; 0x3a33; 0x2a12;
   0xdbfd; 0xcbdc; 0xfbbf; 0xeb9e; 0x9b79; 0x8b58; 0xbb3b; 0xab1a;
   0x6ca6; 0x7c87; 0x4ce4; 0x5cc5; 0x2c22; 0x3c03; 0x0c60; 0x1c41;
   0xedae; 0xfd8f; 0xcdec; 0xddcd; 0xad2a; 0xbd0b; 0x8d68; 0x9d49;
   0x7e97; 0x6eb6; 0x5ed5; 0x4ef4; 0x3e13; 0x2e32; 0x1e51; 0x0e70;
   0xff9f; 0xefbe; 0xdfdd; 0xcffc; 0xbf1b; 0xaf3a; 0x9f59; 0x8f78;
   0x9188; 0x81a9; 0xb1ca; 0xa1eb; 0xd10c; 0xc12d; 0xf14e; 0xe16f;
   0x1080; 0x00a1; 0x30c2; 0x20e3; 0x5004; 0x4025; 0x7046; 0x6067;
   0x83b9; 0x9398; 0xa3fb; 0xb3da; 0xc33d; 0xd31c; 0xe37f; 0xf35e;
   0x02b1; 0x1290; 0x22f3; 0x32d2; 0x4235; 0x5214; 0x6277; 0x7256;
   0xb5ea; 0xa5cb; 0x95a8; 0x8589; 0xf56e; 0xe54f; 0xd52c; 0xc50d;
   0x34e2; 0x24c3; 0x14a0; 0x0481; 0x7466; 0x6447; 0x5424; 0x4405;
   0xa7db; 0xb7fa; 0x8799; 0x97b8; 0xe75f; 0xf77e; 0xc71d; 0xd73c;
   0x26d3; 0x36f2; 0x0691; 0x16b0; 0x6657; 0x7676; 0x4615; 0x5634;
   0xd94c; 0xc96d; 0xf90e; 0xe92f; 0x99c8; 0x89e9; 0xb98a; 0xa9ab;
   0x5844; 0x4865; 0x7806; 0x6827; 0x18c0; 0x08e1; 0x3882; 0x28a3;
   0xcb7d; 0xdb5c; 0xeb3f; 0xfb1e; 0x8bf9; 0x9bd8; 0xabbb; 0xbb9a;
   0x4a75; 0x5a54; 0x6a37; 0x7a16; 0x0af1; 0x1ad0; 0x2ab3; 0x3a92;
   0xfd2e; 0xed0f; 0xdd6c; 0xcd4d; 0xbdaa; 0xad8b; 0x9de8; 0x8dc9;
   0x7c26; 0x6c07; 0x5c64; 0x4c45; 0x3ca2; 0x2c83; 0x1ce0; 0x0cc1;
   0xef1f; 0xff3e; 0xcf5d; 0xdf7c; 0xaf9b; 0xbfba; 0x8fd9; 0x9ff8;
   0x6e17; 0x7e36; 0x4e55; 0x5e74; 0x2e93; 0x3eb2; 0x0ed1; 0x1ef0].

(** [pszKey] is a [char*]: a byte from 128 on is a negative number, cut by the mask. *)
Definition crc16_byte (usCRC c : Z) : Z :=
  w16 (usCRC .<< 8) .^ nth (Z.to_nat (((usCRC .>> 8) .^ sx8 c) .& 0x00ff)) ausCRC16 0.

Definition hashCRC16 (pszKey : list Z) (iLens : nat) : Z :=
  fold_left crc16_byte (cells iLens pszKey) 0.

Definition auiCRC32 : list Z :=
  [0x00000000; 0x77073096; 0xee0e612c; 0x990951ba;
   0x076dc419; 0x706af48f; 0xe963a535; 0x9e6495a3;
   0x0edb8832; 0x79dcb8a4; 0xe0d5e91e; 0x97d2d988;
   0x09b64c2b; 0x7eb17cbd; 0xe7b82d07; 0x90bf1d91;
   0x1db71064; 0x6ab020f2; 0xf3b97148; 0x84be41de;
   0x1adad47d; 0x6ddde4eb; 0xf4d4b551; 0x83d385c7;
   0x136c9856; 0x646ba8c0; 0xfd62f97a; 0x8a65c9ec;
   0x14015c4f; 0x63066cd9; 0xfa0f3d63; 0x8d080df5;
   0x3b6e20c8; 0x4c69105e; 0xd56041e4; 0xa2677172;
   0x3c03e4d1; 0x4b04d447; 0xd20d85fd; 0xa50ab56b;
   0x35b5a8fa; 0x42b2986c; 0xdbbbc9d6; 0xacbcf940;
   0x32d86ce3; 0x45df5c75; 0xdcd60dcf; 0xabd13d59;
   0x26d930ac; 0x51de003a; 0xc8d75180; 0xbfd06116;
   0x21b4f4b5; 0x56b3c423; 0xcfba9599; 0xb8bda50f;
   0x2802b89e; 0x5f058808; 0xc60cd9b2; 0xb10be924;
   0x2f6f7c87; 0x58684c11; 0xc1611dab; 0xb6662d3d;
   0x76dc4190; 0x01db7106; 0x98d220bc; 0xefd5102a;
   0x71b18589; 0x06b6b51f; 0x9fbfe4a5; 0xe8b8d433;
   0x7807c9a2; 0x0f00f934; 0x9609a88e; 0xe10e9818;
   0x7f6a0dbb; 0x086d3d2d; 0x91646c97; 0xe6635c01;
   0x6b6b51f4; 0x1c6c6162; 0x856530d8; 0xf262004e;
   0x6c0695ed; 0x1b01a57b; 0x8208f4c1; 0xf50fc457;
   0x65b0d9c6; 0x12b7e950; 0x8bbeb8ea; 0xfcb9887c;
   0x62dd1ddf; 0x15da2d49; 0x8cd37cf3; 0xfbd44c65;
   0x4db26158; 0x3ab551ce; 0xa3bc0074; 0xd4bb30e2;
   0x4adfa541; 0x3dd895d7; 0xa4d1c46d; 0xd3d6f4fb;
   0x4369e96a; 0x346ed9fc; 0xad678846; 0xda60b8d0;
   0x44042d73; 0x33031de5; 0xaa0a4c5f; 0xdd0d7cc9;
   0x5005713c; 0x270241aa; 0xbe0b1010; 0xc90c2086;
   0x5768b525; 0x206f85b3; 0xb966d409; 0xce61e49f;
   0x5edef90e; 0x29d9c998; 0xb0d09822; 0xc7d7a8b4;
   0x59b33d17; 0x2eb40d81; 0xb7bd5c3b; 0xc0ba6cad;
   0xedb88320; 0x9abfb3b6; 0x03b6e20c; 0x74b1d29a;
   0xead54739; 0x9dd277af; 0x04db2615; 0x73dc1683;
   0xe3630b12; 0x94643b84; 0x0d6d6a3e; 0x7a6a5aa8;
   0xe40ecf0b; 0x9309ff9d; 0x0a00ae27; 0x7d079eb1;
   0xf00f9344; 0x8708a3d2; 0x1e01f268; 0x6906c2fe;
   0xf762575d; 0x806567cb; 0x196c3671; 0x6e6b06e7;
   0xfed41b76; 0x89d32be0; 0x10da7a5a; 0x67dd4acc;
   0xf9b9df6f; 0x8ebeeff9; 0x17b7be43; 0x60b08ed5;
   0xd6d6a3e8; 0xa1d1937e; 0x38d8c2c4; 0x4fdff252;
   0xd1bb67f1; 0xa6bc5767; 0x3fb506dd; 0x48b2364b;
   0xd80d2bda; 0xaf0a1b4c; 0x36034af6; 0x41047a60;
   0xdf60efc3; 0xa867df55; 0x316e8eef; 0x4669be79;
   0xcb61b38c; 0xbc66831a; 0x256fd2a0; 0x5268e236;
   0xcc0c7795; 0xbb0b4703; 0x220216b9; 0x5505262f;
   0xc5ba3bbe; 0xb2bd0b28; 0x2bb45a92; 0x5cb36a04;
   0xc2d7ffa7; 0xb5d0cf31; 0x2cd99e8b; 0x5bdeae1d;
   0x9b64c2b0; 0xec63f226; 0x756aa39c; 0x026d930a;
   0x9c0906a9; 0xeb0e363f; 0x72076785; 0x05005713;
   0x95bf4a82; 0xe2b87a14; 0x7bb12bae; 0x0cb61b38;
   0x92d28e9b; 0xe5d5be0d; 0x7cdcefb7; 0x0bdbdf21;
   0x86d3d2d4; 0xf1d4e242; 0x68ddb3f8; 0x1fda836e;
   0x81be16cd; 0xf6b9265b; 0x6fb077e1; 0x18b74777;
   0x88085ae6; 0xff0f6a70; 0x66063bca; 0x11010b5c;
   0x8f659eff; 0xf862ae69; 0x616bffd3; 0x166ccf45;
   0xa00ae278; 0xd70dd2ee; 0x4e048354; 0x3903b3c2;
   0xa7672661; 0xd06016f7; 0x4969474d; 0x3e6e77db;
   0xaed16a4a; 0xd9d65adc; 0x40df0b66; 0x37d83bf0;
   0xa9bcae53; 0xdebb9ec5; 0x47b2cf7f; 0x30b5ffe9;
   0xbdbdf21c; 0xcabac28a; 0x53b39330; 0x24b4a3a6;
   0xbad03605; 0xcdd70693; 0x54de5729; 0x23d967bf;
   0xb3667a2e; 0xc4614ab8; 0x5d681b02; 0x2a6f2b94;
   0xb40bbe37; 0xc30c8ea1; 0x5a05df1b; 0x2d02ef8d].

Definition crc32_byte (uiCRC c : Z) : Z :=
  nth (Z.to_nat ((uiCRC .^ c) .& 0xFF)) auiCRC32 0 .^ (uiCRC .>> 8).

Definition hashCRC32 (pszKey : list Z) (iLens : nat) : Z :=
  not32 (fold_left crc32_byte (cells iLens pszKey) (not32 0)).

(** ** The reference: one bit of the division

    The register of the 16-bit checksum is the remainder modulo x^16 + x^12 + x^5 + 1,
    most significant coefficient first; the 32-bit one is kept in reverse order. *)

Definition bit16 (r : Z) : Z := w16 (r .<< 1) .^ (if Z.testbit r 15 then 0x1021 else 0).
Definition bit32 (r : Z) : Z := (r .>> 1) .^ (if Z.testbit r 0 then 0xedb88320 else 0).

Fixpoint times {A} (n : nat) (f : A -> A) (x : A) : A :=
  match n with O => x | S k => times k f (f x) end.

(** Eight bits at once. *)
Definition byte16 (r c : Z) : Z := times 8 bit16 (r .^ (c .<< 8)).
Definition byte32 (r c : Z) : Z := times 8 bit32 (r .^ c).

Definition crc16 (m : list Z) : Z := fold_left byte16 m 0.
Definition crc32 (m : list Z) : Z := not32 (fold_left byte32 m (not32 0)).

(** The published check values. *)
Example crc16_check : hashCRC16 [49; 50; 51; 52; 53; 54; 55; 56; 57] 9 = 0x31c3.
Proof. vm_compute. reflexivity. Qed.

Example crc32_check : hashCRC32 [49; 50; 51; 52; 53; 54; 55; 56; 57] 9 = 0xcbf43926.
Proof. vm_compute. reflexivity. Qed.

(** ** Linear steps *)

(** Comparing two runs by their steps is too long. *)
#[local] Strategy 1000 [times bit16 bit32].

Lemma lxor_cancel_l a b c : a .^ b = a .^ c -> b = c.
Proof.
  intros H. apply (f_equal (Z.lxor a)) in H. rewrite <- !Z.lxor_assoc, Z.lxor_nilpotent, !Z.lxor_0_l in H.
  exact H.
Qed.

Lemma lxor_cancel_r a b c : b .^ a = c .^ a -> b = c.
Proof. rewrite !(Z.lxor_comm _ a). apply lxor_cancel_l. Qed.

Lemma shiftl_lxor_0 a b n : (a .^ b) .<< n = (a .<< n) .^ (b .<< n).
Proof. apply Z.shiftl_lxor. Qed.

Lemma w16_lxor a b : w16 (a .^ b) = w16 a .^ w16 b.
Proof.
  unfold w16. change (2 ^ 16) with (2 ^ 16). rewrite <- !Z.land_ones by lia.
  apply Z.bits_inj'. intros i Hi. rewrite ?Z.land_spec, ?Z.lxor_spec, ?Z.land_spec.
  destruct (Z.testbit a i), (Z.testbit b i), (Z.testbit _ i); reflexivity.
Qed.

Lemma lxor_4 a b c d : (a .^ b) .^ (c .^ d) = (a .^ c) .^ (b .^ d).
Proof. rewrite !Z.lxor_assoc. f_equal. rewrite <- !Z.lxor_assoc. f_equal. apply Z.lxor_comm. Qed.

Lemma if_lxor (b1 b2 : bool) p : (if xorb b1 b2 then p else 0) = (if b1 then p else 0) .^ (if b2 then p else 0).
Proof. destruct b1, b2; cbn [xorb]; now rewrite ?Z.lxor_nilpotent, ?Z.lxor_0_r, ?Z.lxor_0_l. Qed.

Lemma bit16_lxor x y : bit16 (x .^ y) = bit16 x .^ bit16 y.
Proof. unfold bit16. rewrite Z.shiftl_lxor, w16_lxor, Z.lxor_spec, if_lxor. apply lxor_4. Qed.

Lemma bit32_lxor x y : bit32 (x .^ y) = bit32 x .^ bit32 y.
Proof. unfold bit32. rewrite Z.shiftr_lxor, Z.lxor_spec, if_lxor. apply lxor_4. Qed.

Section Linear.
Context (f : Z -> Z) (w : Z) (Hw : 0 <= w).
Context (f_lxor : forall x y, f (x .^ y) = f x .^ f y).
Context (f_range : forall x, 0 <= x < 2 ^ w -> 0 <= f x < 2 ^ w).
Context (f_zero : forall x, 0 <= x < 2 ^ w -> f x = 0 -> x = 0).

Lemma times_lxor n x y : times n f (x .^ y) = times n f x .^ times n f y.
Proof using f_lxor. revert x y; induction n; intros; cbn [times]; [reflexivity|]. now rewrite f_lxor. Qed.

Lemma times_range n x : 0 <= x < 2 ^ w -> 0 <= times n f x < 2 ^ w.
Proof using f_range. revert x; induction n; intros; cbn [times]; auto. Qed.

Lemma lxor_range x y : 0 <= x < 2 ^ w -> 0 <= y < 2 ^ w -> 0 <= x .^ y < 2 ^ w.
Proof using Hw.
  intros Hx Hy. assert (H0 : 0 <= x .^ y) by (apply Z.lxor_nonneg; lia). split; [exact H0|].
  apply lt_pow2_bits; auto. intros i Hi.
  rewrite Z.lxor_spec, (proj1 (lt_pow2_bits w x Hw (proj1 Hx)) (proj2 Hx) i Hi),
    (proj1 (lt_pow2_bits w y Hw (proj1 Hy)) (proj2 Hy) i Hi). reflexivity.
Qed.

Lemma times_inj n x y : 0 <= x < 2 ^ w -> 0 <= y < 2 ^ w -> times n f x = times n f y -> x = y.
Proof using All.
  revert x y; induction n as [|n IH]; intros x y Hx Hy E; cbn [times] in E; [exact E|].
  apply IH in E; auto. apply Z.lxor_eq, f_zero; [now apply lxor_range|].
  rewrite f_lxor, E. apply Z.lxor_nilpotent.
Qed.

Lemma times_plus n m x : times (n + m) f x = times m f (times n f x).
Proof. revert x; induction n; intros; cbn [times plus]; auto. Qed.
End Linear.

Lemma bit16_range x : 0 <= x < 2 ^ 16 -> 0 <= bit16 x < 2 ^ 16.
Proof.
  intros H. unfold bit16. apply lxor_range; [lia| |destruct (Z.testbit x 15); lia].
  apply Z.mod_pos_bound. lia.
Qed.

Lemma bit16_zero x : 0 <= x < 2 ^ 16 -> bit16 x = 0 -> x = 0.
Proof.
  intros H E. unfold bit16 in E. apply Z.lxor_eq in E.
  rewrite Z.testbit_odd, Z.shiftr_div_pow2, Z.shiftl_mul_pow2 in E by lia. unfold w16 in E.
  change (2 ^ 1) with 2 in E.
  destruct (Z.lt_ge_cases x (2 ^ 15)).
  - rewrite Z.mod_small in E by lia. rewrite Z.div_small in E by lia. cbn in E. lia.
  - replace (x / 2 ^ 15) with 1 in E by (apply Z.div_unique_pos with (x - 2 ^ 15); lia).
    replace ((x * 2) mod 2 ^ 16) with (x * 2 - 2 ^ 16) in E by (apply Z.mod_unique_pos with 1; lia).
    cbn [Z.odd] in E. lia.
Qed.

Lemma bit32_range x : 0 <= x < 2 ^ 32 -> 0 <= bit32 x < 2 ^ 32.
Proof.
  intros H. unfold bit32. apply lxor_range; [lia|apply word_shiftr; [exact H|lia]|].
  destruct (Z.testbit x 0); lia.
Qed.

Lemma bit32_zero x : 0 <= x < 2 ^ 32 -> bit32 x = 0 -> x = 0.
Proof.
  intros H E. unfold bit32 in E. apply Z.lxor_eq in E. rewrite Z.shiftr_div_pow2 in E by lia.
  change (2 ^ 1) with 2 in E. assert (x / 2 < 2 ^ 31) by (apply Z.div_lt_upper_bound; lia).
  rewrite Z.bit0_odd in E. destruct (Z.odd x) eqn:Eo; [lia|].
  assert (x mod 2 = 0) by (rewrite Zmod_odd, Eo; reflexivity).
  pose proof (Z.div_mod x 2 ltac:(lia)). lia.
Qed.

(** ** The tables *)

Lemma forall_bytes (P : Z -> bool) : forallb (fun i => P (Z.of_nat i)) (seq 0 256) = true ->
  forall b, is_byte b -> P b = true.
Proof.
  intros H b Hb. rewrite forallb_forall in H.
  rewrite <- (Z2Nat.id b) by apply Hb. apply H, in_seq. unfold is_byte in Hb. lia.
Qed.

Lemma table16 i : is_byte i -> nth (Z.to_nat i) ausCRC16 0 = times 8 bit16 (i .<< 8).
Proof.
  intros Hi. apply Z.eqb_eq.
  apply (forall_bytes (fun i => nth (Z.to_nat i) ausCRC16 0 =? times 8 bit16 (i .<< 8))); [vm_compute; reflexivity|exact Hi].
Qed.

Lemma low16 i : is_byte i -> times 8 bit16 i = i .<< 8.
Proof.
  intros Hi. apply Z.eqb_eq.
  apply (forall_bytes (fun i => times 8 bit16 i =? i .<< 8)); [vm_compute; reflexivity|exact Hi].
Qed.

Lemma table32 i : is_byte i -> nth (Z.to_nat i) auiCRC32 0 = times 8 bit32 i.
Proof.
  intros Hi. apply Z.eqb_eq.
  apply (forall_bytes (fun i => nth (Z.to_nat i) auiCRC32 0 =? times 8 bit32 i)); [vm_compute; reflexivity|exact Hi].
Qed.

Lemma high32 n x : 0 <= x -> times n bit32 (x .<< Z.of_nat n) = x.
Proof.
  intros Hx. induction n as [|n IH]; [cbn [times]; apply Z.shiftl_0_r|]. cbn [times].
  unfold bit32 at 2. rewrite Z.shiftl_spec_low by lia. rewrite Z.lxor_0_r, Z.shiftr_shiftl_l by lia.
  replace (Z.of_nat (S n) - 1) with (Z.of_nat n) by lia. exact IH.
Qed.

(** A word as its low byte and the rest. *)
Lemma split_low x n : 0 <= n -> x = ((x .>> n) .<< n) .^ (x .& Z.ones n).
Proof.
  intros Hn. apply Z.bits_inj'. intros i Hi.
  rewrite Z.lxor_spec, Z.land_spec, Z.testbit_ones_nonneg, Z.shiftl_spec by lia.
  destruct (Z.ltb_spec i n).
  - rewrite (Z.testbit_neg_r _ (i - n)) by lia. rewrite andb_true_r. now destruct (Z.testbit x i).
  - rewrite Z.shiftr_spec by lia. rewrite andb_false_r, xorb_false_r. f_equal. lia.
Qed.

Lemma land_byte x : is_byte (x .& 255).
Proof. change 255 with (Z.ones 8). rewrite Z.land_ones by lia. apply Z.mod_pos_bound. lia. Qed.

Lemma sx8_low c : is_byte c -> sx8 c .& 255 = c.
Proof.
  intros H. change 255 with (Z.ones 8). rewrite Z.land_ones by lia. unfold sx8, is_byte in *.
  destruct (Z.ltb_spec c (2 ^ 7)); [apply Z.mod_small; lia|].
  symmetry. apply Z.mod_unique_pos with (-1); lia.
Qed.

Lemma land_ones_byte c : is_byte c -> c .& 255 = c.
Proof. intros H. change 255 with (Z.ones 8). rewrite Z.land_ones by lia. apply Z.mod_small. exact H. Qed.

Lemma lxor_byte a b : is_byte a -> is_byte b -> is_byte (a .^ b).
Proof. apply lxor_range. lia. Qed.

Lemma land_lxor_distr a b m : (a .^ b) .& m = (a .& m) .^ (b .& m).
Proof.
  apply Z.bits_inj'. intros i Hi. rewrite ?Z.land_spec, ?Z.lxor_spec, ?Z.land_spec.
  now destruct (Z.testbit a i), (Z.testbit b i), (Z.testbit m i).
Qed.

(** ** A byte at a time is eight bits *)

Lemma crc16_byte_spec r c : 0 <= r < 2 ^ 16 -> is_byte c ->
  crc16_byte r c = byte16 r c.
Proof.
  intros Hr Hc. unfold crc16_byte, byte16. change 0x00ff with 255.
  assert (Hh : is_byte (r .>> 8)).
  { unfold is_byte. rewrite shiftr_div by lia. split; [apply Z.div_pos; lia|apply Z.div_lt_upper_bound; lia]. }
  rewrite land_lxor_distr, sx8_low, (land_ones_byte (r .>> 8)) by assumption.
  rewrite table16 by now apply lxor_byte.
  rewrite (split_low r 8) at 3 by lia. rewrite Z.lxor_assoc, (Z.lxor_comm _ (c .<< 8)), <- Z.lxor_assoc.
  rewrite <- Z.shiftl_lxor, (times_lxor bit16 bit16_lxor). rewrite Z.lxor_comm. f_equal.
  change (Z.ones 8) with 255. rewrite low16 by apply land_byte.
  unfold w16. rewrite <- Z.land_ones by lia. change 255 with (Z.ones 8).
  apply Z.bits_inj'. intros i Hi. rewrite Z.land_spec, Z.testbit_ones_nonneg by lia.
  rewrite !Z.shiftl_spec, Z.land_spec by lia.
  destruct (Z.lt_ge_cases i 8); [rewrite !(Z.testbit_neg_r _ (i - 8)) by lia; reflexivity|].
  rewrite Z.testbit_ones_nonneg by lia. f_equal.
  destruct (Z.ltb_spec i 16), (Z.ltb_spec (i - 8) 8); reflexivity || lia.
Qed.

Lemma crc32_byte_spec r c : 0 <= r < 2 ^ 32 -> is_byte c ->
  crc32_byte r c = byte32 r c.
Proof.
  intros Hr Hc. unfold crc32_byte, byte32. change 0xFF with 255.
  rewrite table32 by apply land_byte.
  rewrite (split_low (r .^ c) 8) at 2 by lia. rewrite (times_lxor bit32 bit32_lxor).
  rewrite Z.lxor_comm. change (Z.ones 8) with 255. f_equal.
  assert (0 <= r .^ c) by (apply Z.lxor_nonneg; unfold is_byte in Hc; lia).
  rewrite (high32 8) by (apply Z.shiftr_nonneg; lia).
  rewrite Z.shiftr_lxor. replace (c .>> 8) with 0; [now rewrite Z.lxor_0_r|].
  symmetry. rewrite shiftr_div by lia. apply Z.div_small. exact Hc.
Qed.

Lemma fold_spec {w} (step ref : Z -> Z -> Z) (Hstep : forall r c, 0 <= r < 2 ^ w -> is_byte c -> step r c = ref r c)
    (Hrange : forall r c, 0 <= r < 2 ^ w -> is_byte c -> 0 <= ref r c < 2 ^ w) l :
  bytes l -> forall r, 0 <= r < 2 ^ w -> fold_left step l r = fold_left ref l r /\ 0 <= fold_left ref l r < 2 ^ w.
Proof.
  induction 1 as [|c l Hc _ IH]; intros r Hr; cbn [fold_left]; [auto|].
  rewrite Hstep by assumption. apply IH. now apply Hrange.
Qed.

Lemma shift_byte_range c : is_byte c -> 0 <= c .<< 8 < 2 ^ 16.
Proof. unfold is_byte. intros. rewrite Z.shiftl_mul_pow2 by lia. lia. Qed.

Lemma ref16_range r c : 0 <= r < 2 ^ 16 -> is_byte c -> 0 <= byte16 r c < 2 ^ 16.
Proof.
  intros Hr Hc. apply times_range; [exact bit16_range|]. apply lxor_range; [lia|exact Hr|].
  now apply shift_byte_range.
Qed.

Lemma ref32_range r c : 0 <= r < 2 ^ 32 -> is_byte c -> 0 <= byte32 r c < 2 ^ 32.
Proof.
  intros Hr Hc. apply times_range; [exact bit32_range|]. apply lxor_range; [lia|exact Hr|].
  unfold is_byte in Hc. lia.
Qed.

Lemma hashCRC16_fold l : bytes l -> hashCRC16 l (length l) = crc16 l /\ 0 <= crc16 l < 2 ^ 16.
Proof.
  intros H. unfold hashCRC16, crc16. rewrite cells_all.
  apply (fold_spec crc16_byte _ crc16_byte_spec ref16_range); [exact H|lia].
Qed.

Lemma hashCRC32_fold l : bytes l -> hashCRC32 l (length l) = crc32 l.
Proof.
  intros H. unfold hashCRC32, crc32. rewrite cells_all. f_equal.
  apply (fold_spec crc32_byte _ crc32_byte_spec ref32_range); [exact H|unfold not32; lia].
Qed.

(** The table-driven checksums are the bit by bit divisions by the polynomials of CRC-16/XMODEM and
    CRC-32. *)
Theorem crc_tables_divide l : bytes l ->
  hashCRC16 l (length l) = crc16 l /\ hashCRC32 l (length l) = crc32 l.
Proof. intros H. split; [apply hashCRC16_fold, H|apply hashCRC32_fold, H]. Qed.

Lemma crc_tables_divide_witness :
  hashCRC16 [255; 0; 128] 3 = crc16 [255; 0; 128] /\ hashCRC32 [255; 0; 128] 3 = crc32 [255; 0; 128].
Proof. apply (crc_tables_divide [255; 0; 128]). check_bytes. Defined.

(** ** Detection of errors *)

(** As many bytes as the register has, from a register [r]: one run of the division on
    their exclusive or. *)
Lemma two_bytes r b0 b1 : is_byte b1 ->
  byte16 (byte16 r b0) b1 = times 16 bit16 (r .^ ((b0 .<< 8) .^ b1)).
Proof.
  intros H1. unfold byte16. rewrite <- (low16 b1) at 1 by exact H1.
  rewrite <- (times_lxor bit16 bit16_lxor). rewrite <- (times_plus bit16 8 8). now rewrite Z.lxor_assoc.
Qed.

Lemma four_bytes r b0 b1 b2 b3 : 0 <= b1 -> 0 <= b2 -> 0 <= b3 ->
  byte32 (byte32 (byte32 (byte32 r b0) b1) b2) b3 =
  times 32 bit32 (r .^ (b0 .^ ((b1 .<< 8) .^ ((b2 .<< 16) .^ (b3 .<< 24))))).
Proof.
  intros H1 H2 H3. unfold byte32.
  rewrite <- (high32 8 b1), <- (high32 16 b2), <- (high32 24 b3) at 1 by assumption.
  rewrite <- (times_lxor bit32 bit32_lxor), <- (times_plus bit32 8 8).
  rewrite <- (times_lxor bit32 bit32_lxor), <- (times_plus bit32 16 8).
  rewrite <- (times_lxor bit32 bit32_lxor), <- (times_plus bit32 24 8).
  now rewrite !Z.lxor_assoc.
Qed.

(** Equal words have equal bytes. *)
Lemma word2_inj a b c d : is_byte a -> is_byte b -> is_byte c -> is_byte d ->
  (a .<< 8) .^ b = (c .<< 8) .^ d -> a = c /\ b = d.
Proof.
  unfold is_byte. intros Ha Hb Hc Hd E.
  assert (S : forall x y, 0 <= y < 2 ^ 8 -> (x .<< 8) .^ y = x * 2 ^ 8 + y).
  { intros x y Hy. rewrite <- (shiftl_lor_add y x 8) by lia. apply Z.lxor_lor. apply Z.bits_inj'. intros i Hi.
    rewrite Z.land_spec, Z.bits_0, Z.shiftl_spec by lia. destruct (Z.ltb_spec i 8).
    - now rewrite Z.testbit_neg_r by lia.
    - rewrite (proj1 (lt_pow2_bits 8 y ltac:(lia) ltac:(lia))) by lia. apply andb_false_r. }
  rewrite !S in E by lia. lia.
Qed.

Lemma word4_inj a b : bytes a -> bytes b -> length a = 4%nat -> length b = 4%nat ->
  let v l := nth 0 l 0 .^ ((nth 1 l 0 .<< 8) .^ ((nth 2 l 0 .<< 16) .^ (nth 3 l 0 .<< 24))) in
  v a = v b -> a = b.
Proof.
  intros Ha Hb La Lb v E. apply le_inj; auto; [congruence|].
  assert (S : forall l, bytes l -> length l = 4%nat -> v l = le l).
  { intros l Hl Ll. destruct l as [|x0 [|x1 [|x2 [|x3 [|]]]]]; try discriminate Ll.
    repeat match goal with H : Forall _ (_ :: _) |- _ => inversion H; subst; clear H end.
    unfold v. cbn [nth le]. unfold is_byte in *.
    assert (P : forall n x y, 0 <= n -> 0 <= x < 2 ^ n -> x .^ (y .<< n) = x + 2 ^ n * y).
    { intros n x y Hn Hx. rewrite <- (Z.mul_comm y), <- lor_add by assumption. apply Z.lxor_lor.
      apply Z.bits_inj'. intros i Hi. rewrite Z.land_spec, Z.bits_0, Z.shiftl_spec by lia.
      destruct (Z.ltb_spec i n); [rewrite (Z.testbit_neg_r y) by lia; apply andb_false_r|].
      rewrite (proj1 (lt_pow2_bits n x Hn ltac:(lia))) by lia. reflexivity. }
    replace (x2 .<< 16) with ((x2 .<< 8) .<< 8) by (rewrite Z.shiftl_shiftl by lia; reflexivity).
    replace (x3 .<< 24) with (((x3 .<< 8) .<< 8) .<< 8) by (rewrite !Z.shiftl_shiftl by lia; reflexivity).
    rewrite <- !Z.shiftl_lxor, !P by lia. lia. }
  rewrite <- (S a), <- (S b) by assumption. exact E.
Qed.

(** A step that is one to one in the register keeps differences. *)
Lemma fold_inj {w} (ref : Z -> Z -> Z)
    (Hrange : forall r c, 0 <= r < 2 ^ w -> is_byte c -> 0 <= ref r c < 2 ^ w)
    (Hinj : forall r s c, 0 <= r < 2 ^ w -> 0 <= s < 2 ^ w -> is_byte c -> ref r c = ref s c -> r = s) l :
  bytes l -> forall r s, 0 <= r < 2 ^ w -> 0 <= s < 2 ^ w -> fold_left ref l r = fold_left ref l s -> r = s.
Proof.
  induction 1 as [|c l Hc _ IH]; intros r s Hr Hs E; cbn [fold_left] in E; [exact E|].
  apply IH in E; auto. eapply Hinj; eassumption.
Qed.

Lemma ref16_inj r s c : 0 <= r < 2 ^ 16 -> 0 <= s < 2 ^ 16 -> is_byte c -> byte16 r c = byte16 s c -> r = s.
Proof.
  intros Hr Hs Hc E. unfold byte16 in E. pose proof (shift_byte_range c Hc) as B.
  exact (lxor_cancel_r (c .<< 8) r s (times_inj bit16 16 ltac:(lia) bit16_lxor bit16_range bit16_zero 8 _ _
    (lxor_range 16 ltac:(lia) _ _ Hr B) (lxor_range 16 ltac:(lia) _ _ Hs B) E)).
Qed.

Lemma ref32_inj r s c : 0 <= r < 2 ^ 32 -> 0 <= s < 2 ^ 32 -> is_byte c -> byte32 r c = byte32 s c -> r = s.
Proof.
  intros Hr Hs Hc E. unfold byte32 in E.
  assert (B : 0 <= c < 2 ^ 32) by (unfold is_byte in Hc; lia).
  exact (lxor_cancel_r c r s (times_inj bit32 32 ltac:(lia) bit32_lxor bit32_range bit32_zero 8 _ _
    (lxor_range 32 ltac:(lia) _ _ Hr B) (lxor_range 32 ltac:(lia) _ _ Hs B) E)).
Qed.

Lemma fold_left_2 {A B} (f : A -> B -> A) r a b : fold_left f [a; b] r = f (f r a) b.
Proof. reflexivity. Qed.

Lemma fold_left_4 {A B} (f : A -> B -> A) r a b c d : fold_left f [a; b; c; d] r = f (f (f (f r a) b) c) d.
Proof. reflexivity. Qed.

Lemma two_bytes_range r b0 b1 : 0 <= r < 2 ^ 16 -> bytes [b0; b1] -> 0 <= r .^ ((b0 .<< 8) .^ b1) < 2 ^ 16.
Proof.
  intros R H. repeat match goal with H : Forall _ (_ :: _) |- _ => inversion H; subst; clear H end.
  unfold is_byte in *. apply lxor_range; [lia|exact R|].
  apply lxor_range; [lia|rewrite Z.shiftl_mul_pow2 by lia; lia|lia].
Qed.

Lemma two_bytes_inj r x0 x1 y0 y1 : 0 <= r < 2 ^ 16 -> bytes [x0; x1] -> bytes [y0; y1] ->
  byte16 (byte16 r x0) x1 =
  byte16 (byte16 r y0) y1 -> [x0; x1] = [y0; y1].
Proof.
  intros R Hx Hy E. pose proof (two_bytes_range _ _ _ R Hx) as Bx. pose proof (two_bytes_range _ _ _ R Hy) as By.
  repeat match goal with H : Forall _ (_ :: _) |- _ => inversion H; subst; clear H end.
  rewrite !two_bytes in E by assumption.
  destruct (word2_inj x0 x1 y0 y1) as [-> ->]; auto.
  exact (lxor_cancel_l _ _ _
    (times_inj bit16 16 ltac:(lia) bit16_lxor bit16_range bit16_zero 16 _ _ Bx By E)).
Qed.

(** Two messages with a common rest lead to the register two different parts leave. *)
Lemma crc16_burst r x y b : 0 <= r < 2 ^ 16 -> bytes b -> bytes x -> bytes y -> length x = 2%nat -> length y = 2%nat ->
  fold_left byte16 b (fold_left byte16 x r) =
  fold_left byte16 b (fold_left byte16 y r) ->
  x = y.
Proof.
  intros R Hb Hx Hy Lx Ly E.
  apply (fold_inj (w := 16) _ ref16_range ref16_inj b Hb) in E;
    [|apply (fold_spec (w := 16) _ _ crc16_byte_spec ref16_range); assumption..].
  destruct x as [|x0 [|x1 [|]]]; try discriminate Lx. destruct y as [|y0 [|y1 [|]]]; try discriminate Ly.
  rewrite !fold_left_2 in E. exact (two_bytes_inj r x0 x1 y0 y1 R Hx Hy E).
Qed.

Lemma four_bytes_range r b0 b1 b2 b3 : 0 <= r < 2 ^ 32 -> bytes [b0; b1; b2; b3] ->
  0 <= r .^ (b0 .^ ((b1 .<< 8) .^ ((b2 .<< 16) .^ (b3 .<< 24)))) < 2 ^ 32.
Proof.
  intros R H. repeat match goal with H : Forall _ (_ :: _) |- _ => inversion H; subst; clear H end.
  apply lxor_range; [lia|exact R|]; unfold is_byte in *;
    repeat (apply lxor_range; [lia|rewrite ?Z.shiftl_mul_pow2 by lia; lia|]);
    rewrite Z.shiftl_mul_pow2 by lia; lia.
Qed.

Lemma four_bytes_inj r x0 x1 x2 x3 y0 y1 y2 y3 : 0 <= r < 2 ^ 32 ->
  bytes [x0; x1; x2; x3] -> bytes [y0; y1; y2; y3] ->
  byte32 (byte32 (byte32 (byte32 r x0) x1) x2) x3 =
  byte32 (byte32 (byte32 (byte32 r y0) y1) y2) y3 ->
  [x0; x1; x2; x3] = [y0; y1; y2; y3].
Proof.
  intros R Hx Hy E. pose proof (four_bytes_range _ _ _ _ _ R Hx) as Bx.
  pose proof (four_bytes_range _ _ _ _ _ R Hy) as By.
  apply word4_inj; [exact Hx|exact Hy|reflexivity|reflexivity|]. cbn [nth].
  repeat match goal with H : Forall _ (_ :: _) |- _ => inversion H; subst; clear H end.
  unfold is_byte in *. rewrite !four_bytes in E by lia.
  exact (lxor_cancel_l _ _ _
    (times_inj bit32 32 ltac:(lia) bit32_lxor bit32_range bit32_zero 32 _ _ Bx By E)).
Qed.

Lemma crc32_burst r x y b : 0 <= r < 2 ^ 32 -> bytes b -> bytes x -> bytes y -> length x = 4%nat -> length y = 4%nat ->
  fold_left byte32 b (fold_left byte32 x r) =
  fold_left byte32 b (fold_left byte32 y r) ->
  x = y.
Proof.
  intros R Hb Hx Hy Lx Ly E.
  apply (fold_inj (w := 32) _ ref32_range ref32_inj b Hb) in E;
    [|apply (fold_spec (w := 32) _ _ crc32_byte_spec ref32_range); assumption..].
  destruct x as [|x0 [|x1 [|x2 [|x3 [|]]]]]; try discriminate Lx.
  destruct y as [|y0 [|y1 [|y2 [|y3 [|]]]]]; try discriminate Ly.
  rewrite !fold_left_4 in E. exact (four_bytes_inj r x0 x1 x2 x3 y0 y1 y2 y3 R Hx Hy E).
Qed.

Lemma not32_inj x y : not32 x = not32 y -> x = y.
Proof. unfold not32. lia. Qed.

(** A change confined to two adjacent bytes always changes the 16-bit checksum, and one confined to four
    adjacent bytes the 32-bit one, whatever is before and after. *)
Theorem crc_detects_bursts a b :
  bytes a -> bytes b ->
  (forall x y, bytes x -> bytes y -> length x = 2%nat -> length y = 2%nat -> x <> y ->
     hashCRC16 (a ++ x ++ b) (length (a ++ x ++ b)) <> hashCRC16 (a ++ y ++ b) (length (a ++ y ++ b))) /\
  (forall x y, bytes x -> bytes y -> length x = 4%nat -> length y = 4%nat -> x <> y ->
     hashCRC32 (a ++ x ++ b) (length (a ++ x ++ b)) <> hashCRC32 (a ++ y ++ b) (length (a ++ y ++ b))).
Proof.
  intros Ha Hb. split; intros x y Hx Hy Lx Ly N E; apply N.
  - assert (B : forall z, bytes z -> bytes (a ++ z ++ b)) by (intros; now rewrite !Forall_app).
    rewrite (proj1 (hashCRC16_fold _ (B x Hx))), (proj1 (hashCRC16_fold _ (B y Hy))) in E. unfold crc16 in E.
    rewrite !fold_left_app in E. revert E. apply crc16_burst; auto.
    apply (fold_spec (w := 16) _ _ crc16_byte_spec ref16_range a Ha 0). lia.
  - assert (B : forall z, bytes z -> bytes (a ++ z ++ b)) by (intros; now rewrite !Forall_app).
    rewrite (hashCRC32_fold _ (B x Hx)), (hashCRC32_fold _ (B y Hy)) in E. unfold crc32 in E.
    apply not32_inj in E. rewrite !fold_left_app in E. revert E. apply crc32_burst; auto.
    apply (fold_spec (w := 32) _ _ crc32_byte_spec ref32_range a Ha (not32 0)). unfold not32. lia.
Qed.

Lemma crc_detects_bursts_witness :
  hashCRC16 [1; 2; 3; 4] 4 <> hashCRC16 [1; 200; 0; 4] 4 /\
  hashCRC32 [9; 1; 2; 3; 4] 5 <> hashCRC32 [9; 1; 2; 3; 5] 5.
Proof.
  split.
  - apply (proj1 (crc_detects_bursts [1] [4] ltac:(check_bytes) ltac:(check_bytes)) [2; 3] [200; 0]);
      [check_bytes|check_bytes|reflexivity|reflexivity|discriminate].
  - apply (proj2 (crc_detects_bursts [9] [] ltac:(check_bytes) ltac:(check_bytes)) [1; 2; 3; 4] [1; 2; 3; 5]);
      [check_bytes|check_bytes|reflexivity|reflexivity|discriminate].
Defined.
