(* ===== verification/UrlCode.v ===== *)
(** * UrlCode: the URL encoding of [CEncrypt] (QBase/Encrypt.cpp)

    [urlEncode] and [urlDecode], on the bytes of a [std::string].  An [assert] that fails
    ends the program: [None]. *)

From S2P Require Import Prelude.

(** ** Definitions *)

Definition toHex (x : Z) : Z := if 9 <? x then w8 (x + 55) else w8 (x + 48).

(** Letters past F are taken too. *)
Definition fromHex (x : Z) : option Z :=
  if (65 <=? x) && (x <=? 90) then Some (x - 65 + 10)
  else if (97 <=? x) && (x <=? 122) then Some (x - 97 + 10)
  else if (48 <=? x) && (x <=? 57) then Some (x - 48)
  else None.

(** [isalnum] of the "C" locale. *)
Definition isalnum (c : Z) : bool :=
  ((48 <=? c) && (c <=? 57)) || ((65 <=? c) && (c <=? 90)) || ((97 <=? c) && (c <=? 122)).

Definition encode_char (c : Z) : list Z :=
  if isalnum c || (c =? 45) || (c =? 95) || (c =? 46) || (c =? 126) then [c]
  else if c =? 32 then [43]
  else [37; toHex (c .>> 4); toHex (c mod 16)].

Definition urlEncode (strVal : list Z) : list Z := flat_map encode_char strVal.

Fixpoint urlDecode (strVal : list Z) : option (list Z) :=
  match strVal with
  | [] => Some []
  | c :: rest =>
      if c =? 43 then option_map (cons 32) (urlDecode rest)
      else if c =? 37 then
        match rest with
        | h :: l :: rest' =>
            let? cHigh := fromHex h in
            let? cLow := fromHex l in
            option_map (cons (w8 (cHigh * 16 + cLow))) (urlDecode rest')
        | _ => None
        end
      else option_map (cons c) (urlDecode rest)
  end.

(** ** One character *)

Lemma fromHex_toHex x : 0 <= x < 16 -> fromHex (toHex x) = Some x.
Proof.
  intros H.
  assert (K : forallb (fun i => match fromHex (toHex (Z.of_nat i)) with Some y => y =? Z.of_nat i | None => false end)
    (seq 0 16) = true) by (vm_compute; reflexivity).
  rewrite forallb_forall in K. specialize (K (Z.to_nat x)). rewrite in_seq, Z2Nat.id in K by lia.
  destruct (fromHex (toHex x)); [|discriminate K; lia].
  f_equal. apply Z.eqb_eq, K. lia.
Qed.

Lemma encode_char_decode c rest : is_byte c ->
  urlDecode (encode_char c ++ rest) = option_map (cons c) (urlDecode rest).
Proof.
  intros Hc. unfold encode_char.
  destruct (isalnum c || (c =? 45) || (c =? 95) || (c =? 46) || (c =? 126)) eqn:E.
  - cbn [app urlDecode].
    destruct (Z.eqb_spec c 43) as [->|_]; [discriminate E|].
    destruct (Z.eqb_spec c 37) as [->|_]; [discriminate E|]. reflexivity.
  - destruct (Z.eqb_spec c 32) as [->|_]; [reflexivity|]. unfold is_byte in Hc.
    cbn [app urlDecode]. change (37 =? 43) with false. change (37 =? 37) with true. cbv beta iota.
    rewrite shiftr_div by lia.
    rewrite !fromHex_toHex by ((apply Z.mod_pos_bound; lia) || (split; [apply Z.div_pos; lia|apply Z.div_lt_upper_bound; lia])).
    cbn [obind]. change (2 ^ 4) with 16.
    replace (c / 16 * 16 + c mod 16) with c by (rewrite (Z.div_mod c 16) at 1; lia).
    now rewrite w8_small by exact Hc.
Qed.

(** The characters an encoded string is made of. *)
Definition unreserved (c : Z) : Prop :=
  isalnum c = true \/ In c [45; 95; 46; 126; 43; 37].

Lemma toHex_unreserved x : 0 <= x < 16 -> unreserved (toHex x).
Proof.
  intros H. left.
  assert (K : forallb (fun i => isalnum (toHex (Z.of_nat i))) (seq 0 16) = true) by (vm_compute; reflexivity).
  rewrite forallb_forall in K. specialize (K (Z.to_nat x)). rewrite in_seq, Z2Nat.id in K by lia.
  apply K. lia.
Qed.

Lemma encode_char_unreserved c : is_byte c -> Forall unreserved (encode_char c).
Proof.
  intros Hc. unfold encode_char, is_byte in *.
  destruct (isalnum c || (c =? 45) || (c =? 95) || (c =? 46) || (c =? 126)) eqn:E.
  - constructor; [|constructor]. unfold unreserved. rewrite !orb_true_iff, !Z.eqb_eq in E. cbn [In]. intuition congruence.
  - destruct (c =? 32); (constructor; [right; cbn [In]; tauto|]); [constructor|].
    constructor; [|constructor; [|constructor]]; apply toHex_unreserved;
      [rewrite shiftr_div by lia; split; [apply Z.div_pos; lia|apply Z.div_lt_upper_bound; lia]
      |apply Z.mod_pos_bound; lia].
Qed.

(** Decoding what was encoded gives the string back, for every byte string, and the encoded form has only
    letters, digits and the six characters - _ . ~ + %. *)
Theorem url_roundtrip s : bytes s ->
  urlDecode (urlEncode s) = Some s /\ Forall unreserved (urlEncode s).
Proof.
  induction 1 as [|c s Hc _ [IH1 IH2]]; [split; [reflexivity|constructor]|].
  unfold urlEncode. cbn [flat_map]. rewrite encode_char_decode by exact Hc.
  fold (urlEncode s). rewrite IH1. split; [reflexivity|].
  apply Forall_app. split; [now apply encode_char_unreserved|exact IH2].
Qed.

Lemma url_roundtrip_witness :
  urlDecode (urlEncode [97; 32; 43; 37; 0; 255]) = Some [97; 32; 43; 37; 0; 255] /\
  Forall unreserved (urlEncode [97; 32; 43; 37; 0; 255]).
Proof. apply url_roundtrip. check_bytes. Defined.

(** The decoder stops the program on a string that ends in the middle of an escape, or
    whose escape has a character that is neither a letter nor a digit. *)
Theorem urlDecode_stops s h l rest : ~ In 37 s ->
  urlDecode (s ++ [37]) = None /\ urlDecode (s ++ [37; h]) = None /\
  (isalnum h = false -> urlDecode (s ++ 37 :: h :: l :: rest) = None).
Proof.
  assert (K : forall t, urlDecode t = None -> ~ In 37 s -> urlDecode (s ++ t) = None).
  { intros t Ht. induction s as [|c s IH]; intros H; [exact Ht|]. cbn [app urlDecode].
    rewrite IH by (intros Hi; apply H; now right).
    destruct (c =? 43); [reflexivity|]. destruct (Z.eqb_spec c 37) as [->|_]; [|reflexivity].
    exfalso. apply H. now left. }
  intros H. splits; [now apply K|now apply K|]. intros Hh. apply K; [|exact H]. cbn [urlDecode].
  change (37 =? 43) with false. change (37 =? 37) with true. cbv beta iota.
  unfold fromHex. unfold isalnum in Hh. rewrite !orb_false_iff in Hh. destruct Hh as [[E1 E2] E3].
  rewrite E1, E2, E3. reflexivity.
Qed.

(** An escape with letters past F is not refused. *)
Example urlDecode_accepts_z : urlDecode [37; 90; 90] = Some [w8 (35 * 16 + 35)].
Proof. reflexivity. Qed.
