(* ===== verification/Fips197.v ===== *)
(** * Fips197: the Advanced Encryption Standard, as the standard defines it

    The reference for [Rijndael].  A state is the list of its sixteen bytes, column after
    column; a byte is an element of the field of 256 elements, whose sum is the exclusive
    or and whose product is taken modulo x^8 + x^4 + x^3 + x + 1.  A key schedule is the
    list of its words, each a list of four bytes. *)

From S2P Require Import Prelude.

(** ** The field *)

(** The product by x. *)
Definition xtime (x : Z) : Z := (x .<< 1) .^ (if Z.testbit x 7 then 0x11b else 0).

Definition gmul3 (x : Z) : Z := xtime x .^ x.
Definition gmul9 (x : Z) : Z := xtime (xtime (xtime x)) .^ x.
Definition gmul11 (x : Z) : Z := xtime (xtime (xtime x)) .^ xtime x .^ x.
Definition gmul13 (x : Z) : Z := xtime (xtime (xtime x)) .^ xtime (xtime x) .^ x.
Definition gmul14 (x : Z) : Z := xtime (xtime (xtime x)) .^ xtime (xtime x) .^ xtime x.

(** The product, bit by bit of the first factor. *)
Fixpoint gmul_bits (n : nat) (a b : Z) : Z :=
  match n with
  | O => 0
  | S k => (if Z.testbit a 0 then b else 0) .^ gmul_bits k (a .>> 1) (xtime b)
  end.
Definition gmul (a b : Z) : Z := gmul_bits 8 a b.

(** [x^254], the inverse of [x], and 0 for 0. *)
Definition ginv (x : Z) : Z :=
  let x2 := gmul x x in let x4 := gmul x2 x2 in let x8 := gmul x4 x4 in let x16 := gmul x8 x8 in
  let x32 := gmul x16 x16 in let x64 := gmul x32 x32 in let x128 := gmul x64 x64 in
  gmul x2 (gmul x4 (gmul x8 (gmul x16 (gmul x32 (gmul x64 x128))))).

Definition rotl8 (x n : Z) : Z := w8 (x .<< n) .| (x .>> (8 - n)).

(** The substitution: the inverse, then an affine map. *)
Definition sbox (x : Z) : Z :=
  let b := ginv x in b .^ rotl8 b 1 .^ rotl8 b 2 .^ rotl8 b 3 .^ rotl8 b 4 .^ 0x63.

(** ** The transformations *)

Fixpoint xor_list (a b : list Z) : list Z :=
  match a, b with x :: a', y :: b' => x .^ y :: xor_list a' b' | _, _ => [] end.

Definition SubBytes (s : list Z) : list Z := map sbox s.

(** Row [r] of the state is rotated by [r] columns. *)
Definition ShiftRows (s : list Z) : list Z := map (fun i => nth ((5 * i) mod 16) s 0) (seq 0 16).

Definition MixColumn (c : list Z) : list Z :=
  match c with
  | [a0; a1; a2; a3] =>
      [xtime a0 .^ gmul3 a1 .^ a2 .^ a3; a0 .^ xtime a1 .^ gmul3 a2 .^ a3;
       a0 .^ a1 .^ xtime a2 .^ gmul3 a3; gmul3 a0 .^ a1 .^ a2 .^ xtime a3]
  | _ => c
  end.

Fixpoint columns (n : nat) (f : list Z -> list Z) (s : list Z) : list Z :=
  match n with O => s | S k => f (firstn 4 s) ++ columns k f (skipn 4 s) end.

Definition MixColumns (s : list Z) : list Z := columns 4 MixColumn s.

Definition AddRoundKey (s k : list Z) : list Z := xor_list s k.

(** ** The key schedule *)

Definition RotWord (w : list Z) : list Z := tl w ++ [hd 0 w].
Definition SubWord (w : list Z) : list Z := map sbox w.

(** [x^(i - 1)] in the first byte. *)
Fixpoint xpow (n : nat) : Z := match n with O => 1 | S k => xtime (xpow k) end.
Definition Rcon (i : nat) : list Z := [xpow (i - 1); 0; 0; 0].

(** The next word, when the key has [Nk] words. *)
Definition next_word (Nk : nat) (w : list (list Z)) : list Z :=
  let i := length w in
  let temp := nth (i - 1) w [] in
  let temp :=
    if Nat.eqb (i mod Nk) 0 then xor_list (SubWord (RotWord temp)) (Rcon (i / Nk))
    else if Nat.ltb 6 Nk && Nat.eqb (i mod Nk) 4 then SubWord temp
    else temp in
  xor_list (nth (i - Nk) w []) temp.

Fixpoint expand (Nk n : nat) (w : list (list Z)) : list (list Z) :=
  match n with O => w | S k => expand Nk k (w ++ [next_word Nk w]) end.

Fixpoint key_words (n : nat) (key : list Z) : list (list Z) :=
  match n with O => [] | S k => firstn 4 key :: key_words k (skipn 4 key) end.

Definition KeyExpansion (Nk Nr : nat) (key : list Z) : list (list Z) :=
  expand Nk (4 * (Nr + 1) - Nk) (key_words Nk key).

(** The key of round [r]. *)
Definition round_key (w : list (list Z)) (r : nat) : list Z := concat (firstn 4 (skipn (4 * r) w)).

(** ** The cipher *)

Definition Round (s k : list Z) : list Z := AddRoundKey (MixColumns (ShiftRows (SubBytes s))) k.

Definition Cipher (Nr : nat) (w : list (list Z)) (input : list Z) : list Z :=
  let s := AddRoundKey input (round_key w 0) in
  let s := fold_left (fun s r => Round s (round_key w r)) (seq 1 (Nr - 1)) s in
  AddRoundKey (ShiftRows (SubBytes s)) (round_key w Nr).

(** The examples of the standard's appendix: a 128-bit and a 256-bit key. *)
Example Cipher_128 :
  Cipher 10 (KeyExpansion 4 10 [0;1;2;3;4;5;6;7;8;9;10;11;12;13;14;15])
    [0x00;0x11;0x22;0x33;0x44;0x55;0x66;0x77;0x88;0x99;0xaa;0xbb;0xcc;0xdd;0xee;0xff] =
  [0x69;0xc4;0xe0;0xd8;0x6a;0x7b;0x04;0x30;0xd8;0xcd;0xb7;0x80;0x70;0xb4;0xc5;0x5a].
Proof. vm_compute. reflexivity. Qed.

Example Cipher_256 :
  Cipher 14 (KeyExpansion 8 14 (map Z.of_nat (seq 0 32)))
    [0x00;0x11;0x22;0x33;0x44;0x55;0x66;0x77;0x88;0x99;0xaa;0xbb;0xcc;0xdd;0xee;0xff] =
  [0x8e;0xa2;0xb7;0xca;0x51;0x67;0x45;0xbf;0xea;0xfc;0x49;0x90;0x4b;0x49;0x60;0x89].
Proof. vm_compute. reflexivity. Qed.
