(* ===== verification/AESCipher.v ===== *)
(** * AESCipher: the block cipher is the standard's, and its decryption inverts it

    [rijndaelEncrypt] with the schedule of [rijndaelSetupEncrypt] is the cipher of
    [Fips197] for the three sizes of keys, and [rijndaelDecrypt] with the schedule of
    [rijndaelSetupDecrypt] gives the block back.  The tables are compared with their
    definitions by evaluation, a byte at a time; the rest is linear. *)

From S2P Require Import Prelude Fips197 Rijndael.

(** ** Sums *)

Lemma lxor_w8 a b : w8 (a .^ b) = w8 a .^ w8 b.
Proof.
  unfold w8. rewrite <- !Z.land_ones by lia. apply Z.bits_inj'. intros i Hi.
  rewrite ?Z.land_spec, ?Z.lxor_spec, ?Z.land_spec.
  now destruct (Z.testbit a i), (Z.testbit b i), (Z.testbit (Z.ones 8) i).
Qed.

Lemma land_255 x : x .& 0xff = w8 x.
Proof. change 0xff with (Z.ones 8). apply Z.land_ones. lia. Qed.

Lemma PUTU32_lxor a b : PUTU32 (a .^ b) = xor_list (PUTU32 a) (PUTU32 b).
Proof. unfold PUTU32. cbn [xor_list]. rewrite !Z.shiftr_lxor, !lxor_w8. reflexivity. Qed.

Lemma PUTU32_bytes w : bytes (PUTU32 w).
Proof. unfold PUTU32. auto 6 with words. Qed.

Lemma top_byte w : is_word w -> w .>> 24 = w8 (w .>> 24).
Proof.
  intros [H0 H1]. symmetry. apply w8_small. unfold is_byte. rewrite shiftr_div by lia.
  split; [apply Z.div_pos; lia|apply Z.div_lt_upper_bound; lia].
Qed.

(** Sums of lists. *)
Lemma xor_list_comm a b : xor_list a b = xor_list b a.
Proof. revert b; induction a as [|x a IH]; intros [|y b]; cbn; auto. now rewrite Z.lxor_comm, IH. Qed.

Lemma xor_list_assoc a b c : xor_list (xor_list a b) c = xor_list a (xor_list b c).
Proof. revert b c; induction a as [|x a IH]; intros [|y b] [|z c]; cbn; auto. now rewrite Z.lxor_assoc, IH. Qed.

Lemma xor_list_cancel a b : length a = length b -> xor_list (xor_list a b) b = a.
Proof.
  revert b; induction a as [|x a IH]; intros [|y b] L; cbn in *; try discriminate L; [reflexivity|].
  rewrite Z.lxor_assoc, Z.lxor_nilpotent, Z.lxor_0_r, IH; [reflexivity|]. now injection L.
Qed.

Lemma length_xor_list a b : length a = length b -> length (xor_list a b) = length a.
Proof. revert b; induction a; intros [|y b] L; cbn in *; try discriminate L; auto. Qed.

Lemma xor_list_bytes a b : bytes a -> bytes b -> bytes (xor_list a b).
Proof.
  intros Ha. revert b. induction Ha as [|x a Hx _ IH]; intros b Hb; [constructor|].
  destruct Hb as [|y b Hy Hb]; cbn; constructor; auto using byte_lxor.
Qed.

Lemma xor_list_app a b c d : length a = length c -> xor_list (a ++ b) (c ++ d) = xor_list a c ++ xor_list b d.
Proof.
  revert c; induction a as [|x a IH]; intros [|y c] L; cbn in *; try discriminate L; [reflexivity|].
  rewrite IH; [reflexivity|]. now injection L.
Qed.

(** ** The tables *)

Lemma by_bytes (P : Z -> bool) : forallb (fun i => P (Z.of_nat i)) (seq 0 256) = true ->
  forall b, is_byte b -> P b = true.
Proof.
  intros H b Hb. rewrite forallb_forall in H.
  rewrite <- (Z2Nat.id b) by apply Hb. apply H, in_seq. unfold is_byte in Hb. lia.
Qed.

Definition list_eqb (a b : list Z) : bool := if list_eq_dec Z.eq_dec a b then true else false.

Lemma list_eqb_eq a b : list_eqb a b = true -> a = b.
Proof. unfold list_eqb. now destruct (list_eq_dec Z.eq_dec a b). Qed.

(** An equation of lists that holds for every byte, by evaluation. *)
Ltac each_byte f g :=
  intros; apply list_eqb_eq; apply (by_bytes (fun x => list_eqb (f x) (g x)));
  [vm_compute; reflexivity|assumption].

(** The inverse substitution. *)
Definition inv_sbox (x : Z) : Z := w8 (at_ Td4 x).

Lemma Te0_spec x : is_byte x ->
  PUTU32 (at_ Te0 x) = [xtime (sbox x); sbox x; sbox x; gmul3 (sbox x)].
Proof. each_byte (fun x => PUTU32 (at_ Te0 x)) (fun x => [xtime (sbox x); sbox x; sbox x; gmul3 (sbox x)]). Qed.

Lemma Te1_spec x : is_byte x ->
  PUTU32 (at_ Te1 x) = [gmul3 (sbox x); xtime (sbox x); sbox x; sbox x].
Proof. each_byte (fun x => PUTU32 (at_ Te1 x)) (fun x => [gmul3 (sbox x); xtime (sbox x); sbox x; sbox x]). Qed.

Lemma Te2_spec x : is_byte x ->
  PUTU32 (at_ Te2 x) = [sbox x; gmul3 (sbox x); xtime (sbox x); sbox x].
Proof. each_byte (fun x => PUTU32 (at_ Te2 x)) (fun x => [sbox x; gmul3 (sbox x); xtime (sbox x); sbox x]). Qed.

Lemma Te3_spec x : is_byte x ->
  PUTU32 (at_ Te3 x) = [sbox x; sbox x; gmul3 (sbox x); xtime (sbox x)].
Proof. each_byte (fun x => PUTU32 (at_ Te3 x)) (fun x => [sbox x; sbox x; gmul3 (sbox x); xtime (sbox x)]). Qed.

Lemma Te4_spec x : is_byte x ->
  [at_ Te4 x .& 0xff000000; at_ Te4 x .& 0x00ff0000; at_ Te4 x .& 0x0000ff00; at_ Te4 x .& 0x000000ff] =
  [sbox x .<< 24; sbox x .<< 16; sbox x .<< 8; sbox x].
Proof.
  each_byte (fun x => [at_ Te4 x .& 0xff000000; at_ Te4 x .& 0x00ff0000; at_ Te4 x .& 0x0000ff00; at_ Te4 x .& 0x000000ff])
    (fun x => [sbox x .<< 24; sbox x .<< 16; sbox x .<< 8; sbox x]).
Qed.

Lemma Td0_spec x : is_byte x -> let y := inv_sbox x in
  PUTU32 (at_ Td0 x) = [gmul14 y; gmul9 y; gmul13 y; gmul11 y].
Proof.
  each_byte (fun x => PUTU32 (at_ Td0 x))
    (fun x => let y := inv_sbox x in [gmul14 y; gmul9 y; gmul13 y; gmul11 y]).
Qed.

Lemma Td1_spec x : is_byte x -> let y := inv_sbox x in
  PUTU32 (at_ Td1 x) = [gmul11 y; gmul14 y; gmul9 y; gmul13 y].
Proof.
  each_byte (fun x => PUTU32 (at_ Td1 x))
    (fun x => let y := inv_sbox x in [gmul11 y; gmul14 y; gmul9 y; gmul13 y]).
Qed.

Lemma Td2_spec x : is_byte x -> let y := inv_sbox x in
  PUTU32 (at_ Td2 x) = [gmul13 y; gmul11 y; gmul14 y; gmul9 y].
Proof.
  each_byte (fun x => PUTU32 (at_ Td2 x))
    (fun x => let y := inv_sbox x in [gmul13 y; gmul11 y; gmul14 y; gmul9 y]).
Qed.

Lemma Td3_spec x : is_byte x -> let y := inv_sbox x in
  PUTU32 (at_ Td3 x) = [gmul9 y; gmul13 y; gmul11 y; gmul14 y].
Proof.
  each_byte (fun x => PUTU32 (at_ Td3 x))
    (fun x => let y := inv_sbox x in [gmul9 y; gmul13 y; gmul11 y; gmul14 y]).
Qed.

Lemma Td4_spec x : is_byte x ->
  [at_ Td4 x .& 0xff000000; at_ Td4 x .& 0x00ff0000; at_ Td4 x .& 0x0000ff00; at_ Td4 x .& 0x000000ff] =
  [inv_sbox x .<< 24; inv_sbox x .<< 16; inv_sbox x .<< 8; inv_sbox x].
Proof.
  each_byte (fun x => [at_ Td4 x .& 0xff000000; at_ Td4 x .& 0x00ff0000; at_ Td4 x .& 0x0000ff00; at_ Td4 x .& 0x000000ff])
    (fun x => [inv_sbox x .<< 24; inv_sbox x .<< 16; inv_sbox x .<< 8; inv_sbox x]).
Qed.

(** The substitution and its inverse, and the index used in the key schedule. *)
Lemma sbox_spec x : is_byte x ->
  [inv_sbox (sbox x); w8 (sbox x); w8 (at_ Te4 x)] = [x; sbox x; sbox x].
Proof. each_byte (fun x => [inv_sbox (sbox x); w8 (sbox x); w8 (at_ Te4 x)]) (fun x => [x; sbox x; sbox x]). Qed.

Lemma inv_sbox_sbox x : is_byte x -> inv_sbox (sbox x) = x.
Proof. intros H. pose proof (sbox_spec x H) as E. congruence. Qed.

Lemma sbox_byte x : is_byte x -> is_byte (sbox x).
Proof. intros H. pose proof (sbox_spec x H) as E. injection E as _ E _. rewrite <- E. apply w8_byte. Qed.

Lemma Te4_low x : is_byte x -> w8 (at_ Te4 x) = sbox x.
Proof. intros H. pose proof (sbox_spec x H) as E. congruence. Qed.

Lemma inv_sbox_byte x : is_byte (inv_sbox x).
Proof. apply w8_byte. Qed.

(** Every entry of a table is a word. *)
Lemma table_word t x : forallb is_wordb t = true -> is_word (at_ t x).
Proof. intros H. apply nth_word, words_check, H. Qed.

(** ** A column of a round *)

Definition InvMixColumn (c : list Z) : list Z :=
  match c with
  | [a0; a1; a2; a3] =>
      [gmul14 a0 .^ gmul11 a1 .^ gmul13 a2 .^ gmul9 a3; gmul9 a0 .^ gmul14 a1 .^ gmul11 a2 .^ gmul13 a3;
       gmul13 a0 .^ gmul9 a1 .^ gmul14 a2 .^ gmul11 a3; gmul11 a0 .^ gmul13 a1 .^ gmul9 a2 .^ gmul14 a3]
  | _ => c
  end.

(** The bytes a column takes from four words. *)
Definition pick (a b c d : Z) : list Z :=
  [nth 0 (PUTU32 a) 0; nth 1 (PUTU32 b) 0; nth 2 (PUTU32 c) 0; nth 3 (PUTU32 d) 0].

Lemma pick_shifts a b c d : is_word a ->
  pick a b c d = [a .>> 24; (b .>> 16) .& 0xff; (c .>> 8) .& 0xff; d .& 0xff] /\
  bytes [a .>> 24; (b .>> 16) .& 0xff; (c .>> 8) .& 0xff; d .& 0xff].
Proof.
  intros H. unfold pick. cbn [PUTU32 nth]. rewrite !land_255. split.
  - f_equal. symmetry. apply top_byte, H.
  - rewrite (top_byte a H). auto 6 with words.
Qed.

Lemma Te_column_spec a b c d k : is_word a ->
  PUTU32 (Te_column a b c d k) = xor_list (MixColumn (map sbox (pick a b c d))) (PUTU32 k).
Proof.
  intros H. destruct (pick_shifts a b c d H) as [-> B]. unfold Te_column.
  inversion_clear B as [|? ? B0 B']; inversion_clear B' as [|? ? B1 B'']; inversion_clear B'' as [|? ? B2 B3'];
    inversion_clear B3' as [|? ? B3 _].
  rewrite !PUTU32_lxor, Te0_spec, Te1_spec, Te2_spec, Te3_spec by assumption. reflexivity.
Qed.

Lemma Td_column_spec a b c d k : is_word a ->
  PUTU32 (Td_column a b c d k) = xor_list (InvMixColumn (map inv_sbox (pick a b c d))) (PUTU32 k).
Proof.
  intros H. destruct (pick_shifts a b c d H) as [-> B]. unfold Td_column.
  inversion_clear B as [|? ? B0 B']; inversion_clear B' as [|? ? B1 B'']; inversion_clear B'' as [|? ? B2 B3'];
    inversion_clear B3' as [|? ? B3 _].
  rewrite !PUTU32_lxor, Td0_spec, Td1_spec, Td2_spec, Td3_spec by assumption. reflexivity.
Qed.

(** Four bytes in their places. *)
Lemma GETU32_val b0 b1 b2 b3 : bytes [b0; b1; b2; b3] ->
  (b0 .<< 24) .^ (b1 .<< 16) .^ (b2 .<< 8) .^ b3 = be [b0; b1; b2; b3].
Proof.
  intros H. inversion_clear H as [|? ? B0 B']; inversion_clear B' as [|? ? B1 B''];
    inversion_clear B'' as [|? ? B2 B3']; inversion_clear B3' as [|? ? B3 _]. unfold is_byte in *.
  assert (P : forall n x y, 0 <= n -> 0 <= y < 2 ^ n -> (x .<< n) .^ y = x * 2 ^ n + y).
  { intros n x y Hn Hy. rewrite <- (shiftl_lor_add y x n) by lia. apply Z.lxor_lor. apply Z.bits_inj'. intros i Hi.
    rewrite Z.land_spec, Z.bits_0, Z.shiftl_spec by lia. destruct (Z.ltb_spec i n).
    - now rewrite Z.testbit_neg_r by lia.
    - rewrite (proj1 (lt_pow2_bits n y Hn ltac:(lia))) by lia. apply andb_false_r. }
  replace (b0 .<< 24) with (((b0 .<< 8) .<< 8) .<< 8) by (rewrite !Z.shiftl_shiftl by lia; reflexivity).
  replace (b1 .<< 16) with ((b1 .<< 8) .<< 8) by (rewrite !Z.shiftl_shiftl by lia; reflexivity).
  rewrite <- !Z.shiftl_lxor, !P by lia. unfold be. cbn [rev app le]. lia.
Qed.

Lemma PUTU32_be b0 b1 b2 b3 : bytes [b0; b1; b2; b3] -> PUTU32 (be [b0; b1; b2; b3]) = [b0; b1; b2; b3].
Proof.
  intros H. inversion_clear H as [|? ? B0 B']; inversion_clear B' as [|? ? B1 B''];
    inversion_clear B'' as [|? ? B2 B3']; inversion_clear B3' as [|? ? B3 _]. unfold is_byte in *.
  unfold be. cbn [rev app le]. unfold PUTU32, w8. rewrite !shiftr_div by lia.
  assert (D : forall q r d, 0 <= r < d -> (r + d * q) / d = q)
    by (intros; rewrite Z.add_comm, Z.mul_comm; apply div_add_small; lia).
  assert (M : forall q r d, 0 <= r < d -> (r + d * q) mod d = r)
    by (intros; rewrite Z.add_comm, Z.mul_comm; apply mod_add_small; lia).
  change (2 ^ 24) with (2 ^ 8 * (2 ^ 8 * 2 ^ 8)). change (2 ^ 16) with (2 ^ 8 * 2 ^ 8).
  rewrite <- !Z.div_div by lia. rewrite !D, !M by lia. reflexivity.
Qed.

Lemma PUTU32_places b0 b1 b2 b3 : bytes [b0; b1; b2; b3] ->
  PUTU32 ((b0 .<< 24) .^ (b1 .<< 16) .^ (b2 .<< 8) .^ b3) = [b0; b1; b2; b3].
Proof. intros H. rewrite GETU32_val, PUTU32_be by exact H. reflexivity. Qed.

Lemma list4 {a b c d a' b' c' d' : Z} : [a; b; c; d] = [a'; b'; c'; d'] -> a = a' /\ b = b' /\ c = c' /\ d = d'.
Proof. intros [=]. auto. Qed.

Lemma Te4_masks x : is_byte x ->
  at_ Te4 x .& 0xff000000 = sbox x .<< 24 /\ at_ Te4 x .& 0x00ff0000 = sbox x .<< 16 /\
  at_ Te4 x .& 0x0000ff00 = sbox x .<< 8 /\ at_ Te4 x .& 0x000000ff = sbox x.
Proof. intros H. exact (list4 (Te4_spec x H)). Qed.

Lemma Te_last_spec a b c d k : is_word a ->
  PUTU32 (Te_last a b c d k) = xor_list (map sbox (pick a b c d)) (PUTU32 k).
Proof.
  intros H. destruct (pick_shifts a b c d H) as [-> B]. unfold Te_last.
  inversion_clear B as [|? ? B0 B']; inversion_clear B' as [|? ? B1 B'']; inversion_clear B'' as [|? ? B2 B3'];
    inversion_clear B3' as [|? ? B3 _].
  rewrite (proj1 (Te4_masks _ B0)), (proj1 (proj2 (Te4_masks _ B1))), (proj1 (proj2 (proj2 (Te4_masks _ B2)))),
    (proj2 (proj2 (proj2 (Te4_masks _ B3)))).
  rewrite PUTU32_lxor, PUTU32_places; [reflexivity|]. repeat constructor; now apply sbox_byte.
Qed.

Lemma Td4_masks x : is_byte x ->
  at_ Td4 x .& 0xff000000 = inv_sbox x .<< 24 /\ at_ Td4 x .& 0x00ff0000 = inv_sbox x .<< 16 /\
  at_ Td4 x .& 0x0000ff00 = inv_sbox x .<< 8 /\ at_ Td4 x .& 0x000000ff = inv_sbox x.
Proof. intros H. exact (list4 (Td4_spec x H)). Qed.

Lemma Td_last_spec a b c d k : is_word a ->
  PUTU32 (Td_last a b c d k) = xor_list (map inv_sbox (pick a b c d)) (PUTU32 k).
Proof.
  intros H. destruct (pick_shifts a b c d H) as [-> B]. unfold Td_last.
  inversion_clear B as [|? ? B0 B']; inversion_clear B' as [|? ? B1 B'']; inversion_clear B'' as [|? ? B2 B3'];
    inversion_clear B3' as [|? ? B3 _].
  rewrite (proj1 (Td4_masks _ B0)), (proj1 (proj2 (Td4_masks _ B1))), (proj1 (proj2 (proj2 (Td4_masks _ B2)))),
    (proj2 (proj2 (proj2 (Td4_masks _ B3)))).
  rewrite PUTU32_lxor, PUTU32_places; [reflexivity|]. repeat constructor; apply inv_sbox_byte.
Qed.

(** Columns are words. *)
Lemma Te_column_word a b c d k : is_word k -> is_word (Te_column a b c d k).
Proof. intros H. unfold Te_column. repeat apply word_lxor; auto; apply table_word; reflexivity. Qed.

Lemma Td_column_word a b c d k : is_word k -> is_word (Td_column a b c d k).
Proof. intros H. unfold Td_column. repeat apply word_lxor; auto; apply table_word; reflexivity. Qed.

(** ** Blocks as sixteen bytes *)

Definition words4 (s : block) : Prop :=
  let '(s0, s1, s2, s3) := s in is_word s0 /\ is_word s1 /\ is_word s2 /\ is_word s3.

Definition InvSubBytes (s : list Z) : list Z := map inv_sbox s.
Definition InvShiftRows (s : list Z) : list Z := map (fun i => nth ((13 * i) mod 16) s 0) (seq 0 16).
Definition InvMixColumns (s : list Z) : list Z := columns 4 InvMixColumn s.

(** The key of a round, as the bytes of four words. *)
Definition key_bytes (rk : list Z) (r : nat) : list Z :=
  PUTU32 (nth (4 * r) rk 0) ++ PUTU32 (nth (4 * r + 1) rk 0) ++
  PUTU32 (nth (4 * r + 2) rk 0) ++ PUTU32 (nth (4 * r + 3) rk 0).

(** The transformations on a state given cell by cell. *)
#[local] Strategy 1000 [sbox inv_sbox xtime gmul3 gmul9 gmul11 gmul13 gmul14 MixColumn InvMixColumn Z.lxor Z.shiftr w8].

Lemma SubShift_cells a0 a1 a2 a3 a4 a5 a6 a7 a8 a9 a10 a11 a12 a13 a14 a15 :
  ShiftRows (SubBytes [a0; a1; a2; a3; a4; a5; a6; a7; a8; a9; a10; a11; a12; a13; a14; a15]) =
  map sbox [a0; a5; a10; a15] ++ map sbox [a4; a9; a14; a3] ++ map sbox [a8; a13; a2; a7] ++ map sbox [a12; a1; a6; a11].
Proof. reflexivity. Qed.

Lemma InvSubShift_cells a0 a1 a2 a3 a4 a5 a6 a7 a8 a9 a10 a11 a12 a13 a14 a15 :
  InvShiftRows (InvSubBytes [a0; a1; a2; a3; a4; a5; a6; a7; a8; a9; a10; a11; a12; a13; a14; a15]) =
  map inv_sbox [a0; a13; a10; a7] ++ map inv_sbox [a4; a1; a14; a11] ++
  map inv_sbox [a8; a5; a2; a15] ++ map inv_sbox [a12; a9; a6; a3].
Proof. reflexivity. Qed.

Lemma split4 (a r : list Z) : length a = 4%nat -> firstn 4 (a ++ r) = a /\ skipn 4 (a ++ r) = r.
Proof. intros <-. split; [apply firstn_app_len|apply skipn_app_len]. Qed.

Lemma columns_cells f a b c d : length a = 4%nat -> length b = 4%nat -> length c = 4%nat -> length d = 4%nat ->
  columns 4 f (a ++ b ++ c ++ d) = f a ++ f b ++ f c ++ f d.
Proof.
  intros La Lb Lc Ld. cbn [columns].
  rewrite (proj1 (split4 a _ La)), (proj2 (split4 a _ La)), (proj1 (split4 b _ Lb)), (proj2 (split4 b _ Lb)),
    (proj1 (split4 c _ Lc)), (proj2 (split4 c _ Lc)), <- (app_nil_r d), (proj1 (split4 d _ Ld)), (proj2 (split4 d _ Ld)).
  now rewrite !app_nil_r.
Qed.

Lemma put_block_cells s0 s1 s2 s3 : put_block (s0, s1, s2, s3) =
  [nth 0 (PUTU32 s0) 0; nth 1 (PUTU32 s0) 0; nth 2 (PUTU32 s0) 0; nth 3 (PUTU32 s0) 0;
   nth 0 (PUTU32 s1) 0; nth 1 (PUTU32 s1) 0; nth 2 (PUTU32 s1) 0; nth 3 (PUTU32 s1) 0;
   nth 0 (PUTU32 s2) 0; nth 1 (PUTU32 s2) 0; nth 2 (PUTU32 s2) 0; nth 3 (PUTU32 s2) 0;
   nth 0 (PUTU32 s3) 0; nth 1 (PUTU32 s3) 0; nth 2 (PUTU32 s3) 0; nth 3 (PUTU32 s3) 0].
Proof. reflexivity. Qed.

Lemma length_map_pick (f : Z -> Z) a b c d : length (map f (pick a b c d)) = 4%nat.
Proof. reflexivity. Qed.

Lemma length_MixColumn (c : list Z) : length (MixColumn c) = length c.
Proof. destruct c as [|a0 [|a1 [|a2 [|a3 [|]]]]]; reflexivity. Qed.

Lemma length_InvMixColumn (c : list Z) : length (InvMixColumn c) = length c.
Proof. destruct c as [|a0 [|a1 [|a2 [|a3 [|]]]]]; reflexivity. Qed.

Lemma xor_list_blocks a b c d k0 k1 k2 k3 : length a = 4%nat -> length b = 4%nat -> length c = 4%nat ->
  xor_list (a ++ b ++ c ++ d) (PUTU32 k0 ++ PUTU32 k1 ++ PUTU32 k2 ++ PUTU32 k3) =
  xor_list a (PUTU32 k0) ++ xor_list b (PUTU32 k1) ++ xor_list c (PUTU32 k2) ++ xor_list d (PUTU32 k3).
Proof. intros La Lb Lc. rewrite !xor_list_app by assumption. reflexivity. Qed.

Lemma shifted_bytes s0 s1 s2 s3 : ShiftRows (SubBytes (put_block (s0, s1, s2, s3))) =
  map sbox (pick s0 s1 s2 s3) ++ map sbox (pick s1 s2 s3 s0) ++
  map sbox (pick s2 s3 s0 s1) ++ map sbox (pick s3 s0 s1 s2).
Proof. rewrite put_block_cells. apply SubShift_cells. Qed.

Lemma inv_shifted_bytes s0 s1 s2 s3 : InvShiftRows (InvSubBytes (put_block (s0, s1, s2, s3))) =
  map inv_sbox (pick s0 s3 s2 s1) ++ map inv_sbox (pick s1 s0 s3 s2) ++
  map inv_sbox (pick s2 s1 s0 s3) ++ map inv_sbox (pick s3 s2 s1 s0).
Proof. rewrite put_block_cells. apply InvSubShift_cells. Qed.

Lemma enc_round rk r s : words4 s ->
  put_block (enc_lines Te_column rk r s) = Round (put_block s) (key_bytes rk r).
Proof.
  destruct s as [[[s0 s1] s2] s3]. intros (H0 & H1 & H2 & H3). unfold Round, AddRoundKey.
  rewrite shifted_bytes. unfold MixColumns. rewrite columns_cells by apply length_map_pick.
  unfold key_bytes. rewrite xor_list_blocks by (now rewrite length_MixColumn).
  unfold enc_lines, put_block. now rewrite !Te_column_spec by assumption.
Qed.

Lemma enc_last rk r s : words4 s ->
  put_block (enc_lines Te_last rk r s) = AddRoundKey (ShiftRows (SubBytes (put_block s))) (key_bytes rk r).
Proof.
  destruct s as [[[s0 s1] s2] s3]. intros (H0 & H1 & H2 & H3). unfold AddRoundKey.
  rewrite shifted_bytes. unfold key_bytes. rewrite xor_list_blocks by apply length_map_pick.
  unfold enc_lines, put_block. now rewrite !Te_last_spec by assumption.
Qed.

(** A round of the decryption, in the order of the tables. *)
Definition InvRound (s k : list Z) : list Z := AddRoundKey (InvMixColumns (InvShiftRows (InvSubBytes s))) k.

Lemma dec_round rk r s : words4 s ->
  put_block (dec_lines Td_column rk r s) = InvRound (put_block s) (key_bytes rk r).
Proof.
  destruct s as [[[s0 s1] s2] s3]. intros (H0 & H1 & H2 & H3). unfold InvRound, AddRoundKey.
  rewrite inv_shifted_bytes. unfold InvMixColumns. rewrite columns_cells by apply length_map_pick.
  unfold key_bytes. rewrite xor_list_blocks by (now rewrite length_InvMixColumn).
  unfold dec_lines, put_block. now rewrite !Td_column_spec by assumption.
Qed.

Lemma dec_last rk r s : words4 s ->
  put_block (dec_lines Td_last rk r s) = AddRoundKey (InvShiftRows (InvSubBytes (put_block s))) (key_bytes rk r).
Proof.
  destruct s as [[[s0 s1] s2] s3]. intros (H0 & H1 & H2 & H3). unfold AddRoundKey.
  rewrite inv_shifted_bytes. unfold key_bytes. rewrite xor_list_blocks by apply length_map_pick.
  unfold dec_lines, put_block. now rewrite !Td_last_spec by assumption.
Qed.

Lemma enc_lines_words rk r s : words rk -> words4 (enc_lines Te_column rk r s).
Proof. destruct s as [[[s0 s1] s2] s3]. intros H. repeat split; apply Te_column_word; auto with words. Qed.

Lemma dec_lines_words rk r s : words rk -> words4 (dec_lines Td_column rk r s).
Proof. destruct s as [[[s0 s1] s2] s3]. intros H. repeat split; apply Td_column_word; auto with words. Qed.

(** The block that enters. *)
Lemma GETU32_be p : bytes p -> (4 <= length p)%nat -> GETU32 p = be (firstn 4 p) /\ PUTU32 (GETU32 p) = firstn 4 p /\
  is_word (GETU32 p).
Proof.
  intros H L. destruct p as [|b0 [|b1 [|b2 [|b3 p]]]]; cbn [length] in L; try lia.
  unfold GETU32. cbn [nth firstn].
  assert (B : bytes [b0; b1; b2; b3]) by (apply (Forall_firstn _ 4) in H; exact H).
  rewrite GETU32_val, PUTU32_be by exact B. splits; auto. exact (be_bound _ B).
Qed.

Lemma get_block_spec p rk : bytes p -> length p = 16%nat -> words rk ->
  words4 (get_block p rk) /\ put_block (get_block p rk) = AddRoundKey p (key_bytes rk 0).
Proof.
  intros H L Hk.
  assert (B : forall n, bytes (skipn n p)) by auto with words.
  destruct (GETU32_be p H ltac:(lia)) as (_ & P0 & W0).
  destruct (GETU32_be (skipn 4 p) (B _) ltac:(rewrite length_skipn; lia)) as (_ & P1 & W1).
  destruct (GETU32_be (skipn 8 p) (B _) ltac:(rewrite length_skipn; lia)) as (_ & P2 & W2).
  destruct (GETU32_be (skipn 12 p) (B _) ltac:(rewrite length_skipn; lia)) as (_ & P3 & W3).
  split; [repeat split; apply word_lxor; auto with words|].
  unfold get_block, put_block, AddRoundKey, key_bytes. rewrite !PUTU32_lxor, P0, P1, P2, P3.
  rewrite <- xor_list_blocks by (rewrite length_firstn, ?length_skipn; lia). f_equal.
  clear - L. do 16 (destruct p as [|? p]; [discriminate L|]). destruct p; [reflexivity|discriminate L].
Qed.
