(* ===== verification/AESKeys.v ===== *)
(** * AESKeys: the whole cipher and its key schedules

    The rounds of [AESCipher] put together, with the schedules of [rijndaelSetupEncrypt]
    and [rijndaelSetupDecrypt]: encryption is the standard's cipher for the three sizes of
    keys, and decryption gives the block back. *)

From S2P Require Import Prelude Fips197 Rijndael AESCipher.

(** ** The rounds *)

Lemma rounds_fold one nrounds s : nrounds = 10%nat \/ nrounds = 12%nat \/ nrounds = 14%nat ->
  rounds one nrounds s = fold_left (fun s r => one r s) (seq 1 (nrounds - 1)) s.
Proof. intros [->|[->| ->]]; reflexivity. Qed.

Lemma fold_rounds (one : nat -> block -> block) (ref : list Z -> nat -> list Z) l :
  (forall r s, words4 s -> words4 (one r s) /\ put_block (one r s) = ref (put_block s) r) ->
  forall s, words4 s ->
  words4 (fold_left (fun s r => one r s) l s) /\
  put_block (fold_left (fun s r => one r s) l s) = fold_left ref l (put_block s).
Proof.
  intros H. induction l as [|r l IH]; intros s Hs; cbn [fold_left]; [auto|].
  destruct (H r s Hs) as [W E]. rewrite <- E. apply IH, W.
Qed.

Lemma key_bytes_last rk n : key_bytes (skipn (n * 4) rk) 0 = key_bytes rk n.
Proof. unfold key_bytes. now rewrite !nth_skipn, Nat.mul_0_r, !Nat.add_0_l, Nat.add_0_r, (Nat.mul_comm n 4). Qed.

(** The schedule as the standard has it. *)
Lemma round_key_bytes rk r : (4 * r + 4 <= length rk)%nat ->
  round_key (map PUTU32 rk) r = key_bytes rk r.
Proof.
  intros L. unfold round_key, key_bytes. rewrite skipn_map, firstn_map.
  assert (H : firstn 4 (skipn (4 * r) rk) =
    [nth (4 * r) rk 0; nth (4 * r + 1) rk 0; nth (4 * r + 2) rk 0; nth (4 * r + 3) rk 0]).
  { rewrite <- cells_firstn by (rewrite length_skipn; lia). cbn [cells].
    rewrite !tl_skipn, !hd_nth, !nth_skipn.
    now rewrite !Nat.add_0_r, (Nat.add_1_r (4 * r)), (Nat.add_comm _ 2), (Nat.add_comm _ 3). }
  rewrite H. cbn [map concat]. now rewrite app_nil_r.
Qed.

Lemma fold_left_ext {A B} (f g : A -> B -> A) l : (forall a b, In b l -> f a b = g a b) ->
  forall a, fold_left f l a = fold_left g l a.
Proof.
  induction l as [|x l IH]; intros H a; cbn [fold_left]; [reflexivity|].
  rewrite H by now left. apply IH. intros. apply H. now right.
Qed.

Definition valid_rounds (n : nat) : Prop := n = 10%nat \/ n = 12%nat \/ n = 14%nat.

(** Encryption with any schedule is the standard's cipher. *)
Lemma encrypt_Cipher rk n p : valid_rounds n -> words rk -> length rk = (4 * (n + 1))%nat ->
  bytes p -> length p = 16%nat ->
  rijndaelEncrypt rk n p = Cipher n (map PUTU32 rk) p.
Proof.
  intros Hn Hw L Hp Lp. unfold rijndaelEncrypt. rewrite rounds_fold by exact Hn.
  destruct (get_block_spec p rk Hp Lp Hw) as [W0 E0].
  destruct (fold_rounds (fun r s => enc_lines Te_column rk r s) (fun s r => Round s (key_bytes rk r))
    (seq 1 (n - 1)) (fun r s Hs => conj (enc_lines_words rk r s Hw) (enc_round rk r s Hs)) _ W0) as [W E].
  rewrite enc_last by exact W. rewrite E, E0, key_bytes_last.
  unfold Cipher. rewrite !round_key_bytes by lia. f_equal. do 2 f_equal.
  apply fold_left_ext. intros s r Hr. apply in_seq in Hr. rewrite round_key_bytes by lia. reflexivity.
Qed.

Definition Cipher_of_decrypt (dk : list Z) (n : nat) (c : list Z) : list Z :=
  let s := AddRoundKey c (key_bytes dk 0) in
  let s := fold_left (fun s r => InvRound s (key_bytes dk r)) (seq 1 (n - 1)) s in
  AddRoundKey (InvShiftRows (InvSubBytes s)) (key_bytes dk n).

Lemma decrypt_bytes dk n c : valid_rounds n -> words dk -> bytes c -> length c = 16%nat ->
  rijndaelDecrypt dk n c = Cipher_of_decrypt dk n c.
Proof.
  intros Hn Hw Hc Lc. unfold rijndaelDecrypt. rewrite rounds_fold by exact Hn.
  destruct (get_block_spec c dk Hc Lc Hw) as [W0 E0].
  destruct (fold_rounds (fun r s => dec_lines Td_column dk r s) (fun s r => InvRound s (key_bytes dk r))
    (seq 1 (n - 1)) (fun r s Hs => conj (dec_lines_words dk r s Hw) (dec_round dk r s Hs)) _ W0) as [W E].
  rewrite dec_last by exact W. rewrite E, E0, key_bytes_last. reflexivity.
Qed.

(** ** The key schedule is the standard's *)

(** The word after the window [x :: m] of the last [Nk] words. *)
Definition step_word (Nk i : nat) (first last : list Z) : list Z :=
  let temp :=
    if Nat.eqb (i mod Nk) 0 then xor_list (SubWord (RotWord last)) (Rcon (i / Nk))
    else if Nat.ltb 6 Nk && Nat.eqb (i mod Nk) 4 then SubWord last
    else last in
  xor_list first temp.

Lemma expand_window Nk n pre x m y : length (x :: m ++ [y]) = Nk ->
  expand Nk (S n) (pre ++ x :: m ++ [y]) =
  expand Nk n ((pre ++ [x]) ++ m ++ [y; step_word Nk (length pre + Nk) x y]).
Proof.
  intros L. cbn [expand]. f_equal.
  assert (E : next_word Nk (pre ++ x :: m ++ [y]) = step_word Nk (length pre + Nk) x y).
  { unfold next_word, step_word. rewrite length_app, L.
    rewrite (app_nth2 pre) by lia. replace (length pre + Nk - Nk - length pre)%nat with 0%nat by lia.
    cbn [nth].
    replace (pre ++ x :: m ++ [y]) with ((pre ++ x :: m) ++ [y]) by (rewrite <- app_assoc; reflexivity).
    cbn [length] in L. rewrite length_app in L. cbn [length] in L.
    rewrite (app_nth2 (pre ++ x :: m)) by (rewrite length_app; cbn [length]; lia).
    replace (length pre + Nk - 1 - length (pre ++ x :: m))%nat with 0%nat by (rewrite length_app; cbn [length]; lia).
    reflexivity. }
  rewrite E, <- !app_assoc. cbn [app]. rewrite <- app_assoc. reflexivity.
Qed.

Lemma rcon_spec i : (i < 10)%nat -> PUTU32 (nth i rcon 0) = Rcon (S i).
Proof.
  intros H. do 10 (destruct i as [|i]; [reflexivity|]). lia.
Qed.

Lemma g_rot_spec r0 temp i : is_word temp -> (i < 10)%nat ->
  PUTU32 (g_rot r0 temp i) =
  xor_list (PUTU32 r0) (xor_list (SubWord (RotWord (PUTU32 temp))) (Rcon (S i))).
Proof.
  intros H Hi. unfold g_rot. rewrite <- (rcon_spec i Hi), <- xor_list_assoc, PUTU32_lxor. f_equal.
  rewrite !Z.lxor_assoc, PUTU32_lxor. f_equal. rewrite <- !Z.lxor_assoc.
  rewrite (land_255 (temp .>> 16)), (land_255 (temp .>> 8)), (land_255 temp), (top_byte temp H).
  rewrite (proj1 (Te4_masks _ (w8_byte _))), (proj1 (proj2 (Te4_masks _ (w8_byte _)))),
    (proj1 (proj2 (proj2 (Te4_masks _ (w8_byte _))))), (proj2 (proj2 (proj2 (Te4_masks _ (w8_byte _))))).
  rewrite PUTU32_places; [reflexivity|]. repeat constructor; apply sbox_byte, w8_byte.
Qed.

Lemma g_sub_spec r4 temp : is_word temp ->
  PUTU32 (g_sub r4 temp) = xor_list (PUTU32 r4) (SubWord (PUTU32 temp)).
Proof.
  intros H. unfold g_sub. rewrite !Z.lxor_assoc, PUTU32_lxor. f_equal. rewrite <- !Z.lxor_assoc.
  rewrite (land_255 (temp .>> 16)), (land_255 (temp .>> 8)), (land_255 temp), (top_byte temp H).
  rewrite (proj1 (Te4_masks _ (w8_byte _))), (proj1 (proj2 (Te4_masks _ (w8_byte _)))),
    (proj1 (proj2 (proj2 (Te4_masks _ (w8_byte _))))), (proj2 (proj2 (proj2 (Te4_masks _ (w8_byte _))))).
  rewrite PUTU32_places; [reflexivity|]. repeat constructor; apply sbox_byte, w8_byte.
Qed.

Lemma word_land_mask x m : is_word x -> 0 <= m -> is_word (x .& m).
Proof. apply word_land. Qed.

Lemma g_rot_word r0 temp i : is_word r0 -> is_word (g_rot r0 temp i).
Proof.
  intros H. unfold g_rot. repeat apply word_lxor; try (apply word_land_mask; [apply table_word; reflexivity|lia]).
  - exact H.
  - apply nth_word, words_check. reflexivity.
Qed.

Lemma g_sub_word r4 temp : is_word r4 -> is_word (g_sub r4 temp).
Proof.
  intros H. unfold g_sub. repeat apply word_lxor; try (apply word_land_mask; [apply table_word; reflexivity|lia]).
  exact H.
Qed.

(** The words inside a group and at its start. *)
Lemma step_inside Nk i a b : (i mod Nk <> 0)%nat -> (Nat.ltb 6 Nk && Nat.eqb (i mod Nk) 4) = false ->
  step_word Nk i (PUTU32 a) (PUTU32 b) = PUTU32 (a .^ b).
Proof.
  intros H0 H4. unfold step_word. rewrite (proj2 (Nat.eqb_neq _ _) H0), H4. symmetry. apply PUTU32_lxor.
Qed.

Lemma step_start Nk i a b : (Nk <> 0)%nat -> is_word b -> (i < 10)%nat ->
  step_word Nk (Nk * i + Nk) (PUTU32 a) (PUTU32 b) = PUTU32 (g_rot a b i).
Proof.
  intros HN Hb Hi. unfold step_word. replace (Nk * i + Nk)%nat with (0 + S i * Nk)%nat by lia.
  rewrite Nat.Div0.mod_add, Nat.div_add, Nat.Div0.mod_0_l, Nat.Div0.div_0_l by lia. cbn [Nat.eqb Nat.add].
  now rewrite g_rot_spec.
Qed.

Lemma step_middle i a b : is_word b ->
  step_word 8 (8 * i + 4 + 8) (PUTU32 a) (PUTU32 b) = PUTU32 (g_sub a b).
Proof.
  intros Hb. unfold step_word. replace (8 * i + 4 + 8)%nat with (4 + S i * 8)%nat by lia.
  rewrite Nat.Div0.mod_add. change (4 mod 8)%nat with 4%nat. cbn [Nat.eqb Nat.ltb Nat.leb andb].
  now rewrite g_sub_spec.
Qed.

(** The remainder of an index inside a group. *)
Lemma mod_inside Nk i j : (j < Nk)%nat -> ((Nk * i + j + Nk) mod Nk = j)%nat.
Proof.
  intros H. replace (Nk * i + j + Nk)%nat with (j + S i * Nk)%nat by lia.
  rewrite Nat.Div0.mod_add. now apply Nat.mod_small.
Qed.

(** One word more: [q] holds the last [Nk] words and [z] is the word that follows. *)
Lemma expand_step Nk n pre q z : (2 <= Nk)%nat -> length q = Nk ->
  step_word Nk (length pre + Nk) (PUTU32 (hd 0 q)) (PUTU32 (last q 0)) = PUTU32 z ->
  expand Nk (S n) (map PUTU32 (pre ++ q)) = expand Nk n (map PUTU32 ((pre ++ [hd 0 q]) ++ tl q ++ [z])).
Proof.
  intros H2 L E. destruct q as [|x q]; [cbn in L; lia|]. cbn [hd tl length] in *.
  destruct (exists_last (l := q)) as (m & y & ->). { intros ->. cbn in L. lia. }
  assert (Hl : last (x :: m ++ [y]) 0 = y) by (rewrite app_comm_cons; apply last_last). rewrite Hl in E.
  rewrite !map_app. cbn [map]. rewrite !map_app. cbn [map].
  rewrite expand_window by (rewrite <- L; cbn [length]; now rewrite !length_app, length_map).
  rewrite length_map, E. f_equal. now rewrite <- (app_assoc (map PUTU32 m)).
Qed.

(** The three kinds of steps. *)
Lemma expand_start Nk n pre q i : (2 <= Nk)%nat -> length q = Nk -> length pre = (Nk * i)%nat -> (i < 10)%nat ->
  is_word (last q 0) ->
  expand Nk (S n) (map PUTU32 (pre ++ q)) =
  expand Nk n (map PUTU32 ((pre ++ [hd 0 q]) ++ tl q ++ [g_rot (hd 0 q) (last q 0) i])).
Proof. intros H2 L Lp Hi W. apply expand_step; [exact H2|exact L|]. rewrite Lp. apply step_start; [lia|exact W|exact Hi]. Qed.

Lemma expand_inside Nk n pre q i j : (2 <= Nk)%nat -> length q = Nk -> length pre = (Nk * i + j)%nat ->
  (0 < j < Nk)%nat -> (Nat.ltb 6 Nk && Nat.eqb j 4) = false ->
  expand Nk (S n) (map PUTU32 (pre ++ q)) =
  expand Nk n (map PUTU32 ((pre ++ [hd 0 q]) ++ tl q ++ [hd 0 q .^ last q 0])).
Proof.
  intros H2 L Lp Hj H6. apply expand_step; [exact H2|exact L|]. rewrite Lp.
  apply step_inside; rewrite mod_inside by lia; [lia|exact H6].
Qed.

Lemma expand_middle n pre q i : length q = 8%nat -> length pre = (8 * i + 4)%nat -> is_word (last q 0) ->
  expand 8 (S n) (map PUTU32 (pre ++ q)) =
  expand 8 n (map PUTU32 ((pre ++ [hd 0 q]) ++ tl q ++ [g_sub (hd 0 q) (last q 0)])).
Proof. intros L Lp W. apply expand_step; [lia|exact L|]. rewrite Lp. apply step_middle, W. Qed.

Ltac lengths := rewrite ?length_app; cbn [length]; lia.
Ltac group_start i := rewrite (expand_start _ _ _ _ i); [cbn [hd tl last app]|lia|reflexivity|lengths|lia|assumption].
Ltac group_step i j :=
  rewrite (expand_inside _ _ _ _ i j); [cbn [hd tl last app]|lia|reflexivity|lengths|lia|reflexivity].
Ltac words_list := repeat (apply Forall_cons; [assumption|]); first [apply Forall_nil|assumption].
Ltac each_word W := repeat match type of W with Forall _ (_ :: _) =>
  let W' := fresh in inversion_clear W as [|? ? ? W']; rename W' into W end.

Ltac group_middle i := rewrite (expand_middle _ _ _ i); [cbn [hd tl last app]|reflexivity|lengths|assumption].
Ltac flat := repeat (rewrite <- app_assoc; cbn [app]); cbn [app].
Ltac flat_in E := repeat (rewrite <- app_assoc in E; cbn [app] in E); cbn [app] in E.

(** The loops, a pass at a time. *)
Lemma setup192_S n i r0 r1 r2 r3 r4 r5 : setup192 (S n) i r0 r1 r2 r3 r4 r5 =
  let r6 := g_rot r0 r5 i in let r7 := r1 .^ r6 in let r8 := r2 .^ r7 in let r9 := r3 .^ r8 in
  let r10 := r4 .^ r9 in let r11 := r5 .^ r10 in
  [r6; r7; r8; r9] ++ match n with O => [] | S _ => [r10; r11] ++ setup192 n (S i) r6 r7 r8 r9 r10 r11 end.
Proof. destruct n; reflexivity. Qed.

Lemma setup256_S n i r0 r1 r2 r3 r4 r5 r6 r7 : setup256 (S n) i r0 r1 r2 r3 r4 r5 r6 r7 =
  let r8 := g_rot r0 r7 i in let r9 := r1 .^ r8 in let r10 := r2 .^ r9 in let r11 := r3 .^ r10 in
  let r12 := g_sub r4 r11 in let r13 := r5 .^ r12 in let r14 := r6 .^ r13 in let r15 := r7 .^ r14 in
  [r8; r9; r10; r11] ++
  match n with O => [] | S _ => [r12; r13; r14; r15] ++ setup256 n (S i) r8 r9 r10 r11 r12 r13 r14 r15 end.
Proof. destruct n; reflexivity. Qed.

Lemma setup128_expand n : forall i pre r0 r1 r2 r3, length pre = (4 * i)%nat -> (i + n <= 10)%nat ->
  words [r0; r1; r2; r3] ->
  expand 4 (4 * n) (map PUTU32 (pre ++ [r0; r1; r2; r3])) =
    map PUTU32 (pre ++ [r0; r1; r2; r3] ++ setup128 n i r0 r1 r2 r3) /\
  words (setup128 n i r0 r1 r2 r3) /\ length (setup128 n i r0 r1 r2 r3) = (4 * n)%nat.
Proof.
  induction n as [|n IH]; intros i pre r0 r1 r2 r3 L Hi W.
  { cbn [setup128]. rewrite app_nil_r. repeat split. constructor. }
  cbn [setup128]. set (r4 := g_rot r0 r3 i). set (r5 := r1 .^ r4). set (r6 := r2 .^ r5). set (r7 := r3 .^ r6).
  each_word W.
  assert (is_word r4) by now apply g_rot_word. assert (is_word r5) by now apply word_lxor.
  assert (is_word r6) by now apply word_lxor. assert (is_word r7) by now apply word_lxor.
  destruct (IH (S i) (pre ++ [r0; r1; r2; r3]) r4 r5 r6 r7) as (E & WI & LI);
    [lengths|lia|words_list|].
  replace (4 * S n)%nat with (S (S (S (S (4 * n))))) by lia.
  group_start i. fold r4. group_step i 1%nat. fold r5. group_step i 2%nat. fold r6. group_step i 3%nat. fold r7.
  flat. flat_in E. rewrite E. split; [reflexivity|]. split; [words_list|cbn [length]; lia].
Qed.

Lemma setup192_expand n : forall i pre r0 r1 r2 r3 r4 r5, length pre = (6 * i)%nat -> (i + n <= 9)%nat ->
  words [r0; r1; r2; r3; r4; r5] ->
  expand 6 (6 * n + 4) (map PUTU32 (pre ++ [r0; r1; r2; r3; r4; r5])) =
    map PUTU32 (pre ++ [r0; r1; r2; r3; r4; r5] ++ setup192 (S n) i r0 r1 r2 r3 r4 r5) /\
  words (setup192 (S n) i r0 r1 r2 r3 r4 r5) /\
  length (setup192 (S n) i r0 r1 r2 r3 r4 r5) = (6 * n + 4)%nat.
Proof.
  induction n as [|n IH]; intros i pre r0 r1 r2 r3 r4 r5 L Hi W.
  all: rewrite setup192_S; set (r6 := g_rot r0 r5 i); set (r7 := r1 .^ r6); set (r8 := r2 .^ r7); set (r9 := r3 .^ r8).
  all: each_word W; assert (is_word r6) by (now apply g_rot_word); assert (is_word r7) by (now apply word_lxor);
    assert (is_word r8) by (now apply word_lxor); assert (is_word r9) by now apply word_lxor.
  - change (6 * 0 + 4)%nat with 4%nat.
    group_start i. fold r6. group_step i 1%nat. fold r7. group_step i 2%nat. fold r8. group_step i 3%nat. fold r9.
    flat. split; [reflexivity|]. split; [words_list|reflexivity].
  - set (r10 := r4 .^ r9). set (r11 := r5 .^ r10).
    assert (is_word r10) by now apply word_lxor. assert (is_word r11) by now apply word_lxor.
    destruct (IH (S i) (pre ++ [r0; r1; r2; r3; r4; r5]) r6 r7 r8 r9 r10 r11) as (E & WI & LI);
      [lengths|lia|words_list|].
    replace (6 * S n + 4)%nat with (S (S (S (S (S (S (6 * n + 4))))))) by lia.
    group_start i. fold r6. group_step i 1%nat. fold r7. group_step i 2%nat. fold r8. group_step i 3%nat. fold r9.
    group_step i 4%nat. fold r10. group_step i 5%nat. fold r11.
    flat. flat_in E. rewrite E. split; [reflexivity|]. split; [words_list|cbn [length]; lia].
Qed.

Lemma setup256_expand n : forall i pre r0 r1 r2 r3 r4 r5 r6 r7, length pre = (8 * i)%nat -> (i + n <= 9)%nat ->
  words [r0; r1; r2; r3; r4; r5; r6; r7] ->
  expand 8 (8 * n + 4) (map PUTU32 (pre ++ [r0; r1; r2; r3; r4; r5; r6; r7])) =
    map PUTU32 (pre ++ [r0; r1; r2; r3; r4; r5; r6; r7] ++ setup256 (S n) i r0 r1 r2 r3 r4 r5 r6 r7) /\
  words (setup256 (S n) i r0 r1 r2 r3 r4 r5 r6 r7) /\
  length (setup256 (S n) i r0 r1 r2 r3 r4 r5 r6 r7) = (8 * n + 4)%nat.
Proof.
  induction n as [|n IH]; intros i pre r0 r1 r2 r3 r4 r5 r6 r7 L Hi W.
  all: rewrite setup256_S; set (r8 := g_rot r0 r7 i); set (r9 := r1 .^ r8); set (r10 := r2 .^ r9); set (r11 := r3 .^ r10).
  all: each_word W; assert (is_word r8) by (now apply g_rot_word); assert (is_word r9) by (now apply word_lxor);
    assert (is_word r10) by (now apply word_lxor); assert (is_word r11) by now apply word_lxor.
  - change (8 * 0 + 4)%nat with 4%nat.
    group_start i. fold r8. group_step i 1%nat. fold r9. group_step i 2%nat. fold r10. group_step i 3%nat. fold r11.
    flat. split; [reflexivity|]. split; [words_list|reflexivity].
  - set (r12 := g_sub r4 r11). set (r13 := r5 .^ r12). set (r14 := r6 .^ r13). set (r15 := r7 .^ r14).
    assert (is_word r12) by now apply g_sub_word. assert (is_word r13) by now apply word_lxor.
    assert (is_word r14) by now apply word_lxor. assert (is_word r15) by now apply word_lxor.
    destruct (IH (S i) (pre ++ [r0; r1; r2; r3; r4; r5; r6; r7]) r8 r9 r10 r11 r12 r13 r14 r15) as (E & WI & LI);
      [lengths|lia|words_list|].
    replace (8 * S n + 4)%nat with (S (S (S (S (S (S (S (S (8 * n + 4))))))))) by lia.
    group_start i. fold r8. group_step i 1%nat. fold r9. group_step i 2%nat. fold r10. group_step i 3%nat. fold r11.
    group_middle i. fold r12. group_step i 5%nat. fold r13. group_step i 6%nat. fold r14. group_step i 7%nat. fold r15.
    flat. flat_in E. rewrite E. split; [reflexivity|]. split; [words_list|cbn [length]; lia].
Qed.

(** The words of the key. *)
Lemma key_words_map n : forall key, key_words n key = map (fun i => firstn 4 (skipn (4 * i) key)) (seq 0 n).
Proof.
  induction n as [|n IH]; intros key; [reflexivity|].
  cbn [key_words seq map]. change (skipn (4 * 0) key) with key. f_equal.
  rewrite IH, <- seq_shift, map_map. apply map_ext. intros i. rewrite skipn_skipn. do 2 f_equal. lia.
Qed.

Definition key_word (key : list Z) (i : nat) : Z := GETU32 (skipn (4 * i) key).

Lemma key_words_GETU32 n key : bytes key -> (4 * n <= length key)%nat ->
  key_words n key = map PUTU32 (map (key_word key) (seq 0 n)) /\ words (map (key_word key) (seq 0 n)).
Proof.
  intros H L.
  assert (G : forall i, (i < n)%nat ->
    PUTU32 (key_word key i) = firstn 4 (skipn (4 * i) key) /\ is_word (key_word key i)).
  { intros i Hi. destruct (GETU32_be (skipn (4 * i) key)) as (_ & P & W);
      [auto with words|rewrite length_skipn; lia|auto]. }
  split.
  - rewrite key_words_map, map_map. apply map_ext_in. intros i Hi. apply in_seq in Hi. symmetry. apply G. lia.
  - apply Forall_map, Forall_forall. intros i Hi. apply in_seq in Hi. apply G. lia.
Qed.

(** The sizes of keys, in bits and in words. *)
Definition key_size (keybits : Z) (Nk : nat) : Prop :=
  (keybits = 128 /\ Nk = 4%nat) \/ (keybits = 192 /\ Nk = 6%nat) \/ (keybits = 256 /\ Nk = 8%nat).

Lemma setup_128 key : rijndaelSetupEncrypt key 128 =
  ([key_word key 0; key_word key 1; key_word key 2; key_word key 3] ++
   setup128 10 0 (key_word key 0) (key_word key 1) (key_word key 2) (key_word key 3), 10%nat).
Proof. reflexivity. Qed.

Lemma setup_192 key : rijndaelSetupEncrypt key 192 =
  ([key_word key 0; key_word key 1; key_word key 2; key_word key 3; key_word key 4; key_word key 5] ++
   setup192 8 0 (key_word key 0) (key_word key 1) (key_word key 2) (key_word key 3) (key_word key 4) (key_word key 5),
   12%nat).
Proof. reflexivity. Qed.

Lemma setup_256 key : rijndaelSetupEncrypt key 256 =
  ([key_word key 0; key_word key 1; key_word key 2; key_word key 3;
    key_word key 4; key_word key 5; key_word key 6; key_word key 7] ++
   setup256 7 0 (key_word key 0) (key_word key 1) (key_word key 2) (key_word key 3)
     (key_word key 4) (key_word key 5) (key_word key 6) (key_word key 7), 14%nat).
Proof. reflexivity. Qed.

#[local] Strategy 1000 [setup128 setup192 setup256 g_rot g_sub GETU32 expand].

Lemma rijndaelSetupEncrypt_spec key keybits Nk : key_size keybits Nk -> bytes key -> (4 * Nk <= length key)%nat ->
  snd (rijndaelSetupEncrypt key keybits) = (Nk + 6)%nat /\
  map PUTU32 (fst (rijndaelSetupEncrypt key keybits)) = KeyExpansion Nk (Nk + 6) key /\
  words (fst (rijndaelSetupEncrypt key keybits)) /\
  length (fst (rijndaelSetupEncrypt key keybits)) = (4 * (Nk + 7))%nat.
Proof.
  intros HK B L. destruct (key_words_GETU32 Nk key B L) as [E W]. unfold KeyExpansion. rewrite E.
  destruct HK as [[-> ->]|[[-> ->]|[-> ->]]]; cbn [seq map] in W |- *.
  - destruct (setup128_expand 10 0 [] (key_word key 0) (key_word key 1) (key_word key 2) (key_word key 3)
      eq_refl ltac:(lia) W) as (X & Y & Z). rewrite setup_128. cbn [fst snd].
    splits; [reflexivity|symmetry; exact X|apply Forall_app; split; [exact W|exact Y]|].
    rewrite length_app, Z. reflexivity.
  - destruct (setup192_expand 7 0 [] (key_word key 0) (key_word key 1) (key_word key 2) (key_word key 3)
      (key_word key 4) (key_word key 5) eq_refl ltac:(lia) W) as (X & Y & Z). rewrite setup_192. cbn [fst snd].
    splits; [reflexivity|symmetry; exact X|apply Forall_app; split; [exact W|exact Y]|].
    rewrite length_app, Z. reflexivity.
  - destruct (setup256_expand 6 0 [] (key_word key 0) (key_word key 1) (key_word key 2) (key_word key 3)
      (key_word key 4) (key_word key 5) (key_word key 6) (key_word key 7) eq_refl ltac:(lia) W) as (X & Y & Z).
    rewrite setup_256. cbn [fst snd].
    splits; [reflexivity|symmetry; exact X|apply Forall_app; split; [exact W|exact Y]|].
    rewrite length_app, Z. reflexivity.
Qed.

(** Claim C12: for each of the three sizes of keys, [rijndaelEncrypt] with the schedule that
    [rijndaelSetupEncrypt] computes is the cipher of FIPS 197: the schedule is the
    standard's key expansion, its number of rounds is the number of words of the key plus
    six, and the table lookups are the standard's transformations. *)
Theorem rijndaelEncrypt_is_AES key keybits Nk p : key_size keybits Nk ->
  bytes key -> (4 * Nk <= length key)%nat -> bytes p -> length p = 16%nat ->
  let (rk, nrounds) := rijndaelSetupEncrypt key keybits in
  nrounds = (Nk + 6)%nat /\ map PUTU32 rk = KeyExpansion Nk nrounds key /\
  rijndaelEncrypt rk nrounds p = Cipher nrounds (KeyExpansion Nk nrounds key) p.
Proof.
  intros HK B L Bp Lp. destruct (rijndaelSetupEncrypt_spec key keybits Nk HK B L) as (En & Ek & W & Lk).
  destruct (rijndaelSetupEncrypt key keybits) as [rk n]. cbn [fst snd] in *. subst n.
  split; [reflexivity|]. split; [exact Ek|]. rewrite <- Ek. apply encrypt_Cipher; auto.
  - unfold valid_rounds. destruct HK as [[_ ->]|[[_ ->]|[_ ->]]]; auto.
  - rewrite Lk. lia.
Qed.

Lemma rijndaelEncrypt_is_AES_witness :
  let key := map Z.of_nat (seq 0 24) in
  let p := [0x00;0x11;0x22;0x33;0x44;0x55;0x66;0x77;0x88;0x99;0xaa;0xbb;0xcc;0xdd;0xee;0xff] in
  let (rk, nrounds) := rijndaelSetupEncrypt key 192 in
  nrounds = 12%nat /\ map PUTU32 rk = KeyExpansion 6 nrounds key /\
  rijndaelEncrypt rk nrounds p = Cipher nrounds (KeyExpansion 6 nrounds key) p.
Proof.
  apply (rijndaelEncrypt_is_AES (map Z.of_nat (seq 0 24)) 192 6); [right; left; auto|..].
  - apply bytes_check. reflexivity.
  - cbn. lia.
  - apply bytes_check. reflexivity.
  - reflexivity.
Defined.
