(* ===== verification/AESInverse.v ===== *)
(** * AESInverse: decryption undoes encryption

    The transformations of a round have inverses, and mixing the columns is linear, so
    that the rounds of [rijndaelDecrypt], with round keys mixed by [rijndaelSetupDecrypt],
    walk back through the states of the encryption. *)

From S2P Require Import Prelude Fips197 Rijndael AESCipher AESKeys.

(** ** The field *)

Lemma lxor_swap a b c d : (a .^ b) .^ (c .^ d) = (a .^ c) .^ (b .^ d).
Proof. rewrite !Z.lxor_assoc. f_equal. now rewrite <- !Z.lxor_assoc, (Z.lxor_comm b c). Qed.

Lemma lxor_swap3 a b c a' b' c' : (a .^ a') .^ (b .^ b') .^ (c .^ c') = (a .^ b .^ c) .^ (a' .^ b' .^ c').
Proof. rewrite (lxor_swap a a'). apply lxor_swap. Qed.

Lemma lxor_swap4 a b c d a' b' c' d' :
  (a .^ a') .^ (b .^ b') .^ (c .^ c') .^ (d .^ d') = (a .^ b .^ c .^ d) .^ (a' .^ b' .^ c' .^ d').
Proof. rewrite (lxor_swap3 a b c). apply lxor_swap. Qed.

Lemma xtime_lxor a b : xtime (a .^ b) = xtime a .^ xtime b.
Proof.
  unfold xtime. rewrite Z.shiftl_lxor, Z.lxor_spec, lxor_swap. f_equal.
  destruct (Z.testbit a 7), (Z.testbit b 7); reflexivity.
Qed.

Lemma gmul9_lxor a b : gmul9 (a .^ b) = gmul9 a .^ gmul9 b.
Proof. unfold gmul9. rewrite !xtime_lxor. apply lxor_swap. Qed.
Lemma gmul11_lxor a b : gmul11 (a .^ b) = gmul11 a .^ gmul11 b.
Proof. unfold gmul11. rewrite !xtime_lxor. apply lxor_swap3. Qed.
Lemma gmul13_lxor a b : gmul13 (a .^ b) = gmul13 a .^ gmul13 b.
Proof. unfold gmul13. rewrite !xtime_lxor. apply lxor_swap3. Qed.
Lemma gmul14_lxor a b : gmul14 (a .^ b) = gmul14 a .^ gmul14 b.
Proof. unfold gmul14. rewrite !xtime_lxor. apply lxor_swap3. Qed.

(** ** Columns *)

Lemma InvMixColumn_xor a b : length a = 4%nat -> length b = 4%nat ->
  InvMixColumn (xor_list a b) = xor_list (InvMixColumn a) (InvMixColumn b).
Proof.
  intros La Lb.
  destruct a as [|a0 [|a1 [|a2 [|a3 [|]]]]]; try discriminate La.
  destruct b as [|b0 [|b1 [|b2 [|b3 [|]]]]]; try discriminate Lb.
  cbn [xor_list InvMixColumn].
  rewrite !gmul9_lxor, !gmul11_lxor, !gmul13_lxor, !gmul14_lxor, !lxor_swap4. reflexivity.
Qed.

(** What one byte of a column contributes. *)
Definition mix_at (i : nat) (x : Z) : list Z :=
  match i with
  | O => [xtime x; x; x; gmul3 x]
  | 1%nat => [gmul3 x; xtime x; x; x]
  | 2%nat => [x; gmul3 x; xtime x; x]
  | _ => [x; x; gmul3 x; xtime x]
  end.

Lemma MixColumn_sum a0 a1 a2 a3 : MixColumn [a0; a1; a2; a3] =
  xor_list (xor_list (xor_list (mix_at 0 a0) (mix_at 1 a1)) (mix_at 2 a2)) (mix_at 3 a3).
Proof. reflexivity. Qed.

Lemma InvMixColumn_at x : is_byte x ->
  InvMixColumn (mix_at 0 x) = [x; 0; 0; 0] /\ InvMixColumn (mix_at 1 x) = [0; x; 0; 0] /\
  InvMixColumn (mix_at 2 x) = [0; 0; x; 0] /\ InvMixColumn (mix_at 3 x) = [0; 0; 0; x].
Proof.
  intros H. splits; revert x H.
  - each_byte (fun x => InvMixColumn (mix_at 0 x)) (fun x => [x; 0; 0; 0]).
  - each_byte (fun x => InvMixColumn (mix_at 1 x)) (fun x => [0; x; 0; 0]).
  - each_byte (fun x => InvMixColumn (mix_at 2 x)) (fun x => [0; 0; x; 0]).
  - each_byte (fun x => InvMixColumn (mix_at 3 x)) (fun x => [0; 0; 0; x]).
Qed.

Lemma InvMixColumn_MixColumn c : bytes c -> length c = 4%nat -> InvMixColumn (MixColumn c) = c.
Proof.
  intros H L. destruct c as [|a0 [|a1 [|a2 [|a3 [|]]]]]; try discriminate L.
  inversion_clear H as [|? ? H0 H']; inversion_clear H' as [|? ? H1 H'']; inversion_clear H'' as [|? ? H2 H'];
    inversion_clear H' as [|? ? H3 _].
  rewrite MixColumn_sum, !InvMixColumn_xor by reflexivity.
  rewrite (proj1 (InvMixColumn_at a0 H0)), (proj1 (proj2 (InvMixColumn_at a1 H1))),
    (proj1 (proj2 (proj2 (InvMixColumn_at a2 H2)))), (proj2 (proj2 (proj2 (InvMixColumn_at a3 H3)))).
  cbn [xor_list]. rewrite !Z.lxor_0_r, !Z.lxor_0_l. reflexivity.
Qed.

Lemma xtime_byte x : is_byte x -> is_byte (xtime x).
Proof.
  intros H. apply is_byteb_spec. 
  apply (by_bytes (fun x => is_byteb (xtime x))); [vm_compute; reflexivity|exact H].
Qed.

Lemma gmul3_byte x : is_byte x -> is_byte (gmul3 x).
Proof. intros H. apply byte_lxor; [now apply xtime_byte|exact H]. Qed.

Lemma MixColumn_bytes c : bytes c -> bytes (MixColumn c).
Proof.
  intros H. destruct c as [|a0 [|a1 [|a2 [|a3 [|]]]]]; try exact H.
  inversion_clear H as [|? ? H0 H']; inversion_clear H' as [|? ? H1 H'']; inversion_clear H'' as [|? ? H2 H'];
    inversion_clear H' as [|? ? H3 _].
  cbn [MixColumn]. repeat apply Forall_cons; try apply Forall_nil; auto 9 using byte_lxor, xtime_byte, gmul3_byte.
Qed.

(** ** States *)

Definition state16 (s : list Z) : Prop := bytes s /\ length s = 16%nat.

Lemma four_columns (s : list Z) : length s = 16%nat -> exists a b c d, s = a ++ b ++ c ++ d /\
  length a = 4%nat /\ length b = 4%nat /\ length c = 4%nat /\ length d = 4%nat.
Proof.
  intros L. exists (firstn 4 s), (firstn 4 (skipn 4 s)), (firstn 4 (skipn 8 s)), (skipn 12 s).
  splits; rewrite ?length_firstn, ?length_skipn, ?L; try reflexivity.
  do 16 (destruct s as [|? s]; [discriminate L|]). destruct s; [reflexivity|discriminate L].
Qed.

Lemma columns_inverse f g s : (forall c, bytes c -> length c = 4%nat -> g (f c) = c) ->
  (forall c, length (f c) = length c) -> state16 s -> columns 4 g (columns 4 f s) = s.
Proof.
  intros I Lf [B L]. destruct (four_columns s L) as (a & b & c & d & -> & La & Lb & Lc & Ld).
  rewrite !Forall_app in B. destruct B as (Ba & Bb & Bc & Bd).
  rewrite !columns_cells by now rewrite ?Lf. now rewrite !I.
Qed.

Lemma InvMixColumns_MixColumns s : state16 s -> InvMixColumns (MixColumns s) = s.
Proof.
  apply columns_inverse; [exact InvMixColumn_MixColumn|exact length_MixColumn].
Qed.

Lemma xor_list_columns (a b : list Z) : length a = 16%nat -> length b = 16%nat ->
  InvMixColumns (xor_list a b) = xor_list (InvMixColumns a) (InvMixColumns b).
Proof.
  intros La Lb.
  destruct (four_columns a La) as (a0 & a1 & a2 & a3 & -> & ? & ? & ? & ?).
  destruct (four_columns b Lb) as (b0 & b1 & b2 & b3 & -> & ? & ? & ? & ?).
  unfold InvMixColumns. rewrite !xor_list_app by congruence.
  rewrite !columns_cells by (first [assumption|rewrite length_xor_list; congruence]).
  rewrite !InvMixColumn_xor by assumption. now rewrite !xor_list_app by (rewrite !length_InvMixColumn; congruence).
Qed.

Lemma Forall_columns (P : Z -> Prop) f s : (forall c, Forall P c -> Forall P (f c)) -> Forall P s ->
  forall n, Forall P (columns n f s).
Proof.
  intros H Hs n. revert s Hs. induction n as [|n IH]; intros s Hs; cbn [columns]; [exact Hs|].
  apply Forall_app. split; [apply H, Forall_firstn, Hs|apply IH, Forall_skipn, Hs].
Qed.

Lemma SubShift_state s : state16 s -> state16 (ShiftRows (SubBytes s)).
Proof.
  intros [B L]. split; [|reflexivity]. apply Forall_map, Forall_forall. intros i _.
  apply Forall_nth_d; [|unfold is_byte; lia]. apply Forall_map. revert B. apply Forall_impl. exact sbox_byte.
Qed.

Lemma MixColumns_state s : state16 s -> state16 (MixColumns s).
Proof.
  intros [B L]. split; [apply Forall_columns; [exact MixColumn_bytes|exact B]|].
  destruct (four_columns s L) as (a & b & c & d & -> & La & Lb & Lc & Ld).
  unfold MixColumns. rewrite columns_cells by assumption.
  rewrite !length_app, !length_MixColumn, La, Lb, Lc, Ld. reflexivity.
Qed.

Lemma AddRoundKey_state s k : state16 s -> state16 k -> state16 (AddRoundKey s k).
Proof.
  intros [B L] [Bk Lk]. split; [now apply xor_list_bytes|]. unfold AddRoundKey. rewrite length_xor_list; congruence.
Qed.

Lemma InvSubShift_SubShift s : state16 s -> InvShiftRows (InvSubBytes (ShiftRows (SubBytes s))) = s.
Proof.
  intros [B L]. assert (E : InvShiftRows (InvSubBytes (ShiftRows (SubBytes s))) = map (fun x => inv_sbox (sbox x)) s).
  { clear B. do 16 (destruct s as [|? s]; [discriminate L|]). destruct s; [reflexivity|discriminate L]. }
  rewrite E. rewrite <- (map_id s) at 2. apply map_ext_in. intros x Hx. apply inv_sbox_sbox.
  rewrite Forall_forall in B. now apply B.
Qed.

Lemma key_bytes_state rk r : state16 (key_bytes rk r).
Proof. split; [unfold key_bytes; rewrite !Forall_app; repeat split; apply PUTU32_bytes|reflexivity]. Qed.

(** ** The rounds walk back *)

(** The state after [r] rounds of the encryption. *)
Definition enc_state (rk : list Z) (p : list Z) (r : nat) : list Z :=
  fold_left (fun s r => Round s (key_bytes rk r)) (seq 1 r) (AddRoundKey p (key_bytes rk 0)).

Lemma enc_state_S rk p r : enc_state rk p (S r) = Round (enc_state rk p r) (key_bytes rk (S r)).
Proof. unfold enc_state. rewrite seq_S, fold_left_app. reflexivity. Qed.

Lemma enc_state_16 rk p r : state16 p -> state16 (enc_state rk p r).
Proof.
  intros H. induction r as [|r IH]; [apply AddRoundKey_state; [exact H|apply key_bytes_state]|].
  rewrite enc_state_S. apply AddRoundKey_state; [|apply key_bytes_state].
  now apply MixColumns_state, SubShift_state.
Qed.

(** The schedule of the decryption, from the one of the encryption. *)
Definition mixed_schedule (rk dk : list Z) (n : nat) : Prop :=
  key_bytes dk 0 = key_bytes rk n /\ key_bytes dk n = key_bytes rk 0 /\
  forall j, (0 < j < n)%nat -> key_bytes dk j = InvMixColumns (key_bytes rk (n - j)).

Lemma InvRound_back rk dk n p j : mixed_schedule rk dk n -> state16 p -> (0 < j < n)%nat ->
  InvRound (ShiftRows (SubBytes (enc_state rk p (n - j)))) (key_bytes dk j) =
  ShiftRows (SubBytes (enc_state rk p (n - S j))).
Proof.
  intros (_ & _ & M) Hp Hj. unfold InvRound. rewrite InvSubShift_SubShift by now apply enc_state_16.
  rewrite M by exact Hj. replace (n - j)%nat with (S (n - S j)) by lia. rewrite enc_state_S. unfold Round, AddRoundKey.
  set (x := ShiftRows (SubBytes (enc_state rk p (n - S j)))).
  assert (Hx : state16 x) by now apply SubShift_state, enc_state_16.
  pose proof (MixColumns_state x Hx) as [_ Lx]. pose proof (key_bytes_state rk (S (n - S j))) as [_ Lk].
  rewrite <- xor_list_columns by (rewrite ?length_xor_list; congruence).
  rewrite xor_list_cancel by congruence. now apply InvMixColumns_MixColumns.
Qed.

Lemma rounds_back rk dk n p j : mixed_schedule rk dk n -> state16 p -> (j < n)%nat ->
  fold_left (fun s r => InvRound s (key_bytes dk r)) (seq 1 j) (ShiftRows (SubBytes (enc_state rk p (n - 1)))) =
  ShiftRows (SubBytes (enc_state rk p (n - S j))).
Proof.
  intros M Hp. induction j as [|j IH]; intros Hj; [reflexivity|].
  rewrite seq_S, fold_left_app, IH by lia. cbn [fold_left]. apply (InvRound_back rk dk n p (S j) M Hp). lia.
Qed.

Lemma decrypt_encrypt rk dk n p : valid_rounds n -> words rk -> words dk -> length rk = (4 * (n + 1))%nat ->
  mixed_schedule rk dk n -> bytes p -> length p = 16%nat ->
  rijndaelDecrypt dk n (rijndaelEncrypt rk n p) = p.
Proof.
  intros Hn Wr Wd L M Bp Lp. assert (Hp : state16 p) by now split.
  assert (H0 : (0 < n)%nat) by (destruct Hn as [->|[->| ->]]; lia).
  assert (E : rijndaelEncrypt rk n p =
    AddRoundKey (ShiftRows (SubBytes (enc_state rk p (n - 1)))) (key_bytes rk n)).
  { rewrite encrypt_Cipher by assumption. unfold Cipher. rewrite !round_key_bytes by lia.
    do 3 f_equal. apply fold_left_ext. intros s r Hr. apply in_seq in Hr. now rewrite round_key_bytes by lia. }
  assert (Hs : state16 (ShiftRows (SubBytes (enc_state rk p (n - 1))))) by now apply SubShift_state, enc_state_16.
  rewrite E. destruct (AddRoundKey_state _ _ Hs (key_bytes_state rk n)) as [Bc Lc].
  rewrite decrypt_bytes by assumption. unfold Cipher_of_decrypt. pose proof M as (M0 & Mn & _).
  rewrite M0, Mn. unfold AddRoundKey at 2 3. rewrite xor_list_cancel by (destruct Hs, (key_bytes_state rk n); congruence).
  rewrite (rounds_back rk dk n p (n - 1) M Hp) by lia. replace (n - S (n - 1))%nat with 0%nat by lia.
  rewrite InvSubShift_SubShift by now apply enc_state_16.
  unfold enc_state. cbn [seq fold_left]. unfold AddRoundKey. apply xor_list_cancel.
  destruct (key_bytes_state rk 0). congruence.
Qed.

(** ** The schedule of the decryption *)

Lemma inv_mix_spec w : is_word w -> PUTU32 (inv_mix w) = InvMixColumn (PUTU32 w).
Proof.
  intros H. unfold inv_mix. rewrite !land_255, (top_byte w H), !Te4_low by apply w8_byte.
  assert (S : forall x, is_byte x -> is_byte (sbox x)) by exact sbox_byte.
  rewrite !PUTU32_lxor, Td0_spec, Td1_spec, Td2_spec, Td3_spec by apply S, w8_byte.
  cbv zeta. rewrite !inv_sbox_sbox by apply w8_byte. reflexivity.
Qed.

Lemma inv_mix_word w : is_word (inv_mix w).
Proof. unfold inv_mix. repeat apply word_lxor; apply table_word; reflexivity. Qed.

Lemma inv_mix_keys_spec n : forall l, inv_mix_keys n l = map inv_mix (firstn (4 * n) l) ++ skipn (4 * n) l.
Proof.
  induction n as [|n IH]; intros l; [reflexivity|]. cbn [inv_mix_keys].
  replace (4 * S n)%nat with (4 + 4 * n)%nat by lia.
  rewrite IH.
  assert (F : firstn (4 + 4 * n) l = firstn 4 l ++ firstn (4 * n) (skipn 4 l)).
  { destruct l as [|? [|? [|? [|? l]]]]; cbn; rewrite ?firstn_nil; reflexivity. }
  now rewrite F, map_app, <- app_assoc, skipn_skipn, (Nat.add_comm 4 (4 * n)).
Qed.

(** Swapping commutes with reading the words through a list of indices. *)
Lemma upd_map {A B} (f : A -> B) l i x : upd (map f l) i (f x) = map f (upd l i x).
Proof. revert i; induction l as [|y l IH]; intros [|i]; cbn [map upd]; try reflexivity. now rewrite IH. Qed.

Lemma nth_map_in {A B} (f : A -> B) l i d d' : (i < length l)%nat -> nth i (map f l) d = f (nth i l d').
Proof. revert i; induction l as [|y l IH]; intros [|i] H; cbn in *; try lia; [reflexivity|]. apply IH. lia. Qed.

Lemma swap_map f l i j : (i < length l)%nat -> (j < length l)%nat -> swap (map f l) i j = map f (swap l i j).
Proof. intros Hi Hj. unfold swap. now rewrite !(nth_map_in f l _ 0 0), !upd_map by assumption. Qed.

Lemma length_swap l i j : length (swap l i j) = length l.
Proof. unfold swap. now rewrite !length_upd. Qed.

Lemma invert_map fuel f : forall l i j, (j + 4 <= length l)%nat ->
  invert fuel (map f l) i j = map f (invert fuel l i j).
Proof.
  induction fuel as [|k IH]; intros l i j H; [reflexivity|]. cbn [invert].
  destruct (Nat.ltb_spec i j) as [Hij|_]; [|reflexivity].
  rewrite (swap_map f l i j) by lia.
  rewrite (swap_map f (swap l i j)) by (rewrite ?length_swap; lia).
  rewrite (swap_map f (swap (swap l i j) _ _)) by (rewrite ?length_swap; lia).
  rewrite (swap_map f (swap (swap (swap l i j) _ _) _ _)) by (rewrite ?length_swap; lia).
  apply IH. rewrite !length_swap. lia.
Qed.

Lemma length_invert fuel : forall l i j, length (invert fuel l i j) = length l.
Proof.
  induction fuel as [|k IH]; intros l i j; cbn [invert]; [reflexivity|].
  destruct (Nat.ltb i j); [|reflexivity]. now rewrite IH, !length_swap.
Qed.

Definition indices (n : nat) : list Z := map Z.of_nat (seq 0 (4 * (n + 1))).

Lemma invert_indices n : valid_rounds n -> forall i, (i < 4 * (n + 1))%nat ->
  nth i (invert n (indices n) 0 (4 * n)) 0 = Z.of_nat (4 * (n - i / 4) + i mod 4).
Proof.
  intros Hn i Hi. apply Z.eqb_eq.
  assert (H : forallb (fun i => nth i (invert n (indices n) 0 (4 * n)) 0 =? Z.of_nat (4 * (n - i / 4) + i mod 4))
    (seq 0 (4 * (n + 1))) = true) by (destruct Hn as [->|[->| ->]]; vm_compute; reflexivity).
  rewrite forallb_forall in H. apply H, in_seq. lia.
Qed.

(** The round keys in the other order. *)
Lemma nth_invert n rk i : valid_rounds n -> length rk = (4 * (n + 1))%nat -> (i < 4 * (n + 1))%nat ->
  nth i (invert n rk 0 (4 * n)) 0 = nth (4 * (n - i / 4) + i mod 4) rk 0.
Proof.
  intros Hn L Hi.
  assert (E : rk = map (fun z => nth (Z.to_nat z) rk 0) (indices n)).
  { unfold indices. rewrite map_map, <- L. apply nth_ext with (d := 0) (d' := 0); [now rewrite length_map, length_seq|].
    intros k Hk. rewrite (nth_map_in _ _ k 0 0%nat) by (rewrite length_seq; lia). now rewrite seq_nth, Nat2Z.id by lia. }
  rewrite E at 1. rewrite invert_map by (unfold indices; rewrite length_map, length_seq; lia).
  rewrite (nth_map_in _ _ i 0 0) by (rewrite length_invert; unfold indices; rewrite length_map, length_seq; lia).
  now rewrite invert_indices, Nat2Z.id.
Qed.

Lemma nth_dk n R i : (0 < n)%nat -> length R = (4 * (n + 1))%nat -> (i < 4 * (n + 1))%nat ->
  nth i (firstn 4 R ++ inv_mix_keys (n - 1) (skipn 4 R)) 0 =
  if Nat.ltb i 4 || Nat.leb (4 * n) i then nth i R 0 else inv_mix (nth i R 0).
Proof.
  intros Hn L Hi. rewrite inv_mix_keys_spec.
  destruct (Nat.ltb_spec i 4) as [H4|H4]; cbn [orb].
  - rewrite app_nth1 by (rewrite length_firstn; lia). rewrite nth_firstn. now destruct (Nat.ltb_spec i 4); [|lia].
  - rewrite app_nth2 by (rewrite length_firstn; lia). rewrite length_firstn, L, Nat.min_l by lia.
    assert (Lm : length (map inv_mix (firstn (4 * (n - 1)) (skipn 4 R))) = (4 * (n - 1))%nat)
      by (rewrite length_map, length_firstn, length_skipn; lia).
    destruct (Nat.leb_spec (4 * n) i) as [Hl|Hl].
    + rewrite app_nth2 by lia. rewrite Lm, skipn_skipn, nth_skipn. f_equal. lia.
    + rewrite app_nth1 by lia.
      rewrite (nth_map_in _ _ _ 0 0) by (rewrite length_firstn, length_skipn; lia).
      rewrite nth_firstn. destruct (Nat.ltb_spec (i - 4) (4 * (n - 1))); [|lia]. rewrite nth_skipn. do 2 f_equal. lia.
Qed.

(** [rijndaelSetupDecrypt] from the schedule [rk] of [rijndaelSetupEncrypt]. *)
Definition decrypt_schedule (n : nat) (rk : list Z) : list Z :=
  let R := invert n rk 0 (4 * n) in firstn 4 R ++ inv_mix_keys (n - 1) (skipn 4 R).

Lemma rijndaelSetupDecrypt_eq key keybits :
  rijndaelSetupDecrypt key keybits =
  (decrypt_schedule (snd (rijndaelSetupEncrypt key keybits)) (fst (rijndaelSetupEncrypt key keybits)),
   snd (rijndaelSetupEncrypt key keybits)).
Proof. unfold rijndaelSetupDecrypt. now destruct (rijndaelSetupEncrypt key keybits). Qed.

Lemma dk_word n rk j t : valid_rounds n -> length rk = (4 * (n + 1))%nat -> (j <= n)%nat -> (t < 4)%nat ->
  nth (4 * j + t) (decrypt_schedule n rk) 0 =
  if Nat.eqb j 0 || Nat.eqb j n then nth (4 * (n - j) + t) rk 0 else inv_mix (nth (4 * (n - j) + t) rk 0).
Proof.
  intros Hn L Hj Ht. assert (H0 : (0 < n)%nat) by (destruct Hn as [->|[->| ->]]; lia).
  unfold decrypt_schedule. cbv zeta.
  rewrite nth_dk by (rewrite ?length_invert; lia). rewrite nth_invert by (assumption || lia).
  replace ((4 * j + t) / 4)%nat with j by (rewrite Nat.mul_comm, Nat.div_add_l, Nat.div_small by lia; lia).
  replace ((4 * j + t) mod 4)%nat with t
    by (rewrite Nat.add_comm, Nat.mul_comm, Nat.Div0.mod_add, Nat.mod_small by lia; reflexivity).
  destruct (Nat.ltb_spec (4 * j + t) 4), (Nat.leb_spec (4 * n) (4 * j + t)), (Nat.eqb_spec j 0), (Nat.eqb_spec j n);
    cbn [orb]; try lia; reflexivity.
Qed.

Lemma schedule_words n rk : words rk -> words (decrypt_schedule n rk).
Proof.
  intros H. unfold decrypt_schedule. cbv zeta.
  assert (HR : forall f i j l, words l -> words (invert f l i j)).
  { induction f as [|f IH]; intros i j l Hl; cbn [invert]; [exact Hl|].
    destruct (Nat.ltb i j); [|exact Hl]. apply IH.
    assert (S : forall l i j, words l -> words (swap l i j))
      by (intros; unfold swap; repeat apply Forall_upd; auto using nth_word).
    now do 4 apply S. }
  specialize (HR n 0%nat (4 * n)%nat rk H). rewrite inv_mix_keys_spec. rewrite !Forall_app. splits.
  - now apply Forall_firstn.
  - apply Forall_map, Forall_forall. intros w _. apply inv_mix_word.
  - now do 2 apply Forall_skipn.
Qed.

Lemma decrypt_schedule_mixed n rk : valid_rounds n -> words rk -> length rk = (4 * (n + 1))%nat ->
  mixed_schedule rk (decrypt_schedule n rk) n.
Proof.
  intros Hn W L.
  assert (K : forall d r, key_bytes d r = PUTU32 (nth (4 * r + 0) d 0) ++ PUTU32 (nth (4 * r + 1) d 0) ++
    PUTU32 (nth (4 * r + 2) d 0) ++ PUTU32 (nth (4 * r + 3) d 0)) by (intros; now rewrite Nat.add_0_r).
  unfold mixed_schedule. splits; intros; rewrite !K, !dk_word by (assumption || lia).
  - cbn [Nat.eqb orb]. now rewrite !Nat.sub_0_r.
  - rewrite Nat.eqb_refl, orb_true_r. now rewrite Nat.sub_diag.
  - rewrite (proj2 (Nat.eqb_neq j 0)), (proj2 (Nat.eqb_neq j n)) by lia. cbn [orb].
    unfold InvMixColumns. rewrite columns_cells by reflexivity.
    now rewrite !inv_mix_spec by now apply nth_word.
Qed.

(** Claim C18: for each of the three sizes of keys, [rijndaelDecrypt] with the schedule of
    [rijndaelSetupDecrypt] (the round keys in the other order, all but the first and the
    last mixed) gives back every block of sixteen bytes that [rijndaelEncrypt] encrypted
    with the schedule of [rijndaelSetupEncrypt] for the same key, and both schedules have
    the same number of rounds. *)
Theorem rijndael_roundtrip key keybits Nk p : key_size keybits Nk ->
  bytes key -> (4 * Nk <= length key)%nat -> state16 p ->
  snd (rijndaelSetupDecrypt key keybits) = snd (rijndaelSetupEncrypt key keybits) /\
  let (rk, nrounds) := rijndaelSetupEncrypt key keybits in
  let (dk, nrounds') := rijndaelSetupDecrypt key keybits in
  rijndaelDecrypt dk nrounds' (rijndaelEncrypt rk nrounds p) = p.
Proof.
  intros HK B L [Bp Lp]. rewrite rijndaelSetupDecrypt_eq.
  destruct (rijndaelSetupEncrypt_spec key keybits Nk HK B L) as (En & Ek & W & Lk).
  destruct (rijndaelSetupEncrypt key keybits) as [rk n]. cbn [fst snd] in *. subst n.
  split; [reflexivity|].
  assert (V : valid_rounds (Nk + 6)) by (unfold valid_rounds; destruct HK as [[_ ->]|[[_ ->]|[_ ->]]]; auto).
  assert (Lr : length rk = (4 * (Nk + 6 + 1))%nat) by lia.
  apply (decrypt_encrypt rk); auto using schedule_words, decrypt_schedule_mixed.
Qed.

Lemma rijndael_roundtrip_witness :
  let key := map Z.of_nat (seq 0 32) in
  let p := [0x00;0x11;0x22;0x33;0x44;0x55;0x66;0x77;0x88;0x99;0xaa;0xbb;0xcc;0xdd;0xee;0xff] in
  snd (rijndaelSetupDecrypt key 256) = snd (rijndaelSetupEncrypt key 256) /\
  let (rk, nrounds) := rijndaelSetupEncrypt key 256 in
  let (dk, nrounds') := rijndaelSetupDecrypt key 256 in
  rijndaelDecrypt dk nrounds' (rijndaelEncrypt rk nrounds p) = p.
Proof.
  apply (rijndael_roundtrip (map Z.of_nat (seq 0 32)) 256 8); [right; right; auto|..].
  - apply bytes_check. reflexivity.
  - cbn. lia.
  - split; [apply bytes_check; reflexivity|reflexivity].
Defined.
