(* ===== verification/AES.v ===== *)
(** * AES: messages under AES (QBase/AES.cpp)

    [CAESEncode] cuts a message into blocks of sixteen bytes, pads the last one and
    encrypts them one by one; [CAESDecode] decrypts them and takes the padding off.

    A coder keeps the block of its schedule, of unknown content until the words are
    written.  [new_ulong n] and [new_uchar n] are the blocks the allocator returns, [None]
    when there is no memory; the bytes [Q_Zero] clears in the first are written again by the
    key setup. *)

From S2P Require Import Prelude StdLib Enum BufferMgr Fips197 Rijndael AESCipher AESKeys AESInverse.

Record AESCoder := {
  m_pRK : option (list Z);
  m_iRounds : nat;
  m_uacPlain : list Z;
  m_uacCipher : list Z;
  m_objBuffer : CBuffer
}.

Definition AES_BlockSize : nat := 16.
Definition Q_ERROR_ALLOCMEMORY : Z := 0x10001.

Definition RKLENGTH (keybits : Z) : Z := keybits / 8 + 28.
Definition KEYLENGTH (keybits : Z) : Z := keybits / 8.

Section AES.
Context (SZ : nat) (new_char new_uchar new_ulong : Z -> option (list Z)).

Definition asize_t (x : Z) : Z := x mod Pn SZ.

Definition set_schedule (s : AESCoder) (rk : option (list Z)) (n : nat) : AESCoder :=
  {| m_pRK := rk; m_iRounds := n; m_uacPlain := m_uacPlain s; m_uacCipher := m_uacCipher s;
     m_objBuffer := m_objBuffer s |}.
Definition set_blocks (s : AESCoder) (plain cipher : list Z) : AESCoder :=
  {| m_pRK := m_pRK s; m_iRounds := m_iRounds s; m_uacPlain := plain; m_uacCipher := cipher;
     m_objBuffer := m_objBuffer s |}.
Definition set_out (s : AESCoder) (b : CBuffer) : AESCoder :=
  {| m_pRK := m_pRK s; m_iRounds := m_iRounds s; m_uacPlain := m_uacPlain s;
     m_uacCipher := m_uacCipher s; m_objBuffer := b |}.

Definition AESCoder_new : AESCoder :=
  {| m_pRK := None; m_iRounds := 0; m_uacPlain := repeat 0 16; m_uacCipher := repeat 0 16;
     m_objBuffer := CBuffer_new new_char |}.

(** The key as the setup reads it: the string, cut or filled with zeros. *)
Definition key_block (p pszKey : list Z) (iKeyLens : nat) : list Z :=
  let p := store p (repeat 0 (iKeyLens + 1)) in
  store p (firstn (if Nat.ltb iKeyLens (strlen pszKey) then iKeyLens else strlen pszKey) pszKey).

(** [setKey] of both classes, which differ in the setup they call. *)
Definition setKey (setup : list Z -> Z -> list Z * nat) (s : AESCoder) (pszKey : list Z) (emKeyType : Z)
  : AESCoder * Z :=
  let s := set_schedule s None (m_iRounds s) in
  if emKeyType =? AESKEY_NONE then (s, Q_RTN_FAILE)
  else
    let iRKLens := RKLENGTH emKeyType in
    let iKeyLens := KEYLENGTH emKeyType in
    match new_ulong (iRKLens + 1) with
    | None => (s, Q_ERROR_ALLOCMEMORY)
    | Some rk =>
        match new_uchar (iKeyLens + 1) with
        | None => (s, Q_ERROR_ALLOCMEMORY)
        | Some p =>
            let m_pKey := key_block p pszKey (Z.to_nat iKeyLens) in
            let (w, nrounds) := setup m_pKey emKeyType in
            (set_schedule s (Some (store rk w)) nrounds, Q_RTN_OK)
        end
    end.

Definition CAESEncode_setKey := setKey rijndaelSetupEncrypt.
Definition CAESDecode_setKey := setKey rijndaelSetupDecrypt.

(** The block in [m_uacPlain] is encrypted and appended; [false] is the exception. *)
Definition encrypt_push (s : AESCoder) (rk plain : list Z) : AESCoder * bool :=
  let cipher := rijndaelEncrypt rk (m_iRounds s) plain in
  let (b, ok) := pushBuff new_char (m_objBuffer s) (Some cipher) 16 in
  (set_out (set_blocks s plain cipher) b, ok).

(** The loop over the message: [pszPlaint] is what is left from [i] on. *)
Fixpoint encode_loop (fuel : nat) (s : AESCoder) (rk pszPlaint : list Z) : AESCoder * bool :=
  match fuel, pszPlaint with
  | S f, _ :: _ =>
      let iCopyLen := if Nat.leb AES_BlockSize (length pszPlaint) then AES_BlockSize else length pszPlaint in
      let plain := store (m_uacPlain s) (firstn iCopyLen pszPlaint) in
      let fill := (AES_BlockSize - iCopyLen)%nat in
      let plain :=
        if Nat.ltb iCopyLen AES_BlockSize then
          at_ptr iCopyLen (fun a => store a (repeat (Z.of_nat fill) fill)) plain
        else plain in
      let (s, ok) := encrypt_push s rk plain in
      if ok then encode_loop f s rk (skipn AES_BlockSize pszPlaint) else (s, false)
  | _, _ => (s, true)
  end.

Definition Encode (s : AESCoder) (pszPlaint : list Z) : AESCoder * outcome :=
  let s := set_out s (reSet (m_objBuffer s)) in
  match m_pRK s with
  | None => (s, Null)
  | Some rk =>
      let bFill := Nat.eqb (length pszPlaint mod AES_BlockSize) 0 in
      let (s, ok) := encode_loop (length pszPlaint) s rk pszPlaint in
      if ok then
        let (s, ok) :=
          if bFill then encrypt_push s rk (store (m_uacPlain s) (repeat 16 16)) else (s, true) in
        if ok then (s, Lens (getLens (m_objBuffer s))) else (s, Thrown)
      else (s, Thrown)
  end.

Fixpoint decode_loop (fuel : nat) (s : AESCoder) (rk pszCipher : list Z) : AESCoder * bool :=
  match fuel, pszCipher with
  | S f, _ :: _ =>
      let cipher := store (m_uacCipher s) (firstn AES_BlockSize pszCipher) in
      let plain := rijndaelDecrypt rk (m_iRounds s) cipher in
      let (b, ok) := pushBuff new_char (m_objBuffer s) (Some plain) 16 in
      let s := set_out (set_blocks s plain cipher) b in
      if ok then decode_loop f s rk (skipn AES_BlockSize pszCipher) else (s, false)
  | _, _ => (s, true)
  end.

(** The last byte of the last block says how many bytes were added; their number is
    subtracted from the length, in a [size_t]. *)
Definition Decode (s : AESCoder) (pszCipher : list Z) : AESCoder * outcome :=
  let s := set_out s (reSet (m_objBuffer s)) in
  match m_pRK s with
  | None => (s, Null)
  | Some rk =>
      if negb (Nat.eqb (length pszCipher mod AES_BlockSize) 0) then (s, Null)
      else
        let (s, ok) := decode_loop (length pszCipher) s rk pszCipher in
        if ok then (s, Lens (asize_t (getLens (m_objBuffer s) - nth 15 (m_uacPlain s) 0))) else (s, Thrown)
  end.

(** What the caller reads at the returned pointer. *)
Definition result (s : AESCoder) (iOutLens : Z) : option (list Z) := returned (m_objBuffer s) iOutLens.

End AES.

(** Both ways, with a key shorter than its size. *)
Example AES_example :
  let fresh n := Some (repeat 170 (Z.to_nat n)) in
  let e := fst (CAESEncode_setKey fresh fresh (AESCoder_new fresh) [115; 101; 99; 114; 101; 116; 0; 7] 192) in
  let d := fst (CAESDecode_setKey fresh fresh (AESCoder_new fresh) [115; 101; 99; 114; 101; 116; 0; 9] 192) in
  let m := [1;2;3;4;5;6;7;8;9;10;11;12;13;14;15;16;17;18;19] in
  let (e, o) := Encode fresh e m in
  let (d, o') := Decode 8 fresh d (written (m_objBuffer e)) in
  o = Lens 32 /\ o' = Lens 19 /\ result d 19 = Some m.
Proof. vm_compute. auto. Qed.

(** ** The words after the schedule are not read *)

Lemma rounds_ext one one' n s : valid_rounds n -> (forall r s, (r < n)%nat -> one r s = one' r s) ->
  rounds one n s = rounds one' n s.
Proof.
  intros Hn H. rewrite !rounds_fold by exact Hn. apply fold_left_ext. intros a b Hb. apply in_seq in Hb.
  apply H. destruct Hn as [->|[->| ->]]; lia.
Qed.

Lemma lines_app column w t r s : (4 * r + 4 <= length w)%nat ->
  enc_lines column (w ++ t) r s = enc_lines column w r s /\ dec_lines column (w ++ t) r s = dec_lines column w r s.
Proof. intros H. destruct s as [[[s0 s1] s2] s3]. unfold enc_lines, dec_lines. rewrite !app_nth1 by lia. auto. Qed.

Lemma rijndael_app w t n p : valid_rounds n -> length w = (4 * (n + 1))%nat ->
  rijndaelEncrypt (w ++ t) n p = rijndaelEncrypt w n p /\ rijndaelDecrypt (w ++ t) n p = rijndaelDecrypt w n p.
Proof.
  intros Hn L. unfold rijndaelEncrypt, rijndaelDecrypt.
  assert (G : get_block p (w ++ t) = get_block p w) by (unfold get_block; now rewrite !app_nth1 by lia).
  assert (S : skipn (n * 4) (w ++ t) = skipn (n * 4) w ++ t).
  { rewrite skipn_app. replace (n * 4 - length w)%nat with 0%nat by lia. reflexivity. }
  rewrite G, S. assert (L' : (4 * 0 + 4 <= length (skipn (n * 4) w))%nat) by (rewrite length_skipn; lia).
  rewrite (proj1 (lines_app Te_last _ t 0 _ L')), (proj2 (lines_app Td_last _ t 0 _ L')).
  split; do 2 f_equal; apply rounds_ext; auto; intros r s Hr.
  - apply (lines_app Te_column w t r s). lia.
  - apply (lines_app Td_column w t r s). lia.
Qed.

(** ** Cutting and padding *)

Fixpoint cut (n : nat) (l : list Z) : list (list Z) :=
  match n with O => [] | S k => firstn 16 l :: cut k (skipn 16 l) end.

(** The number of missing bytes, as often as it says; a whole block when none is. *)
Definition missing (m : list Z) : nat := (16 - length m mod 16)%nat.
Definition pkcs7 (m : list Z) : list Z := m ++ repeat (Z.of_nat (missing m)) (missing m).

(** Every block of the padded message through [f]. *)
Definition ecb (f : list Z -> list Z) (m : list Z) : list (list Z) := map f (cut (length m / 16 + 1) (pkcs7 m)).

Lemma cut_app q a b : length a = (16 * q)%nat -> length b = 16%nat -> cut (q + 1) (a ++ b) = cut q a ++ [b].
Proof.
  revert a. induction q as [|q IH]; intros a La Lb.
  - destruct a; [|discriminate La]. cbn [cut plus app]. rewrite <- Lb. now rewrite firstn_all.
  - cbn [cut plus app]. rewrite firstn_app, skipn_app. replace (16 - length a)%nat with 0%nat by lia.
    rewrite firstn_O, skipn_O, app_nil_r. f_equal. apply IH; [rewrite length_skipn; lia|exact Lb].
Qed.

Lemma cut_firstn q : forall l, (16 * q <= length l)%nat -> cut q (firstn (16 * q) l) = cut q l.
Proof.
  induction q as [|q IH]; intros l H; [reflexivity|]. cbn [cut].
  rewrite firstn_firstn, Nat.min_l by lia. rewrite skipn_firstn_comm.
  replace (16 * S q - 16)%nat with (16 * q)%nat by lia. f_equal. apply IH. rewrite length_skipn. lia.
Qed.

Lemma concat_cut q : forall l, length l = (16 * q)%nat -> concat (cut q l) = l.
Proof.
  induction q as [|q IH]; intros l H; [destruct l; [reflexivity|discriminate H]|].
  cbn [cut concat]. rewrite IH by (rewrite length_skipn; lia). apply firstn_skipn.
Qed.

Lemma cut_blocks q : forall l, bytes l -> (16 * q <= length l)%nat ->
  Forall (fun b => bytes b /\ length b = 16%nat) (cut q l).
Proof.
  induction q as [|q IH]; intros l B H; constructor.
  - split; [now apply Forall_firstn|rewrite length_firstn; lia].
  - apply IH; [now apply Forall_skipn|rewrite length_skipn; lia].
Qed.

Lemma cut_lengths q : forall l, (16 * q <= length l)%nat -> Forall (fun b => length b = 16%nat) (cut q l).
Proof.
  induction q as [|q IH]; intros l H; constructor; [rewrite length_firstn; lia|].
  apply IH. rewrite length_skipn. lia.
Qed.

Lemma length_cut q l : length (cut q l) = q.
Proof. revert l; induction q; intros l; cbn; auto. Qed.

Lemma length_pkcs7 m : length (pkcs7 m) = (16 * (length m / 16 + 1))%nat.
Proof.
  unfold pkcs7, missing. rewrite length_app, repeat_length.
  pose proof (Nat.mod_upper_bound (length m) 16). pose proof (Nat.div_mod_eq (length m) 16). lia.
Qed.

Lemma pkcs7_bytes m : bytes m -> bytes (pkcs7 m).
Proof.
  intros H. apply Forall_app. split; [exact H|]. apply Forall_repeat. unfold missing, is_byte. lia.
Qed.

(** The last block of the padded message, and the others. *)
Lemma cut_pkcs7 m : cut (length m / 16 + 1) (pkcs7 m) =
  cut (length m / 16) m ++
  [skipn (16 * (length m / 16)) m ++ repeat (Z.of_nat (missing m)) (missing m)].
Proof.
  pose proof (Nat.mod_upper_bound (length m) 16). pose proof (Nat.div_mod_eq (length m) 16).
  set (q := (length m / 16)%nat) in *.
  rewrite <- (cut_firstn q m) by lia. rewrite <- cut_app.
  - rewrite app_assoc, firstn_skipn. reflexivity.
  - rewrite length_firstn. lia.
  - rewrite length_app, length_skipn, repeat_length. unfold missing. lia.
Qed.

(** ** The coders *)

Lemma length_put_block s : length (put_block s) = 16%nat.
Proof. destruct s as [[[s0 s1] s2] s3]. reflexivity. Qed.

(** The two arrays have their size and the buffer is well formed. *)
Record coder_ok (s : AESCoder) : Prop := {
  ok_plain : length (m_uacPlain s) = 16%nat;
  ok_cipher : length (m_uacCipher s) = 16%nat;
  ok_buffer : well_formed (m_objBuffer s)
}.

(** The schedule does not change. *)
Definition same_schedule (s s' : AESCoder) : Prop := m_pRK s' = m_pRK s /\ m_iRounds s' = m_iRounds s.

Section Coders.
Context (new_char : Z -> option (list Z)).
Context (HL : forall n p, new_char n = Some p -> length p = Z.to_nat n) (HN : forall n, new_char n <> None).

Lemma push16 b l : well_formed b -> length l = 16%nat -> exists b',
  pushBuff new_char b (Some l) 16 = (b', true) /\ well_formed b' /\
  m_iOffset b' = m_iOffset b + 16 /\ written b' = written b ++ l.
Proof.
  intros W L. destruct (push_bytes new_char HL HN b l 16 W ltac:(lia)) as (b' & E & W' & O & _ & Wr).
  exists b'. rewrite <- L, firstn_all in Wr. auto.
Qed.

Lemma encrypt_push_spec s rk plain : coder_ok s -> length plain = 16%nat -> exists s',
  encrypt_push new_char s rk plain = (s', true) /\ coder_ok s' /\ same_schedule s s' /\
  m_iOffset (m_objBuffer s') = m_iOffset (m_objBuffer s) + 16 /\
  written (m_objBuffer s') = written (m_objBuffer s) ++ rijndaelEncrypt rk (m_iRounds s) plain.
Proof.
  intros [Hp Hc Hb] L. unfold encrypt_push.
  assert (Lc : length (rijndaelEncrypt rk (m_iRounds s) plain) = 16%nat) by apply length_put_block.
  destruct (push16 _ _ Hb Lc) as (b' & -> & W & O & Wr).
  eexists. split; [reflexivity|]. splits; [constructor; assumption|split; reflexivity|exact O|exact Wr].
Qed.

(** The block the loop encrypts. *)
Lemma filled_block plain l : length plain = 16%nat -> (0 < length l)%nat ->
  let iCopyLen := if Nat.leb 16 (length l) then 16%nat else length l in
  let p := store plain (firstn iCopyLen l) in
  let fill := (16 - iCopyLen)%nat in
  (if Nat.ltb iCopyLen 16 then at_ptr iCopyLen (fun a => store a (repeat (Z.of_nat fill) fill)) p else p) =
  if Nat.leb 16 (length l) then firstn 16 l else l ++ repeat (Z.of_nat (16 - length l)) (16 - length l).
Proof.
  intros L H. cbv zeta. destruct (Nat.leb_spec 16 (length l)) as [H1|H1].
  - cbn [Nat.ltb Nat.leb]. unfold store. rewrite length_firstn, Nat.min_l by lia.
    now rewrite skipn_all2, app_nil_r by lia.
  - rewrite firstn_all. destruct (Nat.ltb_spec (length l) 16); [|lia]. unfold at_ptr, store.
    rewrite firstn_app_len, skipn_app_len, repeat_length. rewrite skipn_skipn.
    now rewrite skipn_all2, app_nil_r by lia.
Qed.

Lemma encode_loop_blocks rk n q : forall fuel s l, coder_ok s -> m_iRounds s = n -> (length l <= fuel)%nat ->
  (16 * q <= length l < 16 * S q)%nat -> exists s',
  encode_loop new_char fuel s rk l = (s', true) /\ coder_ok s' /\ same_schedule s s' /\
  written (m_objBuffer s') = written (m_objBuffer s) ++ concat (map (rijndaelEncrypt rk n) (cut q l)) ++
    (if Nat.eqb (length l mod 16) 0 then []
     else rijndaelEncrypt rk n (skipn (16 * q) l ++ repeat (Z.of_nat (missing l)) (missing l))).
Proof.
  induction q as [|q IH]; intros fuel s l Hs Hn Hf Hq.
  - assert (Hm : (length l mod 16 = length l)%nat) by (apply Nat.mod_small; lia).
    destruct l as [|x l].
    + exists s. destruct fuel; cbn [encode_loop]; (splits; [reflexivity|exact Hs|split; reflexivity|now rewrite app_nil_r]).
    + destruct fuel as [|f]; [cbn in Hf; lia|]. rewrite Hm. unfold missing. rewrite Hm.
      cbn [encode_loop]. unfold AES_BlockSize. 
      rewrite (filled_block (m_uacPlain s) (x :: l)) by (first [apply Hs|cbn; lia]).
      destruct (Nat.leb_spec 16 (length (x :: l))); [lia|].
      set (plain := (x :: l) ++ _).
      destruct (encrypt_push_spec s rk plain Hs) as (s1 & E1 & H1 & H2 & _ & H3).
      { subst plain. rewrite length_app, repeat_length. lia. }
      rewrite E1. rewrite skipn_all2 by lia. exists s1.
      destruct f; cbn [encode_loop]; (splits; [reflexivity|exact H1|exact H2|]); rewrite H3, Hn; reflexivity.
  - destruct fuel as [|f]; [lia|]. destruct l as [|x l]; [cbn in Hq; lia|].
    cbn [encode_loop]. unfold AES_BlockSize.
    rewrite (filled_block (m_uacPlain s) (x :: l)) by (first [apply Hs|cbn; lia]).
    destruct (Nat.leb_spec 16 (length (x :: l))); [|lia].
    destruct (encrypt_push_spec s rk (firstn 16 (x :: l)) Hs) as (s1 & E1 & H1 & H2 & _ & H3);
      [rewrite length_firstn; lia|].
    rewrite E1. set (r := skipn 16 (x :: l)).
    assert (Lr : length r = (length (x :: l) - 16)%nat) by (subst r; apply length_skipn).
    destruct (IH f s1 r H1) as (s2 & E2 & K1 & K2 & K3); [destruct H2 as [_ ->]; exact Hn|cbn [length] in *; lia|lia|].
    exists s2. rewrite E2. splits; [reflexivity|exact K1|destruct H2, K2; split; congruence|].
    rewrite K3, H3, Hn, <- !app_assoc. f_equal. cbn [cut map concat]. fold r. rewrite <- app_assoc. do 2 f_equal.
    assert (Hmod : (length r mod 16 = length (x :: l) mod 16)%nat).
    { rewrite Lr. replace (length (x :: l)) with ((length (x :: l) - 16) + 1 * 16)%nat at 2 by lia.
      now rewrite Nat.Div0.mod_add. }
    unfold missing. rewrite Hmod. replace (16 * S q)%nat with (16 * q + 16)%nat by lia.
    rewrite <- skipn_skipn. reflexivity.
Qed.

Lemma mod16_last (m : list Z) : (length m mod 16 = 0)%nat -> skipn (16 * (length m / 16)) m = [] /\ missing m = 16%nat.
Proof.
  intros H. pose proof (Nat.div_mod_eq (length m) 16). unfold missing. rewrite H. split; [|reflexivity].
  apply skipn_all2. lia.
Qed.

Lemma concat_ecb f m : (forall b, length (f b) = 16%nat) -> length (concat (ecb f m)) = length (pkcs7 m).
Proof.
  intros H. unfold ecb. rewrite length_pkcs7. set (k := (length m / 16 + 1)%nat).
  rewrite <- (length_cut k (pkcs7 m)) at 2. induction (cut k (pkcs7 m)) as [|b l IH]; [reflexivity|].
  cbn [map concat length]. rewrite length_app, H, IH. lia.
Qed.

(** [Encode] writes every block of the padded message through the cipher. *)
Lemma Encode_spec s rk m : coder_ok s -> m_pRK s = Some rk -> exists s',
  Encode new_char s m = (s', Lens (Z.of_nat (length (pkcs7 m)))) /\ coder_ok s' /\ same_schedule s s' /\
  written (m_objBuffer s') = concat (ecb (rijndaelEncrypt rk (m_iRounds s)) m).
Proof.
  intros [Hp Hc Hb] Hrk. set (n := m_iRounds s). unfold Encode. cbn [m_pRK set_out]. rewrite Hrk.
  destruct (reSet_spec _ Hb) as [Wr Wn]. set (s0 := set_out s (reSet (m_objBuffer s))).
  assert (H0 : coder_ok s0) by (constructor; assumption).
  pose proof (Nat.mod_upper_bound (length m) 16 ltac:(lia)) as Hr. pose proof (Nat.div_mod_eq (length m) 16) as Hd.
  destruct (encode_loop_blocks rk n (length m / 16) (length m) s0 m H0 eq_refl (le_n _) ltac:(lia))
    as (s1 & E1 & H1 & S1 & W1). change (same_schedule s s1) in S1.
  rewrite E1. change (m_objBuffer s0) with (reSet (m_objBuffer s)) in W1. rewrite Wn in W1. cbn [app] in W1.
  assert (F : forall s2, coder_ok s2 -> written (m_objBuffer s2) = concat (ecb (rijndaelEncrypt rk n) m) ->
    getLens (m_objBuffer s2) = Z.of_nat (length (pkcs7 m))).
  { intros s2 H2 W2. unfold getLens. rewrite <- length_written by apply H2. rewrite W2.
    now rewrite concat_ecb by (intros; apply length_put_block). }
  unfold ecb in *. rewrite cut_pkcs7, map_app, concat_app in *. cbn [map concat] in *. rewrite app_nil_r in *.
  unfold AES_BlockSize. destruct (Nat.eqb_spec (length m mod 16) 0) as [Hz|Hz].
  - rewrite app_nil_r in W1. destruct (mod16_last m Hz) as [Er Em]. rewrite Er, Em in *. cbn [app] in *.
    assert (Ls : store (m_uacPlain s1) (repeat 16 16) = repeat (Z.of_nat 16) 16).
    { unfold store. rewrite skipn_all2 by (rewrite repeat_length; now rewrite (ok_plain _ H1)). apply app_nil_r. }
    rewrite Ls. destruct (encrypt_push_spec s1 rk (repeat (Z.of_nat 16) 16) H1 eq_refl) as (s2 & E2 & H2 & S2 & _ & W2).
    rewrite W1 in W2. assert (En : m_iRounds s1 = n) by (destruct S1; assumption). rewrite En in W2.
    exists s2. rewrite E2, (F s2 H2 W2). splits; auto. destruct S1, S2. split; congruence.
  - exists s1. rewrite (F s1 H1 W1). splits; auto.
Qed.

Lemma last_of_cons {A} (l : list A) : forall x d, last (x :: l) d = last l x.
Proof. induction l as [|y l IH]; intros x d; [reflexivity|]. change (last (y :: l) d = last (y :: l) x). now rewrite !IH. Qed.

Lemma decode_loop_spec rk n bl : forall fuel s, coder_ok s -> m_iRounds s = n ->
  Forall (fun b => length b = 16%nat) bl -> (length (concat bl) <= fuel)%nat -> exists s',
  decode_loop new_char fuel s rk (concat bl) = (s', true) /\ coder_ok s' /\ same_schedule s s' /\
  written (m_objBuffer s') = written (m_objBuffer s) ++ concat (map (rijndaelDecrypt rk n) bl) /\
  m_uacPlain s' = last (map (rijndaelDecrypt rk n) bl) (m_uacPlain s).
Proof.
  induction bl as [|b bl IH]; intros fuel s Hs Hn HB Hf.
  - exists s. destruct fuel; cbn [concat decode_loop]; (splits; [reflexivity|exact Hs|split; reflexivity|now rewrite app_nil_r|reflexivity]).
  - inversion_clear HB as [|? ? Lb HB']. cbn [concat] in *. rewrite length_app in Hf.
    destruct fuel as [|f]; [lia|].
    assert (Ne : exists x r, b ++ concat bl = x :: r) by (destruct b; [discriminate Lb|cbn [app]; eauto]).
    destruct Ne as (x & r & Ex). cbn [decode_loop]. rewrite Ex. cbv iota. rewrite <- Ex. unfold AES_BlockSize.
    rewrite <- Lb, firstn_app_len, skipn_app_len.
    assert (Es : store (m_uacCipher s) b = b).
    { unfold store. rewrite skipn_all2 by (rewrite (ok_cipher _ Hs); lia). apply app_nil_r. }
    rewrite Es. set (p := rijndaelDecrypt rk (m_iRounds s) b).
    assert (Lp : length p = 16%nat) by apply length_put_block.
    destruct (push16 _ p (ok_buffer _ Hs) Lp) as (b' & E' & W' & _ & Wr). rewrite E'.
    set (s1 := set_out _ b').
    assert (H1 : coder_ok s1) by (constructor; assumption).
    destruct (IH f s1 H1 Hn HB' ltac:(lia)) as (s2 & E2 & K1 & K2 & K3 & K4).
    exists s2. rewrite E2. splits; [reflexivity|exact K1|exact K2| |].
    + rewrite K3. change (m_objBuffer s1) with b'. rewrite Wr, <- app_assoc. subst p n. reflexivity.
    + rewrite K4. change (m_uacPlain s1) with p. subst p n. cbn [map].
      symmetry. apply last_of_cons.
Qed.

End Coders.

Lemma nth_last_repeat v k (l : list Z) : (0 < k)%nat -> (length l + k = 16)%nat -> nth 15 (l ++ repeat v k) 0 = v.
Proof. intros Hk L. rewrite app_nth2 by lia. apply nth_repeat_lt. lia. Qed.

Lemma length_concat16 (bl : list (list Z)) : Forall (fun b => length b = 16%nat) bl ->
  length (concat bl) = (length bl * 16)%nat.
Proof. induction 1 as [|b l H _ IH]; [reflexivity|]. cbn [concat length]. rewrite length_app, H, IH. lia. Qed.

Section DecodeSpec.
Context (SZ : nat) (new_char : Z -> option (list Z)).
Context (HL : forall n p, new_char n = Some p -> length p = Z.to_nat n) (HN : forall n, new_char n <> None).

(** [Decode] decrypts every block and trusts the last byte. *)
Lemma Decode_spec s rk bl : coder_ok s -> m_pRK s = Some rk -> Forall (fun b => length b = 16%nat) bl ->
  let out := map (rijndaelDecrypt rk (m_iRounds s)) bl in exists s',
  Decode SZ new_char s (concat bl) =
    (s', Lens (asize_t SZ (Z.of_nat (length (concat out)) - nth 15 (last out (m_uacPlain s)) 0))) /\
  coder_ok s' /\ same_schedule s s' /\ written (m_objBuffer s') = concat out /\
  m_uacPlain s' = last out (m_uacPlain s).
Proof.
  intros [Hp Hc Hb] Hrk HB. cbv zeta. unfold Decode. cbn [m_pRK set_out]. rewrite Hrk.
  destruct (reSet_spec _ Hb) as [Wr Wn]. set (s0 := set_out s (reSet (m_objBuffer s))).
  assert (H0 : coder_ok s0) by (constructor; assumption).
  assert (L16 : (length (concat bl) mod AES_BlockSize = 0)%nat)
    by (rewrite (length_concat16 bl HB); apply Nat.Div0.mod_mul).
  rewrite L16. cbn [Nat.eqb negb].
  destruct (decode_loop_spec new_char HL HN rk (m_iRounds s) bl (length (concat bl)) s0 H0 eq_refl HB (le_n _))
    as (s1 & E1 & H1 & S1 & W1 & P1).
  rewrite E1. change (m_objBuffer s0) with (reSet (m_objBuffer s)) in W1. rewrite Wn in W1. cbn [app] in W1.
  change (m_uacPlain s0) with (m_uacPlain s) in P1.
  exists s1. splits; [|exact H1|exact S1|exact W1|exact P1].
  unfold getLens. now rewrite <- length_written, W1, P1 by apply H1.
Qed.
End DecodeSpec.

(** ** Keys *)

(** The key of [n] bytes a string stands for. *)
Definition pad_key (pszKey : list Z) (n : nat) : list Z :=
  let k := firstn (Nat.min n (strlen pszKey)) pszKey in k ++ repeat 0 (n - length k).

Lemma length_pad_key s n : length (pad_key s n) = n.
Proof. unfold pad_key. rewrite length_app, repeat_length, length_firstn. pose proof (strlen_le s). lia. Qed.

Lemma pad_key_bytes s n : bytes s -> bytes (pad_key s n).
Proof. intros H. apply Forall_app. split; [now apply Forall_firstn|]. apply Forall_repeat. unfold is_byte. lia. Qed.

Lemma key_block_eq p s n : length p = (n + 1)%nat -> key_block p s n = pad_key s n ++ [0].
Proof.
  intros L. unfold key_block, pad_key. pose proof (strlen_le s).
  assert (E : (if Nat.ltb n (strlen s) then n else strlen s) = Nat.min n (strlen s))
    by (destruct (Nat.ltb_spec n (strlen s)); lia).
  rewrite E. set (k := firstn (Nat.min n (strlen s)) s).
  assert (Lk : (length k <= n)%nat) by (subst k; rewrite length_firstn; lia).
  unfold store. rewrite repeat_length, (skipn_all2 p), app_nil_r by lia.
  rewrite <- app_assoc. f_equal. replace (n + 1)%nat with (length k + (n - length k + 1))%nat by lia.
  rewrite repeat_app. rewrite <- (repeat_length 0 (length k)) at 1. rewrite skipn_app_len. apply repeat_app.
Qed.

Lemma key_words_app n : forall k t, (4 * n <= length k)%nat -> key_words n (k ++ t) = key_words n k.
Proof.
  induction n as [|n IH]; intros k t H; [reflexivity|]. cbn [key_words].
  rewrite firstn_app, skipn_app. replace (4 - length k)%nat with 0%nat by lia.
  rewrite firstn_O, skipn_O, app_nil_r. f_equal. apply IH. rewrite length_skipn. lia.
Qed.

Lemma GETU32_app k t i : (i + 4 <= length k)%nat -> GETU32 (skipn i (k ++ t)) = GETU32 (skipn i k).
Proof. intros H. unfold GETU32. rewrite !nth_skipn, !app_nth1 by lia. reflexivity. Qed.

Lemma setup_app k bits Nk t : key_size bits Nk -> length k = (4 * Nk)%nat ->
  rijndaelSetupEncrypt (k ++ t) bits = rijndaelSetupEncrypt k bits /\
  rijndaelSetupDecrypt (k ++ t) bits = rijndaelSetupDecrypt k bits.
Proof.
  intros HK L.
  assert (E : rijndaelSetupEncrypt (k ++ t) bits = rijndaelSetupEncrypt k bits).
  { assert (G : forall i, (i < Nk)%nat -> key_word (k ++ t) i = key_word k i)
      by (intros; apply GETU32_app; lia).
    destruct HK as [[-> ->]|[[-> ->]|[-> ->]]]; rewrite ?setup_128, ?setup_192, ?setup_256, !G by lia; reflexivity. }
  split; [exact E|]. now rewrite !rijndaelSetupDecrypt_eq, E.
Qed.

(** A coder whose schedule is [w] for [n] rounds, with more words after it. *)
Definition keyed (s : AESCoder) (w : list Z) (n : nat) : Prop :=
  coder_ok s /\ m_iRounds s = n /\ exists t, m_pRK s = Some (w ++ t).

Section SetKey.
Context (new_uchar new_ulong : Z -> option (list Z)).
Context (HU : forall n p, new_uchar n = Some p -> length p = Z.to_nat n).

Lemma setKey_keyed setup s s' psz bits Nk : key_size bits Nk -> coder_ok s ->
  (forall k t, length k = (4 * Nk)%nat -> setup (k ++ t) bits = setup k bits) ->
  setKey new_uchar new_ulong setup s psz bits = (s', Q_RTN_OK) ->
  keyed s' (fst (setup (pad_key psz (4 * Nk)) bits)) (snd (setup (pad_key psz (4 * Nk)) bits)).
Proof.
  intros HK Hs HA. unfold setKey.
  assert (Hb : (bits =? AESKEY_NONE) = false) by (destruct HK as [[-> _]|[[-> _]|[-> _]]]; reflexivity).
  assert (Hk : KEYLENGTH bits = Z.of_nat (4 * Nk)) by (destruct HK as [[-> ->]|[[-> ->]|[-> ->]]]; reflexivity).
  rewrite Hb, Hk. destruct (new_ulong _) as [rk|]; [|discriminate].
  destruct (new_uchar _) as [p|] eqn:Ep; [|discriminate]. apply HU in Ep.
  rewrite Nat2Z.id, key_block_eq by lia. rewrite HA by apply length_pad_key.
  destruct (setup (pad_key psz (4 * Nk)) bits) as [w n]. intros [= <-]. cbn [fst snd].
  destruct Hs. split; [constructor; assumption|]. split; [reflexivity|]. eexists. reflexivity.
Qed.

Lemma encode_keyed s s' psz bits Nk : key_size bits Nk -> bytes psz -> coder_ok s ->
  CAESEncode_setKey new_uchar new_ulong s psz bits = (s', Q_RTN_OK) ->
  exists w, keyed s' w (Nk + 6) /\ words w /\ length w = (4 * (Nk + 7))%nat /\
    map PUTU32 w = KeyExpansion Nk (Nk + 6) (pad_key psz (4 * Nk)) /\
    rijndaelSetupEncrypt (pad_key psz (4 * Nk)) bits = (w, (Nk + 6)%nat).
Proof.
  intros HK Hb Hs E.
  pose proof (setKey_keyed _ _ _ _ _ _ HK Hs (fun k t L => proj1 (setup_app k bits Nk t HK L)) E) as K.
  destruct (rijndaelSetupEncrypt_spec (pad_key psz (4 * Nk)) bits Nk HK (pad_key_bytes _ _ Hb)) as (En & Ek & W & L);
    [now rewrite length_pad_key|].
  rewrite En in K. eexists. splits; eauto. rewrite <- En. apply surjective_pairing.
Qed.

Lemma decode_keyed s s' psz bits Nk : key_size bits Nk -> bytes psz -> coder_ok s ->
  CAESDecode_setKey new_uchar new_ulong s psz bits = (s', Q_RTN_OK) ->
  exists d, keyed s' d (Nk + 6) /\ length d = (4 * (Nk + 7))%nat /\
    forall p, bytes p -> length p = 16%nat ->
      rijndaelDecrypt d (Nk + 6) (rijndaelEncrypt (fst (rijndaelSetupEncrypt (pad_key psz (4 * Nk)) bits)) (Nk + 6) p) = p.
Proof.
  intros HK Hb Hs E.
  pose proof (setKey_keyed _ _ _ _ _ _ HK Hs (fun k t L => proj2 (setup_app k bits Nk t HK L)) E) as K.
  destruct (rijndaelSetupEncrypt_spec (pad_key psz (4 * Nk)) bits Nk HK (pad_key_bytes _ _ Hb)) as (En & _ & W & L);
    [now rewrite length_pad_key|].
  rewrite rijndaelSetupDecrypt_eq in K. cbn [fst snd] in K. rewrite En in K.
  assert (V : valid_rounds (Nk + 6)) by (unfold valid_rounds; destruct HK as [[_ ->]|[[_ ->]|[_ ->]]]; auto).
  eexists. splits; [exact K| |].
  - unfold decrypt_schedule. cbv zeta. rewrite inv_mix_keys_spec.
    set (R := invert _ _ _ _). assert (LR : length R = (4 * (Nk + 7))%nat) by (subst R; now rewrite length_invert).
    rewrite length_app, length_app, length_map. rewrite <- length_app, firstn_skipn, length_firstn, length_skipn, LR. lia.
  - intros p Bp Lp. apply decrypt_encrypt; auto using schedule_words; [lia|].
    apply decrypt_schedule_mixed; auto; lia.
Qed.
End SetKey.

(** ** Messages *)

(** The standard's cipher in the way of [Encode]: a key that is a string, a padded
    message, every block by itself. *)
Definition AES_ECB (pszKey : list Z) (Nk : nat) (m : list Z) : list Z :=
  concat (ecb (Cipher (Nk + 6) (KeyExpansion Nk (Nk + 6) (pad_key pszKey (4 * Nk)))) m).

Lemma AESCoder_new_ok new_char : (forall n p, new_char n = Some p -> length p = Z.to_nat n) ->
  new_char (5 * 1024) <> None -> coder_ok (AESCoder_new new_char).
Proof. intros HL HN. constructor; [reflexivity|reflexivity|]. now apply CBuffer_new_spec. Qed.

Lemma ecb_ext f g m : bytes m -> (forall b, bytes b -> length b = 16%nat -> f b = g b) -> ecb f m = ecb g m.
Proof.
  intros B H. unfold ecb. apply map_ext_in. intros b Hb.
  pose proof (cut_blocks (length m / 16 + 1) (pkcs7 m) (pkcs7_bytes m B)) as C.
  rewrite Forall_forall in C. destruct (C ltac:(rewrite length_pkcs7; lia) b Hb). now apply H.
Qed.

Lemma result_written s n : coder_ok s -> written (m_objBuffer s) <> [] -> 0 <= n <= m_iOffset (m_objBuffer s) ->
  result s n = Some (firstn (Z.to_nat n) (written (m_objBuffer s))).
Proof.
  intros _ Hne Hn. apply returned_written; [|exact Hn]. intros E. apply Hne. unfold written. now rewrite E.
Qed.

Lemma keyed_encrypt s w n : keyed s w n -> valid_rounds n -> length w = (4 * (n + 1))%nat ->
  exists rk, m_pRK s = Some rk /\ m_iRounds s = n /\
  (forall p, rijndaelEncrypt rk n p = rijndaelEncrypt w n p) /\ (forall p, rijndaelDecrypt rk n p = rijndaelDecrypt w n p).
Proof.
  intros (_ & En & t & Et) V L. eexists. splits; eauto; intros q; now destruct (rijndael_app w t n q V L).
Qed.

(** The schedules of a pair of coders with the same key. *)
Lemma encode_schedule new_uchar new_ulong (HU : forall n p, new_uchar n = Some p -> length p = Z.to_nat n)
  e e1 psz bits Nk : key_size bits Nk -> bytes psz -> coder_ok e ->
  CAESEncode_setKey new_uchar new_ulong e psz bits = (e1, Q_RTN_OK) ->
  exists rk, m_pRK e1 = Some rk /\ coder_ok e1 /\ forall p, bytes p -> length p = 16%nat ->
    rijndaelEncrypt rk (m_iRounds e1) p = Cipher (Nk + 6) (KeyExpansion Nk (Nk + 6) (pad_key psz (4 * Nk))) p /\
    rijndaelEncrypt rk (m_iRounds e1) p =
      rijndaelEncrypt (fst (rijndaelSetupEncrypt (pad_key psz (4 * Nk)) bits)) (Nk + 6) p.
Proof.
  intros HK Hb He E. assert (V : valid_rounds (Nk + 6)) by (unfold valid_rounds; destruct HK as [[_ ->]|[[_ ->]|[_ ->]]]; auto).
  destruct (encode_keyed _ _ HU e e1 psz bits Nk HK Hb He E) as (w & K & Ww & Lw & Ek & Es).
  assert (Lw' : length w = (4 * (Nk + 6 + 1))%nat) by lia.
  destruct (keyed_encrypt e1 w _ K V Lw') as (rk & Er & -> & HE & _).
  exists rk. split; [exact Er|]. split; [apply K|]. intros p Bp Lp.
  rewrite HE, Es, <- Ek. cbn [fst]. split; [now apply encrypt_Cipher|reflexivity].
Qed.

Lemma decode_schedule new_uchar new_ulong (HU : forall n p, new_uchar n = Some p -> length p = Z.to_nat n)
  d d1 psz bits Nk : key_size bits Nk -> bytes psz -> coder_ok d ->
  CAESDecode_setKey new_uchar new_ulong d psz bits = (d1, Q_RTN_OK) ->
  exists rk, m_pRK d1 = Some rk /\ coder_ok d1 /\ forall p, bytes p -> length p = 16%nat ->
    rijndaelDecrypt rk (m_iRounds d1)
      (Cipher (Nk + 6) (KeyExpansion Nk (Nk + 6) (pad_key psz (4 * Nk))) p) = p /\
    length (Cipher (Nk + 6) (KeyExpansion Nk (Nk + 6) (pad_key psz (4 * Nk))) p) = 16%nat.
Proof.
  intros HK Hb Hd E. assert (V : valid_rounds (Nk + 6)) by (unfold valid_rounds; destruct HK as [[_ ->]|[[_ ->]|[_ ->]]]; auto).
  destruct (decode_keyed _ _ HU d d1 psz bits Nk HK Hb Hd E) as (w & K & Lw & HD).
  destruct (keyed_encrypt d1 w _ K V ltac:(lia)) as (rk & Er & -> & _ & HE).
  exists rk. split; [exact Er|]. split; [apply K|]. intros p Bp Lp. rewrite HE.
  destruct (rijndaelSetupEncrypt_spec (pad_key psz (4 * Nk)) bits Nk HK (pad_key_bytes _ _ Hb)) as (_ & Ek & W & L);
    [now rewrite length_pad_key|].
  rewrite <- Ek, <- encrypt_Cipher by (auto; lia). split; [now apply HD|apply length_put_block].
Qed.

Lemma length_pkcs7_Z m : Z.of_nat (length (pkcs7 m)) = 16 * (Z.of_nat (length m) / 16 + 1).
Proof. rewrite length_pkcs7, Nat2Z.inj_mul, Nat2Z.inj_add, Nat2Z.inj_div. lia. Qed.

Lemma Encode_ECB new_char (HL : forall n p, new_char n = Some p -> length p = Z.to_nat n) (HN : forall n, new_char n <> None)
  s rk f m : coder_ok s -> m_pRK s = Some rk -> bytes m ->
  (forall p, bytes p -> length p = 16%nat -> rijndaelEncrypt rk (m_iRounds s) p = f p) ->
  exists s', Encode new_char s m = (s', Lens (Z.of_nat (length (pkcs7 m)))) /\ coder_ok s' /\ same_schedule s s' /\
    result s' (Z.of_nat (length (pkcs7 m))) = Some (concat (ecb f m)) /\ written (m_objBuffer s') = concat (ecb f m).
Proof.
  intros Ok Er Hm H. destruct (Encode_spec new_char HL HN s rk m Ok Er) as (s' & E & Ok' & S & W).
  assert (L : length (written (m_objBuffer s')) = length (pkcs7 m))
    by (rewrite W; apply concat_ecb; intros; apply length_put_block).
  rewrite (ecb_ext _ f m Hm H) in W. exists s'. splits; auto.
  rewrite result_written; [now rewrite Nat2Z.id, <- L, firstn_all, W|exact Ok'| |].
  - intros E0. rewrite E0 in L. rewrite length_pkcs7 in L. cbn in L. lia.
  - rewrite <- length_written by apply Ok'. lia.
Qed.

(** Claim C19: with a key set for 128, 192 or 256 bits from a C string (cut to the size of
    the key, or filled with zeros), [CAESEncode::Encode] writes the PKCS#7-padded message,
    each block of sixteen bytes through the cipher of FIPS 197; a message of any length
    gives [16 * (length / 16 + 1)] bytes, a whole block being added to a message that fills
    its last block, and the coder can be used again. *)
Theorem AES_Encode_is_ECB new_char new_uchar new_ulong
  (HL : forall n p, new_char n = Some p -> length p = Z.to_nat n) (HN : forall n, new_char n <> None)
  (HU : forall n p, new_uchar n = Some p -> length p = Z.to_nat n)
  e e1 psz bits Nk m : key_size bits Nk -> bytes psz -> coder_ok e ->
  CAESEncode_setKey new_uchar new_ulong e psz bits = (e1, Q_RTN_OK) -> bytes m ->
  exists e2, Encode new_char e1 m = (e2, Lens (16 * (Z.of_nat (length m) / 16 + 1))) /\
    result e2 (16 * (Z.of_nat (length m) / 16 + 1)) = Some (AES_ECB psz Nk m) /\
    coder_ok e2 /\ m_pRK e2 = m_pRK e1 /\ m_iRounds e2 = m_iRounds e1.
Proof.
  intros HK Hb He E Hm. destruct (encode_schedule _ _ HU e e1 psz bits Nk HK Hb He E) as (rk & Er & Ok & H).
  destruct (Encode_ECB new_char HL HN e1 rk _ m Ok Er Hm (fun p Bp Lp => proj1 (H p Bp Lp))) as (e2 & E2 & Ok2 & [S1 S2] & R & _).
  exists e2. rewrite <- length_pkcs7_Z. auto.
Qed.

Lemma AES_Encode_is_ECB_witness :
  let fresh := fresh_block in
  let e1 := fst (CAESEncode_setKey fresh fresh (AESCoder_new fresh) [115; 101; 99; 114; 101; 116; 0] 128) in
  exists e2, Encode fresh e1 [104; 105] = (e2, Lens 16) /\
    result e2 16 = Some (AES_ECB [115; 101; 99; 114; 101; 116; 0] 4 [104; 105]) /\
    coder_ok e2 /\ m_pRK e2 = m_pRK e1 /\ m_iRounds e2 = m_iRounds e1.
Proof.
  apply (AES_Encode_is_ECB fresh_block fresh_block fresh_block fresh_block_length fresh_block_total fresh_block_length
    (AESCoder_new fresh_block) _ [115; 101; 99; 114; 101; 116; 0] 128 4 [104; 105]).
  - left. auto.
  - apply bytes_check. reflexivity.
  - apply AESCoder_new_ok; [exact fresh_block_length|apply fresh_block_total].
  - vm_compute. reflexivity.
  - apply bytes_check. reflexivity.
Defined.

(** A pair of coders of which the second undoes the block cipher of the first. *)
Definition aes_pair (e d : AESCoder) (f : list Z -> list Z) : Prop :=
  exists rk dk, m_pRK e = Some rk /\ coder_ok e /\ m_pRK d = Some dk /\ coder_ok d /\
  forall p, bytes p -> length p = 16%nat ->
    rijndaelEncrypt rk (m_iRounds e) p = f p /\ rijndaelDecrypt dk (m_iRounds d) (f p) = p /\ length (f p) = 16%nat.

Lemma aes_pair_keys new_uchar new_ulong (HU : forall n p, new_uchar n = Some p -> length p = Z.to_nat n)
  e e1 d d1 psz bits Nk : key_size bits Nk -> bytes psz -> coder_ok e -> coder_ok d ->
  CAESEncode_setKey new_uchar new_ulong e psz bits = (e1, Q_RTN_OK) ->
  CAESDecode_setKey new_uchar new_ulong d psz bits = (d1, Q_RTN_OK) ->
  aes_pair e1 d1 (Cipher (Nk + 6) (KeyExpansion Nk (Nk + 6) (pad_key psz (4 * Nk)))).
Proof.
  intros HK Hb He Hd E D.
  destruct (encode_schedule _ _ HU e e1 psz bits Nk HK Hb He E) as (rk & Er & Ok & HE).
  destruct (decode_schedule _ _ HU d d1 psz bits Nk HK Hb Hd D) as (dk & Dr & Dk & HD).
  exists rk, dk. splits; auto. intros p Bp Lp. split; [now apply HE|now apply HD].
Qed.

Lemma aes_pair_roundtrip SZ new_char (HL : forall n p, new_char n = Some p -> length p = Z.to_nat n)
  (HN : forall n, new_char n <> None) e d f m : aes_pair e d f -> bytes m -> Z.of_nat (length m) < Pn SZ ->
  exists e2 d2, Encode new_char e m = (e2, Lens (Z.of_nat (length (pkcs7 m)))) /\
    result e2 (Z.of_nat (length (pkcs7 m))) = Some (concat (ecb f m)) /\
    length (concat (ecb f m)) = length (pkcs7 m) /\
    Decode SZ new_char d (concat (ecb f m)) = (d2, Lens (Z.of_nat (length m))) /\ result d2 (Z.of_nat (length m)) = Some m /\
    aes_pair e2 d2 f /\ Z.of_nat (length m) <= m_iOffset (m_objBuffer d2).
Proof.
  intros (rk & dk & Er & Ok & Dr & Dk & H) Hm Hs.
  destruct (Encode_ECB new_char HL HN e rk f m Ok Er Hm (fun p Bp Lp => proj1 (H p Bp Lp))) as (e2 & E2 & Ok2 & [S1 S2] & R & W2).
  pose proof (cut_blocks (length m / 16 + 1) (pkcs7 m) (pkcs7_bytes m Hm) ltac:(rewrite length_pkcs7; lia)) as C.
  rewrite Forall_forall in C.
  assert (Lb : Forall (fun b => length b = 16%nat) (ecb f m)).
  { apply Forall_map, Forall_forall. intros b Hb'. destruct (C b Hb'). now apply H. }
  destruct (Decode_spec SZ new_char HL HN d dk (ecb f m) Dk Dr Lb) as (d2 & E3 & Ok3 & [T1 T2] & W & _).
  assert (Eo : map (rijndaelDecrypt dk (m_iRounds d)) (ecb f m) = cut (length m / 16 + 1) (pkcs7 m)).
  { unfold ecb. rewrite map_map. rewrite <- (map_id (cut _ _)) at 2. apply map_ext_in. intros b Hb'.
    destruct (C b Hb'). now apply H. }
  rewrite Eo in *. rewrite concat_cut in * by apply length_pkcs7.
  assert (V : Z.of_nat (length (pkcs7 m)) - nth 15 (last (cut (length m / 16 + 1) (pkcs7 m)) (m_uacPlain d)) 0 =
    Z.of_nat (length m)).
  { pose proof (Nat.mod_upper_bound (length m) 16 ltac:(lia)). pose proof (Nat.div_mod_eq (length m) 16).
    rewrite cut_pkcs7, last_last, nth_last_repeat by (rewrite ?length_skipn; unfold missing; lia).
    unfold pkcs7. rewrite length_app, repeat_length. lia. }
  rewrite V in E3. unfold asize_t in E3. rewrite Z.mod_small in E3 by lia.
  assert (Lo : Z.of_nat (length m) <= m_iOffset (m_objBuffer d2))
    by (rewrite <- length_written by apply Ok3; rewrite W; unfold pkcs7; rewrite length_app; lia).
  exists e2, d2. splits; [exact E2|exact R| |exact E3| | |exact Lo].
  - rewrite (length_concat16 _ Lb), length_pkcs7. unfold ecb. rewrite length_map, length_cut. lia.
  - rewrite result_written; [|exact Ok3| |lia].
    + rewrite W, Nat2Z.id. unfold pkcs7. now rewrite firstn_app_len.
    + rewrite W. intros E0. apply (f_equal (@length Z)) in E0. rewrite length_pkcs7 in E0. cbn in E0. lia.
  - exists rk, dk. rewrite S1, S2, T1, T2. splits; auto.
Qed.

(** What [CAESEncode] encrypts [CAESDecode] decrypts: with the same key string
    and the same size of keys, [Decode] applied to the bytes [Encode] returned for a
    message of any length (the empty one included) returns the message and its length. *)
Theorem AES_roundtrip SZ new_char new_uchar new_ulong
  (HL : forall n p, new_char n = Some p -> length p = Z.to_nat n) (HN : forall n, new_char n <> None)
  (HU : forall n p, new_uchar n = Some p -> length p = Z.to_nat n)
  e e1 d d1 psz bits Nk m : key_size bits Nk -> bytes psz -> coder_ok e -> coder_ok d ->
  CAESEncode_setKey new_uchar new_ulong e psz bits = (e1, Q_RTN_OK) ->
  CAESDecode_setKey new_uchar new_ulong d psz bits = (d1, Q_RTN_OK) ->
  bytes m -> Z.of_nat (length m) < Pn SZ ->
  exists e2 n c d2, Encode new_char e1 m = (e2, Lens n) /\ result e2 n = Some c /\
    Decode SZ new_char d1 c = (d2, Lens (Z.of_nat (length m))) /\ result d2 (Z.of_nat (length m)) = Some m.
Proof.
  intros HK Hb He Hd E D Hm Hs.
  pose proof (aes_pair_keys _ _ HU e e1 d d1 psz bits Nk HK Hb He Hd E D) as P.
  destruct (aes_pair_roundtrip SZ new_char HL HN e1 d1 _ m P Hm Hs) as (e2 & d2 & E2 & R & _ & D2 & Rt & _).
  eexists e2, _, _, d2. eauto.
Qed.

Lemma AES_roundtrip_witness :
  let fresh := fresh_block in
  let e1 := fst (CAESEncode_setKey fresh fresh (AESCoder_new fresh) [115; 101; 99; 114; 101; 116; 0] 256) in
  let d1 := fst (CAESDecode_setKey fresh fresh (AESCoder_new fresh) [115; 101; 99; 114; 101; 116; 0] 256) in
  exists e2 n c d2, Encode fresh e1 [] = (e2, Lens n) /\ result e2 n = Some c /\
    Decode 8 fresh d1 c = (d2, Lens 0) /\ result d2 0 = Some [].
Proof.
  apply (AES_roundtrip 8 fresh_block fresh_block fresh_block fresh_block_length fresh_block_total fresh_block_length
    (AESCoder_new fresh_block) _ (AESCoder_new fresh_block) _ [115; 101; 99; 114; 101; 116; 0] 256 8 []).
  - right. right. auto.
  - apply bytes_check. reflexivity.
  - apply AESCoder_new_ok; [exact fresh_block_length|apply fresh_block_total].
  - apply AESCoder_new_ok; [exact fresh_block_length|apply fresh_block_total].
  - vm_compute. reflexivity.
  - vm_compute. reflexivity.
  - constructor.
  - reflexivity.
Defined.

(** Claim C20: [CAESDecode::Decode] does not check the byte it takes for the number of
    padding bytes.  For every key, a block whose last byte is more than sixteen (what a
    message under another key, or a forged one, decrypts to) gives a length that wraps
    around to almost the largest [size_t], with no error; and the empty message, decoded
    after it, subtracts that byte, left over in [m_uacPlain], from zero. *)
Theorem Decode_length_wraps SZ new_char new_uchar new_ulong
  (HL : forall n p, new_char n = Some p -> length p = Z.to_nat n) (HN : forall n, new_char n <> None)
  (HU : forall n p, new_uchar n = Some p -> length p = Z.to_nat n)
  d d1 psz bits Nk p : (SZ = 4 \/ SZ = 8)%nat -> key_size bits Nk -> bytes psz -> coder_ok d ->
  CAESDecode_setKey new_uchar new_ulong d psz bits = (d1, Q_RTN_OK) ->
  bytes p -> length p = 16%nat -> 16 < nth 15 p 0 ->
  let c := Cipher (Nk + 6) (KeyExpansion Nk (Nk + 6) (pad_key psz (4 * Nk))) p in
  exists d2 d3, Decode SZ new_char d1 c = (d2, Lens (Pn SZ - (nth 15 p 0 - 16))) /\
    Decode SZ new_char d2 [] = (d3, Lens (Pn SZ - nth 15 p 0)).
Proof.
  intros HS HK Hb Hd D Bp Lp Hv c.
  destruct (decode_schedule _ _ HU d d1 psz bits Nk HK Hb Hd D) as (dk & Dr & Dk & HD).
  destruct (HD p Bp Lp) as [Hp Lc]. fold c in Hp, Lc.
  assert (Hn : is_byte (nth 15 p 0)) by (apply Forall_nth_d; [exact Bp|unfold is_byte; lia]).
  assert (HP : 256 <= Pn SZ) by (destruct HS as [->| ->]; vm_compute; discriminate). unfold is_byte in Hn.
  destruct (Decode_spec SZ new_char HL HN d1 dk [c] Dk Dr) as (d2 & E2 & Ok2 & [S1 S2] & _ & P2); [repeat constructor; exact Lc|].
  cbn [map concat last] in E2, P2. rewrite !app_nil_r, Hp, Lp in E2. rewrite Hp in P2. rewrite Dr in S1.
  destruct (Decode_spec SZ new_char HL HN d2 dk [] Ok2 S1) as (d3 & E3 & _); [constructor|].
  cbn [map concat last length Z.of_nat] in E3. rewrite P2 in E3.
  exists d2, d3. rewrite E2, E3. unfold asize_t. split; do 2 f_equal.
  - rewrite <- (Z.mod_add _ 1) by lia. rewrite Z.mod_small by lia. lia.
  - rewrite <- (Z.mod_add _ 1) by lia. rewrite Z.mod_small by lia. lia.
Qed.

Lemma Decode_length_wraps_witness :
  let fresh := fresh_block in
  let d1 := fst (CAESDecode_setKey fresh fresh (AESCoder_new fresh) [107; 0] 128) in
  exists d2 d3, Decode 8 fresh d1 (Cipher 10 (KeyExpansion 4 10 (pad_key [107; 0] 16)) (repeat 255 16)) =
      (d2, Lens (2 ^ 64 - 239)) /\
    Decode 8 fresh d2 [] = (d3, Lens (2 ^ 64 - 255)).
Proof.
  apply (Decode_length_wraps 8 fresh_block fresh_block fresh_block fresh_block_length fresh_block_total fresh_block_length
    (AESCoder_new fresh_block) _ [107; 0] 128 4 (repeat 255 16)).
  - now right.
  - left. auto.
  - apply bytes_check. reflexivity.
  - apply AESCoder_new_ok; [exact fresh_block_length|apply fresh_block_total].
  - vm_compute. reflexivity.
  - apply bytes_check. reflexivity.
  - reflexivity.
  - reflexivity.
Defined.
