(* ===== verification/QRSA.v ===== *)
(** * QRSA: messages under RSA (QBase/QRSA.cpp)

    [CRSA] cuts a message into pieces that fit a block, encrypts each and appends the
    blocks to its buffer; decryption goes block by block.  The key object is the one
    [m_pRSAKey] points to: public encryption advances its random structure.  [None] stands
    for a call that does not return. *)

From S2P Require Import Prelude StdLib Rsaeuro NN NNMod Random RSA Enhanc BufferMgr.

Record CRSAKey := {
  m_stRandom : R_RANDOM_STRUCT;
  m_stPublicKey : R_RSA_PUBLIC_KEY;
  m_stPrivateKey : R_RSA_PRIVATE_KEY
}.

Record CRSA := {
  m_acOutBuf : list Z;
  m_objBuffer : CBuffer
}.

(** [RSAEncryptType] and [RSADecryptType] *)
Inductive RSAType := RSAType_Public | RSAType_Private.

(** Status, [m_acOutBuf] and [iTmpSize] after a call, and the key. *)
Definition block_call : Type := CRSAKey -> list Z -> nat -> list Z -> nat -> option (rsa_result * CRSAKey).

Definition encrypt_block (emEnType : RSAType) : block_call := fun key out iTmpSize p iBufLens =>
  match emEnType with
  | RSAType_Public =>
      let? (r, random) := RSAPublicEncrypt out iTmpSize p iBufLens (m_stPublicKey key) (m_stRandom key) in
      Some (r, {| m_stRandom := random; m_stPublicKey := m_stPublicKey key; m_stPrivateKey := m_stPrivateKey key |})
  | RSAType_Private =>
      let? r := RSAPrivateEncrypt out iTmpSize p iBufLens (m_stPrivateKey key) in Some (r, key)
  end.

Definition decrypt_block (emEnType : RSAType) : block_call := fun key out iTmpSize p iBufLens =>
  match emEnType with
  | RSAType_Public =>
      let? r := RSAPublicDecrypt out iTmpSize p iBufLens (m_stPublicKey key) in Some (r, key)
  | RSAType_Private =>
      let? r := RSAPrivateDecrypt out iTmpSize p iBufLens (m_stPrivateKey key) in Some (r, key)
  end.

(** How the loop ends: at the end of the data, by [return NULL], or by an exception. *)
Inductive ended := Reached | Returned_null | Raised.

Section CRSA.
Context (new_char : Z -> option (list Z)).

Definition CRSA_new : CRSA :=
  {| m_acOutBuf := repeat 0 MAX_RSA_MODULUS_LEN; m_objBuffer := CBuffer_new new_char |}.

(** The loop: [p] is what is left from [i] on. *)
Fixpoint block_loop (call : block_call) (fuel : nat) (iStep : Z) (s : CRSA) (key : CRSAKey)
  (iTmpSize : nat) (p : list Z) : option (CRSA * CRSAKey * ended) :=
  match p with
  | [] => Some (s, key, Reached)
  | _ =>
      match fuel with
      | O => None
      | S f =>
          let iBufLens := if iStep >? Z.of_nat (length p) then length p else Z.to_nat iStep in
          let? (r, key) := call key (m_acOutBuf s) iTmpSize p iBufLens in
          let '(iRtn, out, iTmpSize) := r in
          let s := {| m_acOutBuf := out; m_objBuffer := m_objBuffer s |} in
          if negb (iRtn =? 0) then Some (s, key, Returned_null)
          else
            let (b, ok) := pushBuff new_char (m_objBuffer s) (Some out) (Z.of_nat iTmpSize) in
            let s := {| m_acOutBuf := out; m_objBuffer := b |} in
            if ok then block_loop call f iStep s key iTmpSize (skipn (Z.to_nat iStep) p)
            else Some (s, key, Raised)
      end
  end.

(** Both functions, after the step is known: the buffer is emptied, the loop is run and the
    buffer is returned. *)
Definition run_blocks (call : block_call) (iStep : Z) (s : CRSA) (key : CRSAKey) (pszData : list Z)
  : option (CRSA * CRSAKey * outcome) :=
  let s := {| m_acOutBuf := m_acOutBuf s; m_objBuffer := reSet (m_objBuffer s) |} in
  let? (s, key, r) := block_loop call (length pszData) iStep s key 0 pszData in
  match r with
  | Returned_null => Some (s, key, Null)
  | Raised => Some (s, key, Thrown)
  | Reached => Some (s, key, Lens (getLens (m_objBuffer s)))
  end.

Definition key_bits (emType : RSAType) (key : CRSAKey) : Z :=
  match emType with
  | RSAType_Public => pub_bits (m_stPublicKey key)
  | RSAType_Private => priv_bits (m_stPrivateKey key)
  end.

(** [iStep] is an [unsigned int]. *)
Definition RSAEncrypt (emEnType : RSAType) (s : CRSA) (key : CRSAKey) (pszData : list Z) :=
  run_blocks (encrypt_block emEnType) (w32 ((key_bits emEnType key + 7) / 8 - 11)) s key pszData.

Definition RSADecrypt (emEnType : RSAType) (s : CRSA) (key : CRSAKey) (pszData : list Z) :=
  run_blocks (decrypt_block emEnType) (w32 ((key_bits emEnType key + 7) / 8)) s key pszData.

Definition publicKeyEncrypt := RSAEncrypt RSAType_Public.
Definition privateKeyEncrypt := RSAEncrypt RSAType_Private.
Definition publicKeyDecrypt := RSADecrypt RSAType_Public.
Definition privateKeyDecrypt := RSADecrypt RSAType_Private.

End CRSA.

(** ** The loop *)

(** The buffer is well formed and holds a block. *)
Record crsa_ok (s : CRSA) : Prop := {
  ok_buffer : well_formed (m_objBuffer s);
  ok_block : BufferMgr.m_pBuffer (m_objBuffer s) <> None
}.

(** The size of the piece that is taken from [p]. *)
Definition piece_len (iStep : Z) (p : list Z) : nat :=
  if iStep >? Z.of_nat (length p) then length p else Z.to_nat iStep.

Lemma piece_len_spec iStep p : 0 < iStep -> p <> [] ->
  (0 < piece_len iStep p <= length p)%nat /\ Z.of_nat (piece_len iStep p) <= iStep /\
  skipn (Z.to_nat iStep) p = skipn (piece_len iStep p) p /\ (length (skipn (Z.to_nat iStep) p) < length p)%nat.
Proof.
  intros H Hp. assert (0 < length p)%nat by (destruct p; [congruence|cbn; lia]). unfold piece_len.
  destruct (Z.gtb_spec iStep (Z.of_nat (length p))); (splits; try lia; try (rewrite length_skipn; lia)).
  - rewrite !skipn_all2 by lia. reflexivity.
  - reflexivity.
Qed.

Section Loop.
Context (new_char : Z -> option (list Z)).
Context (HL : forall n p, new_char n = Some p -> length p = Z.to_nat n) (HN : forall n, new_char n <> None).
Context (call : block_call) (iStep : Z) (Hstep : 0 < iStep).

(** What a successful call must give: the next key satisfies [I] again, and the piece [c]
    and the block it becomes are related by [R]. *)
Context (I : CRSAKey -> Prop) (R : list Z -> list Z -> Prop).
Definition call_sound : Prop := forall key out t p iTmpSize out' key',
  I key -> bytes p -> p <> [] ->
  call key out t p (piece_len iStep p) = Some ((ID_OK, out', iTmpSize), key') ->
  I key' /\ (iTmpSize <= length out')%nat /\
  R (firstn (piece_len iStep p) p) (firstn iTmpSize out').
Definition call_total : Prop := forall key out t p, I key -> bytes p -> p <> [] ->
  exists out' iTmpSize key', call key out t p (piece_len iStep p) = Some ((ID_OK, out', iTmpSize), key').

Lemma block_loop_sound : call_sound -> forall fuel s key t p s' key', crsa_ok s -> I key -> bytes p ->
  block_loop new_char call fuel iStep s key t p = Some (s', key', Reached) ->
  crsa_ok s' /\ I key' /\ exists cs bs, Forall2 R cs bs /\ concat cs = p /\
    written (m_objBuffer s') = written (m_objBuffer s) ++ concat bs.
Proof.
  intros HS. induction fuel as [|f IH]; intros s key t p s' key' Hs HI Hp; destruct p as [|x p0]; cbn [block_loop];
    try (intros [= <- <-]; splits; [exact Hs|exact HI|exists [], []; rewrite app_nil_r; auto]).
  { discriminate. }
  set (p := x :: p0) in *. assert (Hne : p <> []) by discriminate.
  fold (piece_len iStep p). destruct (call key _ t p (piece_len iStep p)) as [[[[st out] n] key1]|] eqn:E;
    [|discriminate]. cbn [obind].
  destruct (Z.eqb_spec st 0) as [->|]; cbn [negb]; [|discriminate].
  destruct (HS _ _ _ _ _ _ _ HI Hp Hne E) as (HI1 & L1 & R1).
  destruct (push_bytes new_char HL HN _ out n (ok_buffer _ Hs) L1) as (b & Eb & Wb & _ & Pb & Wr). cbn [m_objBuffer]. rewrite Eb.
  destruct (piece_len_spec iStep p Hstep Hne) as (Lp & _ & Sk & _).
  intros EL. apply IH in EL; [|constructor; assumption|exact HI1|now apply Forall_skipn].
  destruct EL as (Hs' & HI' & cs & bs & F & C & W). splits; [exact Hs'|exact HI'|].
  exists (firstn (piece_len iStep p) p :: cs), (firstn n out :: bs). splits.
  - now constructor.
  - cbn [concat]. rewrite C, Sk. apply firstn_skipn.
  - rewrite W. cbn [m_objBuffer concat]. now rewrite Wr, app_assoc.
Qed.

Lemma block_loop_total : call_sound -> call_total -> forall fuel s key t p, crsa_ok s -> I key -> bytes p ->
  (length p <= fuel)%nat -> exists s' key', block_loop new_char call fuel iStep s key t p = Some (s', key', Reached).
Proof.
  intros HS HT. induction fuel as [|f IH]; intros s key t p Hs HI Hp Hf; destruct p as [|x p0]; cbn [block_loop];
    try (eexists; eexists; reflexivity); [cbn in Hf; lia|].
  set (p := x :: p0) in *. assert (Hne : p <> []) by discriminate.
  fold (piece_len iStep p). destruct (HT key (m_acOutBuf s) t p HI Hp Hne) as (out & n & key1 & E).
  rewrite E. cbn [obind Z.eqb ID_OK negb].
  destruct (HS _ _ _ _ _ _ _ HI Hp Hne E) as (HI1 & L1 & R1).
  destruct (push_bytes new_char HL HN _ out n (ok_buffer _ Hs) L1) as (b & Eb & Wb & _ & Pb & Wr). cbn [m_objBuffer]. rewrite Eb.
  destruct (piece_len_spec iStep p Hstep Hne) as (Lp & _ & _ & Lt).
  apply IH; [constructor; assumption|exact HI1|now apply Forall_skipn|lia].
Qed.

(** The call as a whole. *)
Lemma run_blocks_sound s key p s' key' n : call_sound -> crsa_ok s -> I key -> bytes p ->
  run_blocks new_char call iStep s key p = Some (s', key', Lens n) ->
  crsa_ok s' /\ I key' /\ exists cs bs, Forall2 R cs bs /\ concat cs = p /\
    n = Z.of_nat (length (concat bs)) /\ returned (m_objBuffer s') n = Some (concat bs).
Proof.
  intros HS Hs HI Hp. unfold run_blocks.
  destruct (reSet_spec _ (ok_buffer _ Hs)) as [Wr Wn].
  set (s0 := Build_CRSA _ _). assert (Hs0 : crsa_ok s0) by (destruct Hs; constructor; assumption).
  destruct (block_loop _ _ _ _ s0 _ _ _) as [[[s1 k1] r]|] eqn:E; [|discriminate]. cbn [obind].
  destruct r; [|discriminate|discriminate]. intros [= <- <- <-].
  destruct (block_loop_sound HS _ _ _ _ _ _ _ Hs0 HI Hp E) as (Hs1 & HI1 & cs & bs & F & C & W).
  cbn [m_objBuffer s0] in W. rewrite Wn in W. cbn [app] in W.
  splits; [exact Hs1|exact HI1|]. exists cs, bs. splits; [exact F|exact C| |].
  - unfold getLens. now rewrite <- W, length_written by apply Hs1.
  - unfold getLens. rewrite returned_written by (first [apply Hs1|destruct (ok_buffer _ Hs1); lia]).
    rewrite <- length_written by apply Hs1. now rewrite Nat2Z.id, firstn_all, W.
Qed.

Lemma run_blocks_total s key p : call_sound -> call_total -> crsa_ok s -> I key -> bytes p ->
  exists s' key' n, run_blocks new_char call iStep s key p = Some (s', key', Lens n).
Proof.
  intros HS HT Hs HI Hp. unfold run_blocks.
  destruct (reSet_spec _ (ok_buffer _ Hs)) as [Wr Wn].
  set (s0 := Build_CRSA _ _). assert (Hs0 : crsa_ok s0) by (destruct Hs; constructor; assumption).
  destruct (block_loop_total HS HT (length p) s0 key 0 p Hs0 HI Hp (le_n _)) as (s1 & k1 & E).
  rewrite E. cbn [obind]. eauto.
Qed.
End Loop.

(** ** Blocks that open *)

(** Block [b], of bytes, opens to [c], whatever follows it and whatever the output held. *)
Definition opens (call : block_call) (key : CRSAKey) (L : nat) (c b : list Z) : Prop :=
  length b = L /\ bytes b /\ forall out t rest, exists out',
    call key out t (b ++ rest) L = Some ((ID_OK, out', length c), key) /\ firstn (length c) out' = c.

Section Open.
Context (new_char : Z -> option (list Z)).
Context (HL : forall n p, new_char n = Some p -> length p = Z.to_nat n) (HN : forall n, new_char n <> None).

Lemma open_loop call key L cs bs : (0 < L)%nat -> Forall2 (opens call key L) cs bs ->
  forall fuel s t, well_formed (m_objBuffer s) -> m_pBuffer (m_objBuffer s) <> None -> (length (concat bs) <= fuel)%nat ->
  exists s', block_loop new_char call fuel (Z.of_nat L) s key t (concat bs) = Some (s', key, Reached) /\
    well_formed (m_objBuffer s') /\ m_pBuffer (m_objBuffer s') <> None /\
    written (m_objBuffer s') = written (m_objBuffer s) ++ concat cs.
Proof.
  intros HL0 F. induction F as [|c b cs bs (Lb & _ & Ho) _ IH]; intros fuel s t W Hb Hf.
  { exists s. destruct fuel; (splits; [reflexivity|exact W|exact Hb|now rewrite app_nil_r]). }
  cbn [concat] in *. rewrite length_app in Hf. destruct fuel as [|f]; [lia|].
  assert (Ne : exists x r, b ++ concat bs = x :: r) by (destruct b; [cbn in Lb; lia|cbn [app]; eauto]).
  destruct Ne as (x & r & Ex). cbn [block_loop]. rewrite Ex. cbv iota. rewrite <- Ex.
  assert (Es : (Z.of_nat L >? Z.of_nat (length (b ++ concat bs))) = false)
    by (rewrite Z.gtb_ltb, Z.ltb_ge, length_app; lia).
  rewrite Es, Nat2Z.id. destruct (Ho (m_acOutBuf s) t (concat bs)) as (out' & E & Fo). rewrite E.
  cbn [obind Z.eqb ID_OK negb m_objBuffer].
  assert (Lo : (length c <= length out')%nat)
    by (apply (f_equal (@length Z)) in Fo; rewrite length_firstn in Fo; lia).
  destruct (push_bytes new_char HL HN _ out' _ W Lo) as (b' & Eb & Wb & _ & Pb & Wr). rewrite Eb, <- Lb, skipn_app_len, Lb.
  destruct (IH f {| m_acOutBuf := out'; m_objBuffer := b' |} (length c) Wb Pb ltac:(lia)) as (s' & E' & W' & P' & Wr').
  exists s'. rewrite E'. splits; [reflexivity|exact W'|exact P'|].
  rewrite Wr'. cbn [m_objBuffer]. now rewrite Wr, Fo, <- app_assoc.
Qed.

Lemma open_blocks call key L cs bs s : (0 < L)%nat -> Forall2 (opens call key L) cs bs ->
  well_formed (m_objBuffer s) -> m_pBuffer (m_objBuffer s) <> None ->
  exists s', run_blocks new_char call (Z.of_nat L) s key (concat bs) = Some (s', key, Lens (Z.of_nat (length (concat cs)))) /\
    returned (m_objBuffer s') (Z.of_nat (length (concat cs))) = Some (concat cs).
Proof.
  intros HL0 F W Hb. unfold run_blocks. destruct (reSet_spec _ W) as [Wr Wn].
  destruct (open_loop call key L cs bs HL0 F (length (concat bs)) {| m_acOutBuf := m_acOutBuf s; m_objBuffer := reSet (m_objBuffer s) |}
    0 Wr Hb (le_n _)) as (s' & E & W' & P' & Wc).
  rewrite E. cbn [obind m_objBuffer] in *. rewrite Wn in Wc. cbn [app] in Wc.
  exists s'. pose proof (length_written _ W') as LW. rewrite Wc in LW. unfold getLens. rewrite <- LW. split; [reflexivity|].
  rewrite returned_written by (assumption || lia). now rewrite Nat2Z.id, Wc, firstn_all.
Qed.
End Open.

(** ** The two ways through a key pair *)

(** The blocks that come out do not depend on what the output held. *)
Lemma NN_Encode_prefix o len b d : firstn len (NN_Encode o len b d) = rev (NN_Encode_loop d b len).
Proof.
  unfold NN_Encode. rewrite <- (NN_Encode_loop_length d b len) at 1. rewrite <- length_rev. apply firstn_store.
Qed.

Ltac same_steps :=
  repeat (match goal with
  | |- (if ?b then _ else _) = _ -> _ => destruct b; [try (now intros [=])|try (now intros [=])]
  | |- obind ?x _ = _ -> _ => destruct x; [cbn [obind]|now intros [=]]
  end).

Lemma RSAPrivateEncrypt_output o l input n priv s len :
  RSAPrivateEncrypt o l input n priv = Some (ID_OK, s, len) ->
  forall o' l', exists s', RSAPrivateEncrypt o' l' input n priv = Some (ID_OK, s', len) /\ firstn len s' = firstn len s.
Proof.
  intros E o' l'. revert E. unfold RSAPrivateEncrypt, rsaprivatefunc. cbv zeta.
  same_steps; intros [= <- <-]; (eexists; split; [reflexivity|now rewrite !NN_Encode_prefix]).
Qed.

Lemma RSAPublicEncrypt_output o l input n pub random s len r :
  RSAPublicEncrypt o l input n pub random = Some (ID_OK, s, len, r) ->
  forall o' l', exists s', RSAPublicEncrypt o' l' input n pub random = Some (ID_OK, s', len, r) /\
    firstn len s' = firstn len s.
Proof.
  intros E o' l'. revert E. unfold RSAPublicEncrypt, rsapublicfunc. cbv zeta. same_steps.
  destruct p as [b r1]. destruct (_ >=? 0); cbn [obind]; [now intros [=]|].
  destruct (NN_ModExp _ _ _ _ _ _); cbn [obind]; [|now intros [=]]. intros [=]. subst.
  eexists; split; [reflexivity|now rewrite !NN_Encode_prefix].
Qed.

Lemma prefix_app n (b rest : list Z) : (n <= length b)%nat -> firstn n (firstn n b ++ rest) = firstn n b.
Proof.
  intros H. rewrite firstn_app, firstn_firstn, Nat.min_id, length_firstn, Nat.min_l, Nat.sub_diag, firstn_O by lia.
  apply app_nil_r.
Qed.

Section Pair.
Context (pub : R_RSA_PUBLIC_KEY) (priv : R_RSA_PRIVATE_KEY) (K : key_pair pub priv).
Let L := modulusLen (pub_bits pub).
Context (HL12 : (12 <= L)%nat).

Lemma steps : w32 ((pub_bits pub + 7) / 8 - 11) = Z.of_nat L - 11 /\ w32 ((priv_bits priv + 7) / 8 - 11) = Z.of_nat L - 11 /\
  w32 ((pub_bits pub + 7) / 8) = Z.of_nat L /\ w32 ((priv_bits priv + 7) / 8) = Z.of_nat L.
Proof.
  destruct (pair_L pub priv K) as [_ L128]. fold L in L128. rewrite <- (kp_bits _ _ K).
  assert (E : (pub_bits pub + 7) / 8 = Z.of_nat L).
  { unfold L, modulusLen in *. destruct (Z.le_gt_cases 0 ((pub_bits pub + 7) / 8)); lia. }
  rewrite E. unfold w32. rewrite !Z.mod_small by lia. auto.
Qed.

Lemma private_sound kr : m_stPublicKey kr = pub ->
  call_sound (encrypt_block RSAType_Private) (Z.of_nat L - 11) (fun k => m_stPrivateKey k = priv)
    (opens (decrypt_block RSAType_Public) kr L) /\
  call_total (encrypt_block RSAType_Private) (Z.of_nat L - 11) (fun k => m_stPrivateKey k = priv).
Proof.
  intros Ek.
  assert (H : forall out t p, bytes p -> p <> [] -> let n := piece_len (Z.of_nat L - 11) p in
    exists s, RSAPrivateEncrypt out t p n priv = Some (ID_OK, s, L) /\ (L <= length s)%nat /\ bytes (firstn L s) /\
      forall o2 l2, exists o', RSAPublicDecrypt o2 l2 s L pub = Some (ID_OK, o', n) /\ firstn n o' = firstn n p).
  { intros out t p Bp Hp n. destruct (piece_len_spec (Z.of_nat L - 11) p ltac:(lia) Hp) as (Hn & Hn' & _). fold n in Hn, Hn'.
    pose proof (fun o2 l2 => type1_roundtrip pub priv K [] 0 o2 l2 p n (Forall_nil _) Bp ltac:(lia) ltac:(fold L; lia)) as T.
    fold L in T. destruct (T [] 0%nat) as (s0 & _ & E0 & B0 & _).
    destruct (RSAPrivateEncrypt_output _ _ _ _ _ _ _ E0 out t) as (s & E & F).
    exists s. splits; [exact E|exact (RSAPrivateEncrypt_length _ _ _ _ _ _ _ E)|rewrite F; now apply Forall_firstn|].
    intros o2 l2. destruct (T o2 l2) as (s' & o' & E' & _ & D & Fo). rewrite E0 in E'. injection E' as <-.
    exists o'. split; [|exact Fo]. rewrite (RSAPublicDecrypt_prefix _ _ _ s0) by exact F. exact D. }
  split.
  - intros key out t p n out' key' Ep Bp Hp. destruct (H out t p Bp Hp) as (s & E & Ls & Bs & D).
    destruct (piece_len_spec (Z.of_nat L - 11) p ltac:(lia) Hp) as (Hn & _).
    cbn [encrypt_block]. rewrite Ep, E. cbn [obind]. intros [= <- <- <-]. splits; [exact Ep|exact Ls|].
    split; [rewrite length_firstn; lia|]. split; [exact Bs|]. intros o2 l2 rest. destruct (D o2 l2) as (o' & Ed & Fd).
    exists o'. cbn [decrypt_block]. rewrite Ek.
    rewrite (RSAPublicDecrypt_prefix _ _ _ s) by now apply prefix_app.
    rewrite Ed, length_firstn, Nat.min_l by lia. auto.
  - intros key out t p Ep Bp Hp. destruct (H out t p Bp Hp) as (s & E & _).
    exists s, L, key. cbn [encrypt_block]. rewrite Ep, E. reflexivity.
Qed.

(** The random structure has to stay one of bytes. *)
Definition seeded (k : CRSAKey) : Prop := m_stPublicKey k = pub /\ bytes (output (m_stRandom k)).

Lemma public_sound kr : m_stPrivateKey kr = priv ->
  call_sound (encrypt_block RSAType_Public) (Z.of_nat L - 11) seeded (opens (decrypt_block RSAType_Private) kr L).
Proof.
  intros Ek key out t p n out' key' [Ep Br] Bp Hp.
  destruct (piece_len_spec (Z.of_nat L - 11) p ltac:(lia) Hp) as (Hn & Hn' & _).
  set (k := piece_len (Z.of_nat L - 11) p) in *. cbn [encrypt_block]. rewrite Ep.
  destruct (RSAPublicEncrypt out t p k pub (m_stRandom key)) as [[[[st s] l] r]|] eqn:E; [|discriminate].
  cbn [obind]. intros [= -> <- <- <-]. pose proof (RSAPublicEncrypt_length _ _ _ _ _ _ _ _ _ E) as Ls.
  destruct (Z.eq_dec (bytesNeeded (m_stRandom key)) 0) as [H0|H0];
    [|rewrite RSAPublicEncrypt_unseeded in E by (assumption || (fold L; lia)); discriminate E].
  destruct (put_random (L - k - 3) 2 (upd (upd pkcs0 0 0) 1 2) (m_stRandom key)) as [[b' r']|] eqn:ER.
  2:{ revert E. unfold RSAPublicEncrypt. fold L. rewrite (proj2 (Nat.ltb_ge L (k + 11))) by lia.
      unfold R_GetRandomBytesNeeded. rewrite H0. cbn [Z.eqb negb].
      replace (L - k - 1 - 2)%nat with (L - k - 3)%nat by lia. rewrite ER. discriminate. }
  pose proof (fun o2 l2 => type2_roundtrip pub priv K [] 0 o2 l2 p k (m_stRandom key) b' r' (Forall_nil _) Bp ltac:(lia)
    ltac:(fold L; lia) Br H0 ER) as T. fold L in T.
  destruct (RSAPublicEncrypt_output _ _ _ _ _ _ _ _ _ E [] 0) as (s0 & E0 & F).
  assert (Es : r = r' /\ l = L /\ bytes s0).
  { destruct (T [] 0%nat) as (c & Ec & Bc & _). rewrite E0 in Ec. injection Ec as -> -> ->. auto. }
  destruct Es as (-> & -> & Bs). splits; [split; [reflexivity|exact (put_random_output _ _ _ _ _ _ Br ER)]|exact Ls|].
  split; [rewrite length_firstn; lia|]. split; [rewrite <- F; now apply Forall_firstn|].
  intros o2 l2 rest. destruct (T o2 l2) as (c & Ec & _ & D).
  rewrite E0 in Ec. injection Ec as <-. rewrite (proj2 (Nat.eqb_neq k 0)) in D by lia. destruct D as (o' & Ed & Fd).
  exists o'. cbn [decrypt_block]. rewrite Ek.
  rewrite (RSAPrivateDecrypt_prefix _ _ _ s) by now apply prefix_app.
  rewrite (RSAPrivateDecrypt_prefix _ _ s s0) by now rewrite F.
  rewrite Ed, length_firstn, Nat.min_l by lia. auto.
Qed.
End Pair.

(** ** The claims *)

Lemma public_unseeded new_char s k m : (12 <= modulusLen (pub_bits (m_stPublicKey k)) <= 128)%nat ->
  bytesNeeded (m_stRandom k) <> 0 -> m <> [] ->
  exists s', publicKeyEncrypt new_char s k m = Some (s', k, Null).
Proof.
  intros HL H0 Hm. set (L := modulusLen (pub_bits (m_stPublicKey k))) in *.
  assert (Es : w32 ((pub_bits (m_stPublicKey k) + 7) / 8 - 11) = Z.of_nat L - 11).
  { assert (E : (pub_bits (m_stPublicKey k) + 7) / 8 = Z.of_nat L).
    { unfold L, modulusLen in *. destruct (Z.le_gt_cases 0 ((pub_bits (m_stPublicKey k) + 7) / 8)); lia. }
    rewrite E. unfold w32. apply Z.mod_small. lia. }
  unfold publicKeyEncrypt, RSAEncrypt, run_blocks. cbn [key_bits]. rewrite Es.
  destruct (piece_len_spec (Z.of_nat L - 11) m ltac:(lia) Hm) as (Hn & Hn' & _).
  destruct m as [|x m0]; [congruence|]. cbn [length block_loop]. set (m := x :: m0) in *.
  change (S (length m0)) with (length m). fold (piece_len (Z.of_nat L - 11) m).
  cbn [encrypt_block]. rewrite RSAPublicEncrypt_unseeded by (assumption || (fold L; lia)).
  cbn [obind Z.eqb RE_NEED_RANDOM negb]. destruct k. eexists. reflexivity.
Qed.

(** [CRSA] signs and opens messages of any length.  With a key pair whose modulus
    has twelve bytes or more, [privateKeyEncrypt] returns for every message, and
    [publicKeyDecrypt] on the other side, from any earlier state of its buffers, returns
    the message from the bytes it produced. *)
Theorem CRSA_private_public new_char
  (HL : forall n p, new_char n = Some p -> length p = Z.to_nat n) (HN : forall n, new_char n <> None)
  (ks kr : CRSAKey) (s t : CRSA) (m : list Z) :
  key_pair (m_stPublicKey kr) (m_stPrivateKey ks) -> (12 <= modulusLen (pub_bits (m_stPublicKey kr)))%nat ->
  crsa_ok s -> crsa_ok t -> bytes m ->
  exists s' ks' n c t', privateKeyEncrypt new_char s ks m = Some (s', ks', Lens n) /\
    returned (m_objBuffer s') n = Some c /\ n = Z.of_nat (length c) /\
    publicKeyDecrypt new_char t kr c = Some (t', kr, Lens (Z.of_nat (length m))) /\
    returned (m_objBuffer t') (Z.of_nat (length m)) = Some m.
Proof.
  intros K H12 Hs Ht Hm. destruct (steps _ _ K H12) as (_ & E1 & E2 & _).
  destruct (private_sound _ _ K H12 kr eq_refl) as [HS HT].
  unfold privateKeyEncrypt, publicKeyDecrypt, RSAEncrypt, RSADecrypt. cbn [key_bits]. rewrite E1, E2.
  destruct (run_blocks_total new_char HL HN _ (Z.of_nat (modulusLen (pub_bits (m_stPublicKey kr))) - 11) ltac:(lia) _ _ s ks m HS HT Hs eq_refl Hm) as (s' & ks' & n & E).
  destruct (run_blocks_sound new_char HL HN _ (Z.of_nat (modulusLen (pub_bits (m_stPublicKey kr))) - 11) ltac:(lia) _ _ s ks m s' ks' n HS Hs eq_refl Hm E)
    as (_ & _ & cs & bs & F & C & En & R).
  destruct (open_blocks new_char HL HN _ kr (modulusLen (pub_bits (m_stPublicKey kr))) cs bs t ltac:(lia) F (ok_buffer _ Ht) (ok_block _ Ht)) as (t' & D & Rt).
  rewrite C in D, Rt. exists s', ks', n, (concat bs), t'. auto.
Qed.

(** Claim C21: the other way.  When [publicKeyEncrypt] succeeds, [privateKeyDecrypt] returns
    the message; the random structure that draws the padding only has to hold bytes.  While
    it still needs bytes, every message but the empty one is refused, and nothing is
    drawn. *)
Theorem CRSA_public_private new_char
  (HL : forall n p, new_char n = Some p -> length p = Z.to_nat n) (HN : forall n, new_char n <> None)
  (ks kr : CRSAKey) (s t : CRSA) (m : list Z) :
  key_pair (m_stPublicKey ks) (m_stPrivateKey kr) -> (12 <= modulusLen (pub_bits (m_stPublicKey ks)))%nat ->
  crsa_ok s -> crsa_ok t -> bytes m -> bytes (output (m_stRandom ks)) ->
  (forall s' ks' n, publicKeyEncrypt new_char s ks m = Some (s', ks', Lens n) ->
    exists c t', returned (m_objBuffer s') n = Some c /\ n = Z.of_nat (length c) /\
      privateKeyDecrypt new_char t kr c = Some (t', kr, Lens (Z.of_nat (length m))) /\
      returned (m_objBuffer t') (Z.of_nat (length m)) = Some m) /\
  (bytesNeeded (m_stRandom ks) <> 0 -> m <> [] ->
    exists s', publicKeyEncrypt new_char s ks m = Some (s', ks, Null)).
Proof.
  intros K H12 Hs Ht Hm Hr. destruct (steps _ _ K H12) as (E1 & _ & _ & E2). split.
  - unfold publicKeyEncrypt, privateKeyDecrypt, RSAEncrypt, RSADecrypt. cbn [key_bits]. rewrite E1, E2.
    intros s' ks' n E. pose proof (public_sound _ _ K H12 kr eq_refl) as HS.
    destruct (run_blocks_sound new_char HL HN _ (Z.of_nat (modulusLen (pub_bits (m_stPublicKey ks))) - 11) ltac:(lia) _ _ s ks m s' ks' n HS Hs (conj eq_refl Hr) Hm E)
      as (_ & _ & cs & bs & F & C & En & R).
    destruct (open_blocks new_char HL HN _ kr (modulusLen (pub_bits (m_stPublicKey ks))) cs bs t ltac:(lia) F (ok_buffer _ Ht) (ok_block _ Ht)) as (t' & D & Rt).
    rewrite C in D, Rt. exists (concat bs), t'. auto.
  - intros H0 Hne. apply public_unseeded; auto. split; [exact H12|]. apply (pair_L _ _ K).
Qed.

Lemma CRSA_new_ok new_char : (forall n p, new_char n = Some p -> length p = Z.to_nat n) ->
  (forall n, new_char n <> None) -> crsa_ok (CRSA_new new_char).
Proof.
  intros HL HN. constructor; cbn [CRSA_new m_acOutBuf m_objBuffer].
  - now apply CBuffer_new_spec.
  - unfold CBuffer_new, New. cbn [m_pBuffer]. destruct (new_char (5 * 1024)) eqn:E; [discriminate|destruct (HN _ E)].
Qed.

Definition test_key : CRSAKey :=
  {| m_stRandom := test_random; m_stPublicKey := TestKey.public; m_stPrivateKey := TestKey.private |}.

(** A message of two blocks. *)
Lemma CRSA_private_public_witness :
  let m := map Z.of_nat (seq 0 60) in
  exists s' ks' n c t', privateKeyEncrypt fresh_block (CRSA_new fresh_block) test_key m = Some (s', ks', Lens n) /\
    returned (m_objBuffer s') n = Some c /\ n = Z.of_nat (length c) /\
    publicKeyDecrypt fresh_block (CRSA_new fresh_block) test_key c = Some (t', test_key, Lens 60) /\
    returned (m_objBuffer t') 60 = Some m.
Proof.
  apply (CRSA_private_public fresh_block fresh_block_length fresh_block_total test_key test_key
    (CRSA_new fresh_block) (CRSA_new fresh_block) (map Z.of_nat (seq 0 60))).
  - exact TestKey.pair.
  - apply Nat.leb_le. reflexivity.
  - apply CRSA_new_ok; [exact fresh_block_length|exact fresh_block_total].
  - apply CRSA_new_ok; [exact fresh_block_length|exact fresh_block_total].
  - check_bytes.
Defined.

Lemma test_encrypts :
  option_map snd (publicKeyEncrypt fresh_block (CRSA_new fresh_block) test_key [1; 2; 3]) = Some (Lens 64).
Proof. vm_compute. reflexivity. Qed.

Lemma CRSA_public_private_witness :
  let s := CRSA_new fresh_block in
  exists s' ks' n c t', publicKeyEncrypt fresh_block s test_key [1; 2; 3] = Some (s', ks', Lens n) /\
    returned (m_objBuffer s') n = Some c /\
    privateKeyDecrypt fresh_block s test_key c = Some (t', test_key, Lens 3) /\
    returned (m_objBuffer t') 3 = Some [1; 2; 3].
Proof.
  cbv zeta. destruct (CRSA_public_private fresh_block fresh_block_length fresh_block_total test_key test_key
    (CRSA_new fresh_block) (CRSA_new fresh_block) [1; 2; 3] TestKey.pair) as [H _].
  - apply Nat.leb_le. reflexivity.
  - apply CRSA_new_ok; [exact fresh_block_length|exact fresh_block_total].
  - apply CRSA_new_ok; [exact fresh_block_length|exact fresh_block_total].
  - check_bytes.
  - check_bytes.
  - pose proof test_encrypts as T.
    destruct (publicKeyEncrypt fresh_block (CRSA_new fresh_block) test_key [1; 2; 3]) as [[[s' ks'] [| |n]]|];
      try discriminate T.
    destruct (H s' ks' n eq_refl) as (c & t' & R & _ & D & Rt). exists s', ks', n, c, t'. auto.
Defined.
