(* ===== verification/RSAKey.v ===== *)
(** * RSAKey: key objects and their files (QBase/RSAKey.cpp)

    A key is saved as the memory of its structure in Base64 and loaded by copying the
    decoded bytes over the structure.  The structures are laid out as the compilers for the
    supported little-endian hosts lay them out: an [unsigned short] and arrays of bytes,
    or two [unsigned int] and arrays, with no padding. *)

From S2P Require Import Prelude StdLib Enum Rsaeuro Random KeyGen Base64 QRSA.

Definition RSAKeyMinLen : Z := 512.
Definition RSAKeyMaxLen : Z := 1024.

(** ** The memory of the structures *)

Definition public_image (k : R_RSA_PUBLIC_KEY) : list Z :=
  le_bytes 2 (pub_bits k) ++ pub_modulus k ++ pub_exponent k.

Definition private_image (k : R_RSA_PRIVATE_KEY) : list Z :=
  le_bytes 2 (priv_bits k) ++ priv_modulus k ++ publicExponent k ++ priv_exponent k ++
  prime0 k ++ prime1 k ++ primeExponent0 k ++ primeExponent1 k ++ coefficient k.

Definition random_image (r : R_RANDOM_STRUCT) : list Z :=
  le_bytes 4 (bytesNeeded r) ++ rstate r ++ le_bytes 4 (Z.of_nat (outputAvailable r)) ++ output r.

Definition sizeof_public : nat := 258.
Definition sizeof_private : nat := 706.
Definition sizeof_random : nat := 40.

(** A member of [n] bytes at offset [i]. *)
Definition member (i n : nat) (b : list Z) : list Z := firstn n (skipn i b).

Definition public_of (b : list Z) : R_RSA_PUBLIC_KEY :=
  mkPublicKey (le (member 0 2 b)) (member 2 128 b) (member 130 128 b).

Definition private_of (b : list Z) : R_RSA_PRIVATE_KEY :=
  mkPrivateKey (le (member 0 2 b)) (member 2 128 b) (member 130 128 b) (member 258 128 b)
    (member 386 64 b) (member 450 64 b) (member 514 64 b) (member 578 64 b) (member 642 64 b).

Definition random_of (b : list Z) : R_RANDOM_STRUCT :=
  mkRandom (le (member 0 4 b)) (member 4 16 b) (Z.to_nat (le (member 20 4 b))) (member 24 16 b).

(** ** Files *)

(** The files by name.  [writable] and [readable] tell whether [fopen] succeeds,
    [write_count] and [read_count] what [fwrite] and [fread] return, and [new_char] whether
    a buffer of that size can be had. *)
Definition files : Type := list Z -> option (list Z).

Section RSAKey.
Context (writable readable : list Z -> bool) (write_count read_count : list Z -> list Z -> nat)
  (new_char : nat -> bool).

Definition put_file (fs : files) (pszFile pszMsg : list Z) : files := fun p =>
  if list_eq_dec Z.eq_dec p pszFile then Some pszMsg else fs p.

(** Opening for writing empties the file; what was written stays in it when the call fails. *)
Definition fileWrite (fs : files) (pszMsg pszFile : list Z) : files * Z :=
  if negb (writable pszFile) then (fs, Q_RTN_FAILE)
  else
    let n := write_count pszFile pszMsg in
    (put_file fs pszFile (firstn n pszMsg),
     if negb (Nat.eqb (length pszMsg) n) then Q_RTN_FAILE else Q_RTN_OK).

(** The text up to the first NUL; no text when anything fails. *)
Definition fileRead (fs : files) (pszFile : list Z) : list Z :=
  match fs pszFile with
  | None => []
  | Some content =>
      if negb (new_char (length content + 1)) then []
      else if negb (readable pszFile) then []
      else if negb (Nat.eqb (length content) (read_count pszFile content)) then []
      else let pBuf := content ++ [0] in firstn (strlen pBuf) pBuf
  end.

(** The bytes that replace the structure, when they have its size. *)
Definition loadInfo (fs : files) (iLens : nat) (pszFile : list Z) : option (list Z) :=
  let strFileInfo := fileRead fs pszFile in
  match strFileInfo with
  | [] => None
  | _ =>
      let strBuf := Decode strFileInfo in
      if negb (Nat.eqb (length strBuf) iLens) then None else Some strBuf
  end.

Definition saveRandom (fs : files) (key : CRSAKey) (pszFile : list Z) : files * Z :=
  fileWrite fs (Encode (random_image (m_stRandom key))) pszFile.
Definition savePublicKey (fs : files) (key : CRSAKey) (pszFile : list Z) : files * Z :=
  fileWrite fs (Encode (public_image (m_stPublicKey key))) pszFile.
Definition savePrivateKey (fs : files) (key : CRSAKey) (pszFile : list Z) : files * Z :=
  fileWrite fs (Encode (private_image (m_stPrivateKey key))) pszFile.

Definition loadPublicKey (fs : files) (key : CRSAKey) (pszFile : list Z) : CRSAKey * Z :=
  match loadInfo fs sizeof_public pszFile with
  | None => (key, Q_RTN_FAILE)
  | Some b => ({| m_stRandom := m_stRandom key; m_stPublicKey := public_of b;
                  m_stPrivateKey := m_stPrivateKey key |}, Q_RTN_OK)
  end.
Definition loadPrivateKey (fs : files) (key : CRSAKey) (pszFile : list Z) : CRSAKey * Z :=
  match loadInfo fs sizeof_private pszFile with
  | None => (key, Q_RTN_FAILE)
  | Some b => ({| m_stRandom := m_stRandom key; m_stPublicKey := m_stPublicKey key;
                  m_stPrivateKey := private_of b |}, Q_RTN_OK)
  end.
Definition loadRandom (fs : files) (key : CRSAKey) (pszFile : list Z) : CRSAKey * Z :=
  match loadInfo fs sizeof_random pszFile with
  | None => (key, Q_RTN_FAILE)
  | Some b => ({| m_stRandom := random_of b; m_stPublicKey := m_stPublicKey key;
                  m_stPrivateKey := m_stPrivateKey key |}, Q_RTN_OK)
  end.

(** [creatKey]: [read] gives the clock readings of the seeding and [idums] the state of its
    generator; [fuel] bounds the search for primes. *)
Definition creatKey (read : nat -> readings) (idums : Z) (fuel : nat) (key : CRSAKey) (usKeyLens : Z)
  : option (CRSAKey * Z) :=
  if (usKeyLens <? RSAKeyMinLen) || (usKeyLens >? RSAKeyMaxLen) then Some (key, Q_RTN_FAILE)
  else
    let? random := R_RandomCreate read idums (m_stRandom key) in
    let? (iRtn, pub, priv, random) :=
      R_GeneratePEMKeys fuel (m_stPublicKey key) (m_stPrivateKey key) (mkProtoKey usKeyLens true) random in
    Some ({| m_stRandom := random; m_stPublicKey := pub; m_stPrivateKey := priv |}, iRtn).

End RSAKey.

(** ** Structures and their memory *)

Record public_struct (k : R_RSA_PUBLIC_KEY) : Prop := {
  pu_bits : 0 <= pub_bits k < 2 ^ 16;
  pu_bytes : bytes (pub_modulus k ++ pub_exponent k);
  pu_lengths : length (pub_modulus k) = 128%nat /\ length (pub_exponent k) = 128%nat
}.

Record private_struct (k : R_RSA_PRIVATE_KEY) : Prop := {
  pr_bits : 0 <= priv_bits k < 2 ^ 16;
  pr_bytes : bytes (priv_modulus k ++ publicExponent k ++ priv_exponent k ++ prime0 k ++ prime1 k ++
                    primeExponent0 k ++ primeExponent1 k ++ coefficient k);
  pr_lengths : length (priv_modulus k) = 128%nat /\ length (publicExponent k) = 128%nat /\
    length (priv_exponent k) = 128%nat /\ length (prime0 k) = 64%nat /\ length (prime1 k) = 64%nat /\
    length (primeExponent0 k) = 64%nat /\ length (primeExponent1 k) = 64%nat /\ length (coefficient k) = 64%nat
}.

Record random_struct (r : R_RANDOM_STRUCT) : Prop := {
  ra_counts : 0 <= bytesNeeded r < 2 ^ 32 /\ Z.of_nat (outputAvailable r) < 2 ^ 32;
  ra_bytes : bytes (rstate r) /\ bytes (output r);
  ra_lengths : length (rstate r) = 16%nat /\ length (output r) = 16%nat
}.

Lemma member_head (a r : list Z) n : length a = n -> member 0 n (a ++ r) = a.
Proof. intros <-. unfold member. cbn [skipn]. apply firstn_app_len. Qed.

Lemma member_skip (a r : list Z) i n : (length a <= i)%nat -> member i n (a ++ r) = member (i - length a) n r.
Proof. intros H. unfold member. f_equal. rewrite skipn_app, skipn_all2 by exact H. reflexivity. Qed.

Lemma member_all (a : list Z) n : length a = n -> member 0 n a = a.
Proof. intros <-. apply firstn_all. Qed.

(** Reads the member a concatenation of members of known lengths has at an offset. *)
Ltac known_lengths := rewrite ?length_le_bytes; repeat match goal with
  | H : length ?a = _ |- context [length ?a] => rewrite H
  end.
Ltac read_member := repeat match goal with
  | |- context [member 0 ?n (?a ++ ?r)] => rewrite (member_head a r n) by (known_lengths; reflexivity)
  | |- context [member ?i ?n (?a ++ ?r)] =>
      rewrite (member_skip a r i n) by (known_lengths; lia); known_lengths; cbn [Nat.sub]
  | |- context [member 0 ?n ?a] => rewrite (member_all a n) by (known_lengths; reflexivity)
  end.

Lemma le_le_bytes_small n x : 0 <= x < Pn n -> le (le_bytes n x) = x.
Proof. intros H. rewrite le_le_bytes. now apply Z.mod_small. Qed.

Lemma public_of_image k : public_struct k ->
  public_of (public_image k) = k /\ length (public_image k) = sizeof_public /\ bytes (public_image k).
Proof.
  intros [Hb B [L1 L2]]. unfold public_image. splits.
  - unfold public_of. destruct k as [b m e]. cbn [pub_bits pub_modulus pub_exponent] in *.
    read_member. now rewrite le_le_bytes_small.
  - rewrite !length_app. now known_lengths.
  - apply Forall_app. auto with words.
Qed.

Lemma private_of_image k : private_struct k ->
  private_of (private_image k) = k /\ length (private_image k) = sizeof_private /\ bytes (private_image k).
Proof.
  intros [Hb B (L1 & L2 & L3 & L4 & L5 & L6 & L7 & L8)]. unfold private_image. splits.
  - unfold private_of. destruct k as [b m e d p q dp dq c].
    cbn [priv_bits priv_modulus publicExponent priv_exponent prime0 prime1 primeExponent0 primeExponent1 coefficient] in *.
    read_member. now rewrite le_le_bytes_small.
  - rewrite !length_app. now known_lengths.
  - apply Forall_app. auto with words.
Qed.

Lemma random_of_image r : random_struct r ->
  random_of (random_image r) = r /\ length (random_image r) = sizeof_random /\ bytes (random_image r).
Proof.
  intros [[H0 H1] [B1 B2] [L1 L2]]. unfold random_image. splits.
  - unfold random_of. destruct r as [n st av o]. cbn [bytesNeeded rstate outputAvailable output] in *.
    read_member. rewrite !le_le_bytes_small, Nat2Z.id by (split; [lia|first [exact (proj2 H0)|exact H1]]). reflexivity.
  - rewrite !length_app. now known_lengths.
  - rewrite !Forall_app. splits; auto with words.
Qed.

(** ** Files *)

Section Files.
Context (writable readable : list Z -> bool) (write_count read_count : list Z -> list Z -> nat)
  (new_char : nat -> bool).
Context (Hread : forall path c, readable path = true /\ read_count path c = length c) (Hnew : forall n, new_char n = true).

(** What is written whole is read back as text. *)
Lemma write_read fs fs' msg path : Forall (fun c => c <> 0) msg -> (forall m, (write_count path m <= length m)%nat) ->
  fileWrite writable write_count fs msg path = (fs', Q_RTN_OK) ->
  fileRead readable read_count new_char fs' path = msg /\ forall q, q <> path -> fs' q = fs q.
Proof.
  intros Hm Hw. unfold fileWrite. destruct (writable path); cbn [negb]; [|discriminate].
  destruct (Nat.eqb_spec (length msg) (write_count path msg)) as [E|]; cbn [negb]; [|discriminate].
  intros [= <-]. rewrite <- E, firstn_all. split.
  - unfold fileRead, put_file. destruct (list_eq_dec Z.eq_dec path path); [|congruence].
    destruct (Hread path msg) as [-> ->]. rewrite Hnew, Nat.eqb_refl. cbn [negb]. cbv zeta.
    rewrite (strlen_app msg Hm). apply firstn_app_len.
  - intros q Hq. unfold put_file. destruct (list_eq_dec Z.eq_dec q path); congruence.
Qed.

Lemma base64_no_nul l : bytes l -> Forall (fun c => c <> 0) (Encode l).
Proof.
  intros H. eapply Forall_impl; [|exact (Encode_chars l H)]. cbv beta. intros c H0 ->. destruct H0 as [H0|H0]; discriminate H0.
Qed.

Lemma save_load fs fs' image path : bytes image -> image <> [] -> (forall m, (write_count path m <= length m)%nat) ->
  fileWrite writable write_count fs (Encode image) path = (fs', Q_RTN_OK) ->
  loadInfo readable read_count new_char fs' (length image) path = Some image.
Proof.
  intros B Hne Hw E. destruct (write_read _ _ _ _ (base64_no_nul _ B) Hw E) as [R _].
  unfold loadInfo. rewrite R. pose proof (Base64_Decode_Encode image B) as D.
  destruct (Encode image) as [|c l]; [cbn in D; congruence|]. now rewrite D, Nat.eqb_refl.
Qed.
End Files.

(** ** The claims *)

(** Claim C22: key files round-trip.  Whatever key object saves its random structure, its
    public key or its private key to a file with success, any other object that loads the
    file afterwards succeeds and has that structure, byte for byte, and nothing else of it
    has changed. *)
Theorem key_files_roundtrip writable readable write_count read_count new_char fs fs' (k k' : CRSAKey) path :
  (forall path c, readable path = true /\ read_count path c = length c) -> (forall n, new_char n = true) ->
  (forall m, (write_count path m <= length m)%nat) ->
  random_struct (m_stRandom k) -> public_struct (m_stPublicKey k) -> private_struct (m_stPrivateKey k) ->
  (saveRandom writable write_count fs k path = (fs', Q_RTN_OK) ->
     loadRandom readable read_count new_char fs' k' path =
       ({| m_stRandom := m_stRandom k; m_stPublicKey := m_stPublicKey k'; m_stPrivateKey := m_stPrivateKey k' |}, Q_RTN_OK)) /\
  (savePublicKey writable write_count fs k path = (fs', Q_RTN_OK) ->
     loadPublicKey readable read_count new_char fs' k' path =
       ({| m_stRandom := m_stRandom k'; m_stPublicKey := m_stPublicKey k; m_stPrivateKey := m_stPrivateKey k' |}, Q_RTN_OK)) /\
  (savePrivateKey writable write_count fs k path = (fs', Q_RTN_OK) ->
     loadPrivateKey readable read_count new_char fs' k' path =
       ({| m_stRandom := m_stRandom k'; m_stPublicKey := m_stPublicKey k'; m_stPrivateKey := m_stPrivateKey k |}, Q_RTN_OK)).
Proof.
  intros Hr Hn Hw Sr Su Sp.
  destruct (random_of_image _ Sr) as (Er & Lr & Br). destruct (public_of_image _ Su) as (Eu & Lu & Bu).
  destruct (private_of_image _ Sp) as (Ep & Lp & Bp).
  assert (Ne : forall l n, length l = S n -> l <> [] :> list Z) by (intros l n L ->; discriminate L).
  splits; intros E.
  - unfold loadRandom. rewrite <- Lr, (save_load _ _ _ _ _ Hr Hn _ _ _ _ Br (Ne _ _ Lr) Hw E), Er. reflexivity.
  - unfold loadPublicKey. rewrite <- Lu, (save_load _ _ _ _ _ Hr Hn _ _ _ _ Bu (Ne _ _ Lu) Hw E), Eu. reflexivity.
  - unfold loadPrivateKey. rewrite <- Lp, (save_load _ _ _ _ _ Hr Hn _ _ _ _ Bp (Ne _ _ Lp) Hw E), Ep. reflexivity.
Qed.

Definition no_files : files := fun _ => None.
Definition empty_key : CRSAKey :=
  {| m_stRandom := mkRandom 0 (repeat 0 16) 0 (repeat 0 16); m_stPublicKey := mkPublicKey 0 (repeat 0 128) (repeat 0 128);
     m_stPrivateKey := mkPrivateKey 0 (repeat 0 128) (repeat 0 128) (repeat 0 128) (repeat 0 64) (repeat 0 64)
       (repeat 0 64) (repeat 0 64) (repeat 0 64) |}.

Lemma key_files_roundtrip_witness :
  let yes := fun _ : list Z => true in let all := fun _ c : list Z => length c in
  let fs' := fst (savePublicKey yes all no_files test_key [107]) in
  loadPublicKey yes all (fun _ => true) fs' empty_key [107] =
    ({| m_stRandom := m_stRandom empty_key; m_stPublicKey := m_stPublicKey test_key;
        m_stPrivateKey := m_stPrivateKey empty_key |}, Q_RTN_OK).
Proof.
  cbv zeta.
  destruct (key_files_roundtrip (fun _ => true) (fun _ => true) (fun _ c => length c) (fun _ c => length c) (fun _ => true)
    no_files (fst (savePublicKey (fun _ => true) (fun _ c => length c) no_files test_key [107])) test_key empty_key [107])
    as (_ & H & _).
  - auto.
  - reflexivity.
  - intros. apply le_n.
  - constructor; [split; [split; [discriminate|reflexivity]|reflexivity]|split; check_bytes|split; reflexivity].
  - constructor; [split; [discriminate|reflexivity]|check_bytes|split; reflexivity].
  - constructor; [split; [discriminate|reflexivity]|check_bytes|splits; reflexivity].
  - apply H. reflexivity.
Defined.
