(* ===== verification/ObjectPool.v ===== *)
(** * ObjectPool: the object pool [CObjPool] (QBase/ObjectPool.h)

    Objects are the addresses of a heap, which [new T] extends and which the pool never
    shrinks before it is destroyed: a pointer to a freed object still reads the object. *)

From S2P Require Import Prelude.
From stdpp Require Import gmap sets list.

Abbreviation addr := positive.

Section ObjectPool.
Context {T : Type} (new_T : T).

(** [next] is the address the next [new] returns. *)
Record CObjPool := {
  m_uiCount : Z;
  m_lstUsed : list addr;
  m_quFree : list addr;
  heap : gmap addr T;
  next : addr
}.

Definition empty_pool : CObjPool :=
  {| m_uiCount := 0; m_lstUsed := []; m_quFree := []; heap := ∅; next := 1 |}.

Definition alloc (p : CObjPool) : CObjPool * addr :=
  ({| m_uiCount := m_uiCount p; m_lstUsed := m_lstUsed p; m_quFree := m_quFree p;
      heap := <[next p := new_T]> (heap p); next := Pos.succ (next p) |}, next p).

Definition push_free (p : CObjPool) (a : addr) : CObjPool :=
  {| m_uiCount := m_uiCount p; m_lstUsed := m_lstUsed p; m_quFree := m_quFree p ++ [a];
     heap := heap p; next := next p |}.

Fixpoint Init (n : nat) (p : CObjPool) : CObjPool :=
  match n with
  | O => p
  | S n' => let (p', a) := alloc p in Init n' (push_free p' a)
  end.

Definition Malloc (p : CObjPool) : CObjPool * addr :=
  let use p a fr :=
    ({| m_uiCount := w32 (m_uiCount p + 1); m_lstUsed := m_lstUsed p ++ [a]; m_quFree := fr;
        heap := heap p; next := next p |}, a) in
  match m_quFree p with
  | [] => let (p', a) := alloc p in use p' a []
  | a :: fr => use p a fr
  end.

(** The loop of [Free]: the used list without the first occurrence of the address. *)
Fixpoint erase (a : addr) (l : list addr) : option (list addr) :=
  match l with
  | [] => None
  | b :: l' => if Pos.eqb b a then Some l'
               else match erase a l' with None => None | Some l'' => Some (b :: l'') end
  end.

Definition Free (p : CObjPool) (pObj : option addr) : CObjPool :=
  match pObj with
  | None => p
  | Some a =>
      match erase a (m_lstUsed p) with
      | None => p
      | Some used => {| m_uiCount := w32 (m_uiCount p - 1); m_lstUsed := used;
                        m_quFree := m_quFree p ++ [a]; heap := heap p; next := next p |}
      end
  end.

Definition getUsedSize (p : CObjPool) : Z := Z.of_nat (length (m_lstUsed p)).
Definition getFreeSize (p : CObjPool) : Z := Z.of_nat (length (m_quFree p)).

(** Storing into an object. *)
Definition set_obj (p : CObjPool) (a : addr) (x : T) : CObjPool :=
  {| m_uiCount := m_uiCount p; m_lstUsed := m_lstUsed p; m_quFree := m_quFree p;
     heap := <[a := x]> (heap p); next := next p |}.

(** ** The invariant *)

(** Every object of the heap is in exactly one of the two lists, once; the counter
    counts the used ones. *)
Definition pool_ok (p : CObjPool) : Prop :=
  NoDup (m_lstUsed p ++ m_quFree p) /\
  (forall a, a ∈ m_lstUsed p ++ m_quFree p <-> is_Some (heap p !! a)) /\
  (forall a, is_Some (heap p !! a) -> (a < next p)%positive) /\
  m_uiCount p = w32 (Z.of_nat (length (m_lstUsed p))).

Lemma empty_pool_ok : pool_ok empty_pool.
Proof.
  unfold pool_ok. cbn. splits.
  - constructor.
  - intros a. rewrite lookup_empty. split; [intros H; inversion H | intros [? H]; discriminate].
  - intros a. rewrite lookup_empty. intros [? H]; discriminate.
  - reflexivity.
Qed.

Lemma alloc_push_ok p : pool_ok p -> let (p', a) := alloc p in pool_ok (push_free p' a).
Proof.
  intros (H1 & H2 & H3 & H4). cbn.
  assert (Hn : next p ∉ m_lstUsed p ++ m_quFree p).
  { intros H. apply H2, H3 in H. lia. }
  unfold pool_ok. cbn. splits.
  - rewrite app_assoc. apply NoDup_app. splits; [exact H1 | | apply NoDup_singleton].
    intros a Ha ->%list_elem_of_singleton. auto.
  - intros a. rewrite app_assoc, elem_of_app, list_elem_of_singleton, H2.
    destruct (decide (a = next p)) as [-> | Ha].
    + rewrite lookup_insert_eq. split; eauto.
    + rewrite lookup_insert_ne by auto. split; [intros [? | ?]; [auto | contradiction] | auto].
  - intros a. destruct (decide (a = next p)) as [-> | Ha]; [intros; lia|].
    rewrite lookup_insert_ne by auto. intros H%H3. lia.
  - exact H4.
Qed.

Lemma Init_ok n p : pool_ok p -> pool_ok (Init n p).
Proof.
  revert p. induction n as [|n IH]; intros p Hp; [exact Hp|].
  apply IH. exact (alloc_push_ok p Hp).
Qed.

Lemma Init_sizes n p : length (m_lstUsed (Init n p)) = length (m_lstUsed p) /\
  length (m_quFree (Init n p)) = (length (m_quFree p) + n)%nat.
Proof.
  revert p. induction n as [|n IH]; intros p; [cbn; lia|].
  cbn [Init alloc]. destruct (IH (push_free (fst (alloc p)) (next p))) as [H1 H2].
  cbn in *. rewrite length_app in H2. cbn in H2. split; [exact H1 | lia].
Qed.

Lemma w32_succ n : w32 (w32 (Z.of_nat n) + 1) = w32 (Z.of_nat (n + 1)).
Proof. rewrite w32_idemp_l. f_equal. lia. Qed.

(** [Malloc] hands out an object nobody holds. *)
Lemma Malloc_spec p : pool_ok p ->
  let (p', a) := Malloc p in
  pool_ok p' /\ (a ∉ m_lstUsed p) /\ m_lstUsed p' = m_lstUsed p ++ [a] /\
  is_Some (heap p' !! a) /\
  (forall b, is_Some (heap p !! b) -> heap p' !! b = heap p !! b) /\
  (m_quFree p = [] -> heap p' !! a = Some new_T) /\
  (length (m_lstUsed p') + length (m_quFree p') =
     Nat.max (length (m_lstUsed p) + length (m_quFree p)) (length (m_lstUsed p) + 1))%nat.
Proof.
  intros Hp. unfold Malloc. destruct (m_quFree p) as [|a fr] eqn:Ef.
  - pose proof (alloc_push_ok p Hp) as (H1 & H2 & H3 & H4). cbn in *. rewrite Ef in *. cbn in *.
    destruct Hp as (P1 & P2 & P3 & P4). rewrite Ef, app_nil_r in *.
    assert (Hn : next p ∉ m_lstUsed p) by (intros H; apply P2, P3 in H; lia).
    unfold pool_ok. cbn. rewrite !app_nil_r. splits; auto.
    + rewrite H4, w32_succ, length_app. reflexivity.
    + rewrite lookup_insert_eq. eauto.
    + intros b Hb. apply lookup_insert_ne. intros <-. apply P3 in Hb. lia.
    + rewrite lookup_insert_eq. auto.
    + rewrite length_app. cbn. lia.
  - destruct Hp as (P1 & P2 & P3 & P4). rewrite Ef in *.
    assert (Hperm : forall b, b ∈ (m_lstUsed p ++ [a]) ++ fr <-> b ∈ m_lstUsed p ++ a :: fr)
      by (intros b; rewrite <- app_assoc; reflexivity).
    unfold pool_ok. cbn. splits; auto; try congruence.
    + rewrite <- app_assoc. exact P1.
    + intros b. rewrite Hperm. apply P2.
    + rewrite P4, w32_succ, length_app. reflexivity.
    + apply NoDup_app in P1 as (_ & H & _). intros Ha. apply (H a Ha). left.
    + apply P2. rewrite elem_of_app. right. left.
    + rewrite length_app. cbn. lia.
Qed.

Lemma erase_some a l l' : NoDup l -> erase a l = Some l' ->
  a ∈ l /\ NoDup l' /\ (a ∉ l') /\ (forall b, b ∈ l <-> b = a \/ b ∈ l') /\ length l = S (length l').
Proof.
  intros Hl; revert l'. induction Hl as [|b l Hb Hl IH]; intros l'; cbn; [discriminate|].
  destruct (Pos.eqb_spec b a) as [-> | Hne].
  - intros [= <-]. splits; auto; [left | intros c; rewrite elem_of_cons; tauto].
  - destruct (erase a l) as [l''|]; [|discriminate]. intros [= <-].
    destruct (IH l'' eq_refl) as (H1 & H2 & H3 & H4 & H5). splits.
    + now right.
    + constructor; [|exact H2]. intros H. apply Hb, H4. auto.
    + rewrite elem_of_cons. intros [-> | H]; auto.
    + intros c. rewrite !elem_of_cons, H4. tauto.
    + cbn. lia.
Qed.

Lemma erase_none a l : erase a l = None <-> a ∉ l.
Proof.
  induction l as [|b l IH]; cbn; [split; [intros _ H; inversion H | reflexivity]|].
  rewrite elem_of_cons. destruct (Pos.eqb_spec b a) as [-> | Hne].
  - split; [discriminate | intros H; exfalso; auto].
  - destruct (erase a l); rewrite <- ?IH; [split; [discriminate|] | intuition congruence].
    intros H. exfalso. assert (a ∉ l) by tauto. apply IH in H0. discriminate.
Qed.

(** [Free] returns a used object to the pool and ignores every other address. *)
Lemma Free_spec p a : pool_ok p ->
  pool_ok (Free p (Some a)) /\ heap (Free p (Some a)) = heap p /\
  (a ∈ m_lstUsed p ->
     (a ∉ m_lstUsed (Free p (Some a))) /\ a ∈ m_quFree (Free p (Some a)) /\
     forall b, b ∈ m_lstUsed p <-> b = a \/ b ∈ m_lstUsed (Free p (Some a))) /\
  (a ∉ m_lstUsed p -> Free p (Some a) = p).
Proof.
  intros Hp. cbn. destruct (erase a (m_lstUsed p)) as [used|] eqn:E.
  - destruct Hp as (P1 & P2 & P3 & P4). apply NoDup_app in P1 as (N1 & N2 & N3).
    destruct (erase_some a _ _ N1 E) as (H1 & H2 & H3 & H4 & H5).
    unfold pool_ok. cbn. splits; auto.
    + rewrite app_assoc. apply NoDup_app. splits; [| | apply NoDup_singleton].
      * apply NoDup_app. splits; auto. intros b Hb. apply N2, H4. auto.
      * intros b Hb ->%list_elem_of_singleton. apply elem_of_app in Hb as [Hb | Hb]; [auto|].
        exact (N2 a H1 Hb).
    + intros b. rewrite <- P2, !elem_of_app, list_elem_of_singleton, H4. tauto.
    + rewrite P4, H5. unfold w32. rewrite Zminus_mod_idemp_l. f_equal. lia.
    + intros _. splits; auto. apply elem_of_app. right. left.
    + intros H. contradiction.
  - splits; auto. intros H. apply erase_none in E. contradiction.
Qed.

Lemma set_obj_ok p a x : pool_ok p -> is_Some (heap p !! a) -> pool_ok (set_obj p a x).
Proof.
  intros (P1 & P2 & P3 & P4) Ha. unfold pool_ok. cbn. splits; auto.
  - intros b. rewrite P2. destruct (decide (b = a)) as [-> | Hb].
    + rewrite lookup_insert_eq. split; eauto.
    + rewrite lookup_insert_ne by auto. reflexivity.
  - intros b. destruct (decide (b = a)) as [-> | Hb]; [intros _; auto|].
    rewrite lookup_insert_ne by auto. auto.
Qed.

End ObjectPool.

Arguments CObjPool : clear implicits.
