(* ===== verification/CommEncrypt.v ===== *)
(** * CommEncrypt: the cipher chain of a connection (QBase/CommEncrypt.cpp)

    Messages to clients and messages between servers each go through a configured list
    of transformations.  The transformations themselves are the interface [Ciphers];
    a client proves against it, and the files of the single ciphers discharge it. *)

From S2P Require Import Prelude BufferMgr.

Inductive EncryptType := AES | RSA | ZLib.

(** What [CEncrypt] offers: each operation may change the state it works with (the
    random structure of RSA), and returns [None] for the null pointer. *)
Class Ciphers (S : Type) := {
  aesEncode : S -> list Z -> S * option (list Z);
  aesDecode : S -> list Z -> S * option (list Z);
  publicKeyEncrypt : S -> list Z -> S * option (list Z);
  privateKeyEncrypt : S -> list Z -> S * option (list Z);
  publicKeyDecrypt : S -> list Z -> S * option (list Z);
  zlibCompress : S -> list Z -> S * option (list Z);
  zlibDecompression : S -> list Z -> S * option (list Z)
}.

Section CommEncrypt.
Context {S : Type} {C : Ciphers S} (new_char : Z -> option (list Z)).

Record CCommEncrypt := {
  m_objBuffer : CBuffer;
  m_vcClinetType : list EncryptType;
  m_vcSVLinkType : list EncryptType
}.

Definition set_buffer (s : CCommEncrypt) (b : CBuffer) : CCommEncrypt :=
  {| m_objBuffer := b; m_vcClinetType := m_vcClinetType s; m_vcSVLinkType := m_vcSVLinkType s |}.

Definition addType (s : CCommEncrypt) (emType : EncryptType) (bSVLink : bool) : CCommEncrypt :=
  if bSVLink then
    {| m_objBuffer := m_objBuffer s; m_vcClinetType := m_vcClinetType s;
       m_vcSVLinkType := m_vcSVLinkType s ++ [emType] |}
  else
    {| m_objBuffer := m_objBuffer s; m_vcClinetType := m_vcClinetType s ++ [emType];
       m_vcSVLinkType := m_vcSVLinkType s |}.

Definition encode_one (bSVLink : bool) (t : EncryptType) (c : S) (l : list Z) : S * option (list Z) :=
  match t with
  | AES => aesEncode c l
  | RSA => if bSVLink then privateKeyEncrypt c l else publicKeyEncrypt c l
  | ZLib => zlibCompress c l
  end.

Definition decode_one (t : EncryptType) (c : S) (l : list Z) : S * option (list Z) :=
  match t with
  | AES => aesDecode c l
  | RSA => publicKeyDecrypt c l
  | ZLib => zlibDecompression c l
  end.

(** [reSet] and [pushBuff] of a result.  An allocation that fails is an exception that
    leaves the event loop, which the model does not follow. *)
Definition refill (s : CCommEncrypt) (out : list Z) : CCommEncrypt :=
  set_buffer s (fst (pushBuff new_char (reSet (m_objBuffer s)) (Some out) (Z.of_nat (length out)))).

(** The loop over the types: the first transformation reads the message, the others the
    buffer.  [false] is the exit with the null pointer. *)
Fixpoint transform (one : EncryptType -> S -> list Z -> S * option (list Z))
    (types : list EncryptType) (bFirst : bool) (msg : list Z) (s : CCommEncrypt) (c : S)
  : CCommEncrypt * S * bool :=
  match types with
  | [] => (s, c, true)
  | t :: r =>
      match one t c (if bFirst then msg else written (m_objBuffer s)) with
      | (c, None) => (s, c, false)
      | (c, Some out) => transform one r false msg (refill s out) c
      end
  end.

Definition chain one types (msg : list Z) (s : CCommEncrypt) (c : S)
  : CCommEncrypt * S * option (list Z) :=
  match transform one types true msg s c with
  | (s, c, false) => (s, c, None)
  | (s, c, true) => (s, c, Some (written (m_objBuffer s)))
  end.

Definition types_of (s : CCommEncrypt) (bSVLink : bool) : list EncryptType :=
  if bSVLink then m_vcSVLinkType s else m_vcClinetType s.

(** [Encode] and [Decode]: the message is [None] for a null pointer. *)
Definition Encode (s : CCommEncrypt) (c : S) (pszMsg : option (list Z)) (bSVLink : bool)
  : CCommEncrypt * S * option (list Z) :=
  match m_vcClinetType s, pszMsg with
  | [], _ => (s, c, pszMsg)
  | _, None | _, Some [] => (s, c, pszMsg)
  | _, Some msg => chain (encode_one bSVLink) (types_of s bSVLink) msg s c
  end.

Definition Decode (s : CCommEncrypt) (c : S) (pszMsg : option (list Z)) (bSVLink : bool)
  : CCommEncrypt * S * option (list Z) :=
  match m_vcClinetType s, pszMsg with
  | [], _ => (s, c, pszMsg)
  | _, None | _, Some [] => (s, c, pszMsg)
  | _, Some msg => chain decode_one (rev (types_of s bSVLink)) msg s c
  end.

(** ** The chain as a composition *)

(** What the transformations do one after the other. *)
Fixpoint compose (one : EncryptType -> S -> list Z -> S * option (list Z))
    (types : list EncryptType) (msg : list Z) (c : S) : S * option (list Z) :=
  match types with
  | [] => (c, Some msg)
  | t :: r => match one t c msg with (c, None) => (c, None) | (c, Some out) => compose one r out c end
  end.

Context (new_char_length : forall n p, new_char n = Some p -> length p = Z.to_nat n).
Context (new_char_ok : forall n, new_char n <> None).

Lemma refill_spec s out : well_formed (m_objBuffer s) ->
  well_formed (m_objBuffer (refill s out)) /\ written (m_objBuffer (refill s out)) = out /\
  m_vcClinetType (refill s out) = m_vcClinetType s /\ m_vcSVLinkType (refill s out) = m_vcSVLinkType s.
Proof.
  intros Hw. unfold refill. destruct (reSet_spec _ Hw) as [H1 H2].
  pose proof (pushBuff_total new_char (reSet (m_objBuffer s)) (Some out) (Z.of_nat (length out)) new_char_ok) as Ht.
  pose proof (pushBuff_spec new_char new_char_length (reSet (m_objBuffer s)) (Some out)
    (Z.of_nat (length out))) as Hp.
  destruct (pushBuff _ _ _ _) as [b ok]. cbn in Ht. subst ok.
  destruct (Hp b H1 ltac:(lia) ltac:(lia) eq_refl) as (H3 & _ & _ & H4).
  cbn [m_objBuffer set_buffer m_vcClinetType m_vcSVLinkType fst].
  rewrite H4, H2, Nat2Z.id, firstn_all. splits; auto.
Qed.

(** After the first transformation the message is no longer read. *)
Lemma transform_rest one r m m' : forall s c,
  transform one r false m s c = transform one r false m' s c.
Proof.
  induction r as [|t r IH]; intros s c; cbn; [reflexivity|].
  destruct (one t c _) as [c1 [out|]]; auto.
Qed.

Lemma transform_compose one types : forall bFirst msg s c, well_formed (m_objBuffer s) ->
  (bFirst = false -> written (m_objBuffer s) = msg) -> (types <> [] \/ bFirst = false) ->
  let '(s', c', ok) := transform one types bFirst msg s c in
  well_formed (m_objBuffer s') /\ m_vcClinetType s' = m_vcClinetType s /\
  m_vcSVLinkType s' = m_vcSVLinkType s /\
  compose one types msg c = (c', if ok then Some (written (m_objBuffer s')) else None).
Proof.
  induction types as [|t r IH]; intros bFirst msg s c Hw Hf Hn; cbn [transform compose].
  - destruct Hn as [Hn | ->]; [congruence|]. rewrite Hf by reflexivity. splits; auto.
  - replace (if bFirst then msg else written (m_objBuffer s)) with msg
      by (destruct bFirst; [reflexivity | symmetry; auto]).
    destruct (one t c msg) as [c1 [out|]]; [|splits; auto].
    destruct (refill_spec s out Hw) as (H1 & H2 & H3 & H4).
    assert (G := IH false out (refill s out) c1 H1 (fun _ => H2) (or_intror eq_refl)).
    rewrite (transform_rest one r msg out). destruct (transform one r false out (refill s out) c1) as [[s' c'] ok].
    destruct G as (G1 & G2 & G3 & G4). splits; auto; congruence.
Qed.

(** A chain of at least one transformation is their composition. *)
Lemma chain_compose one types msg s c : well_formed (m_objBuffer s) -> types <> [] ->
  let '(s', c', out) := chain one types msg s c in
  well_formed (m_objBuffer s') /\ m_vcClinetType s' = m_vcClinetType s /\
  m_vcSVLinkType s' = m_vcSVLinkType s /\ compose one types msg c = (c', out).
Proof.
  intros Hw Ht. unfold chain.
  pose proof (transform_compose one types true msg s c Hw ltac:(discriminate) (or_introl Ht)) as H.
  destruct (transform one types true msg s c) as [[s' c'] ok]. destruct H as (H1 & H2 & H3 & H4).
  destruct ok; splits; auto.
Qed.

Lemma compose_app one a b msg c : compose one (a ++ b) msg c =
  match compose one a msg c with (c, None) => (c, None) | (c, Some out) => compose one b out c end.
Proof.
  revert msg c. induction a as [|t a IH]; intros msg c; cbn; [reflexivity|].
  destruct (one t c msg) as [c1 [out|]]; [apply IH | reflexivity].
Qed.

(** ** Two ends of a link between servers *)

(** [paired c d]: the peer's [d] undoes what [c] does to messages between servers,
    whatever either end has sent or received in the meantime. *)
Class CipherLaws (paired : S -> S -> Prop) := {
  encode_keeps t c d m c' r : paired c d -> encode_one true t c m = (c', r) -> paired c' d;
  decode_keeps t c d m d' r : paired c d -> decode_one t d m = (d', r) -> paired c d';
  encode_decode t c d m c' out : paired c d -> bytes m -> m <> [] ->
    encode_one true t c m = (c', Some out) ->
    bytes out /\ out <> [] /\ exists d', decode_one t d out = (d', Some m)
}.

Lemma compose_keeps_dec {paired} {L : CipherLaws paired} types : forall c d m d' r,
  paired c d -> compose decode_one types m d = (d', r) -> paired c d'.
Proof.
  induction types as [|t ts IH]; intros c d m d' r Hp; cbn; [intros [= <- _]; exact Hp|].
  destruct (decode_one t d m) as [d1 [o|]] eqn:E1.
  - intros E2. exact (IH c d1 o d' r (decode_keeps _ _ _ _ _ _ Hp E1) E2).
  - intros [= <- _]. exact (decode_keeps _ _ _ _ _ _ Hp E1).
Qed.

Lemma compose_inverse {paired} {L : CipherLaws paired} types : forall c d m c' out,
  paired c d -> bytes m -> m <> [] -> compose (encode_one true) types m c = (c', Some out) ->
  paired c' d /\ out <> [] /\
  exists d', compose decode_one (rev types) out d = (d', Some m) /\ paired c' d'.
Proof.
  induction types as [|t r IH]; intros c d m c' out Hp Hm Hne; cbn [compose rev].
  - intros [= <- <-]. splits; auto. exists d. auto.
  - destruct (encode_one true t c m) as [c1 [o1|]] eqn:E1; [|discriminate]. intros E2.
    destruct (encode_decode t c d m c1 o1 Hp Hm Hne E1) as (B1 & N1 & _).
    destruct (IH c1 d o1 c' out (encode_keeps _ _ _ _ _ _ Hp E1) B1 N1 E2) as (P2 & N2 & d1 & D1 & P3).
    splits; auto. rewrite compose_app, D1. cbn [compose].
    assert (Pc : paired c d1) by (eapply compose_keeps_dec; eauto).
    destruct (encode_decode t c d1 m c1 o1 Pc Hm Hne E1) as (_ & _ & d2 & D2).
    rewrite D2. exists d2. split; [reflexivity|]. exact (decode_keeps _ _ _ _ _ _ P3 D2).
Qed.

(** One message over a link: the chain of transformations succeeds or not as their
    composition does, and what it gives the other end opens. *)
Lemma link_step (paired : S -> S -> Prop) {L : CipherLaws paired} s t c d c' out msg :
  well_formed (m_objBuffer s) -> well_formed (m_objBuffer t) ->
  m_vcClinetType s <> [] -> m_vcClinetType t <> [] ->
  m_vcSVLinkType s <> [] -> m_vcSVLinkType t = m_vcSVLinkType s ->
  paired c d -> bytes msg -> msg <> [] ->
  compose (encode_one true) (m_vcSVLinkType s) msg c = (c', Some out) ->
  exists s' t' d', Encode s c (Some msg) true = (s', c', Some out) /\
    Decode t d (Some out) true = (t', d', Some msg) /\ paired c' d' /\
    well_formed (m_objBuffer s') /\ well_formed (m_objBuffer t') /\
    m_vcClinetType s' = m_vcClinetType s /\ m_vcSVLinkType s' = m_vcSVLinkType s /\
    m_vcClinetType t' = m_vcClinetType t /\ m_vcSVLinkType t' = m_vcSVLinkType t.
Proof.
  intros Hs Ht Hcs Hct Hne Hsv Hp Hm Hm0 H1.
  pose proof (chain_compose (encode_one true) _ msg s c Hs Hne) as H2. rewrite H1 in H2.
  destruct (compose_inverse _ c d msg c' out Hp Hm Hm0 H1) as (_ & No & d' & H3 & P).
  assert (Hr : rev (m_vcSVLinkType s) <> []).
  { intros Hr. apply Hne. rewrite <- (rev_involutive (m_vcSVLinkType s)), Hr. reflexivity. }
  pose proof (chain_compose decode_one _ out t d Ht Hr) as H4. rewrite H3 in H4.
  unfold Encode, Decode. destruct (m_vcClinetType s) eqn:E1; [congruence|].
  destruct (m_vcClinetType t) eqn:E2; [congruence|]. destruct msg as [|x msg]; [congruence|].
  destruct out as [|y out]; [congruence|]. cbn [types_of]. rewrite Hsv.
  destruct (chain (encode_one true) _ _ s c) as [[s' c1] o1]. destruct H2 as (W2 & C2 & V2 & [= <- <-]).
  destruct (chain decode_one _ _ t d) as [[t' d1] o2]. destruct H4 as (W4 & C4 & V4 & [= <- <-]).
  exists s', t', d'. splits; auto. congruence.
Qed.

End CommEncrypt.

(** ** The claims *)

(** What a server sends to another server arrives.  When the two ends are
    configured with the same transformations and matching keys, whatever chain of AES,
    RSA and zlib that is, the peer's [Decode] of the bytes [Encode] returns is the
    message, and the two ends still match for the next one. *)
Theorem sv_link_roundtrip {S} {C : Ciphers S} (paired : S -> S -> Prop) {L : CipherLaws paired}
  new_char (HL : forall n p, new_char n = Some p -> length p = Z.to_nat n)
  (HN : forall n, new_char n <> None)
  (s t : CCommEncrypt) (c d c' : S) s' msg out
  (Hs : well_formed (m_objBuffer s)) (Ht : well_formed (m_objBuffer t))
  (Hcs : m_vcClinetType s <> []) (Hct : m_vcClinetType t <> [])
  (Hne : m_vcSVLinkType s <> []) (Hsv : m_vcSVLinkType t = m_vcSVLinkType s)
  (Hp : paired c d) (Hm : bytes msg) (Hm0 : msg <> [])
  (HE : Encode new_char s c (Some msg) true = (s', c', Some out)) :
  exists t' d', Decode new_char t d (Some out) true = (t', d', Some msg) /\ paired c' d' /\
    well_formed (m_objBuffer s') /\ well_formed (m_objBuffer t').
Proof.
  assert (H1 : compose (encode_one true) (m_vcSVLinkType s) msg c = (c', Some out)).
  { unfold Encode in HE. destruct (m_vcClinetType s) eqn:E1; [congruence|].
    destruct msg as [|x msg]; [congruence|]. cbn [types_of] in HE.
    pose proof (chain_compose new_char HL HN (encode_one true) _ (x :: msg) s c Hs Hne) as H1.
    rewrite HE in H1. apply H1. }
  destruct (link_step new_char HL HN paired s t c d c' out msg) as (s1 & t' & d' & E & D & P & W & W' & _); auto.
  rewrite E in HE. injection HE as ->. exists t', d'. auto.
Qed.

(** Ciphers to run the chain with: an involution, a reversal and a one-byte header. *)
Definition flip (l : list Z) : list Z := map (fun b => 255 - b) l.

#[export] Instance toy_ciphers : Ciphers unit := {
  aesEncode c l := (c, Some (flip l));
  aesDecode c l := (c, Some (flip l));
  publicKeyEncrypt c l := (c, Some (rev l));
  privateKeyEncrypt c l := (c, Some (rev l));
  publicKeyDecrypt c l := (c, Some (rev l));
  zlibCompress c l := (c, Some (120 :: l));
  zlibDecompression c l := (c, match l with [] => None | _ :: l' => Some l' end)
}.

#[export] Instance toy_laws : CipherLaws (S := unit) (fun _ _ => True).
Proof.
  constructor; try (intros; exact I). intros t c d m c' out _ Hm Hne.
  assert (H0 : length m <> 0%nat) by (destruct m; cbn; congruence).
  destruct t; unfold encode_one, decode_one; cbn [aesEncode aesDecode privateKeyEncrypt
    publicKeyDecrypt zlibCompress zlibDecompression toy_ciphers];
    intros [= <- <-]; splits; try discriminate.
  - apply Forall_map. revert Hm. apply Forall_impl. unfold is_byte. intros a Ha. lia.
  - intros H. apply (f_equal (@length Z)) in H. unfold flip in H. rewrite length_map in H. auto.
  - exists d. do 2 f_equal. unfold flip. rewrite map_map. rewrite <- (map_id m) at 2. apply map_ext. intros; lia.
  - auto with words.
  - intros H. apply (f_equal (@length Z)) in H. rewrite length_rev in H. auto.
  - exists d. rewrite rev_involutive. reflexivity.
  - constructor; [unfold is_byte; lia | exact Hm].
  - exists d. reflexivity.
Qed.

Definition comm_of (client sv : list EncryptType) : CCommEncrypt :=
  {| m_objBuffer := {| m_pBuffer := None; m_iOffset := 0; m_iTotalSize := 0 |};
     m_vcClinetType := client; m_vcSVLinkType := sv |}.

Lemma sv_link_roundtrip_witness :
  let s := comm_of [AES] [ZLib; RSA; AES] in
  let '(s', c', out) := Encode fresh_block s tt (Some [1; 2; 3]) true in
  out = Some [252; 253; 254; 135] /\
  exists t' d', Decode fresh_block s tt (Some [252; 253; 254; 135]) true = (t', d', Some [1; 2; 3]).
Proof.
  cbv zeta. destruct (Encode fresh_block (comm_of [AES] [ZLib; RSA; AES]) tt (Some [1; 2; 3]) true)
    as [[s' c'] out] eqn:E.
  assert (Ho : out = Some [252; 253; 254; 135])
    by (apply (f_equal snd) in E; vm_compute in E; symmetry; exact E).
  split; [exact Ho|]. subst out.
  destruct (sv_link_roundtrip (fun _ _ => True) fresh_block) with
    (s := comm_of [AES] [ZLib; RSA; AES]) (t := comm_of [AES] [ZLib; RSA; AES])
    (c := tt) (d := tt) (c' := c') (s' := s') (msg := [1; 2; 3]) (out := [252; 253; 254; 135])
    as (t' & d' & H & _).
  all: try exact E; try check_bytes; try discriminate.
  - intros n p [= <-]. apply repeat_length.
  - split; [apply Z.le_refl | split; reflexivity].
  - split; [apply Z.le_refl | split; reflexivity].
  - reflexivity.
  - exact I.
  - eauto.
Defined.

(** A link between servers for which no transformation of its own is
    configured does not send its message once clients are configured: [Encode] returns
    the bytes the previous call left in the buffer, whatever the message is.  With no
    transformation for clients, the message between servers goes out as it is even
    when transformations between servers are configured. *)
Theorem sv_link_stale {S} {C : Ciphers S} new_char (s : CCommEncrypt) (c : S) msg (Hm : msg <> []) :
  (m_vcClinetType s <> [] -> m_vcSVLinkType s = [] ->
   Encode new_char s c (Some msg) true = (s, c, Some (written (m_objBuffer s)))) /\
  (m_vcClinetType s = [] -> Encode new_char s c (Some msg) true = (s, c, Some msg)).
Proof.
  unfold Encode. destruct msg as [|x msg]; [congruence|]. split.
  - intros H1 H2. destruct (m_vcClinetType s); [congruence|]. cbn [types_of]. rewrite H2. reflexivity.
  - intros ->. reflexivity.
Qed.

Lemma sv_link_stale_witness :
  let '(s, c, _) := Encode fresh_block (comm_of [AES] []) tt (Some [1; 2; 3]) false in
  snd (Encode fresh_block s c (Some [9; 9]) true) = Some [254; 253; 252].
Proof.
  destruct (Encode fresh_block (comm_of [AES] []) tt (Some [1; 2; 3]) false) as [[s c] o] eqn:E.
  vm_compute in E. injection E as <- <- _.
  rewrite (proj1 (sv_link_stale fresh_block _ tt [9; 9] ltac:(discriminate))); [reflexivity | discriminate | reflexivity].
Defined.
