(* ===== verification/LinkOther.v ===== *)
(** * LinkOther: the registry of links to other servers (QBase/LinkOther.cpp)

    [CLinkOther] keeps the servers to connect to, tries the closed ones again from its
    own thread and is told by the work thread when a link comes up or goes down.  Every
    operation holds the mutex from its first read to its last write, so an operation is
    one step of the model. *)

From S2P Require Import Prelude Enum.

(** Strings are the lists of their bytes. *)
Definition str_eqb (a b : list Z) : bool := if list_eq_dec Z.eq_dec a b then true else false.

Lemma str_eqb_eq a b : str_eqb a b = true <-> a = b.
Proof. unfold str_eqb. destruct (list_eq_dec Z.eq_dec a b); intuition congruence. Qed.

Record LinkInfo := {
  emStatus : Z;
  usPort : Z;
  sock : Z;
  strIp : list Z;
  strName : list Z
}.

Definition set_status (i : LinkInfo) (st : Z) : LinkInfo :=
  {| emStatus := st; usPort := usPort i; sock := sock i; strIp := strIp i; strName := strName i |}.

Definition set_link (i : LinkInfo) (st s : Z) : LinkInfo :=
  {| emStatus := st; usPort := usPort i; sock := s; strIp := strIp i; strName := strName i |}.

Definition checkHaveHost (v : list LinkInfo) (pszName : list Z) : bool :=
  existsb (fun i => str_eqb pszName (strName i)) v.

Definition addHost (v : list LinkInfo) (pszIp : list Z) (port : Z) (pszName : list Z)
  : list LinkInfo * bool :=
  if checkHaveHost v pszName then (v, false)
  else (v ++ [{| emStatus := SESSSTATUS_CLOSED; usPort := port; sock := Q_INVALID_SOCK;
                 strIp := pszIp; strName := pszName |}], true).

(** One round of [Link].  [net i k] is what the network does for the record [i] at the
    position [k]: the socket [initSock] returns and whether the work thread could be
    told of it.  The result is the records and the sockets handed to the work thread. *)
Fixpoint Link (net : LinkInfo -> nat -> Z * bool) (k : nat) (v : list LinkInfo)
  : list LinkInfo * list Z :=
  match v with
  | [] => ([], [])
  | i :: r =>
      let (r', socks) := Link net (S k) r in
      if negb (emStatus i =? SESSSTATUS_CLOSED) then (i :: r', socks)
      else let (sok, sent) := net i k in
           if sok =? Q_INVALID_SOCK then (i :: r', socks)
           else if sent then (set_link i SESSSTATUS_CONNECT sok :: r', sok :: socks)
           else (i :: r', socks)
  end.

(** The loop of [setSockStatus] stops at the first record with the socket. *)
Fixpoint set_first (v : list LinkInfo) (s st : Z) : list LinkInfo :=
  match v with
  | [] => []
  | i :: r => if sock i =? s then set_status i st :: r else i :: set_first r s st
  end.

Definition setSockStatus (v : list LinkInfo) (s st : Z) : list LinkInfo :=
  if s =? Q_INVALID_SOCK then v else set_first v s st.

Fixpoint getSockByName (v : list LinkInfo) (pszName : list Z) : Z :=
  match v with
  | [] => Q_INVALID_SOCK
  | i :: r => if str_eqb (strName i) pszName then sock i else getSockByName r pszName
  end.

(** ** Names identify records *)

Definition names_ok (v : list LinkInfo) : Prop := NoDup (map strName v).

Lemma checkHaveHost_spec v n : checkHaveHost v n = true <-> In n (map strName v).
Proof.
  unfold checkHaveHost. rewrite existsb_exists, in_map_iff. split.
  - intros (i & Hi & E). apply str_eqb_eq in E. exists i. auto.
  - intros (i & E & Hi). exists i. split; [exact Hi | apply str_eqb_eq; congruence].
Qed.

Lemma names_addHost v ip port n : names_ok v -> names_ok (fst (addHost v ip port n)).
Proof.
  unfold addHost, names_ok. destruct (checkHaveHost v n) eqn:E; cbn; [auto|].
  intros H. rewrite map_app. cbn. apply NoDup_app; [exact H | constructor; [cbn; tauto | constructor]|].
  intros m Hm [<- | []]. apply checkHaveHost_spec in Hm. congruence.
Qed.

Lemma names_set_first v s st : map strName (set_first v s st) = map strName v.
Proof. induction v as [|i r IH]; cbn; [reflexivity|]. destruct (sock i =? s); cbn; congruence. Qed.

Lemma names_Link net v : forall k, map strName (fst (Link net k v)) = map strName v.
Proof.
  induction v as [|i r IH]; intros k; cbn; [reflexivity|].
  specialize (IH (S k)). destruct (Link net (S k) r) as [r' socks]. cbn in IH.
  destruct (negb _); cbn; [congruence|]. destruct (net i k) as [sok sent].
  destruct (sok =? _); cbn; [congruence|]. destruct sent; cbn; congruence.
Qed.

(** ** Sockets *)

(** The open links' sockets: those of the records whose status is not closed. *)
Definition open_socks (v : list LinkInfo) : list Z :=
  map sock (filter (fun i => negb (emStatus i =? SESSSTATUS_CLOSED)) v).

(** No closed record remembers the socket [s]. *)
Definition not_stale (v : list LinkInfo) (s : Z) : Prop :=
  forall i, In i v -> sock i = s -> emStatus i <> SESSSTATUS_CLOSED.

(** [setSockStatus] reaches the open link with the socket, and only it, provided no
    closed record still remembers that socket. *)
Lemma set_first_open v s st : NoDup (open_socks v) -> not_stale v s -> In s (open_socks v) ->
  exists a i b, v = a ++ i :: b /\ sock i = s /\ emStatus i <> SESSSTATUS_CLOSED /\
    set_first v s st = a ++ set_status i st :: b /\ forall j, In j (a ++ b) -> sock j <> s.
Proof.
  unfold open_socks, not_stale. induction v as [|i r IH]; cbn; [tauto|]. intros Hn Hs Hin.
  destruct (Z.eqb_spec (sock i) s) as [E | E].
  - exists [], i, r. pose proof (Hs i (or_introl eq_refl) E) as Hi. splits; auto.
    intros j Hj Ej. cbn in Hj. pose proof (Hs j (or_intror Hj) Ej) as Hj'.
    apply Z.eqb_neq in Hi. rewrite Hi in Hn. cbn in Hn. inversion Hn as [|? ? Hnot _]; subst.
    apply Hnot. rewrite <- Ej. apply in_map, filter_In. split; [exact Hj|].
    apply Z.eqb_neq in Hj'. rewrite Hj'. reflexivity.
  - destruct IH as (a & k & b & -> & Ek & Hk & Hset & Ho).
    + destruct (negb _); [inversion Hn; auto | exact Hn].
    + auto.
    + destruct (negb _); [cbn in Hin; destruct Hin; congruence | exact Hin].
    + exists (i :: a), k, b. rewrite Hset. splits; auto.
      cbn. intros j [<- | Hj]; auto.
Qed.

(** ** The claims *)

(** The registry is keyed by name: a second server of the same name is
    refused, every operation keeps the names distinct, and the socket found for a name
    is the one of its record. *)
Theorem names_invariant v (H : names_ok v) :
  (forall ip port n, names_ok (fst (addHost v ip port n)) /\
     (snd (addHost v ip port n) = true <-> ~ In n (map strName v))) /\
  (forall net, names_ok (fst (Link net 0 v))) /\
  (forall s st, names_ok (setSockStatus v s st)) /\
  (forall i, In i v -> getSockByName v (strName i) = sock i).
Proof.
  splits.
  - intros ip port n. split; [apply names_addHost, H|]. unfold addHost.
    destruct (checkHaveHost v n) eqn:E; cbn.
    + apply checkHaveHost_spec in E. intuition congruence.
    + rewrite <- checkHaveHost_spec. intuition congruence.
  - intros net. unfold names_ok. rewrite names_Link. exact H.
  - intros s st. unfold names_ok, setSockStatus. destruct (s =? _); [|rewrite names_set_first]; exact H.
  - unfold names_ok in H. induction v as [|j r IH]; cbn in *; [tauto|].
    inversion H as [|? ? Hn Hr]; subst. intros i [-> | Hi].
    + rewrite (proj2 (str_eqb_eq _ _) eq_refl). reflexivity.
    + destruct (str_eqb (strName j) (strName i)) eqn:E; [|auto].
      apply str_eqb_eq in E. exfalso. apply Hn. rewrite E. apply in_map, Hi.
Qed.

Lemma names_invariant_witness :
  let v := fst (addHost (fst (addHost [] [49] 80 [65])) [50] 81 [66]) in
  getSockByName (fst (Link (fun _ k => (Z.of_nat k + 7, true)) 0 v)) [66] = 8 /\
  snd (addHost v [51] 82 [66]) = false.
Proof.
  cbv zeta. set (v := fst (addHost (fst (addHost [] [49] 80 [65])) [50] 81 [66])).
  assert (Hv : names_ok v) by (subst v; unfold names_ok; cbn; repeat constructor; cbn; intuition discriminate).
  destruct (names_invariant v Hv) as (_ & H2 & _ & _).
  specialize (H2 (fun _ k => (Z.of_nat k + 7, true))).
  destruct (names_invariant _ H2) as (_ & _ & _ & H4).
  split; [|reflexivity].
  apply (H4 {| emStatus := 0; usPort := 81; sock := 8; strIp := [50]; strName := [66] |}).
  vm_compute. auto.
Defined.

(** The work thread's report on a socket reaches the link that has it and
    leaves every other record alone, as long as no closed record still remembers the
    number; the registry itself does not prevent that, for closing a link keeps its
    number: there is a run in which a second server gets the number of the first one's
    closed socket, its link comes up, and the registry marks the first as linked and
    the second as still connecting. *)
Theorem setSockStatus_reaches v s st (HN : NoDup (open_socks v)) (HS : not_stale v s)
  (HI : In s (open_socks v)) (Hs : s <> Q_INVALID_SOCK) :
  (exists a i b, v = a ++ i :: b /\ sock i = s /\ setSockStatus v s st = a ++ set_status i st :: b /\
     forall j, In j (a ++ b) -> sock j <> s) /\
  exists v0 net1 net2, names_ok v0 /\
    let v1 := setSockStatus (setSockStatus (fst (Link net1 0 v0)) 7 SESSSTATUS_LINKED) 7 SESSSTATUS_CLOSED in
    let v2 := setSockStatus (fst (Link net2 0 v1)) 7 SESSSTATUS_LINKED in
    map sock v2 = [7; 7] /\ snd (Link net2 0 v1) = [7] /\
    map emStatus (fst (Link net2 0 v1)) = [SESSSTATUS_CLOSED; SESSSTATUS_CONNECT] /\
    map emStatus v2 = [SESSSTATUS_LINKED; SESSSTATUS_CONNECT].
Proof.
  split.
  - destruct (set_first_open v s st HN HS HI) as (a & i & b & H1 & H2 & _ & H3 & H4).
    exists a, i, b. splits; auto. unfold setSockStatus. apply Z.eqb_neq in Hs. rewrite Hs. exact H3.
  - exists (fst (addHost (fst (addHost [] [49] 80 [65])) [50] 81 [66])).
    exists (fun _ k => if Nat.eqb k 0 then (7, true) else (Q_INVALID_SOCK, true)).
    exists (fun _ k => if Nat.eqb k 0 then (Q_INVALID_SOCK, true) else (7, true)).
    split; [unfold names_ok; cbn; repeat constructor; cbn; intuition discriminate|].
    cbv zeta. splits; vm_compute; reflexivity.
Qed.

Lemma setSockStatus_reaches_witness :
  let v := [{| emStatus := 0; usPort := 80; sock := 5; strIp := []; strName := [65] |};
            {| emStatus := 1; usPort := 81; sock := 6; strIp := []; strName := [66] |}] in
  exists a i b, v = a ++ i :: b /\ sock i = 6 /\
    setSockStatus v 6 SESSSTATUS_CLOSED = a ++ set_status i SESSSTATUS_CLOSED :: b.
Proof.
  cbv zeta.
  destruct (setSockStatus_reaches
    [{| emStatus := 0; usPort := 80; sock := 5; strIp := []; strName := [65] |};
     {| emStatus := 1; usPort := 81; sock := 6; strIp := []; strName := [66] |}] 6 SESSSTATUS_CLOSED)
    as [(a & i & b & H1 & H2 & H3 & _) _].
  - vm_compute. repeat constructor; cbn; intuition discriminate.
  - intros i [<- | [<- | []]]; vm_compute; discriminate.
  - vm_compute. auto.
  - discriminate.
  - exists a, i, b. auto.
Defined.
