(* ===== verification/WebSockParser.v ===== *)
(** * WebSockParser: the frames of WebSocket connections (QBase/WebSockParser.cpp)

    [parseHead], [parsePack] and [createHead] of [CWebSockParser]; the opening handshake
    is in [HandShake].  [parsePack] removes the mask of the payload in place, through the
    pointer into the connection's input buffer. *)

From S2P Require Import Prelude Enum OSFunc EventBuffer.

Definition FRAME_HEAD_BASE_LEN : Z := 6.
Definition FRAME_HEAD_EXT16_LEN : Z := 8.
Definition FRAME_HEAD_EXT64_LEN : Z := 14.
Definition PAYLOADLENS_125 : Z := 125.
Definition PAYLOADLENS_126 : Z := 126.
Definition PAYLOADLENS_127 : Z := 127.

Record WebSockFram := {
  cFin : Z; cRsv1 : Z; cRsv2 : Z; cRsv3 : Z;
  emOpCode : Z;
  cMask : Z;
  ucPayloadLen : Z;
  uiDataLens : Z;
  acMaskKey : list Z
}.

Record CWebSockParser := {
  m_bClose : bool;
  m_iParsedLens : Z;
  m_iHeadLens : Z;
  m_iTotalLens : Z;
  m_iNeedReadLens : Z;
  m_pMsg : option (list Z);
  m_stFram : WebSockFram
}.

Definition fram_0 : WebSockFram :=
  {| cFin := 0; cRsv1 := 0; cRsv2 := 0; cRsv3 := 0; emOpCode := WSOCK_CONTINUATION; cMask := 0;
     ucPayloadLen := 0; uiDataLens := 0; acMaskKey := repeat 0 4 |}.

Definition CWebSockParser_new : CWebSockParser :=
  {| m_bClose := false; m_iParsedLens := 0; m_iHeadLens := 0; m_iTotalLens := 0;
     m_iNeedReadLens := 0; m_pMsg := None; m_stFram := fram_0 |}.

(** [getMsg]: an empty string when there is no message. *)
Definition getMsg (p : CWebSockParser) : list Z :=
  match m_pMsg p with None => [] | Some l => l end.

(** The first two bytes of a head; the length and the key are filled in later. *)
Definition first_bytes (f : WebSockFram) (pHead : list Z) : WebSockFram :=
  let b0 := nth 0 pHead 0 in
  let b1 := nth 1 pHead 0 in
  {| cFin := (b0 .& 128) .>> 7; cRsv1 := (b0 .& 64) .>> 6; cRsv2 := (b0 .& 32) .>> 5;
     cRsv3 := (b0 .& 16) .>> 4; emOpCode := b0 .& 15; cMask := (b1 .& 128) .>> 7;
     ucPayloadLen := b1 .& 127; uiDataLens := uiDataLens f; acMaskKey := acMaskKey f |}.

Definition set_data (f : WebSockFram) (n : Z) (key : list Z) : WebSockFram :=
  {| cFin := cFin f; cRsv1 := cRsv1 f; cRsv2 := cRsv2 f; cRsv3 := cRsv3 f;
     emOpCode := emOpCode f; cMask := cMask f; ucPayloadLen := ucPayloadLen f;
     uiDataLens := n; acMaskKey := key |}.

Definition set_fram (p : CWebSockParser) (close : bool) (head need : Z) (f : WebSockFram) : CWebSockParser :=
  {| m_bClose := close; m_iParsedLens := m_iParsedLens p; m_iHeadLens := head;
     m_iTotalLens := m_iTotalLens p; m_iNeedReadLens := need; m_pMsg := m_pMsg p; m_stFram := f |}.

(** The unmasking loop from payload position [i] on. *)
Fixpoint mask (key : list Z) (i : nat) (l : list Z) : list Z :=
  match l with
  | [] => []
  | x :: r => x .^ nth (i mod 4) key 0 :: mask key (S i) r
  end.

Section WebSockParser.
Context {B : Type} {E : EvBuffer B} {L : EvBufferLaws B}.
Context (SZ : nat).

Definition wsize_t (x : Z) : Z := x mod Pn SZ.

Definition parseHead (p : CWebSockParser) (pBuffer : CEventBuffer B) : CWebSockParser * bool :=
  match readBuffer pBuffer FRAME_HEAD_BASE_LEN with
  | None => (set_fram p (m_bClose p) 0 FRAME_HEAD_BASE_LEN (m_stFram p), false)
  | Some pHead =>
      let f := first_bytes (m_stFram p) pHead in
      if negb ((cMask f =? 1) && (cRsv1 f =? 0) && (cRsv2 f =? 0) && (cRsv3 f =? 0)) then
        (set_fram p true 0 FRAME_HEAD_BASE_LEN f, false)
      else if ucPayloadLen f <=? PAYLOADLENS_125 then
        (set_fram p (m_bClose p) FRAME_HEAD_BASE_LEN FRAME_HEAD_BASE_LEN
           (set_data f (ucPayloadLen f) (firstn 4 (skipn 2 pHead))), true)
      else if ucPayloadLen f =? PAYLOADLENS_126 then
        if m_iTotalLens p <? FRAME_HEAD_EXT16_LEN then
          (set_fram p (m_bClose p) 0 FRAME_HEAD_BASE_LEN f, false)
        else match readBuffer pBuffer FRAME_HEAD_EXT16_LEN with
             | None => (set_fram p (m_bClose p) FRAME_HEAD_EXT16_LEN FRAME_HEAD_EXT16_LEN f, false)
             | Some pHead =>
                 (set_fram p (m_bClose p) FRAME_HEAD_EXT16_LEN FRAME_HEAD_EXT16_LEN
                    (set_data f (ntohs (le (firstn 2 (skipn 2 pHead)))) (firstn 4 (skipn 4 pHead))), true)
             end
      else
        if m_iTotalLens p <? FRAME_HEAD_EXT64_LEN then
          (set_fram p (m_bClose p) 0 FRAME_HEAD_BASE_LEN f, false)
        else match readBuffer pBuffer FRAME_HEAD_EXT64_LEN with
             | None => (set_fram p (m_bClose p) FRAME_HEAD_EXT64_LEN FRAME_HEAD_EXT64_LEN f, false)
             | Some pHead =>
                 (set_fram p (m_bClose p) FRAME_HEAD_EXT64_LEN FRAME_HEAD_EXT64_LEN
                    (set_data f (wsize_t (ntohl64 (le (firstn 8 (skipn 2 pHead)))))
                       (firstn 4 (skipn 10 pHead))), true)
             end
  end.

Definition set_result (p : CWebSockParser) (parsed need : Z) (msg : option (list Z)) : CWebSockParser :=
  {| m_bClose := m_bClose p; m_iParsedLens := parsed; m_iHeadLens := m_iHeadLens p;
     m_iTotalLens := m_iTotalLens p; m_iNeedReadLens := need; m_pMsg := msg; m_stFram := m_stFram p |}.

(** [parsePack].  The unmasking loop runs over [uiDataLens] bytes after the head; the
    result [None] is the loop leaving the bytes pulled up, which is undefined. *)
Definition parsePack (p : CWebSockParser) (pBuffer : CEventBuffer B)
  : option (CWebSockParser * CEventBuffer B * bool) :=
  let p := {| m_bClose := false; m_iParsedLens := 0; m_iHeadLens := m_iHeadLens p;
              m_iTotalLens := getTotalLens pBuffer; m_iNeedReadLens := m_iNeedReadLens p;
              m_pMsg := m_pMsg p; m_stFram := m_stFram p |} in
  if m_iTotalLens p <? FRAME_HEAD_BASE_LEN then Some (p, pBuffer, false)
  else match parseHead p pBuffer with
       | (p, false) => Some (p, pBuffer, false)
       | (p, true) =>
           let head := m_iHeadLens p in
           let n := uiDataLens (m_stFram p) in
           let need := wsize_t (head + n) in
           if m_iTotalLens p <? need then Some (set_result p 0 need (m_pMsg p), pBuffer, false)
           else if 0 <? n then
             match readBuffer pBuffer need with
             | None => Some (set_result p 0 need None, pBuffer, false)
             | Some pMsg =>
                 if Z.of_nat (length pMsg) <? head + n then None
                 else
                   let plain := mask (acMaskKey (m_stFram p)) 0
                                  (firstn (Z.to_nat n) (skipn (Z.to_nat head) pMsg)) in
                   Some (set_result p (wsize_t (head + n)) need (Some plain),
                         pokeBuffer pBuffer (firstn (Z.to_nat head) pMsg ++ plain), true)
             end
           else Some (set_result p (wsize_t (head + n)) need None, pBuffer, true)
       end.

End WebSockParser.

(** [createHead]: the array [m_acWebSockHead] and [iOutLens]. *)
Definition createHead (bFin : bool) (emCode iDataLens : Z) : list Z * Z :=
  let b0 := emCode .| 128 in
  let b0 := if bFin then b0 else b0 .& 127 in
  let array := repeat 0 (Z.to_nat FRAME_HEAD_EXT64_LEN) in
  if iDataLens <=? PAYLOADLENS_125 then
    (store array [b0; w8 iDataLens], FRAME_HEAD_BASE_LEN - 4)
  else if iDataLens <=? 65535 then
    (store array ([b0; PAYLOADLENS_126] ++ le_bytes 2 (ntohs (w16 iDataLens))), FRAME_HEAD_EXT16_LEN - 4)
  else
    (store array ([b0; PAYLOADLENS_127] ++ le_bytes 8 (ntohl64 (w64 iDataLens))), FRAME_HEAD_EXT64_LEN - 4).

Definition ws_head (bFin : bool) (emCode iDataLens : Z) : list Z :=
  let (a, n) := createHead bFin emCode iDataLens in firstn (Z.to_nat n) a.

(** ** The wire format *)

(** A frame as RFC 6455 lays it out: [key] is the masking key a client sends. *)
Definition len_bytes (n : Z) : Z * list Z :=
  if n <=? 125 then (n, [])
  else if n <=? 65535 then (126, rev (le_bytes 2 n))
  else (127, rev (le_bytes 8 n)).

Definition client_head (fin : bool) (op : Z) (key : list Z) (n : Z) : list Z :=
  let (l7, ext) := len_bytes n in
  (if fin then 128 + op else op) :: 128 + l7 :: ext ++ key.

Definition client_frame (fin : bool) (op : Z) (key payload : list Z) : list Z :=
  client_head fin op key (Z.of_nat (length payload)) ++ mask key 0 payload.

Definition server_head (fin : bool) (op n : Z) : list Z :=
  let (l7, ext) := len_bytes n in (if fin then 128 + op else op) :: l7 :: ext.

Lemma length_mask key i l : length (mask key i l) = length l.
Proof. revert i; induction l; intros i; cbn; auto. Qed.

Lemma mask_mask key i l : mask key i (mask key i l) = l.
Proof.
  revert i. induction l as [|x l IH]; intros i; cbn [mask]; [reflexivity|].
  rewrite IH, Z.lxor_assoc, Z.lxor_nilpotent, Z.lxor_0_r. reflexivity.
Qed.

Lemma bit_field b k : 0 <= k -> (b .& 2 ^ k) .>> k = (b / 2 ^ k) mod 2.
Proof.
  intros Hk. rewrite Z.shiftr_land, !shiftr_div by exact Hk.
  rewrite Z.div_same by (apply Z.pow_nonzero; lia). change 1 with (Z.ones 1) at 1.
  rewrite Z.land_ones by lia. reflexivity.
Qed.

(** The bits of the first two bytes. *)
Lemma head_bits (fin : bool) op l7 : 0 <= op < 16 -> 0 <= l7 < 128 ->
  let b0 := if fin then 128 + op else op in
  let b1 := 128 + l7 in
  (b0 .& 128) .>> 7 = (if fin : bool then 1 else 0) /\ (b0 .& 64) .>> 6 = 0 /\
  (b0 .& 32) .>> 5 = 0 /\ (b0 .& 16) .>> 4 = 0 /\ b0 .& 15 = op /\
  (b1 .& 128) .>> 7 = 1 /\ b1 .& 127 = l7.
Proof.
  intros Ho Hl. cbv zeta.
  assert (B7 : forall b, (b .& 128) .>> 7 = b / 128 mod 2) by (intros b; exact (bit_field b 7 ltac:(lia))).
  assert (B6 : forall b, (b .& 64) .>> 6 = b / 64 mod 2) by (intros b; exact (bit_field b 6 ltac:(lia))).
  assert (B5 : forall b, (b .& 32) .>> 5 = b / 32 mod 2) by (intros b; exact (bit_field b 5 ltac:(lia))).
  assert (B4 : forall b, (b .& 16) .>> 4 = b / 16 mod 2) by (intros b; exact (bit_field b 4 ltac:(lia))).
  assert (L4 : forall b, b .& 15 = b mod 16) by (intros b; exact (Z.land_ones b 4 ltac:(lia))).
  assert (L7 : forall b, b .& 127 = b mod 128) by (intros b; exact (Z.land_ones b 7 ltac:(lia))).
  rewrite !B7, B6, B5, B4, L4, L7.
  destruct fin; splits; Z.to_euclidean_division_equations; lia.
Qed.

Lemma len_bytes_spec n : 0 <= n < 2 ^ 64 ->
  let (l7, ext) := len_bytes n in
  0 <= l7 < 128 /\ bytes ext /\
  ((n <= 125 /\ l7 = n /\ ext = []) \/
   (125 < n <= 65535 /\ l7 = 126 /\ length ext = 2%nat /\ be ext = n) \/
   (65535 < n /\ l7 = 127 /\ length ext = 8%nat /\ be ext = n)).
Proof.
  intros Hn. unfold len_bytes.
  destruct (Z.leb_spec n 125); [|destruct (Z.leb_spec n 65535)].
  - splits; try lia; [constructor | left; auto].
  - splits; try lia; [auto with words | right; left].
    rewrite length_rev, length_le_bytes, be_rev_le_bytes, Z.mod_small by (unfold Pn; cbn; lia). auto.
  - splits; try lia; [auto with words | right; right].
    rewrite length_rev, length_le_bytes, be_rev_le_bytes, Z.mod_small by (change (Pn 8) with (2 ^ 64); lia).
    auto.
Qed.

Lemma length_client_head fin op key n : length key = 4%nat -> 0 <= n < 2 ^ 64 ->
  length (client_head fin op key n) =
  if n <=? 125 then 6%nat else if n <=? 65535 then 8%nat else 14%nat.
Proof.
  intros Hk Hn. unfold client_head, len_bytes.
  destruct (n <=? 125); [|destruct (n <=? 65535)]; cbn [length app];
    rewrite ?length_app, ?length_rev, ?length_le_bytes, Hk; reflexivity.
Qed.

(** [l] and [f] agree as far as both go: [l] is a part of the frame or the frame and
    what follows it. *)
Definition agrees (l f : list Z) : Prop :=
  forall n, (n <= length l)%nat -> (n <= length f)%nat -> firstn n l = firstn n f.

Lemma agrees_app f rest : agrees (f ++ rest) f.
Proof.
  intros n _ Hn. rewrite firstn_app. replace (n - length f)%nat with 0%nat by lia. apply app_nil_r.
Qed.

Lemma agrees_firstn f k : agrees (firstn k f) f.
Proof. intros n Hl Hn. rewrite firstn_firstn. rewrite length_firstn in Hl. f_equal. lia. Qed.

Section Frames.
Context {B : Type} {E : EvBuffer B} {L : EvBufferLaws B}.
Context (SZ : nat) (HSZ : SZ = 4%nat \/ SZ = 8%nat).

Lemma Pn_SZ : Pn SZ <= 2 ^ 64.
Proof. destruct HSZ as [-> | ->]; [change (Pn 4) with (2 ^ 32) | change (Pn 8) with (2 ^ 64)]; lia. Qed.

(** The frame head is read off whatever part of the frame has arrived. *)
Lemma parseHead_client p (pBuffer : CEventBuffer B) fin op key n tail :
  0 <= op < 16 -> length key = 4%nat -> 0 <= n < Pn SZ ->
  agrees (input pBuffer) (client_head fin op key n ++ tail) ->
  m_iTotalLens p = Z.of_nat (length (input pBuffer)) -> 6 <= m_iTotalLens p ->
  let h := Z.of_nat (length (client_head fin op key n)) in
  let (p', ok) := parseHead SZ p pBuffer in
  m_bClose p' = m_bClose p /\ m_iTotalLens p' = m_iTotalLens p /\ m_iParsedLens p' = m_iParsedLens p /\
  if m_iTotalLens p <? h then ok = false
  else ok = true /\ m_iHeadLens p' = h /\ uiDataLens (m_stFram p') = n /\
       acMaskKey (m_stFram p') = key /\ emOpCode (m_stFram p') = op /\
       cFin (m_stFram p') = if fin then 1 else 0.
Proof.
  intros Hop Hk Hn HA HT H6. cbv zeta.
  assert (Hn64 : 0 <= n < 2 ^ 64) by (pose proof Pn_SZ; lia).
  rewrite length_client_head by assumption.
  pose proof (len_bytes_spec n Hn64) as Hlen. unfold client_head in HA.
  destruct (len_bytes n) as [l7 ext]. destruct Hlen as (Hl7 & Hext & Hcase).
  destruct (head_bits fin op l7 Hop Hl7) as (F1 & F2 & F3 & F4 & F5 & F6 & F7).
  set (b0 := if fin then 128 + op else op) in *. set (b1 := 128 + l7) in *.
  assert (R : forall k, 0 < k <= Z.of_nat (length (input pBuffer)) -> k <= 14 ->
             k <= Z.of_nat (6 + length ext) ->
             readBuffer pBuffer k = Some (firstn (Z.to_nat k) (b0 :: b1 :: ext ++ key ++ tail))).
  { intros k Hk1 Hk2 Hk3. rewrite readBuffer_enough by lia. f_equal. rewrite HA; try lia.
    - cbn [app]. rewrite <- app_assoc. reflexivity.
    - cbn [app length]. rewrite !length_app, Hk. lia. }
  unfold parseHead, FRAME_HEAD_BASE_LEN. rewrite R by lia.
  set (pHead := firstn (Z.to_nat 6) _).
  assert (Hf : forall f, first_bytes f pHead =
    {| cFin := if fin then 1 else 0; cRsv1 := 0; cRsv2 := 0; cRsv3 := 0; emOpCode := op; cMask := 1;
       ucPayloadLen := l7; uiDataLens := uiDataLens f; acMaskKey := acMaskKey f |}).
  { intros f. unfold first_bytes. change (nth 0 pHead 0) with b0. change (nth 1 pHead 0) with b1.
    rewrite F1, F2, F3, F4, F5, F6, F7. reflexivity. }
  rewrite Hf. cbn [cMask cRsv1 cRsv2 cRsv3 ucPayloadLen Z.eqb Pos.eqb andb negb].
  unfold PAYLOADLENS_125, PAYLOADLENS_126, FRAME_HEAD_EXT16_LEN, FRAME_HEAD_EXT64_LEN in *.
  destruct Hcase as [(C1 & -> & ->) | [(C1 & -> & C2 & C3) | (C1 & -> & C2 & C3)]].
  - rewrite (proj2 (Z.leb_le n 125)) by lia. change (Z.of_nat 6) with 6.
    rewrite (proj2 (Z.ltb_ge _ 6)) by lia. cbn. splits; auto.
    do 4 (destruct key as [|? key]; [discriminate|]). destruct key; [reflexivity | discriminate].
  - rewrite (proj2 (Z.leb_gt n 125)), (proj2 (Z.leb_le n 65535)) by lia.
    change (126 <=? 125) with false. change (126 =? 126) with true. cbv iota. change (Z.of_nat 8) with 8.
    destruct (Z.ltb_spec (m_iTotalLens p) 8); [cbn; splits; auto|].
    rewrite R by lia. change (Z.to_nat 8) with 8%nat.
    do 2 (destruct ext as [|? ext]; [discriminate|]). destruct ext; [|discriminate].
    do 4 (destruct key as [|? key]; [discriminate|]). destruct key; [|discriminate].
    cbn [firstn skipn app m_bClose m_iTotalLens m_iParsedLens m_iHeadLens m_stFram set_fram set_data
      uiDataLens acMaskKey emOpCode cFin]. splits; auto.
    unfold ntohs. change 2%nat with (length [z; z0]) at 1. rewrite be_le_bytes_le by assumption. exact C3.
  - rewrite (proj2 (Z.leb_gt n 125)), (proj2 (Z.leb_gt n 65535)) by lia.
    change (127 <=? 125) with false. change (127 =? 126) with false. cbv iota. change (Z.of_nat 14) with 14.
    destruct (Z.ltb_spec (m_iTotalLens p) 14); [cbn; splits; auto|].
    rewrite R by lia. change (Z.to_nat 14) with 14%nat.
    replace (firstn 8 (skipn 2 (firstn 14 (b0 :: b1 :: ext ++ key ++ tail)))) with ext.
    + replace (firstn 4 (skipn 10 (firstn 14 (b0 :: b1 :: ext ++ key ++ tail)))) with key.
      * cbn [m_bClose m_iTotalLens m_iParsedLens m_iHeadLens m_stFram set_fram set_data
          uiDataLens acMaskKey emOpCode cFin]. splits; auto.
        rewrite ntohl64_be by (apply le_bound; assumption).
        rewrite <- C2, be_le_bytes_le, C3 by assumption. apply Z.mod_small, Hn.
      * do 8 (destruct ext as [|? ext]; [discriminate|]). destruct ext; [|discriminate].
        do 4 (destruct key as [|? key]; [discriminate|]). destruct key; [reflexivity | discriminate].
    + do 8 (destruct ext as [|? ext]; [discriminate|]). destruct ext; [|discriminate].
      do 4 (destruct key as [|? key]; [discriminate|]). reflexivity.
Qed.

(** The parser with which [parsePack] calls [parseHead]. *)
Definition start (p : CWebSockParser) (pBuffer : CEventBuffer B) : CWebSockParser :=
  {| m_bClose := false; m_iParsedLens := 0; m_iHeadLens := m_iHeadLens p;
     m_iTotalLens := getTotalLens pBuffer; m_iNeedReadLens := m_iNeedReadLens p;
     m_pMsg := m_pMsg p; m_stFram := m_stFram p |}.

Lemma length_client_frame fin op key payload : length (client_frame fin op key payload) =
  (length (client_head fin op key (Z.of_nat (length payload))) + length payload)%nat.
Proof. unfold client_frame. rewrite length_app, length_mask. reflexivity. Qed.

(** What a client may send on this host: the frame's length does not wrap around. *)
Definition ws_fits (payload : list Z) : Prop := 14 + Z.of_nat (length payload) < Pn SZ.

Lemma length_client_head_bounds fin op key n : length key = 4%nat -> 0 <= n < 2 ^ 64 ->
  (6 <= length (client_head fin op key n) <= 14)%nat.
Proof.
  intros Hk Hn. rewrite length_client_head by assumption.
  destruct (n <=? 125); [|destruct (n <=? 65535)]; lia.
Qed.

Section OneFrame.
Context (p : CWebSockParser) (pBuffer : CEventBuffer B) (fin : bool) (op : Z) (key payload : list Z).
Context (Hop : 0 <= op < 16) (Hk : length key = 4%nat) (Hfit : ws_fits payload).
Context (Hbig : Z.of_nat (length (input pBuffer)) < 2 ^ 63).

Let n := Z.of_nat (length payload).
Let hd := client_head fin op key n.

(** A whole frame is delivered, its payload unmasked in place. *)
Lemma ws_parsePack_frame rest : input pBuffer = client_frame fin op key payload ++ rest ->
  exists p' b', parsePack SZ p pBuffer = Some (p', b', true) /\
    m_bClose p' = false /\ getMsg p' = payload /\
    m_iParsedLens p' = Z.of_nat (length (client_frame fin op key payload)) /\
    uiDataLens (m_stFram p') = n /\ emOpCode (m_stFram p') = op /\
    cFin (m_stFram p') = (if fin then 1 else 0) /\
    input b' = hd ++ payload ++ rest /\ output b' = output pBuffer.
Proof.
  intros EI. assert (Hn : 0 <= n < Pn SZ) by (unfold ws_fits in Hfit; subst n; lia).
  assert (Hn64 : 0 <= n < 2 ^ 64) by (pose proof Pn_SZ; lia).
  pose proof (length_client_head_bounds fin op key n Hk Hn64) as Hh. fold hd in Hh.
  assert (Hlen : length (input pBuffer) = (length hd + length payload + length rest)%nat)
    by (rewrite EI, length_app, length_client_frame; reflexivity).
  assert (HA : agrees (input pBuffer) (hd ++ mask key 0 payload))
    by (rewrite EI; apply agrees_app).
  pose proof (parseHead_client (start p pBuffer) pBuffer fin op key n (mask key 0 payload)
    Hop Hk Hn HA (getTotalLens_spec pBuffer)) as H. fold hd in H.
  cbn [m_iTotalLens start] in H. rewrite getTotalLens_spec in H. specialize (H ltac:(lia)).
  unfold parsePack, FRAME_HEAD_BASE_LEN. rewrite getTotalLens_spec in *. cbn [m_iTotalLens].
  rewrite (proj2 (Z.ltb_ge _ 6)) by lia. fold (start p pBuffer). unfold start in *.
  rewrite getTotalLens_spec in *.
  destruct (parseHead SZ _ pBuffer) as [p1 ok]. destruct H as (Hc & Ht & Hp & H).
  cbn [m_bClose m_iTotalLens m_iParsedLens] in *.
  rewrite (proj2 (Z.ltb_ge _ (Z.of_nat (length hd)))) in H by lia.
  destruct H as (-> & H1 & H2 & H3 & H4 & H5). rewrite Ht, H1, H2.
  unfold wsize_t. rewrite Z.mod_small by (unfold ws_fits in Hfit; subst n; lia).
  rewrite (proj2 (Z.ltb_ge _ _)) by (subst n; lia).
  replace (Z.of_nat (length hd) + n) with (Z.of_nat (length hd + length payload)) by (subst n; lia).
  destruct (Z.ltb_spec 0 n) as [Hpos | Hz].
  - rewrite readBuffer_enough by (subst n; lia). rewrite Nat2Z.id.
    rewrite length_firstn, (proj2 (Z.ltb_ge _ _)) by lia.
    assert (E1 : firstn (length hd + length payload) (input pBuffer) = hd ++ mask key 0 payload).
    { rewrite EI. unfold client_frame. fold n hd.
      rewrite <- (length_mask key 0 payload), <- length_app. apply firstn_app_len. }
    rewrite E1, !Nat2Z.id, firstn_app_len, skipn_app_len, firstn_all2 by (rewrite length_mask; subst n; lia).
    rewrite H3, mask_mask. do 2 eexists. split; [reflexivity|].
    cbn [m_bClose m_iParsedLens m_stFram set_result getMsg m_pMsg].
    rewrite pokeBuffer_output. splits; auto; [rewrite length_client_frame; reflexivity|].
    rewrite pokeBuffer_input by (rewrite length_app; lia). unfold store.
    rewrite length_app, EI. unfold client_frame. fold n hd.
    rewrite <- (length_mask key 0 payload), <- length_app, skipn_app_len, <- app_assoc. reflexivity.
  - destruct payload; [|subst n; cbn in Hz; lia].
    do 2 eexists. split; [reflexivity|].
    cbn [m_bClose m_iParsedLens m_stFram set_result getMsg m_pMsg]. splits; auto.
    + rewrite length_client_frame. cbn [length]. subst n. reflexivity.
    + rewrite EI. unfold client_frame. rewrite <- app_assoc. reflexivity.
Qed.

(** A part of a frame leaves everything as it is. *)
Lemma ws_parsePack_partial k : (k < length (client_frame fin op key payload))%nat ->
  input pBuffer = firstn k (client_frame fin op key payload) ->
  exists p', parsePack SZ p pBuffer = Some (p', pBuffer, false) /\
    m_bClose p' = false /\ m_iParsedLens p' = 0.
Proof.
  intros Hkl EI. assert (Hn : 0 <= n < Pn SZ) by (unfold ws_fits in Hfit; subst n; lia).
  assert (Hn64 : 0 <= n < 2 ^ 64) by (pose proof Pn_SZ; lia).
  pose proof (length_client_head_bounds fin op key n Hk Hn64) as Hh. fold hd in Hh.
  rewrite length_client_frame in Hkl. fold n hd in Hkl.
  assert (Hlen : length (input pBuffer) = k)
    by (rewrite EI, length_firstn, length_client_frame; fold n hd; lia).
  assert (HA : agrees (input pBuffer) (hd ++ mask key 0 payload))
    by (rewrite EI; apply agrees_firstn).
  unfold parsePack, FRAME_HEAD_BASE_LEN. rewrite getTotalLens_spec. cbn [m_iTotalLens].
  destruct (Z.ltb_spec (Z.of_nat (length (input pBuffer))) 6) as [Hs|Hs]; [eauto|].
  pose proof (parseHead_client (start p pBuffer) pBuffer fin op key n (mask key 0 payload)
    Hop Hk Hn HA (getTotalLens_spec pBuffer)) as H. fold hd in H. unfold start in H.
  cbn [m_iTotalLens] in H. rewrite getTotalLens_spec in H. specialize (H Hs).
  destruct (parseHead SZ _ pBuffer) as [p1 ok]. destruct H as (Hc & Ht & Hp & H).
  cbn [m_bClose m_iTotalLens m_iParsedLens] in *.
  destruct (Z.ltb_spec (Z.of_nat (length (input pBuffer))) (Z.of_nat (length hd))) as [Hl|Hl].
  - rewrite H. eauto.
  - destruct H as (-> & H1 & H2 & _). rewrite Ht, H1, H2.
    unfold wsize_t. rewrite Z.mod_small by (unfold ws_fits in Hfit; subst n; lia).
    rewrite (proj2 (Z.ltb_lt _ _)) by (subst n; lia). eauto.
Qed.

End OneFrame.

Lemma parseHead_true p (pBuffer : CEventBuffer B) p' : parseHead SZ p pBuffer = (p', true) ->
  m_iTotalLens p' = m_iTotalLens p /\ 0 <= m_iHeadLens p'.
Proof.
  unfold parseHead. destruct (readBuffer _ _); [|discriminate]. destruct (negb _); [discriminate|].
  destruct (_ <=? _); [intros [= <-]; split; [reflexivity | discriminate]|].
  destruct (_ =? _); (destruct (_ <? _); [discriminate|]); (destruct (readBuffer _ _); [|discriminate]);
    intros [= <-]; (split; [reflexivity | discriminate]).
Qed.

(** The unmasking loop leaves the input only when the length of the head and the
    announced length of the payload add up to more than a [size_t] holds. *)
Lemma parsePack_fault p (pBuffer : CEventBuffer B) : Z.of_nat (length (input pBuffer)) < 2 ^ 63 ->
  parsePack SZ p pBuffer = None ->
  let (p', ok) := parseHead SZ (start p pBuffer) pBuffer in
  ok = true /\ Pn SZ <= m_iHeadLens p' + uiDataLens (m_stFram p').
Proof.
  intros Hbig. unfold parsePack. fold (start p pBuffer).
  destruct (m_iTotalLens (start p pBuffer) <? _); [discriminate|].
  destruct (parseHead SZ (start p pBuffer) pBuffer) as [p' [|]] eqn:EH; [|discriminate].
  destruct (parseHead_true _ _ _ EH) as [Ht Hh]. cbn [m_iTotalLens start] in Ht.
  rewrite getTotalLens_spec in Ht. rewrite Ht.
  set (h := m_iHeadLens p') in *. set (n := uiDataLens (m_stFram p')).
  destruct (Z.ltb_spec (Z.of_nat (length (input pBuffer))) (wsize_t SZ (h + n))); [discriminate|].
  destruct (Z.ltb_spec 0 n); [|discriminate].
  destruct (readBuffer pBuffer (wsize_t SZ (h + n))) as [pMsg|] eqn:ER; [|discriminate].
  destruct (Z.ltb_spec (Z.of_nat (length pMsg)) (h + n)) as [Hlt|]; [|discriminate]. intros _.
  split; [reflexivity|]. destruct (Z.lt_ge_cases (h + n) (Pn SZ)) as [Hw|]; [exfalso|assumption].
  unfold wsize_t in *. rewrite Z.mod_small in * by lia.
  rewrite readBuffer_enough in ER by lia. injection ER as <-. rewrite length_firstn in Hlt. lia.
Qed.

(** A frame that is returned takes at least a byte of the input, and unmasking keeps the
    input's length. *)
Lemma ws_parsePack_progress p (pBuffer : CEventBuffer B) p' b' : (forall b, evbuffer_pullup b 0 = None) ->
  Z.of_nat (length (input pBuffer)) < 2 ^ 63 ->
  parsePack SZ p pBuffer = Some (p', b', true) ->
  1 <= m_iParsedLens p' /\ (0 < length (input pBuffer))%nat /\ length (input b') = length (input pBuffer).
Proof.
  intros H0 Hbig. unfold parsePack. fold (start p pBuffer).
  destruct (Z.ltb_spec (m_iTotalLens (start p pBuffer)) FRAME_HEAD_BASE_LEN) as [|Ht]; [discriminate|].
  assert (Hpos : (0 < length (input pBuffer))%nat)
    by (cbn [m_iTotalLens start] in Ht; rewrite getTotalLens_spec in Ht; unfold FRAME_HEAD_BASE_LEN in Ht; lia).
  destruct (parseHead SZ (start p pBuffer) pBuffer) as [p1 [|]] eqn:EH; [|discriminate].
  destruct (parseHead_true _ _ _ EH) as [Ht1 Hh]. cbn [m_iTotalLens start] in Ht1. rewrite getTotalLens_spec in Ht1.
  rewrite Ht1. set (h := m_iHeadLens p1) in *. set (n := uiDataLens (m_stFram p1)).
  destruct (Z.ltb_spec (Z.of_nat (length (input pBuffer))) (wsize_t SZ (h + n))) as [|Hneed]; [discriminate|].
  assert (HP : 2 ^ 32 <= Pn SZ) by (destruct HSZ as [-> | ->]; unfold Pn; vm_compute; discriminate).
  assert (Hw : 0 <= wsize_t SZ (h + n)) by (apply Z.mod_pos_bound; lia).
  destruct (Z.ltb_spec 0 n) as [Hn|Hn].
  - destruct (readBuffer pBuffer (wsize_t SZ (h + n))) as [pMsg|] eqn:ER; [|discriminate].
    destruct (Z.ltb_spec (Z.of_nat (length pMsg)) (h + n)) as [|Hl]; [discriminate|].
    intros [= <- <-]. cbn [m_iParsedLens set_result].
    destruct (Z.eq_dec (wsize_t SZ (h + n)) 0) as [Ez|Hnz].
    { exfalso. rewrite Ez in ER. unfold readBuffer in ER. change (as_ssize 0) with 0 in ER.
      destruct (m_pReadBuffer pBuffer) as [b|]; [rewrite H0 in ER|]; discriminate ER. }
    rewrite readBuffer_enough in ER by lia. injection ER as <-. rewrite length_firstn in Hl.
    splits; [lia | exact Hpos|].
    set (l := firstn _ _ ++ _).
    assert (Hll : (length l <= length (input pBuffer))%nat).
    { unfold l. rewrite length_app, length_mask, !length_firstn, length_skipn, length_firstn. lia. }
    rewrite pokeBuffer_input by exact Hll. apply length_store, Hll.
  - intros [= <- <-]. cbn [m_iParsedLens set_result]. splits; [|exact Hpos | reflexivity].
    assert (Hn0 : 0 <= n /\ 6 <= h <= 14).
    { subst n h. revert EH. unfold parseHead. destruct (readBuffer _ _) as [l|]; [|discriminate].
      destruct (negb _); [discriminate|]. destruct (_ <=? _).
      - intros [= <-]. cbn [m_iHeadLens set_fram m_stFram set_data uiDataLens first_bytes ucPayloadLen]. unfold FRAME_HEAD_BASE_LEN.
        split; [apply Z.land_nonneg; right; lia | lia].
      - destruct (_ =? _); (destruct (_ <? _); [discriminate|]); (destruct (readBuffer _ _) as [l2|]; [|discriminate]);
          intros [= <-]; cbn [m_iHeadLens set_fram m_stFram set_data uiDataLens]; (split; [|easy]).
        + apply (be_bound (le_bytes 2 _)), bytes_le_bytes.
        + apply Z.mod_pos_bound. lia. }
    unfold wsize_t. rewrite Z.mod_small by lia. lia.
Qed.

End Frames.

(** ** The heads the server sends *)

Lemma lor_128 op : 0 <= op < 16 -> op .| 128 = 128 + op /\ (op .| 128) .& 127 = op.
Proof.
  intros H. assert (E : op .| 128 = 128 + op)
    by (rewrite Z.lor_comm; change 128 with (1 * 2 ^ 7); rewrite (mul_lor_add 7) by lia; lia).
  rewrite E. split; [reflexivity|]. change 127 with (Z.ones 7). rewrite Z.land_ones by lia.
  Z.to_euclidean_division_equations; lia.
Qed.

(** [createHead] writes the head RFC 6455 prescribes for an unmasked frame. *)
Lemma ws_head_server fin op n : 0 <= op < 16 -> 0 <= n < 2 ^ 64 -> ws_head fin op n = server_head fin op n.
Proof.
  intros Hop Hn. destruct (lor_128 op Hop) as [E1 E2].
  unfold ws_head, createHead, server_head, len_bytes, PAYLOADLENS_125, PAYLOADLENS_126, PAYLOADLENS_127,
    FRAME_HEAD_BASE_LEN, FRAME_HEAD_EXT16_LEN, FRAME_HEAD_EXT64_LEN. rewrite E1 in *. rewrite E2.
  destruct (Z.leb_spec n 125); [|destruct (Z.leb_spec n 65535)].
  - rewrite w8_small by (unfold is_byte; lia). destruct fin; reflexivity.
  - unfold ntohs, w16. rewrite le_bytes_be. change (2 ^ 16) with (Pn 2). rewrite le_bytes_mod.
    destruct fin; reflexivity.
  - unfold w64. rewrite Z.mod_small by exact Hn. rewrite le_bytes_ntohl64 by lia.
    destruct fin; reflexivity.
Qed.

(** ** The claims *)

(** Claim C16: a frame a client sends is delivered as RFC 6455 means it.  When a masked
    frame stands at the front of the input, [parsePack] yields its payload, its FIN bit
    and opcode and the number of bytes to drain, and leaves the input with the payload
    unmasked and what follows untouched; while only a part of the frame is there it
    reports nothing, consumes nothing and does not ask to close. *)
Theorem ws_frame_roundtrip {B} {E : EvBuffer B} {L : EvBufferLaws B} SZ p (pBuffer : CEventBuffer B)
  fin op key payload (HSZ : SZ = 4%nat \/ SZ = 8%nat) (Hop : 0 <= op < 16) (Hk : length key = 4%nat)
  (Hfit : ws_fits SZ payload) (Hbig : Z.of_nat (length (input pBuffer)) < 2 ^ 63) :
  let f := client_frame fin op key payload in
  (forall rest, input pBuffer = f ++ rest ->
   exists p' b', parsePack SZ p pBuffer = Some (p', b', true) /\ m_bClose p' = false /\
     getMsg p' = payload /\ uiDataLens (m_stFram p') = Z.of_nat (length payload) /\
     emOpCode (m_stFram p') = op /\ cFin (m_stFram p') = (if fin then 1 else 0) /\
     m_iParsedLens p' = Z.of_nat (length f) /\
     skipn (length f) (input b') = rest /\ output b' = output pBuffer) /\
  (forall k, (k < length f)%nat -> input pBuffer = firstn k f ->
   exists p', parsePack SZ p pBuffer = Some (p', pBuffer, false) /\ m_bClose p' = false /\
     m_iParsedLens p' = 0).
Proof.
  cbv zeta. split.
  - intros rest EI.
    destruct (ws_parsePack_frame SZ HSZ p pBuffer fin op key payload Hop Hk Hfit Hbig rest EI)
      as (p' & b' & H1 & H2 & H3 & H4 & H5 & H6 & H7 & H8 & H9).
    exists p', b'. splits; auto. rewrite H8, app_assoc.
    replace (length (client_frame fin op key payload))
      with (length (client_head fin op key (Z.of_nat (length payload)) ++ payload))
      by (rewrite length_client_frame, length_app; reflexivity).
    apply skipn_app_len.
  - intros k Hkl EI. exact (ws_parsePack_partial SZ HSZ p pBuffer fin op key payload Hop Hk Hfit k Hkl EI).
Qed.

Definition conn (l : list Z) : CEventBuffer (list Z) :=
  {| m_pBev := Some 1%positive; m_pReadBuffer := Some l; m_pWriteBuffer := Some []; m_FD := 5 |}.

Lemma ws_frame_roundtrip_witness :
  let f := client_frame true WSOCK_TEXTFRAME [1; 2; 3; 4] [72; 105] in
  f = [129; 130; 1; 2; 3; 4; 73; 107] /\
  exists p' b', parsePack 8 CWebSockParser_new (conn (f ++ [9])) = Some (p', b', true) /\
    getMsg p' = [72; 105].
Proof.
  cbv zeta. split; [reflexivity|].
  destruct (ws_frame_roundtrip 8 CWebSockParser_new
    (conn (client_frame true WSOCK_TEXTFRAME [1; 2; 3; 4] [72; 105] ++ [9])) true WSOCK_TEXTFRAME
    [1; 2; 3; 4] [72; 105] (or_intror eq_refl) ltac:(unfold WSOCK_TEXTFRAME; lia) eq_refl
    ltac:(vm_compute; reflexivity) ltac:(vm_compute; reflexivity)) as [H _].
  destruct (H [9] eq_refl) as (p' & b' & H1 & _ & H2 & _). exists p', b'. auto.
Defined.

(** The parser's unmasking loop stays inside the frame unless the announced
    length wraps around, and a client can make it wrap: a 64-bit length within 14 of
    2^64 makes head and payload together look shorter than the head itself, the check
    against the bytes received passes, and the loop runs off the input with whatever
    bytes follow. *)
Theorem ws_length_wrap {B} {E : EvBuffer B} {L : EvBufferLaws B} p (pBuffer : CEventBuffer B)
  (Hbig : Z.of_nat (length (input pBuffer)) < 2 ^ 63) :
  (forall SZ, SZ = 4%nat \/ SZ = 8%nat ->
     let (p', ok) := parseHead SZ (start p pBuffer) pBuffer in
     m_iHeadLens p' + uiDataLens (m_stFram p') < Pn SZ -> parsePack SZ p pBuffer <> None) /\
  (forall fin op key n rest, 0 <= op < 16 -> length key = 4%nat -> 2 ^ 64 - 14 < n < 2 ^ 64 ->
     input pBuffer = client_head fin op key n ++ rest -> parsePack 8 p pBuffer = None).
Proof.
  split.
  - intros SZ HSZ. pose proof (parsePack_fault SZ HSZ p pBuffer Hbig) as H.
    destruct (parseHead SZ (start p pBuffer) pBuffer) as [p' ok]. intros Hlt HN.
    destruct (H HN). lia.
  - intros fin op key n rest Hop Hk Hn EI.
    assert (Hh : length (client_head fin op key n) = 14%nat).
    { rewrite length_client_head by lia. rewrite (proj2 (Z.leb_gt n 125)), (proj2 (Z.leb_gt n 65535)) by lia.
      reflexivity. }
    assert (Hlen : (14 <= length (input pBuffer))%nat) by (rewrite EI, length_app; lia).
    pose proof (parseHead_client 8 (or_intror eq_refl) (start p pBuffer) pBuffer fin op key n rest Hop Hk) as H.
    change (Pn 8) with (2 ^ 64) in H. rewrite EI in H. specialize (H ltac:(lia)).
    rewrite <- EI in H. specialize (H (fun _ _ _ => eq_refl) (getTotalLens_spec pBuffer)).
    cbn [m_iTotalLens start] in H. rewrite getTotalLens_spec, Hh in H. specialize (H ltac:(lia)).
    unfold parsePack, FRAME_HEAD_BASE_LEN. fold (start p pBuffer). cbn [m_iTotalLens start].
    rewrite getTotalLens_spec, (proj2 (Z.ltb_ge _ 6)) by lia. fold (start p pBuffer).
    destruct (parseHead 8 (start p pBuffer) pBuffer) as [p' ok]. destruct H as (_ & Ht & _ & H).
    rewrite (proj2 (Z.ltb_ge _ _)) in H by lia. destruct H as (-> & H1 & H2 & _).
    rewrite H1, H2, Ht. unfold wsize_t. change (Pn 8) with (2 ^ 64). change (Z.of_nat 14) with 14.
    replace ((14 + n) mod 2 ^ 64) with (14 + n - 2 ^ 64) by (apply (Z.mod_unique_pos _ _ 1); lia).
    rewrite (proj2 (Z.ltb_ge _ _)), (proj2 (Z.ltb_lt 0 n)) by lia.
    rewrite readBuffer_enough by lia. rewrite length_firstn, (proj2 (Z.ltb_lt _ _)) by lia. reflexivity.
Qed.

Lemma ws_length_wrap_witness :
  parsePack 8 CWebSockParser_new
    (conn ([130; 255; 255; 255; 255; 255; 255; 255; 255; 243; 0; 0; 0; 0])) = None.
Proof.
  set (buf := conn [130; 255; 255; 255; 255; 255; 255; 255; 255; 243; 0; 0; 0; 0]).
  assert (Hb : Z.of_nat (length (input buf)) < 2 ^ 63) by (vm_compute; reflexivity).
  destruct (ws_length_wrap CWebSockParser_new buf Hb) as [_ H].
  refine (H true WSOCK_BINARYFRAME [0; 0; 0; 0] (2 ^ 64 - 13) [] _ eq_refl _ _).
  - unfold WSOCK_BINARYFRAME. lia.
  - lia.
  - vm_compute. reflexivity.
Defined.
