(* ===== verification/SHA1.v ===== *)
(** * SHA1: [CSHA1] (QBase/SHA1.cpp)

    The class keeps the bit count in two words, a block buffer and a sixteen-word
    workspace in which [Transform] computes the message schedule in place.  The reference
    is SHA-1 of FIPS 180-1: the padded message absorbed block by block, with the schedule
    of eighty words.  RSAEURO's SHS ([SHS]) is the 1993 standard, without the rotation in
    the schedule, and is a different function. *)

From S2P Require Import Prelude StdLib MDBuffer.

(** ** [Transform] *)

Definition ROL32 (x n : Z) : Z := w32 (x .<< n) .| (x .>> (32 - n)).

(** The workspace and the five working variables. *)
Abbreviation workspace := (list Z).
Abbreviation vars := (Z * Z * Z * Z * Z)%type.

(** [SHABLK0(i)]: the word with its bytes swapped, stored back. *)
Definition swap_word (x : Z) : Z :=
  (ROL32 x 24 .& 0xFF00FF00) .| (ROL32 x 8 .& 0x00FF00FF).

Definition SHABLK0 (l : workspace) (i : nat) : workspace * Z :=
  let x := swap_word (nth i l 0) in (upd l i x, x).

Definition SHABLK (l : workspace) (i : nat) : workspace * Z :=
  let x := ROL32 (nth ((i + 13) mod 16) l 0 .^ nth ((i + 8) mod 16) l 0 .^
                  nth ((i + 2) mod 16) l 0 .^ nth (i mod 16) l 0) 1 in
  (upd l (i mod 16) x, x).

(** The five round macros differ in their function, constant and word.  The tuple is
    passed on rotated, as the unrolled calls rename the variables. *)
Definition S_R (blk : workspace -> nat -> workspace * Z) (f : Z -> Z -> Z -> Z) (K : Z)
    (s : workspace * vars) (i : nat) : workspace * vars :=
  let '(l, (v, w, x, y, z)) := s in
  let (l, m) := blk l i in
  (l, (w32 (z + (f w x y + m + K + ROL32 v 5)), v, ROL32 w 30, x, y)).

Definition S_R0 := S_R SHABLK0 (fun w x y => (w .& (x .^ y)) .^ y) 0x5A827999.
Definition S_R1 := S_R SHABLK (fun w x y => (w .& (x .^ y)) .^ y) 0x5A827999.
Definition S_R2 := S_R SHABLK (fun w x y => w .^ x .^ y) 0x6ED9EBA1.
Definition S_R3 := S_R SHABLK (fun w x y => ((w .| x) .& y) .| (w .& x)) 0x8F1BBCDC.
Definition S_R4 := S_R SHABLK (fun w x y => w .^ x .^ y) 0xCA62C1D6.

Definition Transform (pState pBuffer : list Z) : list Z :=
  let l := Decode pBuffer 16 in
  let s := (l, (nth 0 pState 0, nth 1 pState 0, nth 2 pState 0, nth 3 pState 0, nth 4 pState 0)) in
  let s := fold_left S_R0 (seq 0 16) s in
  let s := fold_left S_R1 (seq 16 4) s in
  let s := fold_left S_R2 (seq 20 20) s in
  let s := fold_left S_R3 (seq 40 20) s in
  let s := fold_left S_R4 (seq 60 20) s in
  let '(_, (a, b, c, d, e)) := s in
  [w32 (nth 0 pState 0 + a); w32 (nth 1 pState 0 + b); w32 (nth 2 pState 0 + c);
   w32 (nth 3 pState 0 + d); w32 (nth 4 pState 0 + e)].

(** ** The class *)

Record CSHA1 := {
  m_state : list Z;
  m_count0 : Z;
  m_count1 : Z;
  m_buffer : list Z;
  m_digest : list Z
}.

Definition SHA1_IV : list Z := [0x67452301; 0xEFCDAB89; 0x98BADCFE; 0x10325476; 0xC3D2E1F0].

Definition Reset (s : CSHA1) : CSHA1 :=
  {| m_state := SHA1_IV; m_count0 := 0; m_count1 := 0; m_buffer := m_buffer s; m_digest := m_digest s |}.

(** [for( ; (i + 63) < uLen; i += 64) Transform(m_state, &pbData[i]);] *)
Fixpoint Update_loop (fuel : nat) (st : list Z) (i : nat) (pbData : list Z) (uLen : Z)
  : list Z * nat :=
  match fuel with
  | O => (st, i)
  | S f =>
      if w32 (Z.of_nat i + 63) <? uLen then
        Update_loop f (Transform st (cells 64 (skipn i pbData))) (i + 64) pbData uLen
      else (st, i)
  end.

Definition Update (s : CSHA1) (pbData : list Z) (n : nat) : CSHA1 :=
  let uLen := w32 (Z.of_nat n) in
  let j := Z.to_nat ((m_count0 s .>> 3) .& 0x3F) in
  let c0 := w32 (m_count0 s + w32 (uLen .<< 3)) in
  let c1 := if c0 <? w32 (uLen .<< 3) then w32 (m_count1 s + 1) else m_count1 s in
  let c1 := w32 (c1 + (uLen .>> 29)) in
  let '(st, buf, i, j) :=
    if 63 <? w32 (Z.of_nat j + uLen) then
      let i := (64 - j)%nat in
      let buf := at_ptr j (fun p => R_memcpy p pbData i) (m_buffer s) in
      let st := Transform (m_state s) buf in
      let '(st, i) := Update_loop n st i pbData uLen in
      (st, buf, i, 0%nat)
    else (m_state s, m_buffer s, 0%nat, j) in
  let buf := if w32 (uLen - Z.of_nat i) =? 0 then buf
             else at_ptr j (fun p => R_memcpy p (skipn i pbData) (Z.to_nat (w32 (uLen - Z.of_nat i)))) buf in
  {| m_state := st; m_count0 := c0; m_count1 := c1; m_buffer := buf; m_digest := m_digest s |}.

(** [while((m_count[0] & 504) != 448) Update((UINT_8* )"\0", 1);] *)
Fixpoint pad_loop (fuel : nat) (s : CSHA1) : option CSHA1 :=
  if (m_count0 s .& 504) =? 448 then Some s
  else match fuel with O => None | S f => pad_loop f (Update s [0] 1) end.

(** Byte [i] of [pbFinalCount] and of the digest: big-endian bytes of words. *)
Definition be_byte (x : Z) (i : nat) : Z := (x .>> ((3 - Z.of_nat (i mod 4)) * 8)) .& 0xFF.

Definition pbFinalCount (s : CSHA1) : list Z :=
  map (fun i => be_byte (if (4 <=? i)%nat then m_count0 s else m_count1 s) i) (seq 0 8).

(** [Final] up to the digest. *)
Definition Final_digest (s : CSHA1) : option CSHA1 :=
  let count := pbFinalCount s in
  let s := Update s [0x80] 1 in
  let? s := pad_loop 64 s in
  let s := Update s count 8 in
  Some {| m_state := m_state s; m_count0 := m_count0 s; m_count1 := m_count1 s; m_buffer := m_buffer s;
          m_digest := map (fun i => be_byte (nth (i / 4) (m_state s) 0) i) (seq 0 20) |}.

(** The wiping at the end of [Final]: all but the digest is cleared and one block of
    zeros absorbed. *)
Definition wipe (s : CSHA1) : CSHA1 :=
  {| m_state := Transform (repeat 0 5) (repeat 0 64); m_count0 := 0; m_count1 := 0;
     m_buffer := repeat 0 64; m_digest := m_digest s |}.

Definition GetHash (s : CSHA1) : list Z := m_digest s.

Definition Final (s : CSHA1) : option CSHA1 := option_map wipe (Final_digest s).

(** ** The reference *)

Definition Ch (x y z : Z) : Z := (x .& y) .| (Z.lnot x .& z).
Definition Parity (x y z : Z) : Z := x .^ y .^ z.
Definition Maj (x y z : Z) : Z := (x .& y) .| (x .& z) .| (y .& z).

Fixpoint schedule (n : nat) (M : list Z) : list Z :=
  match n with
  | O => M
  | S k => let W := schedule k M in
           let t := length W in
           W ++ [ROL32 (nth (t - 3) W 0 .^ nth (t - 8) W 0 .^ nth (t - 14) W 0 .^ nth (t - 16) W 0) 1]
  end.

Definition round (W : list Z) (s : vars) (t : nat) : vars :=
  let '(a, b, c, d, e) := s in
  let (f, K) := if (t <? 20)%nat then (Ch, 0x5A827999)
                else if (t <? 40)%nat then (Parity, 0x6ED9EBA1)
                else if (t <? 60)%nat then (Maj, 0x8F1BBCDC) else (Parity, 0xCA62C1D6) in
  (w32 (ROL32 a 5 + f b c d + e + K + nth t W 0), a, ROL32 b 30, c, d).

Fixpoint be_words (l : list Z) (n : nat) : list Z :=
  match n with O => [] | S k => be (firstn 4 l) :: be_words (skipn 4 l) k end.

Definition sha1_block (H block : list Z) : list Z :=
  let W := schedule 64 (be_words block 16) in
  let '(a, b, c, d, e) :=
    fold_left (round W) (seq 0 80) (nth 0 H 0, nth 1 H 0, nth 2 H 0, nth 3 H 0, nth 4 H 0) in
  [w32 (nth 0 H 0 + a); w32 (nth 1 H 0 + b); w32 (nth 2 H 0 + c); w32 (nth 3 H 0 + d); w32 (nth 4 H 0 + e)].

Definition sha1_pad (m : list Z) : list Z :=
  let n := (length m mod 64)%nat in
  m ++ [0x80] ++ repeat 0 (if (n <? 56)%nat then 55 - n else 119 - n)
    ++ rev (le_bytes 8 (8 * Z.of_nat (length m))).

Definition sha1 (m : list Z) : list Z :=
  flat_map (fun x => rev (le_bytes 4 x)) (absorb sha1_block 64 SHA1_IV (sha1_pad m)).

Example sha1_abc : sha1 [0x61; 0x62; 0x63] =
  [0xA9; 0x99; 0x3E; 0x36; 0x47; 0x06; 0x81; 0x6A; 0xBA; 0x3E; 0x25; 0x71; 0x78; 0x50; 0xC2; 0x6C;
   0x9C; 0xD0; 0xD8; 0x9D].
Proof. vm_compute. reflexivity. Qed.

Example CSHA1_abc :
  option_map GetHash (Final (Update (Reset (Build_CSHA1 [] 9 9 (repeat 7 64) [])) [0x61; 0x62; 0x63] 3)) =
  Some (sha1 [0x61; 0x62; 0x63]).
Proof. vm_compute. reflexivity. Qed.

(** ** Byte order *)

(** Bitwise operations act on the bytes of a number. *)
Lemma land_cons x y A C : is_byte x -> is_byte y -> 0 <= A -> 0 <= C ->
  (x + 2 ^ 8 * A) .& (y + 2 ^ 8 * C) = (x .& y) + 2 ^ 8 * (A .& C).
Proof.
  intros Hx Hy HA HC. rewrite (Z.mul_comm _ A), (Z.mul_comm _ C), (Z.mul_comm _ (A .& C)).
  assert (Hxy : 0 <= x .& y < 2 ^ 8).
  { split; [apply Z.land_nonneg; unfold is_byte in *; lia|].
    apply lt_pow2_bits; [lia | apply Z.land_nonneg; unfold is_byte in *; lia |].
    intros i Hi. rewrite Z.land_spec, (byte_testbit x i Hx Hi). reflexivity. }
  rewrite <- !lor_add by (exact Hxy || unfold is_byte in *; lia). apply Z.bits_inj'. intros i Hi.
  rewrite !Z.land_spec, !Z.lor_spec, !Z.land_spec, !Z.shiftl_spec, !Z.land_spec by lia.
  destruct (Z.lt_ge_cases i 8).
  - rewrite !(Z.testbit_neg_r _ (i - 8)) by lia. cbn. rewrite !orb_false_r. reflexivity.
  - rewrite (byte_testbit x i), (byte_testbit y i) by (assumption || lia). reflexivity.
Qed.

Lemma lor_cons x y A C : is_byte x -> is_byte y -> 0 <= A -> 0 <= C ->
  (x + 2 ^ 8 * A) .| (y + 2 ^ 8 * C) = (x .| y) + 2 ^ 8 * (A .| C).
Proof.
  intros Hx Hy HA HC. rewrite (Z.mul_comm _ A), (Z.mul_comm _ C), (Z.mul_comm _ (A .| C)).
  assert (Hxy : 0 <= x .| y < 2 ^ 8).
  { split; [apply Z.lor_nonneg; unfold is_byte in *; lia|].
    apply lt_pow2_bits; [lia | apply Z.lor_nonneg; unfold is_byte in *; lia |].
    intros i Hi. rewrite Z.lor_spec, (byte_testbit x i Hx Hi), (byte_testbit y i Hy Hi). reflexivity. }
  rewrite <- !lor_add by (exact Hxy || unfold is_byte in *; lia). apply Z.bits_inj'. intros i Hi.
  rewrite !Z.lor_spec, !Z.shiftl_spec, !Z.lor_spec by lia.
  destruct (Z.testbit x i), (Z.testbit y i), (Z.testbit A (i - 8)), (Z.testbit C (i - 8)); reflexivity.
Qed.

Fixpoint map2 (f : Z -> Z -> Z) (a b : list Z) : list Z :=
  match a, b with x :: a', y :: b' => f x y :: map2 f a' b' | _, _ => [] end.

Lemma le_land a b : bytes a -> bytes b -> length a = length b -> le a .& le b = le (map2 Z.land a b).
Proof.
  intros Ha; revert b. induction Ha as [|x a Hx Ha IH]; intros [|y b] Hb Hl; try discriminate; [reflexivity|].
  inversion Hb; subst. cbn [le map2]. injection Hl as Hl.
  rewrite land_cons, IH; auto; apply le_bound; assumption.
Qed.

Lemma le_lor a b : bytes a -> bytes b -> length a = length b -> le a .| le b = le (map2 Z.lor a b).
Proof.
  intros Ha; revert b. induction Ha as [|x a Hx Ha IH]; intros [|y b] Hb Hl; try discriminate; [reflexivity|].
  inversion Hb; subst. cbn [le map2]. injection Hl as Hl.
  rewrite lor_cons, IH; auto; apply le_bound; assumption.
Qed.

(** A rotation by whole bytes rotates the bytes. *)
Lemma rotate_bytes a b n m : bytes a -> bytes b -> n = 8 * Z.of_nat (length b) ->
  32 = n + 8 * Z.of_nat (length a) -> m = n -> ROL32 (le (a ++ b)) m = le (b ++ a).
Proof.
  intros Ha Hb Hn H32 ->. unfold ROL32.
  pose proof (le_bound a Ha) as Ba. pose proof (le_bound b Hb) as Bb.
  assert (Pa : Pn (length a) = 2 ^ (32 - n)) by (unfold Pn; f_equal; lia).
  assert (Pb : Pn (length b) = 2 ^ n) by (unfold Pn; f_equal; lia).
  rewrite !le_app, Pa, Pb in *. rewrite shiftr_div by lia.
  rewrite (Z.add_comm (le a)), (Z.mul_comm _ (le b)), div_add_small by lia.
  rewrite Z.shiftl_mul_pow2 by lia. unfold w32.
  replace ((le b * 2 ^ (32 - n) + le a) * 2 ^ n) with (le a * 2 ^ n + le b * 2 ^ 32)
    by (replace (2 ^ 32) with (2 ^ (32 - n) * 2 ^ n) by (rewrite <- Z.pow_add_r by lia; f_equal; lia); lia).
  rewrite Z_mod_plus_full, Z.mod_small.
  - rewrite mul_lor_add by lia. lia.
  - replace (2 ^ 32) with (2 ^ (32 - n) * 2 ^ n) by (rewrite <- Z.pow_add_r by lia; f_equal; lia).
    split; [apply Z.mul_nonneg_nonneg; lia|]. apply Z.mul_lt_mono_pos_r; lia.
Qed.

Ltac bytes_list :=
  repeat (apply Forall_cons; [assumption || (unfold is_byte; lia)|]); apply Forall_nil.

Lemma swap_word_be a b c d : bytes [a; b; c; d] -> swap_word (Decode_word [a; b; c; d]) = be [a; b; c; d].
Proof.
  intros H. rewrite Decode_word_le by exact H. cbn [firstn]. unfold swap_word.
  inversion H as [|? ? Ha H0]; subst. inversion H0 as [|? ? Hb H1]; subst.
  inversion H1 as [|? ? Hc H2]; subst. inversion H2 as [|? ? Hd _]; subst.
  assert (R1 : ROL32 (le [a; b; c; d]) 24 = le [b; c; d; a])
    by (apply (rotate_bytes [a] [b; c; d] 24 24); auto; repeat constructor; auto).
  assert (R2 : ROL32 (le [a; b; c; d]) 8 = le [d; a; b; c])
    by (apply (rotate_bytes [a; b; c] [d] 8 8); auto; repeat constructor; auto).
  rewrite R1, R2.
  change 0xFF00FF00 with (le [0; 255; 0; 255]). change 0x00FF00FF with (le [255; 0; 255; 0]).
  rewrite !le_land by (reflexivity || bytes_list).
  cbn [app map2]. rewrite !Z.land_0_r.
  assert (L : forall x, is_byte x -> x .& 255 = x).
  { intros x Hx. change 255 with (Z.ones 8). rewrite Z.land_ones by lia. apply Z.mod_small, Hx. }
  rewrite !L by assumption.
  rewrite le_lor by (reflexivity || bytes_list).
  cbn [map2]. rewrite !Z.lor_0_l, !Z.lor_0_r. reflexivity.
Qed.

Lemma swap_words n : forall l, bytes l -> (4 * n <= length l)%nat ->
  forall i, (i < n)%nat -> swap_word (nth i (Decode l n) 0) = nth i (be_words l n) 0.
Proof.
  induction n as [|n IH]; intros l Hl Hn i Hi; [lia|].
  destruct l as [|a [|b [|c [|d l]]]]; try (cbn in Hn; lia).
  cbn [Decode be_words]. destruct i as [|i]; cbn [nth].
  - change (Decode_word (a :: b :: c :: d :: l)) with (Decode_word [a; b; c; d]).
    apply swap_word_be. exact (Forall_firstn _ 4 _ Hl).
  - apply IH; [exact (Forall_skipn _ 4 _ Hl) | cbn in Hn |- *; lia | lia].
Qed.

(** ** The schedule in place *)

Lemma length_schedule n M : length (schedule n M) = (n + length M)%nat.
Proof. induction n; cbn [schedule]; [reflexivity|]. rewrite length_app, IHn. cbn. lia. Qed.

Lemma nth_schedule_S n M t : (t < n + length M)%nat -> nth t (schedule (S n) M) 0 = nth t (schedule n M) 0.
Proof. intros H. cbn [schedule]. apply app_nth1. rewrite length_schedule. exact H. Qed.

Lemma nth_schedule_mono n k M t : (t < n + length M)%nat ->
  nth t (schedule (k + n) M) 0 = nth t (schedule n M) 0.
Proof.
  intros H. induction k as [|k IH]; [reflexivity|].
  change (S k + n)%nat with (S (k + n)). rewrite nth_schedule_S by lia. exact IH.
Qed.

Lemma nth_schedule_first n M t : (t < length M)%nat -> nth t (schedule n M) 0 = nth t M 0.
Proof. intros H. rewrite <- (Nat.add_0_r n). apply (nth_schedule_mono 0). exact H. Qed.

Lemma nth_schedule_rec n M t : (length M <= t < n + length M)%nat -> (16 <= t)%nat ->
  let W := schedule n M in
  nth t W 0 = ROL32 (nth (t - 3) W 0 .^ nth (t - 8) W 0 .^ nth (t - 14) W 0 .^ nth (t - 16) W 0) 1.
Proof.
  intros Ht H16 W. subst W.
  replace n with ((n - S (t - length M)) + S (t - length M))%nat by lia.
  set (k := (t - length M)%nat).
  rewrite !nth_schedule_mono by lia. rewrite (nth_schedule_S k M (t - 3)), (nth_schedule_S k M (t - 8)),
    (nth_schedule_S k M (t - 14)), (nth_schedule_S k M (t - 16)) by lia.
  cbn [schedule]. rewrite app_nth2 by (rewrite length_schedule; lia).
  rewrite length_schedule. replace (t - (k + length M))%nat with 0%nat by lia.
  replace (k + length M)%nat with t by lia. reflexivity.
Qed.

Section Rounds.
Context (raw M : list Z) (Lr : length raw = 16%nat) (LM : length M = 16%nat).
Context (Hswap : forall i, (i < 16)%nat -> swap_word (nth i raw 0) = nth i M 0).

Let W := schedule 64 M.

(** After [i] rounds the workspace holds the last sixteen words of the schedule, the
    words not yet used still in the order of the block. *)
Definition holds (l : workspace) (i : nat) : Prop :=
  length l = 16%nat /\
  (forall t, (t < i)%nat -> (i <= t + 16)%nat -> nth (t mod 16) l 0 = nth t W 0) /\
  (forall j, (i <= j < 16)%nat -> nth j l 0 = nth j raw 0).

Lemma mod16 t : (t mod 16 < 16)%nat.
Proof. apply Nat.mod_upper_bound. lia. Qed.

Lemma holds_upd l i x : holds l i -> x = nth i W 0 -> holds (upd l (i mod 16) x) (S i).
Proof.
  intros (Ll & H1 & H2) ->. pose proof (mod16 i). unfold holds. rewrite length_upd. splits; auto.
  - intros t Ht Hti. destruct (Nat.eq_dec t i) as [-> | Hne].
    + apply nth_upd_eq. lia.
    + rewrite nth_upd_ne; [apply H1; lia|].
      intros E. pose proof (Nat.div_mod_eq t 16). pose proof (Nat.div_mod_eq i 16).
      lia.
  - intros j Hj. rewrite nth_upd_ne; [apply H2; lia|]. rewrite Nat.mod_small by lia. lia.
Qed.

Lemma SHABLK0_holds l i : holds l i -> (i < 16)%nat ->
  exists l', SHABLK0 l i = (l', nth i W 0) /\ holds l' (S i).
Proof.
  intros H Hi. unfold SHABLK0. eexists. destruct H as (Ll & H1 & H2).
  assert (E : swap_word (nth i l 0) = nth i W 0).
  { rewrite H2 by lia. rewrite Hswap by exact Hi. unfold W. rewrite nth_schedule_first by lia. reflexivity. }
  rewrite E. split; [reflexivity|]. rewrite <- (Nat.mod_small i 16) at 1 by exact Hi.
  apply holds_upd; [split; auto | reflexivity].
Qed.

Lemma SHABLK_holds l i : holds l i -> (16 <= i < 80)%nat ->
  exists l', SHABLK l i = (l', nth i W 0) /\ holds l' (S i).
Proof.
  intros H Hi. unfold SHABLK. eexists.
  assert (E : forall k, (k < 16)%nat -> nth ((i + k) mod 16) l 0 = nth (i + k - 16) W 0).
  { intros k Hk. destruct H as (_ & H1 & _). rewrite <- (H1 (i + k - 16)%nat) by lia.
    f_equal. replace (i + k)%nat with (i + k - 16 + 1 * 16)%nat at 1 by lia.
    apply Nat.Div0.mod_add. }
  pose proof (E 0%nat ltac:(lia)) as E0. rewrite Nat.add_0_r in E0. rewrite E0, !E by lia.
  replace (i + 13 - 16)%nat with (i - 3)%nat by lia. replace (i + 8 - 16)%nat with (i - 8)%nat by lia.
  replace (i + 2 - 16)%nat with (i - 14)%nat by lia.
  pose proof (nth_schedule_rec 64 M i ltac:(lia) ltac:(lia)) as R. cbv zeta in R. fold W in R.
  rewrite <- R. split; [reflexivity|]. apply holds_upd; auto.
Qed.

Lemma S_R_round blk f f' K l s i l' : blk l i = (l', nth i W 0) ->
  (forall w x y, f w x y = f' w x y) ->
  (let '(a, b, c, d, e) := s in round W s i = (w32 (ROL32 a 5 + f' b c d + e + K + nth i W 0), a, ROL32 b 30, c, d)) ->
  S_R blk f K (l, s) i = (l', round W s i).
Proof.
  destruct s as [[[[a b] c] d] e]. intros E Hf ->. unfold S_R. rewrite E, Hf.
  replace (e + (f' b c d + nth i W 0 + K + ROL32 a 5))
    with (ROL32 a 5 + f' b c d + e + K + nth i W 0) by lia. reflexivity.
Qed.

Lemma Ch_macro w x y : (w .& (x .^ y)) .^ y = Ch w x y.
Proof.
  unfold Ch. apply Z.bits_inj'. intros i Hi.
  rewrite Z.lxor_spec, Z.land_spec, Z.lxor_spec, Z.lor_spec, !Z.land_spec, Z.lnot_spec by exact Hi.
  destruct (Z.testbit w i), (Z.testbit x i), (Z.testbit y i); reflexivity.
Qed.

Lemma Maj_macro w x y : ((w .| x) .& y) .| (w .& x) = Maj w x y.
Proof.
  unfold Maj. apply Z.bits_inj'. intros i Hi.
  rewrite !Z.lor_spec, !Z.land_spec, Z.lor_spec.
  destruct (Z.testbit w i), (Z.testbit x i), (Z.testbit y i); reflexivity.
Qed.

Lemma Parity_macro w x y : w .^ x .^ y = Parity w x y.
Proof. reflexivity. Qed.

(** A run of rounds of one kind. *)
Lemma rounds_run step a n : (forall l s i, (a <= i < a + n)%nat -> holds l i ->
    exists l', step (l, s) i = (l', round W s i) /\ holds l' (S i)) ->
  forall l s, holds l a -> exists l', fold_left step (seq a n) (l, s) =
    (l', fold_left (round W) (seq a n) s) /\ holds l' (a + n).
Proof.
  revert a. induction n as [|n IH]; intros a Hstep l s Hl; cbn [seq fold_left].
  - exists l. rewrite Nat.add_0_r. auto.
  - destruct (Hstep l s a ltac:(lia) Hl) as (l1 & -> & H1).
    destruct (IH (S a) ltac:(intros; apply Hstep; auto; lia) l1 (round W s a) H1) as (l2 & E & H2).
    exists l2. rewrite E. split; [reflexivity|]. replace (a + S n)%nat with (S a + n)%nat by lia. exact H2.
Qed.

Ltac round_step Hblk mac :=
  intros l s i Hi Hl;
  destruct (Hblk l i Hl ltac:(lia)) as (l' & E & H');
  exists l'; split; [|exact H'];
  eapply S_R_round; [exact E | exact mac |];
  destruct s as [[[[? ?] ?] ?] ?]; unfold round;
  repeat match goal with
  | |- context [(i <? ?n)%nat] => destruct (Nat.ltb_spec i n); try lia
  end; reflexivity.

Lemma all_rounds v0 : snd (fold_left S_R4 (seq 60 20) (fold_left S_R3 (seq 40 20)
    (fold_left S_R2 (seq 20 20) (fold_left S_R1 (seq 16 4) (fold_left S_R0 (seq 0 16) (raw, v0)))))) =
  fold_left (round W) (seq 0 80) v0.
Proof.
  assert (H0 : holds raw 0) by (unfold holds; splits; auto; lia).
  destruct (rounds_run S_R0 0 16 ltac:(round_step SHABLK0_holds Ch_macro) raw v0 H0) as (l1 & -> & H1).
  set (v1 := fold_left (round W) (seq 0 16) v0).
  destruct (rounds_run S_R1 16 4 ltac:(round_step SHABLK_holds Ch_macro) l1 v1 H1) as (l2 & -> & H2).
  set (v2 := fold_left (round W) (seq 16 4) v1).
  destruct (rounds_run S_R2 20 20 ltac:(round_step SHABLK_holds Parity_macro) l2 v2 H2) as (l3 & -> & H3).
  set (v3 := fold_left (round W) (seq 20 20) v2).
  destruct (rounds_run S_R3 40 20 ltac:(round_step SHABLK_holds Maj_macro) l3 v3 H3) as (l4 & -> & H4).
  set (v4 := fold_left (round W) (seq 40 20) v3).
  destruct (rounds_run S_R4 60 20 ltac:(round_step SHABLK_holds Parity_macro) l4 v4 H4) as (l5 & -> & _).
  unfold v4, v3, v2, v1.
  cbn [snd]. rewrite <- !fold_left_app. reflexivity.
Qed.

End Rounds.

Lemma length_Decode n : forall l, length (Decode l n) = n.
Proof. induction n; intros l; cbn; auto. Qed.

Lemma length_be_words n : forall l, length (be_words l n) = n.
Proof. induction n; intros l; cbn; auto. Qed.

(** The unrolled transform with the schedule in place is the block function. *)
Lemma Transform_block st buf : bytes buf -> length buf = 64%nat -> Transform st buf = sha1_block st buf.
Proof.
  intros Hb Hl. unfold Transform, sha1_block.
  set (s := (nth 0 st 0, nth 1 st 0, nth 2 st 0, nth 3 st 0, nth 4 st 0)).
  pose proof (all_rounds (Decode buf 16) (be_words buf 16) (length_Decode _ _) (length_be_words _ _)
    ltac:(intros i Hi; apply swap_words; [exact Hb | lia | exact Hi]) s) as H.
  destruct (fold_left S_R4 _ _) as [l' v]. cbn [snd] in H. rewrite <- H. reflexivity.
Qed.

(** ** The class and the message it has absorbed *)

Definition ctx (s : CSHA1) : MD_CTX := mkMD (m_state s) (m_count0 s) (m_count1 s) (m_buffer s).

Lemma bytes_at_ptr_memcpy j n (a b : list Z) : bytes a -> bytes b -> bytes (at_ptr j (fun p => R_memcpy p b n) a).
Proof.
  intros Ha Hb. unfold at_ptr. apply Forall_app. split; [auto with words|].
  apply bytes_R_memcpy; auto with words.
Qed.

Lemma Update_loop_blocks fuel st i x n : bytes x -> Z.of_nat n < 2 ^ 32 ->
  Update_loop fuel st i x (Z.of_nat n) = MD_blocks sha1_block fuel st i x n.
Proof.
  intros Hx Hn. revert st i. induction fuel as [|f IH]; intros st i; cbn [Update_loop MD_blocks]; [reflexivity|].
  rewrite Transform_block; [destruct (_ <? _); [apply IH | reflexivity] | | apply length_cells].
  apply bytes_cells. auto with words.
Qed.

(** [Update] is the update of the generic buffer, with the reference block function. *)
Lemma Update_MD s x : bytes x -> bytes (m_buffer s) -> length (m_buffer s) = 64%nat ->
  Z.of_nat (length x) < 2 ^ 32 - 63 ->
  ctx (Update s x (length x)) = MD_Update sha1_block (ctx s) x (length x) /\
  bytes (m_buffer (Update s x (length x))) /\ m_digest (Update s x (length x)) = m_digest s.
Proof.
  intros Hx Hb Lb Hn. unfold Update, MD_Update, ctx.
  cbn [state count0 count1 buffer]. rewrite !(w32_small (Z.of_nat (length x))) by (unfold is_word; lia).
  set (j := Z.to_nat ((m_count0 s .>> 3) .& 0x3F)).
  assert (Hj : (j < 64)%nat).
  { subst j. change 0x3F with (Z.ones 6). rewrite Z.land_ones by lia.
    pose proof (Z.mod_pos_bound (m_count0 s .>> 3) (2 ^ 6) ltac:(lia)). lia. }
  rewrite (w32_small (Z.of_nat j + _)) by (unfold is_word; lia).
  assert (Z0 : forall k l, at_ptr k (fun p => R_memcpy p l 0) (m_buffer s) = m_buffer s).
  { intros k l. unfold at_ptr. cbn. apply firstn_skipn. }
  destruct (Nat.leb_spec (64 - j) (length x)) as [Hc|Hc].
  - rewrite (proj2 (Z.ltb_lt 63 _)) by lia. rewrite Update_loop_blocks by (auto; lia).
    assert (Lat : length (at_ptr j (fun p => R_memcpy p x (64 - j)) (m_buffer s)) = 64%nat).
    { destruct (at_ptr_memcpy j (64 - j) (m_buffer s) x) as [H _]; lia. }
    rewrite Transform_block by (auto using bytes_at_ptr_memcpy).
    rewrite MD_blocks_spec by lia. set (i := (64 - j + _)%nat).
    assert (Hi : (i <= length x)%nat).
    { subst i. pose proof (Nat.Div0.mul_div_le (length (skipn (64 - j) x)) 64).
      rewrite length_skipn in *. lia. }
    rewrite (w32_small (Z.of_nat (length x) - _)) by (unfold is_word; lia).
    replace (Z.to_nat (Z.of_nat (length x) - Z.of_nat i)) with (length x - i)%nat by lia.
    cbn [m_state m_count0 m_count1 m_buffer m_digest].
    destruct (Z.eqb_spec (Z.of_nat (length x) - Z.of_nat i) 0) as [E|E].
    + replace (length x - i)%nat with 0%nat by lia. splits; auto using bytes_at_ptr_memcpy.
    + splits; auto using bytes_at_ptr_memcpy with words.
  - rewrite (proj2 (Z.ltb_ge 63 _)) by lia. cbn [Z.of_nat]. rewrite Z.sub_0_r, Nat.sub_0_r.
    rewrite (w32_small (Z.of_nat (length x))) by (unfold is_word; lia). rewrite Nat2Z.id.
    cbn [m_state m_count0 m_count1 m_buffer m_digest skipn].
    destruct (Z.eqb_spec (Z.of_nat (length x)) 0) as [E|E].
    + replace (length x) with 0%nat by lia. rewrite Z0. auto.
    + splits; auto using bytes_at_ptr_memcpy.
Qed.

(** ** Padding and the digest *)

Definition rep (s : CSHA1) (m : list Z) : Prop :=
  represents sha1_block SHA1_IV (ctx s) m /\ bytes (m_buffer s).

Lemma Reset_rep s : length (m_buffer s) = 64%nat -> bytes (m_buffer s) -> rep (Reset s) [].
Proof. intros L H. split; [apply (represents_Init sha1_block SHA1_IV (m_buffer s) L) | exact H]. Qed.

Lemma Update_rep s m x : rep s m -> bytes x -> Z.of_nat (length x) < 2 ^ 32 - 63 ->
  rep (Update s x (length x)) (m ++ x).
Proof.
  intros [R Hb] Hx Hl. destruct (Update_MD s x Hx Hb ltac:(apply R) Hl) as (E & Hb' & _).
  split; [|exact Hb']. rewrite E. apply MD_Update_represents; auto.
Qed.

Lemma mod_512 L : (8 * Z.of_nat L) mod 2 ^ 32 .& 504 = 8 * Z.of_nat (L mod 64).
Proof.
  rewrite Nat2Z.inj_mod. set (z := Z.of_nat L). change (Z.of_nat 64) with (2 ^ 6).
  replace (8 * (z mod 2 ^ 6)) with ((z mod 2 ^ 6) .<< 3) by (rewrite Z.shiftl_mul_pow2 by lia; lia).
  replace (8 * z) with (z .<< 3) by (rewrite Z.shiftl_mul_pow2 by lia; lia).
  rewrite <- !Z.land_ones by lia. change 504 with (Z.shiftl (Z.ones 6) 3).
  apply Z.bits_inj'. intros i Hi. rewrite !Z.land_spec, !Z.shiftl_spec, !Z.land_spec by lia.
  rewrite !Z.testbit_ones by lia.
  destruct (Z.ltb_spec i 32), (Z.ltb_spec (i - 3) 6), (Z.leb_spec 0 (i - 3)), (Z.leb_spec 0 i);
    cbn; rewrite ?andb_true_r, ?andb_false_r; auto; try lia;
    rewrite Z.testbit_neg_r by lia; reflexivity.
Qed.

(** The loop appends zeros until 56 bytes of a block are filled, at most 63. *)
Lemma pad_loop_rep fuel : forall s m, rep s m -> (Nat.modulo (120 - (length m mod 64)) 64 <= fuel)%nat ->
  exists s', pad_loop fuel s = Some s' /\ rep s' (m ++ repeat 0 (Nat.modulo (120 - (length m mod 64)) 64)).
Proof.
  induction fuel as [|f IH]; intros s m R Hf; cbn [pad_loop];
    pose proof (Nat.mod_upper_bound (length m) 64 ltac:(lia)) as B;
    replace (m_count0 s) with ((8 * Z.of_nat (length m)) mod 2 ^ 32) by (symmetry; apply R);
    rewrite mod_512; set (r := (length m mod 64)%nat) in *.
  - assert (r = 56)%nat as E.
    { pose proof (Nat.div_mod_eq (120 - r) 64). assert ((120 - r) / 64 < 2)%nat
        by (apply Nat.Div0.div_lt_upper_bound; lia). lia. }
    rewrite E. cbn. exists s. split; [reflexivity|]. rewrite app_nil_r. exact R.
  - destruct (Z.eqb_spec (8 * Z.of_nat r) 448) as [E|E].
    + exists s. replace r with 56%nat by lia. cbn [repeat]. change ((120 - 56) mod 64)%nat with 0%nat.
      cbn [repeat]. rewrite app_nil_r. auto.
    + assert (R1 : rep (Update s [0] 1) (m ++ [0])).
      { change 1%nat with (length [0]). apply Update_rep; [exact R | bytes_list | cbn; lia]. }
      assert (Er : (length (m ++ [0%Z]) mod 64 = if (r =? 63)%nat then 0 else r + 1)%nat).
      { rewrite length_app. cbn [length]. rewrite <- Nat.Div0.add_mod_idemp_l. fold r.
        destruct (Nat.eqb_spec r 63) as [->|]; [reflexivity|]. apply Nat.mod_small. lia. }
      assert (Ek : ((120 - r) mod 64 = S ((120 - (length (m ++ [0%Z]) mod 64)) mod 64))%nat).
      { rewrite Er. destruct (Nat.eqb_spec r 63) as [->|]; [reflexivity|].
        destruct (Nat.le_gt_cases r 56).
        - replace (120 - r)%nat with (56 - r + 1 * 64)%nat by lia.
          replace (120 - (r + 1))%nat with (55 - r + 1 * 64)%nat by lia.
          rewrite !Nat.Div0.mod_add, !Nat.mod_small by lia. lia.
        - rewrite !Nat.mod_small by lia. lia. }
      destruct (IH _ _ R1 ltac:(lia)) as (s' & E' & R'). exists s'. split; [exact E'|].
      rewrite Ek. cbn [repeat]. rewrite <- app_assoc in R'. exact R'.
Qed.

Lemma be_byte_le_bytes x : is_word x -> map (fun i => be_byte x i) [0; 1; 2; 3]%nat = rev (le_bytes 4 x).
Proof.
  intros H. cbn [map le_bytes rev app]. unfold be_byte. cbn [Nat.modulo Nat.divmod fst snd Nat.sub Z.of_nat].
  change 0xFF with (Z.ones 8). rewrite !Z.land_ones, !Z.shiftr_div_pow2 by (cbn; lia).
  unfold is_word in H.
  cbn [Z.mul Z.sub Z.of_nat Z.pow]. cons_eq; Z.to_euclidean_division_equations; lia.
Qed.

Lemma pbFinalCount_bits s m : rep s m ->
  pbFinalCount s = rev (le_bytes 8 (8 * Z.of_nat (length m))).
Proof.
  intros ((_ & _ & _ & E0 & E1) & _). unfold ctx in E0, E1. cbn [count0 count1] in E0, E1.
  set (x := 8 * Z.of_nat (length m)) in *.
  assert (W0 : is_word (m_count0 s)) by (rewrite E0; apply Z.mod_pos_bound; lia).
  assert (W1 : is_word (m_count1 s)) by (rewrite E1; apply Z.mod_pos_bound; lia).
  change (pbFinalCount s) with (map (fun i => be_byte (m_count1 s) i) [0; 1; 2; 3]%nat ++
                                map (fun i => be_byte (m_count0 s) i) [0; 1; 2; 3]%nat).
  rewrite !be_byte_le_bytes, <- rev_app_distr, E0, E1 by assumption. f_equal.
  change (2 ^ 32) with (Pn 4). rewrite !le_bytes_mod. cbn [le_bytes app].
  change (Pn 4) with (2 ^ 32). cons_eq; Z.to_euclidean_division_equations; lia.
Qed.

Lemma pad_zeros (m : list Z) :
  ((120 - (length (m ++ [0x80%Z]) mod 64)) mod 64)%nat =
  (let n := (length m mod 64)%nat in if (n <? 56)%nat then 55 - n else 119 - n)%nat.
Proof.
  cbv zeta. rewrite length_app. cbn [length]. rewrite <- Nat.Div0.add_mod_idemp_l.
  pose proof (Nat.mod_upper_bound (length m) 64 ltac:(lia)) as B.
  set (r := (length m mod 64)%nat) in *. destruct (Nat.eq_dec r 63) as [->|]; [reflexivity|].
  rewrite (Nat.mod_small (r + 1)) by lia. destruct (Nat.ltb_spec r 56).
  - replace (120 - (r + 1))%nat with (55 - r + 1 * 64)%nat by lia.
    rewrite Nat.Div0.mod_add, Nat.mod_small; lia.
  - rewrite Nat.mod_small; lia.
Qed.

Lemma digest_bytes st : length st = 5%nat -> words st ->
  map (fun i => be_byte (nth (i / 4) st 0) i) (seq 0 20) = flat_map (fun x => rev (le_bytes 4 x)) st.
Proof.
  intros L W. destruct st as [|a [|b [|c [|d [|e [|]]]]]]; try discriminate L.
  change (map _ (seq 0 20)) with
    (map (fun i => be_byte a i) [0; 1; 2; 3]%nat ++ map (fun i => be_byte b i) [0; 1; 2; 3]%nat ++
     map (fun i => be_byte c i) [0; 1; 2; 3]%nat ++ map (fun i => be_byte d i) [0; 1; 2; 3]%nat ++
     map (fun i => be_byte e i) [0; 1; 2; 3]%nat).
  inversion W as [|? ? Wa W1]; subst. inversion W1 as [|? ? Wb W2]; subst.
  inversion W2 as [|? ? Wc W3]; subst. inversion W3 as [|? ? Wd W4]; subst. inversion W4; subst.
  rewrite !be_byte_le_bytes by assumption. cbn [flat_map]. rewrite app_nil_r. reflexivity.
Qed.

Lemma sha1_block_state H b : length (sha1_block H b) = 5%nat /\ words (sha1_block H b).
Proof.
  unfold sha1_block. destruct (fold_left _ _ _) as [[[[? ?] ?] ?] ?].
  split; [reflexivity|]. repeat constructor; apply Z.mod_pos_bound; lia.
Qed.

Lemma absorb_state n : forall st m, length st = 5%nat /\ words st ->
  length (absorb_n sha1_block 64 n st m) = 5%nat /\ words (absorb_n sha1_block 64 n st m).
Proof. induction n; intros st m H; cbn [absorb_n]; [exact H|]. apply IHn, sha1_block_state. Qed.

Lemma SHA1_IV_state : length SHA1_IV = 5%nat /\ words SHA1_IV.
Proof. split; [reflexivity | check_words]. Qed.

Lemma length_sha1 m : length (sha1 m) = 20%nat.
Proof.
  unfold sha1, absorb. destruct (absorb_state (length (sha1_pad m) / 64) SHA1_IV (sha1_pad m) SHA1_IV_state) as [H _].
  generalize dependent (absorb_n sha1_block 64 (length (sha1_pad m) / 64) SHA1_IV (sha1_pad m)).
  intros st H. do 5 (destruct st as [|? st]; [discriminate|]). destruct st; [reflexivity | discriminate].
Qed.

(** [Final] after a message has been absorbed: the padding loop stops and the digest is
    the reference one. *)
Lemma Final_rep s m : rep s m -> exists s', Final s = Some s' /\ GetHash s' = sha1 m.
Proof.
  intros R. unfold Final, Final_digest. pose proof (pbFinalCount_bits s m R) as Ec.
  assert (R1 : rep (Update s [0x80] 1) (m ++ [0x80])).
  { change 1%nat with (length [0x80]). apply Update_rep; [exact R | bytes_list | cbn; lia]. }
  destruct (pad_loop_rep 64 _ _ R1) as (s2 & -> & R2).
  { pose proof (Nat.mod_upper_bound (120 - (length (m ++ [0x80%Z]) mod 64)) 64 ltac:(lia)). lia. }
  cbv zeta. rewrite pad_zeros in R2. cbv zeta in R2.
  assert (R3 : rep (Update s2 (pbFinalCount s) 8) (sha1_pad m)).
  { rewrite Ec. set (bits := rev (le_bytes 8 (8 * Z.of_nat (length m)))).
    assert (Lb : length bits = 8%nat) by (unfold bits; rewrite length_rev; apply length_le_bytes).
    assert (Bb : bytes bits) by (unfold bits; auto with words).
    unfold sha1_pad. fold bits. rewrite <- Lb at 1. rewrite <- app_assoc in R2.
    rewrite !app_assoc in *. apply Update_rep; [exact R2 | exact Bb | lia]. }
  eexists. split; [reflexivity|]. unfold GetHash, wipe. cbn [m_digest]. unfold sha1.
  destruct R3 as ((_ & Es & _) & _). unfold ctx in Es. cbn [state] in Es. rewrite Es.
  apply digest_bytes; apply absorb_state, SHA1_IV_state.
Qed.

Definition hash_chunks (s : CSHA1) (chunks : list (list Z)) : option CSHA1 :=
  Final (fold_left (fun s x => Update s x (length x)) chunks (Reset s)).

Lemma Updates_rep chunks : Forall (fun x => bytes x /\ Z.of_nat (length x) < 2 ^ 32 - 63) chunks ->
  forall s m, rep s m -> rep (fold_left (fun s x => Update s x (length x)) chunks s) (m ++ concat chunks).
Proof.
  induction 1 as [|x l [Hx Hl] _ IH]; intros s m R; cbn [fold_left concat]; [now rewrite app_nil_r|].
  rewrite app_assoc. apply IH, Update_rep; auto.
Qed.

(** ** The claims *)

(** Claim C32: [CSHA1] terminates and computes SHA-1 of FIPS 180-1: however a message is cut into the
    chunks given to [Update] (bytes, none within 63 of 2^32 long), after [Reset] and whatever
    the object held before, the padding loop of [Final] stops and [GetHash] yields the
    reference digest of the concatenation, although the class computes the message
    schedule in place in sixteen words, swaps the bytes of the words with rotations and
    counts the bits in two words. *)
Theorem CSHA1_is_sha1 s chunks : length (m_buffer s) = 64%nat -> bytes (m_buffer s) ->
  Forall (fun x => bytes x /\ Z.of_nat (length x) < 2 ^ 32 - 63) chunks ->
  exists s', hash_chunks s chunks = Some s' /\ GetHash s' = sha1 (concat chunks).
Proof.
  intros L Hb H. apply Final_rep. apply (Updates_rep chunks H (Reset s) []). apply Reset_rep; assumption.
Qed.

Lemma CSHA1_is_sha1_witness : exists s',
  hash_chunks (Build_CSHA1 [] 9 9 (repeat 7 64) []) [[0x61]; []; [0x62; 0x63]] = Some s' /\
  GetHash s' = sha1 [0x61; 0x62; 0x63].
Proof.
  apply (CSHA1_is_sha1 (Build_CSHA1 [] 9 9 (repeat 7 64) []) [[0x61]; []; [0x62; 0x63]]).
  - reflexivity.
  - apply Forall_forall. intros x Hx. apply repeat_spec in Hx. subst. split; reflexivity || discriminate.
  - repeat apply Forall_cons; try apply Forall_nil; (split; [bytes_list | reflexivity]).
Defined.
