(* ===== verification/Encrypt.v ===== *)
(** * Encrypt: the facade [CEncrypt] (QBase/Encrypt.cpp)

    One object with a digest of each kind, an AES coder for each direction, the RSA keys and
    a buffer for zlib, and operations on strings.  zlib is a library the source only calls:
    it is the interface [Zlib].  The URL coding and the checksums of the same file are in
    [UrlCode] and [Crc]. *)

From S2P Require Import Prelude StdLib Enum BufferMgr.
From S2P Require MD5 CMD5 SHA1 Base64 AES QRSA RSAKey.

(** ** zlib *)

Definition Z_OK : Z := 0.
Definition Z_STREAM_END : Z := 1.
Definition Z_MEM_ERROR : Z := -4.
Definition Z_BUF_ERROR : Z := -5.

(** [compress] into a block of the given size: [None] when it does not return [Z_OK].
    [inflate st n] with [Z_FINISH] and room for [n] bytes gives its code, what it wrote and
    the stream. *)
Class Zlib (St : Type) := {
  compressBound : Z -> Z;
  compress : Z -> list Z -> option (list Z);
  inflateInit2 : list Z -> Z * St;
  inflate : St -> Z -> Z * list Z * St;
  inflateEnd : St -> Z
}.

Section ZlibCalls.
Context {St : Type} {ZL : Zlib St} (new_char : Z -> option (list Z)).

(** The content of the buffer's block changes in place. *)
Definition set_block (b : CBuffer) (p : list Z) : CBuffer :=
  {| m_pBuffer := Some p; m_iOffset := m_iOffset b; m_iTotalSize := m_iTotalSize b |}.

(** The buffer, and [None] for the null pointer or the length [iOutLens]. *)
Definition zlibCompress (b : CBuffer) (pszVal : list Z) : CBuffer * option Z :=
  let ulEnSize := compressBound (Z.of_nat (length pszVal)) in
  let (b, _) := New new_char b ulEnSize in
  match m_pBuffer b with
  | None => (b, None)
  | Some p =>
      match compress ulEnSize pszVal with
      | None => (b, None)
      | Some out => (set_block b (store p out), Some (Z.of_nat (length out)))
      end
  end.

(** The loop: output goes to [pos], [avail_out] bytes of room are left. [None] when it has
    not ended after [fuel] passes. *)
Fixpoint inflate_loop (fuel : nat) (b : CBuffer) (p : list Z) (st : St) (pos iBufferLen avail_out total_out : Z)
  : option (CBuffer * option Z) :=
  match fuel with
  | O => None
  | S f =>
      let '(iErr, out, st) := inflate st avail_out in
      let p := at_ptr (Z.to_nat pos) (fun a => store a out) p in
      let avail_out := avail_out - Z.of_nat (length out) in
      let total_out := total_out + Z.of_nat (length out) in
      let b := set_block b p in
      if iErr =? Z_STREAM_END then
        if negb (inflateEnd st =? Z_OK) then Some (b, None) else Some (b, Some total_out)
      else if negb (iErr =? Z_BUF_ERROR) && negb (iErr =? Z_OK) then Some (b, None)
      else if (iErr =? Z_BUF_ERROR) && (0 <? avail_out) then Some (b, None)
      else
        let (b, _) := reNew new_char b (iBufferLen * 2) in
        match m_pBuffer b with
        | None => Some (b, None)
        | Some p => inflate_loop f b p st iBufferLen (iBufferLen * 2) (w32 iBufferLen) total_out
        end
  end.

Definition zlibDecompression (fuel : nat) (b : CBuffer) (pszVal : list Z) : option (CBuffer * option Z) :=
  let iBufferLen := if getTotalLens b =? 0 then Z.of_nat (length pszVal) else getTotalLens b in
  let (b, _) := New new_char b iBufferLen in
  match m_pBuffer b with
  | None => Some (b, None)
  | Some p =>
      let (iErr, st) := inflateInit2 (firstn (Z.to_nat (w32 (Z.of_nat (length pszVal)))) pszVal) in
      if iErr =? Z_OK then inflate_loop fuel b p st 0 iBufferLen (w32 iBufferLen) 0
      else Some (b, None)
  end.
End ZlibCalls.

(** ** The object *)

(** What an operation on strings gives: a string, an exception, or nothing the language
    defines (a read outside an object, a null pointer, a loop that does not end). *)
Inductive text_result := Text (s : list Z) | Raised | Undefined.

Record CEncrypt := {
  m_acSha : list Z;
  m_objMD5 : CMD5.CMD5;
  m_objSha1 : SHA1.CSHA1;
  m_objAESEncode : AES.AESCoder;
  m_objAESDecode : AES.AESCoder;
  m_objRSAKey : QRSA.CRSAKey;
  m_objRSA : QRSA.CRSA;
  m_bKeySet : bool;
  m_objBuffer : CBuffer
}.

Definition set_md5 (s : CEncrypt) x := {| m_acSha := m_acSha s; m_objMD5 := x; m_objSha1 := m_objSha1 s;
  m_objAESEncode := m_objAESEncode s; m_objAESDecode := m_objAESDecode s; m_objRSAKey := m_objRSAKey s;
  m_objRSA := m_objRSA s; m_bKeySet := m_bKeySet s; m_objBuffer := m_objBuffer s |}.
Definition set_sha1 (s : CEncrypt) x sha := {| m_acSha := sha; m_objMD5 := m_objMD5 s; m_objSha1 := x;
  m_objAESEncode := m_objAESEncode s; m_objAESDecode := m_objAESDecode s; m_objRSAKey := m_objRSAKey s;
  m_objRSA := m_objRSA s; m_bKeySet := m_bKeySet s; m_objBuffer := m_objBuffer s |}.
Definition set_aes (s : CEncrypt) x y := {| m_acSha := m_acSha s; m_objMD5 := m_objMD5 s; m_objSha1 := m_objSha1 s;
  m_objAESEncode := x; m_objAESDecode := y; m_objRSAKey := m_objRSAKey s;
  m_objRSA := m_objRSA s; m_bKeySet := m_bKeySet s; m_objBuffer := m_objBuffer s |}.
Definition set_rsa (s : CEncrypt) k r set := {| m_acSha := m_acSha s; m_objMD5 := m_objMD5 s; m_objSha1 := m_objSha1 s;
  m_objAESEncode := m_objAESEncode s; m_objAESDecode := m_objAESDecode s; m_objRSAKey := k;
  m_objRSA := r; m_bKeySet := set; m_objBuffer := m_objBuffer s |}.
Definition set_buffer (s : CEncrypt) b := {| m_acSha := m_acSha s; m_objMD5 := m_objMD5 s; m_objSha1 := m_objSha1 s;
  m_objAESEncode := m_objAESEncode s; m_objAESDecode := m_objAESDecode s; m_objRSAKey := m_objRSAKey s;
  m_objRSA := m_objRSA s; m_bKeySet := m_bKeySet s; m_objBuffer := b |}.

(** [NULL == psz ? "" : std::string(psz, iOutLens)] *)
Definition to_string (b : CBuffer) (o : outcome) : text_result :=
  match o with
  | Thrown => Raised
  | Null => Text []
  | Lens n =>
      match m_pBuffer b with
      | None => Text []
      | Some p => if n <=? Z.of_nat (length p) then Text (firstn (Z.to_nat n) p) else Undefined
      end
  end.

Section Encrypt.
Context {St : Type} {ZL : Zlib St} (SZ : nat) (new_char new_uchar new_ulong : Z -> option (list Z)).

Definition b64Encode (strVal : list Z) : list Z := Base64.Encode strVal.
Definition b64Decode (strVal : list Z) : list Z := Base64.Decode strVal.

Definition md5Str (s : CEncrypt) (strVal : list Z) : CEncrypt * text_result :=
  match CMD5.update (CMD5.reset (m_objMD5 s)) strVal (length strVal) with
  | None => (s, Undefined)
  | Some m =>
      match CMD5.toString m with
      | None => (s, Undefined)
      | Some (h, m) => (set_md5 s m, Text h)
      end
  end.

(** [std::string(m_acSha)] reads up to the first NUL, in the digest or in the memory that
    follows the array, of which [after] are the bytes. *)
Definition sha1Str (after : list Z) (s : CEncrypt) (strVal : list Z) : CEncrypt * text_result :=
  match SHA1.Final (SHA1.Update (SHA1.Reset (m_objSha1 s)) strVal (length strVal)) with
  | None => (s, Undefined)
  | Some x =>
      let sha := SHA1.GetHash x in
      let n := strlen (sha ++ after) in
      (set_sha1 s x sha,
       if Nat.ltb n (length (sha ++ after)) then Text (firstn n (sha ++ after)) else Undefined)
  end.

Definition setAESKey (s : CEncrypt) (pszKey : list Z) (usKeyType : Z) : CEncrypt :=
  set_aes s (fst (AES.CAESEncode_setKey new_uchar new_ulong (m_objAESEncode s) pszKey usKeyType))
    (fst (AES.CAESDecode_setKey new_uchar new_ulong (m_objAESDecode s) pszKey usKeyType)).

Definition aesEncode (s : CEncrypt) (strVal : list Z) : CEncrypt * text_result :=
  let (e, o) := AES.Encode new_char (m_objAESEncode s) strVal in
  (set_aes s e (m_objAESDecode s), to_string (AES.m_objBuffer e) o).

Definition aesDecode (s : CEncrypt) (strVal : list Z) : CEncrypt * text_result :=
  let (d, o) := AES.Decode SZ new_char (m_objAESDecode s) strVal in
  (set_aes s (m_objAESEncode s) d, to_string (AES.m_objBuffer d) o).

(** The keys are loaded in order; each file may be left out. [load] are the three loading
    functions of [RSAKey] over the files. *)
Definition setRSAKey (loadPub loadPri loadRand : QRSA.CRSAKey -> list Z -> QRSA.CRSAKey * Z)
  (s : CEncrypt) (pszPub pszPri pszRand : option (list Z)) : CEncrypt * Z :=
  let step load k name :=
    match name with
    | None | Some [] => (k, Q_RTN_OK)
    | Some f => let (k', iRtn) := load k f : QRSA.CRSAKey * Z in (k', if iRtn =? Q_RTN_OK then Q_RTN_OK else Q_RTN_FAILE)
    end in
  let (k, r) := step loadPub (m_objRSAKey s) pszPub in
  if negb (r =? Q_RTN_OK) then (set_rsa s k (m_objRSA s) (m_bKeySet s), Q_RTN_FAILE)
  else
    let (k, r) := step loadPri k pszPri in
    if negb (r =? Q_RTN_OK) then (set_rsa s k (m_objRSA s) (m_bKeySet s), Q_RTN_FAILE)
    else
      let (k, r) := step loadRand k pszRand in
      if negb (r =? Q_RTN_OK) then (set_rsa s k (m_objRSA s) (m_bKeySet s), Q_RTN_FAILE)
      else (set_rsa s k (m_objRSA s) true, Q_RTN_OK).

(** The four RSA operations; without a key the null pointer is followed. *)
Definition rsa_call (f : QRSA.CRSA -> QRSA.CRSAKey -> list Z -> option (QRSA.CRSA * QRSA.CRSAKey * outcome))
  (s : CEncrypt) (strVal : list Z) : CEncrypt * text_result :=
  if negb (m_bKeySet s) then (s, Undefined)
  else
    match f (m_objRSA s) (m_objRSAKey s) strVal with
    | None => (s, Undefined)
    | Some (r, k, o) => (set_rsa s k r true, to_string (QRSA.m_objBuffer r) o)
    end.
Definition rsaPubEncode := rsa_call (QRSA.publicKeyEncrypt new_char).
Definition rsaPriDecode := rsa_call (QRSA.privateKeyDecrypt new_char).
Definition rsaPriEncode := rsa_call (QRSA.privateKeyEncrypt new_char).
Definition rsaPubDecode := rsa_call (QRSA.publicKeyDecrypt new_char).

Definition zlib_outcome (r : option Z) : outcome := match r with None => Null | Some n => Lens n end.

Definition zlibEncode (s : CEncrypt) (strVal : list Z) : CEncrypt * text_result :=
  let (b, r) := zlibCompress new_char (m_objBuffer s) strVal in
  (set_buffer s b, to_string b (zlib_outcome r)).

Definition zlibDecode (fuel : nat) (s : CEncrypt) (strVal : list Z) : CEncrypt * text_result :=
  match zlibDecompression new_char fuel (m_objBuffer s) strVal with
  | None => (s, Undefined)
  | Some (b, r) => (set_buffer s b, to_string b (zlib_outcome r))
  end.
End Encrypt.

(** ** What zlib promises *)

(** [holds st d]: the stream [st] still has [d] to give.  With [Z_FINISH] a call gives as
    much as there is room for; it ends the stream or, when the room is used up, reports
    that it wants more. *)
Class ZlibLaws {St : Type} (ZL : Zlib St) := {
  holds : St -> list Z -> Prop;
  compressBound_range n : 0 <= n < 2 ^ 31 -> 0 < compressBound n < 2 ^ 32;
  compressBound_linear n : 0 <= n -> compressBound n <= 2 * n + 13;
  compress_total m : compress (compressBound (Z.of_nat (length m))) m <> None;
  compress_fits n m out : compress n m = Some out -> out <> [] /\ Z.of_nat (length out) <= n /\ (bytes m -> bytes out);
  init_holds n m out : compress n m = Some out -> exists st, inflateInit2 out = (Z_OK, st) /\ holds st m;
  inflate_room st n : 0 <= n -> Z.of_nat (length (snd (fst (inflate st n)))) <= n;
  inflate_holds st d n : holds st d -> 0 <= n ->
    let '(code, out, st') := inflate st n in
    out = firstn (Z.to_nat n) d /\
    ((code = Z_STREAM_END /\ Z.of_nat (length d) <= n /\ inflateEnd st' = Z_OK) \/
     (code = Z_BUF_ERROR /\ n <= Z.of_nat (length d) /\ holds st' (skipn (Z.to_nat n) d)))
}.

Section ZlibProofs.
Context {St : Type} {ZL : Zlib St} {LZ : ZlibLaws ZL} (new_char : Z -> option (list Z)).
Context (HL : forall n p, new_char n = Some p -> length p = Z.to_nat n) (HN : forall n, new_char n <> None).

(** The buffer is used as a block only. *)
Record zbuffer (b : CBuffer) : Prop := {
  zb_offset : m_iOffset b = 0;
  zb_total : 0 < m_iTotalSize b < 2 ^ 32;
  zb_block : exists p, m_pBuffer b = Some p /\ Z.of_nat (length p) = m_iTotalSize b
}.

Lemma New_block b n : zbuffer b -> n < 2 ^ 32 -> exists p, let b' := fst (New new_char b n) in
  m_pBuffer b' = Some p /\ zbuffer b' /\ n <= m_iTotalSize b'.
Proof.
  intros [O T (p & E & L)] Hn. unfold New. rewrite E. destruct (Z.ltb_spec (m_iTotalSize b) n).
  - destruct (new_char n) as [q|] eqn:Eq; [|destruct (HN _ Eq)]. apply HL in Eq.
    exists q. cbn. splits; [reflexivity| |lia]. constructor; cbn; [exact O|lia|exists q; split; [reflexivity|lia]].
  - exists p. cbn. splits; [exact E| |lia]. constructor; eauto.
Qed.

Lemma reNew_block b n p : m_pBuffer b = Some p -> Z.of_nat (length p) = m_iTotalSize b -> 0 <= m_iTotalSize b ->
  exists q, let b' := fst (reNew new_char b n) in
  m_pBuffer b' = Some q /\ m_iOffset b' = m_iOffset b /\ Z.of_nat (length q) = m_iTotalSize b' /\
  n <= m_iTotalSize b' /\ (m_iTotalSize b' = n \/ m_iTotalSize b' = m_iTotalSize b) /\ firstn (length p) q = p.
Proof.
  intros E L H0. unfold reNew. rewrite E. destruct (Z.leb_spec n (m_iTotalSize b)).
  - exists p. cbn. rewrite firstn_all. splits; auto.
  - destruct (new_char n) as [q|] eqn:Eq; [|destruct (HN _ Eq)]. apply HL in Eq. cbn.
    rewrite <- L, Nat2Z.id, firstn_all. exists (store q p). splits; auto; [|lia|apply firstn_store].
    rewrite length_store; lia.
Qed.

(** The block after [out] has been written to [pos]. *)
Lemma write_at p pos out : (pos + length out <= length p)%nat ->
  length (at_ptr pos (fun a => store a out) p) = length p /\
  firstn (pos + length out) (at_ptr pos (fun a => store a out) p) = firstn pos p ++ out.
Proof.
  intros H. unfold at_ptr. split.
  - rewrite length_app, length_firstn, length_store by (rewrite length_skipn; lia). rewrite length_skipn. lia.
  - replace (pos + length out)%nat with (length (firstn pos p) + length out)%nat by (rewrite length_firstn; lia).
    rewrite firstn_app_2, firstn_store. reflexivity.
Qed.

Lemma inflate_loop_spec fuel : forall b p st pos iBufferLen avail done d,
  m_pBuffer b = Some p -> m_iOffset b = 0 -> Z.of_nat (length p) = m_iTotalSize b -> m_iTotalSize b < 2 ^ 32 ->
  holds st d -> 0 <= pos -> 0 < avail -> pos + avail = iBufferLen -> iBufferLen <= m_iTotalSize b ->
  done = firstn (Z.to_nat pos) p -> Z.of_nat (length (done ++ d)) < 2 ^ 31 -> (length d < fuel)%nat ->
  exists b', inflate_loop new_char fuel b p st pos iBufferLen avail pos = Some (b', Some (Z.of_nat (length (done ++ d)))) /\
    zbuffer b' /\ returned b' (Z.of_nat (length (done ++ d))) = Some (done ++ d).
Proof.
  induction fuel as [|f IH]; intros b p st pos iBufferLen avail done d Eb Ob Lp T Hh Hp Ha Hpa Hl Ed HB Hf; [lia|].
  cbn [inflate_loop]. pose proof (inflate_holds st d avail Hh ltac:(lia)) as HI.
  destruct (inflate st avail) as [[code out] st']. destruct HI as [-> HC].
  assert (Lo : Z.of_nat (length (firstn (Z.to_nat avail) d)) = Z.min avail (Z.of_nat (length d)))
    by (rewrite length_firstn; lia).
  assert (Ldone : Z.of_nat (length done) = pos) by (rewrite Ed, length_firstn; lia).
  rewrite length_app in *.
  destruct (write_at p (Z.to_nat pos) (firstn (Z.to_nat avail) d) ltac:(lia)) as [Lw Fw]. rewrite <- Ed in Fw.
  set (out := firstn (Z.to_nat avail) d) in *. set (p1 := at_ptr _ _ p) in *.
  destruct HC as [(-> & Hd & He)|(-> & Hd & Hh')]; cbn [Z.eqb Z_STREAM_END Z_BUF_ERROR Z_OK Pos.eqb negb andb].
  - rewrite He. cbn [Z.eqb Z_OK negb]. exists (set_block b p1).
    assert (Eo : out = d) by (apply firstn_all2; lia). rewrite Eo in *.
    splits.
    + do 3 f_equal. lia.
    + constructor; cbn; [exact Ob|lia|exists p1; split; [reflexivity|lia]].
    + unfold returned. cbn [set_block m_pBuffer option_map]. f_equal. rewrite <- Fw. f_equal. lia.
  - replace (avail - Z.of_nat (length out)) with 0 by lia. cbn [Z.ltb Z.compare].
    destruct (reNew_block (set_block b p1) (iBufferLen * 2) p1 eq_refl ltac:(cbn; lia) ltac:(cbn; lia))
      as (q & Eq & Oq & Lq & Tq & Tq' & Fq). cbn [set_block m_iTotalSize m_iOffset] in *.
    destruct (reNew new_char (set_block b p1) (iBufferLen * 2)) as [b1 ok]. cbn [fst] in *. rewrite Eq.
    assert (Hw : w32 iBufferLen = iBufferLen) by (apply Z.mod_small; lia). rewrite Hw.
    replace (pos + Z.of_nat (length out)) with iBufferLen by lia.
    assert (Edone : done ++ out = firstn (Z.to_nat iBufferLen) q).
    { rewrite <- Fw, <- Fq. rewrite firstn_firstn. f_equal. lia. }
    assert (Esplit : done ++ d = (done ++ out) ++ skipn (Z.to_nat avail) d)
      by (rewrite <- app_assoc; f_equal; symmetry; apply firstn_skipn).
    assert (Ls : length (skipn (Z.to_nat avail) d) = (length d - Z.to_nat avail)%nat) by apply length_skipn.
    destruct (IH b1 q st' iBufferLen (iBufferLen * 2) iBufferLen (done ++ out) (skipn (Z.to_nat avail) d) Eq
      ltac:(lia) Lq ltac:(lia) Hh' ltac:(lia) ltac:(lia) ltac:(lia) Tq Edone) as (b' & E' & Z' & R').
    + rewrite <- Esplit, length_app. lia.
    + lia.
    + rewrite <- Esplit, length_app in E', R'. exists b'. splits; assumption.
Qed.
End ZlibProofs.

(** zlib as a container that only stores: the interface can be met. *)
#[export] Instance stored : Zlib (list Z) := {
  compressBound n := n + 1;
  compress n m := if Z.of_nat (length m) + 1 <=? n then Some (120 :: m) else None;
  inflateInit2 l := (Z_OK, tl l);
  inflate st n :=
    if Z.of_nat (length st) <=? n then (Z_STREAM_END, st, [])
    else (Z_BUF_ERROR, firstn (Z.to_nat n) st, skipn (Z.to_nat n) st);
  inflateEnd _ := Z_OK
}.

#[export] Instance stored_laws : ZlibLaws stored.
Proof.
  refine (Build_ZlibLaws _ stored (fun st d => st = d) _ _ _ _ _ _ _).
  all: cbn [compressBound compress inflateInit2 inflate inflateEnd stored].
  - intros n H. lia.
  - intros n H. lia.
  - intros m. now rewrite Z.leb_refl.
  - intros n m out. destruct (Z.leb_spec (Z.of_nat (length m) + 1) n); [|discriminate]. intros [= <-].
    splits; [discriminate|cbn [length]; lia|]. intros B. constructor; [unfold is_byte; lia|exact B].
  - intros n m out. destruct (_ <=? n); [|discriminate]. intros [= <-]. exists m. auto.
  - intros st n H. destruct (Z.leb_spec (Z.of_nat (length st)) n); cbn [fst snd]; [lia|rewrite length_firstn; lia].
  - intros st d n -> H. destruct (Z.leb_spec (Z.of_nat (length d)) n).
    + split; [symmetry; apply firstn_all2; lia|]. left. auto.
    + split; [reflexivity|]. right. splits; [reflexivity|lia|reflexivity].
Defined.

(** ** The claims *)

Section Zlib.
Context {St : Type} {ZL : Zlib St} {LZ : ZlibLaws ZL} (new_char : Z -> option (list Z)).
Context (HL : forall n p, new_char n = Some p -> length p = Z.to_nat n) (HN : forall n, new_char n <> None).

Lemma zlibCompress_spec b m : zbuffer b -> Z.of_nat (length m) < 2 ^ 31 ->
  exists b' out, zlibCompress new_char b m = (b', Some (Z.of_nat (length out))) /\ zbuffer b' /\
    returned b' (Z.of_nat (length out)) = Some out /\ compress (compressBound (Z.of_nat (length m))) m = Some out.
Proof.
  intros Zb Hm. unfold zlibCompress. set (n := compressBound (Z.of_nat (length m))).
  assert (Hn : 0 < n < 2 ^ 32) by (apply compressBound_range; lia).
  destruct (New_block new_char HL HN b n Zb ltac:(lia)) as (p & Ep & [O T (p' & Ep' & Lp)] & Ht).
  destruct (New new_char b n) as [b1 ok]. cbn [fst] in *. rewrite Ep in *. injection Ep' as <-.
  destruct (compress n m) as [out|] eqn:Ec; [|destruct (compress_total m Ec)].
  destruct (compress_fits n m out Ec) as (_ & Lo & _).
  assert (Ls : length (store p out) = length p) by (apply length_store; lia).
  exists (set_block b1 (store p out)), out. splits; [reflexivity| | |reflexivity].
  - constructor; cbn; [exact O|exact T|exists (store p out); split; [reflexivity|lia]].
  - unfold returned. cbn [set_block m_pBuffer option_map]. now rewrite Nat2Z.id, firstn_store.
Qed.

Lemma zlibDecompression_spec n m out d fuel : compress n m = Some out -> 0 <= n < 2 ^ 32 -> zbuffer d ->
  Z.of_nat (length m) < 2 ^ 31 -> (length m < fuel)%nat ->
  exists d', zlibDecompression new_char fuel d out = Some (d', Some (Z.of_nat (length m))) /\ zbuffer d' /\
    returned d' (Z.of_nat (length m)) = Some m.
Proof.
  intros Ec Hn [O T (p & Ep & Lp)] Hm Hf. unfold zlibDecompression, getTotalLens.
  destruct (Z.eqb_spec (m_iTotalSize d) 0); [lia|]. unfold New. rewrite Ep, Z.ltb_irrefl, Ep.
  destruct (compress_fits n m out Ec) as (_ & Lo & _).
  unfold w32 at 1. rewrite Z.mod_small, Nat2Z.id, firstn_all by lia.
  destruct (init_holds n m out Ec) as (st & -> & Hh). cbn [Z.eqb Z_OK].
  unfold w32. rewrite Z.mod_small by lia.
  destruct (inflate_loop_spec new_char HL HN fuel d p st 0 (m_iTotalSize d) (m_iTotalSize d) [] m Ep O Lp ltac:(lia) Hh)
    as (d' & E & Z' & R); auto; try lia.
  exists d'. auto.
Qed.
End Zlib.

(** [zlibDecompression] gives back what [zlibCompress] compressed, for every
    message below 2 GB, whatever zlib does within its interface: the loop that doubles the
    buffer as long as the stream wants more room ends (one pass per byte is more than
    enough), its pieces follow each other without a gap, and both buffers can be used
    again. *)
Theorem zlib_roundtrip {St} {ZL : Zlib St} {LZ : ZlibLaws ZL} new_char
  (HL : forall n p, new_char n = Some p -> length p = Z.to_nat n) (HN : forall n, new_char n <> None)
  (b d : CBuffer) (m : list Z) (fuel : nat) :
  zbuffer b -> zbuffer d -> Z.of_nat (length m) < 2 ^ 31 -> (length m < fuel)%nat ->
  exists b' out d', zlibCompress new_char b m = (b', Some (Z.of_nat (length out))) /\
    returned b' (Z.of_nat (length out)) = Some out /\
    zlibDecompression new_char fuel d out = Some (d', Some (Z.of_nat (length m))) /\
    returned d' (Z.of_nat (length m)) = Some m /\ zbuffer b' /\ zbuffer d'.
Proof.
  intros Zb Zd Hm Hf. destruct (zlibCompress_spec new_char HL HN b m Zb Hm) as (b' & out & E & Zb' & R & Ec).
  destruct (zlibDecompression_spec new_char HL HN _ m out d fuel Ec) as (d' & E' & Zd' & R'); auto.
  { destruct (compressBound_range (Z.of_nat (length m))); lia. }
  exists b', out, d'. splits; assumption.
Qed.

Definition small_buffer : CBuffer :=
  {| m_pBuffer := Some [7; 7; 7]; m_iOffset := 0; m_iTotalSize := 3 |}.

Lemma small_buffer_ok : zbuffer small_buffer.
Proof. constructor; [reflexivity|cbn; lia|exists [7; 7; 7]; split; reflexivity]. Qed.

(** Thirty bytes through a buffer of three: it doubles four times. *)
Lemma zlib_roundtrip_witness :
  let m := map Z.of_nat (seq 0 30) in
  exists b' out d', zlibCompress fresh_block small_buffer m = (b', Some (Z.of_nat (length out))) /\
    returned b' (Z.of_nat (length out)) = Some out /\
    zlibDecompression fresh_block 31 small_buffer out = Some (d', Some 30) /\
    returned d' 30 = Some m /\ zbuffer b' /\ zbuffer d'.
Proof.
  apply (zlib_roundtrip fresh_block fresh_block_length fresh_block_total small_buffer small_buffer
    (map Z.of_nat (seq 0 30)) 31 small_buffer_ok small_buffer_ok).
  - reflexivity.
  - apply Nat.ltb_lt. reflexivity.
Defined.

(** ** Digests as strings *)

Lemma strlen_zero d : In 0 d -> forall t, (strlen (d ++ t) < length d)%nat.
Proof.
  induction d as [|x d IH]; intros [] t; cbn [app strlen length].
  - subst x. cbn. lia.
  - destruct (x =? 0); [lia|]. specialize (IH H t). lia.
Qed.

Lemma firstn_in (d t : list Z) n : (n <= length d)%nat -> firstn n (d ++ t) = firstn n d.
Proof. intros H. rewrite firstn_app. replace (n - length d)%nat with 0%nat by lia. rewrite firstn_O. apply app_nil_r. Qed.

(** [sha1Str] is the SHA-1 of its argument only by luck.  Its twenty bytes go to
    an array of twenty that is read as a C string: a digest that has a zero byte is cut
    there, and to one that has none every byte in front of the next zero in memory is
    added. *)
Theorem sha1Str_spec (after : list Z) (s : CEncrypt) (m : list Z) :
  length (SHA1.m_buffer (m_objSha1 s)) = 64%nat -> bytes (SHA1.m_buffer (m_objSha1 s)) ->
  bytes m -> Z.of_nat (length m) < 2 ^ 32 - 63 ->
  let d := SHA1.sha1 m in
  (In 0 d -> exists r, snd (sha1Str after s m) = Text r /\ (length r < 20)%nat /\ r = firstn (length r) d) /\
  (forall garbage rest, Forall (fun c => c <> 0) d -> Forall (fun c => c <> 0) garbage -> after = garbage ++ 0 :: rest ->
     snd (sha1Str after s m) = Text (d ++ garbage)).
Proof.
  intros L B Bm Lm d. unfold sha1Str.
  destruct (SHA1.Final_rep (SHA1.Update (SHA1.Reset (m_objSha1 s)) m (length m)) m) as (x & -> & Hx).
  { apply (SHA1.Update_rep _ [] m); auto. now apply SHA1.Reset_rep. }
  rewrite Hx. fold d. assert (Ld : length d = 20%nat) by apply SHA1.length_sha1. cbv zeta. cbn [snd]. split.
  - intros H0. pose proof (strlen_zero d H0 after) as Hs. rewrite length_app.
    destruct (Nat.ltb_spec (strlen (d ++ after)) (length d + length after)); [|lia].
    exists (firstn (strlen (d ++ after)) d). rewrite length_firstn, Nat.min_l by lia.
    splits; [f_equal; apply firstn_in; lia|lia|reflexivity].
  - intros g rest Hd Hg ->. rewrite app_assoc. rewrite strlen_app by now apply Forall_app.
    destruct (Nat.ltb_spec (length (d ++ g)) (length ((d ++ g) ++ 0 :: rest))) as [_|H];
      [|rewrite (length_app (d ++ g)) in H; cbn [length] in H; lia].
    f_equal. apply firstn_app_len.
Qed.

(** An object as the constructors leave it; what they do not initialise is zero. *)
Definition CEncrypt_new (new_char : Z -> option (list Z)) : CEncrypt :=
  {| m_acSha := repeat 0 20;
     m_objMD5 := CMD5.reset {| CMD5._state := repeat 0 4; CMD5._count0 := 0; CMD5._count1 := 0; CMD5._buffer := repeat 0 64;
                               CMD5._digest := repeat 0 16; CMD5._finished := false |};
     m_objSha1 := SHA1.Reset {| SHA1.m_state := repeat 0 5; SHA1.m_count0 := 0; SHA1.m_count1 := 0;
                                SHA1.m_buffer := repeat 0 64; SHA1.m_digest := repeat 0 20 |};
     m_objAESEncode := AES.AESCoder_new new_char; m_objAESDecode := AES.AESCoder_new new_char;
     m_objRSAKey := RSAKey.empty_key; m_objRSA := QRSA.CRSA_new new_char; m_bKeySet := false;
     m_objBuffer := CBuffer_new new_char |}.

(** The letter z: the seventh byte of its digest is zero. *)
Lemma sha1Str_spec_witness : exists r,
  snd (sha1Str [0] (CEncrypt_new fresh_block) [122]) = Text r /\ (length r < 20)%nat /\
  r = firstn (length r) (SHA1.sha1 [122]).
Proof.
  apply (sha1Str_spec [0] (CEncrypt_new fresh_block) [122]).
  - reflexivity.
  - check_bytes.
  - check_bytes.
  - reflexivity.
  - vm_compute. tauto.
Defined.

(** [md5Str], whatever was hashed before. *)
Lemma md5Str_spec (s : CEncrypt) (m : list Z) : length (CMD5._buffer (m_objMD5 s)) = 64%nat ->
  Z.of_nat (length m) < 2 ^ 32 - 63 ->
  snd (md5Str s m) = Text (CMD5.bytesToHexString (MD5.MD5_digest m) 16).
Proof.
  intros L Hm. unfold md5Str.
  destruct (CMD5.update_rep _ [] m (CMD5.reset_rep _ L) Hm) as (x & -> & R). cbn [app] in R.
  unfold CMD5.toString. destruct (CMD5.digest_rep x m R) as (y & -> & _). reflexivity.
Qed.
