(* ===== verification/CipherChain.v ===== *)
(** * CipherChain: the transformations of [CEncrypt] meet the interface of [CommEncrypt]

    [CommEncrypt] is proved against the interface [Ciphers] and its laws.  Here the AES
    coders, the RSA operations and zlib, as [CEncrypt] holds them, are an instance, and two
    such objects with the same AES key and the two halves of an RSA key pair satisfy the
    laws.  The instance follows messages below 2 GB and buffers below 4 GB. *)

From S2P Require Import Prelude StdLib Enum Rsaeuro RSA BufferMgr Fips197 Rijndael AESCipher AESKeys.
From S2P Require Import Encrypt CommEncrypt.
From S2P Require AES Enhanc QRSA.

Section Instance.
Context {St : Type} {ZL : Zlib St} (SZ : nat) (new_char : Z -> option (list Z)).

Definition in_range (l : list Z) : bool := Z.of_nat (length l) <? 2 ^ 31.

(** The bytes at the returned pointer, when there are that many. *)
Definition bytes_of (b : CBuffer) (o : outcome) : option (list Z) :=
  match to_string b o, o with
  | Text l, Lens _ => if in_range l then Some l else None
  | _, _ => None
  end.

Definition aes_encode (c : CEncrypt) (l : list Z) : CEncrypt * option (list Z) :=
  let (e, o) := AES.Encode new_char (m_objAESEncode c) l in
  (set_aes c e (m_objAESDecode c), bytes_of (AES.m_objBuffer e) o).

Definition aes_decode (c : CEncrypt) (l : list Z) : CEncrypt * option (list Z) :=
  let (d, o) := AES.Decode SZ new_char (m_objAESDecode c) l in
  (set_aes c (m_objAESEncode c) d, bytes_of (AES.m_objBuffer d) o).

Definition rsa_op (f : QRSA.CRSA -> QRSA.CRSAKey -> list Z -> option (QRSA.CRSA * QRSA.CRSAKey * outcome))
  (c : CEncrypt) (l : list Z) : CEncrypt * option (list Z) :=
  if negb (m_bKeySet c) then (c, None)
  else
    match f (m_objRSA c) (m_objRSAKey c) l with
    | None => (c, None)
    | Some (r, k, o) => (set_rsa c k r true, bytes_of (QRSA.m_objBuffer r) o)
    end.

Definition zlib_op (c : CEncrypt) (r : option (CBuffer * option Z)) : CEncrypt * option (list Z) :=
  match r with
  | None => (c, None)
  | Some (b, n) =>
      if m_iTotalSize b <? 2 ^ 32 then (Encrypt.set_buffer c b, bytes_of b (zlib_outcome n)) else (c, None)
  end.

(** A longer message is out of the model's range. *)
Definition guarded (f : CEncrypt -> list Z -> CEncrypt * option (list Z)) (c : CEncrypt) (l : list Z) :=
  if in_range l then f c l else (c, None).

(** One pass of the inflating loop for every byte there is room for. *)
Definition inflate_fuel : nat := Z.to_nat (2 ^ 31).

#[export] Instance real_ciphers : Ciphers CEncrypt := {
  aesEncode := guarded aes_encode;
  aesDecode := guarded aes_decode;
  publicKeyEncrypt := guarded (rsa_op (QRSA.publicKeyEncrypt new_char));
  privateKeyEncrypt := guarded (rsa_op (QRSA.privateKeyEncrypt new_char));
  publicKeyDecrypt := guarded (rsa_op (QRSA.publicKeyDecrypt new_char));
  zlibCompress := guarded (fun c l => zlib_op c (Some (Encrypt.zlibCompress new_char (Encrypt.m_objBuffer c) l)));
  zlibDecompression := guarded (fun c l =>
    zlib_op c (Encrypt.zlibDecompression new_char inflate_fuel (Encrypt.m_objBuffer c) l))
}.
End Instance.

(** ** Two objects with matching keys *)

(** [c] encrypts for [d]: what the operations of a link between servers need. *)
Record matched (f : list Z -> list Z) (c d : CEncrypt) : Prop := {
  mt_aes : AES.aes_pair (m_objAESEncode c) (m_objAESDecode d) f;
  mt_keys : key_pair (QRSA.m_stPublicKey (m_objRSAKey d)) (QRSA.m_stPrivateKey (m_objRSAKey c)) /\
    (12 <= modulusLen (pub_bits (QRSA.m_stPublicKey (m_objRSAKey d))))%nat;
  mt_set : m_bKeySet c = true /\ m_bKeySet d = true;
  mt_rsa : QRSA.crsa_ok (m_objRSA c) /\ QRSA.crsa_ok (m_objRSA d);
  mt_zlib : zbuffer (Encrypt.m_objBuffer c) /\ zbuffer (Encrypt.m_objBuffer d)
}.

Section Laws.
Context {St : Type} {ZL : Zlib St} {LZ : ZlibLaws ZL} (SZ : nat) (new_char : Z -> option (list Z)).
Context (HSZ : (SZ = 4 \/ SZ = 8)%nat).
Context (HL : forall n p, new_char n = Some p -> length p = Z.to_nat n) (HN : forall n, new_char n <> None).

(** *** AES *)

Lemma aes_encode_keeps e m : AES.coder_ok e -> AES.coder_ok (fst (AES.Encode new_char e m)) /\
  AES.same_schedule e (fst (AES.Encode new_char e m)).
Proof.
  intros Ok. destruct (AES.m_pRK e) as [rk|] eqn:E.
  - destruct (AES.Encode_spec new_char HL HN e rk m Ok E) as (e' & -> & Ok' & S & _). auto.
  - unfold AES.Encode. cbn [AES.m_pRK AES.set_out]. rewrite E. cbn [fst]. destruct Ok as [Hp Hc Hb].
    split; [|split; reflexivity]. constructor; [exact Hp|exact Hc|exact (proj1 (reSet_spec _ Hb))].
Qed.

Lemma aes_decode_keeps d m : AES.coder_ok d -> AES.coder_ok (fst (AES.Decode SZ new_char d m)) /\
  AES.same_schedule d (fst (AES.Decode SZ new_char d m)).
Proof.
  intros Ok.
  assert (Reset : AES.coder_ok (AES.set_out d (reSet (AES.m_objBuffer d))) /\
    AES.same_schedule d (AES.set_out d (reSet (AES.m_objBuffer d)))).
  { destruct Ok as [Hp Hc Hb]. split; [|split; reflexivity].
    constructor; [exact Hp|exact Hc|exact (proj1 (reSet_spec _ Hb))]. }
  destruct (AES.m_pRK d) as [rk|] eqn:E.
  2:{ unfold AES.Decode. cbn [AES.m_pRK AES.set_out]. rewrite E. exact Reset. }
  destruct (Nat.eqb (length m mod 16) 0) eqn:E16.
  2:{ unfold AES.Decode. cbn [AES.m_pRK AES.set_out]. rewrite E. unfold AES.AES_BlockSize. rewrite E16. exact Reset. }
  apply Nat.eqb_eq in E16. pose proof (Nat.div_mod_eq (length m) 16) as Hd.
  assert (Em : concat (AES.cut (length m / 16) m) = m) by (apply AES.concat_cut; lia).
  assert (HB : Forall (fun b => length b = 16%nat) (AES.cut (length m / 16) m)) by (apply AES.cut_lengths; lia).
  destruct (AES.Decode_spec SZ new_char HL HN d rk _ Ok E HB) as (d' & E' & Ok' & S & _).
  rewrite Em in E'. rewrite E'. auto.
Qed.

(** *** RSA *)

(** What every block call does that the link uses: the key stays, and a success has
    written what it announces. *)
Definition call_keeps (call : QRSA.block_call) : Prop := forall key out t p k st out' n key',
  call key out t p k = Some ((st, out', n), key') -> key' = key /\ (st = ID_OK -> (n <= length out')%nat).

Lemma private_encrypt_keeps : call_keeps (QRSA.encrypt_block QRSA.RSAType_Private).
Proof.
  intros key out t p k st out' n key'. cbn [QRSA.encrypt_block].
  destruct (RSAPrivateEncrypt out t p k _) as [[[st1 o1] l1]|] eqn:E; [|discriminate]. cbn [obind].
  intros [= <- <- <- <-]. split; [reflexivity|]. intros ->. exact (Enhanc.RSAPrivateEncrypt_length _ _ _ _ _ _ _ E).
Qed.

Lemma RSAPublicDecrypt_length o l input n k out len :
  RSAPublicDecrypt o l input n k = Some (ID_OK, out, len) -> (len <= length out)%nat.
Proof.
  unfold RSAPublicDecrypt. destruct (Nat.ltb _ n); [now intros [=]|].
  destruct (rsapublicfunc _ _ _ _ _) as [[[st b] bl]|]; cbn [obind]; [|now intros [=]].
  destruct (negb (st =? 0)) eqn:Es; [intros [= -> _ _]; discriminate Es|].
  repeat (match goal with |- (if ?b then _ else _) = _ -> _ => destruct b; [now intros [=]|] end).
  intros [= <- <-]. rewrite R_memcpy_store. unfold store. rewrite length_app, length_cells. lia.
Qed.

Lemma public_decrypt_keeps : call_keeps (QRSA.decrypt_block QRSA.RSAType_Public).
Proof.
  intros key out t p k st out' n key'. cbn [QRSA.decrypt_block].
  destruct (RSAPublicDecrypt out t p k _) as [[[st1 o1] l1]|] eqn:E; [|discriminate]. cbn [obind].
  intros [= <- <- <- <-]. split; [reflexivity|]. intros ->. exact (RSAPublicDecrypt_length _ _ _ _ _ _ _ E).
Qed.

Lemma block_loop_keeps call iStep : call_keeps call -> forall fuel s key t p s' key' r, QRSA.crsa_ok s ->
  QRSA.block_loop new_char call fuel iStep s key t p = Some (s', key', r) -> QRSA.crsa_ok s' /\ key' = key.
Proof.
  intros HK. induction fuel as [|f IH]; intros s key t p s' key' r Hs; destruct p as [|x p]; cbn [QRSA.block_loop];
    try (intros [= <- <- _]; auto).
  destruct (call _ _ _ _ _) as [[[[st out] n] k1]|] eqn:E; [|discriminate]. cbn [obind].
  destruct (HK _ _ _ _ _ _ _ _ _ E) as [-> HO]. destruct Hs as [Hw Hb]. cbn [QRSA.m_objBuffer].
  destruct (Z.eqb_spec st 0) as [->|]; cbn [negb]; [|intros [= <- <- _]; split; [constructor; assumption|reflexivity]].
  destruct (push_bytes new_char HL HN _ out n Hw (HO eq_refl)) as (b & Eb & Wb & _ & Pb & _). rewrite Eb.
  apply IH. constructor; assumption.
Qed.

Lemma rsa_op_keeps call iStep c m f :
  call_keeps call -> (forall r k l, f r k l = QRSA.run_blocks new_char call (iStep k) r k l) ->
  QRSA.crsa_ok (m_objRSA c) -> let c' := fst (rsa_op f c m) in
  exists r, QRSA.crsa_ok r /\ (c' = c \/ c' = set_rsa c (m_objRSAKey c) r true /\ m_bKeySet c = true).
Proof.
  intros HK Hf Hs. cbv zeta. unfold rsa_op. destruct (m_bKeySet c) eqn:Eb; cbn [negb]; [|exists (m_objRSA c); auto].
  rewrite Hf. unfold QRSA.run_blocks.
  set (s0 := QRSA.Build_CRSA _ _).
  assert (Hs0 : QRSA.crsa_ok s0) by (destruct Hs as [Hw Hb]; constructor; [exact (proj1 (reSet_spec _ Hw))|exact Hb]).
  destruct (QRSA.block_loop _ _ _ _ s0 _ _ _) as [[[s1 k1] e]|] eqn:E; cbn [obind]; [|exists (m_objRSA c); auto].
  destruct (block_loop_keeps _ _ HK _ _ _ _ _ _ _ _ Hs0 E) as [Hs1 ->].
  exists s1. destruct e; auto.
Qed.

(** *** zlib *)

(** A buffer after any inflation, below 4 GB, can be used again. *)
Lemma inflate_loop_keeps fuel : forall b p st pos iBufferLen avail total b' r,
  m_pBuffer b = Some p -> m_iOffset b = 0 -> Z.of_nat (length p) = m_iTotalSize b ->
  0 <= pos -> 0 <= avail -> pos + avail <= m_iTotalSize b -> 0 < m_iTotalSize b -> 0 < iBufferLen ->
  Encrypt.inflate_loop new_char fuel b p st pos iBufferLen avail total = Some (b', r) ->
  m_iTotalSize b' < 2 ^ 32 -> zbuffer b'.
Proof.
  induction fuel as [|f IH]; intros b p st pos iBufferLen avail total b' r Eb Ob Lp Hp Ha Hpa Ht Hi; cbn [Encrypt.inflate_loop];
    [discriminate|].
  pose proof (inflate_room st avail Ha) as Hr. destruct (inflate st avail) as [[code out] st']. cbn [fst snd] in Hr.
  destruct (write_at p (Z.to_nat pos) out ltac:(lia)) as [Lw _]. set (p1 := at_ptr _ _ p) in *.
  assert (Z1 : m_iTotalSize (set_block b p1) < 2 ^ 32 -> zbuffer (set_block b p1)).
  { intros HT. constructor; cbn in *; [exact Ob|lia|exists p1; split; [reflexivity|lia]]. }
  destruct (code =? Z_STREAM_END).
  { destruct (negb _); intros [= <- _]; exact Z1. }
  destruct (negb (code =? Z_BUF_ERROR) && negb (code =? Z_OK)); [intros [= <- _]; exact Z1|].
  destruct ((code =? Z_BUF_ERROR) && _); [intros [= <- _]; exact Z1|].
  destruct (reNew_block new_char HL HN (set_block b p1) (iBufferLen * 2) p1 eq_refl ltac:(cbn; lia) ltac:(cbn; lia))
    as (q & Eq & Oq & Lq & Tq & Tq' & _). cbn [set_block m_iTotalSize m_iOffset] in *.
  destruct (reNew new_char (set_block b p1) (iBufferLen * 2)) as [b1 ok]. cbn [fst] in *. rewrite Eq.
  assert (Hw : 0 <= w32 iBufferLen <= iBufferLen).
  { unfold w32. split; [apply Z.mod_pos_bound; lia|apply Z.mod_le; lia]. }
  apply IH; auto; lia.
Qed.

Lemma zlib_decode_keeps fuel b m b' r : zbuffer b ->
  Encrypt.zlibDecompression new_char fuel b m = Some (b', r) -> m_iTotalSize b' < 2 ^ 32 -> zbuffer b'.
Proof.
  intros [O T (p & Ep & Lp)]. unfold Encrypt.zlibDecompression, getTotalLens.
  destruct (Z.eqb_spec (m_iTotalSize b) 0); [lia|]. unfold New. rewrite Ep, Z.ltb_irrefl, Ep.
  destruct (inflateInit2 _) as [code st]. destruct (code =? Z_OK).
  - assert (Hw : 0 <= w32 (m_iTotalSize b) <= m_iTotalSize b).
    { unfold w32. split; [apply Z.mod_pos_bound; lia|apply Z.mod_le; lia]. }
    intros E HB. 
    apply (inflate_loop_keeps _ _ _ _ _ _ _ _ _ _ Ep O Lp) in E; auto; lia.
  - intros [= <- _] _. constructor; eauto.
Qed.

Lemma zlib_encode_keeps b m : zbuffer b -> in_range m = true -> zbuffer (fst (Encrypt.zlibCompress new_char b m)).
Proof.
  intros Zb Hm. apply Z.ltb_lt in Hm.
  destruct (zlibCompress_spec new_char HL HN b m Zb Hm) as (b' & out & -> & Zb' & _). exact Zb'.
Qed.


(** *** The pair stays one *)

#[local] Existing Instance real_ciphers.
#[local] Abbreviation ciphers := (real_ciphers SZ new_char).

Lemma aes_pair_keeps e d f e' d' : AES.aes_pair e d f -> AES.coder_ok e' -> AES.same_schedule e e' ->
  AES.coder_ok d' -> AES.same_schedule d d' -> AES.aes_pair e' d' f.
Proof.
  intros (rk & dk & Er & Ok & Dr & Dk & H) Ok' [S1 S2] Dk' [T1 T2]. exists rk, dk.
  rewrite S1, S2, T1, T2. splits; auto.
Qed.

Lemma matched_keeps f c d c' d' : matched f c d ->
  AES.coder_ok (m_objAESEncode c') -> AES.same_schedule (m_objAESEncode c) (m_objAESEncode c') ->
  AES.coder_ok (m_objAESDecode d') ->
  AES.same_schedule (m_objAESDecode d) (m_objAESDecode d') ->
  m_objRSAKey c' = m_objRSAKey c -> m_objRSAKey d' = m_objRSAKey d ->
  m_bKeySet c' = m_bKeySet c -> m_bKeySet d' = m_bKeySet d ->
  QRSA.crsa_ok (m_objRSA c') -> QRSA.crsa_ok (m_objRSA d') ->
  zbuffer (Encrypt.m_objBuffer c') -> zbuffer (Encrypt.m_objBuffer d') -> matched f c' d'.
Proof.
  intros [A K [B1 B2] R Z] He Se Hd' Sd K1 K2 B3 B4 Rc Rd Zc Zd.
  constructor; rewrite ?K1, ?K2, ?B3, ?B4; auto. eapply aes_pair_keeps; eauto.
Qed.

Lemma same_schedule_refl e : AES.same_schedule e e.
Proof. split; reflexivity. Qed.

Lemma pair_ok e d f : AES.aes_pair e d f -> AES.coder_ok e /\ AES.coder_ok d.
Proof. intros (rk & dk & _ & H & _ & H' & _). auto. Qed.

Lemma zlib_op_keeps c r b' n : fst (zlib_op c r) = c \/
  (r = Some (b', n) -> fst (zlib_op c r) = Encrypt.set_buffer c b' /\ m_iTotalSize b' < 2 ^ 32).
Proof.
  unfold zlib_op. destruct r as [[b k]|]; [|auto].
  destruct (Z.ltb_spec (m_iTotalSize b) (2 ^ 32)); [right; now intros [= <- <-]|auto].
Qed.

#[local] Hint Resolve same_schedule_refl : core.

Ltac keep_rest M := destruct (pair_ok _ _ _ (mt_aes _ _ _ M)) as [Oe Od];
  destruct (mt_rsa _ _ _ M) as [Rc Rd]; destruct (mt_zlib _ _ _ M) as [Zc Zd].

Lemma encode_keeps_matched f t c d m : matched f c d ->
  matched f (fst (encode_one (C := ciphers) true t c m)) d.
Proof.
  intros M. keep_rest M.
  destruct t; cbn [encode_one aesEncode privateKeyEncrypt zlibCompress real_ciphers]; unfold guarded;
    destruct (in_range m) eqn:Hm; auto.
  - unfold aes_encode. destruct (aes_encode_keeps _ m Oe) as [Oe' Se].
    destruct (AES.Encode new_char (m_objAESEncode c) m) as [e o]. cbn [fst] in *.
    apply (matched_keeps f c d _ _ M); cbn; auto.
  - destruct (rsa_op_keeps _ (fun k => w32 ((QRSA.key_bits QRSA.RSAType_Private k + 7) / 8 - 11)) c m (QRSA.privateKeyEncrypt new_char) private_encrypt_keeps (fun r k l => eq_refl) Rc) as (r & Hr & [->|[-> E]]); [exact M|].
    apply (matched_keeps f c d _ _ M); cbn; auto.
  - pose proof (zlib_encode_keeps _ m Zc Hm) as Zk. destruct (Encrypt.zlibCompress _ _ _) as [b' n]. cbn [fst] in Zk.
    destruct (zlib_op_keeps c (Some (b', n)) b' n) as [->|H]; [exact M|]. destruct (H eq_refl) as [-> _].
    apply (matched_keeps f c d _ _ M); cbn; auto.
Qed.

Lemma decode_keeps_matched f t c d m : matched f c d ->
  matched f c (fst (decode_one (C := ciphers) t d m)).
Proof.
  intros M. keep_rest M.
  destruct t; cbn [decode_one aesDecode publicKeyDecrypt zlibDecompression real_ciphers]; unfold guarded;
    destruct (in_range m) eqn:Hm; auto.
  - unfold aes_decode. destruct (aes_decode_keeps _ m Od) as [Od' Sd].
    destruct (AES.Decode SZ new_char (m_objAESDecode d) m) as [e o]. cbn [fst] in *.
    apply (matched_keeps f c d _ _ M); cbn; auto.
  - destruct (rsa_op_keeps _ (fun k => w32 ((QRSA.key_bits QRSA.RSAType_Public k + 7) / 8)) d m (QRSA.publicKeyDecrypt new_char) public_decrypt_keeps (fun r k l => eq_refl) Rd) as (r & Hr & [->|[-> E]]); [exact M|].
    apply (matched_keeps f c d _ _ M); cbn; auto.
  - pose proof (fun b' r => zlib_decode_keeps inflate_fuel _ m b' r Zd) as Zk.
    destruct (Encrypt.zlibDecompression _ _ _ _) as [[b' n]|]; [|exact M].
    destruct (zlib_op_keeps d (Some (b', n)) b' n) as [->|H]; [exact M|]. destruct (H eq_refl) as [-> Hb].
    apply (matched_keeps f c d _ _ M); cbn; eauto.
Qed.

(** *** What goes in comes out *)

Lemma bytes_of_returned b l : returned b (Z.of_nat (length l)) = Some l ->
  bytes_of b (Lens (Z.of_nat (length l))) = if in_range l then Some l else None.
Proof.
  unfold returned, bytes_of, to_string. destruct (m_pBuffer b) as [p|]; [|discriminate].
  cbn [option_map]. rewrite Nat2Z.id. intros [= E].
  assert (L : (length l <= length p)%nat) by (rewrite <- E, length_firstn; lia).
  rewrite (proj2 (Z.leb_le _ _)) by lia. now rewrite E.
Qed.

Lemma in_range_spec l : in_range l = true -> Z.of_nat (length l) < 2 ^ 31.
Proof. apply Z.ltb_lt. Qed.

Lemma bytes_of_range b o l : bytes_of b o = Some l -> in_range l = true.
Proof.
  unfold bytes_of. destruct (to_string b o); [|discriminate..]. destruct o; [discriminate..|].
  destruct (in_range s) eqn:E; [|discriminate]. now intros [= <-].
Qed.

Lemma aes_out c m c' out : aes_encode new_char c m = (c', Some out) -> in_range out = true.
Proof. unfold aes_encode. destruct (AES.Encode _ _ _). intros [= _ H]. eapply bytes_of_range, H. Qed.

Lemma rsa_out f c m c' out : rsa_op f c m = (c', Some out) -> in_range out = true.
Proof.
  unfold rsa_op. destruct (negb _); [discriminate|]. destruct (f _ _ _) as [[[r k] o]|]; [|discriminate].
  intros [= _ H]. eapply bytes_of_range, H.
Qed.

Lemma zlib_out c r c' out : zlib_op c r = (c', Some out) -> in_range out = true.
Proof.
  unfold zlib_op. destruct r as [[b n]|]; [|discriminate]. destruct (_ <? _); [|discriminate].
  intros [= _ H]. eapply bytes_of_range, H.
Qed.

Lemma Pn_range n : n < 2 ^ 31 -> n < Pn SZ.
Proof. unfold Pn. destruct HSZ as [-> | ->]; cbn; lia. Qed.

Lemma encrypt_bytes rk n p : bytes (rijndaelEncrypt rk n p).
Proof.
  unfold rijndaelEncrypt. cbv zeta. destruct (enc_lines _ _ _ _) as [[[s0 s1] s2] s3]. unfold put_block.
  repeat (apply Forall_app; split). all: apply PUTU32_bytes.
Qed.

Lemma ecb_bytes e d f m : AES.aes_pair e d f -> bytes m -> bytes (concat (AES.ecb f m)).
Proof.
  intros (rk & dk & _ & _ & _ & _ & H) Bm. apply Forall_concat, Forall_map.
  eapply Forall_impl; [|apply (AES.cut_blocks (length m / 16 + 1) (AES.pkcs7 m) (AES.pkcs7_bytes m Bm));
    rewrite AES.length_pkcs7; lia].
  intros b [Bb Lb]. destruct (H b Bb Lb) as (<- & _). apply encrypt_bytes.
Qed.

(** *** How long a result can be *)

Definition grow (t : EncryptType) (n : Z) : Z :=
  match t with AES => n + 16 | RSA => 128 * n | ZLib => 2 * n + 13 end.

(** [enc] turns [m] into bytes that [dec] opens, and that are given when there are not too
    many of them. *)
Definition seals t (enc dec : CEncrypt -> list Z -> CEncrypt * option (list Z)) (c d : CEncrypt) (m : list Z) : Prop :=
  exists c1 out d1, enc c m = (c1, if in_range out then Some out else None) /\
    bytes out /\ out <> [] /\ Z.of_nat (length out) <= grow t (Z.of_nat (length m)) /\
    (in_range out = true -> dec d out = (d1, Some m)).

Lemma aes_seals f c d m : matched f c d -> bytes m -> in_range m = true ->
  seals AES (aes_encode new_char) (aes_decode SZ new_char) c d m.
Proof.
  intros M Bm Hm.
  destruct (AES.aes_pair_roundtrip SZ new_char HL HN _ _ f m (mt_aes _ _ _ M) Bm (Pn_range _ (in_range_spec _ Hm)))
    as (e2 & d2 & E2 & R2 & Lc & D2 & Rt & _).
  unfold seals, aes_encode, aes_decode, AES.result in *. rewrite E2.
  exists (set_aes c e2 (m_objAESDecode c)), (concat (AES.ecb f m)), (set_aes d (m_objAESEncode d) d2). splits.
  - rewrite <- Lc in *. now rewrite (bytes_of_returned _ _ R2).
  - exact (ecb_bytes _ _ f m (mt_aes _ _ _ M) Bm).
  - intros E0. rewrite E0, AES.length_pkcs7 in Lc. cbn in Lc. lia.
  - rewrite Lc, AES.length_pkcs7_Z. cbn [grow]. pose proof (Z.mul_div_le (Z.of_nat (length m)) 16). lia.
  - now rewrite D2, (bytes_of_returned _ _ Rt), Hm.
Qed.

(** The pieces of a message are not empty. *)
Lemma sound_nonempty call iStep I R : 0 < iStep -> QRSA.call_sound call iStep I R ->
  QRSA.call_sound call iStep I (fun c b => R c b /\ c <> []).
Proof.
  intros Hi H key out t p n out' key' HI Bp Hp E. destruct (H _ _ _ _ _ _ _ HI Bp Hp E) as (HI' & L & HR).
  splits; auto. destruct (QRSA.piece_len_spec iStep p Hi Hp) as (Hn & _).
  intros E0. apply (f_equal (@length Z)) in E0. rewrite length_firstn in E0. cbn in E0. lia.
Qed.

Lemma sealed_blocks call k L cs bs : (0 < L <= 128)%nat ->
  Forall2 (fun c b => QRSA.opens call k L c b /\ c <> []) cs bs ->
  Forall2 (QRSA.opens call k L) cs bs /\ bytes (concat bs) /\
  (length (concat bs) <= 128 * length (concat cs))%nat /\ (concat bs = [] -> concat cs = []).
Proof.
  intros HL0 F. induction F as [|c b cs bs [Ho Hc] _ (IH1 & IH2 & IH3 & _)]; [splits; auto|].
  pose proof Ho as (Lb & Bb & _). splits.
  - constructor; assumption.
  - apply Forall_app. auto.
  - cbn [concat]. rewrite !length_app. destruct c; [congruence|]. cbn [length]. lia.
  - cbn [concat]. intros E0. apply (f_equal (@length Z)) in E0. rewrite length_app in E0. cbn in E0. lia.
Qed.

Lemma rsa_seals f c d m : matched f c d -> bytes m -> m <> [] -> in_range m = true ->
  seals RSA (rsa_op (QRSA.privateKeyEncrypt new_char)) (rsa_op (QRSA.publicKeyDecrypt new_char)) c d m.
Proof.
  intros M Bm Hne Hm. destruct (mt_keys _ _ _ M) as [K H12]. destruct (mt_rsa _ _ _ M) as [Rc Rd].
  destruct (mt_set _ _ _ M) as [Sc Sd]. unfold seals, rsa_op. rewrite Sc, Sd. cbn [negb].
  destruct (QRSA.steps _ _ K H12) as (_ & E1 & E2 & _). pose proof (proj2 (pair_L _ _ K)) as L128.
  destruct (QRSA.private_sound _ _ K H12 (m_objRSAKey d) eq_refl) as [HS HT].
  unfold QRSA.privateKeyEncrypt, QRSA.publicKeyDecrypt, QRSA.RSAEncrypt, QRSA.RSADecrypt. cbn [QRSA.key_bits].
  rewrite E1, E2. set (L := modulusLen _) in *.
  destruct (QRSA.run_blocks_total new_char HL HN _ (Z.of_nat L - 11) ltac:(lia) _ _ (m_objRSA c) (m_objRSAKey c) m HS HT Rc eq_refl Bm)
    as (s' & ks' & n & E).
  apply sound_nonempty in HS; [|lia].
  destruct (QRSA.run_blocks_sound new_char HL HN _ (Z.of_nat L - 11) ltac:(lia) _ _ _ _ m s' ks' n HS Rc eq_refl Bm E)
    as (_ & _ & cs & bs & F & C & -> & R).
  destruct (sealed_blocks _ _ L cs bs ltac:(lia) F) as (F' & Bb & Lb & Nb).
  destruct (QRSA.open_blocks new_char HL HN _ (m_objRSAKey d) L cs bs (m_objRSA d) ltac:(lia) F' (QRSA.ok_buffer _ Rd) (QRSA.ok_block _ Rd))
    as (t' & D & Rt). rewrite C in *.
  exists (set_rsa c ks' s' true), (concat bs), (set_rsa d (m_objRSAKey d) t' true). splits; auto.
  - now rewrite E, (bytes_of_returned _ _ R).
  - cbn [grow]. lia.
  - now rewrite D, (bytes_of_returned _ _ Rt), Hm.
Qed.

Lemma inflate_fuel_range m : in_range m = true -> (length m < inflate_fuel)%nat.
Proof.
  intros H%in_range_spec. unfold inflate_fuel. apply Nat2Z.inj_lt. rewrite Z2Nat.id by (apply Z.pow_nonneg; lia). exact H.
Qed.

Lemma zlib_seals f c d m : matched f c d -> bytes m -> in_range m = true ->
  seals ZLib (fun c l => zlib_op c (Some (Encrypt.zlibCompress new_char (Encrypt.m_objBuffer c) l)))
    (fun c l => zlib_op c (Encrypt.zlibDecompression new_char inflate_fuel (Encrypt.m_objBuffer c) l)) c d m.
Proof.
  intros M Bm Hm. destruct (mt_zlib _ _ _ M) as [Zc Zd]. pose proof (in_range_spec _ Hm) as Lm.
  destruct (zlibCompress_spec new_char HL HN _ m Zc Lm) as (b' & o & E & Zb' & R & Ec).
  destruct (compress_fits _ _ _ Ec) as (Ne & Lo & Bo).
  pose proof (compressBound_range (Z.of_nat (length m)) ltac:(lia)) as Hr.
  pose proof (compressBound_linear (Z.of_nat (length m)) ltac:(lia)) as Hl.
  destruct (zlibDecompression_spec new_char HL HN _ m o _ inflate_fuel Ec ltac:(lia) Zd Lm (inflate_fuel_range _ Hm)) as (d' & D & Zd' & Rt).
  exists (Encrypt.set_buffer c b'), o, (Encrypt.set_buffer d d'). unfold zlib_op. rewrite E, D.
  rewrite !(proj2 (Z.ltb_lt _ _)) by (apply Zb' || apply Zd'). cbn [zlib_outcome].
  rewrite (bytes_of_returned _ _ R), (bytes_of_returned _ _ Rt), Hm. splits; auto. cbn [grow]. lia.
Qed.

Lemma step_seals f t c d m : matched f c d -> bytes m -> m <> [] -> in_range m = true ->
  seals t (encode_one (C := ciphers) true t) (decode_one (C := ciphers) t) c d m.
Proof.
  intros M Bm Hne Hm.
  assert (G : forall enc dec, seals t enc dec c d m -> seals t (guarded enc) (guarded dec) c d m).
  { intros enc dec (c1 & out & d1 & E & Bo & No & Lo & D). exists c1, out, d1. unfold guarded. rewrite Hm.
    splits; auto. intros Ho. rewrite Ho. auto. }
  destruct t; apply G; [exact (aes_seals f c d m M Bm Hm)|exact (rsa_seals f c d m M Bm Hne Hm)|exact (zlib_seals f c d m M Bm Hm)].
Qed.

Lemma encode_in_range t c m c' out : encode_one (C := ciphers) true t c m = (c', Some out) -> in_range m = true.
Proof.
  destruct t; cbn [encode_one aesEncode privateKeyEncrypt zlibCompress real_ciphers]; unfold guarded;
    (destruct (in_range m); [reflexivity|now intros [=]]).
Qed.

#[export] Instance real_laws f : CipherLaws (C := ciphers) (matched f).
Proof.
  constructor.
  - intros t c d m c' r M E. replace c' with (fst (encode_one (C := ciphers) true t c m)) by now rewrite E.
    now apply encode_keeps_matched.
  - intros t c d m d' r M E. replace d' with (fst (decode_one (C := ciphers) t d m)) by now rewrite E.
    now apply decode_keeps_matched.
  - intros t c d m c' out M Bm Hne E.
    destruct (step_seals f t c d m M Bm Hne (encode_in_range _ _ _ _ _ E)) as (c1 & o & d1 & E1 & Bo & No & _ & D).
    rewrite E in E1. destruct (in_range o) eqn:Ho; [|now injection E1]. injection E1 as <- <-. eauto.
Qed.

(** *** A chain that is short enough succeeds *)

Definition chain_bound (types : list EncryptType) (n : Z) : Z := fold_left (fun n t => grow t n) types n.

Lemma grow_le t a b : 0 <= a <= b -> a <= grow t a <= grow t b.
Proof. destruct t; cbn [grow]; lia. Qed.

Lemma chain_bound_le types : forall a b, 0 <= a <= b -> a <= chain_bound types a <= chain_bound types b.
Proof.
  induction types as [|t r IH]; intros a b H; cbn; [lia|]. pose proof (grow_le t a b H) as G.
  pose proof (IH (grow t a) (grow t b) ltac:(lia)) as H'. unfold chain_bound in H'. split; [|apply H'].
  etransitivity; [apply G|apply H'].
Qed.

Lemma compose_total f types : forall c d m, matched f c d -> bytes m -> m <> [] ->
  chain_bound types (Z.of_nat (length m)) < 2 ^ 31 ->
  exists c' out, compose (encode_one (C := ciphers) true) types m c = (c', Some out).
Proof.
  induction types as [|t r IH]; intros c d m M Bm Hne Hc; [cbn; eauto|]. cbn [compose chain_bound fold_left] in *.
  pose proof (grow_le t (Z.of_nat (length m)) (Z.of_nat (length m)) ltac:(lia)) as [G _].
  pose proof (chain_bound_le r (grow t (Z.of_nat (length m))) (grow t (Z.of_nat (length m))) ltac:(lia)) as [G' _].
  unfold chain_bound in G'.
  assert (Hm : in_range m = true) by (apply Z.ltb_lt; lia).
  destruct (step_seals f t c d m M Bm Hne Hm) as (c1 & o & d1 & E1 & Bo & No & Lo & D). rewrite E1.
  unfold in_range. rewrite (proj2 (Z.ltb_lt _ _)) by lia.
  apply (IH c1 d o); auto.
  - replace c1 with (fst (encode_one (C := ciphers) true t c m)) by now rewrite E1. now apply encode_keeps_matched.
  - pose proof (chain_bound_le r (Z.of_nat (length o)) (grow t (Z.of_nat (length m))) ltac:(lia)). unfold chain_bound in *. lia.
Qed.
End Laws.

(** ** A session between two servers *)

Section Exchange.
Context {S : Type} {C : Ciphers S} (new_char : Z -> option (list Z)).

(** The messages one end sends, as the other end receives them; each end keeps its state. *)
Fixpoint exchange (s t : CCommEncrypt) (c d : S) (msgs : list (list Z)) : list (option (list Z)) :=
  match msgs with
  | [] => []
  | m :: r =>
      let '(s', c', out) := CommEncrypt.Encode new_char s c (Some m) true in
      let '(t', d', received) := CommEncrypt.Decode new_char t d out true in
      received :: exchange s' t' c' d' r
  end.
End Exchange.

Section Session.
Context {St : Type} {ZL : Zlib St} {LZ : ZlibLaws ZL} (SZ : nat) (new_char : Z -> option (list Z)).
Context (HSZ : (SZ = 4 \/ SZ = 8)%nat).
Context (HL : forall n p, new_char n = Some p -> length p = Z.to_nat n) (HN : forall n, new_char n <> None).

Lemma exchange_all f msgs : forall s t c d,
  well_formed (m_objBuffer s) -> well_formed (m_objBuffer t) ->
  m_vcClinetType s <> [] -> m_vcClinetType t <> [] ->
  m_vcSVLinkType s <> [] -> m_vcSVLinkType t = m_vcSVLinkType s -> matched f c d ->
  Forall (fun m => bytes m /\ m <> [] /\ chain_bound (m_vcSVLinkType s) (Z.of_nat (length m)) < 2 ^ 31) msgs ->
  exchange (C := real_ciphers SZ new_char) new_char s t c d msgs = map Some msgs.
Proof.
  induction msgs as [|m r IH]; intros s t c d Hs Ht Cs Ct Vs Vt M F; [reflexivity|].
  apply Forall_cons_iff in F as [(Bm & Hne & Hb) F].
  destruct (compose_total SZ new_char HSZ HL HN f _ c d m M Bm Hne Hb) as (c' & out & H).
  pose proof (real_laws SZ new_char HSZ HL HN f) as LR.
  destruct (link_step (C := real_ciphers SZ new_char) new_char HL HN (matched f) s t c d c' out m Hs Ht Cs Ct Vs Vt M Bm Hne H)
    as (s' & t' & d' & E & D & M' & Ws & Wt & Cs' & Vs' & Ct' & Vt').
  cbn [exchange map]. rewrite E, D. f_equal. apply IH; congruence || auto. now rewrite Vs'.
Qed.
End Session.

(** An object as its constructor and the key files leave it. *)
Record ready (c : CEncrypt) : Prop := {
  rd_encode : AES.coder_ok (m_objAESEncode c);
  rd_decode : AES.coder_ok (m_objAESDecode c);
  rd_set : m_bKeySet c = true;
  rd_rsa : QRSA.crsa_ok (m_objRSA c);
  rd_zlib : zbuffer (Encrypt.m_objBuffer c)
}.

Lemma setKey_succeeds new_uchar new_ulong setup e psz bits Nk : key_size bits Nk ->
  (forall n, new_uchar n <> None) -> (forall n, new_ulong n <> None) ->
  AES.setKey new_uchar new_ulong setup e psz bits = (fst (AES.setKey new_uchar new_ulong setup e psz bits), Q_RTN_OK).
Proof.
  intros HK NU NL. unfold AES.setKey.
  assert (Eb : (bits =? AESKEY_NONE) = false) by (apply Z.eqb_neq; unfold AESKEY_NONE; destruct HK as [[-> _]|[[-> _]|[-> _]]]; lia).
  rewrite Eb. destruct (new_ulong _) eqn:E1; [|destruct (NL _ E1)]. destruct (new_uchar _) eqn:E2; [|destruct (NU _ E2)].
  destruct (setup _ _). reflexivity.
Qed.

(** [setAESKey] with the same string at both ends, over objects with the two halves of a
    pair of RSA keys. *)
Lemma keys_match new_uchar new_ulong (HU : forall n p, new_uchar n = Some p -> length p = Z.to_nat n)
  (c d : CEncrypt) psz bits Nk : key_size bits Nk -> bytes psz ->
  (forall n, new_uchar n <> None) -> (forall n, new_ulong n <> None) -> ready c -> ready d ->
  key_pair (QRSA.m_stPublicKey (m_objRSAKey d)) (QRSA.m_stPrivateKey (m_objRSAKey c)) ->
  (12 <= modulusLen (pub_bits (QRSA.m_stPublicKey (m_objRSAKey d))))%nat ->
  exists f, matched f (setAESKey new_uchar new_ulong c psz bits) (setAESKey new_uchar new_ulong d psz bits).
Proof.
  intros HK Bp NU NL [Ce _ Sc Rc Zc] [_ Dd Sd Rd Zd] K H12. eexists. unfold setAESKey. constructor; cbn; auto.
  apply (AES.aes_pair_keys new_uchar new_ulong HU (m_objAESEncode c) _ (m_objAESDecode d) _ psz bits Nk HK Bp Ce Dd);
    apply setKey_succeeds with (1 := HK); assumption.
Qed.

(** Claim C6: two servers with the real transformations understand each other.  After
    [setAESKey] with the same key string at both ends, with the sender's RSA private key
    and the receiver's public key of one pair, and the same non-empty list of
    transformations between servers at both ends, every message of a session, one after
    the other through the same objects, arrives as it was sent: each [Encode] succeeds
    and the peer's [Decode] of its bytes is the message.  It holds for every chain of AES,
    RSA and zlib and every message that the chain cannot grow to 2 GB ([chain_bound]). *)
Theorem servers_understand {St} {ZL : Zlib St} {LZ : ZlibLaws ZL} SZ (HSZ : (SZ = 4 \/ SZ = 8)%nat)
  new_char new_uchar new_ulong
  (HL : forall n p, new_char n = Some p -> length p = Z.to_nat n) (HN : forall n, new_char n <> None)
  (HU : forall n p, new_uchar n = Some p -> length p = Z.to_nat n)
  (NU : forall n, new_uchar n <> None) (NL : forall n, new_ulong n <> None)
  (s t : CCommEncrypt) (c d : CEncrypt) psz bits Nk msgs :
  key_size bits Nk -> bytes psz -> ready c -> ready d ->
  key_pair (QRSA.m_stPublicKey (m_objRSAKey d)) (QRSA.m_stPrivateKey (m_objRSAKey c)) ->
  (12 <= modulusLen (pub_bits (QRSA.m_stPublicKey (m_objRSAKey d))))%nat ->
  well_formed (m_objBuffer s) -> well_formed (m_objBuffer t) ->
  m_vcClinetType s <> [] -> m_vcClinetType t <> [] ->
  m_vcSVLinkType s <> [] -> m_vcSVLinkType t = m_vcSVLinkType s ->
  Forall (fun m => bytes m /\ m <> [] /\ chain_bound (m_vcSVLinkType s) (Z.of_nat (length m)) < 2 ^ 31) msgs ->
  exchange (C := real_ciphers SZ new_char) new_char s t
    (setAESKey new_uchar new_ulong c psz bits) (setAESKey new_uchar new_ulong d psz bits) msgs = map Some msgs.
Proof.
  intros HK Bp Rc Rd K H12 Ws Wt Cs Ct Vs Vt F.
  destruct (keys_match new_uchar new_ulong HU c d psz bits Nk HK Bp NU NL Rc Rd K H12) as (f & M).
  exact (exchange_all SZ new_char HSZ HL HN f msgs s t _ _ Ws Wt Cs Ct Vs Vt M F).
Qed.

(** A server with the test keys, and the chain of all three transformations. *)
Definition test_server : CEncrypt := set_rsa (CEncrypt_new fresh_block) QRSA.test_key (QRSA.CRSA_new fresh_block) true.

Lemma test_server_ready : ready test_server.
Proof.
  constructor; cbn [test_server set_rsa m_objAESEncode m_objAESDecode m_bKeySet m_objRSA Encrypt.m_objBuffer CEncrypt_new].
  - apply AES.AESCoder_new_ok; [exact fresh_block_length|apply fresh_block_total].
  - apply AES.AESCoder_new_ok; [exact fresh_block_length|apply fresh_block_total].
  - reflexivity.
  - apply QRSA.CRSA_new_ok; [exact fresh_block_length|exact fresh_block_total].
  - constructor; [reflexivity|vm_compute; auto|]. exists (repeat 170 (Z.to_nat (5 * 1024))). split; [reflexivity|].
    rewrite repeat_length, Z2Nat.id by lia. reflexivity.
Qed.

Lemma servers_understand_witness :
  let link := comm_of [AES] [ZLib; RSA; AES] in
  let server := setAESKey fresh_block fresh_block test_server [115; 101; 99; 114; 101; 116; 0] 128 in
  exchange (C := real_ciphers 8 fresh_block) fresh_block link link server server [[1; 2; 3]; [4]; repeat 7 100] =
  [Some [1; 2; 3]; Some [4]; Some (repeat 7 100)].
Proof.
  apply (servers_understand 8 (or_intror eq_refl) fresh_block fresh_block fresh_block fresh_block_length fresh_block_total
    fresh_block_length fresh_block_total fresh_block_total (comm_of [AES] [ZLib; RSA; AES]) (comm_of [AES] [ZLib; RSA; AES])
    test_server test_server [115; 101; 99; 114; 101; 116; 0] 128 4 [[1; 2; 3]; [4]; repeat 7 100]).
  - left. auto.
  - apply bytes_check. reflexivity.
  - exact test_server_ready.
  - exact test_server_ready.
  - exact TestKey.pair.
  - apply Nat.leb_le. reflexivity.
  - split; [apply Z.le_refl | split; reflexivity].
  - split; [apply Z.le_refl | split; reflexivity].
  - discriminate.
  - discriminate.
  - discriminate.
  - reflexivity.
  - repeat (apply Forall_cons; [split; [check_bytes|split; [discriminate|reflexivity]]|]). apply Forall_nil.
Defined.
