(* ===== verification/QString.v ===== *)
(** * QString: string helpers (QBase/QString.cpp)

    A [std::string] is the list of its bytes.  The loops that search and cut are given
    fuel; [None] is a loop that is still running when the fuel is used up, and the
    theorems say when it stops and when it never does. *)

From S2P Require Import Prelude.

(** ** Searching *)

(** [std::string::find(w, 0)] and [find(w, pos)]; [None] is [npos]. *)
Definition str_find (s w : list Z) : option nat :=
  let i := find s w 0 in if i =? -1 then None else Some (Z.to_nat i).

Definition str_find_from (s w : list Z) (pos : nat) : option nat :=
  option_map (Nat.add pos) (str_find (skipn pos s) w).

(** [find_first_of] and [find_last_of] of a set of characters. *)
Fixpoint find_first_of (s set : list Z) : option nat :=
  match s with
  | [] => None
  | c :: r => if existsb (Z.eqb c) set then Some O else option_map S (find_first_of r set)
  end.

Definition find_last_of (s set : list Z) : option nat :=
  option_map (fun i => length s - 1 - i)%nat (find_first_of (rev s) set).

(** ** Case and order *)

Definition upper (c : Z) : Z := if (97 <=? c) && (c <=? 122) then c - (97 - 65) else c.
Definition lower (c : Z) : Z := if (65 <=? c) && (c <=? 90) then c + (97 - 65) else c.

Definition Q_Convert2Upper (strWord : list Z) : list Z := map upper strWord.
Definition Q_Convert2Lower (strWord : list Z) : list Z := map lower strWord.

(** [Q_Strcasecmp], the C library's comparison, against zero. *)
Definition strcaseeq (a b : list Z) : bool :=
  if list_eq_dec Z.eq_dec (Q_Convert2Lower a) (Q_Convert2Lower b) then true else false.

(** The exchange by addition and subtraction, in the arithmetic of [char]. *)
Fixpoint reverse_loop (fuel : nat) (s : list Z) (iBg iEnd : nat) : list Z :=
  match fuel with
  | O => s
  | S f =>
      if (iBg <? iEnd)%nat then
        let s := upd s iBg (w8 (nth iBg s 0 + nth iEnd s 0)) in
        let s := upd s iEnd (w8 (nth iBg s 0 - nth iEnd s 0)) in
        let s := upd s iBg (w8 (nth iBg s 0 - nth iEnd s 0)) in
        reverse_loop f s (iBg + 1) (iEnd - 1)
      else s
  end.

Definition Q_ReverseStr (strWord : list Z) (iBg iEnd : nat) : list Z :=
  if (length strWord <=? 1)%nat then strWord
  else
    let iLens := length strWord in
    let iBgTmp := if (iLens <=? iBg)%nat then (iLens - 1)%nat else iBg in
    let iEndTmp := if (iLens <=? iEnd)%nat then (iLens - 1)%nat else iEnd in
    if (iEndTmp <=? iBgTmp)%nat then strWord
    else reverse_loop iLens strWord iBgTmp iEndTmp.

Definition Q_MoveN2Before (strWord : list Z) (n : nat) : list Z :=
  let iLens := length strWord in
  if ((iLens <=? n) || (n =? 0) || (iLens =? 0))%nat then strWord
  else
    let s := Q_ReverseStr strWord 0 (iLens - n - 1) in
    let s := Q_ReverseStr s (iLens - n) (iLens - 1) in
    Q_ReverseStr s 0 (iLens - 1).

(** ** Trimming *)

Definition blank (c : Z) : bool := (32 =? c) || (10 =? c) || (13 =? c).

Definition Q_TrimAll (strSource : list Z) : list Z :=
  filter (fun c => negb (blank c || (9 =? c))) strSource.

Fixpoint Q_TrimLeft (strSource : list Z) : list Z :=
  match strSource with
  | [] => []
  | c :: r => if blank c then Q_TrimLeft r else strSource
  end.

(** The loop from the end: [iFlag], the number of blanks it passes. *)
Fixpoint leading_blanks (l : list Z) : nat :=
  match l with [] => O | c :: r => if blank c then S (leading_blanks r) else O end.

Definition Q_TrimRight (strSource : list Z) : list Z :=
  let iFlag := leading_blanks (rev strSource) in
  if (iFlag =? 0)%nat then strSource
  else if (length strSource =? iFlag)%nat then []
  else firstn (length strSource - iFlag) strSource.

Definition Q_Trim (strSource : list Z) : list Z := Q_TrimLeft (Q_TrimRight strSource).

(** ** Cutting and replacing *)

Fixpoint split_loop (fuel : nat) (strTmp pszFlag : list Z) : option (list (list Z)) :=
  match fuel with
  | O => None
  | S f =>
      match str_find strTmp pszFlag with
      | None => Some [strTmp]
      | Some loc => option_map (cons (firstn loc strTmp))
                      (split_loop f (skipn (loc + length pszFlag) strTmp) pszFlag)
      end
  end.

Definition Q_Split (strSource : list Z) (pszFlag : option (list Z)) : option (list (list Z)) :=
  match pszFlag, strSource with
  | None, _ | Some [], _ | _, [] => Some []
  | Some flag, _ => split_loop (S (length strSource)) strSource flag
  end.

Definition Q_GetFrontOfFlag (strSource pszFlag : list Z) : list Z :=
  match find_first_of strSource pszFlag with None => strSource | Some i => firstn i strSource end.

(** [substr] throws when the position is beyond the end. *)
Definition Q_GetLastOfFlag (strSource pszFlag : list Z) : option (list Z) :=
  match find_last_of strSource pszFlag with
  | None => Some strSource
  | Some i => if (length strSource <? i + length pszFlag)%nat then None
              else Some (skipn (i + length pszFlag) strSource)
  end.

Definition replace (s : list Z) (pos n : nat) (re : list Z) : list Z :=
  firstn pos s ++ re ++ skipn (pos + n) s.

Fixpoint replace_loop (fuel : nat) (s pszFlag pszReFlag : list Z) (pos : nat) : option (list Z) :=
  match fuel with
  | O => None
  | S f =>
      match str_find_from s pszFlag pos with
      | None => Some s
      | Some p => replace_loop f (replace s p (length pszFlag) pszReFlag) pszFlag pszReFlag
                    (p + length pszReFlag)
      end
  end.

Definition Q_Replace (fuel : nat) (s pszFlag pszReFlag : list Z) : option (list Z) :=
  replace_loop fuel s pszFlag pszReFlag 0.

Fixpoint Q_Replace_Depth (fuel : nat) (s pszFlag pszReFlag : list Z) : option (list Z) :=
  match fuel with
  | O => None
  | S f =>
      match str_find s pszFlag with
      | None => Some s
      | Some p => Q_Replace_Depth f (replace s p (length pszFlag) pszReFlag) pszFlag pszReFlag
      end
  end.

(** ** Facts about searching *)

Lemma str_find_spec s w :
  match str_find s w with
  | Some i => sub_at s w i /\ (i + length w <= length s)%nat /\ forall j, (j < i)%nat -> ~ sub_at s w j
  | None => w <> [] -> forall j, ~ sub_at s w j
  end.
Proof.
  unfold str_find. destruct (Z.eqb_spec (find s w 0) (-1)) as [E|E].
  - intros Hw j. exact (find_missing s w 0 j ltac:(lia) E Hw).
  - destruct (find_found s w 0 _ ltac:(lia) eq_refl E) as (_ & H1 & H2 & H3).
    rewrite Z.sub_0_r in *. auto.
Qed.

Lemma sub_at_app a w r i : i = length a -> sub_at (a ++ w ++ r) w i.
Proof.
  intros ->. unfold sub_at. rewrite skipn_app, skipn_all, Nat.sub_diag, skipn_O. cbn [app].
  rewrite firstn_app, firstn_all, Nat.sub_diag. apply app_nil_r.
Qed.

Lemma sub_at_split s w i : sub_at s w i -> (i + length w <= length s)%nat ->
  s = firstn i s ++ w ++ skipn (i + length w) s.
Proof.
  unfold sub_at. intros H Hl. rewrite <- (firstn_skipn i s) at 1. f_equal.
  rewrite <- (firstn_skipn (length w) (skipn i s)) at 1. rewrite H, skipn_skipn.
  rewrite (Nat.add_comm (length w)). reflexivity.
Qed.

(** A search reads the list only up to the end of the first match. *)
Lemma sub_at_firstn s w n j : (j + length w <= n)%nat -> sub_at (firstn n s) w j <-> sub_at s w j.
Proof.
  unfold sub_at. intros H. rewrite skipn_firstn_comm, firstn_firstn.
  replace (Nat.min (length w) (n - j)) with (length w) by lia. reflexivity.
Qed.

Lemma sub_at_length s w j : sub_at s w j -> w <> [] -> (j + length w <= length s)%nat.
Proof.
  unfold sub_at. intros H Hw. apply (f_equal (@length Z)) in H.
  rewrite length_firstn, length_skipn in H. destruct w; [congruence|]. cbn [length] in *. lia.
Qed.

(** ** Pieces *)

Fixpoint join (sep : list Z) (l : list (list Z)) : list Z :=
  match l with
  | [] => []
  | [a] => a
  | a :: r => a ++ sep ++ join sep r
  end.

Lemma join_cons sep a r : r <> [] -> join sep (a :: r) = a ++ sep ++ join sep r.
Proof. destruct r; [congruence | reflexivity]. Qed.

Lemma split_loop_spec flag : flag <> [] -> forall fuel s, (length s < fuel)%nat ->
  exists l, split_loop fuel s flag = Some l /\ l <> [] /\ join flag l = s /\
            Forall (fun p => forall j, ~ sub_at p flag j) l.
Proof.
  intros Hf. induction fuel as [|f IH]; intros s Hs; [lia|]. cbn [split_loop].
  pose proof (str_find_spec s flag) as HF. destruct (str_find s flag) as [loc|].
  - destruct HF as (H1 & H2 & H3). assert (0 < length flag)%nat by (destruct flag; [congruence | cbn; lia]).
    destruct (IH (skipn (loc + length flag) s)) as (l & -> & Hl & Hj & Hn); [rewrite length_skipn; lia|].
    exists (firstn loc s :: l). splits; [reflexivity | discriminate | |].
    + rewrite join_cons by exact Hl. rewrite Hj. symmetry. apply sub_at_split; assumption.
    + constructor; [|exact Hn]. intros j Hj'.
      pose proof (sub_at_length _ _ _ Hj' Hf) as Hl'. rewrite length_firstn in Hl'.
      apply sub_at_firstn in Hj'; [|lia]. exact (H3 j ltac:(lia) Hj').
  - exists [s]. splits; [reflexivity | discriminate | reflexivity|]. repeat constructor. intros j. apply HF, Hf.
Qed.

(** The first match in [a ++ (c :: w) ++ r] when [c] is not in [a]. *)
Lemma str_find_first a c w r : ~ In c a -> str_find (a ++ (c :: w) ++ r) (c :: w) = Some (length a).
Proof.
  intros Ha. pose proof (str_find_spec (a ++ (c :: w) ++ r) (c :: w)) as H.
  pose proof (sub_at_app a (c :: w) r (length a) eq_refl) as Hs.
  destruct (str_find _ _) as [i|]; [|exfalso; exact (H ltac:(discriminate) _ Hs)].
  destruct H as (H1 & H2 & H3). f_equal.
  destruct (Nat.lt_trichotomy i (length a)) as [Hi | [Hi | Hi]]; [|exact Hi | exfalso; exact (H3 _ Hi Hs)].
  exfalso. apply Ha. unfold sub_at in H1. apply (f_equal (@hd Z 0)) in H1. cbn [hd length] in H1.
  rewrite skipn_app in H1. destruct (skipn i a) as [|x a'] eqn:E.
  { apply (f_equal (@length Z)) in E. rewrite length_skipn in E. cbn in E. lia. }
  cbn [app firstn hd] in H1. subst. rewrite <- (firstn_skipn i a), E. apply in_or_app. right. left. reflexivity.
Qed.

Lemma str_find_absent a c w : ~ In c a -> str_find a (c :: w) = None.
Proof.
  intros Ha. pose proof (str_find_spec a (c :: w)) as H. destruct (str_find a (c :: w)) as [i|]; [|reflexivity].
  destruct H as (H1 & H2 & _). exfalso. apply Ha. rewrite (sub_at_split _ _ _ H1 H2).
  apply in_or_app. right. left. reflexivity.
Qed.

Lemma split_loop_join c w : forall l fuel, l <> [] -> Forall (fun p => ~ In c p) l ->
  (length l <= fuel)%nat -> split_loop fuel (join (c :: w) l) (c :: w) = Some l.
Proof.
  induction l as [|a l IH]; intros fuel Hl Hc Hf; [congruence|]. inversion Hc as [|? ? Ha Hc']; subst.
  destruct fuel as [|f]; [cbn in Hf; lia|]. cbn [split_loop]. destruct l as [|b l].
  - cbn [join]. rewrite str_find_absent by exact Ha. reflexivity.
  - rewrite join_cons by discriminate. rewrite str_find_first by exact Ha.
    rewrite firstn_app_len, app_assoc, <- length_app, skipn_app_len.
    rewrite IH by (try discriminate; auto; cbn in *; lia). reflexivity.
Qed.

Lemma length_join c w l : (length l <= S (length (join (c :: w) l)))%nat.
Proof.
  induction l as [|a l IH]; [cbn; lia|]. destruct l as [|b l]; [cbn; lia|].
  rewrite join_cons by discriminate. rewrite !length_app. cbn [length] in *. lia.
Qed.

Lemma Q_Split_join c w l : Forall (fun p => ~ In c p) l -> join (c :: w) l <> [] ->
  Q_Split (join (c :: w) l) (Some (c :: w)) = Some l.
Proof.
  intros Hc Hn. assert (Hl : l <> []) by (intros ->; cbn in Hn; congruence).
  unfold Q_Split. destruct (join (c :: w) l) as [|x s] eqn:E; [congruence|]. rewrite <- E.
  apply split_loop_join; auto. apply length_join.
Qed.

(** ** Trimming *)

Lemma leading_blanks_spec l : forallb blank (firstn (leading_blanks l) l) = true /\
  (leading_blanks l <= length l)%nat /\ forall c r, skipn (leading_blanks l) l = c :: r -> blank c = false.
Proof.
  induction l as [|x l IH]; cbn [leading_blanks]; [cbn; splits; auto; discriminate|].
  destruct (blank x) eqn:E.
  - destruct IH as (H1 & H2 & H3). cbn [firstn forallb skipn length]. rewrite E. splits; [exact H1 | lia | exact H3].
  - cbn. splits; [reflexivity | lia |]. intros c r H. injection H as <- <-. exact E.
Qed.

Lemma Q_TrimLeft_skipn s : Q_TrimLeft s = skipn (leading_blanks s) s.
Proof. induction s as [|c r IH]; cbn; [reflexivity|]. destruct (blank c); [exact IH | reflexivity]. Qed.

Lemma Q_TrimRight_rev s : Q_TrimRight s = rev (Q_TrimLeft (rev s)).
Proof.
  rewrite Q_TrimLeft_skipn. unfold Q_TrimRight.
  pose proof (leading_blanks_spec (rev s)) as (_ & H & _). set (k := leading_blanks (rev s)) in *.
  rewrite length_rev in H.
  assert (E : rev (skipn k (rev s)) = firstn (length s - k) s)
    by (rewrite skipn_rev, rev_involutive; reflexivity).
  destruct (Nat.eqb_spec k 0) as [->|]; [rewrite skipn_O, rev_involutive; reflexivity|].
  destruct (Nat.eqb_spec (length s) k) as [<-|]; [|symmetry; exact E].
  rewrite E, Nat.sub_diag. reflexivity.
Qed.

(** A string without blanks at its ends is not changed. *)
Lemma Q_TrimLeft_id c r : blank c = false -> Q_TrimLeft (c :: r) = c :: r.
Proof. intros H. cbn. rewrite H. reflexivity. Qed.

Lemma Q_TrimLeft_app b s : forallb blank b = true -> Q_TrimLeft (b ++ s) = Q_TrimLeft s.
Proof.
  induction b as [|c b IH]; cbn [app forallb Q_TrimLeft]; [reflexivity|]. intros H.
  apply andb_true_iff in H as [-> H]. apply IH, H.
Qed.

Lemma forallb_rev {A} (f : A -> bool) l : forallb f (rev l) = forallb f l.
Proof.
  induction l as [|x l IH]; cbn; [reflexivity|]. rewrite forallb_app, IH. cbn. rewrite andb_true_r. apply andb_comm.
Qed.

(** The ends of a string. *)
Definition trimmed (s : list Z) : Prop :=
  (forall c r, s = c :: r -> blank c = false) /\ (forall c r, s = r ++ [c] -> blank c = false).

Lemma Q_TrimLeft_trimmed s : (forall c r, s = c :: r -> blank c = false) -> Q_TrimLeft s = s.
Proof. destruct s as [|c r]; [reflexivity|]. intros H. apply Q_TrimLeft_id, (H c r eq_refl). Qed.

Lemma Q_Trim_spec a s b : forallb blank a = true -> forallb blank b = true -> trimmed s ->
  Q_Trim (a ++ s ++ b) = s.
Proof.
  intros Ha Hb (H1 & H2). unfold Q_Trim. rewrite Q_TrimRight_rev, !rev_app_distr.
  assert (Hr : Q_TrimLeft (rev s ++ rev a) = match s with [] => [] | _ => rev s ++ rev a end).
  { destruct s as [|x s] using rev_ind.
    - cbn [rev app]. rewrite <- (app_nil_r (rev a)), Q_TrimLeft_app by (rewrite forallb_rev; exact Ha). reflexivity.
    - rewrite rev_app_distr. cbn [rev app]. rewrite Q_TrimLeft_id by exact (H2 x s eq_refl). destruct s; reflexivity. }
  rewrite <- app_assoc, Q_TrimLeft_app, Hr by (rewrite forallb_rev; exact Hb). destruct s as [|x s]; [reflexivity|].
  rewrite rev_app_distr, !rev_involutive, Q_TrimLeft_app by exact Ha. apply Q_TrimLeft_trimmed, H1.
Qed.

Lemma Q_TrimLeft_first s c r : Q_TrimLeft s = c :: r -> blank c = false.
Proof. rewrite Q_TrimLeft_skipn. apply leading_blanks_spec. Qed.

(** ** Reversing *)

Lemma swap_bytes x y : is_byte x -> is_byte y ->
  w8 (w8 (x + y) - y) = x /\ w8 (w8 (x + y) - x) = y.
Proof.
  unfold is_byte, w8. intros Hx Hy. rewrite !Zminus_mod_idemp_l.
  replace (x + y - y) with x by lia. replace (x + y - x) with y by lia. split; apply Z.mod_small; assumption.
Qed.

Lemma upd_app {A} (a : list A) x r y : upd (a ++ x :: r) (length a) y = a ++ y :: r.
Proof. induction a; cbn; congruence. Qed.

Lemma reverse_loop_spec fuel : forall a m b, bytes m -> (length m <= fuel)%nat ->
  reverse_loop fuel (a ++ m ++ b) (length a) (length a + length m - 1) = a ++ rev m ++ b.
Proof.
  induction fuel as [|f IH]; intros a m b Hm Hf; cbn [reverse_loop].
  - destruct m; [reflexivity | cbn in Hf; lia].
  - destruct m as [|x m]; [cbn [length app rev]; rewrite (proj2 (Nat.ltb_ge _ _)) by lia; reflexivity|].
    destruct m as [|y m _] using rev_ind.
    { cbn [length app rev]. rewrite (proj2 (Nat.ltb_ge _ _)) by lia. reflexivity. }
    inversion Hm as [|? ? Hx Hm']; subst. apply Forall_app in Hm' as [Hm' Hy]. inversion Hy as [|? ? Hy' _]; subst.
    cbn [length] in *. rewrite length_app in *. cbn [length] in *. rewrite (proj2 (Nat.ltb_lt _ _)) by lia.
    set (e := (length a + S (length m + 1) - 1)%nat).
    assert (Ee : forall u, e = length (a ++ u :: m)) by (intros u; rewrite length_app; cbn; unfold e; lia).
    assert (Es : forall u v, a ++ (u :: m ++ [v]) ++ b = (a ++ u :: m) ++ v :: b)
      by (intros u v; cbn [app]; rewrite <- !app_assoc; reflexivity).
    assert (N0 : forall u v, nth (length a) ((a ++ u :: m) ++ v :: b) 0 = u)
      by (intros u v; rewrite <- app_assoc; apply nth_middle).
    assert (N1 : forall u v, nth e ((a ++ u :: m) ++ v :: b) 0 = v)
      by (intros u v; rewrite (Ee u); apply nth_middle).
    assert (U0 : forall u v t, upd ((a ++ u :: m) ++ v :: b) (length a) t = (a ++ t :: m) ++ v :: b)
      by (intros u v t; rewrite <- !app_assoc; cbn [app]; apply upd_app).
    assert (U1 : forall u v t, upd ((a ++ u :: m) ++ v :: b) e t = (a ++ u :: m) ++ t :: b)
      by (intros u v t; rewrite (Ee u); apply upd_app).
    change (x :: m ++ [y]) with (x :: m ++ [y]). rewrite Es. cbv zeta.
    rewrite !N0, !N1, U0, !N0, !N1, U1, !N0, !N1, U0.
    destruct (swap_bytes x y Hx Hy') as [E1 E2]. rewrite E1, E2.
    replace ((a ++ y :: m) ++ x :: b) with ((a ++ [y]) ++ m ++ x :: b) by (rewrite <- !app_assoc; reflexivity).
    replace (length a + 1)%nat with (length (a ++ [y])) by (rewrite length_app; reflexivity).
    replace (e - 1)%nat with (length (a ++ [y]) + length m - 1)%nat by (rewrite length_app; cbn; unfold e; lia).
    rewrite IH by (auto; lia). cbn [rev]. rewrite rev_app_distr, <- !app_assoc. reflexivity.
Qed.

(** [Q_ReverseStr] on the bytes from [iBg] to [iEnd]. *)
Lemma Q_ReverseStr_spec a m b : bytes (a ++ m ++ b) -> m <> [] ->
  Q_ReverseStr (a ++ m ++ b) (length a) (length a + length m - 1) = a ++ rev m ++ b.
Proof.
  intros Hb Hm. assert (L : (1 <= length m)%nat) by (destruct m; [congruence | cbn; lia]).
  unfold Q_ReverseStr. rewrite !length_app.
  destruct (Nat.leb_spec (length a + (length m + length b)) 1).
  { destruct a; [|cbn in *; lia]. destruct b; [|cbn in *; lia]. destruct m as [|x [|]]; cbn in *; try lia. reflexivity. }
  rewrite !(proj2 (Nat.leb_gt (length a + (length m + length b)) _)) by lia.
  destruct (Nat.leb_spec (length a + length m - 1) (length a)).
  - destruct m as [|x [|]]; cbn in *; try lia. reflexivity.
  - apply reverse_loop_spec; [|lia]. apply Forall_app in Hb as [_ Hb]. apply Forall_app in Hb as [Hb _]. exact Hb.
Qed.

(** ** Replacing *)

Lemma replace_loop_done fuel s flag re pos : str_find_from s flag pos = None ->
  (0 < fuel)%nat -> replace_loop fuel s flag re pos = Some s.
Proof. intros H Hf. destruct fuel; [lia|]. cbn. rewrite H. reflexivity. Qed.

Lemma replace_loop_split flag re : flag <> [] -> forall fuel done s l, (length s < fuel)%nat ->
  split_loop fuel s flag = Some l ->
  replace_loop fuel (done ++ s) flag re (length done) = Some (done ++ join re l).
Proof.
  intros Hf. induction fuel as [|f IH]; intros done s l Hs; [lia|]. cbn [split_loop replace_loop].
  unfold str_find_from. rewrite skipn_app_len. pose proof (str_find_spec s flag) as HF.
  destruct (str_find s flag) as [loc|]; cbn [option_map].
  - assert (0 < length flag)%nat by (destruct flag; [congruence | cbn; lia]).
    destruct HF as (_ & Hl & _).
    destruct (split_loop f (skipn (loc + length flag) s) flag) as [l'|] eqn:El; [|discriminate].
    intros H0. injection H0 as <-.
    assert (Hl' : l' <> []).
    { destruct f; [discriminate|]. cbn [split_loop] in El. destruct (str_find _ _); [destruct (split_loop f _ _)|];
        injection El as <- || discriminate El; discriminate. }
    assert (Er : replace (done ++ s) (length done + loc) (length flag) re =
                 (done ++ firstn loc s ++ re) ++ skipn (loc + length flag) s).
    { unfold replace. rewrite firstn_app_2. rewrite <- !app_assoc. do 3 f_equal.
      rewrite <- Nat.add_assoc, skipn_app. rewrite skipn_all2 by lia. cbn [app]. f_equal. lia. }
    rewrite Er. replace (length done + loc + length re)%nat with (length (done ++ firstn loc s ++ re))
      by (rewrite !length_app, length_firstn; lia).
    rewrite (IH _ _ l') by (try exact El; rewrite length_skipn; lia).
    rewrite join_cons by exact Hl'. rewrite <- !app_assoc. reflexivity.
  - intros [= <-]. reflexivity.
Qed.

Lemma str_find_empty s : str_find s [] = Some O.
Proof. unfold str_find. destruct s; reflexivity. Qed.

(** An occurrence stays after a replacement by a text with an occurrence. *)
Lemma str_find_some s w j : sub_at s w j -> w <> [] -> exists i, str_find s w = Some i.
Proof.
  intros H Hw. pose proof (str_find_spec s w) as HF. destruct (str_find s w) as [i|]; [eauto|].
  exfalso. exact (HF Hw j H).
Qed.

Lemma sub_at_inside a r b w j : sub_at r w j -> w <> [] -> sub_at (a ++ r ++ b) w (length a + j).
Proof.
  intros H Hw. pose proof (sub_at_length _ _ _ H Hw) as Hl. rewrite (sub_at_split _ _ _ H Hl).
  replace (a ++ (firstn j r ++ w ++ skipn (j + length w) r) ++ b)
    with ((a ++ firstn j r) ++ w ++ (skipn (j + length w) r ++ b)) by (rewrite <- !app_assoc; reflexivity).
  apply sub_at_app. rewrite length_app, length_firstn. lia.
Qed.

Lemma Replace_Depth_hangs fuel s flag re j k : flag <> [] -> sub_at re flag j -> sub_at s flag k ->
  Q_Replace_Depth fuel s flag re = None.
Proof.
  intros Hf Hre. revert s k. induction fuel as [|f IH]; intros s k Hs; cbn [Q_Replace_Depth]; [reflexivity|].
  destruct (str_find_some s flag k Hs Hf) as [p ->].
  eapply IH. unfold replace. apply sub_at_inside; eassumption.
Qed.

Lemma Replace_Depth_shorter flag re : flag <> [] -> (length re < length flag)%nat ->
  forall fuel s, (length s < fuel)%nat ->
  exists t, Q_Replace_Depth fuel s flag re = Some t /\ forall j, ~ sub_at t flag j.
Proof.
  intros Hf Hr. induction fuel as [|f IH]; intros s Hs; [lia|]. cbn [Q_Replace_Depth].
  pose proof (str_find_spec s flag) as HF. destruct (str_find s flag) as [p|].
  - destruct HF as (_ & Hl & _). apply IH. unfold replace.
    rewrite !length_app, length_firstn, length_skipn. lia.
  - exists s. split; [reflexivity | exact (HF Hf)].
Qed.

Lemma Q_Replace_empty fuel s re : Q_Replace fuel s [] re = None.
Proof.
  unfold Q_Replace. generalize O at 1 as pos. revert s.
  induction fuel as [|f IH]; intros s pos; cbn [replace_loop]; [reflexivity|].
  unfold str_find_from. rewrite str_find_empty. apply IH.
Qed.

(** ** The claims *)

(** [Q_Split] at a non-empty separator always stops; its pieces joined with the
    separator are the string again and no piece contains the separator.  Conversely pieces
    that do not contain the separator's first character are recovered from their join. *)
Theorem Q_Split_pieces c w (l : list (list Z)) s : Forall (fun p => ~ In c p) l ->
  join (c :: w) l <> [] -> s <> [] ->
  Q_Split (join (c :: w) l) (Some (c :: w)) = Some l /\
  exists ps, Q_Split s (Some (c :: w)) = Some ps /\ join (c :: w) ps = s /\
             Forall (fun p => forall j, ~ sub_at p (c :: w) j) ps.
Proof.
  intros Hc Hn Hs. split; [apply Q_Split_join; assumption|].
  destruct (split_loop_spec (c :: w) ltac:(discriminate) (S (length s)) s ltac:(lia)) as (ps & H1 & _ & H2 & H3).
  exists ps. splits; auto. unfold Q_Split. destruct s; [congruence | exact H1].
Qed.

Lemma Q_Split_pieces_witness :
  Q_Split (join [13; 10] [[71; 69; 84]; []; [97]]) (Some [13; 10]) = Some [[71; 69; 84]; []; [97]].
Proof.
  refine (proj1 (Q_Split_pieces 13 [10] [[71; 69; 84]; []; [97]] [1] _ _ _)); try discriminate.
  repeat apply Forall_cons; try apply Forall_nil; cbn; intuition discriminate.
Defined.

(** The rotation by three reversals, each swapping characters with additions and
    subtractions that wrap around in a [char], moves the last [n] characters to the front,
    for every string and every [n] up to its length. *)
Theorem Q_MoveN2Before_rotates s n : bytes s -> (n <= length s)%nat ->
  Q_MoveN2Before s n = skipn (length s - n) s ++ firstn (length s - n) s.
Proof.
  intros Hs Hn. unfold Q_MoveN2Before.
  destruct (Nat.leb_spec (length s) n).
  { replace (length s - n)%nat with 0%nat by lia. cbn. rewrite app_nil_r. reflexivity. }
  destruct (Nat.eqb_spec n 0) as [->|Hn0].
  { cbn [orb]. rewrite Nat.sub_0_r, skipn_all, firstn_all. reflexivity. }
  destruct (Nat.eqb_spec (length s) 0); [lia|]. cbn [orb].
  set (a := firstn (length s - n) s). set (b := skipn (length s - n) s).
  assert (Es : s = a ++ b) by (symmetry; apply firstn_skipn).
  assert (La : length a = (length s - n)%nat) by (unfold a; rewrite length_firstn; lia).
  assert (Lb : length b = n) by (unfold b; rewrite length_skipn; lia).
  assert (Ha : bytes a) by (apply Forall_firstn, Hs). assert (Hb : bytes b) by (apply Forall_skipn, Hs).
  assert (Na : a <> []) by (intros E; rewrite E in La; cbn in La; lia).
  assert (Nb : b <> []) by (intros E; rewrite E in Lb; cbn in Lb; lia).
  clearbody a b. subst s. rewrite length_app in La.
  pose proof (Q_ReverseStr_spec [] a b) as R1. cbn [length app Nat.add] in R1.
  replace (length (a ++ b) - n - 1)%nat with (length a - 1)%nat by (rewrite length_app; lia). rewrite R1 by assumption.
  pose proof (Q_ReverseStr_spec (rev a) b []) as R2. rewrite length_rev, !app_nil_r in R2.
  replace (length (a ++ b) - n)%nat with (length a) by (rewrite length_app; lia).
  replace (length (a ++ b) - 1)%nat with (length a + length b - 1)%nat by (rewrite length_app; lia).
  rewrite R2 by (try apply Forall_app; auto with words).
  pose proof (Q_ReverseStr_spec [] (rev a ++ rev b) []) as R3.
  cbn [length app Nat.add] in R3. rewrite !app_nil_r, length_app, !length_rev in R3.
  rewrite R3.
  - rewrite rev_app_distr, !rev_involutive. reflexivity.
  - apply Forall_app; auto with words.
  - destruct a; [congruence|]. cbn [rev]. destruct (rev a); discriminate.
Qed.

Lemma Q_MoveN2Before_rotates_witness :
  Q_MoveN2Before [97; 98; 200; 250; 101] 2 = [250; 101; 97; 98; 200].
Proof.
  apply (Q_MoveN2Before_rotates [97; 98; 200; 250; 101] 2); [check_bytes | cbn; lia].
Defined.

(** When the replacing functions stop.  [Q_Replace] with a non-empty pattern needs no more
    rounds than characters and yields the pieces of [Q_Split] joined by the replacement;
    with an empty pattern it never stops.  [Q_Replace_Depth] stops, without an occurrence
    left, when the replacement is shorter than the pattern, and never stops when the
    pattern occurs both in the string and in the replacement. *)
Theorem Replace_termination s flag re : flag <> [] -> s <> [] ->
  (exists ps, Q_Split s (Some flag) = Some ps /\
     Q_Replace (S (length s)) s flag re = Some (join re ps)) /\
  (forall fuel, Q_Replace fuel s [] re = None) /\
  ((length re < length flag)%nat -> exists t, Q_Replace_Depth (S (length s)) s flag re = Some t /\
     forall j, ~ sub_at t flag j) /\
  (forall j k, sub_at re flag j -> sub_at s flag k -> forall fuel, Q_Replace_Depth fuel s flag re = None).
Proof.
  intros Hf Hs. splits.
  - destruct (split_loop_spec flag Hf (S (length s)) s ltac:(lia)) as (ps & H1 & _ & _ & _).
    exists ps. split; [unfold Q_Split; destruct flag, s; congruence|].
    exact (replace_loop_split flag re Hf (S (length s)) [] s ps (Nat.lt_succ_diag_r _) H1).
  - intros fuel. apply Q_Replace_empty.
  - intros Hr. apply Replace_Depth_shorter; auto.
  - intros j k H1 H2 fuel. exact (Replace_Depth_hangs fuel s flag re j k Hf H1 H2).
Qed.

Lemma Replace_termination_witness :
  Q_Replace 5 [97; 97; 98; 97] [97] [98; 97] = Some [98; 97; 98; 97; 98; 98; 97] /\
  forall fuel, Q_Replace_Depth fuel [97; 97; 98; 97] [97] [98; 97] = None.
Proof.
  destruct (Replace_termination [97; 97; 98; 97] [97] [98; 97] ltac:(discriminate) ltac:(discriminate))
    as (_ & _ & _ & H).
  split; [vm_compute; reflexivity | exact (H 1%nat 0%nat eq_refl eq_refl)].
Defined.
