(* ===== verification/HandShake.v ===== *)
(** * HandShake: the opening handshake of WebSocket connections (QBase/WebSockParser.cpp)

    [shakeHands] and the three methods it calls: the request is cut into lines with
    [Q_Split], the fields are read, and the key of the client is answered with the Base64
    encoding of a SHA-1 digest. *)

From Stdlib Require Import Ascii String.
From S2P Require Import Prelude Enum EventBuffer QString Base64 SHA1 WebSockParser.
Open Scope list_scope.

(** The bytes of a literal. *)
Definition lit (s : string) : list Z := map (fun c => Z.of_N (N_of_ascii c)) (list_ascii_of_string s).

Definition CRLF : list Z := [13; 10].
Definition WebSock_ShakeHands_EndFlag : list Z := CRLF ++ CRLF.
Definition ShakeHands_SplitFlag : list Z := CRLF.
Definition WebSocket_Version : list Z := lit "13".
Definition GUID : list Z := lit "258EAFA5-E914-47DA-95CA-C5AB0DC85B11".

Definition contains (s w : list Z) : bool := negb (find s w 0 =? -1).

(** The string at a pointer: the bytes before the first zero. *)
Fixpoint c_str (mem : list Z) : list Z :=
  match mem with [] => [] | c :: r => if c =? 0 then [] else c :: c_str r end.

(** ** Reading the request *)

(** The local flags and [strRtn] of [parseShakeHands]. *)
Record fields := {
  bUpgrade : bool; bConnection : bool; bKey : bool; bVersion : bool; strRtn : list Z
}.

Definition no_fields : fields :=
  {| bUpgrade := false; bConnection := false; bKey := false; bVersion := false; strRtn := [] |}.

(** One field; [None] is the early return of the empty string. *)
Definition field (f : fields) (strKey strVal : list Z) : option fields :=
  if strcaseeq strKey (lit "Upgrade") then
    if strcaseeq strVal (lit "websocket") then
      Some {| bUpgrade := true; bConnection := bConnection f; bKey := bKey f; bVersion := bVersion f;
              strRtn := strRtn f |}
    else None
  else if strcaseeq strKey (lit "Connection") then
    if strcaseeq strVal (lit "Upgrade") then
      Some {| bUpgrade := bUpgrade f; bConnection := true; bKey := bKey f; bVersion := bVersion f;
              strRtn := strRtn f |}
    else None
  else if strcaseeq strKey (lit "Sec-WebSocket-Key") then
    Some {| bUpgrade := bUpgrade f; bConnection := bConnection f; bKey := true; bVersion := bVersion f;
            strRtn := strVal |}
  else if strcaseeq strKey (lit "Sec-WebSocket-Version") then
    if strcaseeq strVal WebSocket_Version then
      Some {| bUpgrade := bUpgrade f; bConnection := bConnection f; bKey := bKey f; bVersion := true;
              strRtn := strRtn f |}
    else None
  else Some f.

(** The two parts of a line that [Q_Split] cuts into exactly two. *)
Definition key_value (line : list Z) : option (list Z * list Z) :=
  match line with
  | [] => None
  | _ => match Q_Split line (Some [58]) with
         | Some [k; v] => Some (Q_Trim k, Q_Trim v)
         | _ => None
         end
  end.

Fixpoint field_loop (lst : list (list Z)) (f : fields) : option fields :=
  match lst with
  | [] => Some f
  | line :: r =>
      match key_value line with
      | None => field_loop r f
      | Some (strKey, strVal) =>
          match field f strKey strVal with None => None | Some f => field_loop r f end
      end
  end.

Definition request_line_ok (line : list Z) : bool :=
  contains line (lit "GET") && (contains line (lit "HTTP/1.1") || contains line (lit "HTTP/1.0")).

Definition parseShakeHands (lstShakeHands : list (list Z)) : list Z :=
  match lstShakeHands with
  | [] => []
  | first :: rest =>
      if request_line_ok first then
        match field_loop rest no_fields with
        | None => []
        | Some f => if bUpgrade f && bConnection f && bKey f && bVersion f then strRtn f else []
        end
      else []
  end.

(** ** Answering *)

(** [createChallengeKey]: the hash object and the encoded digest. *)
Definition createChallengeKey (h : CSHA1) (strKey : list Z) : option (CSHA1 * list Z) :=
  let strKey := strKey ++ GUID in
  let h := Reset h in
  let h := Update h strKey (length strKey) in
  let? h := Final h in
  Some (h, Encode (GetHash h)).

Definition createHandshakeResponse (m_strVersion strKey : list Z) : list Z :=
  lit "HTTP/1.1 101 Switching Protocols" ++ CRLF ++
  lit "Upgrade: websocket" ++ CRLF ++
  lit "Connection: Upgrade" ++ CRLF ++
  lit "Server: QServer version:" ++ m_strVersion ++ CRLF ++
  lit "Sec-WebSocket-Accept: " ++ strKey ++ CRLF ++
  lit "Sec-WebSocket-Origin: null" ++ CRLF ++ CRLF.

(** The members of [CWebSockParser] only the handshake uses. *)
Record Shaker := { m_strVersion : list Z; m_strVal : list Z; m_objSHA1 : CSHA1 }.

Definition set_shake (p : CWebSockParser) (close : bool) (parsed need : Z) : CWebSockParser :=
  {| m_bClose := close; m_iParsedLens := parsed; m_iHeadLens := m_iHeadLens p;
     m_iTotalLens := m_iTotalLens p; m_iNeedReadLens := need; m_pMsg := m_pMsg p; m_stFram := m_stFram p |}.

Section HandShake.
Context {B : Type} {E : EvBuffer B} {L : EvBufferLaws B}.

(** [shakeHands].  [std::string(pShakeHands)] reads up to a zero byte: [junk] is the memory
    after the bytes pulled up.  The outer [None] is the padding loop of the digest running
    out of fuel. *)
Definition shakeHands (p : CWebSockParser) (s : Shaker) (pBuffer : CEventBuffer B) (junk : list Z)
  : option (CWebSockParser * Shaker * option (list Z)) :=
  let val s v := {| m_strVersion := m_strVersion s; m_strVal := v; m_objSHA1 := m_objSHA1 s |} in
  let s := val s [] in
  let pos := Search pBuffer WebSock_ShakeHands_EndFlag in
  if pos =? -1 then Some (set_shake p false 0 (m_iNeedReadLens p), s, None)
  else
    let need := pos + Z.of_nat (length WebSock_ShakeHands_EndFlag) in
    match readBuffer pBuffer need with
    | None => Some (set_shake p false 0 need, s, None)
    | Some pShakeHands =>
        let? lstTmp := Q_Split (c_str (pShakeHands ++ junk)) (Some ShakeHands_SplitFlag) in
        match parseShakeHands lstTmp with
        | [] => Some (set_shake p true 0 need, s, None)
        | strKey =>
            let? hk := createChallengeKey (m_objSHA1 s) strKey in
            let (h, strKey) := hk in
            let s := {| m_strVersion := m_strVersion s; m_strVal := strKey; m_objSHA1 := h |} in
            match strKey with
            | [] => Some (set_shake p true 0 need, s, None)
            | _ => let r := createHandshakeResponse (m_strVersion s) strKey in
                   Some (set_shake p false need need, val s r, Some r)
            end
        end
    end.

End HandShake.

(** ** The reference: what a request asks for *)

(** The values of the fields of one name, in order. *)
Fixpoint values (name : list Z) (lines : list (list Z)) : list (list Z) :=
  match lines with
  | [] => []
  | line :: r =>
      match key_value line with
      | Some (k, v) => if strcaseeq k name then v :: values name r else values name r
      | None => values name r
      end
  end.

Definition all_are (w : list Z) (vs : list (list Z)) : bool := forallb (fun v => strcaseeq v w) vs.
Definition given {A} (vs : list A) : bool := match vs with [] => false | _ => true end.

(** The key of an acceptable request: every upgrade, connection and version field has the one
    value the protocol allows, each is there, and the last key field counts. *)
Definition requested_key (lines : list (list Z)) : list Z :=
  match lines with
  | [] => []
  | first :: rest =>
      let u := values (lit "Upgrade") rest in
      let c := values (lit "Connection") rest in
      let k := values (lit "Sec-WebSocket-Key") rest in
      let v := values (lit "Sec-WebSocket-Version") rest in
      if request_line_ok first && all_are (lit "websocket") u && all_are (lit "Upgrade") c &&
         all_are WebSocket_Version v && given u && given c && given v
      then last k [] else []
  end.

(** The answer of RFC 6455 to a key. *)
Definition accept (key : list Z) : list Z := Encode (sha1 (key ++ GUID)).

Definition example_lines : list (list Z) :=
  [lit "GET /chat HTTP/1.1"; lit "Host: server.example.com:8000"; lit "Upgrade: websocket";
   lit "Connection: Upgrade"; lit "Sec-WebSocket-Key: dGhlIHNhbXBsZSBub25jZQ==";
   lit "Sec-WebSocket-Version: 13"].

Definition request (lines : list (list Z)) : list Z := join CRLF lines ++ CRLF ++ CRLF.

(** The example of the RFC. *)
Example accept_rfc : accept (lit "dGhlIHNhbXBsZSBub25jZQ==") = lit "s3pPLMBiTxaQ9kYGzzhZRbK+xOo=".
Proof. vm_compute. reflexivity. Qed.

Example example_key : requested_key example_lines = lit "dGhlIHNhbXBsZSBub25jZQ==".
Proof. vm_compute. reflexivity. Qed.

(** ** [parseShakeHands] and the reference *)

Lemma strcaseeq_spec a b : strcaseeq a b = true <-> Q_Convert2Lower a = Q_Convert2Lower b.
Proof. unfold strcaseeq. destruct (list_eq_dec _ _ _); intuition congruence. Qed.

(** Two names that differ in lower case are not both matched. *)
Lemma names_differ k a b : Q_Convert2Lower a <> Q_Convert2Lower b -> strcaseeq k a = true -> strcaseeq k b = false.
Proof.
  intros H Ha. apply strcaseeq_spec in Ha. destruct (strcaseeq k b) eqn:E; [|reflexivity].
  apply strcaseeq_spec in E. congruence.
Qed.

Lemma last_cons {A} (k : list A) : forall v d, last (v :: k) d = last k v.
Proof. induction k as [|a k IH]; intros v d; [reflexivity|]. cbn [last] in *. rewrite !IH. reflexivity. Qed.

Ltac other_names k a E :=
  repeat match goal with
  | |- context [strcaseeq k ?b] => rewrite (names_differ k a b ltac:(vm_compute; discriminate) E)
  end.

Definition loop_spec (lines : list (list Z)) (f : fields) : option fields :=
  let u := values (lit "Upgrade") lines in
  let c := values (lit "Connection") lines in
  let k := values (lit "Sec-WebSocket-Key") lines in
  let v := values (lit "Sec-WebSocket-Version") lines in
  if all_are (lit "websocket") u && all_are (lit "Upgrade") c && all_are WebSocket_Version v then
    Some {| bUpgrade := bUpgrade f || given u; bConnection := bConnection f || given c;
            bKey := bKey f || given k; bVersion := bVersion f || given v; strRtn := last k (strRtn f) |}
  else None.

Lemma field_loop_spec lines : forall f, field_loop lines f = loop_spec lines f.
Proof.
  induction lines as [|line r IH]; intros f.
  { unfold loop_spec. cbn. rewrite !orb_false_r. destruct f; reflexivity. }
  cbn [field_loop]. unfold loop_spec. cbn [values].
  destruct (key_value line) as [[k v]|]; [|apply IH].
  unfold field.
  destruct (strcaseeq k (lit "Upgrade")) eqn:E1.
  { other_names k (lit "Upgrade") E1.
    cbn [all_are forallb given]. destruct (strcaseeq v (lit "websocket")); [|reflexivity].
    rewrite IH. unfold loop_spec. cbn. rewrite orb_true_r. reflexivity. }
  destruct (strcaseeq k (lit "Connection")) eqn:E2.
  { other_names k (lit "Connection") E2.
    cbn [all_are forallb given]. destruct (strcaseeq v (lit "Upgrade")).
    - rewrite IH. unfold loop_spec. cbn. rewrite orb_true_r. reflexivity.
    - cbn [andb]. rewrite andb_false_r. reflexivity. }
  destruct (strcaseeq k (lit "Sec-WebSocket-Key")) eqn:E3.
  { other_names k (lit "Sec-WebSocket-Key") E3.
    rewrite IH. unfold loop_spec. cbn [bUpgrade bConnection bKey bVersion strRtn given].
    rewrite orb_true_r, last_cons. reflexivity. }
  destruct (strcaseeq k (lit "Sec-WebSocket-Version")) eqn:E4; [|apply IH].
  cbn [all_are forallb given]. destruct (strcaseeq v WebSocket_Version).
  - rewrite IH. unfold loop_spec. cbn. rewrite orb_true_r. reflexivity.
  - cbn [andb]. rewrite !andb_false_r. reflexivity.
Qed.

Lemma parseShakeHands_spec lines : parseShakeHands lines = requested_key lines.
Proof.
  destruct lines as [|first rest]; [reflexivity|]. unfold parseShakeHands, requested_key.
  destruct (request_line_ok first); [|reflexivity]. rewrite field_loop_spec. unfold loop_spec.
  set (u := values (lit "Upgrade") rest). set (c := values (lit "Connection") rest).
  set (k := values (lit "Sec-WebSocket-Key") rest). set (v := values (lit "Sec-WebSocket-Version") rest).
  cbn [andb]. destruct (all_are (lit "websocket") u && all_are (lit "Upgrade") c && all_are WebSocket_Version v);
    [|reflexivity]. cbn [andb orb bUpgrade bConnection bKey bVersion strRtn no_fields].
  destruct (given u), (given c), (given v), k; reflexivity.
Qed.

(** ** The end of a request *)

Lemma sub_at_nth l w j i d : sub_at l w j -> (i < length w)%nat -> nth (j + i) l d = nth i w d.
Proof.
  unfold sub_at. intros H Hi. rewrite <- H, nth_firstn, nth_skipn.
  destruct (Nat.ltb_spec i (length w)); [reflexivity | lia].
Qed.

Lemma sub_at_skip a l w j : sub_at (a ++ l) w (length a + j) <-> sub_at l w j.
Proof. unfold sub_at. rewrite skipn_app, skipn_all2 by lia. replace (length a + j - length a)%nat with j by lia. reflexivity. Qed.

(** A line has a character and no carriage return. *)
Definition is_line (l : list Z) : Prop := l <> [] /\ ~ In 13 l.

Lemma line_not_13 a r j : ~ In 13 a -> (j < length a)%nat -> nth j (a ++ r) 0 <> 13.
Proof. intros Ha Hj E0. apply Ha. rewrite <- E0, app_nth1 by exact Hj. apply nth_In, Hj. Qed.

(** No end flag before the end of the last line. *)
Lemma no_early_end lines tail : Forall is_line lines -> lines <> [] -> forall j, (j < length (join CRLF lines))%nat ->
  ~ sub_at (join CRLF lines ++ tail) WebSock_ShakeHands_EndFlag j.
Proof.
  induction lines as [|a r IH]; intros Hl Hn j Hj Hs; [congruence|]. inversion Hl as [|? ? [_ Ha] Hr]; subst.
  pose proof (sub_at_nth _ _ _ 0 0 Hs ltac:(cbn; lia)) as E0. rewrite Nat.add_0_r in E0.
  destruct r as [|b r].
  - cbn [join] in *. exact (line_not_13 a _ j Ha Hj E0).
  - rewrite join_cons in * by discriminate. rewrite <- !app_assoc in *.
    destruct (Nat.lt_ge_cases j (length a)) as [C|C]; [exact (line_not_13 a _ j Ha C E0)|].
    replace j with (length a + (j - length a))%nat in Hs by lia. apply sub_at_skip in Hs.
    rewrite !length_app in Hj. change (length CRLF) with 2%nat in Hj.
    destruct (Nat.lt_ge_cases (j - length a) 2) as [D|D].
    + inversion Hr as [|? ? [Hb1 Hb2] _]; subst.
      destruct (j - length a)%nat as [|[|]]; [| |lia].
      * pose proof (sub_at_nth _ _ _ 2 0 Hs ltac:(cbn; lia)) as E2.
        destruct b as [|x b]; [congruence|]. cbn [Nat.add] in E2.
        assert (E3 : nth 2 (CRLF ++ join CRLF ((x :: b) :: r) ++ tail) 0 = x) by (destruct r; reflexivity).
        rewrite E3 in E2. cbn in E2. apply Hb2. left. exact E2.
      * pose proof (sub_at_nth _ _ _ 0 0 Hs ltac:(cbn; lia)) as E2. cbn in E2. discriminate.
    + replace (j - length a)%nat with (length CRLF + (j - length a - 2))%nat in Hs by (cbn; lia).
      apply sub_at_skip in Hs. refine (IH Hr ltac:(discriminate) _ _ Hs). lia.
Qed.

Lemma end_at_end lines rest : sub_at (request lines ++ rest) WebSock_ShakeHands_EndFlag (length (join CRLF lines)).
Proof. unfold request. rewrite <- app_assoc. apply sub_at_app. reflexivity. Qed.

Lemma length_request lines : length (request lines) = (length (join CRLF lines) + 4)%nat.
Proof. unfold request. rewrite length_app. reflexivity. Qed.

(** ** The lines of a request *)

Lemma c_str_app a r : ~ In 0 a -> c_str (a ++ 0 :: r) = a.
Proof.
  induction a as [|x a IH]; intros H; cbn; [reflexivity|]. destruct (Z.eqb_spec x 0) as [->|].
  - exfalso. apply H. now left.
  - f_equal. apply IH. intros Hi. apply H. now right.
Qed.

Lemma request_join lines : lines <> [] -> request lines = join CRLF (lines ++ [[]; []]).
Proof.
  unfold request. induction lines as [|a r IH]; intros H; [congruence|]. destruct r as [|b r].
  - reflexivity.
  - change ((a :: b :: r) ++ [[]; []]) with (a :: (b :: r) ++ [[]; []]).
    rewrite (join_cons CRLF a (b :: r)), (join_cons CRLF a ((b :: r) ++ _)), <- IH by discriminate.
    rewrite <- !app_assoc. reflexivity.
Qed.

Lemma split_request lines : Forall is_line lines -> lines <> [] ->
  Q_Split (request lines) (Some ShakeHands_SplitFlag) = Some (lines ++ [[]; []]).
Proof.
  intros Hl Hn. rewrite request_join by exact Hn. apply (Q_Split_join 13 [10]).
  - apply Forall_app. split; [revert Hl; apply Forall_impl; intros a [_ H]; exact H|].
    repeat constructor; auto.
  - change (13 :: [10]) with CRLF. rewrite <- request_join by exact Hn.
    intros H. apply (f_equal (@length Z)) in H. rewrite length_request in H. cbn in H. lia.
Qed.

Lemma values_blank name lines : values name (lines ++ [[]; []]) = values name lines.
Proof.
  induction lines as [|a r IH]; [reflexivity|]. cbn [app values]. rewrite IH. reflexivity.
Qed.

Lemma requested_key_blank lines : lines <> [] -> requested_key (lines ++ [[]; []]) = requested_key lines.
Proof. destruct lines as [|a r]; [congruence|]. intros _. cbn [app requested_key]. rewrite !values_blank. reflexivity. Qed.

(** ** The answer to a key *)

Definition hash_ready (h : CSHA1) : Prop := length (m_buffer h) = 64%nat /\ bytes (m_buffer h).

Lemma bytes_GUID : bytes GUID.
Proof. check_bytes. Qed.

Lemma createChallengeKey_accept h key : hash_ready h -> bytes key -> Z.of_nat (length key) < 2 ^ 31 ->
  exists h', createChallengeKey h key = Some (h', accept key) /\ hash_ready h'.
Proof.
  intros [Hl Hb] Hk Hn. unfold createChallengeKey, accept.
  assert (HG : bytes (key ++ GUID)) by (apply Forall_app; split; [exact Hk | exact bytes_GUID]).
  assert (R : rep (Update (Reset h) (key ++ GUID) (length (key ++ GUID))) (key ++ GUID)).
  { apply (Update_rep (Reset h) []); [apply Reset_rep; assumption | exact HG |].
    rewrite length_app. change (length GUID) with 36%nat. lia. }
  destruct (Final_rep _ _ R) as (h' & E0 & E1). rewrite E0. cbn [obind]. rewrite E1.
  exists h'. split; [reflexivity|]. unfold Final in E0. destruct (Final_digest _); [|discriminate].
  injection E0 as <-. split; [reflexivity|]. cbn [m_buffer wipe]. apply Forall_forall.
  intros x Hx. apply repeat_spec in Hx. subst. apply byte_0.
Qed.

Lemma accept_nonempty key : accept key <> [].
Proof.
  unfold accept. rewrite Encode_b64. pose proof (length_sha1 (key ++ GUID)) as H.
  destruct (sha1 (key ++ GUID)) as [|a [|b [|c l]]]; try discriminate H.
  change (b64 (a :: b :: c :: l)) with (map char_at (group4 a b c) ++ b64 l). discriminate.
Qed.

Section Answer.
Context {B : Type} {E : EvBuffer B} {L : EvBufferLaws B}.

Lemma End_nonempty : WebSock_ShakeHands_EndFlag <> [].
Proof. discriminate. Qed.

(** While the request is incomplete nothing is answered. *)
Lemma shakeHands_waits (p : CWebSockParser) (s : Shaker) (pBuffer : CEventBuffer B) junk lines n :
  Forall is_line lines -> lines <> [] -> (n < length (request lines))%nat ->
  input pBuffer = firstn n (request lines) ->
  exists p' s', shakeHands p s pBuffer junk = Some (p', s', None) /\
    m_bClose p' = false /\ m_iParsedLens p' = 0 /\ m_objSHA1 s' = m_objSHA1 s /\ m_strVersion s' = m_strVersion s.
Proof.
  intros Hl Hn Hlen Hi. unfold shakeHands. rewrite Search_none.
  - eexists _, _. split; [reflexivity|]. auto.
  - intros j Hj. rewrite Hi in Hj. pose proof (sub_at_length _ _ _ Hj End_nonempty) as Hjl.
    rewrite length_firstn, length_request in *. change (length WebSock_ShakeHands_EndFlag) with 4%nat in *.
    apply (sub_at_firstn (request lines)) in Hj; [|cbn; lia].
    unfold request in Hj. refine (no_early_end lines _ Hl Hn j _ Hj). lia.
Qed.

(** What the code reads of a complete request. *)
Lemma shakeHands_reads (pBuffer : CEventBuffer B) lines rest :
  Forall is_line lines -> lines <> [] -> input pBuffer = request lines ++ rest ->
  Z.of_nat (length (input pBuffer)) < 2 ^ 63 ->
  Search pBuffer WebSock_ShakeHands_EndFlag = Z.of_nat (length (join CRLF lines)) /\
  readBuffer pBuffer (Z.of_nat (length (join CRLF lines)) + Z.of_nat (length WebSock_ShakeHands_EndFlag)) =
    Some (request lines).
Proof.
  intros Hl Hn Hi Hlt. split.
  - apply Search_first; [exact End_nonempty | |]; rewrite Hi; [apply end_at_end|].
    intros j Hj. unfold request. rewrite <- app_assoc. apply no_early_end; assumption.
  - change (Z.of_nat (length WebSock_ShakeHands_EndFlag)) with 4. rewrite Hi in Hlt.
    rewrite length_app in Hlt. pose proof (length_request lines).
    rewrite readBuffer_enough by (rewrite ?Hi, ?length_app; lia). f_equal. rewrite Hi.
    replace (Z.to_nat _) with (length (request lines)) by lia. apply firstn_app_len.
Qed.

Lemma Forall_last {A} (P : A -> Prop) l d : Forall P l -> P d -> P (last l d).
Proof. induction 1 as [|x l Hx Hl IH]; intros Hd; [exact Hd|]. destruct l; [exact Hx | apply IH, Hd]. Qed.

End Answer.

(** The key is made of bytes of the request. *)
Lemma Q_Trim_Forall (P : Z -> Prop) s : Forall P s -> Forall P (Q_Trim s).
Proof.
  intros H. unfold Q_Trim. rewrite Q_TrimRight_rev, !Q_TrimLeft_skipn.
  apply Forall_skipn, Forall_rev, Forall_skipn, Forall_rev, H.
Qed.

Lemma join_Forall (P : Z -> Prop) sep l : Forall P (join sep l) -> Forall (Forall P) l.
Proof.
  induction l as [|a r IH]; intros H; [constructor|]. destruct r as [|b r].
  - constructor; [exact H | constructor].
  - rewrite join_cons in H by discriminate. apply Forall_app in H as [Ha H]. apply Forall_app in H as [_ H].
    constructor; [exact Ha | apply IH, H].
Qed.

Lemma key_value_Forall (P : Z -> Prop) line k v : Forall P line -> key_value line = Some (k, v) -> Forall P v.
Proof.
  intros H. unfold key_value. destruct line as [|x line]; [discriminate|].
  destruct (split_loop_spec [58] ltac:(discriminate) (S (length (x :: line))) (x :: line) ltac:(lia))
    as (l & Hs & _ & Hj & _).
  change (Q_Split (x :: line) (Some [58])) with (split_loop (S (length (x :: line))) (x :: line) [58]).
  rewrite Hs. rewrite <- Hj in H. apply join_Forall in H.
  destruct l as [|a [|b [|]]]; try discriminate. intros H0. injection H0 as <- <-.
  inversion H as [|? ? _ H1]; subst. inversion H1; subst. apply Q_Trim_Forall. assumption.
Qed.

Lemma values_Forall (P : Z -> Prop) name lines : Forall (Forall P) lines -> Forall (Forall P) (values name lines).
Proof.
  induction 1 as [|a r Ha Hr IH]; cbn [values]; [constructor|].
  destruct (key_value a) as [[k v]|] eqn:E0; [|exact IH]. destruct (strcaseeq k name); [|exact IH].
  constructor; [exact (key_value_Forall P a k v Ha E0) | exact IH].
Qed.

Lemma requested_key_Forall (P : Z -> Prop) lines : Forall (Forall P) lines -> Forall P (requested_key lines).
Proof.
  intros H. destruct lines as [|a r]; [constructor|]. cbn [requested_key]. inversion H; subst.
  destruct (_ && _); [|constructor]. apply Forall_last; [|constructor]. apply values_Forall. assumption.
Qed.

Lemma length_Trim s : (length (Q_Trim s) <= length s)%nat.
Proof.
  unfold Q_Trim. rewrite Q_TrimRight_rev, !Q_TrimLeft_skipn, length_skipn, length_rev, length_skipn, length_rev. lia.
Qed.

Lemma length_join_In sep l (a : list Z) : In a l -> (length a <= length (join sep l))%nat.
Proof.
  induction l as [|x r IH]; [easy|]. intros [-> | Hi]; destruct r as [|b r].
  - cbn. lia.
  - rewrite join_cons, length_app by discriminate. lia.
  - easy.
  - rewrite join_cons, !length_app by discriminate. specialize (IH Hi). lia.
Qed.

Lemma values_length name lines v : In v (values name lines) -> exists a, In a lines /\ (length v <= length a)%nat.
Proof.
  induction lines as [|a r IH]; cbn [values]; [easy|]. intros H.
  assert (C : In v (values name r) \/ exists k, key_value a = Some (k, v)).
  { destruct (key_value a) as [[k v']|]; [|auto]. destruct (strcaseeq k name); [|auto].
    destruct H as [<- | H]; eauto. }
  destruct C as [C | (k & C)].
  - destruct (IH C) as (b & Hb & Hv). exists b. split; [now right | exact Hv].
  - exists a. split; [now left|]. unfold key_value in C. destruct a as [|x a]; [discriminate|].
    destruct (split_loop_spec [58] ltac:(discriminate) (S (length (x :: a))) (x :: a) ltac:(lia))
      as (l & Hs & _ & Hj & _).
    change (Q_Split (x :: a) (Some [58])) with (split_loop (S (length (x :: a))) (x :: a) [58]) in C.
    rewrite Hs in C. destruct l as [|u [|w [|]]]; try discriminate. injection C as _ <-.
    rewrite <- Hj. pose proof (length_Trim w). pose proof (length_join_In [58] [u; w] w ltac:(cbn; auto)). lia.
Qed.

Lemma requested_key_length lines : (length (requested_key lines) <= length (join CRLF lines))%nat.
Proof.
  destruct lines as [|a r]; [cbn; lia|]. cbn [requested_key]. destruct (_ && _); [|cbn; lia].
  set (k := values (lit "Sec-WebSocket-Key") r).
  destruct k as [|x k'] eqn:Ek; [cbn; lia|].
  destruct (values_length (lit "Sec-WebSocket-Key") r (last (x :: k') [])) as (b & Hb & Hv).
  { fold k. rewrite Ek. clear. revert x. induction k' as [|y k' IH]; intros x; [now left|]. right. apply IH. }
  pose proof (length_join_In CRLF (a :: r) b (or_intror Hb)). lia.
Qed.

(** The bytes after the request in memory decide: here a field of the connection's next
    bytes is read as part of the request, and the client is refused. *)
Example shakeHands_overread :
  option_map (fun r => (m_bClose (fst (fst r)), snd r))
    (shakeHands CWebSockParser_new {| m_strVersion := []; m_strVal := []; m_objSHA1 := Build_CSHA1 [] 0 0 [] [] |}
       (conn (request example_lines)) (lit "Upgrade: h2c" ++ [0])) = Some (true, None).
Proof. vm_compute. reflexivity. Qed.

(** The handshake always ends. *)
Lemma c_str_Forall (P : Z -> Prop) l : Forall P l -> Forall P (c_str l).
Proof. induction 1 as [|a r Ha Hr IH]; cbn [c_str]; [constructor|]. destruct (a =? 0); constructor; assumption. Qed.

Lemma length_c_str l : (length (c_str l) <= length l)%nat.
Proof. induction l as [|a r IH]; cbn [c_str length]; [lia|]. destruct (a =? 0); cbn [length]; lia. Qed.

Lemma Q_Split_lines s : bytes s -> exists lines, Q_Split s (Some ShakeHands_SplitFlag) = Some lines /\
  bytes (requested_key lines) /\ (length (requested_key lines) <= length s)%nat.
Proof.
  intros Hs. destruct s as [|c s]; [exists []; cbn; splits; [reflexivity | constructor | lia]|].
  destruct (split_loop_spec CRLF ltac:(discriminate) (S (length (c :: s))) (c :: s) ltac:(lia)) as (l & E0 & _ & Hj & _).
  exists l. split; [exact E0|]. rewrite <- Hj. split; [|apply requested_key_length].
  apply requested_key_Forall, (join_Forall is_byte CRLF). rewrite Hj. exact Hs.
Qed.

Lemma shakeHands_total {B} {E : EvBuffer B} {L : EvBufferLaws B} (p : CWebSockParser) (s : Shaker)
    (pBuffer : CEventBuffer B) junk : hash_ready (m_objSHA1 s) -> bytes (input pBuffer) -> bytes junk ->
  Z.of_nat (length (input pBuffer) + length junk) < 2 ^ 31 ->
  exists p' s' r, shakeHands p s pBuffer junk = Some (p', s', r) /\ hash_ready (m_objSHA1 s').
Proof.
  intros Hh Hi Hj Hlen. unfold shakeHands. destruct (Z.eqb_spec (Search pBuffer WebSock_ShakeHands_EndFlag) (-1)) as [|Hs]; [eauto 6|].
  set (need := Search pBuffer _ + _). destruct (readBuffer pBuffer need) as [l|] eqn:ER; [|eauto 6].
  assert (Hl : bytes (l ++ junk) /\ Z.of_nat (length (l ++ junk)) < 2 ^ 31).
  { destruct (Z.le_gt_cases need (Z.of_nat (length (input pBuffer)))) as [C|C];
      [destruct (Z.lt_ge_cases 0 need) as [C2|C2]|].
    - rewrite readBuffer_enough in ER by lia. injection ER as <-. rewrite length_app, length_firstn. split; [|lia].
      apply Forall_app. split; [apply Forall_firstn, Hi | exact Hj].
    - exfalso. subst need. change (Z.of_nat (length WebSock_ShakeHands_EndFlag)) with 4 in C2.
      unfold Search in C2, Hs. destruct (m_pReadBuffer pBuffer) as [b|] eqn:Eb; [|lia].
      destruct (Z.eq_dec (evbuffer_search b WebSock_ShakeHands_EndFlag) (-1)) as [E1|E1]; [congruence|].
      destruct (search_found b _ _ eq_refl E1) as [H0 _]. lia.
    - exfalso. subst need. unfold Search, readBuffer, input in *. destruct (m_pReadBuffer pBuffer) as [b|]; [|discriminate].
      change (Z.of_nat (length WebSock_ShakeHands_EndFlag)) with 4 in *.
      destruct (Z.eq_dec (evbuffer_search b WebSock_ShakeHands_EndFlag) (-1)) as [E1|E1]; [congruence|].
      destruct (search_found b _ _ eq_refl E1) as (H0 & H1 & _). change (length WebSock_ShakeHands_EndFlag) with 4%nat in H1. lia. }
  destruct Hl as [Hb Hl]. destruct (Q_Split_lines (c_str (l ++ junk)) (c_str_Forall _ _ Hb)) as (lines & -> & Kb & Kl).
  cbn [obind]. rewrite parseShakeHands_spec. pose proof (length_c_str (l ++ junk)) as Hc.
  destruct (createChallengeKey_accept (m_objSHA1 s) (requested_key lines) Hh Kb ltac:(lia)) as (h & EC & Hh').
  cbn [m_objSHA1]. destruct (requested_key lines) as [|k0 k]; [eauto 6|]. rewrite EC. cbn [obind].
  destruct (accept _); eauto 6.
Qed.

(** ** The claims *)


Definition fresh_shaker : Shaker :=
  {| m_strVersion := lit "1-0-0"; m_strVal := []; m_objSHA1 := Build_CSHA1 [] 0 0 (repeat 0 64) [] |}.


(** A request whose [Connection] field is a list of options that contains the upgrade, as RFC
    6455 allows and browsers send, is refused: the handshake closes the connection. *)
Theorem shakeHands_connection_list {B} {E : EvBuffer B} {L : EvBufferLaws B} (p : CWebSockParser) (s : Shaker)
    (pBuffer : CEventBuffer B) junk
    lines rest : Forall is_line lines -> lines <> [] -> ~ In 0 (request lines) ->
  In (lit "Connection: keep-alive, Upgrade") (tl lines) ->
  input pBuffer = request lines ++ rest -> Z.of_nat (length (input pBuffer)) < 2 ^ 63 ->
  exists p' s', shakeHands p s pBuffer (0 :: junk) = Some (p', s', None) /\ m_bClose p' = true.
Proof.
  intros Hl Hn H0 Hin Hi Hlt. destruct (shakeHands_reads pBuffer lines rest Hl Hn Hi Hlt) as [HS HR].
  unfold shakeHands. rewrite HS. destruct (Z.eqb_spec (Z.of_nat (length (join CRLF lines))) (-1)); [lia|].
  rewrite HR, c_str_app, split_request by assumption. cbn [obind].
  rewrite parseShakeHands_spec, requested_key_blank by exact Hn.
  destruct lines as [|first r]; [congruence|]. cbn [tl] in Hin.
  assert (Hv : all_are (lit "Upgrade") (values (lit "Connection") r) = false).
  { clear - Hin. induction r as [|a r IH]; [easy|]. cbn [values]. destruct Hin as [-> | Hin].
    - change (key_value _) with (Some (lit "Connection", lit "keep-alive, Upgrade")).
      cbv iota beta. change (strcaseeq (lit "Connection") (lit "Connection")) with true. reflexivity.
    - specialize (IH Hin). destruct (key_value a) as [[k v]|]; [|exact IH].
      destruct (strcaseeq k (lit "Connection")); [|exact IH]. unfold all_are in *. cbn [forallb].
      rewrite IH. apply andb_false_r. }
  cbn [requested_key]. rewrite Hv, andb_false_r. cbn [andb].
  eexists _, _. split; reflexivity.
Qed.

Definition firefox_lines : list (list Z) :=
  [lit "GET /chat HTTP/1.1"; lit "Upgrade: websocket"; lit "Connection: keep-alive, Upgrade";
   lit "Sec-WebSocket-Key: dGhlIHNhbXBsZSBub25jZQ=="; lit "Sec-WebSocket-Version: 13"].

Lemma shakeHands_connection_list_witness : exists p' s',
  shakeHands CWebSockParser_new fresh_shaker (conn (request firefox_lines)) [0] = Some (p', s', None) /\
  m_bClose p' = true.
Proof.
  refine (shakeHands_connection_list CWebSockParser_new fresh_shaker (conn (request firefox_lines)) [] firefox_lines []
    _ _ _ _ _ _); try (vm_compute; congruence || discriminate || reflexivity).
  - repeat apply Forall_cons; try apply Forall_nil; (split; [discriminate | vm_compute; intuition discriminate]).
  - vm_compute. intuition discriminate.
  - vm_compute. auto.
Defined.
