(* ===== verification/Session.v ===== *)
(** * Session: [CSession] (QBase/Session.cpp)

    One connection: its kind, its state, its identifier, which is the descriptor, and the
    buffers of its [bufferevent]. *)

From S2P Require Import Prelude Enum EventBuffer.

Section Session.
Context {B : Type}.

Record CSession := {
  m_emSessionType : Z;
  m_emStatus : Z;
  m_iSessionID : Z;
  m_uiPing : Z;
  m_strID : list Z;
  m_strAccount : list Z;
  m_strIDCard : list Z;
  m_objBuffer : CEventBuffer B
}.

(** The constructor; [setBuffer(NULL)] leaves the empty buffer. *)
Definition CSession_new : CSession :=
  {| m_emSessionType := STYPE_TCP; m_emStatus := SESSSTATUS_CLOSED; m_iSessionID := Q_INVALID_ID;
     m_uiPing := Q_INIT_NUMBER; m_strID := []; m_strAccount := []; m_strIDCard := [];
     m_objBuffer := CEventBuffer_new |}.

Definition setType (emType : Z) (s : CSession) : CSession :=
  {| m_emSessionType := emType; m_emStatus := m_emStatus s; m_iSessionID := m_iSessionID s;
     m_uiPing := m_uiPing s; m_strID := m_strID s; m_strAccount := m_strAccount s;
     m_strIDCard := m_strIDCard s; m_objBuffer := m_objBuffer s |}.

Definition luaSetType (iType : Z) (s : CSession) : CSession := setType iType s.

Definition setStatus (iStatus : Z) (s : CSession) : CSession :=
  {| m_emSessionType := m_emSessionType s; m_emStatus := iStatus; m_iSessionID := m_iSessionID s;
     m_uiPing := m_uiPing s; m_strID := m_strID s; m_strAccount := m_strAccount s;
     m_strIDCard := m_strIDCard s; m_objBuffer := m_objBuffer s |}.

Definition setSessionID (uiID : Z) (s : CSession) : CSession :=
  {| m_emSessionType := m_emSessionType s; m_emStatus := m_emStatus s; m_iSessionID := uiID;
     m_uiPing := m_uiPing s; m_strID := m_strID s; m_strAccount := m_strAccount s;
     m_strIDCard := m_strIDCard s; m_objBuffer := m_objBuffer s |}.

Definition setPing (uiPing : Z) (s : CSession) : CSession :=
  {| m_emSessionType := m_emSessionType s; m_emStatus := m_emStatus s; m_iSessionID := m_iSessionID s;
     m_uiPing := uiPing; m_strID := m_strID s; m_strAccount := m_strAccount s;
     m_strIDCard := m_strIDCard s; m_objBuffer := m_objBuffer s |}.

Definition setExterID (pszID : list Z) (s : CSession) : CSession :=
  {| m_emSessionType := m_emSessionType s; m_emStatus := m_emStatus s; m_iSessionID := m_iSessionID s;
     m_uiPing := m_uiPing s; m_strID := pszID; m_strAccount := m_strAccount s;
     m_strIDCard := m_strIDCard s; m_objBuffer := m_objBuffer s |}.

Definition setIDCard (pszID : list Z) (s : CSession) : CSession :=
  {| m_emSessionType := m_emSessionType s; m_emStatus := m_emStatus s; m_iSessionID := m_iSessionID s;
     m_uiPing := m_uiPing s; m_strID := m_strID s; m_strAccount := m_strAccount s;
     m_strIDCard := pszID; m_objBuffer := m_objBuffer s |}.

Definition setAccount (pszAccount : list Z) (s : CSession) : CSession :=
  {| m_emSessionType := m_emSessionType s; m_emStatus := m_emStatus s; m_iSessionID := m_iSessionID s;
     m_uiPing := m_uiPing s; m_strID := m_strID s; m_strAccount := pszAccount;
     m_strIDCard := m_strIDCard s; m_objBuffer := m_objBuffer s |}.

(** Working on the buffers through [getBuffer]. *)
Definition setBuf (b : CEventBuffer B) (s : CSession) : CSession :=
  {| m_emSessionType := m_emSessionType s; m_emStatus := m_emStatus s; m_iSessionID := m_iSessionID s;
     m_uiPing := m_uiPing s; m_strID := m_strID s; m_strAccount := m_strAccount s;
     m_strIDCard := m_strIDCard s; m_objBuffer := b |}.

Definition Clear (s : CSession) : CSession :=
  {| m_emSessionType := STYPE_TCP; m_emStatus := SESSSTATUS_CLOSED; m_iSessionID := Q_INVALID_ID;
     m_uiPing := Q_INIT_NUMBER; m_strID := []; m_strAccount := []; m_strIDCard := [];
     m_objBuffer := CEventBuffer_new |}.

(** [getSessionID] narrows the descriptor to an [int]. *)
Definition getSessionID (s : CSession) : Z := m_iSessionID s.

(** A cleared session is a new one, whatever it held. *)
Lemma Clear_new s : Clear s = CSession_new.
Proof. reflexivity. Qed.

End Session.

Arguments CSession : clear implicits.
