(* ===== verification/SessionManager.v ===== *)
(** * SessionManager: [CSessionManager] (QBase/SessionManager.cpp)

    The table of the connections.  A session is an object of the pool, found by descriptor;
    its [bufferevent] is owned by the table and freed exactly once.  The application, which
    is behind [CEventInterface], reacts to an event with calls of the manager's methods,
    and closing a session calls the application again. *)

From S2P Require Import Prelude Enum EventBuffer Session ObjectPool.
From S2P Require LinkOther BufferMgr CommEncrypt TcpParser WebSockParser.
From stdpp Require Import gmap sets list.
#[local] Open Scope Z_scope.

(** The methods an application calls while it handles an event. *)
Inductive api :=
| closeLink (iID : Z)
| closeCur
| sendCur (pszData : list Z)
| sendTo (iID : Z) (pszData : list Z)
| sessSetStatus (iID : Z) (iStatus : Z)
| sessSetType (iID : Z) (iType : Z).

(** [CEventInterface]: the application's state and what it does on an event. *)
Class App (A : Type) := {
  onSockRead : A -> list Z -> A * list api;
  onDebug : A -> list Z -> A * list api;
  onSockClose : A -> Z -> A * list api;
  onConnected : A -> Z -> A * list api;
  onLinkedOther : A -> Z -> A * list api;
  onTimerEvent : A -> A * list api
}.

(** An application that does not close sessions while it is told that one is closing. *)
Definition closes (a : api) : bool := match a with closeLink _ | closeCur => true | _ => false end.
Class QuietClose A {I : App A} :=
  quiet_close : forall (a : A) (iID : Z), Forall (fun x => closes x = false) (snd (onSockClose a iID)).

Section SessionManager.
Context {B : Type} {EB : EvBuffer B}.
Context {S : Type} {CI : CommEncrypt.Ciphers S} (new_char : Z -> option (list Z)).
Context {A : Type} {AP : App A}.
Context (SZ : nat) (Q_ERROR_NULLPOINTER Q_ERROR_INVALIDSOCK : Z).

(** The other singletons the methods reach: the links to other servers, the cipher chain and
    its keys, the application; and the parser that writes the heads of messages, with the
    memory behind it. *)
Record services := {
  s_links : list LinkOther.LinkInfo;
  s_comm : CommEncrypt.CCommEncrypt;
  s_ciphers : S;
  s_app : A;
  m_pInterface : bool;
  m_objTcpParser : TcpParser.CTcpParser;
  after : list Z
}.

(** [live] are the [bufferevent]s that have not been freed, with their descriptors; [bad]
    counts what is undefined in C++: a free of a [bufferevent] that is not live and the
    use of an iterator whose element is gone. *)
Record manager := {
  m_uiCount : Z;
  m_pCurrent : option addr;
  m_umapSession : gmap Z addr;
  m_objSessionPool : CObjPool (CSession B);
  live : gmap positive Z;
  bad : nat;
  srv : services
}.

Definition set_count (m : manager) (n : Z) : manager :=
  {| m_uiCount := n; m_pCurrent := m_pCurrent m; m_umapSession := m_umapSession m;
     m_objSessionPool := m_objSessionPool m; live := live m; bad := bad m; srv := srv m |}.
Definition setCurSession (m : manager) (pSession : option addr) : manager :=
  {| m_uiCount := m_uiCount m; m_pCurrent := pSession; m_umapSession := m_umapSession m;
     m_objSessionPool := m_objSessionPool m; live := live m; bad := bad m; srv := srv m |}.
Definition set_map (m : manager) (u : gmap Z addr) : manager :=
  {| m_uiCount := m_uiCount m; m_pCurrent := m_pCurrent m; m_umapSession := u;
     m_objSessionPool := m_objSessionPool m; live := live m; bad := bad m; srv := srv m |}.
Definition set_pool (m : manager) (p : CObjPool (CSession B)) : manager :=
  {| m_uiCount := m_uiCount m; m_pCurrent := m_pCurrent m; m_umapSession := m_umapSession m;
     m_objSessionPool := p; live := live m; bad := bad m; srv := srv m |}.
Definition set_live (m : manager) (l : gmap positive Z) (b : nat) : manager :=
  {| m_uiCount := m_uiCount m; m_pCurrent := m_pCurrent m; m_umapSession := m_umapSession m;
     m_objSessionPool := m_objSessionPool m; live := l; bad := b; srv := srv m |}.
Definition set_srv (m : manager) (s : services) : manager :=
  {| m_uiCount := m_uiCount m; m_pCurrent := m_pCurrent m; m_umapSession := m_umapSession m;
     m_objSessionPool := m_objSessionPool m; live := live m; bad := bad m; srv := s |}.

Definition set_app (s : services) (a : A) : services :=
  {| s_links := s_links s; s_comm := s_comm s; s_ciphers := s_ciphers s; s_app := a;
     m_pInterface := m_pInterface s; m_objTcpParser := m_objTcpParser s; after := after s |}.
Definition set_links (s : services) (l : list LinkOther.LinkInfo) : services :=
  {| s_links := l; s_comm := s_comm s; s_ciphers := s_ciphers s; s_app := s_app s;
     m_pInterface := m_pInterface s; m_objTcpParser := m_objTcpParser s; after := after s |}.
Definition set_comm (s : services) (c : CommEncrypt.CCommEncrypt) (k : S) : services :=
  {| s_links := s_links s; s_comm := c; s_ciphers := k; s_app := s_app s;
     m_pInterface := m_pInterface s; m_objTcpParser := m_objTcpParser s; after := after s |}.
Definition set_tcp (s : services) (p : TcpParser.CTcpParser) (l : list Z) : services :=
  {| s_links := s_links s; s_comm := s_comm s; s_ciphers := s_ciphers s; s_app := s_app s;
     m_pInterface := m_pInterface s; m_objTcpParser := p; after := l |}.

Definition fault (m : manager) : manager := set_live m (live m) (bad m + 1)%nat.

(** Reading and changing the object at an address. *)
Definition sess (m : manager) (a : addr) : CSession B := default CSession_new (heap (m_objSessionPool m) !! a).
Definition modify (m : manager) (a : addr) (f : CSession B -> CSession B) : manager :=
  set_pool m (set_obj (m_objSessionPool m) a (f (sess m a))).

(** libevent's [bufferevent_free], which closes the descriptor as well. *)
Definition bufferevent_free (m : manager) (b : option positive) : manager :=
  match b with
  | None => fault m
  | Some b => match live m !! b with
              | None => fault m
              | Some _ => set_live m (delete b (live m)) (bad m)
              end
  end.

(** ** The table *)

Definition addCount (m : manager) : manager := set_count m (w32 (m_uiCount m + 1)).

(** [bufferevent_getfd] of a live [bufferevent]. *)
Definition getfd (m : manager) (b : positive) : Z := default Q_INVALID_SOCK (live m !! b).

Definition dellSession (m : manager) (bev : positive) : manager :=
  let fd := getfd m bev in
  match m_umapSession m !! fd with
  | None => m
  | Some a =>
      let m := modify m a Clear in
      let m := set_pool m (Free (m_objSessionPool m) (Some a)) in
      set_map m (delete fd (m_umapSession m))
  end.

Definition addSession (m : manager) (bev : bufferevent B) : manager * Z :=
  let (p, a) := Malloc CSession_new (m_objSessionPool m) in
  let m := set_pool m p in
  let (buf, iRtn) := setBuffer Q_ERROR_NULLPOINTER Q_ERROR_INVALIDSOCK (m_objBuffer (sess m a)) (Some bev) in
  let m := modify m a (setBuf buf) in
  if negb (iRtn =? Q_RTN_OK) then
    let m := modify m a Clear in
    (set_pool m (Free (m_objSessionPool m) (Some a)), iRtn)
  else
    let fd := m_FD buf in
    let m := modify m a (setSessionID fd) in
    let m := modify m a (setPing (m_uiCount m)) in
    (set_map m (<[fd := a]> (m_umapSession m)), Q_RTN_OK).

Definition getSession (m : manager) (bev : positive) : option addr :=
  let fd := getfd m bev in
  if fd =? Q_INVALID_SOCK then None else m_umapSession m !! fd.

Definition getSessionByID (m : manager) (iID : Z) : option addr :=
  if Q_INVALID_SOCK =? iID then None else m_umapSession m !! iID.

Definition getSessionSize (m : manager) : Z := w32 (Z.of_nat (size (m_umapSession m))).

(** One step of the loop of [freeAllSession]. *)
Definition free_one (m : manager) (a : addr) : manager :=
  let m := bufferevent_free m (m_pBev (m_objBuffer (sess m a))) in
  set_pool m (Free (m_objSessionPool m) (Some a)).

Definition freeAllSession (m : manager) : manager :=
  let m := fold_left free_one (map snd (map_to_list (m_umapSession m))) m in
  set_map m ∅.

(** ** Sending *)

Definition writeSess (m : manager) (a : addr) (l : list Z) : manager * Z :=
  let (b, rc) := writeBuffer Q_ERROR_NULLPOINTER (m_objBuffer (sess m a)) (Some l) in
  (modify m a (setBuf b), rc).

(** The head, then the message when there is one. *)
Definition write_both (m : manager) (a : addr) (head msg : list Z) : manager * bool :=
  let (m, rc) := writeSess m a head in
  if negb (rc =? Q_RTN_OK) then (m, false)
  else match msg with
       | [] => (m, true)
       | _ => let (m, rc) := writeSess m a msg in (m, rc =? Q_RTN_OK)
       end.

Definition encode (m : manager) (pszData : list Z) (bSVLink : bool) : manager * option (list Z) :=
  let '(c, k, msg) := CommEncrypt.Encode new_char (s_comm (srv m)) (s_ciphers (srv m)) (Some pszData) bSVLink in
  (set_srv m (set_comm (srv m) c k), msg).

Definition sendWebSock (m : manager) (a : addr) (pszData : list Z) : manager * bool :=
  let (m, msg) := encode m pszData false in
  match msg with
  | None => (m, false)
  | Some msg => write_both m a (WebSockParser.ws_head true WSOCK_BINARYFRAME (Z.of_nat (length msg))) msg
  end.

Definition sendTcp (m : manager) (a : addr) (pszData : list Z) : manager * bool :=
  let bSVLink := m_emSessionType (sess m a) =? STYPE_TCPCLIENT in
  let (m, msg) := encode m pszData bSVLink in
  match msg with
  | None => (m, false)
  | Some msg =>
      let r := TcpParser.createHead SZ (m_objTcpParser (srv m)) (after (srv m)) (Z.of_nat (length msg)) in
      let '(p, l, _) := r in
      let m := set_srv m (set_tcp (srv m) p l) in
      write_both m a (TcpParser.sent_head r) msg
  end.

(** The dispatch on the kind of session. *)
Definition send (m : manager) (a : addr) (pszData : list Z) : manager * bool :=
  let t := m_emSessionType (sess m a) in
  if (t =? STYPE_DEBUG) || (t =? STYPE_TCPCLIENT) || (t =? STYPE_TCP) then sendTcp m a pszData
  else if t =? STYPE_WEBSOCK then sendWebSock m a pszData
  else (m, false).

Definition sendToCur (m : manager) (pszData : list Z) : manager * bool :=
  match m_pCurrent m with None => (m, false) | Some a => send m a pszData end.

Definition sendToByID (m : manager) (iID : Z) (pszData : list Z) : manager * bool :=
  if Q_INVALID_SOCK =? iID then (m, false)
  else match m_umapSession m !! iID with None => (m, false) | Some a => send m a pszData end.

(** ** Closing, and the application's reactions *)

(** [closeLinkByID]; [react] performs what the application does in [onSockClose]. *)
Definition closeLinkByID (react : manager -> list api -> option manager) (m : manager) (iID : Z)
  : option manager :=
  if Q_INVALID_SOCK =? iID then Some m
  else match m_umapSession m !! iID with
  | None => Some m
  | Some a =>
      let? m :=
        (if m_pInterface (srv m) then
           let (ap, acts) := onSockClose (s_app (srv m)) (getSessionID (sess m a)) in
           react (set_srv m (set_app (srv m) ap)) acts
         else Some m) in
      match m_umapSession m !! iID with
      | None => Some (fault m)
      | Some a =>
          let m := if m_emSessionType (sess m a) =? STYPE_TCPCLIENT then
                     set_srv m (set_links (srv m) (LinkOther.setSockStatus (s_links (srv m)) iID SESSSTATUS_CLOSED))
                   else m in
          let m := bufferevent_free m (m_pBev (m_objBuffer (sess m a))) in
          let m := modify m a Clear in
          let m := set_pool m (Free (m_objSessionPool m) (Some a)) in
          Some (set_map m (delete iID (m_umapSession m)))
      end
  end.

Definition closeCurLink (react : manager -> list api -> option manager) (m : manager) : option manager :=
  match m_pCurrent m with
  | None => Some m
  | Some a => closeLinkByID react m (getSessionID (sess m a))
  end.

Definition on_session (m : manager) (iID : Z) (f : CSession B -> CSession B) : manager :=
  match getSessionByID m iID with None => m | Some a => modify m a f end.

(** A reaction, call by call; [None] is a recursion deeper than the fuel. *)
Fixpoint perform (fuel : nat) (m : manager) (acts : list api) : option manager :=
  match fuel with
  | O => None
  | Datatypes.S f =>
      match acts with
      | [] => Some m
      | x :: r =>
          let? m :=
            match x with
            | closeLink iID => closeLinkByID (perform f) m iID
            | closeCur => closeCurLink (perform f) m
            | sendCur l => Some (fst (sendToCur m l))
            | sendTo iID l => Some (fst (sendToByID m iID l))
            | sessSetStatus iID st => Some (on_session m iID (setStatus st))
            | sessSetType iID t => Some (on_session m iID (luaSetType t))
            end in
          perform f m r
      end
  end.

(** ** The invariant *)

(** The session at [a] holds the connection with descriptor [fd]. *)
Definition owns (m : manager) (fd : Z) (a : addr) : Prop :=
  exists x b, heap (m_objSessionPool m) !! a = Some x /\ m_iSessionID x = fd /\ m_FD (m_objBuffer x) = fd /\
    m_pBev (m_objBuffer x) = Some b /\ live m !! b = Some fd /\
    m_pReadBuffer (m_objBuffer x) <> None /\ m_pWriteBuffer (m_objBuffer x) <> None.

(** Every session of the table owns a live [bufferevent] of its descriptor, the used objects
    of the pool are the sessions of the table, and every live [bufferevent] has its
    session, except the one, [X], a handler has in its hand.  Nothing undefined has
    happened. *)
Record ok (X : option positive) (m : manager) : Prop := {
  ok_pool : pool_ok (m_objSessionPool m);
  ok_map : forall fd a, m_umapSession m !! fd = Some a ->
    fd <> Q_INVALID_SOCK /\ a ∈ m_lstUsed (m_objSessionPool m) /\ owns m fd a;
  ok_used : forall a, a ∈ m_lstUsed (m_objSessionPool m) -> exists fd, m_umapSession m !! fd = Some a;
  ok_live : forall b fd, live m !! b = Some fd ->
    X = Some b \/ exists a, m_umapSession m !! fd = Some a /\ m_pBev (m_objBuffer (sess m a)) = Some b;
  ok_hand : forall b, X = Some b -> exists fd, live m !! b = Some fd /\ m_umapSession m !! fd = None;
  ok_cur : forall a, m_pCurrent m = Some a -> is_Some (heap (m_objSessionPool m) !! a);
  ok_bad : bad m = O
}.

Context (Hnull : Q_ERROR_NULLPOINTER <> Q_RTN_OK) (Hsock : Q_ERROR_INVALIDSOCK <> Q_RTN_OK).

Lemma owns_sess m fd a : owns m fd a -> exists b, m_iSessionID (sess m a) = fd /\
  m_pBev (m_objBuffer (sess m a)) = Some b /\ live m !! b = Some fd /\ is_Some (heap (m_objSessionPool m) !! a).
Proof.
  intros (x & b & H & H1 & _ & H3 & H4 & _). exists b. unfold sess. rewrite H. cbn. splits; eauto.
Qed.

(** One session for one descriptor. *)
Lemma map_injective X m fd fd' a : ok X m -> m_umapSession m !! fd = Some a -> m_umapSession m !! fd' = Some a ->
  fd = fd'.
Proof.
  intros Hok H H'. apply (ok_map _ _ Hok) in H as (_ & _ & H). apply (ok_map _ _ Hok) in H' as (_ & _ & H').
  apply owns_sess in H as (? & H & _). apply owns_sess in H' as (? & H' & _). congruence.
Qed.

(** *** Changes that leave the connections alone *)

(** Two sessions with the same identifier and the same [bufferevent]. *)
Definition same_link (x y : CSession B) : Prop :=
  m_iSessionID y = m_iSessionID x /\ m_FD (m_objBuffer y) = m_FD (m_objBuffer x) /\
  m_pBev (m_objBuffer y) = m_pBev (m_objBuffer x) /\
  (m_pReadBuffer (m_objBuffer x) <> None -> m_pReadBuffer (m_objBuffer y) <> None) /\
  (m_pWriteBuffer (m_objBuffer x) <> None -> m_pWriteBuffer (m_objBuffer y) <> None).

Lemma sess_modify_eq m a f : sess (modify m a f) a = f (sess m a).
Proof. unfold sess at 1. cbn. rewrite lookup_insert_eq. reflexivity. Qed.

Lemma sess_modify_ne m a f b : a <> b -> sess (modify m a f) b = sess m b.
Proof. intros H. unfold sess at 1. cbn. rewrite lookup_insert_ne by exact H. reflexivity. Qed.

Lemma modify_ok X m a f : ok X m -> is_Some (heap (m_objSessionPool m) !! a) ->
  same_link (sess m a) (f (sess m a)) -> ok X (modify m a f).
Proof.
  intros Hok [x Hx] (S1 & S2 & S3 & S4 & S5). destruct Hok as [H1 H2 H3 H4 H5 H6 H7].
  assert (Ex : sess m a = x) by (unfold sess; rewrite Hx; reflexivity).
  constructor; try assumption.
  - apply set_obj_ok; eauto.
  - intros fd a' Ha. destruct (H2 fd a' Ha) as (G1 & G2 & y & b & G3 & G4 & G5 & G6 & G7 & G8 & G9).
    splits; [exact G1 | exact G2 |]. destruct (decide (a' = a)) as [-> | Hne].
    + assert (Ey : y = x) by congruence. exists (f (sess m a)), b. cbn [modify set_pool m_objSessionPool live set_obj heap].
      rewrite lookup_insert_eq. rewrite Ex in *. subst y.
      splits; congruence || auto.
    + exists y, b. cbn [modify set_pool m_objSessionPool live set_obj heap]. rewrite lookup_insert_ne by congruence. splits; assumption.
  - intros b fd Hb. destruct (H4 b fd Hb) as [? | (a' & G1 & G2)]; [left; assumption | right].
    exists a'. split; [exact G1|]. destruct (decide (a = a')) as [<- | Hne].
    + rewrite sess_modify_eq. congruence.
    + rewrite sess_modify_ne by exact Hne. exact G2.
  - intros a' Ha. cbn [modify set_pool m_objSessionPool set_obj heap].
    destruct (decide (a = a')) as [<- | Hne]; [rewrite lookup_insert_eq; eauto|].
    rewrite lookup_insert_ne by exact Hne. apply H6, Ha.
Qed.

(** The services do not matter. *)
Lemma set_srv_ok X m s : ok X m -> ok X (set_srv m s).
Proof. intros [H1 H2 H3 H4 H5 H6 H7]. constructor; assumption. Qed.

Lemma set_count_ok X m n : ok X m -> ok X (set_count m n).
Proof. intros [H1 H2 H3 H4 H5 H6 H7]. constructor; assumption. Qed.

Lemma setCur_ok X m c : ok X m -> (forall a, c = Some a -> is_Some (heap (m_objSessionPool m) !! a)) ->
  ok X (setCurSession m c).
Proof. intros [H1 H2 H3 H4 H5 H6 H7] Hc. constructor; assumption. Qed.

Lemma mapped_heap X m fd a : ok X m -> m_umapSession m !! fd = Some a -> is_Some (heap (m_objSessionPool m) !! a).
Proof. intros Hok H. apply (ok_map _ _ Hok) in H as (_ & _ & H). apply owns_sess in H as (? & _ & _ & _ & H). exact H. Qed.

(** What a reaction without closing leaves as it was: the table, and of the sessions
    everything but state, kind and pending output. *)
Definition same_table (m m' : manager) : Prop :=
  m_umapSession m' = m_umapSession m /\ live m' = live m /\ m_pCurrent m' = m_pCurrent m /\
  s_app (srv m') = s_app (srv m) /\
  (forall a, is_Some (heap (m_objSessionPool m) !! a) -> is_Some (heap (m_objSessionPool m') !! a)) /\
  forall a, m_iSessionID (sess m' a) = m_iSessionID (sess m a) /\
            m_pBev (m_objBuffer (sess m' a)) = m_pBev (m_objBuffer (sess m a)) /\
            m_pReadBuffer (m_objBuffer (sess m' a)) = m_pReadBuffer (m_objBuffer (sess m a)).

Lemma same_table_refl m : same_table m m.
Proof. unfold same_table. splits; auto. Qed.

Lemma same_table_trans m1 m2 m3 : same_table m1 m2 -> same_table m2 m3 -> same_table m1 m3.
Proof.
  intros (A1 & A2 & A3 & A4 & A5 & A6) (C1 & C2 & C3 & C4 & C5 & C6). unfold same_table. splits; try congruence; auto.
  intros a. specialize (A6 a). specialize (C6 a). intuition congruence.
Qed.

Lemma writeBuffer_link (b : CEventBuffer B) l : let (b', _) := writeBuffer Q_ERROR_NULLPOINTER b l in
  m_FD b' = m_FD b /\ m_pBev b' = m_pBev b /\ m_pReadBuffer b' = m_pReadBuffer b /\
  (m_pWriteBuffer b <> None -> m_pWriteBuffer b' <> None).
Proof.
  unfold writeBuffer. destruct l as [l|]; [|cbn; splits; auto].
  destruct (m_pWriteBuffer b) as [w|] eqn:E; [|cbn; splits; congruence].
  destruct (evbuffer_add w l) as [w' rc]. cbn. splits; auto; discriminate.
Qed.

Lemma modify_same m a f : is_Some (heap (m_objSessionPool m) !! a) ->
  m_iSessionID (f (sess m a)) = m_iSessionID (sess m a) ->
  m_pBev (m_objBuffer (f (sess m a))) = m_pBev (m_objBuffer (sess m a)) ->
  m_pReadBuffer (m_objBuffer (f (sess m a))) = m_pReadBuffer (m_objBuffer (sess m a)) ->
  same_table m (modify m a f).
Proof.
  intros Ha H1 H2 H3. unfold same_table. splits; try reflexivity.
  - intros a' Ha'. cbn. destruct (decide (a = a')) as [<- | Hne]; [rewrite lookup_insert_eq; eauto|].
    rewrite lookup_insert_ne by exact Hne. exact Ha'.
  - intros a'. destruct (decide (a = a')) as [<- | Hne].
    + rewrite sess_modify_eq. auto.
    + rewrite sess_modify_ne by exact Hne. auto.
Qed.

Lemma writeSess_ok X m a l : ok X m -> is_Some (heap (m_objSessionPool m) !! a) ->
  ok X (fst (writeSess m a l)) /\ same_table m (fst (writeSess m a l)).
Proof.
  intros Hok Ha. unfold writeSess. pose proof (writeBuffer_link (m_objBuffer (sess m a)) (Some l)) as W.
  destruct (writeBuffer _ _ _) as [b rc]. destruct W as (W1 & W2 & W3 & W4). cbn [fst]. split.
  - apply modify_ok; [exact Hok | exact Ha|]. unfold same_link. cbn. rewrite W3. splits; auto.
  - apply modify_same; auto.
Qed.

Lemma write_both_ok X m a h l : ok X m -> is_Some (heap (m_objSessionPool m) !! a) ->
  ok X (fst (write_both m a h l)) /\ same_table m (fst (write_both m a h l)).
Proof.
  intros Hok Ha. unfold write_both. destruct (writeSess_ok X m a h Hok Ha) as [H1 H2].
  destruct (writeSess m a h) as [m1 rc]. cbn [fst] in *.
  destruct (negb _); [auto|]. destruct l as [|c l]; [auto|].
  destruct (writeSess_ok X m1 a (c :: l) H1) as [H3 H4]; [apply H2, Ha|].
  destruct (writeSess m1 a (c :: l)) as [m2 rc2]. cbn [fst] in *. eauto using same_table_trans.
Qed.

Lemma set_srv_same m s : s_app s = s_app (srv m) -> same_table m (set_srv m s).
Proof. intros H. unfold same_table. splits; auto. Qed.

Lemma encode_ok X m l sv : ok X m -> ok X (fst (encode m l sv)) /\ same_table m (fst (encode m l sv)).
Proof.
  intros Hok. unfold encode. destruct (CommEncrypt.Encode _ _ _ _ _) as [[c k] msg]. cbn [fst].
  auto using set_srv_ok, set_srv_same.
Qed.

Lemma send_ok X m a l : ok X m -> is_Some (heap (m_objSessionPool m) !! a) ->
  ok X (fst (send m a l)) /\ same_table m (fst (send m a l)).
Proof.
  intros Hok Ha. unfold send.
  destruct (_ || _ || _).
  - unfold sendTcp. destruct (encode_ok X m l (m_emSessionType (sess m a) =? STYPE_TCPCLIENT) Hok) as [H1 H2].
    destruct (encode m l _) as [m1 [msg|]]; cbn [fst] in *; [|auto].
    destruct (TcpParser.createHead _ _ _ _) as [[p af] n].
    destruct (write_both_ok X (set_srv m1 (set_tcp (srv m1) p af)) a (TcpParser.sent_head (p, af, n)) msg) as [H3 H4].
    + apply set_srv_ok, H1.
    + apply H2, Ha.
    + split; [exact H3|]. eapply same_table_trans; [exact H2|]. eapply same_table_trans; [|exact H4].
      apply set_srv_same. reflexivity.
  - destruct (_ =? _); [|auto using same_table_refl].
    unfold sendWebSock. destruct (encode_ok X m l false Hok) as [H1 H2].
    destruct (encode m l false) as [m1 [msg|]]; cbn [fst] in *; [|auto].
    destruct (write_both_ok X m1 a (WebSockParser.ws_head true WSOCK_BINARYFRAME (Z.of_nat (length msg))) msg) as [H3 H4];
      [exact H1 | apply H2, Ha|]. eauto using same_table_trans.
Qed.

(** *** Closing *)

(** The end of [closeLinkByID] and of [dellSession]: the session is cleared, returned to
    the pool and taken out of the table. *)
Definition drop (m : manager) (fd : Z) (a : addr) : manager :=
  let m := modify m a Clear in
  let m := set_pool m (Free (m_objSessionPool m) (Some a)) in
  set_map m (delete fd (m_umapSession m)).

Lemma drop_ok m fd a b : ok None m -> m_umapSession m !! fd = Some a ->
  m_pBev (m_objBuffer (sess m a)) = Some b -> live m !! b = Some fd -> ok (Some b) (drop m fd a).
Proof.
  intros Hok Ha Hb Hl. pose proof (map_injective None m) as Hinj.
  destruct (ok_map _ _ Hok fd a Ha) as (Hfd & Hu & Ho). pose proof (mapped_heap _ _ _ _ Hok Ha) as Hh.
  pose proof (ok_pool _ _ Hok) as HP.
  set (p1 := set_obj (m_objSessionPool m) a (Clear (sess m a))).
  assert (HP1 : pool_ok p1) by (apply set_obj_ok; assumption).
  destruct (Free_spec p1 a HP1) as (F1 & F2 & F3 & _). destruct (F3 Hu) as (F4 & F5 & F6).
  assert (Hs : forall c, c <> a -> heap (m_objSessionPool (drop m fd a)) !! c = heap (m_objSessionPool m) !! c).
  { intros c Hc. unfold drop. cbn [set_map set_pool modify m_objSessionPool]. fold p1. rewrite F2.
    cbn. apply lookup_insert_ne. congruence. }
  assert (Hss : forall c, c <> a -> sess (drop m fd a) c = sess m c)
    by (intros c Hc; unfold sess; rewrite Hs by exact Hc; reflexivity).
  constructor.
  - exact F1.
  - intros fd' a' Ha'. cbn in Ha'. apply lookup_delete_Some in Ha' as [Hne Ha'].
    assert (Hna : a' <> a) by (intros ->; apply Hne; eauto).
    destruct (ok_map _ _ Hok fd' a' Ha') as (G1 & G2 & x & b' & G3 & G4). splits; [exact G1 | |].
    + unfold drop. cbn [set_map set_pool m_objSessionPool modify]. fold p1.
      destruct (proj1 (F6 a') G2) as [? | ?]; [congruence | assumption].
    + exists x, b'. rewrite Hs by exact Hna. exact (conj G3 G4).
  - intros a' Ha'. unfold drop in Ha'. cbn [set_map set_pool m_objSessionPool modify] in Ha'. fold p1 in Ha'.
    assert (Hm : a' ∈ m_lstUsed (m_objSessionPool m)) by (apply (F6 a'); auto).
    destruct (ok_used _ _ Hok a' Hm) as [fd' Hf]. exists fd'. cbn. apply lookup_delete_Some. split; [|exact Hf].
    intros ->. assert (a' = a) by congruence. subst. contradiction.
  - intros b' fd' Hb'. cbn in Hb'. destruct (ok_live _ _ Hok b' fd' Hb') as [? | (a' & G1 & G2)]; [discriminate|].
    destruct (decide (a' = a)) as [-> | Hne].
    + left. congruence.
    + right. exists a'. rewrite Hss by exact Hne. split; [|exact G2]. cbn. apply lookup_delete_Some.
      split; [|exact G1]. intros ->. congruence.
  - intros b' Hb'. assert (b' = b) by congruence. subst b'. exists fd. split; [exact Hl|]. cbn. apply lookup_delete_eq.
  - intros c Hc. destruct (decide (c = a)) as [-> | Hne].
    + unfold drop. cbn [set_map set_pool modify m_objSessionPool]. fold p1. rewrite F2. cbn. rewrite lookup_insert_eq. eauto.
    + rewrite Hs by exact Hne. apply (ok_cur _ _ Hok), Hc.
  - apply (ok_bad _ _ Hok).
Qed.

Lemma free_ok m b : ok (Some b) m -> ok None (bufferevent_free m (Some b)).
Proof.
  intros [H1 H2 H3 H4 H5 H6 H7]. destruct (H5 b eq_refl) as (fd & L1 & L2). unfold bufferevent_free. rewrite L1.
  constructor; try assumption.
  - intros fd' a Ha. destruct (H2 fd' a Ha) as (G1 & G2 & x & b' & G3 & G4 & G5 & G6 & G7 & G8). splits; auto.
    cbn in Ha. exists x, b'. cbn. rewrite lookup_delete_ne by (intros ->; congruence). destruct G8; splits; assumption.
  - intros b' fd' Hb'. cbn in Hb'. apply lookup_delete_Some in Hb' as [Hne Hb'].
    destruct (H4 b' fd' Hb') as [? | ?]; [congruence | right; assumption].
  - discriminate.
Qed.

(** The end of [closeLinkByID]. *)
Lemma close_tail_ok m fd a : ok None m -> m_umapSession m !! fd = Some a ->
  ok None (let m := bufferevent_free m (m_pBev (m_objBuffer (sess m a))) in
           let m := modify m a Clear in
           let m := set_pool m (Free (m_objSessionPool m) (Some a)) in
           set_map m (delete fd (m_umapSession m))).
Proof.
  intros Hok Ha. destruct (ok_map _ _ Hok fd a Ha) as (_ & _ & Ho).
  destruct (owns_sess m fd a Ho) as (b & _ & Hb & Hl & _).
  pose proof (free_ok _ _ (drop_ok m fd a b Hok Ha Hb Hl)) as H.
  unfold bufferevent_free in H |- *. cbn [drop live set_map set_pool modify] in H. rewrite Hb, Hl in *. exact H.
Qed.

Lemma dellSession_ok m bev : ok None m -> is_Some (getSession m bev) -> is_Some (live m !! bev) ->
  ok (Some bev) (dellSession m bev).
Proof.
  clear new_char. intros Hok [a Ha] [fd Hfd]. unfold dellSession, getSession, getfd in *. rewrite Hfd in *. cbn [default] in *.
  unfold Datatypes.id in *. destruct (fd =? Q_INVALID_SOCK); [discriminate|]. rewrite Ha.
  destruct (ok_live _ _ Hok bev fd Hfd) as [? | (a' & G1 & G2)]; [discriminate|].
  assert (a' = a) by congruence. subst a'. exact (drop_ok m fd a bev Hok Ha G2 Hfd).
Qed.

(** *** Opening *)

Lemma Malloc_ok X m p a : ok X m -> Malloc CSession_new (m_objSessionPool m) = (p, a) ->
  (a ∉ m_lstUsed (m_objSessionPool m)) /\ pool_ok p /\ m_lstUsed p = m_lstUsed (m_objSessionPool m) ++ [a] /\
  is_Some (heap p !! a) /\ forall c, is_Some (heap (m_objSessionPool m) !! c) ->
    heap p !! c = heap (m_objSessionPool m) !! c.
Proof.
  intros Hok E. pose proof (Malloc_spec CSession_new _ (ok_pool _ _ Hok)) as H. rewrite E in H.
  destruct H as (G1 & G2 & G3 & G4 & G5 & _). auto.
Qed.

(** The new session before it is entered: an object nobody owns. *)
Lemma fresh_entry m p a x b fd : ok (Some b) m -> Malloc CSession_new (m_objSessionPool m) = (p, a) ->
  live m !! b = Some fd -> fd <> Q_INVALID_SOCK ->
  m_iSessionID x = fd -> m_FD (m_objBuffer x) = fd -> m_pBev (m_objBuffer x) = Some b ->
  m_pReadBuffer (m_objBuffer x) <> None -> m_pWriteBuffer (m_objBuffer x) <> None ->
  ok None (set_map (set_pool m (set_obj p a x)) (<[fd := a]> (m_umapSession m))).
Proof.
  intros Hok E Hl Hfd X1 X2 X3 X4 X5.
  destruct (Malloc_ok _ _ _ _ Hok E) as (M1 & M2 & M3 & M4 & M5).
  destruct (ok_hand _ _ Hok b eq_refl) as (fd' & L1 & L2). assert (fd' = fd) by congruence. subst fd'.
  assert (Hne : forall fd' a', m_umapSession m !! fd' = Some a' -> a' <> a /\ fd' <> fd).
  { intros fd' a' Ha'. split; [intros -> | intros ->; congruence].
    apply M1. exact (proj1 (proj2 (ok_map _ _ Hok fd' a Ha'))). }
  constructor.
  - apply set_obj_ok; assumption.
  - intros fd' a' Ha'. cbn in Ha'. apply lookup_insert_Some in Ha' as [[<- <-] | [Hn Ha']].
    + splits; [exact Hfd | cbn; rewrite M3; apply elem_of_app; right; left |].
      exists x, b. cbn. rewrite lookup_insert_eq. splits; auto.
    + destruct (ok_map _ _ Hok fd' a' Ha') as (G1 & G2 & y & b' & G3 & G4). splits; [exact G1 | |].
      * cbn. rewrite M3. apply elem_of_app. auto.
      * exists y, b'. cbn. rewrite lookup_insert_ne by (apply not_eq_sym, (Hne fd'), Ha'). rewrite M5 by eauto. auto.
  - intros a' Ha'. cbn in Ha'. rewrite M3 in Ha'. apply elem_of_app in Ha' as [Ha' | Ha'%list_elem_of_singleton].
    + destruct (ok_used _ _ Hok a' Ha') as [fd' Hf]. exists fd'. cbn.
      rewrite lookup_insert_ne by (apply not_eq_sym, (Hne fd' a'), Hf). exact Hf.
    + subst a'. exists fd. apply lookup_insert_eq.
  - intros b' fd' Hb'. cbn in Hb'. right. destruct (ok_live _ _ Hok b' fd' Hb') as [E' | (a' & G1 & G2)].
    + assert (b' = b) by congruence. subst b'. assert (fd' = fd) by congruence. subst fd'. exists a.
      unfold sess. cbn. rewrite !lookup_insert_eq. auto.
    + exists a'. destruct (Hne fd' a' G1) as [N1 N2]. unfold sess. cbn. rewrite !lookup_insert_ne by congruence.
      split; [exact G1|]. rewrite M5 by (eapply mapped_heap; eauto). exact G2.
  - discriminate.
  - intros c Hc. cbn. destruct (decide (a = c)) as [<- | Hn]; [rewrite lookup_insert_eq; eauto|].
    rewrite lookup_insert_ne by exact Hn. pose proof (ok_cur _ _ Hok c Hc). rewrite M5; assumption.
  - apply (ok_bad _ _ Hok).
Qed.

(** A session taken from the pool and given back. *)
Lemma returned_ok X m p a x : ok X m -> Malloc CSession_new (m_objSessionPool m) = (p, a) ->
  ok X (set_pool m (Free (set_obj p a x) (Some a))).
Proof.
  clear new_char. intros Hok E. destruct (Malloc_ok _ _ _ _ Hok E) as (M1 & M2 & M3 & M4 & M5).
  assert (P1 : pool_ok (set_obj p a x)) by (apply set_obj_ok; assumption).
  destruct (Free_spec _ a P1) as (F1 & F2 & F3 & _).
  assert (Hu : a ∈ m_lstUsed (set_obj p a x)) by (cbn; rewrite M3; apply elem_of_app; right; left).
  destruct (F3 Hu) as (F4 & _ & F6).
  assert (Hused : forall c, c ∈ m_lstUsed (Free (set_obj p a x) (Some a)) <-> c ∈ m_lstUsed (m_objSessionPool m)).
  { intros c. specialize (F6 c). cbn [set_obj m_lstUsed] in F6. rewrite M3, elem_of_app, list_elem_of_singleton in F6.
    split; intros Hc.
    - assert (c <> a) by (intros ->; contradiction). tauto.
    - assert (c <> a) by (intros ->; contradiction). tauto. }
  assert (Hh : forall c, is_Some (heap (m_objSessionPool m) !! c) -> c <> a ->
            heap (Free (set_obj p a x) (Some a)) !! c = heap (m_objSessionPool m) !! c).
  { intros c Hc Hn. rewrite F2. cbn. rewrite lookup_insert_ne by congruence. apply M5, Hc. }
  assert (Hna : forall fd c, m_umapSession m !! fd = Some c -> c <> a).
  { intros fd c Hc ->. apply M1. exact (proj1 (proj2 (ok_map _ _ Hok fd a Hc))). }
  constructor.
  - exact F1.
  - intros fd c Hc. destruct (ok_map _ _ Hok fd c Hc) as (G1 & G2 & y & b & G3 & G4). splits; [exact G1 | |].
    + apply Hused, G2.
    + exists y, b. cbn [set_pool m_objSessionPool live]. rewrite Hh by eauto. auto.
  - intros c Hc. apply Hused in Hc. exact (ok_used _ _ Hok c Hc).
  - intros b fd Hb. destruct (ok_live _ _ Hok b fd Hb) as [? | (c & G1 & G2)]; [left; assumption | right].
    exists c. split; [exact G1|]. unfold sess. cbn [set_pool m_objSessionPool].
    rewrite Hh by eauto using mapped_heap. exact G2.
  - apply (ok_hand _ _ Hok).
  - intros c Hc. pose proof (ok_cur _ _ Hok c Hc) as Hs. cbn [set_pool m_objSessionPool].
    destruct (decide (c = a)) as [-> | Hn]; [|rewrite Hh; assumption].
    rewrite F2. cbn. rewrite lookup_insert_eq. eauto.
  - apply (ok_bad _ _ Hok).
Qed.

Lemma set_obj_twice (p : CObjPool (CSession B)) a x y : set_obj (set_obj p a x) a y = set_obj p a y.
Proof. unfold set_obj. cbn. rewrite insert_insert_eq. reflexivity. Qed.

Lemma modify_modify m a f g : modify (modify m a f) a g = modify m a (fun x => g (f x)).
Proof.
  unfold modify at 1. rewrite sess_modify_eq. unfold modify, set_pool. cbn. rewrite set_obj_twice. reflexivity.
Qed.

(** [addSession]: the connection in hand is entered into the table, or nothing has changed
    and the connection is still in hand. *)
Lemma addSession_ok m bev fd : ok (Some (bev_addr bev)) m -> live m !! bev_addr bev = Some fd ->
  bufferevent_getfd bev = fd ->
  let (m', rc) := addSession m bev in
  live m' = live m /\ srv m' = srv m /\ m_pCurrent m' = m_pCurrent m /\
  if rc =? Q_RTN_OK then ok None m' /\ exists a, m_umapSession m' = <[fd := a]> (m_umapSession m)
  else ok (Some (bev_addr bev)) m' /\ m_umapSession m' = m_umapSession m.
Proof.
  clear new_char. intros Hok Hl Hfd. unfold addSession. destruct (Malloc _ _) as [p a] eqn:E.
  pose proof (Malloc_ok _ _ _ _ Hok E) as (M1 & M2 & M3 & M4 & M5).
  destruct (setBuffer _ _ _ _) as [buf rc] eqn:Eb.
  destruct (Z.eqb_spec rc Q_RTN_OK) as [->|Hrc]; cbn [negb].
  - destruct (setBuffer_ok _ _ _ _ _ Eb Hnull Hsock) as (B1 & B2 & B3 & B4 & B5 & B6 & B7).
    rewrite !modify_modify. rewrite B2, Hfd. rewrite Z.eqb_refl. splits; try reflexivity.
    + apply (fresh_entry m p a _ (bev_addr bev) fd); auto; cbn; congruence.
    + exists a. reflexivity.
  - rewrite (proj2 (Z.eqb_neq _ _) Hrc). rewrite !modify_modify. splits; try reflexivity.
    exact (returned_ok _ m p a _ Hok E).
Qed.

(** ** Reactions *)

Lemma on_session_ok m iID f : ok None m -> (forall x, same_link x (f x)) -> (forall x, m_objBuffer (f x) = m_objBuffer x) ->
  ok None (on_session m iID f) /\ same_table m (on_session m iID f).
Proof.
  intros Hok Hf Hb. unfold on_session, getSessionByID. destruct (Q_INVALID_SOCK =? iID); [auto using same_table_refl|].
  destruct (m_umapSession m !! iID) as [a|] eqn:Ea; [|auto using same_table_refl].
  pose proof (mapped_heap _ _ _ _ Hok Ea) as Hh. split; [apply modify_ok; auto|].
  apply modify_same; [exact Hh | apply Hf | rewrite Hb; reflexivity | rewrite Hb; reflexivity].
Qed.

Lemma status_link x st : same_link x (setStatus st x).
Proof. unfold same_link. cbn. splits; auto. Qed.

Lemma type_link x t : same_link x (luaSetType t x).
Proof. unfold same_link. cbn. splits; auto. Qed.

(** A call that closes nothing. *)
Lemma quiet_call m x : ok None m -> closes x = false -> exists m',
  (forall react, match x with
     | closeLink iID => closeLinkByID react m iID
     | closeCur => closeCurLink react m
     | sendCur l => Some (fst (sendToCur m l))
     | sendTo iID l => Some (fst (sendToByID m iID l))
     | sessSetStatus iID st => Some (on_session m iID (setStatus st))
     | sessSetType iID t => Some (on_session m iID (luaSetType t))
     end = Some m') /\ ok None m' /\ same_table m m'.
Proof.
  intros Hok Hx. destruct x as [? | | l | iID l | iID st | iID t]; try discriminate Hx.
  - eexists. split; [reflexivity|]. unfold sendToCur. destruct (m_pCurrent m) as [a|] eqn:Ea.
    + apply send_ok; [exact Hok | apply (ok_cur _ _ Hok), Ea].
    + auto using same_table_refl.
  - eexists. split; [reflexivity|]. unfold sendToByID. destruct (_ =? _); [auto using same_table_refl|].
    destruct (m_umapSession m !! iID) as [a|] eqn:Ea; [|auto using same_table_refl].
    apply send_ok; [exact Hok | eapply mapped_heap; eauto].
  - eexists. split; [reflexivity|]. apply on_session_ok; auto using status_link.
  - eexists. split; [reflexivity|]. apply on_session_ok; auto using type_link.
Qed.

Lemma perform_quiet acts : forall m, ok None m -> Forall (fun x => closes x = false) acts ->
  exists m', (forall fuel, (length acts < fuel)%nat -> perform fuel m acts = Some m') /\
             ok None m' /\ same_table m m'.
Proof.
  induction acts as [|x r IH]; intros m Hok Hq.
  - exists m. split; [|auto using same_table_refl]. intros [|f] Hf; [cbn in Hf; lia | reflexivity].
  - inversion Hq as [|? ? Hx Hr]; subst. destruct (quiet_call m x Hok Hx) as (m1 & E1 & O1 & T1).
    destruct (IH m1 O1 Hr) as (m2 & E2 & O2 & T2). exists m2. splits; eauto using same_table_trans.
    intros [|f] Hf; [cbn in Hf; lia|]. cbn [perform]. rewrite E1. cbn [obind]. apply E2. cbn in Hf. lia.
Qed.

(** ** Reactions that only send *)

Definition sends (x : api) : bool := match x with sendCur _ | sendTo _ _ => true | _ => false end.

(** No ciphers for the clients: messages are sent as they are. *)
Definition plain (m : manager) : Prop := CommEncrypt.m_vcClinetType (s_comm (srv m)) = [].

Definition same_kind (m m' : manager) : Prop :=
  (forall a, m_emStatus (sess m' a) = m_emStatus (sess m a) /\ m_emSessionType (sess m' a) = m_emSessionType (sess m a)) /\
  (plain m -> plain m').

Lemma same_kind_refl m : same_kind m m.
Proof. split; auto. Qed.

Lemma same_kind_trans m1 m2 m3 : same_kind m1 m2 -> same_kind m2 m3 -> same_kind m1 m3.
Proof. intros [A1 A2] [C1 C2]. split; [|auto]. intros a. destruct (A1 a), (C1 a). split; congruence. Qed.

Lemma writeSess_kind m a l : same_kind m (fst (writeSess m a l)).
Proof.
  unfold writeSess. destruct (writeBuffer _ _ _) as [b rc]. split; [|auto]. intros c. cbn [fst].
  destruct (decide (a = c)) as [<- | Hn]; [rewrite sess_modify_eq | rewrite sess_modify_ne by exact Hn]; auto.
Qed.

Lemma write_both_kind m a h l : same_kind m (fst (write_both m a h l)).
Proof.
  unfold write_both. pose proof (writeSess_kind m a h) as H. destruct (writeSess m a h) as [m1 rc]. cbn [fst] in H.
  destruct (negb _); [exact H|]. destruct l as [|c l]; [exact H|].
  pose proof (writeSess_kind m1 a (c :: l)) as H1. destruct (writeSess m1 a (c :: l)). eapply same_kind_trans; eauto.
Qed.

Lemma encode_kind m l sv : same_kind m (fst (encode m l sv)).
Proof.
  unfold encode. split; [intros a; destruct (CommEncrypt.Encode _ _ _ _ _) as [[c k] msg]; auto|].
  unfold plain, CommEncrypt.Encode. intros H. rewrite H. exact H.
Qed.

Lemma send_kind m a l : same_kind m (fst (send m a l)).
Proof.
  unfold send. destruct (_ || _ || _).
  - unfold sendTcp. pose proof (encode_kind m l (m_emSessionType (sess m a) =? STYPE_TCPCLIENT)) as H.
    destruct (encode m l _) as [m1 [msg|]]; cbn [fst] in H; [|exact H].
    destruct (TcpParser.createHead _ _ _ _) as [[p af] n]. eapply same_kind_trans; [exact H|].
    eapply same_kind_trans; [|apply write_both_kind]. split; auto.
  - destruct (_ =? _); [|apply same_kind_refl]. unfold sendWebSock. pose proof (encode_kind m l false) as H.
    destruct (encode m l false) as [m1 [msg|]]; cbn [fst] in H; [|exact H].
    eapply same_kind_trans; [exact H | apply write_both_kind].
Qed.

Lemma perform_sends acts : forall m, ok None m -> Forall (fun x => sends x = true) acts ->
  exists m', (forall fuel, (length acts < fuel)%nat -> perform fuel m acts = Some m') /\
             ok None m' /\ same_table m m' /\ same_kind m m'.
Proof.
  induction acts as [|x r IH]; intros m Hok Hq.
  - exists m. splits; auto using same_table_refl, same_kind_refl. intros [|f] Hf; [cbn in Hf; lia | reflexivity].
  - inversion Hq as [|? ? Hx Hr]; subst. assert (Hc : closes x = false) by (destruct x; easy).
    destruct (quiet_call m x Hok Hc) as (m1 & E1 & O1 & T1).
    assert (K1 : same_kind m m1).
    { specialize (E1 (fun _ _ => None)). destruct x as [? | | l | iID l | iID st | iID t]; try discriminate Hx; injection E1 as <-.
      - unfold sendToCur. destruct (m_pCurrent m); [apply send_kind | apply same_kind_refl].
      - unfold sendToByID. destruct (_ =? _); [apply same_kind_refl|].
        destruct (_ !! iID); [apply send_kind | apply same_kind_refl]. }
    destruct (IH m1 O1 Hr) as (m2 & E2 & O2 & T2 & K2). exists m2.
    splits; eauto using same_table_trans, same_kind_trans.
    intros [|f] Hf; [cbn in Hf; lia|]. cbn [perform]. rewrite E1. cbn [obind]. apply E2. cbn in Hf. lia.
Qed.

Context {QC : QuietClose A}.

(** Objects of the pool stay objects of the pool. *)
Definition grows (m m' : manager) : Prop :=
  forall a, is_Some (heap (m_objSessionPool m) !! a) -> is_Some (heap (m_objSessionPool m') !! a).

Lemma heap_Free (p : CObjPool (CSession B)) a : heap (Free p a) = heap p.
Proof. unfold Free. destruct a as [a|]; [|reflexivity]. destruct (erase a _); reflexivity. Qed.

Lemma grows_modify m a f : grows m (modify m a f).
Proof.
  intros c Hc. cbn. destruct (decide (a = c)) as [<- | Hn]; [rewrite lookup_insert_eq; eauto|].
  rewrite lookup_insert_ne by exact Hn. exact Hc.
Qed.

Lemma bufferevent_free_pool m b : m_objSessionPool (bufferevent_free m b) = m_objSessionPool m /\
  m_umapSession (bufferevent_free m b) = m_umapSession m /\ m_pCurrent (bufferevent_free m b) = m_pCurrent m.
Proof. unfold bufferevent_free. destruct b as [b|]; [destruct (live m !! b)|]; auto. Qed.

Lemma grows_drop m b fd a : grows m (drop (bufferevent_free m b) fd a).
Proof.
  intros c Hc. unfold drop. cbn [set_map set_pool m_objSessionPool]. rewrite heap_Free.
  apply grows_modify. destruct (bufferevent_free_pool m b) as (-> & _). exact Hc.
Qed.

(** Closing a session: its object is cleared and back in the pool, its [bufferevent] freed, the
    others stay as they are. *)
Lemma closeLinkByID_ok m iID : ok None m -> exists n m',
  (forall fuel, (n <= fuel)%nat -> closeLinkByID (perform fuel) m iID = Some m') /\ ok None m' /\
  m_umapSession m' = delete iID (m_umapSession m) /\ m_pCurrent m' = m_pCurrent m /\ grows m m'.
Proof.
  intros Hok. unfold closeLinkByID.
  assert (Hid : m_umapSession m !! iID = None -> m_umapSession m = delete iID (m_umapSession m))
    by (intros H; symmetry; apply delete_id, H).
  destruct (Z.eqb_spec Q_INVALID_SOCK iID) as [<-|Hn].
  { exists O, m. splits; auto; [|intros c Hc; exact Hc]. apply Hid. destruct (m_umapSession m !! Q_INVALID_SOCK) as [a|] eqn:Ea; [|reflexivity].
    destruct (ok_map _ _ Hok _ _ Ea) as [H _]. congruence. }
  destruct (m_umapSession m !! iID) as [a|] eqn:Ea.
  2:{ exists O, m. splits; auto. intros c Hc; exact Hc. }
  assert (HR : exists n m1, (forall fuel, (n <= fuel)%nat ->
      (if m_pInterface (srv m) then
         let (ap, acts) := onSockClose (s_app (srv m)) (getSessionID (sess m a)) in
         perform fuel (set_srv m (set_app (srv m) ap)) acts
       else Some m) = Some m1) /\ ok None m1 /\ m_umapSession m1 = m_umapSession m /\ m_pCurrent m1 = m_pCurrent m /\ grows m m1).
  { destruct (m_pInterface (srv m)); [|exists O, m; splits; auto; intros c Hc; exact Hc].
    pose proof (QC (s_app (srv m)) (getSessionID (sess m a))) as Hq.
    destruct (onSockClose _ _) as [ap acts]. cbn [snd] in Hq.
    destruct (perform_quiet acts (set_srv m (set_app (srv m) ap)) (set_srv_ok _ _ _ Hok) Hq) as (m1 & E1 & O1 & T1).
    exists (Datatypes.S (length acts)), m1. splits; [|exact O1 | apply T1 | apply T1 | exact (proj1 (proj2 (proj2 (proj2 (proj2 T1)))))].
    intros fuel Hf. apply E1. lia. }
  destruct HR as (n & m1 & E1 & O1 & T1 & T2 & G1).
  set (m2 := if m_emSessionType (sess m1 a) =? STYPE_TCPCLIENT then
               set_srv m1 (set_links (srv m1) (LinkOther.setSockStatus (s_links (srv m1)) iID SESSSTATUS_CLOSED))
             else m1).
  assert (O2 : ok None m2) by (subst m2; destruct (_ =? _); auto using set_srv_ok).
  assert (T3 : m_umapSession m2 = m_umapSession m /\ m_pCurrent m2 = m_pCurrent m)
    by (subst m2; destruct (_ =? _); auto).
  destruct T3 as [T3 T4].
  pose proof (close_tail_ok m2 iID a O2 ltac:(congruence)) as O3.
  destruct (bufferevent_free_pool m2 (m_pBev (m_objBuffer (sess m2 a)))) as (_ & H1 & H2).
  assert (G2 : grows m m2) by (subst m2; destruct (_ =? _); exact G1).
  eexists n, _. splits; [| exact O3 | cbn; rewrite H1, T3; reflexivity | cbn; congruence |].
  2:{ intros c Hc. apply G2 in Hc. exact (grows_drop m2 _ iID a c Hc). }
  intros fuel Hf. rewrite (E1 fuel Hf). cbn [obind]. rewrite T1, Ea. reflexivity.
Qed.

(** Every reaction ends and keeps the invariant. *)
Lemma perform_ok acts : forall m, ok None m -> exists n m',
  (forall fuel, (n <= fuel)%nat -> perform fuel m acts = Some m') /\ ok None m' /\
  m_pCurrent m' = m_pCurrent m /\ grows m m'.
Proof.
  induction acts as [|x r IH]; intros m Hok.
  - exists 1%nat, m. splits; auto; [|intros c Hc; exact Hc]. intros [|f] Hf; [lia | reflexivity].
  - assert (HS : exists n m1, (forall f, (n <= f)%nat -> match x with
       | closeLink iID => closeLinkByID (perform f) m iID
       | closeCur => closeCurLink (perform f) m
       | sendCur l => Some (fst (sendToCur m l))
       | sendTo iID l => Some (fst (sendToByID m iID l))
       | sessSetStatus iID st => Some (on_session m iID (setStatus st))
       | sessSetType iID t => Some (on_session m iID (luaSetType t))
       end = Some m1) /\ ok None m1 /\ m_pCurrent m1 = m_pCurrent m /\ grows m m1).
    { destruct (closes x) eqn:Ex.
      - destruct x as [iID | | | | |]; try discriminate Ex.
        + destruct (closeLinkByID_ok m iID Hok) as (n & m1 & E1 & O1 & _ & T1 & G1). exists n, m1. auto.
        + unfold closeCurLink. destruct (m_pCurrent m) as [a|] eqn:Ea; [|exists O, m; splits; auto; intros c Hc; exact Hc].
          destruct (closeLinkByID_ok m (getSessionID (sess m a)) Hok) as (n & m1 & E1 & O1 & _ & T1 & G1).
          exists n, m1. splits; auto. congruence.
      - destruct (quiet_call m x Hok Ex) as (m1 & E1 & O1 & T1). exists O, m1.
        splits; auto; [apply T1 | exact (proj1 (proj2 (proj2 (proj2 (proj2 T1)))))]. }
    destruct HS as (n1 & m1 & E1 & O1 & T1 & G1). destruct (IH m1 O1) as (n2 & m2 & E2 & O2 & T2 & G2).
    exists (Datatypes.S (Nat.max n1 n2)), m2. splits; [|exact O2 | congruence | intros c Hc; apply G2, G1, Hc].
    intros [|f] Hf; [lia|]. cbn [perform]. rewrite (E1 f) by lia. cbn [obind]. apply E2. lia.
Qed.

(** More fuel changes nothing. *)
Lemma closeLinkByID_mono r r' m iID m' : (forall m acts m', r m acts = Some m' -> r' m acts = Some m') ->
  closeLinkByID r m iID = Some m' -> closeLinkByID r' m iID = Some m'.
Proof.
  intros Hr. unfold closeLinkByID. destruct (_ =? iID); [auto|]. destruct (m_umapSession m !! iID) as [a|]; [|auto].
  destruct (m_pInterface (srv m)); [|auto]. destruct (onSockClose _ _) as [ap acts].
  destruct (r _ acts) as [m1|] eqn:E1; [|discriminate]. rewrite (Hr _ _ _ E1). auto.
Qed.

Lemma perform_mono f : forall f' m acts m', (f <= f')%nat -> perform f m acts = Some m' -> perform f' m acts = Some m'.
Proof.
  induction f as [|f IH]; intros f' m acts m' Hf; [discriminate|]. destruct f' as [|f']; [lia|].
  destruct acts as [|x r]; [auto|]. cbn [perform].
  assert (Hc : forall m m1 iID, closeLinkByID (perform f) m iID = Some m1 -> closeLinkByID (perform f') m iID = Some m1)
    by (intros ? ? ?; apply closeLinkByID_mono; intros; apply IH; [lia | assumption]).
  assert (Hx : forall o o' : option manager, (forall m1, o = Some m1 -> o' = Some m1) ->
    (let? m1 := o in perform f m1 r) = Some m' -> (let? m1 := o' in perform f' m1 r) = Some m').
  { intros o o' Ho. destruct o as [m1|]; [|discriminate]. rewrite (Ho m1 eq_refl). cbn [obind]. apply IH. lia. }
  apply Hx. intros m1. destruct x; auto. unfold closeCurLink. destruct (m_pCurrent m); auto.
Qed.

(** Whatever fuel a reaction was given, what it returns is what it computes. *)
Lemma perform_some f m acts m' : ok None m -> perform f m acts = Some m' ->
  ok None m' /\ m_pCurrent m' = m_pCurrent m /\ grows m m'.
Proof.
  intros Hok H. destruct (perform_ok acts m Hok) as (n & m1 & E1 & O1 & T1 & G1).
  apply (perform_mono f (Nat.max f n)) in H; [|lia]. rewrite E1 in H by lia. injection H as <-. auto.
Qed.

(** The reaction to [onSockClose] leaves the table as it is. *)
Lemma perform_quiet_some f m acts m' : ok None m -> Forall (fun x => closes x = false) acts ->
  perform f m acts = Some m' -> ok None m' /\ same_table m m'.
Proof.
  intros Hok Hq H. destruct (perform_quiet acts m Hok Hq) as (m1 & E1 & O1 & T1).
  apply (perform_mono f (Nat.max f (Datatypes.S (length acts)))) in H; [|lia].
  rewrite E1 in H by lia. injection H as <-. auto.
Qed.

(** A new connection, before it is entered. *)
Lemma hand_ok m b fd : ok None m -> live m !! b = None -> m_umapSession m !! fd = None ->
  ok (Some b) (set_live m (<[b := fd]> (live m)) (bad m)).
Proof.
  intros [H1 H2 H3 H4 H5 H6 H7] Hb Hfd. constructor; try assumption.
  - intros fd' a Ha. destruct (H2 fd' a Ha) as (G1 & G2 & x & b' & G3 & G4 & G5 & G6 & G7 & G8). splits; auto.
    exists x, b'. cbn. rewrite lookup_insert_ne by congruence. destruct G8; splits; assumption.
  - intros b' fd' Hb'. cbn in Hb'. apply lookup_insert_Some in Hb' as [[<- <-] | [Hn Hb']]; [left; reflexivity|].
    destruct (H4 b' fd' Hb') as [? | ?]; [discriminate | right; assumption].
  - intros b' Hb'. injection Hb' as <-. exists fd. cbn. rewrite lookup_insert_eq. auto.
Qed.

Lemma closeLinkByID_some f m iID m' : ok None m -> closeLinkByID (perform f) m iID = Some m' ->
  ok None m' /\ m_pCurrent m' = m_pCurrent m /\ m_umapSession m' = delete iID (m_umapSession m) /\ grows m m'.
Proof.
  intros Hok H. destruct (closeLinkByID_ok m iID Hok) as (n & m1 & E1 & O1 & M1 & T1 & G1).
  apply (closeLinkByID_mono _ (perform (Nat.max f n))) in H.
  - rewrite E1 in H by lia. injection H as <-. auto.
  - intros m2 acts m3. apply perform_mono. lia.
Qed.

(** *** No reaction adds to the unread input *)

Definition unread (m : manager) (a : addr) : nat := length (input (m_objBuffer (sess m a))).
Definition shrinks (m m' : manager) : Prop := forall a, (unread m' a <= unread m a)%nat.

Lemma shrinks_trans m1 m2 m3 : shrinks m1 m2 -> shrinks m2 m3 -> shrinks m1 m3.
Proof. intros H1 H2 a. specialize (H1 a). specialize (H2 a). lia. Qed.

Lemma same_table_shrinks m m' : same_table m m' -> shrinks m m'.
Proof.
  intros (_ & _ & _ & _ & _ & H) a. destruct (H a) as (_ & _ & R). unfold unread, input. rewrite R. lia.
Qed.

Lemma sess_drop m fd a d : sess (drop m fd a) d = if decide (a = d) then CSession_new else sess m d.
Proof.
  unfold drop, sess at 1. cbn [m_objSessionPool set_pool set_map]. rewrite heap_Free.
  fold (sess (modify m a Clear) d).
  destruct (decide (a = d)) as [<- | Hn]; [apply sess_modify_eq | apply sess_modify_ne, Hn].
Qed.

Lemma closeLinkByID_shrinks f m iID m' : ok None m -> closeLinkByID (perform f) m iID = Some m' -> shrinks m m'.
Proof.
  intros Hok. unfold closeLinkByID. destruct (_ =? iID); [intros [= <-] a; lia|].
  destruct (m_umapSession m !! iID) as [a|]; [|intros [= <-] c; lia].
  set (r := if m_pInterface (srv m) then _ else _).
  assert (HR : forall m1, r = Some m1 -> shrinks m m1).
  { intros m1. subst r. destruct (m_pInterface (srv m)); [|intros [= <-] c; lia].
    pose proof (QC (s_app (srv m)) (getSessionID (sess m a))) as Hq. destruct (onSockClose _ _) as [ap acts].
    intros H. apply perform_quiet_some in H as [_ T1]; [exact (same_table_shrinks _ _ T1) | apply set_srv_ok, Hok | exact Hq]. }
  destruct r as [m1|]; [|discriminate]. specialize (HR m1 eq_refl). cbn [obind].
  destruct (m_umapSession m1 !! iID) as [c|]; intros [= <-]; (eapply shrinks_trans; [exact HR|]).
  - set (m2 := if m_emSessionType (sess m1 c) =? STYPE_TCPCLIENT then
               set_srv m1 (set_links (srv m1) (LinkOther.setSockStatus (s_links (srv m1)) iID SESSSTATUS_CLOSED))
             else m1). set (m3 := bufferevent_free m2 _).
    assert (E3 : sess m3 = sess m1).
    { subst m3 m2. unfold bufferevent_free. destruct (_ =? _); (destruct (m_pBev _) as [b|]; [destruct (_ !! b)|]); reflexivity. }
    intros d. change (length (input (m_objBuffer (sess (drop m3 iID c) d))) <= unread m1 d)%nat.
    rewrite sess_drop, E3. destruct (decide (c = d)); [cbn; lia | unfold unread; lia].
  - intros d. exact (le_n _).
Qed.

Lemma perform_shrinks f : forall m acts m', ok None m -> perform f m acts = Some m' -> shrinks m m'.
Proof.
  induction f as [|f IH]; intros m acts m' Hok; [discriminate|]. cbn [perform].
  destruct acts as [|x r]; [intros [= <-] a; lia|].
  destruct (closes x) eqn:Ex.
  - assert (HC : forall iID m1, closeLinkByID (perform f) m iID = Some m1 -> perform f m1 r = Some m' -> shrinks m m').
    { intros iID m1 H1 H2. eapply shrinks_trans; [exact (closeLinkByID_shrinks f m iID m1 Hok H1)|].
      apply (IH m1 r m'); [|exact H2]. apply (closeLinkByID_some f m iID m1 Hok H1). }
    destruct x as [iID | | | | |]; try discriminate Ex.
    + destruct (closeLinkByID _ m iID) as [m1|] eqn:E1; [|discriminate]. apply (HC iID m1 E1).
    + unfold closeCurLink. destruct (m_pCurrent m) as [a|]; [|apply IH, Hok].
      destruct (closeLinkByID _ m _) as [m1|] eqn:E1; [|discriminate]. apply (HC _ m1 E1).
  - destruct (quiet_call m x Hok Ex) as (m1 & E1 & O1 & T1). rewrite E1. cbn [obind]. intros H.
    eapply shrinks_trans; [apply same_table_shrinks, T1 | exact (IH m1 r m' O1 H)].
Qed.


(** *** Releasing everything *)

Lemma getSession_live m bev a : ok None m -> getSession m bev = Some a -> is_Some (live m !! bev) ->
  m_umapSession m !! getfd m bev = Some a /\ m_pBev (m_objBuffer (sess m a)) = Some bev.
Proof.
  intros Hok H [fd Hl]. unfold getSession, getfd in *. rewrite Hl in *. cbn [default] in *. unfold Datatypes.id in *.
  destruct (fd =? Q_INVALID_SOCK); [discriminate|]. split; [exact H|].
  destruct (ok_live _ _ Hok bev fd Hl) as [? | (a' & G1 & G2)]; [discriminate | congruence].
Qed.

End SessionManager.

Arguments manager : clear implicits.
Arguments services : clear implicits.

(** ** The claims *)

Section FreeAll.
Context {B : Type} {EB : EvBuffer B} {S : Type} {A : Type}.

Lemma free_one_spec (m : manager B S A) a b : m_pBev (m_objBuffer (sess m a)) = Some b -> is_Some (live m !! b) ->
  live (free_one m a) = delete b (live m) /\ bad (free_one m a) = bad m /\
  (forall c, sess (free_one m a) c = sess m c) /\ m_umapSession (free_one m a) = m_umapSession m.
Proof.
  intros Hb [fd Hl]. unfold free_one, bufferevent_free. rewrite Hb, Hl. splits; try reflexivity.
  intros c. unfold sess. cbn [set_pool set_live m_objSessionPool]. unfold Free.
  destruct (erase a _); reflexivity.
Qed.

Lemma free_fold (l : list (Z * addr)) : forall m : manager B S A, NoDup (l.*1) ->
  (forall fd a, (fd, a) ∈ l -> exists b, m_pBev (m_objBuffer (sess m a)) = Some b /\ live m !! b = Some fd) ->
  let m' := fold_left free_one (map snd l) m in
  bad m' = bad m /\ m_umapSession m' = m_umapSession m /\
  forall b fd, live m' !! b = Some fd -> live m !! b = Some fd /\
    forall a, (fd, a) ∈ l -> m_pBev (m_objBuffer (sess m a)) <> Some b.
Proof.
  induction l as [|[fd0 a0] l IH]; intros m Hnd Hl; cbn [map snd fold_left].
  { cbn. splits; auto. intros b fd Hb. split; [exact Hb|]. intros a Ha. inversion Ha. }
  cbn in Hnd. apply NoDup_cons in Hnd as [Hn0 Hnd].
  destruct (Hl fd0 a0 ltac:(left)) as (b0 & B1 & B2).
  destruct (free_one_spec m a0 b0 B1 ltac:(eauto)) as (F1 & F2 & F3 & F4).
  destruct (IH (free_one m a0) Hnd) as (I1 & I2 & I3).
  { intros fd a Ha. destruct (Hl fd a ltac:(right; exact Ha)) as (b & C1 & C2). exists b. rewrite F3, F1. split; [exact C1|].
    rewrite lookup_delete_ne; [exact C2|]. intros <-. assert (fd = fd0) by congruence. subst.
    apply Hn0, list_elem_of_fmap. exists (fd0, a). auto. }
  cbv zeta. rewrite I1, I2, F2, F4. splits; auto. intros b fd Hb. destruct (I3 b fd Hb) as [J1 J2].
  rewrite F1 in J1. apply lookup_delete_Some in J1 as [J0 J1]. split; [exact J1|].
  intros a Ha. apply elem_of_cons in Ha as [[= -> ->] | Ha]; [congruence|].
  rewrite <- F3. apply J2, Ha.
Qed.

End FreeAll.


#[local] Existing Instance CommEncrypt.toy_ciphers.

(** An application that answers every message with it and then hangs up. *)
#[export] Instance echo_app : App unit := {
  onSockRead _ l := (tt, [sendCur l; closeCur]);
  onDebug _ _ := (tt, []);
  onSockClose _ iID := (tt, [sendTo iID [0]]);
  onConnected _ _ := (tt, []);
  onLinkedOther _ _ := (tt, []);
  onTimerEvent _ := (tt, [])
}.

#[export] Instance echo_quiet : QuietClose unit.
Proof. intros a iID. repeat constructor. Qed.

Definition idle_services {A} (a : A) : services unit A :=
  {| s_links := []; s_comm := CommEncrypt.comm_of [] []; s_ciphers := tt; s_app := a; m_pInterface := true;
     m_objTcpParser := TcpParser.CTcpParser_new; after := repeat 0 8 |}.

Definition empty_manager {A} (a : A) : manager (list Z) unit A :=
  {| m_uiCount := 0; m_pCurrent := None; m_umapSession := ∅; m_objSessionPool := empty_pool;
     live := ∅; bad := O; srv := idle_services a |}.

Lemma empty_ok {A} (a : A) : ok None (empty_manager a).
Proof.
  constructor; [apply empty_pool_ok | | | | | |]; cbn.
  - intros fd x H. rewrite lookup_empty in H. discriminate.
  - intros x H. inversion H.
  - intros b fd H. rewrite lookup_empty in H. discriminate.
  - discriminate.
  - discriminate.
  - reflexivity.
Qed.

(** A manager with one connection, opened by [addSession]. *)
Definition bev5 : bufferevent (list Z) :=
  {| bev_addr := 7; bufferevent_get_input := Some []; bufferevent_get_output := Some []; bufferevent_getfd := 5 |}.

Definition one_session {A} (a : A) : manager (list Z) unit A :=
  fst (addSession 1 2 (set_live (empty_manager a) {[ 7%positive := 5 ]} O) bev5).

Lemma one_session_ok {A} (a : A) : ok None (one_session a).
Proof.
  pose proof (addSession_ok 1 2 ltac:(discriminate) ltac:(discriminate)
    (set_live (empty_manager a) {[ 7%positive := 5 ]} O) bev5 5) as H.
  unfold one_session. destruct (addSession 1 2 _ bev5) as [m rc] eqn:E. 
  assert (Hrc : rc = 0) by (vm_compute in E; congruence). subst rc. apply H; [|reflexivity..].
  destruct (empty_ok a) as [H1 H2 H3 H4 H5 H6 H7]. constructor; try assumption.
  - intros fd x Hx. cbn in Hx. rewrite lookup_empty in Hx. discriminate.
  - intros b fd Hb. left. cbn in Hb. apply lookup_singleton_Some in Hb as [<- _]. reflexivity.
  - intros b Hb. injection Hb as <-. exists 5. split; reflexivity.
Qed.


(** Claim C14: the table entry is removed only after [onSockClose] has returned, so an application that
    closes the session it is being told about is called again and again: the close never
    returns. *)
Theorem close_inside_onSockClose {B} {EB : EvBuffer B} {S} {CI : CommEncrypt.Ciphers S} new_char {A} {AP : App A}
    SZ errnull iID (Happ : forall a, exists a' r, onSockClose a iID = (a', closeLink iID :: r)) (m : manager B S A) :
  ok None m -> is_Some (m_umapSession m !! iID) -> m_pInterface (srv m) = true ->
  forall fuel, closeLinkByID (perform new_char SZ errnull fuel) m iID = None.
Proof.
  intros Hok [a Ha] Hi fuel. revert m Hok Ha Hi. induction fuel as [|f IH]; intros m Hok Ha Hi; unfold closeLinkByID;
    destruct (ok_map _ _ Hok iID a Ha) as (Hn & _ & Ho); destruct (owns_sess _ _ _ Ho) as (b & Hid & _);
    rewrite (proj2 (Z.eqb_neq Q_INVALID_SOCK iID)) by congruence; rewrite Ha, Hi; unfold getSessionID; rewrite Hid;
    destruct (Happ (s_app (srv m))) as (a' & r & ->); [reflexivity|].
  cbn [perform]. rewrite (IH (set_srv m (set_app (srv m) a'))); [reflexivity | apply set_srv_ok, Hok | exact Ha | exact Hi].
Qed.

(** An application that hangs up on everything. *)
Definition hangup_app : App bool := {|
  onSockRead a _ := (a, []); onDebug a _ := (a, []);
  onSockClose a iID := (a, [closeLink iID]);
  onConnected a _ := (a, []); onLinkedOther a _ := (a, []); onTimerEvent a := (a, [])
|}.

Lemma close_inside_onSockClose_witness :
  closeLinkByID (AP := hangup_app) (perform (AP := hangup_app) BufferMgr.fresh_block 8 1 1000) (one_session true) 5 = None.
Proof.
  apply (close_inside_onSockClose (AP := hangup_app) BufferMgr.fresh_block 8 1 5 (fun a => ex_intro _ a (ex_intro _ [] eq_refl))
    (one_session true)).
  - apply one_session_ok.
  - eexists. vm_compute. reflexivity.
  - reflexivity.
Defined.
