(* ===== verification/WorkThread.v ===== *)
(** * WorkThread: the event handlers of the worker (QBase/WorkThreadEvent.cpp)

    What happens on an event of a connection: the bytes that have arrived are cut into
    messages, decoded and given to the application, whose reaction works on the session
    table; fragments of WebSocket messages are collected per descriptor.  The handlers run
    one after the other on one thread, so a run of the service is a sequence of [step]s. *)

From S2P Require Import Prelude Enum EventBuffer Session ObjectPool SessionManager.
From S2P Require LinkOther CommEncrypt TcpParser WebSockParser HandShake.
From stdpp Require Import gmap sets list.
#[local] Open Scope Z_scope.

Section WorkThread.
Context {B : Type} {EB : EvBuffer B} {L : EvBufferLaws B}.
Context {S : Type} {CI : CommEncrypt.Ciphers S} (new_char : Z -> option (list Z)).
Context {A : Type} {AP : App A}.
Context (SZ : nat) (Q_ERROR_NULLPOINTER Q_ERROR_INVALIDSOCK : Z).
(** The memory that follows the bytes a pull-up shows. *)
Context (mem : CEventBuffer B -> list Z).

(** The singleton [CWorkThreadEvent] with the manager; [closed] are the descriptors its
    handlers passed to [evutil_closesocket], [wild] counts the frames whose unmasking wrote
    outside the buffer, after which a run means nothing. *)
Record worker := {
  mgr : manager B S A;
  m_objWebSockParser : WebSockParser.CWebSockParser;
  m_shaker : HandShake.Shaker;
  m_objTcpParser : TcpParser.CTcpParser;
  m_mapWebSockPack : gmap Z (list Z);
  closed : list Z;
  wild : nat
}.

Definition set_mgr (w : worker) (m : manager B S A) : worker :=
  {| mgr := m; m_objWebSockParser := m_objWebSockParser w; m_shaker := m_shaker w;
     m_objTcpParser := m_objTcpParser w; m_mapWebSockPack := m_mapWebSockPack w; closed := closed w; wild := wild w |}.
Definition set_ws (w : worker) (p : WebSockParser.CWebSockParser) (s : HandShake.Shaker) : worker :=
  {| mgr := mgr w; m_objWebSockParser := p; m_shaker := s;
     m_objTcpParser := m_objTcpParser w; m_mapWebSockPack := m_mapWebSockPack w; closed := closed w; wild := wild w |}.
Definition set_tcpp (w : worker) (p : TcpParser.CTcpParser) : worker :=
  {| mgr := mgr w; m_objWebSockParser := m_objWebSockParser w; m_shaker := m_shaker w;
     m_objTcpParser := p; m_mapWebSockPack := m_mapWebSockPack w; closed := closed w; wild := wild w |}.
Definition set_pack (w : worker) (u : gmap Z (list Z)) : worker :=
  {| mgr := mgr w; m_objWebSockParser := m_objWebSockParser w; m_shaker := m_shaker w;
     m_objTcpParser := m_objTcpParser w; m_mapWebSockPack := u; closed := closed w; wild := wild w |}.
Definition evutil_closesocket (w : worker) (s : Z) : worker :=
  {| mgr := mgr w; m_objWebSockParser := m_objWebSockParser w; m_shaker := m_shaker w;
     m_objTcpParser := m_objTcpParser w; m_mapWebSockPack := m_mapWebSockPack w; closed := s :: closed w; wild := wild w |}.

Definition overrun (w : worker) : worker :=
  {| mgr := mgr w; m_objWebSockParser := m_objWebSockParser w; m_shaker := m_shaker w;
     m_objTcpParser := m_objTcpParser w; m_mapWebSockPack := m_mapWebSockPack w; closed := closed w;
     wild := Datatypes.S (wild w) |}.

(** ** Fragments *)

Definition addContinuation (w : worker) (sock : Z) (data : list Z) : worker :=
  match m_mapWebSockPack w !! sock with
  | None => set_pack w (<[sock := data]> (m_mapWebSockPack w))
  | Some buf => set_pack w (<[sock := buf ++ data]> (m_mapWebSockPack w))
  end.

Definition getContinuation (w : worker) (sock : Z) : option (list Z) := m_mapWebSockPack w !! sock.

Definition delContinuation (w : worker) (sock : Z) : worker :=
  set_pack w (delete sock (m_mapWebSockPack w)).

(** ** Dispatching *)

Definition session (w : worker) (a : addr) : CSession B := sess (mgr w) a.
Definition buffer_of (w : worker) (a : addr) : CEventBuffer B := m_objBuffer (session w a).
Definition on_sess (w : worker) (a : addr) (f : CSession B -> CSession B) : worker :=
  set_mgr w (modify (mgr w) a f).

Definition drain (w : worker) (a : addr) (n : Z) : worker :=
  on_sess w a (setBuf (fst (delBuffer (buffer_of w a) n))).

Definition write (w : worker) (a : addr) (l : list Z) : worker :=
  set_mgr w (fst (writeSess Q_ERROR_NULLPOINTER (mgr w) a l)).

(** The decoding of a message of the connection. *)
Definition decode (w : worker) (msg : list Z) (bSVLink : bool) : worker * option (list Z) :=
  let s := srv (mgr w) in
  let '(c, k, out) := CommEncrypt.Decode new_char (s_comm s) (s_ciphers s) (Some msg) bSVLink in
  (set_mgr w (set_srv (mgr w) (set_comm s c k)), out).

(** A callback of the application with its reaction. *)
Definition callback (fuel : nat) (w : worker) (r : A * list api) : option worker :=
  let (ap, acts) := r in
  let? m := perform new_char SZ Q_ERROR_NULLPOINTER fuel (set_srv (mgr w) (set_app (srv (mgr w)) ap)) acts in
  Some (set_mgr w m).

Definition app (w : worker) : A := s_app (srv (mgr w)).

Definition is_closed (w : worker) (a : addr) : bool := m_emStatus (session w a) =? SESSSTATUS_CLOSED.

(** The loop of [dispTcp]. *)
Fixpoint dispTcp (fuel : nat) (w : worker) (a : addr) : option worker :=
  match fuel with
  | O => None
  | Datatypes.S f =>
      let bSVLink := m_emSessionType (session w a) =? STYPE_TCPCLIENT in
      let (p, pszBuf) := TcpParser.parsePack SZ (m_objTcpParser w) (buffer_of w a) (mem (buffer_of w a)) in
      let w := set_tcpp w p in
      match pszBuf with
      | None => Some w
      | Some l =>
          let (w, msg) := decode w (firstn (Z.to_nat (TcpParser.getBufLens p)) l) bSVLink in
          match msg with
          | None => Some w
          | Some msg =>
              let? w := callback f w
                (if m_emSessionType (session w a) =? STYPE_DEBUG then onDebug (app w) msg
                 else onSockRead (app w) msg) in
              if is_closed w a then Some w
              else dispTcp f (drain w a (TcpParser.getParsedLens p)) a
          end
      end
  end.

Definition closeLink (fuel : nat) (w : worker) (iID : Z) : option worker :=
  let? m := closeLinkByID (perform new_char SZ Q_ERROR_NULLPOINTER fuel) (mgr w) iID in
  Some (set_mgr w m).

(** The handshake part of [dispWebSock]. *)
Definition dispHandshake (fuel : nat) (w : worker) (a : addr) : option worker :=
  let? r := HandShake.shakeHands (m_objWebSockParser w) (m_shaker w) (buffer_of w a) (mem (buffer_of w a)) in
  let '(p, s, rtn) := r in
  let w := set_ws w p s in
  if WebSockParser.m_bClose p then closeLink fuel w (getSessionID (session w a))
  else match rtn with
       | None => Some w
       | Some answer =>
           let w := write w a answer in
           let w := on_sess w a (setStatus SESSSTATUS_LINKED) in
           Some (drain w a (WebSockParser.m_iParsedLens p))
       end.

(** One frame that has been read, not a close frame: [None] is the exit of the loop, which
    keeps the frame; the [bool] says whether the loop goes on. *)
Definition dispFrame (fuel : nat) (w : worker) (a : addr) : option (worker * bool) :=
  let p := m_objWebSockParser w in
  let pHead := WebSockParser.m_stFram p in
  let op := WebSockParser.emOpCode pHead in
  let parsed := WebSockParser.m_iParsedLens p in
  if op =? WSOCK_PING then
    let w := write w a (WebSockParser.ws_head true WSOCK_PONG 0) in
    let w := on_sess w a (setPing (m_uiCount (mgr w))) in
    Some (drain w a parsed, true)
  else if op =? WSOCK_PONG then
    let w := on_sess w a (setPing (m_uiCount (mgr w))) in
    Some (drain w a parsed, true)
  else
    let sock := m_FD (buffer_of w a) in
    let msg0 := WebSockParser.getMsg p in
    if negb (op =? WSOCK_CONTINUATION) && (1 =? WebSockParser.cFin pHead) then
      let (w, msg) := decode w msg0 false in
      match msg with
      | None => Some (w, false)
      | Some msg =>
          let? w := callback fuel w (onSockRead (app w) msg) in
          if is_closed w a then Some (delContinuation w sock, false)
          else Some (drain w a parsed, true)
      end
    else if (1 =? WebSockParser.cFin pHead) && (op =? WSOCK_CONTINUATION) then
      match getContinuation w sock with
      | Some _ =>
          let (w, msg) := decode w msg0 false in
          match msg with
          | None => Some (w, false)
          | Some msg =>
              let w := addContinuation w sock msg in
              let whole := default [] (getContinuation w sock) in
              let? w := callback fuel w (onSockRead (app w) whole) in
              if is_closed w a then Some (delContinuation w sock, false)
              else
                let w := drain w a parsed in
                Some (set_pack w (<[sock := []]> (m_mapWebSockPack w)), true)
          end
      | None => Some (drain w a parsed, true)
      end
    else
      let (w, msg) := decode w msg0 false in
      match msg with
      | None => Some (w, false)
      | Some msg => Some (drain (addContinuation w sock msg) a parsed, true)
      end.

(** The loop of [dispWebSock] over the frames. *)
Fixpoint dispFrames (fuel : nat) (w : worker) (a : addr) : option worker :=
  match fuel with
  | O => None
  | Datatypes.S f =>
      match WebSockParser.parsePack SZ (m_objWebSockParser w) (buffer_of w a) with
      | None => Some (overrun w)
      | Some (p, b, bOk) =>
          let w := on_sess (set_ws w p (m_shaker w)) a (setBuf b) in
          if WebSockParser.m_bClose p then
            closeLink f (delContinuation w (m_FD (buffer_of w a))) (getSessionID (session w a))
          else if negb bOk then Some w
          else if WebSockParser.emOpCode (WebSockParser.m_stFram p) =? WSOCK_CLOSE then
            closeLink f (delContinuation w (m_FD (buffer_of w a))) (getSessionID (session w a))
          else
            let? r := dispFrame f w a in
            let (w, more) := r in
            if more : bool then dispFrames f w a else Some w
      end
  end.

Definition dispWebSock (fuel : nat) (w : worker) (a : addr) : option worker :=
  if m_emStatus (session w a) =? SESSSTATUS_CONNECT then dispHandshake fuel w a
  else dispFrames fuel w a.

(** ** Callbacks of the event loop *)

Definition setCur (w : worker) (c : option addr) : worker := set_mgr w (setCurSession (mgr w) c).

Definition free_bev (w : worker) (bev : positive) : worker := set_mgr w (bufferevent_free (mgr w) (Some bev)).

Definition workThreadReadCB (fuel : nat) (w : worker) (bev : positive) : option worker :=
  match getSession (mgr w) bev with
  | None => Some (free_bev w bev)
  | Some a =>
      let w := setCur w (Some a) in
      let t := m_emSessionType (session w a) in
      let? w := (if (t =? STYPE_DEBUG) || (t =? STYPE_TCPCLIENT) || (t =? STYPE_TCP) then dispTcp fuel w a
                 else if t =? STYPE_WEBSOCK then dispWebSock fuel w a
                 else Some w) in
      Some (setCur w None)
  end.

Definition setSockStatus (w : worker) (s st : Z) : worker :=
  let sv := srv (mgr w) in
  set_mgr w (set_srv (mgr w) (set_links sv (LinkOther.setSockStatus (s_links sv) s st))).

Definition workThreadEventCB (fuel : nat) (w : worker) (bev : positive) : option worker :=
  match getSession (mgr w) bev with
  | None => Some (free_bev w bev)
  | Some a =>
      let? w := callback fuel w (onSockClose (app w) (getSessionID (session w a))) in
      let t := m_emSessionType (session w a) in
      let w := if t =? STYPE_WEBSOCK then delContinuation w (m_FD (buffer_of w a))
               else if t =? STYPE_TCPCLIENT then setSockStatus w (m_FD (buffer_of w a)) SESSSTATUS_CLOSED
               else w in
      let w := set_mgr w (dellSession (mgr w) bev) in
      Some (free_bev w bev)
  end.

(** A new connection as [bufferevent_socket_new] makes it ([None] when it fails), and the
    result [rc] of [bufferevent_enable]. *)
Definition new_bev (w : worker) (bev : bufferevent B) : worker :=
  set_mgr w (set_live (mgr w) (<[bev_addr bev := bufferevent_getfd bev]> (live (mgr w))) (bad (mgr w))).

(** One message of [onMainRead]: the accepted socket and its kind. *)
Definition onMainRead (fuel : nat) (w : worker) (emType iSock : Z) (pBev : option (bufferevent B)) (rc : Z)
  : option worker :=
  match pBev with
  | None => Some (evutil_closesocket w iSock)
  | Some bev =>
      let w := new_bev w bev in
      let (m, iRtn) := addSession Q_ERROR_NULLPOINTER Q_ERROR_INVALIDSOCK (mgr w) bev in
      let w := set_mgr w m in
      if negb (iRtn =? Q_RTN_OK) then Some (free_bev (evutil_closesocket w iSock) (bev_addr bev))
      else if negb (rc =? Q_RTN_OK) then
        let w := evutil_closesocket w iSock in
        let w := set_mgr w (dellSession (mgr w) (bev_addr bev)) in
        Some (free_bev w (bev_addr bev))
      else match getSession (mgr w) (bev_addr bev) with
           | None => Some w
           | Some a =>
               let w := on_sess w a (setType emType) in
               let w := on_sess w a (setStatus SESSSTATUS_LINKED) in
               let w := if emType =? STYPE_WEBSOCK then on_sess w a (setStatus SESSSTATUS_CONNECT) else w in
               if m_emSessionType (session w a) =? STYPE_DEBUG then Some w
               else callback fuel w (onConnected (app w) (getSessionID (session w a)))
           end
  end.

(** One message of [onAssistRead]: the socket of a link to another server. *)
Definition onAssistRead (fuel : nat) (w : worker) (emType iSock : Z) (pBev : option (bufferevent B)) (rc : Z)
  : option worker :=
  match pBev with
  | None => Some (setSockStatus w iSock SESSSTATUS_CLOSED)
  | Some bev =>
      let w := new_bev w bev in
      let (m, iRtn) := addSession Q_ERROR_NULLPOINTER Q_ERROR_INVALIDSOCK (mgr w) bev in
      let w := set_mgr w m in
      if negb (iRtn =? Q_RTN_OK) then
        Some (free_bev (setSockStatus w iSock SESSSTATUS_CLOSED) (bev_addr bev))
      else if negb (rc =? Q_RTN_OK) then
        let w := setSockStatus w iSock SESSSTATUS_CLOSED in
        let w := set_mgr w (dellSession (mgr w) (bev_addr bev)) in
        Some (free_bev w (bev_addr bev))
      else match getSession (mgr w) (bev_addr bev) with
           | None => Some w
           | Some a =>
               let w := on_sess w a (setType emType) in
               let w := on_sess w a (setStatus SESSSTATUS_LINKED) in
               let w := setSockStatus w iSock SESSSTATUS_LINKED in
               callback fuel w (onLinkedOther (app w) (getSessionID (session w a)))
           end
  end.

(** One byte of [onTimerRead]. *)
Definition onTimerRead (fuel : nat) (w : worker) (cVal : Z) : option worker :=
  if cVal =? 1 then
    let w := set_mgr w (addCount (mgr w)) in
    callback fuel w (onTimerEvent (app w))
  else Some w.

(** ** Runs *)

(** What libevent and the kernel do between the callbacks: bytes arrive on a connection, and
    pending output is sent. *)
Definition io (b b' : CEventBuffer B) : Prop :=
  m_pBev b' = m_pBev b /\ m_FD b' = m_FD b /\
  (m_pReadBuffer b <> None -> m_pReadBuffer b' <> None) /\ (m_pWriteBuffer b <> None -> m_pWriteBuffer b' <> None).

(** A new connection has a [bufferevent] and a descriptor of its own. *)
Definition fresh (w : worker) (bev : bufferevent B) : Prop :=
  live (mgr w) !! bev_addr bev = None /\ m_umapSession (mgr w) !! bufferevent_getfd bev = None.

Inductive step (w : worker) : worker -> Prop :=
| step_io a b : is_Some (heap (m_objSessionPool (mgr w)) !! a) -> io (buffer_of w a) b ->
    step w (on_sess w a (setBuf b))
| step_read f bev w' : is_Some (live (mgr w) !! bev) -> workThreadReadCB f w bev = Some w' -> step w w'
| step_event f bev w' : is_Some (live (mgr w) !! bev) -> workThreadEventCB f w bev = Some w' -> step w w'
| step_accept f t s bev rc w' : (forall b, bev = Some b -> fresh w b) -> onMainRead f w t s bev rc = Some w' -> step w w'
| step_link f t s bev rc w' : (forall b, bev = Some b -> fresh w b) -> onAssistRead f w t s bev rc = Some w' -> step w w'
| step_timer f c w' : onTimerRead f w c = Some w' -> step w w'.

Inductive runs (w0 : worker) : worker -> Prop :=
| runs_0 : runs w0 w0
| runs_step w w' : runs w0 w -> step w w' -> runs w0 w'.

(** ** The session table under the handlers *)

Context (Hnull : Q_ERROR_NULLPOINTER <> Q_RTN_OK) (Hsock : Q_ERROR_INVALIDSOCK <> Q_RTN_OK).
Context {QC : QuietClose A}.

(** The table is in order and the handler's session is an object of the pool. *)
Definition good (w : worker) (a : addr) : Prop :=
  ok None (mgr w) /\ is_Some (heap (m_objSessionPool (mgr w)) !! a).

Lemma on_sess_good w a f : good w a -> same_link (session w a) (f (session w a)) -> good (on_sess w a f) a.
Proof.
  intros [Hok Ha] Hl. split; [apply modify_ok; assumption|]. cbn. rewrite lookup_insert_eq. eauto.
Qed.

Lemma io_link (x : CSession B) b : io (m_objBuffer x) b -> same_link x (setBuf b x).
Proof. intros (H1 & H2 & H3 & H4). unfold same_link. cbn. splits; auto. Qed.

Lemma delBuffer_io (b : CEventBuffer B) n : io b (fst (delBuffer b n)).
Proof.
  unfold delBuffer, io. destruct (m_pReadBuffer b) as [r|] eqn:E; [|cbn; splits; auto].
  destruct (evbuffer_drain r n). cbn. splits; auto; discriminate.
Qed.

Lemma pokeBuffer_io (b : CEventBuffer B) l : io b (pokeBuffer b l).
Proof. unfold pokeBuffer, io. destruct (m_pReadBuffer b) eqn:E; cbn; splits; auto; congruence. Qed.

Lemma drain_good w a n : good w a -> good (drain w a n) a.
Proof. intros H. apply on_sess_good; [exact H|]. apply io_link, delBuffer_io. Qed.

Lemma write_good w a l : good w a -> good (write w a l) a.
Proof.
  intros [Hok Ha]. destruct (writeSess_ok Q_ERROR_NULLPOINTER None (mgr w) a l Hok Ha) as [H1 H2].
  split; [exact H1 | apply H2, Ha].
Qed.

Lemma ping_link (x : CSession B) n : same_link x (setPing n x).
Proof. unfold same_link. cbn. splits; auto. Qed.

Lemma decode_good w a msg sv : good w a -> good (fst (decode w msg sv)) a.
Proof.
  intros [Hok Ha]. unfold decode. destruct (CommEncrypt.Decode _ _ _ _ _) as [[c k] out].
  split; [apply set_srv_ok, Hok | exact Ha].
Qed.

Lemma callback_good f w a r w' : good w a -> callback f w r = Some w' ->
  good w' a /\ m_pCurrent (mgr w') = m_pCurrent (mgr w).
Proof.
  intros [Hok Ha]. unfold callback. destruct r as [ap acts]. destruct (perform _ _ _ _ _ _) as [m|] eqn:E; [|discriminate].
  intros [= <-]. apply perform_some in E as (O1 & T1 & G1); [| exact QC | apply set_srv_ok, Hok].
  split; [split; [exact O1 | apply G1, Ha] | exact T1].
Qed.

Lemma closeLink_good f w a iID w' : good w a -> closeLink f w iID = Some w' -> good w' a.
Proof.
  intros [Hok Ha]. unfold closeLink. destruct (closeLinkByID _ _ _) as [m|] eqn:E; [|discriminate].
  intros [= <-]. apply closeLinkByID_some in E as (O1 & _ & _ & G1); [| exact QC | exact Hok].
  split; [exact O1 | apply G1, Ha].
Qed.

Lemma dispTcp_good f : forall w a w', good w a -> dispTcp f w a = Some w' -> good w' a.
Proof.
  induction f as [|f IH]; intros w a w' Hg; cbn [dispTcp]; [discriminate|].
  destruct (TcpParser.parsePack _ _ _ _) as [p [l|]]; [|intros [= <-]; exact Hg].
  set (w1 := set_tcpp w p). assert (H1 : good w1 a) by exact Hg.
  pose proof (decode_good w1 a (firstn (Z.to_nat (TcpParser.getBufLens p)) l)
    (m_emSessionType (session w a) =? STYPE_TCPCLIENT) H1) as H2.
  destruct (decode w1 _ _) as [w2 [msg|]]; cbn [fst] in H2; [|intros [= <-]; exact H2].
  destruct (callback _ _ _) as [w3|] eqn:E3; [|discriminate]. cbn [obind].
  apply (callback_good _ _ a) in E3 as [H3 _]; [|exact H2].
  destruct (is_closed w3 a); [intros [= <-]; exact H3|]. apply IH. apply drain_good, H3.
Qed.

Lemma dispHandshake_good f w a w' : good w a -> dispHandshake f w a = Some w' -> good w' a.
Proof.
  intros Hg. unfold dispHandshake. destruct (HandShake.shakeHands _ _ _ _) as [[[p s] rtn]|]; [|discriminate].
  cbn [obind]. set (w1 := set_ws w p s). assert (H1 : good w1 a) by exact Hg.
  destruct (WebSockParser.m_bClose p); [apply closeLink_good, H1|].
  destruct rtn as [ans|]; intros [= <-]; [|exact H1].
  apply drain_good, on_sess_good; [apply write_good, H1 | apply status_link].
Qed.

Lemma addContinuation_mgr w s l : mgr (addContinuation w s l) = mgr w.
Proof. unfold addContinuation. destruct (_ !! s); reflexivity. Qed.

Lemma dispFrame_good f w a r : good w a -> dispFrame f w a = Some r -> good (fst r) a.
Proof.
  intros Hg. unfold dispFrame. destruct (_ =? WSOCK_PING).
  { intros [= <-]. apply drain_good, on_sess_good; [apply write_good, Hg | apply ping_link]. }
  destruct (_ =? WSOCK_PONG).
  { intros [= <-]. apply drain_good, on_sess_good; [exact Hg | apply ping_link]. }
  set (msg0 := WebSockParser.getMsg (m_objWebSockParser w)). pose proof (decode_good w a msg0 false Hg) as Hd.
  destruct (negb _ && _).
  { destruct (decode w msg0 false) as [w1 [msg|]]; cbn [fst] in Hd; [|intros [= <-]; exact Hd].
    destruct (callback _ _ _) as [w2|] eqn:E2; [|discriminate]. cbn [obind].
    apply (callback_good _ _ a) in E2 as [H2 _]; [|exact Hd].
    destruct (is_closed w2 a); intros [= <-]; [exact H2 | apply drain_good, H2]. }
  destruct (_ && _).
  { destruct (getContinuation w _) as [buf|]; [|intros [= <-]; apply drain_good, Hg].
    destruct (decode w msg0 false) as [w1 [msg|]]; cbn [fst] in Hd; [|intros [= <-]; exact Hd].
    cbv zeta. set (w1' := addContinuation w1 _ msg).
    assert (H1 : good w1' a) by (unfold good, w1'; rewrite addContinuation_mgr; exact Hd).
    destruct (callback _ _ _) as [w2|] eqn:E2; [|discriminate]. cbn [obind].
    apply (callback_good _ _ a) in E2 as [H2 _]; [|exact H1].
    destruct (is_closed w2 a); intros [= <-]; [exact H2 | exact (drain_good w2 a _ H2)]. }
  destruct (decode w msg0 false) as [w1 [msg|]]; cbn [fst] in Hd; intros [= <-]; [|exact Hd].
  apply drain_good. unfold good. rewrite addContinuation_mgr. exact Hd.
Qed.

Lemma parsePack_io p (b : CEventBuffer B) p' b' r : WebSockParser.parsePack SZ p b = Some (p', b', r) -> io b b'.
Proof.
  assert (R : io b b) by (unfold io; splits; auto).
  unfold WebSockParser.parsePack. destruct (_ <? _); [intros [= _ <- _]; exact R|].
  destruct (WebSockParser.parseHead _ _ _) as [p1 [|]]; [|intros [= _ <- _]; exact R].
  destruct (_ <? _); [intros [= _ <- _]; exact R|]. destruct (_ <? _); [|intros [= _ <- _]; exact R].
  destruct (readBuffer _ _) as [l|]; [|intros [= _ <- _]; exact R].
  destruct (_ <? _); [discriminate|]. intros [= _ <- _]. apply pokeBuffer_io.
Qed.

Lemma dispFrames_good f : forall w a w', good w a -> dispFrames f w a = Some w' -> good w' a.
Proof.
  induction f as [|f IH]; intros w a w' Hg; cbn [dispFrames]; [discriminate|].
  destruct (WebSockParser.parsePack _ _ _) as [[[p b] bOk]|] eqn:EP; [|intros [= <-]; exact Hg].
  apply parsePack_io in EP. set (w1 := on_sess (set_ws w p (m_shaker w)) a (setBuf b)).
  assert (H1 : good w1 a) by (apply on_sess_good; [exact Hg | apply io_link, EP]).
  destruct (WebSockParser.m_bClose p); [apply closeLink_good, H1|].
  destruct (negb bOk); [intros [= <-]; exact H1|].
  destruct (_ =? WSOCK_CLOSE); [apply closeLink_good, H1|].
  destruct (dispFrame f w1 a) as [[w2 more]|] eqn:E2; [|discriminate]. cbn [obind].
  apply dispFrame_good in E2; [|exact H1]. cbn [fst] in E2.
  destruct more; [apply IH, E2 | intros [= <-]; exact E2].
Qed.

Lemma read_ok f w bev w' : ok None (mgr w) -> is_Some (live (mgr w) !! bev) ->
  workThreadReadCB f w bev = Some w' -> ok None (mgr w').
Proof.
  intros Hok Hl. unfold workThreadReadCB. destruct (getSession (mgr w) bev) as [a|] eqn:Ea.
  - destruct (getSession_live _ _ _ Hok Ea Hl) as [Hm _]. pose proof (mapped_heap _ _ _ _ Hok Hm) as Hh.
    set (w1 := setCur w (Some a)).
    assert (H1 : good w1 a) by (split; [apply setCur_ok; [exact Hok | intros c [= <-]; exact Hh] | exact Hh]).
    assert (Hc : forall w2, good w2 a -> ok None (mgr (setCur w2 None)))
      by (intros w2 [H2 _]; apply setCur_ok; [exact H2 | discriminate]).
    match goal with |- (let? x := ?e in _) = _ -> _ => destruct e as [w2|] eqn:E2; [|discriminate] end.
    cbn [obind]. intros [= <-]. apply Hc. revert E2.
    destruct (_ || _ || _); [apply dispTcp_good, H1|].
    destruct (_ =? STYPE_WEBSOCK); [|intros [= <-]; exact H1].
    unfold dispWebSock. destruct (_ =? SESSSTATUS_CONNECT); [apply dispHandshake_good, H1 | apply dispFrames_good, H1].
  - (* a live connection has a descriptor, so it has its session *)
    intros [= <-]. destruct Hl as [fd Hfd]. exfalso. unfold getSession, getfd in Ea. rewrite Hfd in Ea. cbn in Ea.
    destruct (ok_live _ _ Hok bev fd Hfd) as [? | (a & G1 & _)]; [discriminate|].
    destruct (ok_map _ _ Hok fd a G1) as (Hn & _). unfold Datatypes.id in Ea.
    rewrite (proj2 (Z.eqb_neq _ _) Hn) in Ea. congruence.
Qed.

Lemma callback_ok f w r w' : ok None (mgr w) -> callback f w r = Some w' ->
  ok None (mgr w') /\ m_pCurrent (mgr w') = m_pCurrent (mgr w).
Proof.
  intros Hok. unfold callback. destruct r as [ap acts]. destruct (perform _ _ _ _ _ _) as [m|] eqn:E; [|discriminate].
  intros [= <-]. apply perform_some in E as (O1 & T1 & G1); [auto | exact QC | apply set_srv_ok, Hok].
Qed.

Lemma event_ok f w bev w' : ok None (mgr w) -> is_Some (live (mgr w) !! bev) ->
  workThreadEventCB f w bev = Some w' -> ok None (mgr w').
Proof.
  intros Hok Hl. unfold workThreadEventCB. destruct (getSession (mgr w) bev) as [a|] eqn:Ea.
  - unfold callback. pose proof (QC (app w) (getSessionID (session w a))) as Hq.
    destruct (onSockClose _ _) as [ap acts]. cbn [snd] in Hq.
    destruct (perform _ _ _ _ _ _) as [m|] eqn:E; [|discriminate]. cbn [obind]. intros [= <-].
    apply perform_quiet_some in E as [O1 T1]; [|apply set_srv_ok, Hok | exact Hq].
    destruct T1 as (T1 & T2 & _). cbn in T1, T2.
    assert (HE : forall m2 : manager B S A, ok None m2 -> m_umapSession m2 = m_umapSession (mgr w) -> live m2 = live (mgr w) ->
              ok None (bufferevent_free (dellSession m2 bev) (Some bev))).
    { intros m2 O2 M2 L2. apply free_ok, dellSession_ok; [exact O2 | | rewrite L2; exact Hl].
      unfold getSession, getfd in *. rewrite L2, M2, Ea. eauto. }
    unfold free_bev. cbn [mgr set_mgr].
    destruct (_ =? STYPE_WEBSOCK); [apply HE; assumption|].
    destruct (_ =? STYPE_TCPCLIENT); apply HE; try assumption. apply set_srv_ok, O1.
  - intros [= <-]. destruct Hl as [fd Hfd]. exfalso. unfold getSession, getfd in Ea. rewrite Hfd in Ea. cbn in Ea.
    destruct (ok_live _ _ Hok bev fd Hfd) as [? | (a & G1 & _)]; [discriminate|].
    destruct (ok_map _ _ Hok fd a G1) as (Hn & _). unfold Datatypes.id in Ea.
    rewrite (proj2 (Z.eqb_neq _ _) Hn) in Ea. congruence.
Qed.

(** Entering a new connection, the part the two handlers share: the table is in order after
    each of the three exits. *)
Lemma entered w bev rc0 m : ok None (mgr w) -> fresh w bev ->
  addSession Q_ERROR_NULLPOINTER Q_ERROR_INVALIDSOCK (mgr (new_bev w bev)) bev = (m, rc0) ->
  if rc0 =? Q_RTN_OK then
    ok None m /\ ok None (bufferevent_free (dellSession m (bev_addr bev)) (Some (bev_addr bev))) /\
    exists a, getSession m (bev_addr bev) = Some a /\ is_Some (heap (m_objSessionPool m) !! a)
  else ok None (bufferevent_free m (Some (bev_addr bev))).
Proof.
  intros Hok [F1 F2] E.
  assert (H0 : ok (Some (bev_addr bev)) (mgr (new_bev w bev))) by (apply hand_ok; assumption).
  pose proof (addSession_ok _ _ Hnull Hsock (mgr (new_bev w bev)) bev (bufferevent_getfd bev) H0) as H.
  rewrite E in H. destruct H as (L1 & _ & _ & H); [cbn; apply lookup_insert_eq | reflexivity |].
  assert (Hl : live m !! bev_addr bev = Some (bufferevent_getfd bev)) by (rewrite L1; cbn; apply lookup_insert_eq).
  destruct (rc0 =? Q_RTN_OK); [|destruct H as [H _]; apply free_ok, H].
  destruct H as [O1 (a & M1)].
  assert (Ha : m_umapSession m !! bufferevent_getfd bev = Some a) by (rewrite M1; apply lookup_insert_eq).
  assert (Hg : getSession m (bev_addr bev) = Some a).
  { unfold getSession, getfd. rewrite Hl. cbn [default]. unfold Datatypes.id.
    destruct (ok_map _ _ O1 _ _ Ha) as (Hn & _). rewrite (proj2 (Z.eqb_neq _ _) Hn). exact Ha. }
  splits; [exact O1 | | exists a; split; [exact Hg | eapply mapped_heap; eauto]].
  apply free_ok, dellSession_ok; [exact O1 | eauto | eauto].
Qed.

Lemma setSockStatus_mgr_ok X w s st : ok X (mgr w) -> ok X (mgr (setSockStatus w s st)).
Proof. apply set_srv_ok. Qed.

Lemma accept_ok f w t s bev rc w' : ok None (mgr w) -> (forall b, bev = Some b -> fresh w b) ->
  onMainRead f w t s bev rc = Some w' -> ok None (mgr w').
Proof.
  intros Hok Hf. unfold onMainRead. destruct bev as [bev|]; [|intros [= <-]; exact Hok].
  specialize (Hf bev eq_refl). destruct (addSession _ _ _ _) as [m rc0] eqn:E.
  pose proof (entered w bev rc0 m Hok Hf E) as H. destruct (rc0 =? Q_RTN_OK); cbn [negb].
  - destruct H as (O1 & O2 & a & Hg & Hh). destruct (negb _); [intros [= <-]; exact O2|].
    cbn [mgr set_mgr]. rewrite Hg.
    set (w0 := set_mgr (new_bev w bev) m). assert (G0 : good w0 a) by (split; assumption).
    pose proof (on_sess_good w0 a (setType t) G0 (type_link _ t)) as G1.
    pose proof (on_sess_good _ a (setStatus SESSSTATUS_LINKED) G1 (status_link _ _)) as G2.
    assert (G3 : good (if t =? STYPE_WEBSOCK
                       then on_sess (on_sess (on_sess w0 a (setType t)) a (setStatus SESSSTATUS_LINKED)) a (setStatus SESSSTATUS_CONNECT)
                       else on_sess (on_sess w0 a (setType t)) a (setStatus SESSSTATUS_LINKED)) a)
      by (destruct (t =? STYPE_WEBSOCK); [apply on_sess_good; [exact G2 | apply status_link] | exact G2]).
    cbv zeta. destruct (_ =? STYPE_DEBUG); [intros [= <-]; apply G3|].
    intros Hc. apply callback_ok in Hc as [Hc _]; [exact Hc | apply G3].
  - intros [= <-]. exact H.
Qed.

Lemma link_ok f w t s bev rc w' : ok None (mgr w) -> (forall b, bev = Some b -> fresh w b) ->
  onAssistRead f w t s bev rc = Some w' -> ok None (mgr w').
Proof.
  intros Hok Hf. unfold onAssistRead. destruct bev as [bev|]; [|intros [= <-]; apply set_srv_ok, Hok].
  specialize (Hf bev eq_refl). destruct (addSession _ _ _ _) as [m rc0] eqn:E.
  pose proof (entered w bev rc0 m Hok Hf E) as H.
  assert (Hfree : forall (m1 : manager B S A) sv b, ok None (bufferevent_free m1 b) -> ok None (bufferevent_free (set_srv m1 sv) b)).
  { intros m1 sv b H1. apply (set_srv_ok _ _ sv) in H1. revert H1. unfold bufferevent_free.
    destruct b as [b|]; [cbn; destruct (live m1 !! b)|]; exact (fun x => x). }
  assert (Hdell : forall (m1 : manager B S A) sv, dellSession (set_srv m1 sv) (bev_addr bev) = set_srv (dellSession m1 (bev_addr bev)) sv).
  { intros m1 sv. unfold dellSession, getfd. cbn. destruct (m_umapSession m1 !! _); reflexivity. }
  destruct (rc0 =? Q_RTN_OK); cbn [negb].
  - destruct H as (O1 & O2 & a & Hg & Hh). destruct (negb _).
    { intros [= <-]. cbn [free_bev set_mgr mgr setSockStatus]. rewrite Hdell. apply Hfree, O2. }
    cbn [mgr set_mgr]. rewrite Hg.
    set (w0 := set_mgr (new_bev w bev) m). assert (G0 : good w0 a) by (split; assumption).
    pose proof (on_sess_good w0 a (setType t) G0 (type_link _ t)) as G1.
    pose proof (on_sess_good _ a (setStatus SESSSTATUS_LINKED) G1 (status_link _ _)) as G2.
    intros Hc. apply callback_ok in Hc as [Hc _]; [exact Hc | apply setSockStatus_mgr_ok, G2].
  - intros [= <-]. cbn [free_bev set_mgr mgr setSockStatus]. apply Hfree, H.
Qed.

Lemma step_ok w w' : ok None (mgr w) -> step w w' -> ok None (mgr w').
Proof.
  intros Hok [a b Ha Hio | f bev w1 Hl H | f bev w1 Hl H | f t s bev rc w1 Hf H | f t s bev rc w1 Hf H | f c w1 H].
  - apply modify_ok; [exact Hok | exact Ha | apply io_link, Hio].
  - exact (read_ok f w bev w1 Hok Hl H).
  - exact (event_ok f w bev w1 Hok Hl H).
  - exact (accept_ok f w t s bev rc w1 Hok Hf H).
  - exact (link_ok f w t s bev rc w1 Hok Hf H).
  - unfold onTimerRead in H. destruct (c =? 1); [|injection H as <-; exact Hok].
    apply callback_ok in H as [H _]; [exact H | apply set_count_ok, Hok].
Qed.

Lemma runs_ok w w' : ok None (mgr w) -> runs w w' -> ok None (mgr w').
Proof. intros Hok. induction 1 as [|w1 w2 _ IH Hs]; [exact Hok | exact (step_ok _ _ IH Hs)]. Qed.

(** ** Delivery of a TCP stream *)

(** A handler computes a state when it does with enough fuel. *)
Definition computes (f : nat -> option worker) (w : worker) : Prop :=
  exists n, forall fuel, (n <= fuel)%nat -> f fuel = Some w.

(** An open, unencrypted connection between two events. *)
Record connected (w : worker) (bev : positive) (a : addr) : Prop := {
  c_ok : ok None (mgr w);
  c_live : is_Some (live (mgr w) !! bev);
  c_get : getSession (mgr w) bev = Some a;
  c_status : m_emStatus (session w a) <> SESSSTATUS_CLOSED;
  c_plain : plain (mgr w)
}.

Lemma decode_plain w msg sv : plain (mgr w) -> decode w msg sv = (w, Some msg).
Proof.
  unfold plain, decode, CommEncrypt.Decode. intros ->. destruct w as [m p s t u c wi]. destruct m as [n cu um po li ba sr].
  destruct sr. reflexivity.
Qed.

Definition reaction (w : worker) (a : addr) (msg : list Z) : A := fst (onSockRead (app w) msg).

(** What a callback leaves of the worker when the application only sends. *)
Lemma callback_sends w r a : ok None (mgr w) -> Forall (fun x => sends x = true) (snd r) ->
  exists m, (forall f, (length (snd r) < f)%nat -> callback f w r = Some (set_mgr w m)) /\ ok None m /\
    s_app (srv m) = fst r /\ m_umapSession m = m_umapSession (mgr w) /\ live m = live (mgr w) /\
    m_pCurrent m = m_pCurrent (mgr w) /\
    input (m_objBuffer (sess m a)) = input (buffer_of w a) /\ m_emStatus (sess m a) = m_emStatus (session w a) /\
    m_emSessionType (sess m a) = m_emSessionType (session w a) /\
    (plain (mgr w) -> plain m).
Proof.
  intros Hok Hs. destruct r as [ap acts]. cbn [fst snd] in *.
  destruct (perform_sends new_char SZ Q_ERROR_NULLPOINTER acts (set_srv (mgr w) (set_app (srv (mgr w)) ap))
    (set_srv_ok _ _ _ Hok) Hs) as (m & E & O & (T1 & T2 & T3 & T4 & _ & T6) & K1 & K2).
  exists m. destruct (T6 a) as (_ & _ & R). destruct (K1 a) as [K3 K4]. splits; try assumption; try reflexivity.
  - intros f Hf. unfold callback. rewrite E by exact Hf. reflexivity.
  - unfold buffer_of, input. rewrite R. reflexivity.
Qed.

(** The table and the session's kind and state are as before. *)
Definition undisturbed (w w' : worker) (a : addr) : Prop :=
  m_umapSession (mgr w') = m_umapSession (mgr w) /\ live (mgr w') = live (mgr w) /\
  m_pCurrent (mgr w') = m_pCurrent (mgr w) /\
  m_emStatus (session w' a) = m_emStatus (session w a) /\
  m_emSessionType (session w' a) = m_emSessionType (session w a) /\ (plain (mgr w) -> plain (mgr w')).

Lemma undisturbed_refl w a : undisturbed w w a.
Proof. unfold undisturbed. splits; auto. Qed.

Lemma undisturbed_trans w1 w2 w3 a : undisturbed w1 w2 a -> undisturbed w2 w3 a -> undisturbed w1 w3 a.
Proof.
  intros (A1 & A2 & A3 & A4 & A5 & A6) (C1 & C2 & C3 & C4 & C5 & C6). unfold undisturbed. splits; congruence || auto.
Qed.

Lemma drain_undisturbed w a n : undisturbed w (drain w a n) a.
Proof. unfold undisturbed, drain, on_sess, session. cbn [mgr set_mgr]. rewrite sess_modify_eq. splits; auto. Qed.

Lemma drain_input w a n : 0 <= n -> input (buffer_of (drain w a n) a) = skipn (Z.to_nat n) (input (buffer_of w a)).
Proof.
  intros Hn. unfold drain, on_sess, buffer_of, session. cbn [mgr set_mgr]. rewrite sess_modify_eq.
  apply delBuffer_input, Hn.
Qed.

Lemma drain_app w a n : app (drain w a n) = app w.
Proof. reflexivity. Qed.

Section Stream.
Context (HSZ : SZ = 4%nat \/ SZ = 8%nat).
Context (Honly : forall s l, Forall (fun x => sends x = true) (snd (onSockRead s l))).

(** The application after a sequence of messages. *)
Definition hears (s : A) (msgs : list (list Z)) : A := fold_left (fun s l => fst (onSockRead s l)) msgs s.

Definition whole (msgs : list (list Z)) : list Z := flat_map (TcpParser.frame SZ) msgs.

Lemma whole_bytes msgs : Forall bytes msgs -> bytes (whole msgs).
Proof.
  induction 1 as [|l r Hl Hr IH]; [constructor|]. cbn. apply Forall_app. split; [|exact IH].
  apply Forall_app. split; [apply TcpParser.bytes_head_bytes, HSZ | exact Hl].
Qed.

Lemma dispTcp_stream msgs : forall w a m0 k, good w a ->
  m_emStatus (session w a) <> SESSSTATUS_CLOSED -> m_emSessionType (session w a) <> STYPE_DEBUG -> plain (mgr w) ->
  Forall (TcpParser.fits SZ) msgs -> Forall bytes msgs -> TcpParser.fits SZ m0 -> bytes m0 ->
  (k < length (TcpParser.frame SZ m0))%nat ->
  input (buffer_of w a) = whole msgs ++ firstn k (TcpParser.frame SZ m0) ->
  exists n w', (forall fuel, (n <= fuel)%nat -> dispTcp fuel w a = Some w') /\ good w' a /\ undisturbed w w' a /\
    input (buffer_of w' a) = firstn k (TcpParser.frame SZ m0) /\ app w' = hears (app w) msgs.
Proof.
  induction msgs as [|msg r IH]; intros w a m0 k Hg Hst Hty Hp Hf Hb Hf0 Hb0 Hk Hi.
  - cbn [whole flat_map app] in Hi.
    pose proof (TcpParser.parsePack_partial SZ HSZ (m_objTcpParser w) (buffer_of w a) (mem (buffer_of w a)) m0 k Hf0) as H.
    assert (HB : bytes (input (buffer_of w a))).
    { rewrite Hi. apply Forall_firstn, Forall_app. split; [apply TcpParser.bytes_head_bytes, HSZ | exact Hb0]. }
    specialize (H HB Hk Hi). exists 1%nat. destruct (TcpParser.parsePack _ _ _ _) as [p res] eqn:EP.
    destruct H as (-> & _). exists (set_tcpp w p).
    splits; [| exact Hg | exact (undisturbed_refl w a) | exact Hi | reflexivity].
    intros [|f] Hfu; [lia|]. cbn [dispTcp]. rewrite EP. reflexivity.
  - inversion Hf as [|? ? Hf1 Hfr]; subst. inversion Hb as [|? ? Hb1 Hbr]; subst.
    cbn [whole flat_map] in Hi. rewrite <- app_assoc in Hi. fold (whole r) in Hi.
    pose proof (TcpParser.parsePack_frame SZ HSZ (m_objTcpParser w) (buffer_of w a) (mem (buffer_of w a)) msg
      (whole r ++ firstn k (TcpParser.frame SZ m0)) Hf1) as H.
    assert (HB : bytes (input (buffer_of w a))).
    { rewrite Hi. apply Forall_app. split; [|apply Forall_app; split; [apply whole_bytes, Hbr|]].
      - apply Forall_app. split; [apply TcpParser.bytes_head_bytes, HSZ | exact Hb1].
      - apply Forall_firstn, Forall_app. split; [apply TcpParser.bytes_head_bytes, HSZ | exact Hb0]. }
    specialize (H HB Hi). destruct (TcpParser.parsePack _ _ _ _) as [p res] eqn:EP.
    destruct H as ((s & -> & Hs) & Hlen & Hparsed & _).
    set (w1 := set_tcpp w p).
    destruct (callback_sends w1 (onSockRead (app w1) msg) a (proj1 Hg) (Honly _ _))
      as (m & Ec & Om & S1 & S2 & S3 & S4 & S5 & S6 & S7 & S8).
    set (w2 := set_mgr w1 m).
    assert (U2 : undisturbed w w2 a) by (unfold undisturbed; splits; assumption).
    assert (Hh2 : is_Some (heap (m_objSessionPool m) !! a)).
    { specialize (Ec (Datatypes.S (length (snd (onSockRead (app w1) msg)))) ltac:(lia)).
      apply (callback_good _ _ a) in Ec as [[_ H2] _]; [exact H2 | exact Hg]. }
    assert (G2 : good w2 a) by (split; assumption).
    set (w3 := drain w2 a (TcpParser.getParsedLens p)).
    assert (U3 : undisturbed w w3 a) by (eapply undisturbed_trans; [exact U2 | apply drain_undisturbed]).
    assert (Hst3 : m_emStatus (session w3 a) <> SESSSTATUS_CLOSED)
      by (destruct U3 as (_ & _ & _ & -> & _); exact Hst).
    assert (Hty3 : m_emSessionType (session w3 a) <> STYPE_DEBUG)
      by (destruct U3 as (_ & _ & _ & _ & -> & _); exact Hty).
    assert (Hp3 : plain (mgr w3)) by (apply U3, Hp).
    assert (Hi3 : input (buffer_of w3 a) = whole r ++ firstn k (TcpParser.frame SZ m0)).
    { unfold w3. rewrite drain_input by (rewrite Hparsed; lia).
      assert (Hi2 : input (buffer_of w2 a) = input (buffer_of w a)) by exact S5.
      rewrite Hi2, Hi, Hparsed, Nat2Z.id, skipn_app_len. reflexivity. }
    destruct (IH w3 a m0 k (drain_good w2 a _ G2) Hst3 Hty3 Hp3 Hfr Hbr Hf0 Hb0 Hk Hi3)
      as (n & w' & E' & G' & U' & I' & A').
    exists (Datatypes.S (Nat.max n (Datatypes.S (length (snd (onSockRead (app w1) msg)))))), w'.
    splits; [| exact G' | eapply undisturbed_trans; eauto | exact I' |].
    + intros [|f] Hfu; [lia|]. cbn [dispTcp]. rewrite EP. fold w1.
      rewrite Hlen, Nat2Z.id, Hs, (decode_plain w1) by exact Hp.
      change (session w1 a) with (session w a). rewrite (proj2 (Z.eqb_neq _ _) Hty).
      rewrite Ec by lia. cbn [obind]. fold w2. unfold is_closed.
      destruct U2 as (_ & _ & _ & -> & _). rewrite (proj2 (Z.eqb_neq _ _) Hst). apply E'. lia.
    + rewrite A'. unfold w3. rewrite drain_app. cbn [hears fold_left]. unfold app at 1, w2. cbn [mgr set_mgr].
      rewrite S1. reflexivity.
Qed.

(** A prefix of a stream of frames: whole frames and a part of the next. *)
Lemma split_stream msgs : forall n, (n < length (whole msgs))%nat -> exists done m0 rest k,
  msgs = done ++ m0 :: rest /\ (k < length (TcpParser.frame SZ m0))%nat /\
  firstn n (whole msgs) = whole done ++ firstn k (TcpParser.frame SZ m0).
Proof.
  induction msgs as [|m r IH]; intros n Hn; [cbn in Hn; lia|].
  cbn [whole flat_map] in *. fold (whole r) in *. rewrite length_app in Hn.
  destruct (Nat.lt_ge_cases n (length (TcpParser.frame SZ m))) as [C|C].
  - exists [], m, r, n. splits; [reflexivity | exact C |]. rewrite firstn_app.
    replace (n - length (TcpParser.frame SZ m))%nat with O by lia. cbn [firstn]. rewrite app_nil_r. reflexivity.
  - destruct (IH (n - length (TcpParser.frame SZ m))%nat ltac:(lia)) as (d & m0 & rest & k & -> & Hk & E).
    exists (m :: d), m0, rest, k. splits; [reflexivity | exact Hk |].
    rewrite firstn_app, firstn_all2 by lia. rewrite E. cbn [whole flat_map]. rewrite <- app_assoc. reflexivity.
Qed.

Lemma arrives_io (b b' : CEventBuffer B) c : arrives b c b' -> io b b' /\ input b' = input b ++ c.
Proof.
  intros (H1 & H2 & H3 & r & r' & R1 & R2 & R3). unfold io, input. rewrite R1, R2, H3. splits; auto; discriminate.
Qed.

Lemma arrive_state w bev a b c : connected w bev a -> arrives (buffer_of w a) c b ->
  let w1 := on_sess w a (setBuf b) in
  connected w1 bev a /\ m_emSessionType (session w1 a) = m_emSessionType (session w a) /\
  input (buffer_of w1 a) = input (buffer_of w a) ++ c /\ app w1 = app w.
Proof.
  intros [C1 C2 C3 C4 C5] H. apply arrives_io in H as [Hio Hin]. cbv zeta.
  destruct (getSession_live _ _ _ C1 C3 C2) as [Hm _]. pose proof (mapped_heap _ _ _ _ C1 Hm) as Hh.
  assert (Es : session (on_sess w a (setBuf b)) a = setBuf b (session w a)) by apply sess_modify_eq.
  splits.
  - constructor; try assumption.
    + apply modify_ok; [exact C1 | exact Hh | apply io_link, Hio].
    + rewrite Es. exact C4.
  - rewrite Es. reflexivity.
  - unfold buffer_of at 1. rewrite Es. exact Hin.
  - reflexivity.
Qed.

(** The read callback on a TCP connection. *)
Lemma read_stream w bev a msgs m0 k : connected w bev a -> 
  m_emSessionType (session w a) = STYPE_TCP \/ m_emSessionType (session w a) = STYPE_TCPCLIENT ->
  Forall (TcpParser.fits SZ) msgs -> Forall bytes msgs -> TcpParser.fits SZ m0 -> bytes m0 ->
  (k < length (TcpParser.frame SZ m0))%nat ->
  input (buffer_of w a) = whole msgs ++ firstn k (TcpParser.frame SZ m0) ->
  exists w', computes (fun fuel => workThreadReadCB fuel w bev) w' /\ connected w' bev a /\
    m_emSessionType (session w' a) = m_emSessionType (session w a) /\
    input (buffer_of w' a) = firstn k (TcpParser.frame SZ m0) /\ app w' = hears (app w) msgs.
Proof.
  intros [C1 C2 C3 C4 C5] Ht Hf Hb Hf0 Hb0 Hk Hi.
  destruct (getSession_live _ _ _ C1 C3 C2) as [Hm _]. pose proof (mapped_heap _ _ _ _ C1 Hm) as Hh.
  set (w1 := setCur w (Some a)).
  assert (G1 : good w1 a) by (split; [apply setCur_ok; [exact C1 | intros c [= <-]; exact Hh] | exact Hh]).
  assert (Hty : m_emSessionType (session w a) <> STYPE_DEBUG) by (destruct Ht as [-> | ->]; discriminate).
  destruct (dispTcp_stream msgs w1 a m0 k G1 C4 Hty C5 Hf Hb Hf0 Hb0 Hk Hi) as (n & w2 & E & [O2 H2] & U & I2 & A2).
  destruct U as (U1 & U2 & _ & U4 & U5 & U6).
  exists (setCur w2 None). splits.
  - exists n. intros fuel Hfu. unfold workThreadReadCB. rewrite C3. fold w1.
    change (session w1 a) with (session w a).
    assert (Hd : (m_emSessionType (session w a) =? STYPE_DEBUG) || (m_emSessionType (session w a) =? STYPE_TCPCLIENT)
                 || (m_emSessionType (session w a) =? STYPE_TCP) = true) by (destruct Ht as [-> | ->]; reflexivity).
    rewrite Hd, E by exact Hfu. reflexivity.
  - constructor.
    + apply setCur_ok; [exact O2 | discriminate].
    + cbn. rewrite U2. exact C2.
    + unfold getSession, getfd in *. cbn [setCur mgr set_mgr setCurSession live m_umapSession]. rewrite U1, U2. exact C3.
    + change (session (setCur w2 None) a) with (session w2 a). rewrite U4. exact C4.
    + apply U6, C5.
  - change (session (setCur w2 None) a) with (session w2 a). rewrite U5. reflexivity.
  - exact I2.
  - exact A2.
Qed.

(** The read callback runs after each of the chunks has arrived, always returns, and leaves
    a state with [Q]. *)
Fixpoint delivered (bev : positive) (a : addr) (chunks : list (list Z)) (w : worker) (Q : worker -> Prop) : Prop :=
  match chunks with
  | [] => Q w
  | c :: cs => forall b, arrives (buffer_of w a) c b ->
      exists w1, computes (fun fuel => workThreadReadCB fuel (on_sess w a (setBuf b)) bev) w1 /\ delivered bev a cs w1 Q
  end.

Lemma whole_app l r : whole (l ++ r) = whole l ++ whole r.
Proof. apply flat_map_app. Qed.

Lemma frame_pos m : (0 < length (TcpParser.frame SZ m))%nat.
Proof.
  unfold TcpParser.frame, TcpParser.head_bytes. rewrite length_app.
  destruct (_ <=? _); [cbn; lia|]. destruct (_ <=? _); cbn; lia.
Qed.

Lemma fits_nil : TcpParser.fits SZ [].
Proof. destruct HSZ as [-> | ->]; split; vm_compute; reflexivity. Qed.

Lemma delivered_chunks bev a chunks : forall w msgs, connected w bev a ->
  m_emSessionType (session w a) = STYPE_TCP \/ m_emSessionType (session w a) = STYPE_TCPCLIENT ->
  Forall (TcpParser.fits SZ) msgs -> Forall bytes msgs ->
  whole msgs = input (buffer_of w a) ++ concat chunks ->
  msgs = [] \/ (length (input (buffer_of w a)) < length (whole msgs))%nat ->
  delivered bev a chunks w (fun w' => input (buffer_of w' a) = [] /\ app w' = hears (app w) msgs /\ ok None (mgr w')).
Proof.
  induction chunks as [|c cs IH]; intros w msgs Hc Ht Hf Hb Hw Hp; cbn [delivered concat] in *.
  - rewrite app_nil_r in Hw. destruct Hp as [-> | Hp]; [|rewrite Hw in Hp; lia].
    splits; [symmetry; exact Hw | reflexivity | apply Hc].
  - intros b Harr. destruct (arrive_state w bev a b c Hc Harr) as (C1 & T1 & I1 & A1). cbv zeta in *.
    set (w1 := on_sess w a (setBuf b)) in *. rewrite app_assoc, <- I1 in Hw.
    assert (HT : m_emSessionType (session w1 a) = STYPE_TCP \/ m_emSessionType (session w1 a) = STYPE_TCPCLIENT)
      by (rewrite T1; exact Ht).
    assert (Hn : input (buffer_of w1 a) = firstn (length (input (buffer_of w1 a))) (whole msgs))
      by (rewrite Hw, firstn_app_len; reflexivity).
    destruct (Nat.lt_ge_cases (length (input (buffer_of w1 a))) (length (whole msgs))) as [C|C].
    + destruct (split_stream msgs _ C) as (d & m0 & rest & k & -> & Hk & E). rewrite E in Hn.
      apply Forall_app in Hf as [Hf1 Hf2]. apply Forall_app in Hb as [Hb1 Hb2].
      inversion Hf2; subst. inversion Hb2; subst.
      destruct (read_stream w1 bev a d m0 k C1 HT) as (w2 & E2 & C2 & T2 & I2 & A2); auto.
      exists w2. split; [exact E2|].
      assert (R : delivered bev a cs w2 (fun w' => input (buffer_of w' a) = [] /\
                    app w' = hears (app w2) (m0 :: rest) /\ ok None (mgr w'))).
      { apply IH; auto.
        - rewrite T2. exact HT.
        - rewrite I2. rewrite Hn, whole_app, <- app_assoc in Hw. apply app_inv_head in Hw. exact Hw.
        - right. rewrite I2, length_firstn. cbn [whole flat_map]. rewrite length_app. lia. }
      revert R. rewrite A2, A1. unfold hears. rewrite <- fold_left_app. exact (fun x => x).
    + assert (Hi : input (buffer_of w1 a) = whole msgs /\ concat cs = []).
      { rewrite firstn_all2 in Hn by lia. split; [exact Hn|]. rewrite <- Hn in Hw.
        apply (app_inv_head (input (buffer_of w1 a))). rewrite app_nil_r. symmetry. exact Hw. }
      destruct Hi as [Hi Hcs].
      destruct (read_stream w1 bev a msgs [] 0 C1 HT Hf Hb fits_nil) as (w2 & E2 & C2 & T2 & I2 & A2).
      { constructor. }
      { apply frame_pos. }
      { rewrite Hi, app_nil_r. reflexivity. }
      exists w2. split; [exact E2|].
      assert (R : delivered bev a cs w2 (fun w' => input (buffer_of w' a) = [] /\ app w' = hears (app w2) [] /\ ok None (mgr w'))).
      { apply IH; auto; [rewrite T2; exact HT | cbn in I2; rewrite I2, Hcs; reflexivity]. }
      revert R. rewrite A2, A1. exact (fun x => x).
Qed.

End Stream.

(** ** WebSocket messages *)

Record wsframe := { f_fin : bool; f_op : Z; f_key : list Z; f_data : list Z }.

Definition wire (f : wsframe) : list Z := WebSockParser.client_frame (f_fin f) (f_op f) (f_key f) (f_data f).

(** The frames a client may send while the connection is open. *)
Definition sendable (f : wsframe) : Prop :=
  0 <= f_op f < 16 /\ f_op f <> WSOCK_CLOSE /\ length (f_key f) = 4%nat /\ WebSockParser.ws_fits SZ (f_data f).

(** The reference: the fragments kept after a frame, and the message it completes.  Control
    frames pass between the fragments. *)
Definition assemble (pack : option (list Z)) (f : wsframe) : option (list Z) * list (list Z) :=
  if (f_op f =? WSOCK_PING) || (f_op f =? WSOCK_PONG) then (pack, [])
  else if f_fin f then
    if f_op f =? WSOCK_CONTINUATION then
      match pack with
      | Some l => (Some [], [l ++ f_data f])
      | None => (None, [])
      end
    else (pack, [f_data f])
  else (Some (default [] pack ++ f_data f), []).

Fixpoint assemble_all (pack : option (list Z)) (fs : list wsframe) : option (list Z) * list (list Z) :=
  match fs with
  | [] => (pack, [])
  | f :: r => let (pack, out) := assemble pack f in
              let (pack, out') := assemble_all pack r in (pack, out ++ out')
  end.

Section Frames.
Context (HSZ : SZ = 4%nat \/ SZ = 8%nat).
Context (Honly : forall s l, Forall (fun x => sends x = true) (snd (onSockRead s l))).

(** The session is the one of descriptor [sock], open and unencrypted. *)
Definition ready (w : worker) (a : addr) (sock : Z) : Prop :=
  good w a /\ m_umapSession (mgr w) !! sock = Some a /\
  m_emStatus (session w a) <> SESSSTATUS_CLOSED /\ plain (mgr w).

Lemma ready_FD w a sock : ready w a sock -> m_FD (buffer_of w a) = sock.
Proof.
  intros ([Hok _] & Hm & _). destruct (ok_map _ _ Hok sock a Hm) as (_ & _ & x & b & H & _ & H2 & _).
  unfold buffer_of, session, sess. rewrite H. exact H2.
Qed.

Lemma ready_next w w' a sock : ready w a sock -> good w' a -> undisturbed w w' a -> ready w' a sock.
Proof.
  intros (_ & Hm & Hs & Hp) Hg (U1 & _ & _ & U4 & _ & U6). split; [exact Hg|].
  rewrite U1, U4. auto.
Qed.

Lemma write_undisturbed w a l : undisturbed w (write w a l) a /\
  input (buffer_of (write w a l) a) = input (buffer_of w a).
Proof.
  unfold write, undisturbed, buffer_of, session. cbn [mgr set_mgr]. unfold writeSess.
  pose proof (writeBuffer_output Q_ERROR_NULLPOINTER (m_objBuffer (sess (mgr w) a)) l) as H.
  destruct (writeBuffer _ _ _) as [b rc]. cbn [fst]. rewrite !sess_modify_eq. cbn [m_objBuffer m_emStatus m_emSessionType setBuf].
  splits; auto. apply H.
Qed.

Lemma write_app w a l : app (write w a l) = app w.
Proof.
  unfold write, app, writeSess. cbn [mgr set_mgr]. destruct (writeBuffer _ _ _) as [b rc]. reflexivity.
Qed.

Lemma setPing_undisturbed w a n : undisturbed w (on_sess w a (setPing n)) a /\
  input (buffer_of (on_sess w a (setPing n)) a) = input (buffer_of w a).
Proof.
  unfold undisturbed, buffer_of, session, on_sess. cbn [mgr set_mgr]. rewrite !sess_modify_eq. splits; auto.
Qed.

(** What one frame does. *)
Lemma dispFrame_spec w a sock f p : ready w a sock -> sendable f -> m_objWebSockParser w = p ->
  WebSockParser.emOpCode (WebSockParser.m_stFram p) = f_op f ->
  WebSockParser.cFin (WebSockParser.m_stFram p) = (if f_fin f then 1 else 0) ->
  WebSockParser.getMsg p = f_data f -> 0 <= WebSockParser.m_iParsedLens p ->
  exists n w', (forall fuel, (n <= fuel)%nat -> dispFrame fuel w a = Some (w', true)) /\ ready w' a sock /\
    undisturbed w w' a /\
    input (buffer_of w' a) = skipn (Z.to_nat (WebSockParser.m_iParsedLens p)) (input (buffer_of w a)) /\
    app w' = hears (app w) (snd (assemble (m_mapWebSockPack w !! sock) f)) /\
    m_mapWebSockPack w' !! sock = fst (assemble (m_mapWebSockPack w !! sock) f).
Proof.
  intros Hr Hf Hp Hop Hfin Hmsg Hpl. pose proof (ready_FD _ _ _ Hr) as HFD.
  pose proof Hr as (Hg & Hm & Hst & Hpla).
  unfold dispFrame. rewrite Hp, Hop, Hfin, Hmsg. unfold assemble.
  set (n := WebSockParser.m_iParsedLens p) in *.
  (* the end of every branch but the dropped final fragment *)
  assert (Hend : forall w1, good w1 a -> undisturbed w w1 a -> input (buffer_of w1 a) = input (buffer_of w a) ->
    ready (drain w1 a n) a sock /\ undisturbed w (drain w1 a n) a /\
    input (buffer_of (drain w1 a n) a) = skipn (Z.to_nat n) (input (buffer_of w a))).
  { intros w1 G1 U1 I1. assert (U2 : undisturbed w (drain w1 a n) a)
      by (eapply undisturbed_trans; [exact U1 | apply drain_undisturbed]).
    splits; [eapply ready_next; [exact Hr | apply drain_good, G1 | exact U2] | exact U2 |].
    rewrite drain_input, I1 by exact Hpl. reflexivity. }
  destruct (f_op f =? WSOCK_PING) eqn:E1.
  { destruct (write_undisturbed w a (WebSockParser.ws_head true WSOCK_PONG 0)) as [U1 I1].
    set (w1 := write w a _) in *. destruct (setPing_undisturbed w1 a (m_uiCount (mgr w1))) as [U2 I2].
    destruct (Hend (on_sess w1 a (setPing (m_uiCount (mgr w1))))) as (R & U & I).
    - apply on_sess_good; [apply write_good, Hg | apply ping_link].
    - eapply undisturbed_trans; eauto.
    - congruence.
    - exists O, (drain (on_sess w1 a (setPing (m_uiCount (mgr w1)))) a n). splits; [intros; reflexivity | exact R | exact U | exact I | exact (write_app w a _) | reflexivity]. }
  destruct (f_op f =? WSOCK_PONG) eqn:E2.
  { destruct (setPing_undisturbed w a (m_uiCount (mgr w))) as [U2 I2].
    destruct (Hend (on_sess w a (setPing (m_uiCount (mgr w))))) as (R & U & I).
    - apply on_sess_good; [exact Hg | apply ping_link].
    - exact U2.
    - exact I2.
    - exists O, (drain (on_sess w a (setPing (m_uiCount (mgr w)))) a n). splits; [intros; reflexivity | exact R | exact U | exact I | reflexivity | reflexivity]. }
  cbn [orb]. rewrite HFD, (decode_plain w) by exact Hpla.
  (* a callback with a message *)
  assert (Hcall : forall w1 l, mgr w1 = mgr w -> exists k w2,
    (forall fuel, (k <= fuel)%nat -> callback fuel w1 (onSockRead (app w1) l) = Some w2) /\ good w2 a /\
    undisturbed w w2 a /\ input (buffer_of w2 a) = input (buffer_of w a) /\ app w2 = hears (app w) [l] /\
    m_mapWebSockPack w2 = m_mapWebSockPack w1 /\ is_closed w2 a = false).
  { intros w1 l E. destruct (callback_sends w1 (onSockRead (app w1) l) a) as
      (m & Ec & Om & S1 & S2 & S3 & S4 & S5 & S6 & S7 & S8); [rewrite E; apply Hg | apply Honly |].
    exists (Datatypes.S (length (snd (onSockRead (app w1) l)))), (set_mgr w1 m).
    assert (Hh : is_Some (heap (m_objSessionPool m) !! a)).
    { specialize (Ec (Datatypes.S (length (snd (onSockRead (app w1) l)))) ltac:(lia)).
      apply (callback_good _ _ a) in Ec as [[_ H2] _]; [exact H2 | unfold good; rewrite E; exact Hg]. }
    unfold session, buffer_of, app in *. rewrite E in *. splits.
    - intros fuel Hfu. apply Ec. lia.
    - split; assumption.
    - unfold undisturbed. splits; assumption.
    - change (input (m_objBuffer (sess m a)) = input (m_objBuffer (sess (mgr w) a))). rewrite S5.
      unfold session. rewrite E. reflexivity.
    - exact S1.
    - reflexivity.
    - unfold is_closed, session. cbn [mgr set_mgr]. rewrite S6. apply Z.eqb_neq, Hst. }
  destruct (f_fin f); cbn [Z.eqb Pos.eqb andb].
  - rewrite andb_true_r. destruct (f_op f =? WSOCK_CONTINUATION) eqn:E3; cbn [negb].
    + unfold getContinuation. destruct (m_mapWebSockPack w !! sock) as [buf|] eqn:Eb.
      * assert (EA : addContinuation w sock (f_data f) = set_pack w (<[sock := buf ++ f_data f]> (m_mapWebSockPack w)))
          by (unfold addContinuation; rewrite Eb; reflexivity).
        rewrite EA. cbn [m_mapWebSockPack set_pack]. rewrite lookup_insert_eq. cbn [default].
        destruct (Hcall (set_pack w (<[sock := buf ++ f_data f]> (m_mapWebSockPack w))) (buf ++ f_data f) eq_refl)
          as (k & w2 & Ec & G2 & U2 & I2 & A2 & P2 & S2).
        destruct (Hend w2 G2 U2 I2) as (R & U & I).
        eexists k, _. splits.
        -- intros fuel Hfu. cbn [id]. rewrite (Ec fuel Hfu). cbn [obind]. rewrite S2. reflexivity.
        -- exact R.
        -- exact U.
        -- exact I.
        -- exact A2.
        -- cbn. apply lookup_insert_eq.
      * destruct (Hend w Hg (undisturbed_refl w a) eq_refl) as (R & U & I).
        exists O, (drain w a n). splits; [intros; reflexivity | exact R | exact U | exact I | reflexivity | exact Eb].
    + destruct (Hcall w (f_data f) eq_refl) as (k & w2 & Ec & G2 & U2 & I2 & A2 & P2 & S2).
      destruct (Hend w2 G2 U2 I2) as (R & U & I).
      eexists k, _. splits.
      * intros fuel Hfu. rewrite (Ec fuel Hfu). cbn [obind]. rewrite S2. reflexivity.
      * exact R.
      * exact U.
      * exact I.
      * exact A2.
      * cbn. rewrite P2. reflexivity.
  - rewrite andb_false_r.
    assert (EA : exists u, addContinuation w sock (f_data f) = set_pack w u /\
                 u !! sock = Some (default [] (m_mapWebSockPack w !! sock) ++ f_data f)).
    { unfold addContinuation. destruct (m_mapWebSockPack w !! sock) as [buf|];
        (eexists; split; [reflexivity | apply lookup_insert_eq]). }
    destruct EA as (u & -> & Eu).
    destruct (Hend (set_pack w u) Hg (undisturbed_refl w a) eq_refl) as (R & U & I).
    exists O, (drain (set_pack w u) a n). splits; [intros; reflexivity | exact R | exact U | exact I | reflexivity | exact Eu].
Qed.

Lemma hears_app s l r : hears s (l ++ r) = hears (hears s l) r.
Proof. apply fold_left_app. Qed.

Lemma assemble_all_cons pack f r : assemble_all pack (f :: r) =
  (fst (assemble_all (fst (assemble pack f)) r), snd (assemble pack f) ++ snd (assemble_all (fst (assemble pack f)) r)).
Proof. cbn. destruct (assemble pack f) as [u o]. cbn. destruct (assemble_all u r). reflexivity. Qed.

(** The state after a frame has been parsed. *)
Lemma parsed_state w a sock p b s : ready w a sock -> io (buffer_of w a) b ->
  let w1 := on_sess (set_ws w p s) a (setBuf b) in
  ready w1 a sock /\ undisturbed w w1 a /\ buffer_of w1 a = b.
Proof.
  intros Hr Hio. cbv zeta. set (w1 := on_sess _ a _).
  assert (Es : session w1 a = setBuf b (session w a)) by apply sess_modify_eq.
  assert (U : undisturbed w w1 a) by (unfold undisturbed; rewrite Es; splits; auto).
  splits; [|exact U | unfold buffer_of; rewrite Es; reflexivity].
  eapply ready_next; [exact Hr | | exact U].
  apply (on_sess_good (set_ws w p s)); [apply Hr | apply io_link, Hio].
Qed.

Lemma dispFrames_stream fs : forall w a sock f0 k, ready w a sock -> Forall sendable fs -> sendable f0 ->
  (k < length (wire f0))%nat -> Z.of_nat (length (input (buffer_of w a))) < 2 ^ 63 ->
  input (buffer_of w a) = flat_map wire fs ++ firstn k (wire f0) ->
  exists n w', (forall fuel, (n <= fuel)%nat -> dispFrames fuel w a = Some w') /\ ready w' a sock /\
    undisturbed w w' a /\ input (buffer_of w' a) = firstn k (wire f0) /\
    app w' = hears (app w) (snd (assemble_all (m_mapWebSockPack w !! sock) fs)) /\
    m_mapWebSockPack w' !! sock = fst (assemble_all (m_mapWebSockPack w !! sock) fs).
Proof.
  induction fs as [|f r IH]; intros w a sock f0 k Hr Hf Hf0 Hk Hbig Hi.
  - destruct Hf0 as (O1 & O2 & O3 & O4). cbn [flat_map app] in Hi.
    destruct (WebSockParser.ws_parsePack_partial SZ HSZ (m_objWebSockParser w) (buffer_of w a) (f_fin f0) (f_op f0)
      (f_key f0) (f_data f0) O1 O3 O4 k Hk Hi) as (p & EP & Hc & _).
    destruct (parsed_state w a sock p (buffer_of w a) (m_shaker w) Hr) as (R & U & EB1); [unfold io; splits; auto|].
    set (w1 := on_sess _ a _) in *. exists 1%nat, w1. splits.
    + intros [|fu] Hfu; [lia|]. cbn [dispFrames]. rewrite EP, Hc. reflexivity.
    + exact R.
    + exact U.
    + rewrite EB1. exact Hi.
    + reflexivity.
    + reflexivity.
  - inversion Hf as [|? ? Hf1 Hfr]; subst. pose proof Hf1 as (O1 & O2 & O3 & O4).
    cbn [flat_map] in Hi. rewrite <- app_assoc in Hi.
    destruct (WebSockParser.ws_parsePack_frame SZ HSZ (m_objWebSockParser w) (buffer_of w a) (f_fin f) (f_op f)
      (f_key f) (f_data f) O1 O3 O4 Hbig _ Hi) as (p & b & EP & Hc & Hmsg & Hpl & _ & Hop & Hfin & Hib & _).
    destruct (parsed_state w a sock p b (m_shaker w) Hr (parsePack_io _ _ _ _ _ EP)) as (R & U & EB1).
    set (w1 := on_sess _ a _) in *.
    destruct (dispFrame_spec w1 a sock f p R Hf1 eq_refl Hop Hfin Hmsg ltac:(rewrite Hpl; lia))
      as (n1 & w2 & E2 & R2 & U2 & I2 & A2 & P2).
    change (m_mapWebSockPack w1) with (m_mapWebSockPack w) in A2, P2. change (app w1) with (app w) in A2.
    assert (Hi2 : input (buffer_of w2 a) = flat_map wire r ++ firstn k (wire f0)).
    { rewrite I2, EB1, Hib, Hpl, Nat2Z.id, app_assoc. unfold wire.
      rewrite WebSockParser.length_client_frame, <- length_app. apply skipn_app_len. }
    assert (Hbig2 : Z.of_nat (length (input (buffer_of w2 a))) < 2 ^ 63).
    { rewrite Hi2. rewrite Hi, length_app in Hbig. lia. }
    destruct (IH w2 a sock f0 k R2 Hfr Hf0 Hk Hbig2 Hi2) as (n2 & w3 & E3 & R3 & U3 & I3 & A3 & P3).
    exists (Datatypes.S (Nat.max n1 n2)), w3. rewrite assemble_all_cons. cbn [fst snd].
    rewrite P2 in A3, P3. rewrite A2 in A3. splits.
    + intros [|fu] Hfu; [lia|]. cbn [dispFrames]. rewrite EP. fold w1. rewrite Hc. cbn [negb].
      rewrite Hop, (proj2 (Z.eqb_neq _ _) O2), E2 by lia. cbn [obind]. apply E3. lia.
    + exact R3.
    + eapply undisturbed_trans; [exact U|]. eapply undisturbed_trans; eassumption.
    + exact I3.
    + rewrite A3, hears_app. reflexivity.
    + exact P3.
Qed.

(** The read callback on an open WebSocket connection. *)
Lemma read_frames w bev a fs f0 k : connected w bev a -> m_emSessionType (session w a) = STYPE_WEBSOCK ->
  m_emStatus (session w a) <> SESSSTATUS_CONNECT ->
  Forall sendable fs -> sendable f0 -> (k < length (wire f0))%nat ->
  Z.of_nat (length (input (buffer_of w a))) < 2 ^ 63 ->
  input (buffer_of w a) = flat_map wire fs ++ firstn k (wire f0) ->
  let pack := m_mapWebSockPack w !! m_FD (buffer_of w a) in
  exists w', computes (fun fuel => workThreadReadCB fuel w bev) w' /\ connected w' bev a /\
    input (buffer_of w' a) = firstn k (wire f0) /\
    app w' = hears (app w) (snd (assemble_all pack fs)) /\
    m_mapWebSockPack w' !! m_FD (buffer_of w a) = fst (assemble_all pack fs).
Proof.
  intros [C1 C2 C3 C4 C5] Ht Hs Hf Hf0 Hk Hbig Hi. cbv zeta.
  destruct (getSession_live _ _ _ C1 C3 C2) as [Hm Hown]. pose proof (mapped_heap _ _ _ _ C1 Hm) as Hh.
  set (w1 := setCur w (Some a)).
  assert (R1 : ready w1 a (getfd (mgr w) bev)).
  { split; [split; [apply setCur_ok; [exact C1 | intros c [= <-]; exact Hh] | exact Hh]|].
    split; [exact Hm|]. split; assumption. }
  rewrite <- (ready_FD _ _ _ R1) in R1. change (buffer_of w1 a) with (buffer_of w a) in R1.
  destruct (dispFrames_stream fs w1 a _ f0 k R1 Hf Hf0 Hk Hbig Hi) as (n & w2 & E & R2 & U & I2 & A2 & P2).
  destruct U as (U1 & U2 & _ & U4 & U5 & U6). destruct R2 as ((O2 & H2) & _).
  exists (setCur w2 None). splits.
  - exists n. intros fuel Hfu. unfold workThreadReadCB. rewrite C3. fold w1.
    change (session w1 a) with (session w a). rewrite Ht. cbn [Z.eqb Pos.eqb orb STYPE_DEBUG STYPE_TCPCLIENT STYPE_TCP STYPE_WEBSOCK].
    unfold dispWebSock. change (session w1 a) with (session w a). rewrite (proj2 (Z.eqb_neq _ _) Hs), E by exact Hfu.
    reflexivity.
  - constructor.
    + apply setCur_ok; [exact O2 | discriminate].
    + cbn. rewrite U2. exact C2.
    + unfold getSession, getfd in *. cbn [setCur mgr set_mgr setCurSession live m_umapSession]. rewrite U1, U2. exact C3.
    + change (session (setCur w2 None) a) with (session w2 a). rewrite U4. exact C4.
    + apply U6, C5.
  - exact I2.
  - exact A2.
  - exact P2.
Qed.

End Frames.

(** ** Every handler returns *)

Section Returns.
(** What libevent does with a pull-up of no bytes. *)
Context (Hpull : forall b : B, evbuffer_pullup b 0 = None).
Context (HSZ : SZ = 4%nat \/ SZ = 8%nat).

Definition returns {X} (f : nat -> option X) : Prop := exists n x, forall fuel, (n <= fuel)%nat -> f fuel = Some x.

Lemma returns_now {X} (x : X) : returns (fun _ => Some x).
Proof. exists O, x. reflexivity. Qed.

Lemma returns_bind {X Y} (f : nat -> option X) (g : nat -> X -> option Y) :
  (exists n x, (forall fuel, (n <= fuel)%nat -> f fuel = Some x) /\ returns (fun fuel => g fuel x)) ->
  returns (fun fuel => let? x := f fuel in g fuel x).
Proof.
  intros (n & x & E1 & n' & y & E2). exists (Nat.max n n'), y. intros fuel Hf. rewrite E1 by lia. apply E2. lia.
Qed.

Lemma returns_if {X} (c : bool) (f g : nat -> option X) : returns f -> returns g ->
  returns (fun fuel => if c then f fuel else g fuel).
Proof. destruct c; auto. Qed.

Lemma returns_S {X} (f : nat -> option X) : returns (fun fuel => f (Datatypes.S fuel)) -> returns f.
Proof. intros (n & x & H). exists (Datatypes.S n), x. intros [|k] Hk; [lia|]. apply H. lia. Qed.

Definition unread_of (w : worker) (a : addr) : nat := unread (mgr w) a.

Lemma callback_total w r a : good w a -> exists n w', (forall fuel, (n <= fuel)%nat -> callback fuel w r = Some w') /\
  good w' a /\ (unread_of w' a <= unread_of w a)%nat /\ m_objWebSockParser w' = m_objWebSockParser w.
Proof.
  intros Hg. destruct r as [ap acts].
  destruct (perform_ok new_char SZ Q_ERROR_NULLPOINTER acts (set_srv (mgr w) (set_app (srv (mgr w)) ap))
    (set_srv_ok _ _ _ (proj1 Hg))) as (n & m & E & O & T & _).
  assert (EC : forall fuel, (n <= fuel)%nat -> callback fuel w (ap, acts) = Some (set_mgr w m))
    by (intros fuel Hf; unfold callback; rewrite E by exact Hf; reflexivity).
  exists n, (set_mgr w m). splits; [exact EC | | | reflexivity].
  - apply (callback_good n w a (ap, acts)); [exact Hg | apply EC; lia].
  - exact (perform_shrinks new_char SZ Q_ERROR_NULLPOINTER n _ acts m (set_srv_ok _ _ _ (proj1 Hg)) (E n ltac:(lia)) a).
Qed.

Lemma closeLink_returns w iID : ok None (mgr w) -> returns (fun fuel => closeLink fuel w iID).
Proof.
  intros Hok. destruct (closeLinkByID_ok new_char SZ Q_ERROR_NULLPOINTER (mgr w) iID Hok) as (n & m & E & _).
  exists n, (set_mgr w m). intros fuel Hf. unfold closeLink. rewrite E by exact Hf. reflexivity.
Qed.

Lemma decode_unread w msg sv a : unread_of (fst (decode w msg sv)) a = unread_of w a /\
  m_objWebSockParser (fst (decode w msg sv)) = m_objWebSockParser w.
Proof. unfold decode. destruct (CommEncrypt.Decode _ _ _ _ _) as [[c k] out]. split; reflexivity. Qed.

Lemma drain_unread w a n u : 1 <= n -> (0 < u)%nat -> (unread_of w a <= u)%nat -> (unread_of (drain w a n) a < u)%nat.
Proof.
  intros Hn Hp Hu. change (unread_of (drain w a n) a) with (length (input (buffer_of (drain w a n) a))).
  rewrite drain_input, length_skipn by lia. change (length (input (buffer_of w a))) with (unread_of w a). lia.
Qed.

Lemma dispTcp_returns N : forall w a, good w a -> (unread_of w a <= N)%nat -> returns (fun fuel => dispTcp fuel w a).
Proof.
  induction N as [N IH] using lt_wf_ind. intros w a Hg HN.
  apply returns_S. cbn [dispTcp].
  destruct (TcpParser.parsePack SZ (m_objTcpParser w) (buffer_of w a) (mem (buffer_of w a))) as [p [l|]] eqn:EP; [|apply returns_now].
  destruct (TcpParser.parsePack_progress SZ HSZ _ _ _ _ _ Hpull EP) as [Hp Hi].
  set (w1 := set_tcpp w p). set (enc := firstn _ l). set (sv := m_emSessionType (session w a) =? STYPE_TCPCLIENT).
  pose proof (decode_good w1 a enc sv Hg) as G2. destruct (decode_unread w1 enc sv a) as [U2 _].
  destruct (decode w1 enc sv) as [w2 [msg|]]; cbn [fst] in G2, U2; [|apply returns_now].
  apply returns_bind.
  set (r := if m_emSessionType (session w2 a) =? STYPE_DEBUG then onDebug (app w2) msg else onSockRead (app w2) msg).
  destruct (callback_total w2 r a G2) as (n & w3 & E3 & G3 & U3 & _). exists n, w3. split; [exact E3|].
  apply returns_if; [apply returns_now|].
  change (unread_of w1 a) with (unread_of w a) in U2. change (length (input (buffer_of w a))) with (unread_of w a) in Hi.
  pose proof (drain_unread w3 a (TcpParser.getParsedLens p) (unread_of w a) Hp Hi ltac:(lia)) as Hd.
  apply (IH (unread_of (drain w3 a (TcpParser.getParsedLens p)) a)); [lia | apply drain_good, G3 | lia].
Qed.

Lemma dispHandshake_returns w a : good w a -> HandShake.hash_ready (HandShake.m_objSHA1 (m_shaker w)) ->
  bytes (input (buffer_of w a)) -> bytes (mem (buffer_of w a)) ->
  Z.of_nat (length (input (buffer_of w a)) + length (mem (buffer_of w a))) < 2 ^ 31 ->
  returns (fun fuel => dispHandshake fuel w a).
Proof.
  intros Hg Hh Hi Hj Hl. unfold dispHandshake.
  destruct (HandShake.shakeHands_total (m_objWebSockParser w) (m_shaker w) (buffer_of w a) _ Hh Hi Hj Hl)
    as (p & s & r & -> & _). cbn [obind].
  destruct (WebSockParser.m_bClose p); [apply closeLink_returns, Hg|]. destruct r; apply returns_now.
Qed.

(** One frame: it returns, and what goes on has less to read. *)
Lemma dispFrame_returns w a : good w a -> 1 <= WebSockParser.m_iParsedLens (m_objWebSockParser w) ->
  (0 < unread_of w a)%nat -> exists n w' more, (forall fuel, (n <= fuel)%nat -> dispFrame fuel w a = Some (w', more)) /\
    good w' a /\ (more = true -> (unread_of w' a < unread_of w a)%nat).
Proof.
  intros Hg Hp Hu.
  assert (HF : forall (f : nat -> option (worker * bool)) w1, (unread_of w1 a <= unread_of w a)%nat -> good w1 a ->
    (exists n w2, (forall fuel, (n <= fuel)%nat -> f fuel = Some (w2, false)) /\ good w2 a) \/
    (exists n w2, (forall fuel, (n <= fuel)%nat -> f fuel = Some (w2, true)) /\
       mgr w2 = mgr (drain w1 a (WebSockParser.m_iParsedLens (m_objWebSockParser w)))) ->
    exists n w' more, (forall fuel, (n <= fuel)%nat -> f fuel = Some (w', more)) /\
      good w' a /\ (more = true -> (unread_of w' a < unread_of w a)%nat)).
  { intros f w1 U1 G1 [(n & w2 & E & G) | (n & w2 & E & Em)].
    - exists n, w2, false. splits; [exact E | exact G | discriminate].
    - exists n, w2, true. pose proof (drain_good w1 a (WebSockParser.m_iParsedLens (m_objWebSockParser w)) G1) as G.
      split; [exact E|]. split; [unfold good; rewrite Em; exact G|]. intros _.
      unfold unread_of at 1. rewrite Em. apply (drain_unread w1); assumption. }
  unfold dispFrame. set (p := m_objWebSockParser w) in *.
  destruct (_ =? WSOCK_PING).
  { set (w1 := write w a _). destruct (write_undisturbed w a (WebSockParser.ws_head true WSOCK_PONG 0)) as [_ I1].
    destruct (setPing_undisturbed w1 a (m_uiCount (mgr w1))) as [_ I2].
    apply (HF _ (on_sess w1 a (setPing (m_uiCount (mgr w1))))); [| | right; exists O; eauto].
    - change (length (input (buffer_of (on_sess w1 a (setPing (m_uiCount (mgr w1)))) a)) <= length (input (buffer_of w a)))%nat.
      rewrite I2. unfold w1. rewrite I1. lia.
    - apply on_sess_good; [apply write_good, Hg | apply ping_link]. }
  destruct (_ =? WSOCK_PONG).
  { destruct (setPing_undisturbed w a (m_uiCount (mgr w))) as [_ I2].
    apply (HF _ (on_sess w a (setPing (m_uiCount (mgr w))))); [| | right; exists O; eauto].
    - change (length (input (buffer_of (on_sess w a (setPing (m_uiCount (mgr w)))) a)) <= length (input (buffer_of w a)))%nat.
      rewrite I2. lia.
    - apply on_sess_good; [exact Hg | apply ping_link]. }
  set (msg0 := WebSockParser.getMsg p). pose proof (decode_good w a msg0 false Hg) as Gd.
  destruct (decode_unread w msg0 false a) as [Ud Pd].
  destruct (negb _ && _).
  { destruct (decode w msg0 false) as [w1 [msg|]]; cbn [fst] in *; [|apply (HF _ w); [lia | exact Hg | left; exists O, w1; auto]].
    destruct (callback_total w1 (onSockRead (app w1) msg) a Gd) as (n & w2 & E2 & G2 & U2 & P2).
    apply (HF _ w2); [lia | exact G2|]. destruct (is_closed w2 a) eqn:Ec; [left | right]; exists n; eexists;
      (split; [intros fuel Hf; rewrite E2 by exact Hf; cbn [obind]; rewrite Ec; reflexivity | first [exact G2 | reflexivity]]). }
  destruct (_ && _).
  { destruct (getContinuation w _) as [buf|]; [|apply (HF _ w); [lia | exact Hg | right; exists O; eauto]].
    destruct (decode w msg0 false) as [w1 [msg|]]; cbn [fst] in *; [|apply (HF _ w); [lia | exact Hg | left; exists O, w1; auto]].
    cbv zeta. set (sock := m_FD (buffer_of w a)). set (w1' := addContinuation w1 sock msg).
    assert (M1 : mgr w1' = mgr w1) by apply addContinuation_mgr.
    destruct (callback_total w1' (onSockRead (app w1') (default [] (getContinuation w1' sock))) a)
      as (n & w2 & E2 & G2 & U2 & P2); [unfold good; rewrite M1; exact Gd|].
    apply (HF _ w2); [unfold unread_of in *; rewrite M1 in U2; lia | exact G2|].
    destruct (is_closed w2 a) eqn:Ec; [left | right]; exists n; eexists;
      (split; [intros fuel Hf; rewrite E2 by exact Hf; cbn [obind]; rewrite Ec; reflexivity | first [exact G2 | reflexivity]]). }
  destruct (decode w msg0 false) as [w1 [msg|]]; cbn [fst] in *; [|apply (HF _ w); [lia | exact Hg | left; exists O, w1; auto]].
  set (w2 := addContinuation w1 _ msg). assert (M2 : mgr w2 = mgr w1) by apply addContinuation_mgr.
  apply (HF _ w2); [unfold unread_of in *; rewrite M2; lia | unfold good; rewrite M2; exact Gd | right; exists O; eauto].
Qed.

Lemma dispFrames_returns N : forall w a, good w a -> (unread_of w a <= N)%nat -> Z.of_nat N < 2 ^ 63 ->
  returns (fun fuel => dispFrames fuel w a).
Proof.
  induction N as [N IH] using lt_wf_ind. intros w a Hg HN Hbig. apply returns_S. cbn [dispFrames].
  destruct (WebSockParser.parsePack SZ (m_objWebSockParser w) (buffer_of w a)) as [[[p b] bOk]|] eqn:EP; [|apply returns_now].
  set (w1 := on_sess (set_ws w p (m_shaker w)) a (setBuf b)).
  assert (G1 : good w1 a) by (apply on_sess_good; [exact Hg | apply io_link, (parsePack_io _ _ _ _ _ EP)]).
  destruct (WebSockParser.m_bClose p); [apply closeLink_returns, G1|].
  destruct bOk; cbn [negb]; [|apply returns_now].
  assert (Hsz : Z.of_nat (length (input (buffer_of w a))) < 2 ^ 63)
    by (change (length (input (buffer_of w a))) with (unread_of w a); lia).
  destruct (WebSockParser.ws_parsePack_progress SZ HSZ _ _ _ _ Hpull Hsz EP) as (Hp & Hi & Hl).
  assert (U1 : unread_of w1 a = unread_of w a).
  { change (length (input (m_objBuffer (sess (modify (mgr w) a (setBuf b)) a))) = length (input (buffer_of w a))).
    rewrite sess_modify_eq. exact Hl. }
  change (length (input (buffer_of w a))) with (unread_of w a) in Hi.
  destruct (_ =? WSOCK_CLOSE); [apply closeLink_returns, G1|].
  destruct (dispFrame_returns w1 a G1 Hp ltac:(lia)) as (n & w2 & more & E2 & G2 & U2).
  apply returns_bind. exists n, (w2, more). split; [exact E2|]. destruct more; [|apply returns_now].
  specialize (U2 eq_refl). apply (IH (unread_of w2 a)); [lia | exact G2 | lia | lia].
Qed.

(** The memory of a connection is of bytes and fits a 32-bit [int]. *)
Definition sane (w : worker) (a : addr) : Prop :=
  HandShake.hash_ready (HandShake.m_objSHA1 (m_shaker w)) /\
  bytes (input (buffer_of w a)) /\ bytes (mem (buffer_of w a)) /\
  Z.of_nat (length (input (buffer_of w a)) + length (mem (buffer_of w a))) < 2 ^ 31.

Lemma read_returns w bev : ok None (mgr w) -> is_Some (live (mgr w) !! bev) ->
  (forall a, getSession (mgr w) bev = Some a -> sane w a) -> returns (fun fuel => workThreadReadCB fuel w bev).
Proof.
  intros Hok Hl Hs. unfold workThreadReadCB. destruct (getSession (mgr w) bev) as [a|] eqn:Ea; [|apply returns_now].
  destruct (Hs a eq_refl) as (S1 & S2 & S3 & S4).
  destruct (getSession_live _ _ _ Hok Ea Hl) as [Hm _]. pose proof (mapped_heap _ _ _ _ Hok Hm) as Hh.
  set (w1 := setCur w (Some a)).
  assert (G1 : good w1 a) by (split; [apply setCur_ok; [exact Hok | intros c [= <-]; exact Hh] | exact Hh]).
  assert (HR : forall f, returns f -> returns (fun fuel => let? w2 := f fuel in Some (setCur w2 None))).
  { intros f (n & w2 & E). apply returns_bind. exists n, w2. split; [exact E | apply returns_now]. }
  apply HR. apply returns_if; [apply (dispTcp_returns _ w1 a G1 (le_n _))|].
  apply returns_if; [|apply returns_now]. unfold dispWebSock.
  apply returns_if; [apply dispHandshake_returns; assumption | apply (dispFrames_returns _ w1 a G1 (le_n _))].
  change (unread_of w1 a) with (length (input (buffer_of w a))). lia.
Qed.

Lemma callback_returns w r : ok None (mgr w) -> returns (fun fuel => callback fuel w r).
Proof.
  intros Hok. destruct r as [ap acts].
  destruct (perform_ok new_char SZ Q_ERROR_NULLPOINTER acts (set_srv (mgr w) (set_app (srv (mgr w)) ap))
    (set_srv_ok _ _ _ Hok)) as (n & m & E & _).
  exists n, (set_mgr w m). intros fuel Hf. unfold callback. rewrite E by exact Hf. reflexivity.
Qed.

Lemma event_returns w bev : ok None (mgr w) -> returns (fun fuel => workThreadEventCB fuel w bev).
Proof.
  intros Hok. unfold workThreadEventCB. destruct (getSession (mgr w) bev) as [a|]; [|apply returns_now].
  destruct (callback_returns w (onSockClose (app w) (getSessionID (session w a))) Hok) as (n & w1 & E).
  apply returns_bind. exists n, w1. split; [exact E | apply returns_now].
Qed.

Lemma accept_returns w t s bev rc : ok None (mgr w) -> (forall b, bev = Some b -> fresh w b) ->
  returns (fun fuel => onMainRead fuel w t s bev rc).
Proof.
  intros Hok Hf. unfold onMainRead. destruct bev as [bev|]; [|apply returns_now].
  specialize (Hf bev eq_refl). destruct (addSession _ _ _ _) as [m rc0] eqn:E.
  pose proof (entered w bev rc0 m Hok Hf E) as H. destruct (rc0 =? Q_RTN_OK); cbn [negb]; [|apply returns_now].
  destruct H as (O1 & _ & a & Hg & Hh). apply returns_if; [apply returns_now|]. cbn [mgr set_mgr]. rewrite Hg.
  set (w0 := set_mgr (new_bev w bev) m). assert (G0 : good w0 a) by (split; assumption).
  pose proof (on_sess_good w0 a (setType t) G0 (type_link _ t)) as G1.
  pose proof (on_sess_good _ a (setStatus SESSSTATUS_LINKED) G1 (status_link _ _)) as G2.
  destruct (t =? STYPE_WEBSOCK); cbv zeta; (apply returns_if; [apply returns_now|]); apply callback_returns;
    [apply on_sess_good; [exact G2 | apply status_link] | apply G2].
Qed.

Lemma link_returns w t s bev rc : ok None (mgr w) -> (forall b, bev = Some b -> fresh w b) ->
  returns (fun fuel => onAssistRead fuel w t s bev rc).
Proof.
  intros Hok Hf. unfold onAssistRead. destruct bev as [bev|]; [|apply returns_now].
  specialize (Hf bev eq_refl). destruct (addSession _ _ _ _) as [m rc0] eqn:E.
  pose proof (entered w bev rc0 m Hok Hf E) as H. destruct (rc0 =? Q_RTN_OK); cbn [negb]; [|apply returns_now].
  destruct H as (O1 & _ & a & Hg & Hh). apply returns_if; [apply returns_now|]. cbn [mgr set_mgr]. rewrite Hg.
  set (w0 := set_mgr (new_bev w bev) m). assert (G0 : good w0 a) by (split; assumption).
  pose proof (on_sess_good w0 a (setType t) G0 (type_link _ t)) as G1.
  pose proof (on_sess_good _ a (setStatus SESSSTATUS_LINKED) G1 (status_link _ _)) as G2.
  apply callback_returns, setSockStatus_mgr_ok, G2.
Qed.

Lemma timer_returns w c : ok None (mgr w) -> returns (fun fuel => onTimerRead fuel w c).
Proof.
  intros Hok. unfold onTimerRead. apply returns_if; [|apply returns_now]. apply callback_returns, set_count_ok, Hok.
Qed.

End Returns.

End WorkThread.

Arguments worker : clear implicits.

(** ** The claims *)

Section Service.
Context {B : Type} {EB : EvBuffer B} {L : EvBufferLaws B} {S : Type} {CI : CommEncrypt.Ciphers S}.
Context (new_char : Z -> option (list Z)) {A : Type} {AP : App A} {QC : QuietClose A}.
Context (SZ : nat) (HSZ : SZ = 4%nat \/ SZ = 8%nat) (errnull errsock : Z).
Context (Hnull : errnull <> Q_RTN_OK) (Hsock : errsock <> Q_RTN_OK).
Context (mem : CEventBuffer B -> list Z).





End Service.

#[local] Existing Instance CommEncrypt.toy_ciphers.

(** An application that keeps what it hears and sends it back; on a tick it closes the
    session 5. *)
#[export] Instance log_app : App (list (list Z)) := {
  onSockRead s l := (s ++ [l], [sendCur l]);
  onDebug s _ := (s, []);
  onSockClose s _ := (s, []);
  onConnected s _ := (s, []);
  onLinkedOther s _ := (s, []);
  onTimerEvent s := (s, [SessionManager.closeLink 5])
}.

#[export] Instance log_quiet : QuietClose (list (list Z)).
Proof. intros a iID. constructor. Qed.

Definition idle_worker (m : manager (list Z) unit (list (list Z))) : worker (list Z) unit (list (list Z)) :=
  {| mgr := m; m_objWebSockParser := WebSockParser.CWebSockParser_new; m_shaker := HandShake.fresh_shaker;
     m_objTcpParser := TcpParser.CTcpParser_new; m_mapWebSockPack := ∅; closed := []; wild := O |}.

(** The memory after what is pulled up holds a zero byte. *)
Definition zeros (_ : CEventBuffer (list Z)) : list Z := [0].

Abbreviation W := (worker (list Z) unit (list (list Z))).

Definition read (fuel : nat) (w : W) (bev : positive) : option W :=
  workThreadReadCB BufferMgr.fresh_block 8 1 zeros fuel w bev.

(** The descriptor 5 behind another [bufferevent]. *)
Definition bev_at (p : positive) : bufferevent (list Z) :=
  {| bev_addr := p; bufferevent_get_input := Some []; bufferevent_get_output := Some []; bufferevent_getfd := 5 |}.

Definition accept (fuel : nat) (w : W) (t : Z) (p : positive) : option W :=
  onMainRead BufferMgr.fresh_block 8 1 2 fuel w t 5 (Some (bev_at p)) 0.

(** Bytes arriving on the session at [a]. *)
Definition arrive (w : W) (a : addr) (l : list Z) : W :=
  on_sess w a (setBuf (set_read (buffer_of w a) (input (buffer_of w a) ++ l))).

Definition run (w0 : W) (l : list (W -> option W)) : W := fold_left (fun w f => default w (f w)) l w0.

Definition start : W := idle_worker (empty_manager []).

Definition tcp_conn : W := run start [fun w => accept 9 w STYPE_TCP 7].
Definition hello : list Z := TcpParser.frame 8 [104; 105].

Lemma accepted t p w : fresh w (bev_at p) -> is_Some (accept 9 w t p) ->
  step BufferMgr.fresh_block 8 1 2 zeros w (run w [fun w => accept 9 w t p]).
Proof.
  intros Hf [w' E]. cbn [run fold_left]. rewrite E. eapply (step_accept _ _ _ _ _ _ 9 t 5 (Some (bev_at p)) 0).
  - intros b [= <-]. exact Hf.
  - exact E.
Qed.

Lemma was_read p w : is_Some (live (mgr w) !! p) -> is_Some (read 9 w p) ->
  step BufferMgr.fresh_block 8 1 2 zeros w (run w [fun w => read 9 w p]).
Proof. intros Hl [w' E]. cbn [run fold_left]. rewrite E. eapply (step_read _ _ _ _ _ _ 9 p); assumption. Qed.

Lemma arrived w a l : is_Some (heap (m_objSessionPool (mgr w)) !! a) -> step BufferMgr.fresh_block 8 1 2 zeros w (arrive w a l).
Proof.
  intros Ha. apply step_io; [exact Ha|]. unfold io. cbn. splits; auto; discriminate.
Qed.

Lemma hello_runs : runs BufferMgr.fresh_block 8 1 2 zeros start (run (arrive tcp_conn 1 hello) [fun w => read 9 w 7]).
Proof.
  assert (S1 : step BufferMgr.fresh_block 8 1 2 zeros start tcp_conn).
  { apply (accepted STYPE_TCP 7 start); [split; vm_compute; reflexivity | eexists; vm_compute; reflexivity]. }
  assert (S2 : step BufferMgr.fresh_block 8 1 2 zeros tcp_conn (arrive tcp_conn 1 hello)).
  { apply arrived. eexists. vm_compute. reflexivity. }
  assert (S3 : step BufferMgr.fresh_block 8 1 2 zeros (arrive tcp_conn 1 hello)
                 (run (arrive tcp_conn 1 hello) [fun w => read 9 w 7])).
  { apply was_read; eexists; vm_compute; reflexivity. }
  exact (runs_step _ _ _ _ _ _ _ _ (runs_step _ _ _ _ _ _ _ _ (runs_step _ _ _ _ _ _ _ _ (runs_0 _ _ _ _ _ _) S1) S2) S3).
Qed.



Lemma log_sends : forall (s : list (list Z)) l, Forall (fun x => sends x = true) (snd (onSockRead s l)).
Proof. intros s l. repeat constructor. Qed.

Lemma run_ok w p t : ok None (mgr w) -> fresh w (bev_at p) -> is_Some (accept 9 w t p) ->
  ok None (mgr (run w [fun w => accept 9 w t p])).
Proof.
  intros Hok Hf Ha. exact (step_ok BufferMgr.fresh_block 8 1 2 zeros ltac:(discriminate) ltac:(discriminate) _ _ Hok (accepted t p w Hf Ha)).
Qed.

Lemma tcp_conn_connected : connected tcp_conn 7 1.
Proof.
  constructor; try (vm_compute; reflexivity || discriminate || (eexists; reflexivity)).
  apply run_ok; [apply empty_ok | split; vm_compute; reflexivity | eexists; vm_compute; reflexivity].
Qed.


(** A WebSocket connection after its handshake. *)
Definition ws_open (w : W) (p : positive) (a : addr) : W :=
  let w := run w [fun w => accept 9 w STYPE_WEBSOCK p] in
  run (arrive w a (HandShake.request HandShake.example_lines)) [fun w => read 9 w p].

Definition ws_conn : W := ws_open start 7 1.

Lemma ws_conn_connected : connected ws_conn 7 1.
Proof.
  constructor; try (vm_compute; reflexivity || discriminate || (eexists; reflexivity)).
  unfold ws_conn, ws_open. set (w1 := run start _).
  assert (O1 : ok None (mgr w1))
    by (apply run_ok; [apply empty_ok | split; vm_compute; reflexivity | eexists; vm_compute; reflexivity]).
  assert (S2 : step BufferMgr.fresh_block 8 1 2 zeros w1 (arrive w1 1 (HandShake.request HandShake.example_lines)))
    by (apply arrived; eexists; vm_compute; reflexivity).
  pose proof (step_ok BufferMgr.fresh_block 8 1 2 zeros ltac:(discriminate) ltac:(discriminate) _ _ O1 S2) as O2.
  refine (step_ok BufferMgr.fresh_block 8 1 2 zeros ltac:(discriminate) ltac:(discriminate) _ _ O2 (was_read 7 _ _ _)); eexists; vm_compute; reflexivity.
Qed.

Definition text (fin : bool) (op : Z) (l : list Z) : wsframe := {| f_fin := fin; f_op := op; f_key := [1; 2; 3; 4]; f_data := l |}.

Lemma text_sendable fin op l : (op = WSOCK_TEXTFRAME \/ op = WSOCK_PING \/ op = WSOCK_CONTINUATION) -> 
  Z.of_nat (length l) < 100 -> sendable 8 (text fin op l).
Proof.
  intros Ho Hl. unfold sendable, WebSockParser.ws_fits. cbn [f_op f_key f_data text]. change (Pn 8) with (2 ^ 64).
  splits; destruct Ho as [-> | [-> | ->]]; (reflexivity || discriminate || easy || lia).
Qed.

Lemma arrive_connected w bev a l : connected w bev a -> connected (arrive w a l) bev a.
Proof.
  intros Hc. apply (arrive_state w bev a _ l Hc). destruct Hc as [C1 C2 C3 C4 C5].
  destruct (getSession_live _ _ _ C1 C3 C2) as [Hm _]. destruct (ok_map _ _ C1 _ _ Hm) as (_ & _ & Ho).
  destruct Ho as (x & b & H1 & _ & _ & _ & _ & H6 & _).
  assert (E : buffer_of w a = m_objBuffer x) by (unfold buffer_of, session, sess; rewrite H1; reflexivity).
  rewrite E. destruct (m_pReadBuffer (m_objBuffer x)) as [r|] eqn:Er; [|congruence].
  unfold arrives, input. rewrite Er. cbn. splits; auto. eexists _, _. splits; reflexivity.
Qed.


(** Fragments outlive their connection.  A client sends the first fragment "A" of a message; on
    a tick the application closes the session; the next client is given the same descriptor and
    sends a final continuation frame "B": the application hears "AB". *)
Example stale_fragments :
  let w := arrive ws_conn 1 (wire (text false WSOCK_TEXTFRAME [65])) in
  let w := run w [fun w => read 9 w 7; fun w => onTimerRead BufferMgr.fresh_block 8 1 9 w 1] in
  m_umapSession (mgr w) = ∅ /\ m_mapWebSockPack w = {[ 5 := [65] ]} /\
  let w := ws_open w 8 1 in
  let w := run (arrive w 1 (wire (text true WSOCK_CONTINUATION [66]))) [fun w => read 9 w 8] in
  app w = [[65; 66]].
Proof. vm_compute. splits; reflexivity. Qed.
