(* ===== verification/ThreadPool.v ===== *)
(** * ThreadPool: the thread pool [CThreadPool] (QBase/ThreadPool.cpp, QBase/CTask.h)

    The pool, its worker threads and the thread that owns it, as a step relation: one step
    is one access to shared data (a queue under [objQueueMutex], an atomic counter, one
    lock of [objMutex_Main]), and the threads interleave at will.  The condition variables
    are waited for with a time limit of a second, so that a wait may end at any moment:
    [Signal] changes no state that the model needs.  [objMutex_Main] is a mutex of POSIX,
    which a thread that holds it cannot lock again. *)

From S2P Require Import Prelude.
From stdpp Require Import base list.
#[local] Open Scope Z_scope.

Inductive TaskLevel := TASKLV_HIGHT | TASKLV_NORMAL | TASKLV_LOW.

(** The address of a task. *)
Abbreviation task := positive.

(** Where a worker is in [CThreadPoolTask::Run]. *)
Inductive worker :=
  | Created                (* before the counter is raised *)
  | Hello                  (* before [objMutex_Main] is locked for the first time *)
  | Test                   (* at the test of [lStop] *)
  | Waiting                (* in the wait for a task *)
  | High | Normal | Low    (* in [getTask], at one of the queues *)
  | Running (t : task)     (* in [pTask->Run()] *)
  | Ran (t : task)         (* after it *)
  | Stopping               (* out of the loop, before the counter is lowered *)
  | Bye                    (* before [objMutex_Main] is locked for the last time *)
  | Gone
  | Raised (t : task).     (* the task has thrown an exception, and the thread has ended *)

(** Where the owner is: in [Init] with a number of threads created, done with the
    constructor, in [Destroy], after it. *)
Inductive owner :=
  | Init (i : nat) | InitWait (i : nat)
  | Ready
  | Drain                  (* waits for empty queues *)
  | Stop                   (* before [lStop] is set *)
  | Check                  (* at the test of [lIndex] *)
  | Join                   (* before [objMutex_Main] is locked *)
  | Deleted.               (* [m_pstPool] has been deleted *)

Record ThreadPool := {
  uiThreadNum : nat;
  m_lStop : bool;
  lIndex : Z;
  quHigh : list task;
  quNormal : list task;
  quLow : list task;
  m_bDel : task -> bool;       (* the flag of each task *)
  workers : list worker;
  main : owner;
  leaked : bool;               (* [objMutex_Main] stays locked by the owner *)
  fault : bool;                (* a thread has used the deleted pool *)
  (* what has happened: the tasks appended and those taken from each queue, in order,
     the tasks whose [Run] returned and those that were deleted then *)
  appended : TaskLevel -> list task;
  taken : TaskLevel -> list task;
  done : list task;
  deleted : list task
}.

Definition queue (lv : TaskLevel) (s : ThreadPool) : list task :=
  match lv with TASKLV_HIGHT => quHigh s | TASKLV_NORMAL => quNormal s | TASKLV_LOW => quLow s end.

(** ** Changes of the state *)

Definition level_eqb (a b : TaskLevel) : bool :=
  match a, b with
  | TASKLV_HIGHT, TASKLV_HIGHT | TASKLV_NORMAL, TASKLV_NORMAL | TASKLV_LOW, TASKLV_LOW => true
  | _, _ => false
  end.

Definition add_at (f : TaskLevel -> list task) (lv : TaskLevel) (t : task) : TaskLevel -> list task :=
  fun l => if level_eqb l lv then f l ++ [t] else f l.

Definition set_queue (s : ThreadPool) (lv : TaskLevel) (q : list task) (ap tk : TaskLevel -> list task)
  (del : task -> bool) : ThreadPool :=
  {| uiThreadNum := uiThreadNum s; m_lStop := m_lStop s; lIndex := lIndex s;
     quHigh := if level_eqb lv TASKLV_HIGHT then q else quHigh s;
     quNormal := if level_eqb lv TASKLV_NORMAL then q else quNormal s;
     quLow := if level_eqb lv TASKLV_LOW then q else quLow s;
     m_bDel := del; workers := workers s; main := main s; leaked := leaked s; fault := fault s;
     appended := ap; taken := tk; done := done s; deleted := deleted s |}.

Definition set_worker (s : ThreadPool) (i : nat) (w : worker) (n : Z) : ThreadPool :=
  {| uiThreadNum := uiThreadNum s; m_lStop := m_lStop s; lIndex := lIndex s + n; quHigh := quHigh s;
     quNormal := quNormal s; quLow := quLow s; m_bDel := m_bDel s; workers := <[i := w]> (workers s);
     main := main s; leaked := leaked s; fault := fault s; appended := appended s; taken := taken s;
     done := done s; deleted := deleted s |}.

Definition set_main (s : ThreadPool) (m : owner) (ws : list worker) (stop leak : bool) : ThreadPool :=
  {| uiThreadNum := uiThreadNum s; m_lStop := stop; lIndex := lIndex s; quHigh := quHigh s;
     quNormal := quNormal s; quLow := quLow s; m_bDel := m_bDel s; workers := ws;
     main := m; leaked := leak; fault := fault s; appended := appended s; taken := taken s;
     done := done s; deleted := deleted s |}.

Definition set_fault (s : ThreadPool) : ThreadPool :=
  {| uiThreadNum := uiThreadNum s; m_lStop := m_lStop s; lIndex := lIndex s; quHigh := quHigh s;
     quNormal := quNormal s; quLow := quLow s; m_bDel := m_bDel s; workers := workers s;
     main := main s; leaked := leaked s; fault := true; appended := appended s; taken := taken s;
     done := done s; deleted := deleted s |}.

(** ** The operations *)

(** [CThreadPool(uiThreadNum)], up to the first thread. *)
Definition pool_new (uiThreadNum : nat) : ThreadPool :=
  {| uiThreadNum := if Nat.eqb uiThreadNum 0 then 1 else uiThreadNum; m_lStop := false; lIndex := 0;
     quHigh := []; quNormal := []; quLow := []; m_bDel := fun _ => true; workers := []; main := Init 0;
     leaked := false; fault := false; appended := fun _ => []; taken := fun _ => []; done := []; deleted := [] |}.

Definition getPoolSize (s : ThreadPool) : nat := uiThreadNum s.

Definition getTaskNumber (s : ThreadPool) : nat := length (quHigh s) + length (quNormal s) + length (quLow s).

(** [Append]: nothing for a null pointer. *)
Definition Append (s : ThreadPool) (pTask : option task) (taskLV : TaskLevel) (bDel : bool) : ThreadPool :=
  match pTask with
  | None => s
  | Some t =>
      set_queue s taskLV (queue taskLV s ++ [t]) (add_at (appended s) taskLV t) (taken s)
        (fun x => if Pos.eqb x t then bDel else m_bDel s x)
  end.

(** [getTaskFromQueue] of a worker; a worker that finds nothing goes on to [next]. *)
Definition getTaskFromQueue (s : ThreadPool) (i : nat) (lv : TaskLevel) (next : worker) : ThreadPool :=
  match queue lv s with
  | [] => set_worker s i next 0
  | t :: q => set_worker (set_queue s lv q (appended s) (add_at (taken s) lv t) (m_bDel s)) i (Running t) 0
  end.

(** [Run] has returned: the task is deleted when its flag says so. *)
Definition finish (s : ThreadPool) (i : nat) (t : task) : ThreadPool :=
  let s := set_worker s i High 0 in
  {| uiThreadNum := uiThreadNum s; m_lStop := m_lStop s; lIndex := lIndex s; quHigh := quHigh s;
     quNormal := quNormal s; quLow := quLow s; m_bDel := m_bDel s; workers := workers s;
     main := main s; leaked := leaked s; fault := fault s; appended := appended s; taken := taken s;
     done := done s ++ [t]; deleted := deleted s ++ (if m_bDel s t then [t] else []) |}.

(** One step of worker [i]; [None] when it cannot go on. *)
Definition worker_step (s : ThreadPool) (i : nat) : option ThreadPool :=
  match workers s !! i with
  | None | Some Gone | Some (Raised _) => None
  | Some w =>
      match main s with
      | Deleted => Some (set_fault s)
      | _ =>
          match w with
          | Created => Some (set_worker s i Hello 1)
          | Hello => if leaked s then None else Some (set_worker s i Test 0)
          | Test => Some (set_worker s i (if m_lStop s then Stopping else Waiting) 0)
          | Waiting => Some (set_worker s i High 0)
          | High => Some (getTaskFromQueue s i TASKLV_HIGHT Normal)
          | Normal => Some (getTaskFromQueue s i TASKLV_NORMAL Low)
          | Low => Some (getTaskFromQueue s i TASKLV_LOW Test)
          | Running t => Some (set_worker s i (Ran t) 0)
          | Ran t => Some (finish s i t)
          | Stopping => Some (set_worker s i Bye (-1))
          | Bye => if leaked s then None else Some (set_worker s i Gone 0)
          | Gone | Raised _ => None
          end
      end
  end.

(** One step of the owner: [Init], [Destroy]. *)
Definition main_step (s : ThreadPool) : option ThreadPool :=
  match main s with
  | Init i =>
      if Nat.ltb i (uiThreadNum s)
      then Some (set_main s (InitWait (S i)) (workers s ++ [Created]) (m_lStop s) (leaked s))
      else Some (set_main s Ready (workers s) (m_lStop s) (leaked s))
  | InitWait i => Some (set_main s (Init i) (workers s) (m_lStop s) (leaked s))
  | Ready => Some (set_main s Drain (workers s) (m_lStop s) (leaked s))
  | Drain =>
      if Nat.eqb (getTaskNumber s) 0 then Some (set_main s Stop (workers s) (m_lStop s) (leaked s)) else Some s
  | Stop => Some (set_main s Check (workers s) true (leaked s))
  | Check => Some (set_main s (if lIndex s >? 0 then Join else Deleted) (workers s) (m_lStop s) (leaked s))
  | Join => if leaked s then None else Some (set_main s Check (workers s) (m_lStop s) (leaked s))
  | Deleted => None
  end.

(** What may happen next.  [Client] is a call of [Append] between the constructor and the
    destructor, [Nested] one from a task that runs; [NoMemory] and [NoThread] are the two
    ways in which the start of a thread fails, the second with [objMutex_Main] locked. *)
Inductive label :=
  | Main
  | Worker (i : nat)
  | Client (pTask : option task) (lv : TaskLevel) (bDel : bool)
  | Nested (i : nat) (pTask : option task) (lv : TaskLevel) (bDel : bool)
  | Throw (i : nat)
  | NoMemory | NoThread.

Definition step (s : ThreadPool) (l : label) : option ThreadPool :=
  if fault s then None
  else
    match l with
    | Main => main_step s
    | Worker i => worker_step s i
    | Client p lv b => match main s with Ready => Some (Append s p lv b) | _ => None end
    | Nested i p lv b => match workers s !! i with Some (Running _) => Some (Append s p lv b) | _ => None end
    | Throw i => match workers s !! i with Some (Running t) => Some (set_worker s i (Raised t) 0) | _ => None end
    | NoMemory | NoThread =>
        match main s with
        | Init i =>
            if Nat.ltb i (uiThreadNum s)
            then Some (set_main s Drain (workers s) (m_lStop s) (match l with NoThread => true | _ => leaked s end))
            else None
        | _ => None
        end
    end.

Fixpoint run (s : ThreadPool) (ls : list label) : option ThreadPool :=
  match ls with [] => Some s | l :: r => match step s l with None => None | Some s' => run s' r end end.

Inductive reachable (n : nat) : ThreadPool -> Prop :=
  | reach_new : reachable n (pool_new n)
  | reach_step s l s' : reachable n s -> step s l = Some s' -> reachable n s'.

(** ** The invariant *)

Definition holds (w : worker) : list task :=
  match w with Running t | Ran t | Raised t => [t] | _ => [] end.
Definition held (s : ThreadPool) : list task := workers s ≫= holds.

Definition counted (w : worker) : Z := match w with Created | Bye | Gone => 0 | _ => 1 end.
Definition total (ws : list worker) : Z := foldr (fun w n => counted w + n) 0 ws.

(** The worker will look into the queue before it can leave the loop over the tasks (or
    never leaves it). *)
Definition sees (lv : TaskLevel) (w : worker) : Prop :=
  match w with
  | Running _ | Ran _ | Raised _ | High => True
  | Normal => lv <> TASKLV_HIGHT
  | Low => lv = TASKLV_LOW
  | _ => False
  end.

Definition in_loop (w : worker) : Prop := match w with Stopping | Bye | Gone => False | _ => True end.

Definition all_taken (s : ThreadPool) : list task :=
  taken s TASKLV_HIGHT ++ taken s TASKLV_NORMAL ++ taken s TASKLV_LOW.

(** The owner has set [lStop]; it has seen empty queues. *)
Definition stopped (m : owner) : bool := match m with Check | Join | Deleted => true | _ => false end.
Definition drained (m : owner) : bool := match m with Stop => true | _ => stopped m end.

Record inv (s : ThreadPool) : Prop := {
  i_fifo lv : appended s lv = taken s lv ++ queue lv s;
  i_tasks : all_taken s ≡ₚ held s ++ done s;
  i_deleted : deleted s ⊆+ done s;
  i_count : lIndex s = total (workers s);
  i_size : (0 < uiThreadNum s)%nat;
  i_workers : match main s with
    | Init i | InitWait i => length (workers s) = i /\ (forall lv, appended s lv = []) /\ leaked s = false
    | Ready => workers s <> [] /\ leaked s = false
    | _ => workers s <> [] \/ (forall lv, appended s lv = [])
    end;
  i_stop : m_lStop s = stopped (main s);
  i_loop : m_lStop s = false -> Forall in_loop (workers s);
  i_drain lv : drained (main s) = true -> queue lv s <> [] -> Exists (sees lv) (workers s);
  i_freed : main s = Deleted -> lIndex s <= 0
}.

Lemma worker_split (ws : list worker) i w : ws !! i = Some w ->
  exists a b, ws = a ++ w :: b /\ forall x, <[i := x]> ws = a ++ x :: b.
Proof.
  intros E. exists (take i ws), (drop (S i) ws). split.
  - symmetry. now apply take_drop_middle.
  - intros x. apply insert_take_drop. eauto using lookup_lt_Some.
Qed.

Lemma total_app a b : total (a ++ b) = total a + total b.
Proof. induction a as [|w a IH]; cbn; [reflexivity|]. fold total in *. unfold total in *. cbn. lia. Qed.

Lemma total_nonneg ws : 0 <= total ws.
Proof. induction ws as [|w ws IH]; cbn; [lia|]. destruct w; cbn; unfold total in *; lia. Qed.

Lemma total_split a w b : total (a ++ w :: b) = total a + counted w + total b.
Proof. rewrite total_app. cbn. unfold total. lia. Qed.

Lemma level_eqb_spec a b : level_eqb a b = true <-> a = b.
Proof. destruct a, b; cbn; split; congruence. Qed.

Lemma queue_set s lv q ap tk del l : queue l (set_queue s lv q ap tk del) = if level_eqb l lv then q else queue l s.
Proof. destruct l, lv; reflexivity. Qed.

(** A worker moves on, with what it holds. *)
Lemma inv_set_worker s i w x n : inv s -> workers s !! i = Some w -> main s <> Deleted ->
  holds x = holds w -> counted x = counted w + n -> (in_loop w -> m_lStop s = false -> in_loop x) ->
  (forall lv, queue lv s <> [] -> sees lv w -> sees lv x) -> inv (set_worker s i x n).
Proof.
  intros [F T D C P W S L Dr Fr] Hi Hm Hh Hc Hl Hs. destruct (worker_split _ _ _ Hi) as (a & b & Ew & Ex).
  unfold held in T. rewrite Ew in T, C, W, L, Dr.
  constructor; cbn [set_worker main workers m_lStop lIndex appended taken done deleted leaked uiThreadNum]; rewrite ?Ex; auto.
  - unfold all_taken, held. cbn [set_worker workers taken done]. rewrite Ex, bind_app, bind_cons, Hh.
    rewrite bind_app, bind_cons in T. exact T.
  - rewrite total_split in *. lia.
  - destruct (main s); rewrite ?length_app in *; cbn in *; try (destruct W as [W|W]; [left|right]);
      intuition (try (now destruct a)).
  - intros E. specialize (L E). rewrite !Forall_app, !Forall_cons in *. intuition auto.
  - intros lv Hd Hq. specialize (Dr lv Hd Hq). rewrite !Exists_app, !Exists_cons in *.
    destruct Dr as [?|[?|?]]; auto.
  - intros E. contradiction.
Qed.

(** A task is appended. *)
Lemma inv_append s p lv b : inv s -> workers s <> [] ->
  match main s with Init _ | InitWait _ => False | _ => True end ->
  (drained (main s) = true -> forall l, Exists (sees l) (workers s)) -> inv (Append s p lv b).
Proof.
  intros [F T D C P W S L Dr Fr] Hw Hm He. destruct p as [t|]; [|now constructor].
  constructor; cbn [Append set_queue main workers m_lStop lIndex taken done deleted leaked uiThreadNum]; auto.
  - intros l. unfold Append. rewrite queue_set. cbn [set_queue appended taken]. unfold add_at. rewrite F.
    destruct (level_eqb l lv) eqn:E; [|reflexivity]. apply level_eqb_spec in E as ->. now rewrite app_assoc.
  - destruct (main s); auto; contradiction.
Qed.

(** A worker takes the task at the head of a queue. *)
Lemma inv_take s i w lv next : inv s -> workers s !! i = Some w -> main s <> Deleted ->
  holds w = [] -> counted w = 1 -> counted next = 1 -> holds next = [] -> in_loop next ->
  (forall l, l <> lv -> sees l w -> sees l next) -> inv (getTaskFromQueue s i lv next).
Proof.
  intros I Hi Hm Hh Hc Hn Hhn Hl Hs. unfold getTaskFromQueue. destruct (queue lv s) as [|t q] eqn:Eq.
  - apply (inv_set_worker s i w); auto; [congruence|lia|]. intros l Hq. apply Hs. intros ->. congruence.
  - destruct I as [F T D C P W S L Dr Fr]. destruct (worker_split _ _ _ Hi) as (a & b & Ew & Ex).
    set (s' := set_queue s lv q (appended s) (add_at (taken s) lv t) (m_bDel s)).
    assert (Ew' : workers s' = a ++ w :: b) by exact Ew.
    assert (Eh : held (set_worker s' i (Running t) 0) ≡ₚ t :: held s).
    { unfold held. cbn [set_worker workers]. rewrite Ew. change (workers s') with (workers s). rewrite Ex.
      rewrite !bind_app, !bind_cons, Hh. cbn. symmetry. apply Permutation_middle. }
    constructor; cbn [s' set_worker set_queue main workers m_lStop lIndex appended done deleted leaked uiThreadNum]; rewrite ?Ex; auto.
    + intros l. change (queue l (set_worker s' i (Running t) 0)) with (queue l s'). unfold s'. rewrite queue_set.
      cbn [set_worker set_queue taken]. unfold add_at. rewrite F.
      destruct (level_eqb l lv) eqn:E; [|reflexivity]. apply level_eqb_spec in E as ->. now rewrite Eq, <- app_assoc.
    + rewrite Eh. cbn [app]. cbn [s' set_worker set_queue done]. rewrite <- T. unfold all_taken.
      cbn [s' set_worker set_queue taken]. unfold add_at. destruct lv; cbn [level_eqb];
        rewrite ?app_assoc, <- ?(app_assoc _ [t]); solve_Permutation.
    + rewrite Ew, total_split in C. rewrite total_split. cbn [counted]. lia.
    + rewrite Ew in W. destruct (main s); rewrite ?length_app in *; cbn in *; try (destruct W as [W|W]; [left|right]);
        intuition (try (now destruct a)).
    + intros E. specialize (L E). rewrite Ew in L. rewrite !Forall_app, !Forall_cons in *. cbn. intuition auto.
    + intros l _ _. rewrite Exists_app, Exists_cons. cbn. auto.
    + intros E. contradiction.
Qed.

(** [Run] has returned. *)
Lemma inv_finish s i t : inv s -> workers s !! i = Some (Ran t) -> main s <> Deleted -> inv (finish s i t).
Proof.
  intros [F T D C P W S L Dr Fr] Hi Hm. destruct (worker_split _ _ _ Hi) as (a & b & Ew & Ex).
  unfold held in T. rewrite Ew in T, C, W, L, Dr.
  constructor; cbn [finish set_worker main workers m_lStop lIndex appended taken done deleted leaked uiThreadNum m_bDel];
    rewrite ?Ex; auto.
  - unfold all_taken, held in *. cbn [finish set_worker workers taken done]. rewrite Ex, bind_app, bind_cons.
    rewrite bind_app, bind_cons in T. cbn [holds app] in *. rewrite T. solve_Permutation.
  - apply submseteq_app; [exact D|]. destruct (m_bDel s t); [reflexivity|apply submseteq_nil_l].
  - rewrite total_split in *. cbn [counted] in *. lia.
  - destruct (main s); rewrite ?length_app in *; cbn in *; try (destruct W as [W|W]; [left|right]);
      intuition (try (now destruct a)).
  - intros E. specialize (L E). rewrite !Forall_app, !Forall_cons in *. cbn. intuition auto.
  - intros lv Hd Hq. rewrite !Exists_app, !Exists_cons. cbn. auto.
  - intros E. contradiction.
Qed.

Lemma getTaskNumber_0 s : getTaskNumber s = 0%nat <-> forall lv, queue lv s = [].
Proof.
  unfold getTaskNumber. split.
  - intros H [ | | ]; cbn; apply length_zero_iff_nil; lia.
  - intros H. generalize (H TASKLV_HIGHT), (H TASKLV_NORMAL), (H TASKLV_LOW). cbn. now intros -> -> ->.
Qed.

(** The owner moves on. *)
Lemma inv_set_main s m : inv s -> stopped m = stopped (main s) ->
  match m with
  | Init i | InitWait i => length (workers s) = i /\ (forall lv, appended s lv = []) /\ leaked s = false
  | Ready => workers s <> [] /\ leaked s = false
  | _ => workers s <> [] \/ (forall lv, appended s lv = [])
  end ->
  (drained m = true -> drained (main s) = true \/ getTaskNumber s = 0%nat) ->
  (m = Deleted -> lIndex s <= 0) -> inv (set_main s m (workers s) (m_lStop s) (leaked s)).
Proof.
  intros [F T D C P W S L Dr Fr] Hst HW Hd Hf.
  constructor; cbn [set_main main workers m_lStop lIndex appended taken done deleted leaked uiThreadNum]; auto.
  - now rewrite S, Hst.
  - intros lv Hm. change (queue lv (set_main s m (workers s) (m_lStop s) (leaked s))) with (queue lv s).
    destruct (Hd Hm) as [H|H]; [auto|].
    intros []. now apply getTaskNumber_0.
Qed.

Lemma no_tasks s : inv s -> (forall lv, appended s lv = []) -> forall lv, queue lv s = [].
Proof. intros I H lv. specialize (H lv). rewrite (i_fifo _ I) in H. now apply app_eq_nil in H. Qed.

Lemma inv_main_step s s' : inv s -> main_step s = Some s' -> inv s'.
Proof.
  intros I. pose proof I as [F T D C P W S L Dr Fr]. unfold main_step. destruct (main s) eqn:Em.
  - destruct W as (W1 & W2 & W3). destruct (Nat.ltb_spec i (uiThreadNum s)); intros [= <-].
    + constructor; cbn [set_main main workers m_lStop lIndex appended taken done deleted leaked uiThreadNum]; auto.
      * unfold all_taken, held in *. cbn [set_main workers taken done]. rewrite bind_app. cbn. rewrite app_nil_r. exact T.
      * rewrite total_app, C. cbn. lia.
      * rewrite length_app, W1. cbn. splits; auto. lia.
      * intros E. apply Forall_app. split; [auto|]. constructor; cbn; auto.
      * discriminate.
      * discriminate.
    + apply inv_set_main; rewrite ?Em; auto; try discriminate.
      split; [|exact W3]. intros E. rewrite E in W1. cbn in W1. lia.
  - intros [= <-]. apply inv_set_main; rewrite ?Em; auto; try discriminate.
  - intros [= <-]. apply inv_set_main; rewrite ?Em; auto; try discriminate. left. apply W.
  - destruct (Nat.eqb_spec (getTaskNumber s) 0); intros [= <-]; [|exact I].
    apply inv_set_main; rewrite ?Em; auto; try discriminate.
  - intros [= <-]. constructor; cbn [set_main main workers m_lStop lIndex appended taken done deleted leaked uiThreadNum]; auto.
    all: try discriminate.
  - intros [= <-]. destruct (Z.gtb_spec (lIndex s) 0); (apply inv_set_main; rewrite ?Em; auto; try discriminate).
  - destruct (leaked s) eqn:El; [discriminate|]. intros [= <-]. rewrite <- El.
    apply inv_set_main; rewrite ?Em; auto; try discriminate.
  - discriminate.
Qed.

Lemma total_in ws i w : ws !! i = Some w -> counted w <= total ws.
Proof.
  intros Hi. destruct (worker_split _ _ _ Hi) as (a & b & -> & _). rewrite total_split.
  pose proof (total_nonneg a). pose proof (total_nonneg b). lia.
Qed.

(** When the pool is deleted no worker is between its two counts. *)
Lemma freed_workers s i w : inv s -> main s = Deleted -> workers s !! i = Some w -> counted w = 0.
Proof.
  intros I Em Hi. apply total_in in Hi. pose proof (i_freed _ I Em). rewrite (i_count _ I) in H.
  destruct w; cbn in *; lia.
Qed.

Lemma inv_worker_step s i s' : inv s -> worker_step s i = Some s' -> inv s'.
Proof.
  intros I. unfold worker_step. destruct (workers s !! i) as [w|] eqn:Hi; [|discriminate].
  assert (HF : main s = Deleted -> inv (set_fault s)).
  { intros _. destruct I as [F T D C P W S L Dr Fr]. constructor; auto. }
  assert (HM : main s <> Deleted -> match w with Gone | Raised _ => None | _ =>
      match w with
      | Created => Some (set_worker s i Hello 1)
      | Hello => if leaked s then None else Some (set_worker s i Test 0)
      | Test => Some (set_worker s i (if m_lStop s then Stopping else Waiting) 0)
      | Waiting => Some (set_worker s i High 0)
      | High => Some (getTaskFromQueue s i TASKLV_HIGHT Normal)
      | Normal => Some (getTaskFromQueue s i TASKLV_NORMAL Low)
      | Low => Some (getTaskFromQueue s i TASKLV_LOW Test)
      | Running t => Some (set_worker s i (Ran t) 0)
      | Ran t => Some (finish s i t)
      | Stopping => Some (set_worker s i Bye (-1))
      | Bye => if leaked s then None else Some (set_worker s i Gone 0)
      | Gone | Raised _ => None
      end end = Some s' -> inv s').
  { intros Hm. destruct w; try discriminate; try (destruct (leaked s); [discriminate|]); intros [= <-];
      try (now apply inv_finish);
      try (apply (inv_set_worker s i _ _ _ I Hi Hm); cbn; auto; fail);
      try (apply (inv_take s i _ _ _ I Hi Hm); cbn; auto; intros [ | | ]; congruence).
    destruct (m_lStop s) eqn:E; apply (inv_set_worker s i _ _ _ I Hi Hm); cbn; auto. congruence. }
  destruct w, (main s); auto; try discriminate; try (intros E; apply HM; [discriminate|exact E]);
    intros [= <-]; auto.
Qed.

Lemma in_held s i w t : workers s !! i = Some w -> t ∈ holds w -> t ∈ held s.
Proof. intros Hi Ht. apply list_elem_of_bind. exists w. split; [exact Ht|eapply list_elem_of_lookup_2, Hi]. Qed.

(** No task runs before the first one is appended. *)
Lemma no_running s i t : inv s -> (forall lv, appended s lv = []) -> workers s !! i = Some (Running t) -> False.
Proof.
  intros I H Hi. assert (Ht : forall lv, taken s lv = [])
    by (intros lv; specialize (H lv); rewrite (i_fifo _ I) in H; now apply app_eq_nil in H).
  pose proof (i_tasks _ I) as T. unfold all_taken in T. rewrite !Ht in T. cbn in T.
  apply Permutation_nil_l in T. symmetry in T. apply app_eq_nil in T. destruct T as [T _].
  pose proof (in_held s i _ t Hi ltac:(cbn; constructor)) as E. rewrite T in E. inversion E.
Qed.

(** A thread cannot be started. *)
Lemma inv_fail s b s' : inv s -> match main s with
    | Init i => if Nat.ltb i (uiThreadNum s) then Some (set_main s Drain (workers s) (m_lStop s) b) else None
    | _ => None end = Some s' -> inv s'.
Proof.
  intros I. destruct (main s) eqn:Em; try discriminate. destruct (Nat.ltb _ _); [|discriminate]. intros [= <-].
  destruct I as [F T D C P W S L Dr Fr]. rewrite Em in *. destruct W as (_ & W & _).
  constructor; cbn [set_main main workers m_lStop lIndex appended taken done deleted leaked uiThreadNum]; auto; discriminate.
Qed.

Lemma inv_new n : inv (pool_new n).
Proof.
  constructor; cbn; auto; try discriminate.
  - now intros [ | | ].
  - destruct n; cbn; lia.
Qed.

Theorem inv_step s l s' : inv s -> step s l = Some s' -> inv s'.
Proof.
  intros I. unfold step. destruct (fault s); [discriminate|]. destruct l.
  - now apply inv_main_step.
  - now apply inv_worker_step.
  - destruct (main s) eqn:Em; try discriminate. intros [= <-]. apply inv_append; rewrite ?Em; auto; [|discriminate].
    pose proof (i_workers _ I) as W. rewrite Em in W. apply W.
  - destruct (workers s !! i) as [w|] eqn:Hi; [|discriminate]. destruct w; try discriminate. intros [= <-].
    assert (Hw : workers s <> []) by (intros E; rewrite E in Hi; discriminate).
    apply inv_append; auto.
    + pose proof (i_workers _ I) as W. destruct (main s); auto.
      all: destruct W as (_ & W & _); exact (no_running s i t I W Hi).
    + intros _ l. apply Exists_exists. exists (Running t). split; [eapply list_elem_of_lookup_2, Hi|exact Logic.I].
  - destruct (workers s !! i) as [w|] eqn:Hi; [|discriminate]. destruct w; try discriminate. intros [= <-].
    apply (inv_set_worker s i _ _ _ I Hi); auto.
    intros Em. now pose proof (freed_workers s i _ I Em Hi).
  - apply inv_fail; auto.
  - apply inv_fail; auto.
Qed.

Theorem reachable_inv n s : reachable n s -> inv s.
Proof. induction 1; [apply inv_new|eapply inv_step; eauto]. Qed.

(** ** The claims *)

(** Claim C8: the pool loses no task and runs none twice.  However the threads interleave,
    in every state the tasks appended at a level are those the workers have taken from
    its queue, in the order of the calls, followed by those that wait in it; the tasks
    taken are those a worker holds and those whose [Run] has returned; the counter of the
    workers is the number of workers between its two updates; and when no task is appended
    twice, no task that waits or runs has been deleted. *)
Theorem tasks_accounted n s : reachable n s ->
  (forall lv, appended s lv = taken s lv ++ queue lv s) /\
  all_taken s ≡ₚ held s ++ done s /\
  lIndex s = total (workers s) /\
  (NoDup (appended s TASKLV_HIGHT ++ appended s TASKLV_NORMAL ++ appended s TASKLV_LOW) ->
   forall t lv, t ∈ deleted s -> t ∈ done s /\ ~ t ∈ held s /\ ~ t ∈ queue lv s).
Proof.
  intros H. apply reachable_inv in H. destruct H as [F T D C _ _ _ _ _ _]. splits; auto.
  intros N t lv Ht. assert (Hd : t ∈ done s) by (eapply elem_of_submseteq; eauto).
  rewrite !F in N.
  assert (N' : NoDup ((held s ++ done s) ++ quHigh s ++ quNormal s ++ quLow s)).
  { rewrite <- T. unfold all_taken. cbn [queue] in N. eapply NoDup_Permutation_proper; [|exact N]. solve_Permutation. }
  apply NoDup_app in N' as (N1 & N2 & _). apply NoDup_app in N1 as (_ & N1 & _). splits; auto.
  - intros E. exact (N1 t E Hd).
  - intros E. apply (N2 t); [apply elem_of_app; auto|]. rewrite !elem_of_app. destruct lv; auto.
Qed.

(** A run of the pool of one thread: it takes the task of high level first. *)
Definition start1 : list label := [Main; Main; Worker 0; Worker 0; Main].
Definition busy : list label :=
  start1 ++ [Client (Some 1%positive) TASKLV_LOW true; Client (Some 2%positive) TASKLV_HIGHT true] ++
  [Worker 0; Worker 0; Worker 0; Worker 0; Worker 0].

Lemma run_reachable n ls : forall s s', reachable n s -> run s ls = Some s' -> reachable n s'.
Proof.
  induction ls as [|l r IH]; intros s s' H; cbn; [now intros [= <-]|].
  destruct (step s l) eqn:E; [|discriminate]. apply IH. econstructor; eauto.
Qed.

Lemma tasks_accounted_witness : exists s, run (pool_new 1) busy = Some s /\
  deleted s = [2%positive] /\ quLow s = [1%positive] /\
  forall t lv, t ∈ deleted s -> t ∈ done s /\ ~ t ∈ held s /\ ~ t ∈ queue lv s.
Proof.
  destruct (run (pool_new 1) busy) as [s|] eqn:E; [|discriminate].
  exists s. splits; [reflexivity| | |].
  - vm_compute in E. now injection E as <-.
  - vm_compute in E. now injection E as <-.
  - pose proof (tasks_accounted 1 s (run_reachable 1 busy _ _ (reach_new 1) E)) as (_ & _ & _ & H).
    apply H. vm_compute in E. injection E as <-. cbn. now apply (bool_decide_unpack (NoDup [2%positive; 1%positive])).
Defined.

Lemma drained_empty s : inv s -> main s = Deleted -> (forall lv, queue lv s = []) /\ held s = [].
Proof.
  intros I Em.
  assert (W : Forall (fun w => counted w = 0) (workers s)).
  { apply Forall_lookup. intros i w Hi. exact (freed_workers s i w I Em Hi). }
  split.
  - intros lv. destruct (queue lv s) eqn:E; [reflexivity|exfalso].
    assert (X : Exists (sees lv) (workers s)) by (apply (i_drain _ I); rewrite ?Em, ?E; auto; discriminate).
    revert X. apply Forall_not_Exists. eapply Forall_impl; [exact W|]. intros [ ]; cbn; try lia; auto.
  - unfold held. revert W. induction (workers s) as [|w ws IH]; [reflexivity|]. intros [Hw W]%Forall_cons.
    rewrite bind_cons, (IH W). destruct w; cbn in *; try reflexivity; lia.
Qed.

(** Claim C7: the destructor waits for the work.  When [Destroy] deletes the pool, every
    task that was appended, whether by the owner before or by a running task at any time
    (even after the queues were seen empty and the stop was set), has run to its end
    exactly once, in the order of its level; no queue holds a task and no worker is in the
    loop. *)
Theorem Destroy_completes n s : reachable n s -> main s = Deleted ->
  (forall lv, appended s lv = taken s lv) /\
  appended s TASKLV_HIGHT ++ appended s TASKLV_NORMAL ++ appended s TASKLV_LOW ≡ₚ done s /\
  Forall (fun w => w = Created \/ w = Bye \/ w = Gone) (workers s).
Proof.
  intros H Em. apply reachable_inv in H. destruct (drained_empty s H Em) as [Q Hd].
  assert (E : forall lv, appended s lv = taken s lv) by (intros lv; now rewrite (i_fifo _ H), Q, app_nil_r).
  splits; auto.
  - rewrite !E. pose proof (i_tasks _ H) as T. rewrite Hd in T. exact T.
  - apply Forall_lookup. intros i w Hi. pose proof (freed_workers s i w H Em Hi) as C. destruct w; cbn in C; auto; lia.
Qed.

(** A task that appends another one after the stop. *)
Definition whole : list label :=
  start1 ++ [Client (Some 1%positive) TASKLV_LOW true; Main; Worker 0; Worker 0; Worker 0; Worker 0; Worker 0] ++
  [Main; Main; Nested 0 (Some 2%positive) TASKLV_HIGHT false; Worker 0; Worker 0; Worker 0; Worker 0; Worker 0] ++
  [Worker 0; Worker 0; Worker 0; Worker 0; Worker 0; Worker 0; Main].

Lemma Destroy_completes_witness : exists s, run (pool_new 1) whole = Some s /\ done s = [1%positive; 2%positive] /\
  forall lv, appended s lv = taken s lv.
Proof.
  destruct (run (pool_new 1) whole) as [s|] eqn:E; [|discriminate].
  exists s. assert (M : main s = Deleted /\ done s = [1%positive; 2%positive]) by (vm_compute in E; injection E as <-; split; reflexivity).
  splits; [reflexivity|apply M|].
  apply (Destroy_completes 1 s (run_reachable 1 whole _ _ (reach_new 1) E) (proj1 M)).
Defined.

(** Only a worker's step sets the mark. *)
Lemma step_faults s l s' : step s l = Some s' -> fault s = false -> fault s' = true ->
  main s = Deleted /\ exists i, l = Worker i /\ exists w, workers s !! i = Some w /\ w <> Gone.
Proof.
  unfold step. intros E Hf Hf'. rewrite Hf in E. destruct l.
  - unfold main_step in E. destruct (main s); repeat case_match; simplify_eq; cbn in *; congruence.
  - unfold worker_step, getTaskFromQueue, finish in E.
    repeat case_match; simplify_eq; cbn in *; try congruence; split; eauto 10; congruence.
  - repeat case_match; simplify_eq. destruct pTask; cbn in *; congruence.
  - repeat case_match; simplify_eq. destruct pTask; cbn in *; congruence.
  - repeat case_match; simplify_eq; cbn in *; congruence.
  - repeat case_match; simplify_eq; cbn in *; congruence.
  - repeat case_match; simplify_eq; cbn in *; congruence.
Qed.

(** Runs in which the pool is deleted while its worker is in its last lines, and before
    its first. *)
Definition late_bye : list label :=
  start1 ++ [Main; Main; Main; Worker 0; Worker 0; Main; Worker 0].
Definition late_start : list label := [Main; Main; Main; Main; Main; Main; Main; Worker 0].

(** Claim C10: the destructor deletes the pool too early, under the feet of its workers.
    A worker that has lowered the counter still locks [objMutex_Main] of the pool, and one
    that has not raised it yet is not waited for: in the two runs given here a worker uses
    the deleted pool.  These are the only two places where that can happen. *)
Theorem use_after_delete :
  option_map fault (run (pool_new 1) late_bye) = Some true /\
  option_map fault (run (pool_new 1) late_start) = Some true /\
  (forall n s l s', reachable n s -> fault s = false -> step s l = Some s' -> fault s' = true ->
     main s = Deleted /\ exists i, l = Worker i /\ (workers s !! i = Some Created \/ workers s !! i = Some Bye)).
Proof.
  splits; [vm_compute; reflexivity|vm_compute; reflexivity|].
  intros n s l s' H Hf E Hf'. apply reachable_inv in H. destruct (step_faults _ _ _ E Hf Hf') as (Em & i & -> & w & Hi & Hw).
  split; [exact Em|]. exists i. split; [reflexivity|]. rewrite Hi. pose proof (freed_workers s i w H Em Hi) as C.
  destruct w; cbn in C; auto; try lia. contradiction.
Qed.

Lemma main_workers s s' i w : main_step s = Some s' -> workers s !! i = Some w -> workers s' !! i = Some w.
Proof.
  unfold main_step. intros E Hi. repeat case_match; simplify_eq; cbn; auto. now apply lookup_app_l_Some.
Qed.

Lemma other_worker s s' i j w : worker_step s j = Some s' -> i <> j -> workers s !! i = Some w -> workers s' !! i = Some w.
Proof.
  unfold worker_step, getTaskFromQueue, finish. intros E Hij Hi.
  repeat case_match; simplify_eq; cbn in *; rewrite ?list_lookup_insert_ne by congruence; auto.
Qed.

(** A worker that has ended with an exception stays as it is. *)
Lemma raised_stays s l s' i t : step s l = Some s' -> workers s !! i = Some (Raised t) -> workers s' !! i = Some (Raised t).
Proof.
  unfold step. intros E Hi. destruct (fault s); [discriminate|]. destruct l.
  - eapply main_workers; eauto.
  - destruct (decide (i = i0)) as [<-|Hn]; [|eapply other_worker; eauto].
    unfold worker_step in E. rewrite Hi in E. discriminate.
  - repeat case_match; simplify_eq. destruct pTask; exact Hi.
  - repeat case_match; simplify_eq. destruct pTask; exact Hi.
  - repeat case_match; simplify_eq. cbn. rewrite list_lookup_insert_ne; [exact Hi|congruence].
  - repeat case_match; simplify_eq; exact Hi.
  - repeat case_match; simplify_eq; exact Hi.
Qed.

Lemma locked_stays s l s' : step s l = Some s' -> leaked s = true -> main s = Join -> leaked s' = true /\ main s' = Join.
Proof.
  unfold step. intros E Hl Hm. destruct (fault s); [discriminate|]. destruct l.
  - unfold main_step in E. rewrite Hm, Hl in E. discriminate.
  - unfold worker_step, getTaskFromQueue, finish in E. rewrite Hm in E. repeat case_match; simplify_eq; auto.
  - repeat case_match; simplify_eq; congruence.
  - repeat case_match; simplify_eq; destruct pTask; auto.
  - repeat case_match; simplify_eq; auto.
  - rewrite Hm in E. discriminate.
  - rewrite Hm in E. discriminate.
Qed.


(** The second thread cannot be started while the first one runs. *)
Definition half : list label := [Main; Worker 0; Worker 0; Main; NoThread; Main; Main; Main].


(** ** The destructor can finish *)

Definition not_raised (w : worker) : Prop := match w with Raised _ => False | _ => True end.

Record good (s : ThreadPool) : Prop := {
  g_inv : inv s;
  g_fault : fault s = false;
  g_lock : leaked s = false;
  g_raised : Forall not_raised (workers s)
}.

(** The steps of the pool's own threads lead from one state to another. *)
Definition internal (l : label) : Prop := match l with Main | Worker _ => True | _ => False end.
Definition leads (s s' : ThreadPool) : Prop := exists ls, Forall internal ls /\ run s ls = Some s'.

Lemma leads_refl s : leads s s.
Proof. exists []. split; [constructor|reflexivity]. Qed.

Lemma leads_step s l s1 s2 : internal l -> step s l = Some s1 -> leads s1 s2 -> leads s s2.
Proof. intros Hl E (ls & F & R). exists (l :: ls). split; [now constructor|]. cbn. now rewrite E. Qed.

Lemma leads_trans s1 s2 s3 : leads s1 s2 -> leads s2 s3 -> leads s1 s3.
Proof.
  intros (ls & F & R) L. revert s1 R. induction F as [|l r Hl _ IH]; intros s1; cbn; [now intros [= ->]|].
  destruct (step s1 l) eqn:E; [|discriminate]. intros R. eapply leads_step; eauto.
Qed.

Lemma good_worker s i s' : good s -> main s <> Deleted -> worker_step s i = Some s' ->
  good s' /\ step s (Worker i) = Some s' /\ main s' = main s /\ m_lStop s' = m_lStop s.
Proof.
  intros [I F L R] Hm E. assert (Es : step s (Worker i) = Some s') by (unfold step; now rewrite F).
  assert (G : main s' = main s /\ m_lStop s' = m_lStop s /\ leaked s' = leaked s /\ fault s' = fault s /\ Forall not_raised (workers s')).
  { unfold worker_step, getTaskFromQueue, finish in E.
    repeat case_match; simplify_eq; cbn in *; splits; auto; try congruence; apply Forall_insert; cbn; auto; destruct (m_lStop s); exact Logic.I. }
  destruct G as (G1 & G2 & G3 & G4 & G5). splits; auto. constructor; try congruence. eapply inv_worker_step; eauto.
Qed.

Lemma good_main s s' : good s -> main_step s = Some s' -> good s' /\ step s Main = Some s'.
Proof.
  intros [I F L R] E. assert (Es : step s Main = Some s') by (unfold step; now rewrite F).
  split; [|exact Es]. constructor; [eapply inv_main_step; eauto|..];
    unfold main_step in E; repeat case_match; simplify_eq; cbn; auto.
  apply Forall_app. split; [exact R|]. repeat constructor.
Qed.

(** *** After the stop *)

Definition dist (w : worker) : nat :=
  match w with
  | Hello => 3 | Test => 2 | Stopping => 1 | Low => 4 | Normal => 5 | High => 6 | Waiting => 7 | Ran _ => 7 | Running _ => 8
  | _ => 0
  end.
Definition measure (s : ThreadPool) : nat := 12 * getTaskNumber s + list_sum (map dist (workers s)).

Lemma measure_set s i w x n : workers s !! i = Some w -> (dist x < dist w)%nat ->
  (measure (set_worker s i x n) < measure s)%nat.
Proof.
  intros Hi H. destruct (worker_split _ _ _ Hi) as (a & b & Ew & Ex). unfold measure, getTaskNumber.
  cbn [set_worker workers quHigh quNormal quLow]. rewrite Ex, Ew, !map_app, !list_sum_app. cbn. lia.
Qed.

Lemma getTask_number s i lv next t q : queue lv s = t :: q ->
  getTaskNumber s = S (getTaskNumber (getTaskFromQueue s i lv next)).
Proof. intros E. unfold getTaskFromQueue. rewrite E. destruct lv; cbn in E; unfold getTaskNumber; cbn; rewrite E; cbn; lia. Qed.

Lemma measure_take s i w lv next : workers s !! i = Some w -> (dist next < dist w)%nat ->
  (measure (getTaskFromQueue s i lv next) < measure s)%nat.
Proof.
  intros Hi H. destruct (queue lv s) as [|t q] eqn:E.
  - unfold getTaskFromQueue. rewrite E. now apply (measure_set s i w).
  - pose proof (getTask_number s i lv next t q E) as N. unfold measure. rewrite N.
    unfold getTaskFromQueue. rewrite E. cbn [set_worker set_queue workers].
    destruct (worker_split _ _ _ Hi) as (a & b & Ew & Ex). rewrite Ex, Ew, !map_app, !list_sum_app. cbn. lia.
Qed.

Lemma worker_down s i w : good s -> main s <> Deleted -> m_lStop s = true -> workers s !! i = Some w -> counted w = 1 ->
  exists s', worker_step s i = Some s' /\ (measure s' < measure s)%nat.
Proof.
  intros [I F L R] Hm Hs Hi Hc. pose proof (proj1 (Forall_lookup _ _) R i w Hi) as Hr.
  unfold worker_step. rewrite Hi, L, Hs.
  destruct w; cbn in Hc; try lia; try contradiction; destruct (main s); try congruence;
    (eexists; split; [reflexivity|]);
    first [apply (measure_set s i _ _ _ Hi); cbn; lia|apply (measure_take s i _ _ _ Hi); cbn; lia|
           exact (measure_set s i _ High 0 Hi ltac:(cbn; lia))].
Qed.

Lemma counted_exists ws : 0 < total ws -> exists i w, ws !! i = Some w /\ counted w = 1.
Proof.
  induction ws as [|w ws IH]; cbn; [lia|]. unfold total in *. destruct (Z.eq_dec (counted w) 1) as [E|E].
  - intros _. exists 0%nat, w. auto.
  - intros H. assert (counted w = 0) by (destruct w; cbn in *; lia). destruct IH as (i & x & Hi & Hx); [lia|].
    exists (S i), x. auto.
Qed.

Lemma stop_finishes k : forall s, good s -> (measure s < k)%nat -> main s = Check \/ main s = Join ->
  exists s', leads s s' /\ main s' = Deleted.
Proof.
  induction k as [|k IH]; intros s G Hk Hm; [lia|].
  assert (HD : main s <> Deleted) by (destruct Hm; congruence).
  assert (Hs : m_lStop s = true) by (rewrite (i_stop _ (g_inv _ G)); destruct Hm as [-> | ->]; reflexivity).
  destruct (Z.lt_ge_cases 0 (lIndex s)) as [Hl|Hl].
  - rewrite (i_count _ (g_inv _ G)) in Hl. destruct (counted_exists _ Hl) as (i & w & Hi & Hc).
    destruct (worker_down s i w G HD Hs Hi Hc) as (s1 & E & Hk1).
    destruct (good_worker _ _ _ G HD E) as (G1 & Es & Em & _).
    destruct (IH s1 G1 ltac:(lia)) as (s2 & L2 & D2); [rewrite Em; exact Hm|].
    exists s2. split; [|exact D2]. apply (leads_step s (Worker i) s1); [exact Logic.I|exact Es|exact L2].
  - assert (HC : forall t, good t -> main t = Check -> lIndex t <= 0 -> exists s', leads t s' /\ main s' = Deleted).
    { intros t Gt Et Lt. exists (set_main t Deleted (workers t) (m_lStop t) (leaked t)). split; [|reflexivity].
      refine (leads_step t Main _ _ Logic.I _ (leads_refl _)). apply good_main; [exact Gt|].
      unfold main_step. rewrite Et. destruct (Z.gtb_spec (lIndex t) 0); [lia|reflexivity]. }
    destruct Hm as [Hm|Hm]; [now apply HC|].
    assert (E : main_step s = Some (set_main s Check (workers s) (m_lStop s) (leaked s)))
      by (unfold main_step; now rewrite Hm, (g_lock _ G)).
    destruct (good_main _ _ G E) as [G1 Es]. destruct (HC _ G1 eq_refl Hl) as (s2 & L2 & D2).
    exists s2. split; [|exact D2]. exact (leads_step s Main _ _ Logic.I Es L2).
Qed.

(** *** Before the stop *)

(** How far a worker is from its next task, when there is one. *)
Definition away (s : ThreadPool) (w : worker) : nat :=
  match w with
  | Created => 8 | Hello => 7 | Test => 6 | Waiting => 5 | High => 4 | Running _ => 6 | Ran _ => 5
  | Normal => match quNormal s, quLow s with [], [] => 8 | _, _ => 2 end
  | Low => match quLow s with [] => 7 | _ => 1 end
  | _ => 0
  end.

Lemma worker_nearer s i w : good s -> m_lStop s = false -> workers s !! i = Some w -> getTaskNumber s <> 0%nat ->
  exists s' w', worker_step s i = Some s' /\ workers s' !! i = Some w' /\
    ((getTaskNumber s' < getTaskNumber s)%nat \/ (getTaskNumber s' = getTaskNumber s /\ (away s' w' < away s w)%nat)).
Proof.
  intros [I F L R] Hs Hi Hq. pose proof (proj1 (Forall_lookup _ _) R i w Hi) as Hr.
  pose proof (proj1 (Forall_lookup _ _) (i_loop _ I Hs) i w Hi) as Hl.
  assert (Hm : main s <> Deleted) by (intros E; rewrite (i_stop _ I), E in Hs; discriminate).
  pose proof (lookup_lt_Some _ _ _ Hi) as Hn.
  unfold worker_step. rewrite Hi, L, Hs. unfold getTaskNumber in *.
  destruct w; cbn in Hl, Hr; try contradiction; destruct (main s); try congruence;
    unfold getTaskFromQueue; cbn [queue];
    try (destruct (quHigh s) eqn:EH); try (destruct (quNormal s) eqn:EN); try (destruct (quLow s) eqn:EL);
    (eexists; eexists; split; [reflexivity|]; cbn; rewrite list_lookup_insert_eq by exact Hn; split; [reflexivity|]);
    cbn in *; rewrite ?EH, ?EN, ?EL; cbn; lia.
Qed.

Lemma takes_one k : forall s i w, good s -> m_lStop s = false -> main s <> Deleted -> workers s !! i = Some w ->
  getTaskNumber s <> 0%nat -> (away s w < k)%nat ->
  exists s', leads s s' /\ good s' /\ main s' = main s /\ (getTaskNumber s' < getTaskNumber s)%nat.
Proof.
  induction k as [|k IH]; intros s i w G Hs Hm Hi Hq Hk; [lia|].
  destruct (worker_nearer s i w G Hs Hi Hq) as (s1 & w1 & E & Hi1 & H).
  destruct (good_worker _ _ _ G Hm E) as (G1 & Es & Em & Est). destruct H as [H|[H1 H2]].
  - exists s1. splits; auto. exact (leads_step s (Worker i) _ _ Logic.I Es (leads_refl _)).
  - destruct (IH s1 i w1 G1 ltac:(congruence) ltac:(congruence) Hi1 ltac:(lia) ltac:(lia)) as (s2 & L2 & G2 & M2 & Q2).
    exists s2. splits; auto; [exact (leads_step s (Worker i) _ _ Logic.I Es L2)|congruence|lia].
Qed.

Lemma main_leads s s1 s2 : good s -> main_step s = Some s1 -> (good s1 -> leads s1 s2) -> leads s s2.
Proof. intros G E H. destruct (good_main _ _ G E) as [G1 Es]. exact (leads_step s Main _ _ Logic.I Es (H G1)). Qed.

Lemma finish_leads s m : good s -> main_step s = Some m ->
  (good m -> exists s', leads m s' /\ main s' = Deleted) -> exists s', leads s s' /\ main s' = Deleted.
Proof.
  intros G E H. destruct (good_main _ _ G E) as [G1 _]. destruct (H G1) as (s' & L & D).
  exists s'. split; [|exact D]. exact (main_leads s m s' G E (fun _ => L)).
Qed.

Lemma stopping_finishes s : good s -> drained (main s) = true -> main s <> Deleted ->
  exists s', leads s s' /\ main s' = Deleted.
Proof.
  intros G Hd Hm. destruct (main s) eqn:Em; try discriminate; try congruence.
  - eapply finish_leads; [exact G|unfold main_step; rewrite Em; reflexivity|]. intros G1.
    apply (stop_finishes _ _ G1 (Nat.lt_succ_diag_r _)). auto.
  - apply (stop_finishes _ _ G (Nat.lt_succ_diag_r _)). auto.
  - apply (stop_finishes _ _ G (Nat.lt_succ_diag_r _)). auto.
Qed.

Lemma drain_finishes k : forall s, good s -> main s = Drain -> (getTaskNumber s < k)%nat ->
  exists s', leads s s' /\ main s' = Deleted.
Proof.
  induction k as [|k IH]; intros s G Hm Hk; [lia|].
  destruct (Nat.eqb (getTaskNumber s) 0) eqn:E0.
  - eapply finish_leads; [exact G|unfold main_step; rewrite Hm, E0; reflexivity|]. intros G1.
    apply (stopping_finishes _ G1); [reflexivity|discriminate].
  - apply Nat.eqb_neq in E0.
    assert (Hs : m_lStop s = false) by (rewrite (i_stop _ (g_inv _ G)), Hm; reflexivity).
    pose proof (i_workers _ (g_inv _ G)) as W. rewrite Hm in W. destruct W as [W|W].
    + destruct (workers s) as [|w ws] eqn:Ew; [congruence|].
      destruct (takes_one _ s 0 w G Hs ltac:(congruence) ltac:(now rewrite Ew) E0 (Nat.lt_succ_diag_r _)) as (s1 & L1 & G1 & M1 & Q1).
      destruct (IH s1 G1 ltac:(congruence) ltac:(lia)) as (s2 & L2 & D2). exists s2. split; [exact (leads_trans _ _ _ L1 L2)|exact D2].
    + destruct E0. apply getTaskNumber_0, no_tasks; [apply G|exact W].
Qed.

Lemma init_finishes k : forall s i, good s -> main s = Init i -> (uiThreadNum s - i < k)%nat ->
  exists s', leads s s' /\ main s' = Deleted.
Proof.
  induction k as [|k IH]; intros s i G Hm Hk; [lia|].
  destruct (Nat.ltb i (uiThreadNum s)) eqn:El.
  - eapply finish_leads; [exact G|unfold main_step; rewrite Hm, El; reflexivity|]. intros G1.
    eapply finish_leads; [exact G1|reflexivity|]. intros G2. apply Nat.ltb_lt in El.
    apply (IH _ (S i) G2); [reflexivity|cbn; lia].
  - eapply finish_leads; [exact G|unfold main_step; rewrite Hm, El; reflexivity|]. intros G1.
    eapply finish_leads; [exact G1|reflexivity|]. intros G2.
    exact (drain_finishes _ _ G2 eq_refl (Nat.lt_succ_diag_r _)).
Qed.

(** Claim C9: nothing else can stop it.  From every state of a pool whose threads all
    started, in which no task has thrown and the pool was not used after it was deleted,
    whatever its workers and its owner are doing, the threads of the pool can bring the
    destructor to its end, with steps of their own. *)
Theorem Destroy_can_finish n s : reachable n s -> fault s = false -> leaked s = false ->
  Forall not_raised (workers s) ->
  exists ls s', Forall internal ls /\ run s ls = Some s' /\ main s' = Deleted.
Proof.
  intros H F L R. pose proof (reachable_inv _ _ H) as I. assert (G : good s) by (constructor; assumption).
  assert (X : exists s', leads s s' /\ main s' = Deleted).
  { destruct (main s) eqn:Em.
    - exact (init_finishes _ s i G Em (Nat.lt_succ_diag_r _)).
    - eapply finish_leads; [exact G|unfold main_step; rewrite Em; reflexivity|]. intros G1.
      exact (init_finishes _ _ i G1 eq_refl (Nat.lt_succ_diag_r _)).
    - eapply finish_leads; [exact G|unfold main_step; rewrite Em; reflexivity|]. intros G1.
      exact (drain_finishes _ _ G1 eq_refl (Nat.lt_succ_diag_r _)).
    - exact (drain_finishes _ s G Em (Nat.lt_succ_diag_r _)).
    - apply (stopping_finishes s G); rewrite Em; [reflexivity|discriminate].
    - apply (stopping_finishes s G); rewrite Em; [reflexivity|discriminate].
    - apply (stopping_finishes s G); rewrite Em; [reflexivity|discriminate].
    - exists s. split; [apply leads_refl|exact Em]. }
  destruct X as (s' & (ls & HF & HR) & D). eauto.
Qed.

Lemma Destroy_can_finish_witness : exists s, run (pool_new 1) busy = Some s /\
  exists ls s', Forall internal ls /\ run s ls = Some s' /\ main s' = Deleted.
Proof.
  destruct (run (pool_new 1) busy) as [s|] eqn:E; [|discriminate]. exists s. split; [reflexivity|].
  apply (Destroy_can_finish 1 s (run_reachable 1 busy _ _ (reach_new 1) E)).
  - vm_compute in E. now injection E as <-.
  - vm_compute in E. now injection E as <-.
  - vm_compute in E. injection E as <-. repeat constructor.
Defined.
