(* ===== verification/SnowflakeID.v ===== *)
(** * SnowflakeID: identifiers of time, machine and index (QBase/SnowflakeID.cpp)

    The clock is a parameter of every call: the seconds and microseconds that
    [evutil_gettimeofday] writes. *)

From S2P Require Import Prelude Stream.

Record CSnowflakeID := {
  m_iMachineID : Z;
  m_iIndex : Z;
  m_uTime64 : Z;
  m_uID64 : Z;
  m_stTimeVal : Z * Z;
  m_strVali64 : list Z
}.

Definition CSnowflakeID_new : CSnowflakeID :=
  {| m_iMachineID := 0; m_iIndex := 0; m_uTime64 := 0; m_uID64 := 0; m_stTimeVal := (0, 0); m_strVali64 := [] |}.

Definition setMachineID (s : CSnowflakeID) (iMachineID : Z) : CSnowflakeID :=
  {| m_iMachineID := iMachineID; m_iIndex := m_iIndex s; m_uTime64 := m_uTime64 s; m_uID64 := m_uID64 s;
     m_stTimeVal := m_stTimeVal s; m_strVali64 := m_strVali64 s |}.

(** Milliseconds; the fields of the time are converted to 64 bits without a sign. *)
Definition getTime (s : CSnowflakeID) (now : Z * Z) : CSnowflakeID * Z :=
  let t := w64 (w64 (snd now) / 1000 + w64 (w64 (fst now) * 1000)) in
  ({| m_iMachineID := m_iMachineID s; m_iIndex := m_iIndex s; m_uTime64 := t; m_uID64 := m_uID64 s;
      m_stTimeVal := now; m_strVali64 := m_strVali64 s |}, t).

Definition Generate (s : CSnowflakeID) (now : Z * Z) : CSnowflakeID * Z :=
  let (s, t) := getTime s now in
  let id := w64 (t .<< 22) in
  let id := id .| (m_iMachineID s .& 0x3FF) .<< 12 in
  let id := id .| (m_iIndex s .& 0xFFF) in
  let iIndex := m_iIndex s + 1 in
  let iIndex := if iIndex =? 0x1000 then 0 else iIndex in
  ({| m_iMachineID := m_iMachineID s; m_iIndex := iIndex; m_uTime64 := m_uTime64 s; m_uID64 := id;
      m_stTimeVal := m_stTimeVal s; m_strVali64 := m_strVali64 s |}, id).

(** [>>] of a stream into a string. *)
Fixpoint read_word (l : list Z) : list Z :=
  match l with [] => [] | c :: r => if is_space c then [] else c :: read_word r end.

(** The identifier in decimal: it goes through a stream that is empty before. *)
Definition getSnowflakeID (s : CSnowflakeID) (now : Z * Z) : CSnowflakeID * list Z :=
  let (s, id) := Generate s now in
  let str := read_word (skip_space (show_int id)) in
  ({| m_iMachineID := m_iMachineID s; m_iIndex := m_iIndex s; m_uTime64 := m_uTime64 s; m_uID64 := m_uID64 s;
      m_stTimeVal := m_stTimeVal s; m_strVali64 := str |}, str).

(** What calls at the given times return. *)
Fixpoint generate_all (s : CSnowflakeID) (times : list (Z * Z)) : list Z :=
  match times with
  | [] => []
  | now :: r => let (s, id) := Generate s now in id :: generate_all s r
  end.

(** ** The fields *)

(** Milliseconds since the epoch. *)
Definition ms (now : Z * Z) : Z := fst now * 1000 + snd now / 1000.

Definition valid_time (now : Z * Z) : Prop := (0 <= fst now < 2 ^ 53) /\ (0 <= snd now < 10 ^ 6).

Lemma getTime_ms s now : valid_time now -> snd (getTime s now) = ms now /\ 0 <= ms now < 2 ^ 64.
Proof.
  intros [H1 H2]. unfold getTime, ms, w64. cbn [snd].
  assert (H3 : 0 <= snd now / 1000 < 1000)
    by (split; [apply Z.div_pos; lia|apply Z.div_lt_upper_bound; lia]).
  rewrite (Z.mod_small (snd now)), (Z.mod_small (fst now)), (Z.mod_small (fst now * 1000)), Z.mod_small by lia. lia.
Qed.

Definition fields (t machine index : Z) : Z := (t mod 2 ^ 42) * 2 ^ 22 + (machine mod 2 ^ 10) * 2 ^ 12 + index mod 2 ^ 12.

Lemma fields_inj t m i t' m' i' : fields t m i = fields t' m' i' ->
  t mod 2 ^ 42 = t' mod 2 ^ 42 /\ m mod 2 ^ 10 = m' mod 2 ^ 10 /\ i mod 2 ^ 12 = i' mod 2 ^ 12.
Proof.
  unfold fields. intros H.
  pose proof (Z.mod_pos_bound t (2 ^ 42)). pose proof (Z.mod_pos_bound t' (2 ^ 42)).
  pose proof (Z.mod_pos_bound m (2 ^ 10)). pose proof (Z.mod_pos_bound m' (2 ^ 10)).
  pose proof (Z.mod_pos_bound i (2 ^ 12)). pose proof (Z.mod_pos_bound i' (2 ^ 12)). lia.
Qed.

Lemma Generate_fields s now : valid_time now ->
  snd (Generate s now) = fields (ms now) (m_iMachineID s) (m_iIndex s).
Proof.
  intros H. destruct (getTime_ms s now H) as [E R]. unfold Generate.
  assert (Em : m_iMachineID (fst (getTime s now)) = m_iMachineID s) by reflexivity.
  assert (Ei : m_iIndex (fst (getTime s now)) = m_iIndex s) by reflexivity.
  destruct (getTime s now) as [s1 t]. cbn [fst snd] in *. rewrite E, Em, Ei. unfold fields, w64.
  change 0x3FF with (Z.ones 10). change 0xFFF with (Z.ones 12). rewrite !Z.land_ones, !Z.shiftl_mul_pow2 by lia.
  replace (ms now * 2 ^ 22 mod 2 ^ 64) with ((ms now mod 2 ^ 42) * 2 ^ 22)
    by (replace (2 ^ 64) with (2 ^ 42 * 2 ^ 22) by reflexivity; rewrite Zmult_mod_distr_r; reflexivity).
  pose proof (Z.mod_pos_bound (m_iMachineID s) (2 ^ 10) ltac:(lia)).
  pose proof (Z.mod_pos_bound (m_iIndex s) (2 ^ 12) ltac:(lia)).
  rewrite (mul_lor_add 22) by lia. rewrite <- Z.add_assoc.
  replace (ms now mod 2 ^ 42 * 2 ^ 22 + m_iMachineID s mod 2 ^ 10 * 2 ^ 12)
    with ((ms now mod 2 ^ 42 * 2 ^ 10 + m_iMachineID s mod 2 ^ 10) * 2 ^ 12) by lia.
  rewrite (mul_lor_add 12) by lia. lia.
Qed.

Lemma Generate_next s now : 0 <= m_iIndex s < 2 ^ 12 ->
  m_iMachineID (fst (Generate s now)) = m_iMachineID s /\ m_iIndex (fst (Generate s now)) = (m_iIndex s + 1) mod 2 ^ 12.
Proof.
  intros H. cbn [Generate getTime fst m_iMachineID m_iIndex]. split; [reflexivity|].
  destruct (Z.eqb_spec (m_iIndex s + 1) 0x1000) as [->|]; [reflexivity|]. rewrite Z.mod_small by lia. reflexivity.
Qed.

Lemma generate_all_fields times : forall s, 0 <= m_iIndex s < 2 ^ 12 -> Forall valid_time times ->
  forall i now, nth_error times i = Some now ->
  nth_error (generate_all s times) i = Some (fields (ms now) (m_iMachineID s) (m_iIndex s + Z.of_nat i)).
Proof.
  induction times as [|t r IH]; intros s Hs HT i now Hi; [destruct i; discriminate|].
  apply Forall_cons_iff in HT as [Ht HT]. cbn [generate_all].
  pose proof (Generate_fields s t Ht) as E. destruct (Generate_next s t Hs) as [Em Ei].
  destruct (Generate s t) as [s1 id]. cbn [fst snd] in *. destruct i as [|i]; cbn in Hi |- *.
  - injection Hi as <-. now rewrite E, Z.add_0_r.
  - rewrite (IH s1 ltac:(rewrite Ei; apply Z.mod_pos_bound; lia) HT i now Hi), Em. f_equal. unfold fields. f_equal.
    rewrite Ei, Zplus_mod_idemp_l. f_equal. lia.
Qed.

Lemma new_index a : 0 <= m_iIndex (setMachineID CSnowflakeID_new a) < 2 ^ 12.
Proof. split; [apply Z.le_refl|reflexivity]. Qed.

(** ** The claims *)

(** Claim C37: exactly when two identifiers collide.  Two generators, on machines with the
    numbers [a] and [b], that have made any number of calls each: call [i] of the one and
    call [j] of the other return the same number if and only if the machine numbers agree
    in their last ten bits, the two clock readings are equal, in milliseconds, modulo
    [2 ^ 42], and [i] and [j] differ by a multiple of 4096.  So one machine gives 4096
    different identifiers per millisecond as long as its clock does not step back, and the
    next one in the same millisecond repeats the first. *)
Theorem identifiers_collide a b times times' i j now now' x y :
  Forall valid_time times -> Forall valid_time times' ->
  nth_error times i = Some now -> nth_error times' j = Some now' ->
  nth_error (generate_all (setMachineID CSnowflakeID_new a) times) i = Some x ->
  nth_error (generate_all (setMachineID CSnowflakeID_new b) times') j = Some y ->
  x = y <-> a mod 2 ^ 10 = b mod 2 ^ 10 /\ ms now mod 2 ^ 42 = ms now' mod 2 ^ 42 /\
            Z.of_nat i mod 4096 = Z.of_nat j mod 4096.
Proof.
  intros T T' Hi Hj. rewrite (generate_all_fields times _ (new_index a) T i now Hi).
  rewrite (generate_all_fields times' _ (new_index b) T' j now' Hj).
  cbn [setMachineID CSnowflakeID_new m_iMachineID m_iIndex]. intros [= <-] [= <-]. split.
  - intros (H1 & H2 & H3)%fields_inj. auto.
  - intros (H1 & H2 & H3). unfold fields. rewrite H1, H2. change (2 ^ 12) with 4096. now rewrite H3.
Qed.

(** The 4097th call in a millisecond. *)
Lemma identifiers_collide_witness :
  let times := repeat (1700000000, 5000) 4097 in
  exists x y, nth_error (generate_all (setMachineID CSnowflakeID_new 3) times) 0 = Some x /\
    nth_error (generate_all (setMachineID CSnowflakeID_new 3) times) 4096 = Some y /\ x = y.
Proof.
  cbv zeta. set (times := repeat (1700000000, 5000) 4097).
  destruct (nth_error (generate_all (setMachineID CSnowflakeID_new 3) times) 0) as [x|] eqn:E1; [|vm_compute in E1; discriminate].
  destruct (nth_error (generate_all (setMachineID CSnowflakeID_new 3) times) 4096) as [y|] eqn:E2; [|vm_compute in E2; discriminate].
  exists x, y. split; [reflexivity|]. split; [reflexivity|].
  assert (V : Forall valid_time times) by (apply Forall_repeat; unfold valid_time; cbn [fst snd]; lia).
  apply (identifiers_collide 3 3 times times 0 4096 (1700000000, 5000) (1700000000, 5000) x y V V); auto.
Defined.

(** The string is the number in decimal: it reads back as the identifier. *)
Lemma read_word_digits l : Forall (fun c => is_digit c = true) l -> read_word l = l /\ skip_space l = l.
Proof.
  assert (D : forall c, is_digit c = true -> is_space c = false).
  { intros c H. unfold is_digit, is_space in *. apply andb_prop in H as [H1 H2].
    apply Z.leb_le in H1, H2. destruct (Z.eqb_spec c 32), (Z.leb_spec 9 c), (Z.leb_spec c 13); cbn; lia. }
  induction 1 as [|c r Hc _ [IH _]]; [auto|]. cbn. now rewrite (D c Hc), IH.
Qed.

Lemma getSnowflakeID_reads s now : valid_time now ->
  read_int UINT64 (snd (getSnowflakeID s now)) = snd (Generate s now).
Proof.
  intros H. pose proof (Generate_fields s now H) as E. unfold getSnowflakeID. destruct (Generate s now) as [s1 id].
  cbn [snd] in *.
  pose proof (Z.mod_pos_bound (ms now) (2 ^ 42)). pose proof (Z.mod_pos_bound (m_iMachineID s) (2 ^ 10)).
  pose proof (Z.mod_pos_bound (m_iIndex s) (2 ^ 12)).
  assert (R : 0 <= id < 2 ^ 64) by (rewrite E; unfold fields; lia).
  assert (Sh : show_int id = show_digits 20 id) by (unfold show_int; destruct (Z.ltb_spec id 0); [lia|reflexivity]).
  rewrite Sh. destruct (read_word_digits _ (show_digits_digit 20 id (proj1 R))) as [E1 E2]. rewrite E2, E1, <- Sh.
  apply read_show_int; [cbn; lia|]. unfold in_range, int_min, int_max. cbn [signed UINT64 width]. lia.
Qed.
