(* ===== verification/Ini.v ===== *)
(** * Ini: configuration files [CIniFile] (QBase/Ini.cpp)

    A table of sections with their keys, read from a file line by line and written back.
    Strings are lists of bytes without a NUL, files lists of bytes; [None] is a file that
    cannot be opened. *)

From S2P Require Import Prelude StdLib QString Stream.

Record stIniKey := { strKey : list Z; strValue : list Z }.
Record stIniNode := { strNode : list Z; lstKey : list stIniKey }.
Record CIniFile := { m_strFile : list Z; m_lstNodeInfo : list stIniNode }.

Definition str_eqb (a b : list Z) : bool := if list_eq_dec Z.eq_dec a b then true else false.

(** ** The table *)

Fixpoint find_key (keys : list stIniKey) (pszKey : list Z) : option (list Z) :=
  match keys with
  | [] => None
  | k :: r => if str_eqb pszKey (strKey k) then Some (strValue k) else find_key r pszKey
  end.

(** The search goes on behind a section that does not have the key. *)
Fixpoint get_value (nodes : list stIniNode) (pszNode pszKey : list Z) : option (list Z) :=
  match nodes with
  | [] => None
  | n :: r =>
      if str_eqb pszNode (strNode n)
      then match find_key (lstKey n) pszKey with Some v => Some v | None => get_value r pszNode pszKey end
      else get_value r pszNode pszKey
  end.

(** [pszDefault] is [None] for a null pointer. *)
Definition getStringValue (s : CIniFile) (pszNode pszKey : list Z) (pszDefault : option (list Z)) : option (list Z) :=
  match get_value (m_lstNodeInfo s) pszNode pszKey with Some v => Some v | None => pszDefault end.

(** [atoi], as the C library of the servers has it: [strtol] of 64 bits, then a cast. *)
Definition atoi (l : list Z) : Z := cast INT (read_int INT64 l).

Definition getIntValue (s : CIniFile) (pszNode pszKey : list Z) (iDefault : Z) : Z :=
  match getStringValue s pszNode pszKey None with
  | None => iDefault
  | Some [] => iDefault
  | Some v => atoi v
  end.

Fixpoint set_key (keys : list stIniKey) (pszKey pszValue : list Z) : list stIniKey :=
  match keys with
  | [] => [{| strKey := pszKey; strValue := pszValue |}]
  | k :: r =>
      if str_eqb pszKey (strKey k) then {| strKey := strKey k; strValue := pszValue |} :: r
      else k :: set_key r pszKey pszValue
  end.

Fixpoint set_value (nodes : list stIniNode) (pszNode pszKey pszValue : list Z) : list stIniNode :=
  match nodes with
  | [] => [{| strNode := pszNode; lstKey := [{| strKey := pszKey; strValue := pszValue |}] |}]
  | n :: r =>
      if str_eqb pszNode (strNode n)
      then {| strNode := strNode n; lstKey := set_key (lstKey n) pszKey pszValue |} :: r
      else n :: set_value r pszNode pszKey pszValue
  end.

Definition set_nodes (s : CIniFile) (nodes : list stIniNode) : CIniFile :=
  {| m_strFile := m_strFile s; m_lstNodeInfo := nodes |}.

Definition setStringValue (s : CIniFile) (pszNode pszKey pszValue : list Z) : CIniFile :=
  set_nodes s (set_value (m_lstNodeInfo s) pszNode pszKey pszValue).

Definition setIntValue (s : CIniFile) (pszNode pszKey : list Z) (iValue : Z) : CIniFile :=
  setStringValue s pszNode pszKey (show_int iValue).

(** [None] when the key is not there, and the search goes on. *)
Fixpoint erase_key (keys : list stIniKey) (pszKey : list Z) : option (list stIniKey) :=
  match keys with
  | [] => None
  | k :: r => if str_eqb pszKey (strKey k) then Some r else option_map (cons k) (erase_key r pszKey)
  end.

Fixpoint del_key (nodes : list stIniNode) (pszNode pszKey : list Z) : list stIniNode :=
  match nodes with
  | [] => []
  | n :: r =>
      if str_eqb pszNode (strNode n)
      then match erase_key (lstKey n) pszKey with
           | Some keys => {| strNode := strNode n; lstKey := keys |} :: r
           | None => n :: del_key r pszNode pszKey
           end
      else n :: del_key r pszNode pszKey
  end.

Definition delKey (s : CIniFile) (pszNode pszKey : list Z) : CIniFile :=
  set_nodes s (del_key (m_lstNodeInfo s) pszNode pszKey).

Fixpoint del_node (nodes : list stIniNode) (pszNode : list Z) : list stIniNode :=
  match nodes with
  | [] => []
  | n :: r => if str_eqb pszNode (strNode n) then r else n :: del_node r pszNode
  end.

Definition delNode (s : CIniFile) (pszNode : list Z) : CIniFile :=
  set_nodes s (del_node (m_lstNodeInfo s) pszNode).

(** ** Reading *)

Definition isNote (str : list Z) : bool := str_eqb [47; 47] (firstn 2 str) || str_eqb [35] (firstn 1 str).

Definition removeNote (str : list Z) : list Z := Q_GetFrontOfFlag (Q_GetFrontOfFlag str [47; 47]) [35].

(** The string is not empty. *)
Definition isNode (str : list Z) : bool :=
  str_eqb [91] (firstn 1 str) && str_eqb [93] (skipn (length str - 1) str) && (2 <? length str)%nat.

Definition getNode (str : list Z) : list Z := Q_Trim (firstn (length str - 2) (skipn 1 str)).

Definition isKey (str : list Z) : bool := existsb (Z.eqb 61) str.

Definition getKey (str : list Z) : list Z := Q_Trim (Q_GetFrontOfFlag str [61]).

Definition getVal (str : list Z) : list Z :=
  match find_first_of str [61] with None => [] | Some iPos => Q_Trim (skipn (iPos + 1) str) end.

(** What one line does to the table and to the section that is being read. *)
Definition read_line (st : list stIniNode * list Z) (line : list Z) : list stIniNode * list Z :=
  let (nodes, node) := st in
  let str := Q_Trim line in
  if (length str =? 0)%nat || isNote str then st
  else
    let str := Q_Trim (removeNote str) in
    if (length str =? 0)%nat then st
    else if isNode str then (nodes, getNode str)
    else if isKey str then (set_value nodes node (getKey str) (getVal str), node)
    else st.

(** [istream::getline] into a buffer with room for [n] characters and a NUL: what it
    stores, what is left, and whether the stream is still good. *)
Fixpoint getline (n : nat) (input : list Z) : list Z * list Z * bool :=
  match input with
  | [] => ([], [], false)
  | c :: r =>
      if c =? 10 then ([], r, true)
      else
        match n with
        | O => ([], input, false)
        | S n => let '(b, rest, good) := getline n r in (c :: b, rest, good)
        end
  end.

(** The buffer has 1024 bytes, of which [getline] is told 1023. *)
Fixpoint read_loop (fuel : nat) (input : list Z) (st : list stIniNode * list Z) : option (list stIniNode) :=
  match fuel with
  | O => None
  | S f =>
      let '(b, rest, good) := getline 1022 input in
      let st := read_line st (firstn (strlen b) b) in
      if good then read_loop f rest st else Some (fst st)
  end.

Definition readInfo (s : CIniFile) (file : option (list Z)) : option CIniFile :=
  match file with
  | None => Some (set_nodes s [])
  | Some input => option_map (set_nodes s) (read_loop (S (length input)) input ([], []))
  end.

Definition setFile (s : CIniFile) (pszFile : list Z) (file : option (list Z)) : option CIniFile :=
  readInfo {| m_strFile := pszFile; m_lstNodeInfo := m_lstNodeInfo s |} file.

(** ** Writing *)

Definition key_text (k : stIniKey) : list Z := strKey k ++ [32; 61; 32] ++ strValue k ++ [10].
Definition node_text (n : stIniNode) : list Z := [91] ++ strNode n ++ [93; 10] ++ concat (map key_text (lstKey n)).

(** The contents of the file after [saveTo], when it can be opened for writing. *)
Definition saveTo (s : CIniFile) : list Z := concat (map node_text (m_lstNodeInfo s)).

(** ** The table *)

Lemma str_eqb_spec a b : str_eqb a b = true <-> a = b.
Proof. unfold str_eqb. destruct (list_eq_dec Z.eq_dec a b); split; congruence. Qed.

Lemma str_eqb_refl a : str_eqb a a = true.
Proof. now apply str_eqb_spec. Qed.

Lemma str_eqb_ne a b : a <> b -> str_eqb a b = false.
Proof. intros H. destruct (str_eqb a b) eqn:E; [apply str_eqb_spec in E; congruence|reflexivity]. Qed.

Definition key_names (keys : list stIniKey) : list (list Z) := map strKey keys.
Definition node_names (nodes : list stIniNode) : list (list Z) := map strNode nodes.

(** No section twice, no key twice in a section. *)
Definition table_ok (nodes : list stIniNode) : Prop :=
  NoDup (node_names nodes) /\ Forall (fun n => NoDup (key_names (lstKey n))) nodes.

Lemma find_set_key keys k v : find_key (set_key keys k v) k = Some v.
Proof.
  induction keys as [|x r IH]; cbn; [now rewrite str_eqb_refl|].
  destruct (str_eqb k (strKey x)) eqn:E; cbn; rewrite E; auto.
Qed.

Lemma find_set_other keys k v k' : k' <> k -> find_key (set_key keys k v) k' = find_key keys k'.
Proof.
  intros H. induction keys as [|x r IH]; cbn; [now rewrite str_eqb_ne|].
  destruct (str_eqb k (strKey x)) eqn:E; cbn; [|now rewrite IH].
  apply str_eqb_spec in E. subst k. now rewrite str_eqb_ne.
Qed.

Lemma get_set_value nodes n k v : get_value (set_value nodes n k v) n k = Some v.
Proof.
  induction nodes as [|x r IH]; cbn; [now rewrite !str_eqb_refl|].
  destruct (str_eqb n (strNode x)) eqn:E; cbn; rewrite E; [now rewrite find_set_key|exact IH].
Qed.

Lemma get_set_other nodes n k v n' k' : (n', k') <> (n, k) ->
  get_value (set_value nodes n k v) n' k' = get_value nodes n' k'.
Proof.
  intros H. induction nodes as [|x r IH]; cbn.
  - destruct (str_eqb n' n) eqn:E; [|reflexivity]. apply str_eqb_spec in E as ->. rewrite str_eqb_ne; congruence.
  - destruct (str_eqb n (strNode x)) eqn:E; cbn; [|now rewrite IH].
    destruct (str_eqb n' (strNode x)) eqn:E'; [|reflexivity]. apply str_eqb_spec in E, E'. subst.
    rewrite find_set_other; [reflexivity|congruence].
Qed.

Lemma find_key_none keys k : find_key keys k = None <-> ~ In k (key_names keys).
Proof.
  induction keys as [|x r IH]; cbn; [tauto|]. destruct (str_eqb k (strKey x)) eqn:E.
  - apply str_eqb_spec in E as ->. split; [discriminate|tauto].
  - rewrite IH. assert (strKey x <> k) by (intros Ex; rewrite Ex, str_eqb_refl in E; discriminate). tauto.
Qed.

Lemma get_value_none nodes n k : ~ In n (node_names nodes) -> get_value nodes n k = None.
Proof.
  induction nodes as [|x r IH]; cbn; [reflexivity|]. intros H. rewrite str_eqb_ne by (intros ->; tauto). tauto.
Qed.

Lemma set_key_names keys k v : key_names (set_key keys k v) = key_names keys \/
  (~ In k (key_names keys) /\ key_names (set_key keys k v) = key_names keys ++ [k]).
Proof.
  unfold key_names. induction keys as [|x r IH]; cbn; [right; auto|]. destruct (str_eqb k (strKey x)) eqn:E; [left; reflexivity|].
  assert (strKey x <> k) by (intros Ex; rewrite Ex, str_eqb_refl in E; discriminate).
  cbn. destruct IH as [-> | [H1 ->]]; [left; reflexivity|right]. split; [tauto|reflexivity].
Qed.

Lemma set_value_names nodes n k v : node_names (set_value nodes n k v) = node_names nodes \/
  (~ In n (node_names nodes) /\ node_names (set_value nodes n k v) = node_names nodes ++ [n]).
Proof.
  unfold node_names. induction nodes as [|x r IH]; cbn; [right; auto|]. destruct (str_eqb n (strNode x)) eqn:E; [left; reflexivity|].
  assert (strNode x <> n) by (intros Ex; rewrite Ex, str_eqb_refl in E; discriminate).
  cbn. destruct IH as [-> | [H1 ->]]; [left; reflexivity|right]. split; [tauto|reflexivity].
Qed.

Lemma NoDup_snoc {A} (l : list A) x : NoDup l -> ~ In x l -> NoDup (l ++ [x]).
Proof.
  intros H Hx. apply NoDup_app; [exact H|constructor; [intros []|constructor]|].
  intros y Hy [<-|[]]. contradiction.
Qed.

Lemma set_key_ok keys k v : NoDup (key_names keys) -> NoDup (key_names (set_key keys k v)).
Proof. intros H. destruct (set_key_names keys k v) as [-> | [H1 ->]]; [exact H|now apply NoDup_snoc]. Qed.

Lemma set_value_ok nodes n k v : table_ok nodes -> table_ok (set_value nodes n k v).
Proof.
  intros [H1 H2]. split.
  - destruct (set_value_names nodes n k v) as [-> | [H ->]]; [exact H1|now apply NoDup_snoc].
  - clear H1. induction H2 as [|x r Hx Hr IH]; cbn.
    + repeat constructor. intros [].
    + destruct (str_eqb n (strNode x)) eqn:E; constructor; auto. now apply set_key_ok.
Qed.

(** *** Deleting *)

Lemma erase_key_spec keys k r : NoDup (key_names keys) -> erase_key keys k = Some r ->
  NoDup (key_names r) /\ find_key r k = None /\ (forall k', k' <> k -> find_key r k' = find_key keys k') /\
  incl (key_names r) (key_names keys).
Proof.
  revert r. induction keys as [|x keys IH]; intros r H; cbn; [discriminate|]. inversion H as [|? ? Hx H']; subst.
  destruct (str_eqb k (strKey x)) eqn:E.
  - intros [= <-]. apply str_eqb_spec in E as ->. splits; [exact H'|now apply find_key_none| |apply incl_tl, incl_refl].
    intros k' Hk. now rewrite str_eqb_ne.
  - destruct (erase_key keys k) as [r'|]; [|discriminate]. intros [= <-].
    destruct (IH r' H' eq_refl) as (I1 & I2 & I3 & I4). cbn. rewrite E. splits; auto.
    + constructor; [|exact I1]. intros Hin. apply Hx, I4, Hin.
    + intros k' Hk. now rewrite I3.
    + intros y [<-|Hy]; [left; reflexivity|right; apply I4, Hy].
Qed.

Lemma erase_key_none keys k : erase_key keys k = None -> find_key keys k = None.
Proof.
  induction keys as [|x keys IH]; cbn; [reflexivity|]. destruct (str_eqb k (strKey x)); [discriminate|].
  destruct (erase_key keys k); [discriminate|auto].
Qed.

Lemma del_key_names nodes n k : node_names (del_key nodes n k) = node_names nodes.
Proof.
  unfold node_names. induction nodes as [|x r IH]; cbn; [reflexivity|]. destruct (str_eqb n (strNode x)); cbn; [|now rewrite IH].
  destruct (erase_key (lstKey x) k); cbn; [reflexivity|now rewrite IH].
Qed.

Lemma del_key_ok nodes n k : table_ok nodes -> table_ok (del_key nodes n k).
Proof.
  intros [H1 H2]. split; [now rewrite del_key_names|]. clear H1. induction H2 as [|x r Hx Hr IH]; cbn; [constructor|].
  destruct (str_eqb n (strNode x)); [|constructor; auto].
  destruct (erase_key (lstKey x) k) eqn:E; [|constructor; auto]. constructor; [|exact Hr]. cbn.
  eapply erase_key_spec; eauto.
Qed.

Lemma get_del_key nodes n k n' k' : table_ok nodes ->
  get_value (del_key nodes n k) n' k' = if str_eqb n' n && str_eqb k' k then None else get_value nodes n' k'.
Proof.
  intros [H1 H2]. induction H2 as [|x r Hx Hr IH]; cbn; [destruct (_ && _); reflexivity|].
  inversion H1 as [|? ? Hn H1']; subst. specialize (IH H1').
  destruct (str_eqb n (strNode x)) eqn:E.
  - apply str_eqb_spec in E as ->. destruct (erase_key (lstKey x) k) as [ks|] eqn:Ek; cbn.
    + destruct (erase_key_spec _ _ _ Hx Ek) as (_ & E1 & E2 & _).
      destruct (str_eqb n' (strNode x)) eqn:En; cbn; [|reflexivity]. apply str_eqb_spec in En as ->.
      destruct (str_eqb k' k) eqn:Ek'.
      * apply str_eqb_spec in Ek' as ->. rewrite E1. now apply get_value_none.
      * rewrite E2; [reflexivity|]. intros ->. rewrite str_eqb_refl in Ek'. discriminate.
    + apply erase_key_none in Ek. rewrite IH. destruct (str_eqb n' (strNode x)) eqn:En; cbn; [|reflexivity].
      destruct (str_eqb k' k) eqn:Ek'; [|reflexivity]. apply str_eqb_spec in Ek' as ->. now rewrite Ek.
  - cbn. rewrite IH. destruct (str_eqb n' (strNode x)) eqn:En; [|reflexivity]. apply str_eqb_spec in En as ->.
    assert (Ene : str_eqb (strNode x) n = false) by (apply str_eqb_ne; intros Ex; rewrite Ex, str_eqb_refl in E; discriminate).
    now rewrite Ene.
Qed.

Lemma del_node_names nodes n : incl (node_names (del_node nodes n)) (node_names nodes).
Proof.
  induction nodes as [|x r IH]; cbn; [apply incl_refl|]. destruct (str_eqb n (strNode x)).
  - apply incl_tl, incl_refl.
  - intros y [<-|Hy]; [left; reflexivity|right; apply IH, Hy].
Qed.

Lemma del_node_ok nodes n : table_ok nodes -> table_ok (del_node nodes n).
Proof.
  intros [H1 H2]. split.
  - clear H2. induction nodes as [|x r IH]; cbn; [constructor|]. inversion H1 as [|? ? Hx H']; subst.
    destruct (str_eqb n (strNode x)); [exact H'|]. constructor; [|auto]. intros Hin. apply Hx, (del_node_names r n), Hin.
  - clear H1. induction H2 as [|x r Hx Hr IH]; cbn; [constructor|]. destruct (str_eqb n (strNode x)); auto.
Qed.

Lemma get_del_node nodes n n' k' : table_ok nodes ->
  get_value (del_node nodes n) n' k' = if str_eqb n' n then None else get_value nodes n' k'.
Proof.
  intros [H1 _]. induction nodes as [|x r IH]; cbn; [destruct (str_eqb n' n); reflexivity|].
  inversion H1 as [|? ? Hx H']; subst. destruct (str_eqb n (strNode x)) eqn:E.
  - apply str_eqb_spec in E as ->. destruct (str_eqb n' (strNode x)) eqn:En; [|reflexivity].
    apply str_eqb_spec in En as ->. now apply get_value_none.
  - cbn. rewrite (IH H'). destruct (str_eqb n' (strNode x)) eqn:En; [|reflexivity]. apply str_eqb_spec in En as ->.
    assert (Ene : str_eqb (strNode x) n = false) by (apply str_eqb_ne; intros Ex; rewrite Ex, str_eqb_refl in E; discriminate).
    now rewrite Ene.
Qed.

(** *** Reading keeps the table well formed, and ends *)

Lemma read_line_ok st line : table_ok (fst st) -> table_ok (fst (read_line st line)).
Proof.
  destruct st as [nodes node]. intros H. unfold read_line.
  repeat match goal with |- context [if ?b then _ else _] => destruct b; auto end. now apply set_value_ok.
Qed.

Lemma getline_rest n : forall input, (length (snd (fst (getline n input))) <= length input)%nat /\
  (snd (getline n input) = true -> (length (snd (fst (getline n input))) < length input)%nat).
Proof.
  induction n as [|n IH]; intros [|c r]; cbn; try (destruct (c =? 10)); cbn; try (split; [lia|intros; discriminate || lia]).
  destruct (IH r) as [I1 I2]. destruct (getline n r) as [[b rest] good]. cbn in *. split; [lia|]. intros H. specialize (I2 H). lia.
Qed.

Lemma read_loop_total fuel : forall input st, (length input < fuel)%nat -> table_ok (fst st) ->
  exists nodes, read_loop fuel input st = Some nodes /\ table_ok nodes.
Proof.
  induction fuel as [|f IH]; intros input st Hf Ht; [lia|]. cbn [read_loop].
  destruct (getline_rest 1022 input) as [_ Hr]. destruct (getline 1022 input) as [[b rest] good]. cbn [fst snd] in Hr.
  destruct good.
  - apply IH; [specialize (Hr eq_refl); lia|now apply read_line_ok].
  - eexists. split; [reflexivity|now apply read_line_ok].
Qed.

(** ** Writing and reading *)

(** *** Trimming and notes *)

Lemma Q_TrimLeft_idem s : Q_TrimLeft (Q_TrimLeft s) = Q_TrimLeft s.
Proof. induction s as [|c r IH]; cbn; [reflexivity|]. destruct (blank c) eqn:E; [exact IH|now apply Q_TrimLeft_id]. Qed.

Lemma Q_TrimRight_idem s : Q_TrimRight (Q_TrimRight s) = Q_TrimRight s.
Proof. rewrite !Q_TrimRight_rev, rev_involutive. now rewrite Q_TrimLeft_idem. Qed.

Lemma Q_Trim_right s : Q_Trim (Q_TrimRight s) = Q_Trim s.
Proof. unfold Q_Trim. now rewrite Q_TrimRight_idem. Qed.

Lemma Q_TrimLeft_snoc s c : blank c = true ->
  Q_TrimLeft (s ++ [c]) = match Q_TrimLeft s with [] => [] | t => t ++ [c] end.
Proof.
  intros Hc. induction s as [|x s IH]; cbn; [now rewrite Hc|]. destruct (blank x); [exact IH|reflexivity].
Qed.

Lemma Q_TrimRight_cons c s : blank c = true ->
  Q_TrimRight (c :: s) = match Q_TrimRight s with [] => [] | t => c :: t end.
Proof.
  intros Hc. rewrite !Q_TrimRight_rev. cbn [rev]. rewrite Q_TrimLeft_snoc by exact Hc.
  destruct (Q_TrimLeft (rev s)) as [|x t] eqn:E; [reflexivity|]. rewrite rev_app_distr. cbn [rev app].
  destruct (rev t ++ [x]) eqn:E2; [now destruct (rev t)|reflexivity].
Qed.

Lemma Q_Trim_cons c s : blank c = true -> Q_Trim (c :: s) = Q_Trim s.
Proof.
  intros Hc. unfold Q_Trim. rewrite Q_TrimRight_cons by exact Hc. destruct (Q_TrimRight s); [reflexivity|].
  cbn [Q_TrimLeft]. now rewrite Hc.
Qed.

(** A character that is not blank keeps the two sides apart. *)
Lemma Q_TrimRight_app a c b : blank c = false -> Q_TrimRight (a ++ c :: b) = a ++ c :: Q_TrimRight b.
Proof.
  intros Hc. rewrite !Q_TrimRight_rev, rev_app_distr. cbn [rev]. rewrite <- app_assoc. cbn [app].
  assert (E : forall l r, Q_TrimLeft (l ++ c :: r) = Q_TrimLeft l ++ c :: r).
  { induction l as [|x l IH]; intros r; cbn; [now rewrite Hc|]. destruct (blank x); auto. }
  rewrite E, rev_app_distr. cbn [rev]. rewrite rev_involutive, <- app_assoc. reflexivity.
Qed.

Lemma Q_TrimLeft_app_kept a c b : blank c = false -> Q_TrimLeft (a ++ c :: b) = Q_TrimLeft a ++ c :: b.
Proof. intros Hc. induction a as [|x a IH]; cbn; [now rewrite Hc|]. destruct (blank x); auto. Qed.

Lemma Q_Trim_app a c b : blank c = false -> Q_Trim (a ++ c :: b) = Q_TrimLeft a ++ c :: Q_TrimRight b.
Proof. intros Hc. unfold Q_Trim. now rewrite Q_TrimRight_app, Q_TrimLeft_app_kept by exact Hc. Qed.

(** The part before the first of some characters. *)
Fixpoint before (set s : list Z) : list Z :=
  match s with [] => [] | c :: r => if existsb (Z.eqb c) set then [] else c :: before set r end.

Lemma front_before s set : Q_GetFrontOfFlag s set = before set s.
Proof.
  unfold Q_GetFrontOfFlag. induction s as [|c r IH]; cbn; [reflexivity|].
  destruct (existsb (Z.eqb c) set); [reflexivity|]. rewrite <- IH. now destruct (find_first_of r set).
Qed.

Definition free (set s : list Z) : Prop := Forall (fun c => existsb (Z.eqb c) set = false) s.

Lemma before_app set a b : free set a -> before set (a ++ b) = a ++ before set b.
Proof. induction 1 as [|c a Hc _ IH]; cbn; [reflexivity|]. now rewrite Hc, IH. Qed.

Lemma before_free set a : free set a -> before set a = a.
Proof. intros H. rewrite <- (app_nil_r a) at 1. rewrite before_app by exact H. cbn. apply app_nil_r. Qed.

Lemma before_stop set c a b : free set a -> existsb (Z.eqb c) set = true -> before set (a ++ c :: b) = a.
Proof. intros H Hc. rewrite before_app by exact H. cbn. rewrite Hc. apply app_nil_r. Qed.

Lemma before_split set s : free set (before set s) /\
  (before set s = s \/ exists c r, s = before set s ++ c :: r /\ existsb (Z.eqb c) set = true).
Proof.
  induction s as [|c r [IH1 IH2]]; cbn; [split; [constructor|auto]|].
  destruct (existsb (Z.eqb c) set) eqn:E; [split; [constructor|right; cbn; eauto]|].
  split; [now constructor|]. destruct IH2 as [-> | (x & t & -> & Hx)]; [auto|].
  right. exists x, t. split; [|exact Hx]. cbn. do 2 f_equal.
  rewrite before_stop by assumption. reflexivity.
Qed.

(** Trimming the end first makes no difference before a character that is not blank. *)
Lemma before_trim set s : (forall c, existsb (Z.eqb c) set = true -> blank c = false) ->
  Q_TrimRight (before set (Q_TrimRight s)) = Q_TrimRight (before set s).
Proof.
  intros Hs. destruct (before_split set s) as [F [E | (c & r & E & Hc)]].
  - rewrite E. rewrite E in F. rewrite before_free; [apply Q_TrimRight_idem|].
    rewrite Q_TrimRight_rev. apply Forall_rev. rewrite Q_TrimLeft_skipn. now apply Forall_skipn, Forall_rev.
  - rewrite E at 1. rewrite Q_TrimRight_app by now apply Hs. now rewrite before_stop.
Qed.

Lemma removeNote_eq s : removeNote s = before [35] (before [47; 47] s).
Proof. unfold removeNote. now rewrite !front_before. Qed.

Lemma note_trim s : Q_Trim (removeNote (Q_TrimRight s)) = Q_Trim (removeNote s).
Proof.
  assert (H1 : forall c, existsb (Z.eqb c) [47; 47] = true -> blank c = false).
  { intros c H. cbn in H. destruct (Z.eqb_spec c 47) as [Ec|]; [rewrite Ec; reflexivity|discriminate]. }
  assert (H2 : forall c, existsb (Z.eqb c) [35] = true -> blank c = false).
  { intros c H. cbn in H. destruct (Z.eqb_spec c 35) as [Ec|]; [rewrite Ec; reflexivity|discriminate]. }
  rewrite !removeNote_eq. unfold Q_Trim.
  rewrite <- (before_trim [35] (before [47; 47] (Q_TrimRight s))) by exact H2.
  rewrite (before_trim [47; 47] s) by exact H1. now rewrite before_trim by exact H2.
Qed.

(** *** One line *)

(** What the names of sections and keys may not contain: a newline, a NUL, a slash and a
    number sign. *)
Definition plain (s : list Z) : Prop := free [10; 0; 47; 35] s.

Record good_name (s : list Z) : Prop := {
  gn_plain : plain s;
  gn_trimmed : trimmed s;
  gn_nonempty : s <> [];
  gn_length : (length s <= 1020)%nat
}.

(** A key may not contain an equals sign nor begin with a bracket; a value is any text of
    one line. *)
Record good_key (k : stIniKey) : Prop := {
  gk_plain : plain (strKey k);
  gk_equals : free [61] (strKey k);
  gk_trimmed : trimmed (strKey k);
  gk_bracket : hd 0 (strKey k) <> 91;
  gk_value : free [10; 0] (strValue k);
  gk_length : (length (strKey k) + length (strValue k) <= 1019)%nat
}.

Lemma free_incl set set' s : (forall c, existsb (Z.eqb c) set' = true -> existsb (Z.eqb c) set = true) ->
  free set s -> free set' s.
Proof.
  intros H. apply Forall_impl. intros c Hc. destruct (existsb (Z.eqb c) set') eqn:E; [|reflexivity].
  apply H in E. congruence.
Qed.

Lemma plain_free s : plain s -> free [10; 0] s /\ free [47; 47] s /\ free [35] s.
Proof.
  intros H. splits; (eapply free_incl; [|exact H]); intros c; cbn;
    destruct (c =? 10), (c =? 0), (c =? 47), (c =? 35); auto.
Qed.

Lemma free_app set a b : free set a -> free set b -> free set (a ++ b).
Proof. intros. apply Forall_app. auto. Qed.

Lemma getline_line n l rest : free [10; 0] l -> (length l <= n)%nat -> getline n (l ++ 10 :: rest) = (l, rest, true).
Proof.
  intros F. revert n. induction F as [|c l Hc _ IH]; intros n Hn; [destruct n; reflexivity|].
  destruct n as [|n]; cbn in Hn; [lia|]. cbn in Hc |- *. destruct (c =? 10); [discriminate|].
  rewrite IH by lia. reflexivity.
Qed.

Lemma strlen_free l : free [10; 0] l -> firstn (strlen l) l = l.
Proof.
  induction 1 as [|c l Hc _ IH]; [reflexivity|]. cbn in Hc |- *. destruct (c =? 10), (c =? 0); try discriminate.
  cbn. now rewrite IH.
Qed.

(** A file of lines is read line by line. *)
Lemma read_lines lines : Forall (fun l => free [10; 0] l /\ (length l <= 1022)%nat) lines ->
  forall fuel st, (length (concat (map (fun l => l ++ [10%Z]) lines)) < fuel)%nat ->
  read_loop fuel (concat (map (fun l => l ++ [10%Z]) lines)) st = Some (fst (fold_left read_line lines st)).
Proof.
  induction 1 as [|l lines [Hf Hl] _ IH]; intros fuel st Hfuel; (destruct fuel as [|f]; [cbn in Hfuel; lia|]).
  - cbn [map concat read_loop getline firstn strlen fold_left]. destruct st. reflexivity.
  - cbn [map concat] in *. rewrite length_app, length_app in Hfuel. cbn [read_loop].
    rewrite <- app_assoc. cbn [app]. rewrite getline_line by assumption. rewrite strlen_free by exact Hf.
    cbn [fold_left]. apply IH. cbn in Hfuel. lia.
Qed.

(** The lines [saveTo] writes. *)
Definition node_line (n : stIniNode) : list Z := 91 :: strNode n ++ [93].
Definition key_line (k : stIniKey) : list Z := (strKey k ++ [32]) ++ 61 :: 32 :: strValue k.
Definition node_lines (n : stIniNode) : list (list Z) := node_line n :: map key_line (lstKey n).

Lemma text_lines nodes : concat (map node_text nodes) = concat (map (fun l => l ++ [10]) (concat (map node_lines nodes))).
Proof.
  induction nodes as [|n r IH]; cbn [map concat]; [reflexivity|]. rewrite map_app, concat_app, <- IH. f_equal.
  unfold node_text, node_lines, node_line. cbn [map concat app]. rewrite <- app_assoc. cbn [app]. f_equal.
  rewrite <- app_assoc. f_equal. cbn [app]. do 2 f_equal. rewrite map_map. f_equal. apply map_ext. intros k.
  unfold key_text, key_line. rewrite <- !app_assoc. cbn [app]. reflexivity.
Qed.

Lemma Q_Trim_id s : trimmed s -> Q_Trim s = s.
Proof. intros H. pose proof (Q_Trim_spec [] s [] eq_refl eq_refl H) as E. rewrite app_nil_r in E. exact E. Qed.

Lemma read_node_line nodes node n : good_name n ->
  read_line (nodes, node) (91 :: n ++ [93]) = (nodes, n).
Proof.
  intros [Hp Ht Hne Hl]. destruct (plain_free n Hp) as (_ & F1 & F2). unfold read_line.
  assert (T : Q_Trim (91 :: n ++ [93]) = 91 :: n ++ [93]).
  { apply Q_Trim_id. split.
    - now intros c r [= <- _].
    - intros c r E. rewrite app_comm_cons in E. apply app_inj_tail in E as [_ <-]. reflexivity. }
  assert (N : removeNote (91 :: n ++ [93]) = 91 :: n ++ [93]).
  { rewrite removeNote_eq. assert (W : forall set, free set n -> free set [91] -> free set [93] -> free set (91 :: n ++ [93])).
    { intros set W1 W2 W3. apply (free_app set [91]); [exact W2|now apply free_app]. }
    rewrite (before_free [47; 47]), (before_free [35]); auto; apply W; auto; repeat constructor. }
  rewrite T. cbn [length Nat.eqb orb]. rewrite N, T. cbn [isNote str_eqb firstn length Nat.eqb].
  assert (I : isNode (91 :: n ++ [93]) = true).
  { unfold isNode. cbn [firstn length]. rewrite length_app. cbn [length].
    replace (S (length n + 1) - 1)%nat with (S (length n)) by lia. cbn [skipn]. rewrite skipn_app_len.
    rewrite !str_eqb_refl. cbn [andb]. destruct n; [congruence|]. apply Nat.ltb_lt. cbn. lia. }
  rewrite I. unfold getNode. cbn [skipn length]. rewrite length_app. cbn [length].
  replace (S (length n + 1) - 2)%nat with (length n) by lia. rewrite firstn_app_len.
  rewrite Q_Trim_id by exact Ht. reflexivity.
Qed.

(** The value a file gives back: what stands before the first slash or number sign. *)
Definition kept (v : list Z) : list Z := Q_Trim (removeNote v).

Lemma read_key_line nodes node k : good_key k ->
  read_line (nodes, node) (key_line k) = (set_value nodes node (strKey k) (kept (strValue k)), node).
Proof.
  intros [Hp He Ht Hb Hv Hl]. destruct (plain_free _ Hp) as (_ & F1 & F2). unfold read_line, key_line.
  set (a := strKey k ++ [32]). set (a' := Q_TrimLeft a).
  assert (Fa : free [47; 47] a' /\ free [35] a' /\ free [61] a').
  { unfold a', a. rewrite Q_TrimLeft_skipn. splits; apply Forall_skipn, free_app; auto; repeat constructor. }
  destruct Fa as (Fa1 & Fa2 & Fa3).
  assert (Ta : Q_Trim a' = strKey k).
  { unfold a'. pose proof (Q_Trim_spec [] (strKey k) [32] eq_refl eq_refl Ht) as E. cbn [app] in E. fold a in E.
    rewrite <- E. unfold a. clear E. destruct (strKey k) as [|c r] eqn:Ek; [reflexivity|]. cbn [app].
    rewrite Q_TrimLeft_id by (apply (proj1 Ht c r); reflexivity). reflexivity. }
  rewrite Q_Trim_app by reflexivity. fold a'.
  set (b := Q_TrimRight (32 :: strValue k)). rewrite length_app. cbn [length].
  replace (length a' + S (length b) =? 0)%nat with false by (symmetry; apply Nat.eqb_neq; lia).
  cbn [orb].
  assert (N1 : isNote (a' ++ 61 :: b) = false).
  { unfold isNote. destruct a' as [|c r]; cbn [app firstn]; [reflexivity|].
    inversion Fa1 as [|? ? Hc _]; inversion Fa2 as [|? ? Hc' _]; subst. cbn in Hc, Hc'.
    apply orb_false_iff in Hc as [Hc _]. apply orb_false_iff in Hc' as [Hc' _]. apply Z.eqb_neq in Hc, Hc'.
    rewrite !str_eqb_ne; [reflexivity| |]; intros [= E]; congruence. }
  rewrite N1.
  assert (R : removeNote (a' ++ 61 :: b) = a' ++ 61 :: removeNote b).
  { rewrite !removeNote_eq. rewrite before_app by exact Fa1. cbn [before existsb Z.eqb Pos.eqb orb].
    rewrite before_app by exact Fa2. reflexivity. }
  rewrite R, Q_Trim_app by reflexivity. rewrite (Q_TrimLeft_idem a : Q_TrimLeft a' = a').
  set (c := Q_TrimRight (removeNote b)). rewrite length_app. cbn [length].
  replace (length a' + S (length c) =? 0)%nat with false by (symmetry; apply Nat.eqb_neq; lia).
  assert (N2 : isNode (a' ++ 61 :: c) = false).
  { unfold isNode. unfold a', a. destruct (strKey k) as [|x r] eqn:Ek; [reflexivity|]. cbn [app].
    rewrite Q_TrimLeft_id by (apply (proj1 Ht x r); reflexivity). cbn [app firstn]. cbn in Hb.
    rewrite str_eqb_ne by congruence. reflexivity. }
  assert (K : isKey (a' ++ 61 :: c) = true) by (unfold isKey; rewrite existsb_app; cbn; apply orb_true_r).
  rewrite N2, K. unfold getKey, getVal. rewrite front_before, before_stop by (assumption || reflexivity). rewrite Ta.
  assert (FF : find_first_of (a' ++ 61 :: c) [61] = Some (length a')).
  { clear - Fa3. induction Fa3 as [|y l Hy _ IH]; [reflexivity|]. cbn [app find_first_of length]. now rewrite Hy, IH. }
  rewrite FF. replace (a' ++ 61 :: c) with ((a' ++ [61]) ++ c) by (rewrite <- app_assoc; reflexivity).
  replace (length a' + 1)%nat with (length (a' ++ [61])) by now rewrite length_app.
  rewrite skipn_app_len. do 2 f_equal. unfold c, b, kept. rewrite Q_Trim_right, note_trim.
  rewrite !removeNote_eq. apply Q_Trim_cons. reflexivity.
Qed.

(** *** A whole file *)

Definition kept_keys (keys : list stIniKey) : list stIniKey :=
  map (fun k => {| strKey := strKey k; strValue := kept (strValue k) |}) keys.

(** What comes back of a section: nothing when it has no key. *)
Definition with_keys (n : stIniNode) : list stIniNode :=
  match lstKey n with [] => [] | keys => [{| strNode := strNode n; lstKey := kept_keys keys |}] end.
Definition restored (nodes : list stIniNode) : list stIniNode := concat (map with_keys nodes).

Lemma set_value_fresh nodes n k v : ~ In n (node_names nodes) ->
  set_value nodes n k v = nodes ++ [{| strNode := n; lstKey := [{| strKey := k; strValue := v |}] |}].
Proof.
  induction nodes as [|x r IH]; cbn; [reflexivity|]. intros H. rewrite str_eqb_ne by (intros ->; tauto).
  rewrite IH by tauto. reflexivity.
Qed.

Lemma set_key_fresh keys k v : ~ In k (key_names keys) -> set_key keys k v = keys ++ [{| strKey := k; strValue := v |}].
Proof.
  induction keys as [|x r IH]; cbn; [reflexivity|]. intros H. rewrite str_eqb_ne by (intros ->; tauto).
  rewrite IH by tauto. reflexivity.
Qed.

Lemma set_value_last nodes n keys k v : ~ In n (node_names nodes) -> ~ In k (key_names keys) ->
  set_value (nodes ++ [{| strNode := n; lstKey := keys |}]) n k v =
  nodes ++ [{| strNode := n; lstKey := keys ++ [{| strKey := k; strValue := v |}] |}].
Proof.
  intros Hn Hk. induction nodes as [|x r IH]; cbn.
  - rewrite str_eqb_refl, set_key_fresh by exact Hk. reflexivity.
  - cbn in Hn. rewrite str_eqb_ne by (intros ->; tauto). rewrite IH by tauto. reflexivity.
Qed.

Lemma read_keys nodes n keys : ~ In n (node_names nodes) -> Forall good_key keys -> forall ks,
  NoDup (key_names ks ++ key_names keys) ->
  fold_left read_line (map key_line keys) (nodes ++ [{| strNode := n; lstKey := ks |}], n) =
  (nodes ++ [{| strNode := n; lstKey := ks ++ kept_keys keys |}], n).
Proof.
  intros Hn F. induction F as [|k keys Hk _ IH]; intros ks D; cbn [map fold_left]; [now rewrite app_nil_r|].
  rewrite read_key_line by exact Hk.
  assert (Hks : ~ In (strKey k) (key_names ks)).
  { cbn in D. apply NoDup_remove_2 in D. intros H. apply D, in_app_iff. auto. }
  rewrite set_value_last by assumption. rewrite IH.
  - rewrite <- app_assoc. reflexivity.
  - unfold key_names in *. rewrite map_app, <- app_assoc. exact D.
Qed.

Definition good_node (n : stIniNode) : Prop := good_name (strNode n) /\ Forall good_key (lstKey n).

Lemma read_node nodes node n : ~ In (strNode n) (node_names nodes) -> good_node n -> NoDup (key_names (lstKey n)) ->
  fold_left read_line (node_lines n) (nodes, node) = (nodes ++ with_keys n, strNode n).
Proof.
  intros Hn [Gn Gk] D. unfold node_lines, node_line, with_keys. cbn [fold_left]. rewrite read_node_line by exact Gn.
  destruct (lstKey n) as [|k keys]; [now rewrite app_nil_r|]. apply Forall_cons_iff in Gk as [Hk Gk].
  cbn [map fold_left]. rewrite read_key_line, set_value_fresh by assumption.
  now rewrite read_keys by assumption.
Qed.

Lemma with_keys_names n : incl (node_names (with_keys n)) [strNode n].
Proof. unfold with_keys. destruct (lstKey n); [intros y []|apply incl_refl]. Qed.

Lemma read_nodes nodes : Forall good_node nodes -> Forall (fun n => NoDup (key_names (lstKey n))) nodes ->
  NoDup (node_names nodes) -> forall done node, (forall n, In n (node_names nodes) -> ~ In n (node_names done)) ->
  fst (fold_left read_line (concat (map node_lines nodes)) (done, node)) = done ++ restored nodes.
Proof.
  induction 1 as [|n r Hn _ IH]; intros K D done node Hd; cbn [map concat fold_left]; [symmetry; apply app_nil_r|].
  apply Forall_cons_iff in K as [K1 K]. cbn in D. apply NoDup_cons_iff in D as [D1 D].
  rewrite fold_left_app, read_node; [|apply Hd; left; reflexivity|exact Hn|exact K1].
  rewrite IH; [|exact K|exact D|].
  - unfold restored. cbn [map concat]. now rewrite app_assoc.
  - intros x Hx. unfold node_names. rewrite map_app, in_app_iff. intros [H|H].
    + apply (Hd x); [right; exact Hx|exact H].
    + apply with_keys_names in H as [<-|[]]. contradiction.
Qed.

Lemma lines_fit nodes : Forall good_node nodes ->
  Forall (fun l => free [10; 0] l /\ (length l <= 1022)%nat) (concat (map node_lines nodes)).
Proof.
  intros F. apply Forall_concat, Forall_map. revert F. apply Forall_impl. intros n [[Gp _ _ Gl] Gk].
  constructor.
  - unfold node_line. split; [|cbn; rewrite length_app; cbn; lia].
    apply (free_app _ [91]); [repeat constructor|]. apply free_app; [apply plain_free, Gp|repeat constructor].
  - apply Forall_map. revert Gk. apply Forall_impl. intros k [Kp _ _ _ Kv Kl]. unfold key_line.
    split; [|rewrite !length_app; cbn; lia].
    apply free_app; [apply free_app; [apply plain_free, Kp|repeat constructor]|].
    apply (free_app _ [61; 32]); [repeat constructor|exact Kv].
Qed.

Lemma kept_plain v : free [47; 35] v -> trimmed v -> kept v = v.
Proof.
  intros F T. unfold kept. rewrite removeNote_eq, (before_free [47; 47]), (before_free [35]), Q_Trim_id; auto;
    (eapply free_incl; [|exact F]); intros c; cbn; destruct (c =? 47), (c =? 35); auto.
Qed.

(** ** The claims *)

(** Claim C35: the table of a configuration never holds a section twice, nor a key twice in
    a section: setting a value, deleting a key, deleting a section keep it so, and reading
    any file at all, whatever its bytes and the lengths of its lines, ends and gives such
    a table. *)
Theorem Ini_well_formed (s : CIniFile) : table_ok (m_lstNodeInfo s) ->
  (forall n k v, table_ok (m_lstNodeInfo (setStringValue s n k v))) /\
  (forall n k, table_ok (m_lstNodeInfo (delKey s n k))) /\
  (forall n, table_ok (m_lstNodeInfo (delNode s n))) /\
  (forall file, exists s', readInfo s file = Some s' /\ table_ok (m_lstNodeInfo s')).
Proof.
  intros H. splits; intros.
  - now apply set_value_ok.
  - now apply del_key_ok.
  - now apply del_node_ok.
  - assert (H0 : table_ok []) by (split; constructor).
    destruct file as [input|]; [|exists (set_nodes s []); split; [reflexivity|exact H0]].
    unfold readInfo. destruct (read_loop_total (S (length input)) input ([], []) (Nat.lt_succ_diag_r _) H0) as (nodes & -> & Hn).
    exists (set_nodes s nodes). split; [reflexivity|exact Hn].
Qed.

Definition empty_ini : CIniFile := {| m_strFile := []; m_lstNodeInfo := [] |}.

(** A file of one line without an end, with a key before any section. *)
Lemma Ini_well_formed_witness : exists s', readInfo empty_ini (Some [97; 61; 98]) = Some s' /\ table_ok (m_lstNodeInfo s').
Proof. apply (Ini_well_formed empty_ini). split; constructor. Defined.

(** The table is a map.  After [setStringValue] the key has the value and every
    other key of every section what it had; after [delKey] or [delNode] the keys deleted
    give the default, and the others what they had; and every 32-bit number that
    [setIntValue] stores [getIntValue] returns. *)
Theorem Ini_lookup (s : CIniFile) : table_ok (m_lstNodeInfo s) ->
  (forall n k v n' k' d, getStringValue (setStringValue s n k v) n' k' d =
     if str_eqb n' n && str_eqb k' k then Some v else getStringValue s n' k' d) /\
  (forall n k n' k' d, getStringValue (delKey s n k) n' k' d =
     if str_eqb n' n && str_eqb k' k then d else getStringValue s n' k' d) /\
  (forall n n' k' d, getStringValue (delNode s n) n' k' d =
     if str_eqb n' n then d else getStringValue s n' k' d) /\
  (forall n k i d, - 2 ^ 31 <= i < 2 ^ 31 -> getIntValue (setIntValue s n k i) n k d = i).
Proof.
  intros H. splits; intros; unfold getStringValue; cbn [setStringValue delKey delNode set_nodes m_lstNodeInfo].
  - destruct (str_eqb n' n && str_eqb k' k) eqn:E.
    + apply andb_true_iff in E as [->%str_eqb_spec ->%str_eqb_spec]. now rewrite get_set_value.
    + rewrite get_set_other; [reflexivity|]. intros [= -> ->]. rewrite !str_eqb_refl in E. discriminate.
  - rewrite get_del_key by exact H. destruct (_ && _); reflexivity.
  - rewrite get_del_node by exact H. destruct (str_eqb n' n); reflexivity.
  - unfold getIntValue, getStringValue. cbn [setIntValue setStringValue set_nodes m_lstNodeInfo]. rewrite get_set_value.
    assert (R : read_int INT64 (show_int i) = i)
      by (apply read_show_int; [cbn; lia|unfold in_range, int_min, int_max; cbn [signed INT64 width]; lia]).
    destruct (show_int i) as [|c r] eqn:E; [|unfold atoi; rewrite R; apply cast_id; [cbn; lia|];
      unfold in_range, int_min, int_max; cbn [signed INT width]; lia].
    unfold show_int in E. destruct (Z.ltb_spec i 0); [discriminate|].
    destruct (show_digits_head 20 i) as (c & r & E' & _); [lia|lia|congruence].
Qed.

Definition one_key : CIniFile := setIntValue empty_ini [110] [107] 7.

Lemma Ini_lookup_witness : getIntValue (setIntValue one_key [110] [107] (-12)) [110] [107] 3 = -12.
Proof.
  apply (Ini_lookup one_key).
  - split; [|repeat constructor; intros []]. cbn. repeat constructor. intros [].
  - lia.
Defined.

(** Claim C34: [saveTo] and [readInfo] round-trip, but for slashes and number signs.  A file
    that was written from a table (names of sections not empty, names without blanks at
    their ends and without notes, everything on lines below 1023 bytes) reads back as the
    table, without the sections that have no key, each value cut where [removeNote] cuts
    it: at the first slash, even a single one, or number sign, and then trimmed.  So a
    table of values without these two characters comes back as it is, and a path or a URL
    does not. *)
Theorem Ini_save_load (s t : CIniFile) : table_ok (m_lstNodeInfo s) -> Forall good_node (m_lstNodeInfo s) ->
  readInfo t (Some (saveTo s)) = Some (set_nodes t (restored (m_lstNodeInfo s))) /\
  (Forall (fun n => lstKey n <> [] /\ Forall (fun k => free [47; 35] (strValue k) /\ trimmed (strValue k)) (lstKey n))
     (m_lstNodeInfo s) -> restored (m_lstNodeInfo s) = m_lstNodeInfo s).
Proof.
  intros [D K] G. split.
  - unfold readInfo, saveTo. rewrite text_lines, read_lines; [|now apply lines_fit|apply Nat.lt_succ_diag_r].
    cbn [option_map]. rewrite read_nodes; auto.
  - intros H. unfold restored. induction H as [|n r [Hne Hv] _ IH]; [reflexivity|]. cbn [map concat].
    inversion D; inversion K; inversion G; subst. rewrite IH by assumption.
    assert (E : kept_keys (lstKey n) = lstKey n).
    { clear - Hv. induction Hv as [|k l [H1 H2] _ IHl]; [reflexivity|]. cbn. rewrite kept_plain by assumption.
      destruct k. f_equal. exact IHl. }
    unfold with_keys. destruct n as [name keys]. cbn [lstKey strNode] in *. destruct keys; [congruence|now rewrite E].
Qed.

(** A number and a path: the path loses all of itself. *)
Definition two_keys : CIniFile := setStringValue one_key [110] [112] [47; 117; 115; 114].

Lemma Ini_save_load_witness :
  readInfo empty_ini (Some (saveTo two_keys)) = Some (set_nodes empty_ini (restored (m_lstNodeInfo two_keys))) /\
  restored (m_lstNodeInfo two_keys) =
    [{| strNode := [110]; lstKey := [{| strKey := [107]; strValue := [55] |}; {| strKey := [112]; strValue := [] |}] |}].
Proof.
  split; [|reflexivity]. apply (Ini_save_load two_keys empty_ini).
  - split; [|repeat constructor; cbn; intuition discriminate]. cbn. repeat constructor. intros [].
  - constructor; [|constructor]. split; [|repeat apply Forall_cons; [| |apply Forall_nil]]; constructor.
    all: try (cbn; lia); try discriminate; try (repeat constructor; fail).
    all: split; [intros c r [= <- _]; reflexivity|intros c r E; destruct r as [|? [|? ?]]; [injection E as <-; reflexivity|discriminate..]].
Defined.

