(* ===== verification/QFilter.v ===== *)
(** * QFilter: the word filter [CFilter] (QBase/QFilter.cpp)

    The words are kept in a tree with a letter on each edge; a text is scanned with one
    position in the tree.  The order of the entries of a node, which the code leaves to the
    hash map, plays no part. *)

From S2P Require Import Prelude.

Inductive FilterMap := Node (mapFilterMap : list (Z * FilterMap)).

Definition mapFilterMap (t : FilterMap) : list (Z * FilterMap) := match t with Node l => l end.

Fixpoint lookup (c : Z) (l : list (Z * FilterMap)) : option FilterMap :=
  match l with [] => None | (x, t) :: r => if c =? x then Some t else lookup c r end.

Definition find (t : FilterMap) (c : Z) : option FilterMap := lookup c (mapFilterMap t).
Definition empty (t : FilterMap) : bool := match mapFilterMap t with [] => true | _ => false end.

(** The entry of [c] is set. *)
Fixpoint set_entry (c : Z) (t : FilterMap) (l : list (Z * FilterMap)) : list (Z * FilterMap) :=
  match l with
  | [] => [(c, t)]
  | (x, u) :: r => if c =? x then (x, t) :: r else (x, u) :: set_entry c t r
  end.

Definition set_child (t : FilterMap) (c : Z) (u : FilterMap) : FilterMap := Node (set_entry c u (mapFilterMap t)).

Section Filter.
(** Whether the node for letter [i] of a word can be allocated. *)
Context (new_ok : nat -> bool).

(** The loop of [addFilterWord] from letter [i] on. *)
Fixpoint add_loop (t : FilterMap) (i : nat) (pszWord : list Z) : FilterMap * bool :=
  match pszWord with
  | [] => (t, true)
  | c :: r =>
      match find t c with
      | None =>
          if new_ok i
          then let (u, ok) := add_loop (Node []) (S i) r in (set_child t c u, ok)
          else (t, false)
      | Some u => let (u, ok) := add_loop u (S i) r in (set_child t c u, ok)
      end
  end.

(** [m_pmapFilter] is [None] before the first word; [new_root] says whether the root can be
    allocated. *)
Definition addFilterWord (new_root : bool) (m_pmapFilter : option FilterMap) (pszWord : list Z)
  : option FilterMap * bool :=
  match pszWord with
  | [] => (m_pmapFilter, false)
  | _ =>
      match (match m_pmapFilter with Some t => Some t | None => if new_root then Some (Node []) else None end) with
      | None => (None, false)
      | Some t => let (t, ok) := add_loop t 0 pszWord in (Some t, ok)
      end
  end.

Definition Clear (m_pmapFilter : option FilterMap) : option FilterMap := None.
End Filter.

(** The loop of [checkHave] with [pSearchMap]. *)
Fixpoint have_loop (m_pmapFilter pSearchMap : FilterMap) (pszWord : list Z) : bool :=
  match pszWord with
  | [] => false
  | c :: r =>
      match find pSearchMap c with
      | Some u => if empty u then true else have_loop m_pmapFilter u r
      | None =>
          match find m_pmapFilter c with
          | Some u => if empty u then true else have_loop m_pmapFilter u r
          | None => have_loop m_pmapFilter m_pmapFilter r
          end
      end
  end.

Definition checkHave (m_pmapFilter : option FilterMap) (pszWord : list Z) : bool :=
  match m_pmapFilter, pszWord with
  | None, _ | _, [] => false
  | Some t, _ => have_loop t t pszWord
  end.

Definition memset (p : list Z) (i : nat) (c : Z) (n : nat) : list Z :=
  firstn i p ++ repeat c n ++ skipn (i + n) p.

(** The loop of [checkAndModify]: [fuel] letters are left from [i] on; [iBegain] is [None]
    for -1. *)
Fixpoint modify_loop (fuel : nat) (m_pmapFilter : FilterMap) (cReplace : Z) (pSearchMap : FilterMap)
    (iBegain : option nat) (pWord : list Z) (i : nat) : list Z :=
  match fuel with
  | O => pWord
  | S f =>
      let c := nth i pWord 0 in
      let enter (b : nat) (u : FilterMap) :=
        if empty u
        then modify_loop f m_pmapFilter cReplace m_pmapFilter None (memset pWord b cReplace (i + 1 - b)) (S i)
        else modify_loop f m_pmapFilter cReplace u (Some b) pWord (S i) in
      match find pSearchMap c with
      | Some u => enter (match iBegain with None => i | Some b => b end) u
      | None =>
          match find m_pmapFilter c with
          | Some u => enter i u
          | None => modify_loop f m_pmapFilter cReplace m_pmapFilter None pWord (S i)
          end
      end
  end.

Definition checkAndModify (m_pmapFilter : option FilterMap) (pWord : list Z) (cReplace : Z) : list Z :=
  match m_pmapFilter, pWord with
  | None, _ | _, [] => pWord
  | Some t, _ => modify_loop (length pWord) t cReplace t None pWord 0
  end.

Definition Filter (m_pmapFilter : option FilterMap) (pWord : list Z) : list Z := checkAndModify m_pmapFilter pWord 42.

(** ** The tree *)

Fixpoint walk (t : FilterMap) (p : list Z) : option FilterMap :=
  match p with [] => Some t | c :: r => match find t c with None => None | Some u => walk u r end end.

(** A word that the filter can find: it ends in a node without entries. *)
Definition leaf (t : FilterMap) (w : list Z) : Prop := w <> [] /\ exists u, walk t w = Some u /\ empty u = true.

Fixpoint prefixb (p w : list Z) : bool :=
  match p, w with
  | [], _ => true
  | x :: p, y :: w => (x =? y) && prefixb p w
  | _, [] => false
  end.

Lemma find_set_child t c u x : find (set_child t c u) x = if x =? c then Some u else find t x.
Proof.
  unfold find, set_child. cbn [mapFilterMap]. destruct t as [l]. cbn. induction l as [|[y v] l IH]; cbn.
  - destruct (x =? c); reflexivity.
  - destruct (Z.eqb_spec c y) as [->|Hc]; cbn.
    + destruct (Z.eqb_spec x y); reflexivity.
    + rewrite IH. destruct (Z.eqb_spec x y) as [->|]; [|reflexivity]. destruct (Z.eqb_spec y c); congruence.
Qed.

Definition has (t : FilterMap) (p : list Z) : bool := match walk t p with Some _ => true | None => false end.

Lemma has_empty p : has (Node []) p = match p with [] => true | _ => false end.
Proof. destruct p; reflexivity. Qed.

(** Adding a word adds its beginnings to the paths of the tree, and nothing else. *)
Lemma add_loop_has new_ok w : forall t i t', add_loop new_ok t i w = (t', true) ->
  forall p, has t' p = has t p || prefixb p w.
Proof.
  induction w as [|c r IH]; intros t i t'; cbn [add_loop].
  - intros [= <-] p. destruct p; [reflexivity|]. cbn. now rewrite orb_false_r.
  - destruct (find t c) as [u|] eqn:E.
    + destruct (add_loop new_ok u (S i) r) as [u' ok] eqn:A. intros [= <- ->] [|x p]; [reflexivity|].
      unfold has in *. cbn [walk prefixb]. rewrite find_set_child. destruct (Z.eqb_spec x c) as [->|].
      * rewrite E. cbn [andb]. exact (IH u (S i) u' A p).
      * cbn [andb]. now rewrite orb_false_r.
    + destruct (new_ok i); [|discriminate].
      destruct (add_loop new_ok (Node []) (S i) r) as [u' ok] eqn:A. intros [= <- ->] [|x p]; [reflexivity|].
      unfold has in *. cbn [walk prefixb]. rewrite find_set_child. destruct (Z.eqb_spec x c) as [->|].
      * rewrite E. cbn [andb orb]. rewrite (IH _ (S i) u' A p). destruct p; reflexivity.
      * cbn [andb]. now rewrite orb_false_r.
Qed.

(** The tree of a list of words. *)
Fixpoint add_words (t : option FilterMap) (words : list (list Z)) : option FilterMap :=
  match words with [] => t | w :: r => add_words (fst (addFilterWord (fun _ => true) true t w)) r end.

Lemma add_loop_true w : forall t i, snd (add_loop (fun _ => true) t i w) = true.
Proof.
  induction w as [|c r IH]; intros t i; cbn [add_loop]; [reflexivity|].
  destruct (find t c) as [u|].
  - specialize (IH u (S i)). destruct (add_loop _ u (S i) r). exact IH.
  - specialize (IH (Node []) (S i)). destruct (add_loop _ (Node []) (S i) r). exact IH.
Qed.

Lemma add_words_has words : forall t t', Forall (fun w => w <> []) words -> add_words (Some t) words = Some t' ->
  forall p, has t' p = has t p || existsb (prefixb p) words.
Proof.
  induction words as [|w r IH]; intros t t' F E p; cbn [add_words existsb] in *.
  - injection E as <-. now rewrite orb_false_r.
  - apply Forall_cons_iff in F as [Hw F]. destruct w as [|c w]; [congruence|]. cbn [addFilterWord fst] in E.
    pose proof (add_loop_true (c :: w) t 0) as Ok. destruct (add_loop _ t 0 (c :: w)) as [t1 ok] eqn:A. cbn in Ok. subst ok.
    rewrite (IH t1 t' F E p), (add_loop_has _ _ _ _ _ A). now rewrite orb_assoc.
Qed.

Lemma walk_app p q : forall t, walk t (p ++ q) = match walk t p with Some u => walk u q | None => None end.
Proof. induction p as [|c p IH]; intros t; cbn; [reflexivity|]. destruct (find t c); auto. Qed.

Lemma walk_snoc t p c u : walk t p = Some u -> walk t (p ++ [c]) = find u c.
Proof. intros H. rewrite walk_app, H. cbn. now destruct (find u c). Qed.

Lemma empty_find u : empty u = true <-> forall c, find u c = None.
Proof.
  unfold empty, find. destruct u as [[|[x v] l]]; cbn; split; auto; try discriminate.
  intros H. specialize (H x). rewrite Z.eqb_refl in H. discriminate.
Qed.

Lemma prefixb_spec p w : prefixb p w = true <-> exists q, w = p ++ q.
Proof.
  revert w. induction p as [|x p IH]; intros [|y w]; cbn; split; try discriminate; try (intros [q H]; discriminate); eauto.
  - intros H. apply andb_true_iff in H as [->%Z.eqb_eq [q ->]%IH]. eauto.
  - intros [q [= -> ->]]. rewrite Z.eqb_refl. apply IH. eauto.
Qed.

(** In the tree of a list of words the words that can be found are those that no other
    word continues. *)
Lemma leaf_words words t w : Forall (fun w => w <> []) words -> add_words (Some (Node [])) words = Some t ->
  leaf t w <-> In w words /\ forall q, In (w ++ q) words -> q = [].
Proof.
  intros F E. pose proof (add_words_has words (Node []) t F E) as H.
  assert (P : forall p, p <> [] -> has t p = true <-> exists q, In (p ++ q) words).
  { intros p Hp. rewrite H, has_empty. destruct p as [|x p]; [congruence|]. cbn [orb]. rewrite existsb_exists. split.
    - intros (v & Hv & [q ->]%prefixb_spec). eauto.
    - intros [q Hq]. exists ((x :: p) ++ q). split; [exact Hq|]. apply prefixb_spec. eauto. }
  assert (N : forall u, walk t w = Some u -> empty u = true <-> forall c, has t (w ++ [c]) = false).
  { intros u Hu. rewrite empty_find. unfold has. split; intros A c; specialize (A c); rewrite (walk_snoc _ _ _ _ Hu) in *.
    - now rewrite A.
    - destruct (find u c); [discriminate|reflexivity]. }
  split.
  - intros (Hw & u & Hu & He). assert (Hh : has t w = true) by (unfold has; now rewrite Hu).
    apply P in Hh as [q Hq]; [|exact Hw].
    assert (Q : forall q, In (w ++ q) words -> q = []).
    { intros [|c r] Hr; [reflexivity|exfalso]. assert (Hc : has t (w ++ [c]) = true).
      { apply P; [destruct w; discriminate|]. exists r. rewrite <- app_assoc. exact Hr. }
      rewrite (proj1 (N u Hu) He c) in Hc. discriminate. }
    split; [|exact Q]. rewrite (Q q Hq), app_nil_r in Hq. exact Hq.
  - intros [Hi Q]. rewrite Forall_forall in F. pose proof (F w Hi) as Hw. split; [exact Hw|].
    assert (Hh : has t w = true) by (apply P; [exact Hw|exists []; now rewrite app_nil_r]).
    unfold has in Hh. destruct (walk t w) as [u|] eqn:Hu; [|discriminate]. exists u. split; [reflexivity|].
    apply N; [reflexivity|]. intros c. destruct (has t (w ++ [c])) eqn:Hc; [|reflexivity].
    apply P in Hc as [q Hq]; [|destruct w; discriminate]. rewrite <- app_assoc in Hq. apply Q in Hq. discriminate.
Qed.

(** ** The scan *)

Lemma leaf_walk t p u : walk t p = Some u -> p <> [] -> empty u = true -> leaf t p.
Proof. intros. split; eauto. Qed.

Lemma have_sound t : forall s cur p, walk t p = Some cur -> have_loop t cur s = true ->
  exists a w b, p ++ s = a ++ w ++ b /\ leaf t w.
Proof.
  induction s as [|c r IH]; intros cur p Hp; cbn [have_loop]; [discriminate|].
  destruct (find cur c) as [u|] eqn:E.
  - assert (Hu : walk t (p ++ [c]) = Some u) by now rewrite (walk_snoc _ _ _ _ Hp).
    replace (p ++ c :: r) with ((p ++ [c]) ++ r) by (rewrite <- app_assoc; reflexivity).
    destruct (empty u) eqn:Eu; [|exact (IH u (p ++ [c]) Hu)]. intros _.
    exists [], (p ++ [c]), r. split; [reflexivity|]. apply (leaf_walk t _ u); auto. destruct p; discriminate.
  - destruct (find t c) as [u|] eqn:E'.
    + assert (Hu : walk t [c] = Some u) by (cbn; now rewrite E').
      destruct (empty u) eqn:Eu.
      * intros _. exists p, [c], r. split; [reflexivity|]. apply (leaf_walk t _ u); auto. discriminate.
      * intros H. destruct (IH u [c] Hu H) as (a & w & b & Ew & L). exists (p ++ a), w, b. split; [|exact L].
        rewrite <- app_assoc. f_equal. exact Ew.
    + intros H. destruct (IH t [] eq_refl H) as (a & w & b & Ew & L). exists (p ++ c :: a), w, b. split; [|exact L].
      cbn in Ew. rewrite <- app_assoc. cbn [app]. now rewrite Ew.
Qed.

(** The first letter of a word occurs in no word at a later place. *)
Definition apart (t : FilterMap) : Prop := forall p c, p <> [] -> has t (p ++ [c]) = true -> find t c = None.

Lemma have_rest t b : forall q p cur, walk t p = Some cur -> q <> [] -> leaf t (p ++ q) -> have_loop t cur (q ++ b) = true.
Proof.
  induction q as [|c q IH]; intros p cur Hp Hq L; [congruence|]. cbn [app have_loop].
  pose proof L as (_ & v & Hv & Ev). rewrite walk_app, Hp in Hv. cbn [walk] in Hv.
  destruct (find cur c) as [u|] eqn:E; [|discriminate]. destruct (empty u) eqn:Eu; [reflexivity|].
  apply (IH (p ++ [c])); [now rewrite (walk_snoc _ _ _ _ Hp)| |now rewrite <- app_assoc].
  intros ->. cbn in Hv. injection Hv as <-. congruence.
Qed.

Lemma have_complete t w b : apart t -> leaf t w -> forall a p cur, walk t p = Some cur ->
  have_loop t cur (a ++ w ++ b) = true.
Proof.
  intros A L. induction a as [|x a IH]; intros p cur Hp; cbn [app].
  - pose proof L as (Hw & v & Hv & Ev). destruct w as [|c w]; [congruence|]. cbn [walk] in Hv.
    destruct (find t c) as [u|] eqn:E; [|discriminate].
    assert (G : (if empty u then true else have_loop t u (w ++ b)) = true).
    { destruct (empty u) eqn:Eu; [reflexivity|].
      apply (have_rest t b w [c] u); [cbn; now rewrite E| |exact L]. intros ->. cbn in Hv. congruence. }
    cbn [app have_loop]. destruct (find cur c) as [u'|] eqn:E'; [|now rewrite E].
    destruct p as [|y p]; [injection Hp as <-; rewrite E in E'; injection E' as <-; exact G|].
    exfalso. rewrite (A (y :: p) c) in E; [discriminate|discriminate|]. unfold has. now rewrite (walk_snoc _ _ _ _ Hp), E'.
  - cbn [have_loop]. destruct (find cur x) as [u|] eqn:E.
    + destruct (empty u); [reflexivity|]. apply (IH (p ++ [x])). now rewrite (walk_snoc _ _ _ _ Hp).
    + destruct (find t x) as [u|] eqn:E'; [|exact (IH [] t eq_refl)].
      destruct (empty u); [reflexivity|]. apply (IH [x]). cbn. now rewrite E'.
Qed.

(** ** The text with its words overwritten *)

(** [s'] is [s] with some words that can be found overwritten by [r], and no other change. *)
Inductive censored (t : FilterMap) (r : Z) : list Z -> list Z -> Prop :=
  | censored_nil : censored t r [] []
  | censored_keep c s s' : censored t r s s' -> censored t r (c :: s) (c :: s')
  | censored_word w s s' : leaf t w -> censored t r s s' -> censored t r (w ++ s) (repeat r (length w) ++ s').

Lemma censored_app t r p s s' : censored t r s s' -> censored t r (p ++ s) (p ++ s').
Proof. intros H. induction p; cbn; [exact H|now constructor]. Qed.

Lemma censored_length t r s s' : censored t r s s' -> length s' = length s.
Proof. induction 1; cbn; rewrite ?length_app, ?repeat_length; congruence. Qed.

Lemma censored_head t r s s' : censored t r s s' -> forall x y, s' = x :: y -> x = r \/ exists z, s = x :: z.
Proof.
  induction 1 as [|c s s' H IH|w s s' [Hw _] H IH]; intros x y E; [discriminate| |].
  - injection E as -> _. eauto.
  - destruct w as [|c w]; [congruence|]. injection E as -> _. now left.
Qed.

(** The letter [r] occurs in no word. *)
Definition foreign (t : FilterMap) (r : Z) : Prop := forall p u, walk t p = Some u -> find u r = None.

(** A path is followed by the search as it stands. *)
Lemma have_walk t s : forall p x cur, walk x p = Some cur -> p = [] \/ empty cur = false ->
  have_loop t x (p ++ s) = have_loop t cur s.
Proof.
  induction p as [|c p IH]; intros x cur; cbn [walk app].
  - now intros [= ->].
  - intros H Hn. destruct Hn as [|Hn]; [discriminate|]. cbn [have_loop].
    destruct (find x c) as [u|]; [|discriminate]. destruct p as [|d p].
    + injection H as ->. now rewrite Hn.
    + destruct (empty u) eqn:Eu; [|apply IH; auto].
      exfalso. cbn [walk] in H. now rewrite (proj1 (empty_find u) Eu d) in H.
Qed.

Lemma have_foreign t r x s : foreign t r -> find x r = None -> have_loop t x (r :: s) = have_loop t t s.
Proof. intros F Hx. cbn [have_loop]. now rewrite Hx, (F [] t eq_refl). Qed.

Lemma have_repeat t r s n : foreign t r -> have_loop t t (repeat r n ++ s) = have_loop t t s.
Proof. intros F. induction n as [|n IH]; cbn [repeat app]; [reflexivity|]. rewrite have_foreign; auto. exact (F [] t eq_refl). Qed.

(** The search falls back to the root at a letter that does not continue the path. *)
Lemma have_back t x c s : find x c = None -> have_loop t x (c :: s) = have_loop t t (c :: s).
Proof. intros H. cbn [have_loop]. rewrite H. now destruct (find t c). Qed.

Lemma memset_word done w rest r : memset (done ++ w ++ rest) (length done) r (length w) = done ++ repeat r (length w) ++ rest.
Proof.
  unfold memset. rewrite firstn_app, firstn_all, Nat.sub_diag, firstn_O, app_nil_r. do 2 f_equal.
  rewrite app_assoc, skipn_app, length_app, Nat.sub_diag, <- length_app, skipn_all. reflexivity.
Qed.

Definition begain (done p : list Z) : option nat := match p with [] => None | _ => Some (length done) end.

Lemma begain_snoc done p c : begain done (p ++ [c]) = Some (length done).
Proof. now destruct p. Qed.

(** The loop with the letters [done] settled, [p] the path being followed, [cur] its node and
    [s] to come. *)
Definition settles (t : FilterMap) (r : Z) (s : list Z) (cur : FilterMap) (p done : list Z) : Prop :=
  exists s', modify_loop (length s) t r cur (begain done p) (done ++ p ++ s) (length (done ++ p)) = done ++ s'
    /\ censored t r (p ++ s) s' /\ (foreign t r -> have_loop t t s' = false).

(** The text and the place of a state are those of another grouping of the letters. *)
Ltac regroup E := cbn [begain app] in E; rewrite ?app_nil_r, <- ?app_assoc in E; cbn [app] in E;
  rewrite <- ?app_assoc; cbn [app]; rewrite <- E; f_equal; rewrite ?length_app; cbn; lia.

Section Settle.
Context (t : FilterMap) (r : Z) (s : list Z) (cur : FilterMap) (p done : list Z) (c : Z).
Context (Hp : walk t p = Some cur) (Hn : p = [] \/ empty cur = false).

Lemma letter_here : nth (length (done ++ p)) (done ++ p ++ c :: s) 0 = c.
Proof. rewrite app_assoc, app_nth2, Nat.sub_diag by lia. reflexivity. Qed.

Lemma begain_here : match begain done p with None => length (done ++ p) | Some b => b end = length done.
Proof. destruct p; cbn; [now rewrite app_nil_r|reflexivity]. Qed.

Lemma settle_nil : settles t r [] cur p done.
Proof.
  exists p. rewrite app_nil_r. split; [reflexivity|]. rewrite <- (app_nil_r p). split; [apply censored_app; constructor|].
  intros _. rewrite (have_walk t [] p t cur Hp Hn). reflexivity.
Qed.

(** The letter continues the path: the end of a word, or further. *)
Lemma settle_follow u : find cur c = Some u ->
  (if empty u then settles t r s t [] (done ++ repeat r (length (p ++ [c]))) else settles t r s u (p ++ [c]) done) ->
  settles t r (c :: s) cur p done.
Proof.
  intros E H. assert (Hu : walk t (p ++ [c]) = Some u) by now rewrite (walk_snoc _ _ _ _ Hp).
  unfold settles. cbn [length modify_loop]. rewrite letter_here, E, begain_here.
  replace (p ++ c :: s) with ((p ++ [c]) ++ s) by (rewrite <- app_assoc; reflexivity).
  replace (S (length (done ++ p))) with (length (done ++ p ++ [c])) by (rewrite !length_app; cbn; lia).
  destruct (empty u) eqn:Eu; destruct H as (s' & E1 & E2 & E3).
  - replace (length (done ++ p) + 1 - length done)%nat with (length (p ++ [c])) by (rewrite !length_app; cbn; lia).
    rewrite memset_word. exists (repeat r (length (p ++ [c])) ++ s'). split; [|split].
    + rewrite app_nil_r in E1. cbn [begain app] in E1. rewrite <- !app_assoc in E1. rewrite <- E1. f_equal.
      now rewrite !length_app, repeat_length.
    + constructor; [|exact E2]. apply (leaf_walk t _ u); auto. destruct p; discriminate.
    + intros F. rewrite have_repeat by exact F. auto.
  - exists s'. rewrite begain_snoc in E1. auto.
Qed.

(** The letter does not continue the path but begins a word. *)
Lemma settle_begin u : find cur c = None -> find t c = Some u ->
  (if empty u then settles t r s t [] (done ++ p ++ [r]) else settles t r s u [c] (done ++ p)) ->
  settles t r (c :: s) cur p done.
Proof.
  intros E E' H. assert (Hu : walk t [c] = Some u) by (cbn; now rewrite E').
  unfold settles. cbn [length modify_loop]. rewrite letter_here, E, E'.
  destruct (empty u) eqn:Eu; destruct H as (s' & E1 & E2 & E3).
  - replace (length (done ++ p) + 1 - length (done ++ p))%nat with (length [c]) by (cbn; lia).
    replace (done ++ p ++ c :: s) with ((done ++ p) ++ [c] ++ s) by (rewrite <- app_assoc; reflexivity).
    rewrite memset_word. cbn [length repeat]. exists (p ++ r :: s'). split; [|split].
    + regroup E1.
    + apply censored_app. apply (censored_word t r [c] s s'); [|exact E2]. apply (leaf_walk t _ u); auto. discriminate.
    + intros F. rewrite (have_walk t _ p t cur Hp Hn), have_foreign; auto. exact (F p cur Hp).
  - exists (p ++ s'). split; [|split].
    + regroup E1.
    + apply censored_app. exact E2.
    + intros F. rewrite (have_walk t _ p t cur Hp Hn). destruct s' as [|x s'']; [reflexivity|].
      rewrite have_back; [auto|]. destruct (censored_head _ _ _ _ E2 x s'' eq_refl) as [->|[z [= <- _]]]; [exact (F p cur Hp)|exact E].
Qed.

Lemma settle_skip : find cur c = None -> find t c = None ->
  settles t r s t [] (done ++ p ++ [c]) -> settles t r (c :: s) cur p done.
Proof.
  intros E E' (s' & E1 & E2 & E3). unfold settles. cbn [length modify_loop]. rewrite letter_here, E, E'.
  exists (p ++ c :: s'). split; [|split].
  - regroup E1.
  - apply censored_app. constructor. exact E2.
  - intros F. rewrite (have_walk t _ p t cur Hp Hn). cbn [have_loop]. rewrite E, E'. auto.
Qed.
End Settle.

Lemma modify_settles t r : forall s cur p done, walk t p = Some cur -> p = [] \/ empty cur = false ->
  settles t r s cur p done.
Proof.
  induction s as [|c s IH]; intros cur p done Hp Hn; [now apply settle_nil|].
  destruct (find cur c) as [u|] eqn:E; [|destruct (find t c) as [u|] eqn:E'].
  - apply (settle_follow _ _ _ _ _ _ _ Hp Hn u E). destruct (empty u) eqn:Eu; apply IH; auto.
    now rewrite (walk_snoc _ _ _ _ Hp).
  - apply (settle_begin _ _ _ _ _ _ _ Hp Hn u E E'). destruct (empty u) eqn:Eu; apply IH; auto. cbn. now rewrite E'.
  - apply (settle_skip _ _ _ _ _ _ _ Hp Hn E E'). apply IH; auto.
Qed.

(** ** Words *)

(** The first letter of a word occurs in no word at a later place. *)
Definition first_apart (words : list (list Z)) : Prop :=
  forall p c q q', p <> [] -> In (p ++ c :: q) words -> ~ In (c :: q') words.

(** A word that no other word continues. *)
Definition findable (words : list (list Z)) (w : list Z) : Prop :=
  In w words /\ forall q, In (w ++ q) words -> q = [].

Section Words.
Context (words : list (list Z)) (Hw : Forall (fun w => w <> []) words).

Lemma add_words_tree : words <> [] -> exists t, add_words None words = Some t /\ add_words (Some (Node [])) words = Some t.
Proof.
  intros Hn. destruct words as [|w ws]; [congruence|]. cbn [add_words].
  apply Forall_cons_iff in Hw as [H1 _]. destruct w as [|c w]; [congruence|]. cbn [addFilterWord].
  destruct (add_loop _ _ _ (c :: w)) as [t1 ok]. cbn [fst]. clear Hn. generalize t1. induction ws as [|v ws IH]; intros u; cbn [add_words]; eauto.
  destruct v as [|d v]; cbn [addFilterWord fst]; [apply IH|]. destruct (add_loop _ u _ (d :: v)) as [u' ok']. apply IH.
Qed.

Context (t : FilterMap) (Ht : add_words (Some (Node [])) words = Some t).

Lemma words_path p c : has t (p ++ [c]) = true <-> exists q, In (p ++ c :: q) words.
Proof.
  rewrite (add_words_has words (Node []) t Hw Ht), has_empty. destruct (p ++ [c]) eqn:E; [destruct p; discriminate|].
  cbn [orb]. rewrite <- E, existsb_exists. split.
  - intros (v & Hv & [q ->]%prefixb_spec). rewrite <- app_assoc in Hv. exists q. exact Hv.
  - intros [q Hq]. exists ((p ++ [c]) ++ q). split; [rewrite <- app_assoc; exact Hq|]. apply prefixb_spec. eauto.
Qed.

Lemma words_apart : first_apart words -> apart t.
Proof.
  intros A p c Hp [q Hq]%words_path. destruct (find t c) as [u|] eqn:E; [|reflexivity]. exfalso.
  assert (H : has t ([] ++ [c]) = true) by (unfold has; cbn; now rewrite E). apply words_path in H as [q' Hq'].
  exact (A p c q q' Hp Hq Hq').
Qed.

Lemma words_foreign r : Forall (fun w => ~ In r w) words -> foreign t r.
Proof.
  rewrite Forall_forall. intros H p u Hp. destruct (find u r) as [v|] eqn:E; [|reflexivity]. exfalso.
  assert (Hh : has t (p ++ [r]) = true) by (unfold has; now rewrite (walk_snoc _ _ _ _ Hp), E).
  apply words_path in Hh as [q Hq]. apply (H _ Hq), in_elt.
Qed.
End Words.

Lemma checkAndModify_spec t r s : let s' := checkAndModify (Some t) s r in
  censored t r s s' /\ (foreign t r -> checkHave (Some t) s' = false).
Proof.
  cbv zeta. destruct s as [|c s]; [split; [constructor|reflexivity]|]. cbn [checkAndModify].
  destruct (modify_settles t r (c :: s) t [] [] eq_refl (or_introl eq_refl)) as (s' & E & C & H).
  cbn [begain app length] in E. cbn [length]. rewrite E. split; [exact C|]. intros F. destruct s' as [|x s']; [reflexivity|]. exact (H F).
Qed.

(** A text in which nothing is found is left as it is. *)
Lemma have_modify_loop t r : forall s cur p b w, have_loop t cur s = false ->
  modify_loop (length s) t r cur b (p ++ s) (length p) = w -> w = p ++ s.
Proof.
  induction s as [|c s IH]; intros cur p b w H E; cbn [length modify_loop have_loop] in *; [congruence|].
  rewrite app_nth2, Nat.sub_diag in E by lia. cbn [nth] in E.
  assert (K : forall v b', have_loop t v s = false ->
    modify_loop (length s) t r v b' (p ++ c :: s) (S (length p)) = w -> w = p ++ c :: s).
  { intros v b' Hv Ev. replace (p ++ c :: s) with ((p ++ [c]) ++ s) in * by (rewrite <- app_assoc; reflexivity).
    apply (IH v (p ++ [c]) b' w Hv). rewrite <- Ev. f_equal. rewrite length_app. cbn. lia. }
  destruct (find cur c) as [u|]; [|destruct (find t c) as [u|]]; [| |now apply (K t None)];
    (destruct (empty u); [discriminate|now eapply K; eauto]).
Qed.

Lemma have_modify t r s : checkHave (Some t) s = false -> checkAndModify (Some t) s r = s.
Proof.
  destruct s as [|c s]; [reflexivity|]. intros H. exact (have_modify_loop t r (c :: s) t [] None _ H eq_refl).
Qed.

(** A node that cannot be allocated ends [addFilterWord] with false; the words of before are kept. *)
Lemma add_loop_keeps new_ok w : forall t i p, has t p = true -> has (fst (add_loop new_ok t i w)) p = true.
Proof.
  induction w as [|c r IH]; intros t i p H; cbn [add_loop]; [exact H|].
  destruct p as [|x p]; [reflexivity|]. unfold has in H. cbn [walk] in H.
  assert (K : forall u (ok : bool), (x = c -> has u p = true) -> has (fst (set_child t c u, ok)) (x :: p) = true).
  { intros u ok Hu. unfold has. cbn [fst walk]. rewrite find_set_child. destruct (Z.eqb_spec x c) as [->|]; [|exact H].
    now apply Hu. }
  destruct (find t c) as [u|] eqn:E.
  - specialize (IH u (S i) p). destruct (add_loop new_ok u (S i) r) as [u' ok]. apply K. intros ->. rewrite E in H.
    apply IH. exact H.
  - destruct (new_ok i).
    + destruct (add_loop new_ok (Node []) (S i) r) as [u' ok]. apply K. intros ->. now rewrite E in H.
    + exact H.
Qed.

(** The search does not go back over the letters of a word it gives up: "aab" is missed in
    "aaab"; and a word that another one continues is never found. *)
Definition aab : list Z := [97; 97; 98].

Lemma overlap_missed : findable [aab] aab /\ checkHave (add_words None [aab]) (97 :: aab) = false.
Proof.
  split; [|reflexivity]. split; [now left|]. intros q [H|[]]. apply (f_equal (skipn 3)) in H. now cbn in H.
Qed.

Lemma prefix_missed : checkHave (add_words None [[97; 97]; aab]) [97; 97] = false.
Proof. reflexivity. Qed.

(** Claim C36: (QBase/QFilter.cpp, checkHave, addFilterWord) when [checkHave] says that a text has
    a word, the text contains one of the words that were added, and one that no other added word
    continues; and in a set of words whose first letters occur in no word at a later place,
    [checkHave] finds every such word wherever it stands in the text. *)
Theorem checkHave_words (words : list (list Z)) (s : list Z) (Hw : Forall (fun w => w <> []) words) :
  let found := checkHave (add_words None words) s in
  (found = true -> exists a w b, s = a ++ w ++ b /\ findable words w) /\
  (first_apart words -> forall a w b, s = a ++ w ++ b -> findable words w -> found = true).
Proof.
  cbv zeta. destruct words as [|w0 ws] eqn:Ew; [split; [discriminate|intros _ a w b _ [Hi _]; contradiction Hi]|]. rewrite <- Ew in *.
  destruct (add_words_tree words Hw) as (t & E & E0); [congruence|]. rewrite E. split.
  - destruct s as [|c s]; [discriminate|]. intros H.
    destruct (have_sound t (c :: s) t [] eq_refl H) as (a & w & b & Es & L). exists a, w, b. split; [exact Es|].
    now apply (leaf_words words t).
  - intros A a w b -> L. apply (leaf_words words t w Hw E0) in L.
    pose proof (have_complete t w b (words_apart words Hw t E0 A) L a [] t eq_refl) as H.
    destruct (a ++ w ++ b) eqn:Es; [|exact H]. destruct L as [Hn _], a, w; discriminate || congruence.
Qed.

(** Claim C29: (QBase/QFilter.cpp, checkAndModify, checkHave) [checkAndModify] changes a text only
    by overwriting added words with the replacement letter; the text keeps its length; and when the
    letter occurs in no word, [checkHave] finds nothing in the result, which then is left as it is
    by another call. *)
Theorem checkAndModify_censors (words : list (list Z)) (s : list Z) (r : Z) (Hw : Forall (fun w => w <> []) words)
    (Hr : Forall (fun w => ~ In r w) words) :
  let m := add_words None words in
  let s' := checkAndModify m s r in
  (forall t, m = Some t -> censored t r s s' /\ forall w, leaf t w <-> findable words w) /\
  length s' = length s /\ checkHave m s' = false /\ checkAndModify m s' r = s'.
Proof.
  cbv zeta. destruct words as [|w0 ws] eqn:Ew; [repeat split; discriminate|]. rewrite <- Ew in *.
  destruct (add_words_tree words Hw) as (t & E & E0); [congruence|]. rewrite E.
  destruct (checkAndModify_spec t r s) as (C & H). pose proof (words_foreign words Hw t E0 r Hr) as F.
  split; [|split; [|split]].
  - intros u Hu. injection Hu as <-. split; [exact C|]. intros w. now apply leaf_words.
  - now apply (censored_length t r).
  - now apply H.
  - apply have_modify. now apply H.
Qed.

(** "cat" and "dog". *)
Definition pets : list (list Z) := [[99; 97; 116]; [100; 111; 103]].

Lemma pets_words : Forall (fun w => w <> []) pets /\ Forall (fun w => ~ In 42 w) pets.
Proof. unfold pets. split; repeat constructor; try discriminate; cbn; lia. Qed.

Lemma pets_apart : first_apart pets.
Proof.
  intros p c q q' Hp [E|[E|[]]] [F|[F|[]]]; destruct p as [|x [|y [|z p]]]; try congruence;
    cbn in E; injection E; injection F; intros; subst; try discriminate; destruct p; discriminate.
Qed.

Lemma cat_findable : findable pets [99; 97; 116].
Proof. split; [now left|]. intros q [E|[E|[]]]; [now injection E|discriminate]. Qed.

Lemma checkHave_words_witness :
  checkHave (add_words None pets) [97; 32; 99; 97; 116] = true /\ checkHave (add_words None pets) [97; 99; 97] = false.
Proof.
  split; [|reflexivity].
  apply (proj2 (checkHave_words pets [97; 32; 99; 97; 116] (proj1 pets_words)) pets_apart [97; 32] [99; 97; 116] []);
    [reflexivity|exact cat_findable].
Defined.

Lemma checkAndModify_censors_witness :
  Filter (add_words None pets) [97; 32; 99; 97; 116; 115] = [97; 32; 42; 42; 42; 115] /\
  checkHave (add_words None pets) (Filter (add_words None pets) [97; 32; 99; 97; 116; 115]) = false.
Proof.
  split; [reflexivity|].
  exact (proj1 (proj2 (proj2 (checkAndModify_censors pets [97; 32; 99; 97; 116; 115] 42 (proj1 pets_words) (proj2 pets_words))))).
Defined.
