(* ===== verification/TableFile.v ===== *)
(** * TableFile: tables in text files [CTableFile] (QBase/TableFile.cpp)

    A line of names and lines of values, cut at a separator, and a cursor over the rows.
    Strings are lists of bytes without a NUL, files lists of bytes; [None] is a file that
    cannot be opened. *)

From S2P Require Import Prelude StdLib Enum QString Ini.

Local Open Scope Z_scope.

(** A row: [std::map<std::string, std::string>]; the order of its entries plays no part. *)
Definition row := list (list Z * list Z).

Fixpoint map_find (m : row) (k : list Z) : option (list Z) :=
  match m with [] => None | (x, v) :: r => if str_eqb k x then Some v else map_find r k end.

(** [insert] leaves the value of a key that is there. *)
Definition map_insert (m : row) (k v : list Z) : row :=
  match map_find m k with Some _ => m | None => m ++ [(k, v)] end.

(** The keys of [m_mapTableHead] are the numbers from 0 on: it is the list of its values.
    [m_itNowRow] is the place of the cursor in the list, its length for [end]. *)
Record CTableFile := {
  m_bEof : bool;
  m_iRemoveCount : nat;
  m_strFile : list Z;
  m_strSplitFlag : list Z;
  m_mapTableHead : list (list Z);
  m_itNowRow : nat;
  m_lstAllValue : list row
}.

Definition CTableFile_new : CTableFile :=
  {| m_bEof := true; m_iRemoveCount := 0; m_strFile := []; m_strSplitFlag := []; m_mapTableHead := [];
     m_itNowRow := 0; m_lstAllValue := [] |}.

Definition setFile (t : CTableFile) (pszFile : list Z) : CTableFile :=
  {| m_bEof := m_bEof t; m_iRemoveCount := m_iRemoveCount t; m_strFile := pszFile;
     m_strSplitFlag := m_strSplitFlag t; m_mapTableHead := m_mapTableHead t; m_itNowRow := m_itNowRow t;
     m_lstAllValue := m_lstAllValue t |}.

Definition getFile (t : CTableFile) : list Z := m_strFile t.

Definition setSplitFlag (t : CTableFile) (pszSplitFlag : list Z) : CTableFile :=
  {| m_bEof := m_bEof t; m_iRemoveCount := m_iRemoveCount t; m_strFile := m_strFile t;
     m_strSplitFlag := pszSplitFlag; m_mapTableHead := m_mapTableHead t; m_itNowRow := m_itNowRow t;
     m_lstAllValue := m_lstAllValue t |}.

Definition set_head (t : CTableFile) (iRemoveCount : nat) (head : list (list Z)) : CTableFile :=
  {| m_bEof := m_bEof t; m_iRemoveCount := iRemoveCount; m_strFile := m_strFile t;
     m_strSplitFlag := m_strSplitFlag t; m_mapTableHead := head; m_itNowRow := m_itNowRow t;
     m_lstAllValue := m_lstAllValue t |}.

(** A row is added at the end.  While the table is parsed the cursor stands at the end; it is
    set to the first row when the parsing is done. *)
Definition push_row (t : CTableFile) (r : row) : CTableFile :=
  {| m_bEof := m_bEof t; m_iRemoveCount := m_iRemoveCount t; m_strFile := m_strFile t;
     m_strSplitFlag := m_strSplitFlag t; m_mapTableHead := m_mapTableHead t;
     m_itNowRow := S (m_itNowRow t); m_lstAllValue := m_lstAllValue t ++ [r] |}.

(** The cursor is moved and [checkEof] called. *)
Definition set_row (t : CTableFile) (i : nat) : CTableFile :=
  {| m_bEof := Nat.eqb (length (m_lstAllValue t)) i; m_iRemoveCount := m_iRemoveCount t; m_strFile := m_strFile t;
     m_strSplitFlag := m_strSplitFlag t; m_mapTableHead := m_mapTableHead t; m_itNowRow := i;
     m_lstAllValue := m_lstAllValue t |}.

Definition checkNote (strMsg : list Z) : bool := str_eqb [47; 47] (firstn 2 strMsg) || str_eqb [35] (firstn 1 strMsg).

Definition Clear (t : CTableFile) : CTableFile :=
  {| m_bEof := true; m_iRemoveCount := 0; m_strFile := m_strFile t; m_strSplitFlag := m_strSplitFlag t;
     m_mapTableHead := []; m_itNowRow := 0; m_lstAllValue := [] |}.

Definition is_empty (s : list Z) : bool := match s with [] => true | _ => false end.

Section TableFile.
(** [sizeof(size_t)]. *)
Context (SZ : nat).

(** [lst.size() - (size_t)m_iRemoveCount], as the three loops have it. *)
Definition limit (lst : list (list Z)) (iRemoveCount : nat) : Z :=
  (Z.of_nat (length lst) - Z.of_nat iRemoveCount) mod Pn SZ.

(** ** The line of names *)

Fixpoint check_loop (lim : Z) (iCount : nat) (lst : list (list Z)) : bool :=
  match lst with
  | [] => true
  | s :: r => if Z.of_nat iCount >=? lim then true else if is_empty s then false else check_loop lim (S iCount) r
  end.

Definition checkHead (lstTableHead : list (list Z)) (iRemoveCount : nat) : bool :=
  match lstTableHead with [] => false | _ => check_loop (limit lstTableHead iRemoveCount) 0 lstTableHead end.

(** The names read so far and whether none was repeated. *)
Fixpoint parse_loop (lim : Z) (iCount : nat) (lst head : list (list Z)) : list (list Z) * bool :=
  match lst with
  | [] => (head, true)
  | s :: r =>
      if Z.of_nat iCount >=? lim then (head, true)
      else
        let strTmp := Q_Trim s in
        if existsb (str_eqb strTmp) head then (head, false) else parse_loop lim (S iCount) r (head ++ [strTmp])
  end.

Definition parseHead (lstTableHead : list (list Z)) (iRemoveCount : nat) (mapTableHead : list (list Z)) :=
  parse_loop (limit lstTableHead iRemoveCount) 0 lstTableHead mapTableHead.

(** The empty pieces at the end. *)
Fixpoint leading_empty (l : list (list Z)) : nat :=
  match l with [] => O | s :: r => if is_empty s then S (leading_empty r) else O end.

Definition getHead (t : CTableFile) (strHead : list Z) : option (CTableFile * bool) :=
  let? lst := Q_Split strHead (Some (m_strSplitFlag t)) in
  let iRemoveCount := (m_iRemoveCount t + leading_empty (rev lst))%nat in
  if checkHead lst iRemoveCount then
    let (head, ok) := parseHead lst iRemoveCount (m_mapTableHead t) in
    Some (set_head t iRemoveCount head, ok)
  else Some (set_head t iRemoveCount (m_mapTableHead t), false).

(** ** A line of values *)

Fixpoint value_loop (lim : Z) (head : list (list Z)) (iIndex : nat) (lst : list (list Z)) (mapVal : row) : row :=
  match lst with
  | [] => mapVal
  | v :: r =>
      match nth_error head iIndex with
      | None => mapVal
      | Some name =>
          if Z.of_nat iIndex >=? lim then mapVal
          else value_loop lim head (S iIndex) r (map_insert mapVal name v)
      end
  end.

(** The first loop, which trims the values in place, runs over all of them or, when there is
    no name, over none. *)
Definition getValue (t : CTableFile) (strValue : list Z) : option CTableFile :=
  let? lst := Q_Split strValue (Some (m_strSplitFlag t)) in
  let head := m_mapTableHead t in
  let lstValue := match head with [] => lst | _ => map Q_Trim lst end in
  let bAllEmpty := match head with [] => true | _ => forallb is_empty lstValue end in
  Some (if bAllEmpty then t
        else push_row t (value_loop (limit lstValue (m_iRemoveCount t)) head 0 lstValue [])).

(** ** A file *)

(** The buffer has 2048 bytes, of which [getline] is told 2047.  The result: the table, and
    what is left of the file when the names were read. *)
Fixpoint head_loop (fuel : nat) (input : list Z) (t : CTableFile) : option (CTableFile * option (list Z * bool)) :=
  match fuel with
  | O => None
  | S f =>
      let '(b, rest, good) := getline 2046 input in
      let strTmp := Q_Trim (firstn (strlen b) b) in
      if is_empty strTmp || checkNote strTmp then if good then head_loop f rest t else Some (t, None)
      else
        let? (t, ok) := getHead t strTmp in
        Some (t, if ok : bool then Some (rest, good) else None)
  end.

Fixpoint rows_loop (fuel : nat) (input : list Z) (good : bool) (t : CTableFile) : option CTableFile :=
  match fuel with
  | O => None
  | S f =>
      if good then
        let '(b, rest, good) := getline 2046 input in
        let strTmp := firstn (strlen b) b in
        let? t := if is_empty strTmp || checkNote strTmp then Some t else getValue t strTmp in
        rows_loop f rest good t
      else Some t
  end.

Definition Parse (t : CTableFile) (file : option (list Z)) : option (CTableFile * Z) :=
  let t := Clear t in
  match file with
  | None => Some (t, Q_RTN_FAILE)
  | Some input =>
      let? (t, r) := head_loop (S (length input)) input t in
      match r with
      | None => Some (t, Q_RTN_FAILE)
      | Some (rest, good) =>
          let? t := rows_loop (S (S (length rest))) rest good t in
          Some (set_row t 0, Q_RTN_OK)
      end
  end.
End TableFile.

(** ** The cursor *)

Definition eof (t : CTableFile) : bool := m_bEof t.
Definition reSet (t : CTableFile) : CTableFile := set_row t 0.

(** The cursor is never moved past the end: [None] is undefined behaviour. *)
Definition nextRow (t : CTableFile) : option CTableFile :=
  if Nat.eqb (length (m_lstAllValue t)) (m_itNowRow t) then None else Some (set_row t (S (m_itNowRow t))).

Definition getStringValue (t : CTableFile) (pszName pszDefault : list Z) : list Z :=
  match nth_error (m_lstAllValue t) (m_itNowRow t) with
  | None => pszDefault
  | Some r => match map_find r pszName with None => pszDefault | Some v => v end
  end.

Definition getIntValue (t : CTableFile) (pszName : list Z) (iDefault : Z) : Z :=
  match getStringValue t pszName [] with [] => iDefault | v => atoi v end.

(** ** Every operation keeps the table well-formed *)

Definition keys (r : row) : list (list Z) := map fst r.

Record table_ok (t : CTableFile) : Prop := {
  to_head : NoDup (m_mapTableHead t);
  to_rows : Forall (fun r => NoDup (keys r) /\ incl (keys r) (m_mapTableHead t)) (m_lstAllValue t);
  to_cursor : (m_itNowRow t <= length (m_lstAllValue t))%nat;
  to_eof : m_bEof t = Nat.eqb (length (m_lstAllValue t)) (m_itNowRow t)
}.

Lemma map_find_none m k : map_find m k = None <-> ~ In k (keys m).
Proof.
  induction m as [|[x v] m IH]; cbn; [tauto|]. unfold str_eqb. destruct (list_eq_dec Z.eq_dec k x) as [->|N].
  - split; [discriminate|tauto].
  - rewrite IH. intuition congruence.
Qed.

Lemma map_insert_fresh m k v : ~ In k (keys m) -> map_insert m k v = m ++ [(k, v)].
Proof. intros H. unfold map_insert. now rewrite (proj2 (map_find_none m k) H). Qed.

Lemma map_insert_keys m k v : NoDup (keys m) -> NoDup (keys (map_insert m k v)) /\ incl (keys (map_insert m k v)) (k :: keys m).
Proof.
  intros H. unfold map_insert. destruct (map_find m k) eqn:E; [split; [exact H|now apply incl_tl, incl_refl]|].
  apply map_find_none in E. unfold keys in *. rewrite map_app. cbn. split.
  - apply (NoDup_Add (a := k) (l := map fst m)); [|auto]. rewrite <- (app_nil_r (map fst m)) at 1. apply Add_app.
  - intros x Hx. apply in_app_iff in Hx. cbn in *. tauto.
Qed.

Section Keep.
Context (SZ : nat).

Lemma parse_loop_keys lim lst : forall i head, NoDup head -> NoDup (fst (parse_loop lim i lst head)).
Proof.
  induction lst as [|s r IH]; intros i head H; cbn [parse_loop]; [exact H|].
  destruct (Z.of_nat i >=? lim); [exact H|]. destruct (existsb (str_eqb (Q_Trim s)) head) eqn:E; [exact H|].
  apply IH. apply (NoDup_Add (a := Q_Trim s) (l := head)); [rewrite <- (app_nil_r head) at 1; apply Add_app|].
  split; [exact H|]. intros Hi. assert (existsb (str_eqb (Q_Trim s)) head = true); [|congruence].
  apply existsb_exists. exists (Q_Trim s). split; [exact Hi|apply str_eqb_refl].
Qed.

Lemma value_loop_keys lim head lst : forall i m, NoDup (keys m) -> incl (keys m) head ->
  NoDup (keys (value_loop lim head i lst m)) /\ incl (keys (value_loop lim head i lst m)) head.
Proof.
  induction lst as [|v r IH]; intros i m H1 H2; cbn [value_loop]; [auto|].
  destruct (nth_error head i) as [k|] eqn:E; [|auto]. destruct (Z.of_nat i >=? lim); [auto|].
  destruct (map_insert_keys m k v H1) as [K1 K2]. apply IH; [exact K1|]. intros x Hx. apply K2 in Hx as [<-|Hx]; [|auto].
  now apply (nth_error_In head i).
Qed.

Lemma Q_Split_total s flag : exists l, Q_Split s (Some flag) = Some l.
Proof.
  unfold Q_Split. destruct flag as [|c w]; [destruct s; eauto|]. destruct s as [|x s]; [eauto|].
  destruct (split_loop_spec (c :: w) ltac:(discriminate) (S (length (x :: s))) (x :: s) ltac:(lia)) as (l & E & _). eauto.
Qed.

(** While a file is read: the cursor stands at the end. *)
Definition reading (t : CTableFile) : Prop := table_ok t /\ m_itNowRow t = length (m_lstAllValue t).

Lemma Clear_reading t : reading (Clear t).
Proof. split; [|reflexivity]. split; cbn; auto; constructor. Qed.

Lemma getHead_reading t s : reading t -> m_lstAllValue t = [] ->
  exists t' ok, getHead SZ t s = Some (t', ok) /\ reading t' /\ m_lstAllValue t' = [].
Proof.
  intros [[H1 H2 H3 H4] H5] Hn. unfold getHead. destruct (Q_Split_total s (m_strSplitFlag t)) as [l ->]. cbn [obind].
  set (rc := (m_iRemoveCount t + _)%nat).
  assert (K : forall h, NoDup h -> reading (set_head t rc h)).
  { intros h Hh. split; [|exact H5]. split; cbn; auto. rewrite Hn. constructor. }
  destruct (checkHead SZ l rc); [|eexists _, _; splits; [reflexivity|now apply K|exact Hn]].
  unfold parseHead. pose proof (parse_loop_keys (limit SZ l rc) l 0 _ H1) as P.
  destruct (parse_loop (limit SZ l rc) 0 l (m_mapTableHead t)) as [h ok]. eexists _, _. splits; [reflexivity|now apply K|exact Hn].
Qed.

Lemma getValue_reading t s : reading t -> exists t', getValue SZ t s = Some t' /\ reading t' /\ m_mapTableHead t' = m_mapTableHead t.
Proof.
  intros H. unfold getValue. destruct (Q_Split_total s (m_strSplitFlag t)) as [l ->]. cbn [obind].
  eexists. split; [reflexivity|]. match goal with |- context [if ?b then _ else _] => destruct b; [now split|] end.
  split; [|reflexivity]. destruct H as [[H1 H2 H3 H4] H5]. split; [split|]; cbn; rewrite ?length_app; cbn; auto; try lia.
  - apply Forall_app. split; [exact H2|]. constructor; [|constructor]. apply value_loop_keys; [constructor|intros x []].
  - rewrite H4, H5, Nat.eqb_refl. symmetry. apply Nat.eqb_eq. lia.
Qed.

Lemma head_loop_total fuel : forall input t, (length input < fuel)%nat -> reading t -> m_lstAllValue t = [] ->
  exists t' r, head_loop SZ fuel input t = Some (t', r) /\ reading t' /\ m_lstAllValue t' = [].
Proof.
  induction fuel as [|f IH]; intros input t Hf Ht Hn; [lia|]. cbn [head_loop].
  destruct (getline_rest 2046 input) as [_ Hr]. destruct (getline 2046 input) as [[b rest] good]. cbn [fst snd] in Hr.
  destruct (is_empty _ || checkNote _).
  - destruct good; [|eauto]. apply IH; auto. specialize (Hr eq_refl). lia.
  - destruct (getHead_reading t (Q_Trim (firstn (strlen b) b)) Ht Hn) as (t' & ok & -> & K). cbn [obind]. eauto.
Qed.

Lemma rows_loop_total fuel : forall input good t, (S (length input) < fuel)%nat -> reading t ->
  exists t', rows_loop SZ fuel input good t = Some t' /\ reading t'.
Proof.
  induction fuel as [|f IH]; intros input good t Hf Ht; [lia|]. cbn [rows_loop]. destruct good; [|eauto].
  destruct (getline_rest 2046 input) as [H1 H2]. destruct (getline 2046 input) as [[b rest] good]. cbn [fst snd] in *.
  assert (K : exists t', (if is_empty (firstn (strlen b) b) || checkNote (firstn (strlen b) b) then Some t
                          else getValue SZ t (firstn (strlen b) b)) = Some t' /\ reading t').
  { destruct (is_empty _ || checkNote _); [eauto|]. destruct (getValue_reading t (firstn (strlen b) b) Ht) as (t' & E & R & _). eauto. }
  destruct K as (t' & -> & K). cbn [obind]. destruct good; [apply IH; [specialize (H2 eq_refl); lia|exact K]|].
  destruct f as [|f]; [lia|]. cbn [rows_loop]. eauto.
Qed.

Lemma set_row_ok t i : table_ok t -> (i <= length (m_lstAllValue t))%nat -> table_ok (set_row t i).
Proof. intros [H1 H2 H3 H4] Hi. split; cbn; auto. Qed.
End Keep.

(** A row that is given to [value_loop] whole. *)
Lemma value_loop_combine lim head : forall lst i m, NoDup (skipn i head) -> Forall (fun n => ~ In n (keys m)) (skipn i head) ->
  Z.of_nat (i + length lst) <= lim -> value_loop lim head i lst m = m ++ combine (skipn i head) lst.
Proof.
  induction lst as [|v r IH]; intros i m Hd Hf Hl; cbn [value_loop].
  - destruct (skipn i head); cbn; now rewrite app_nil_r.
  - destruct (nth_error head i) as [k|] eqn:E.
    + assert (Es : skipn i head = k :: skipn (S i) head).
      { clear -E. revert head E. induction i as [|i IH]; intros [|x h] E; try discriminate; cbn in *; [congruence|now apply IH]. }
      rewrite Es in *. apply NoDup_cons_iff in Hd as [Hk Hd]. apply Forall_cons_iff in Hf as [Hk' Hf]. cbn [length] in Hl.
      destruct (Z.geb_spec (Z.of_nat i) lim) as [|_]; [lia|]. rewrite map_insert_fresh by exact Hk'.
      rewrite IH; [rewrite <- app_assoc; reflexivity|exact Hd| |lia].
      rewrite Forall_forall in *. intros x Hx. unfold keys. rewrite map_app, in_app_iff. cbn.
      intros [H|[<-|[]]]; [exact (Hf x Hx H)|contradiction].
    + apply nth_error_None in E. rewrite skipn_all2 by exact E. now rewrite app_nil_r.
Qed.

Lemma map_find_combine head : forall vals j k, NoDup head -> nth_error head j = Some k ->
  map_find (combine head vals) k = nth_error vals j.
Proof.
  induction head as [|x h IH]; intros vals j k Hd E; [destruct j; discriminate|]. apply NoDup_cons_iff in Hd as [Hx Hd].
  destruct vals as [|v vals]; [destruct j; reflexivity|]. destruct j as [|j]; cbn in E |- *.
  - injection E as ->. now rewrite str_eqb_refl.
  - rewrite str_eqb_ne; [now apply IH|]. intros ->. apply Hx. now apply (nth_error_In h j).
Qed.

(** ** Reading a table back *)

Definition good_line (l : list Z) : Prop := free [10; 0] l /\ (length l <= 2046)%nat /\ checkNote l = false.

(** Names are not empty, have no blanks around them and differ; every row has a value that is
    not blank; the separator begins with a character that occurs in no name and no value. *)
Record good_table (c : Z) (w : list Z) (names : list (list Z)) (rows : list (list (list Z))) : Prop := {
  gt_some : names <> [];
  gt_names : Forall (fun n => n <> [] /\ trimmed n /\ ~ In c n) names;
  gt_differ : NoDup names;
  gt_head : good_line (join (c :: w) names);
  gt_rows : Forall (fun vals => forallb is_empty (map Q_Trim vals) = false /\ Forall (fun v => ~ In c v) vals /\
                                good_line (join (c :: w) vals)) rows
}.

Definition table_text (c : Z) (w : list Z) (lines : list (list (list Z))) : list Z :=
  concat (map (fun l => join (c :: w) l ++ [10]) lines).

(** [nextRow] a number of times. *)
Fixpoint nextRows (i : nat) (t : CTableFile) : option CTableFile :=
  match i with O => Some t | S i => let? t := nextRow t in nextRows i t end.

Lemma trimmed_app a m b : a <> [] -> b <> [] -> trimmed a -> trimmed b -> trimmed (a ++ m ++ b).
Proof.
  intros Ha Hb [A _] [_ B]. split.
  - intros c r E. destruct a as [|x a]; [congruence|]. injection E as -> _. now apply (A c a).
  - intros c r E. destruct (@exists_last _ b Hb) as (b' & x & ->). rewrite !app_assoc in E.
    apply app_inj_tail in E as [_ <-]. now apply (B x b').
Qed.

Lemma trimmed_join sep names : names <> [] -> Forall (fun n => n <> [] /\ trimmed n) names ->
  join sep names <> [] /\ trimmed (join sep names).
Proof.
  intros Hn F. induction F as [|a r [Ha Ta] F IH]; [congruence|]. destruct r as [|b r]; [auto|].
  destruct (IH ltac:(discriminate)) as [J1 J2]. rewrite join_cons by discriminate. split.
  - destruct a; [congruence|discriminate].
  - now apply trimmed_app.
Qed.

Section Reads.
Context (SZ : nat) (HS : (SZ = 4 \/ SZ = 8)%nat) (c : Z) (w : list Z).

Lemma limit_all (lst : list (list Z)) : (length (join (c :: w) lst) <= 2046)%nat -> limit SZ lst 0 = Z.of_nat (length lst).
Proof.
  intros H. pose proof (length_join c w lst). unfold limit. rewrite Z.sub_0_r. apply Z.mod_small.
  assert (2 ^ 32 <= Pn SZ) by (destruct HS as [->| ->]; vm_compute; discriminate). lia.
Qed.

Lemma check_loop_all lim : forall lst i, Forall (fun s => s <> []) lst -> check_loop lim i lst = true.
Proof.
  induction lst as [|s r IH]; intros i F; cbn; [reflexivity|]. apply Forall_cons_iff in F as [Hs F].
  destruct (Z.of_nat i >=? lim); [reflexivity|]. destruct s; [congruence|]. now apply IH.
Qed.

Lemma parse_loop_all lim : forall lst i head, Forall trimmed lst -> NoDup (head ++ lst) ->
  Z.of_nat (i + length lst) <= lim -> parse_loop lim i lst head = (head ++ lst, true).
Proof.
  induction lst as [|s r IH]; intros i head F D Hl; cbn [parse_loop]; [now rewrite app_nil_r|].
  apply Forall_cons_iff in F as [Hs F]. cbn [length] in Hl. destruct (Z.geb_spec (Z.of_nat i) lim) as [|_]; [lia|].
  rewrite Q_Trim_id by exact Hs. destruct (existsb (str_eqb s) head) eqn:E.
  - exfalso. apply existsb_exists in E as (x & Hx & E). unfold str_eqb in E. destruct (list_eq_dec Z.eq_dec s x) as [->|]; [|discriminate].
    apply NoDup_remove_2 in D. apply D, in_app_iff. auto.
  - rewrite IH; [rewrite <- app_assoc; reflexivity|exact F|rewrite <- app_assoc; exact D|lia].
Qed.

Lemma leading_empty_none lst : Forall (fun s => s <> []) lst -> leading_empty (rev lst) = O.
Proof.
  intros F. apply Forall_rev in F. destruct F as [|s r Hs _]; [reflexivity|]. cbn. now destruct s.
Qed.

Lemma getHead_names t names : m_strSplitFlag t = c :: w -> m_mapTableHead t = [] -> m_iRemoveCount t = O ->
  names <> [] -> Forall (fun n => n <> [] /\ trimmed n /\ ~ In c n) names -> NoDup names ->
  (length (join (c :: w) names) <= 2046)%nat ->
  getHead SZ t (join (c :: w) names) = Some (set_head t 0 names, true).
Proof.
  intros Hf Hh Hr Hn F D Hl. unfold getHead. rewrite Hf, Hr.
  assert (F1 : Forall (fun s => s <> []) names) by (eapply Forall_impl; [|exact F]; now intros ? (? & ? & ?)).
  assert (F2 : Forall trimmed names) by (eapply Forall_impl; [|exact F]; now intros ? (? & ? & ?)).
  assert (F3 : Forall (fun p => ~ In c p) names) by (eapply Forall_impl; [|exact F]; now intros ? (? & ? & ?)).
  rewrite Q_Split_join; [|exact F3|apply trimmed_join; [exact Hn|eapply Forall_impl; [|exact F]; now intros ? (? & ? & ?)]].
  cbn [obind]. rewrite leading_empty_none by exact F1. cbn [Nat.add]. unfold checkHead, parseHead.
  rewrite check_loop_all, Hh, parse_loop_all; auto; [now destruct names|rewrite limit_all by exact Hl; lia].
Qed.

Definition row_of (names vals : list (list Z)) : row := combine names (map Q_Trim vals).

Lemma forallb_empty_join vals : forallb is_empty (map Q_Trim vals) = false -> join (c :: w) vals <> [].
Proof.
  destruct vals as [|a [|b r]]; cbn [map forallb join]; [discriminate| |].
  - intros H ->. discriminate.
  - intros _ E. apply app_eq_nil in E as [_ E]. discriminate.
Qed.

Lemma getValue_row t vals : m_strSplitFlag t = c :: w -> m_iRemoveCount t = O -> m_mapTableHead t <> [] ->
  NoDup (m_mapTableHead t) -> forallb is_empty (map Q_Trim vals) = false -> Forall (fun v => ~ In c v) vals ->
  (length (join (c :: w) vals) <= 2046)%nat ->
  getValue SZ t (join (c :: w) vals) = Some (push_row t (row_of (m_mapTableHead t) vals)).
Proof.
  intros Hf Hr Hn D He F Hl. unfold getValue. rewrite Hf, Hr, Q_Split_join; auto using forallb_empty_join. cbn [obind].
  assert (E : match m_mapTableHead t with [] => vals | _ :: _ => map Q_Trim vals end = map Q_Trim vals)
    by (destruct (m_mapTableHead t); [congruence|reflexivity]).
  assert (E' : match m_mapTableHead t with [] => true | _ :: _ => forallb is_empty (map Q_Trim vals) end = false)
    by (destruct (m_mapTableHead t); [congruence|exact He]).
  rewrite E, E'. do 2 f_equal. rewrite value_loop_combine; [reflexivity|exact D| |].
  - apply Forall_forall. intros x _ [].
  - unfold limit. rewrite length_map. fold (limit SZ vals 0). rewrite limit_all by exact Hl. lia.
Qed.

Lemma rows_loop_reads names : names <> [] -> NoDup names -> forall rows, Forall (fun vals => forallb is_empty (map Q_Trim vals) = false /\ Forall (fun v => ~ In c v) vals /\
    good_line (join (c :: w) vals)) rows ->
  forall fuel t, (S (length (table_text c w rows)) < fuel)%nat -> m_strSplitFlag t = c :: w -> m_iRemoveCount t = O ->
  m_mapTableHead t = names ->
  rows_loop SZ fuel (table_text c w rows) true t = Some (fold_left push_row (map (row_of names) rows) t).
Proof.
  intros Hn D. induction 1 as [|vals rows (He & F & G1 & G2 & G3) _ IH]; intros fuel t Hf Hs Hr Hh;
    (destruct fuel as [|fuel]; [lia|]).
  - cbn [table_text map concat fold_left rows_loop getline firstn strlen is_empty orb obind].
    destruct fuel as [|f]; [cbn in Hf; lia|]. reflexivity.
  - unfold table_text in *. cbn [map concat] in *. rewrite !length_app in Hf. cbn [length] in Hf.
    cbn [rows_loop fold_left]. rewrite <- app_assoc. cbn [app]. rewrite getline_line, strlen_free by assumption.
    pose proof (forallb_empty_join vals He) as Hj.
    assert (Ee : is_empty (join (c :: w) vals) = false) by (destruct (join (c :: w) vals); [congruence|reflexivity]).
    rewrite Ee, G3. cbn [orb]. rewrite getValue_row by (rewrite ?Hh; assumption).
    cbn [obind]. rewrite Hh. apply IH; auto. lia.
Qed.

Lemma pushes rs : forall t, fold_left push_row rs t =
  {| m_bEof := m_bEof t; m_iRemoveCount := m_iRemoveCount t; m_strFile := m_strFile t;
     m_strSplitFlag := m_strSplitFlag t; m_mapTableHead := m_mapTableHead t;
     m_itNowRow := m_itNowRow t + length rs; m_lstAllValue := m_lstAllValue t ++ rs |}.
Proof.
  induction rs as [|r rs IH]; intros t; cbn [fold_left length].
  - rewrite Nat.add_0_r, app_nil_r. now destruct t.
  - rewrite IH. cbn. rewrite <- app_assoc. f_equal. lia.
Qed.

Lemma Parse_table t names rows : m_strSplitFlag t = c :: w -> good_table c w names rows ->
  exists u, Parse SZ t (Some (table_text c w (names :: rows))) = Some (set_row u 0, Q_RTN_OK) /\
    m_mapTableHead u = names /\ m_lstAllValue u = map (row_of names) rows.
Proof.
  intros Hf [Hn F D (G1 & G2 & G3) R]. unfold Parse. cbv zeta.
  assert (F' : Forall (fun n => n <> [] /\ trimmed n) names) by (eapply Forall_impl; [|exact F]; now intros ? (? & ? & ?)).
  destruct (trimmed_join (c :: w) names Hn F') as [J1 J2].
  unfold table_text. cbn [map concat]. fold (table_text c w rows). cbn [head_loop].
  rewrite <- app_assoc. cbn [app]. rewrite getline_line, strlen_free, Q_Trim_id, G3 by assumption.
  assert (Ee : is_empty (join (c :: w) names) = false) by (destruct (join (c :: w) names); [congruence|reflexivity]).
  rewrite Ee. cbn [orb]. rewrite getHead_names; [|assumption || reflexivity..]. cbn [obind].
  rewrite (rows_loop_reads names); [|assumption || reflexivity || lia..]. cbn [obind]. rewrite pushes.
  eexists. split; [reflexivity|]. split; reflexivity.
Qed.
End Reads.

Lemma nextRows_set i : forall u k, (k + i <= length (m_lstAllValue u))%nat ->
  nextRows i (set_row u k) = Some (set_row u (k + i)).
Proof.
  induction i as [|i IH]; intros u k H; cbn [nextRows]; [now rewrite Nat.add_0_r|]. unfold nextRow. cbn [m_lstAllValue set_row m_itNowRow].
  destruct (Nat.eqb_spec (length (m_lstAllValue u)) k) as [|_]; [lia|]. cbn [obind].
  change (set_row (set_row u k) (S k)) with (set_row u (S k)). rewrite IH by lia. do 2 f_equal. lia.
Qed.

(** ** Long lines and empty columns *)

Lemma getline_long n : forall l rest, free [10] l -> (n < length l)%nat ->
  getline n (l ++ rest) = (firstn n l, skipn n l ++ rest, false).
Proof.
  induction n as [|n IH]; intros l rest F Hn; (destruct l as [|x l]; [cbn in Hn; lia|]); apply Forall_cons_iff in F as [Hx F];
    cbn in Hx; rewrite orb_false_r in Hx; cbn [app getline]; rewrite Hx; [reflexivity|].
  cbn in Hn. rewrite IH by (assumption || lia). reflexivity.
Qed.

Lemma getline_short n : forall l rest, free [10] l -> (length l <= n)%nat -> getline n (l ++ 10 :: rest) = (l, rest, true).
Proof.
  induction n as [|n IH]; intros l rest F Hn; (destruct l as [|x l]; [reflexivity|cbn in Hn]); [lia|].
  apply Forall_cons_iff in F as [Hx F]. cbn in Hx. rewrite orb_false_r in Hx. cbn [app getline]. rewrite Hx.
  rewrite IH by (assumption || lia). reflexivity.
Qed.

Section Long.
Context (SZ : nat) (long : list Z) (Hl : free [10] long) (Hlong : length long = 2047%nat) (rest rest' : list Z).

Definition lines_text (pre : list (list Z)) : list Z := concat (map (fun l => l ++ [10]) pre).

(** Two files that differ after a long line. *)
Definition alike (X X' : list Z) : Prop :=
  exists pre, Forall (free [10]) pre /\ X = lines_text pre ++ long ++ rest /\ X' = lines_text pre ++ long ++ rest'.

Lemma getline_alike X X' : alike X X' -> exists b g Y Y',
  getline 2046 X = (b, Y, g) /\ getline 2046 X' = (b, Y', g) /\ (g = true -> alike Y Y').
Proof.
  intros (pre & F & -> & ->). destruct F as [|l pre F Fp].
  - exists (firstn 2046 long), false. cbn [lines_text map concat app].
    do 2 eexists. splits; [apply getline_long; [exact Hl|lia]..|discriminate].
  - unfold lines_text. cbn [map concat]. rewrite <- !app_assoc. cbn [app]. fold (lines_text pre).
    destruct (Nat.le_gt_cases (length l) 2046) as [H|H].
    + exists l, true. do 2 eexists. splits; [now apply getline_short..|]. intros _. now exists pre.
    + exists (firstn 2046 l), false. do 2 eexists. splits; [now apply getline_long..|discriminate].
Qed.

Lemma rows_loop_alike f : forall f' X X' g t, (S (length X) < f)%nat -> (S (length X') < f')%nat ->
  (g = true -> alike X X') -> rows_loop SZ f X g t = rows_loop SZ f' X' g t.
Proof.
  induction f as [|f IH]; intros f' X X' g t Hf Hf' A; [lia|]. destruct f' as [|f']; [lia|]. cbn [rows_loop].
  destruct g; [|reflexivity]. destruct (getline_alike X X' (A eq_refl)) as (b & g & Y & Y' & E & E' & A').
  pose proof (getline_rest 2046 X) as [R1 R2]. pose proof (getline_rest 2046 X') as [R1' R2'].
  rewrite E in *. rewrite E' in *. cbn [fst snd] in *. set (v := firstn (strlen b) b).
  destruct (if is_empty v || checkNote v then Some t else getValue SZ t v) as [u|]; [|reflexivity]. cbn [obind].
  destruct g; [specialize (R2 eq_refl); specialize (R2' eq_refl); apply IH; auto; lia|].
  destruct f as [|f], f' as [|f']; reflexivity || lia.
Qed.

Lemma head_loop_alike f : forall f' X X' t, (length X < f)%nat -> (length X' < f')%nat -> alike X X' ->
  (exists u, head_loop SZ f X t = Some (u, None) /\ head_loop SZ f' X' t = Some (u, None)) \/
  (head_loop SZ f X t = None /\ head_loop SZ f' X' t = None) \/
  exists u Y Y' g, head_loop SZ f X t = Some (u, Some (Y, g)) /\ head_loop SZ f' X' t = Some (u, Some (Y', g)) /\
    (g = true -> alike Y Y').
Proof.
  induction f as [|f IH]; intros f' X X' t Hf Hf' A; [lia|]. destruct f' as [|f']; [lia|]. cbn [head_loop].
  destruct (getline_alike X X' A) as (b & g & Y & Y' & E & E' & A').
  pose proof (getline_rest 2046 X) as [R1 R2]. pose proof (getline_rest 2046 X') as [R1' R2'].
  rewrite E in *. rewrite E' in *. cbn [fst snd] in *. set (v := Q_Trim (firstn (strlen b) b)).
  destruct (is_empty v || checkNote v).
  - destruct g; [specialize (R2 eq_refl); specialize (R2' eq_refl); apply IH; auto; lia|left; eauto].
  - destruct (getHead SZ t v) as [[u ok]|]; [|auto]. cbn [obind]. destruct ok; [|left; eauto].
    right. right. exists u, Y, Y', g. auto.
Qed.

(** What follows a line of 2047 bytes is not read, and [Parse] does not say so. *)
Lemma Parse_long_line t pre : Forall (free [10]) pre ->
  Parse SZ t (Some (lines_text pre ++ long ++ rest)) = Parse SZ t (Some (lines_text pre ++ long ++ rest')).
Proof.
  intros F. unfold Parse. cbv zeta.
  set (X := lines_text pre ++ long ++ rest). set (X' := lines_text pre ++ long ++ rest').
  destruct (head_loop_alike (S (length X)) (S (length X')) X X' (Clear t)) as [(u & -> & ->)|[[-> ->]|(u & Y & Y' & g & -> & -> & A)]];
    [lia|lia|now exists pre|reflexivity|reflexivity|]. cbn [obind].
  rewrite (rows_loop_alike (S (S (length Y))) (S (S (length Y'))) Y Y' g u); auto; lia.
Qed.
End Long.

(** The line "a,b,," announces two empty columns at the end; a row "1,2" loses both its values,
    and a row "1,2,," none. *)
Lemma trailing_columns : let t := setSplitFlag CTableFile_new [44] in
  (exists u, Parse 8 t (Some [97; 44; 98; 44; 44; 10; 49; 44; 50; 10]) = Some (u, Q_RTN_OK) /\ eof u = false /\
    getStringValue u [97] [63] = [63] /\ getStringValue u [98] [63] = [63]) /\
  (exists u, Parse 8 t (Some [97; 44; 98; 44; 44; 10; 49; 44; 50; 44; 44; 10]) = Some (u, Q_RTN_OK) /\
    getStringValue u [97] [63] = [49] /\ getStringValue u [98] [63] = [50]).
Proof. cbv zeta. split; eexists; repeat split. Qed.

(** A name of blanks is accepted, as the empty name: [checkHead] looks at it before it is
    trimmed. *)
Lemma blank_name : exists u, Parse 8 (setSplitFlag CTableFile_new [44]) (Some [97; 44; 32; 44; 98; 10]) = Some (u, Q_RTN_OK) /\
  m_mapTableHead u = [[97]; []; [98]].
Proof. eexists. split; reflexivity. Qed.

(** ** The claims *)

(** Every file can be read: [Parse] ends with a table whose names differ, whose rows have no
    name twice and none that is not in the line of names, and whose cursor stands at the first row;
    a failure leaves no row.  The cursor stays in the list, [eof] says whether it stands at the end,
    and there alone [nextRow] is undefined. *)
Theorem tables_well_formed SZ t file : exists u r, Parse SZ t file = Some (u, r) /\ table_ok u /\ m_itNowRow u = O /\
  (r = Q_RTN_OK \/ r = Q_RTN_FAILE /\ m_lstAllValue u = []) /\
  (forall v, table_ok v -> table_ok (reSet v) /\ (nextRow v = None <-> eof v = true) /\
     forall v', nextRow v = Some v' -> table_ok v').
Proof.
  assert (N : forall v, table_ok v -> table_ok (reSet v) /\ (nextRow v = None <-> eof v = true) /\
     forall v', nextRow v = Some v' -> table_ok v').
  { intros v Hv. pose proof Hv as [H1 H2 H3 H4]. split; [apply set_row_ok; auto; lia|]. unfold nextRow, eof. rewrite H4.
    destruct (Nat.eqb_spec (length (m_lstAllValue v)) (m_itNowRow v)); split; try discriminate; try (split; congruence).
    intros v' [= <-]. apply set_row_ok; auto. lia. }
  unfold Parse. cbv zeta. destruct file as [input|].
  - destruct (head_loop_total SZ (S (length input)) input (Clear t)) as (u & r & -> & R & Hn); [lia|apply Clear_reading|reflexivity|].
    cbn [obind]. destruct r as [[rest good]|].
    + destruct (rows_loop_total SZ (S (S (length rest))) rest good u) as (v & -> & [V _]); [lia|exact R|]. cbn [obind].
      exists (set_row v 0), Q_RTN_OK. splits; auto. apply set_row_ok; [exact V|lia].
    + exists u, Q_RTN_FAILE. destruct R as [R1 R2]. splits; auto. now rewrite R2, Hn.
  - exists (Clear t), Q_RTN_FAILE. splits; auto. apply Clear_reading.
Qed.

(** Claim C38: (QBase/TableFile.cpp, Parse and the cursor) a table written as a text file, a line of
    names and a line for each row with a separator between them, is read back: [Parse] succeeds;
    [nextRow] steps through the rows in order and [eof] turns true after the last; in each row
    [getStringValue] of a name gives the value of that column without the blanks around it, and the
    default where the row is too short. *)
Theorem Parse_reads_table SZ t c w names rows (HS : (SZ = 4 \/ SZ = 8)%nat) (Hf : m_strSplitFlag t = c :: w)
    (Hg : good_table c w names rows) :
  exists u, Parse SZ t (Some (table_text c w (names :: rows))) = Some (u, Q_RTN_OK) /\ m_mapTableHead u = names /\
    forall i, (i <= length rows)%nat -> exists v, nextRows i u = Some v /\ eof v = Nat.eqb (length rows) i /\
      forall j name d, nth_error names j = Some name ->
        getStringValue v name d =
        match nth_error rows i with
        | None => d
        | Some vals => match nth_error vals j with None => d | Some x => Q_Trim x end
        end.
Proof.
  destruct (Parse_table SZ HS c w t names rows Hf Hg) as (u & E & Eh & Er). exists (set_row u 0).
  split; [exact E|]. split; [exact Eh|]. assert (El : length (m_lstAllValue u) = length rows) by now rewrite Er, length_map.
  intros i Hi. exists (set_row u i). split; [now rewrite nextRows_set by lia|]. split; [cbn; now rewrite El|].
  intros j name d Hj. unfold getStringValue. cbn [m_lstAllValue m_itNowRow set_row]. rewrite Er, nth_error_map.
  destruct (nth_error rows i) as [vals|]; cbn [option_map]; [|reflexivity].
  unfold row_of. rewrite (map_find_combine names _ j name (gt_differ _ _ _ _ Hg) Hj), nth_error_map. now destruct (nth_error vals j).
Qed.

(** "name,age" with the rows "Xiao Ming, 20" and "Li". *)
Definition people : list (list (list Z)) := [[[88; 105; 97; 111; 32; 77; 105; 110; 103]; [32; 50; 48]]; [[76; 105]]].
Definition columns : list (list Z) := [[110; 97; 109; 101]; [97; 103; 101]].

Lemma people_table : good_table 44 [] columns people.
Proof.
  assert (T : forall s, Q_Trim s = s -> s <> [] -> blank (hd 0 s) = false /\ blank (last s 0) = false -> trimmed s).
  { intros s _ Hn [H1 H2]. split; intros c r ->; [exact H1|]. now rewrite last_last in H2. }
  assert (G : forall l, forallb (fun x => negb (existsb (Z.eqb x) [10; 0])) l = true -> (length l <=? 2046)%nat = true ->
    checkNote l = false -> good_line l).
  { intros l H1 H2 H3. split; [|split; [now apply Nat.leb_le|exact H3]]. apply Forall_forall. intros x Hx.
    rewrite forallb_forall in H1. apply negb_true_iff, H1, Hx. }
  split; unfold columns, people.
  - discriminate.
  - repeat constructor; try discriminate; try (apply T; [reflexivity|discriminate|split; reflexivity]); cbn; lia.
  - repeat constructor; cbn; intuition discriminate.
  - apply G; reflexivity.
  - repeat constructor; try (apply G; reflexivity); cbn; lia.
Qed.

Lemma Parse_reads_table_witness : exists u v,
  Parse 8 (setSplitFlag CTableFile_new [44]) (Some (table_text 44 [] (columns :: people))) = Some (u, Q_RTN_OK) /\
  nextRow u = Some v /\ getStringValue u [97; 103; 101] [] = [50; 48] /\ getStringValue v [97; 103; 101] [63] = [63] /\
  getIntValue u [97; 103; 101] 7 = 20 /\ m_mapTableHead u = columns.
Proof.
  destruct (Parse_reads_table 8 (setSplitFlag CTableFile_new [44]) 44 [] columns people (or_intror eq_refl) eq_refl people_table)
    as (u & E & Eh & H).
  destruct (H 0%nat ltac:(cbn; lia)) as (u0 & E0 & _ & H0). cbn in E0. injection E0 as <-.
  destruct (H 1%nat ltac:(cbn; lia)) as (v & E1 & _ & H1). cbn [nextRows] in E1.
  destruct (nextRow u) as [v'|] eqn:En; [|discriminate]. injection E1 as <-.
  exists u, v'. split; [exact E|]. split; [exact En|]. split; [exact (H0 1%nat _ [] eq_refl)|].
  split; [exact (H1 1%nat _ [63] eq_refl)|]. split; [|exact Eh].
  unfold getIntValue. rewrite (H0 1%nat _ [] eq_refl). reflexivity.
Defined.
