(* ===== verification/Explore.v ===== *)
(** * Explore: finite transition systems, explored by computation

    A step function over a finite list of labels; the list of reachable states is computed
    and checked to be closed, and the states from which a goal can be reached are computed
    backwards. *)

From S2P Require Import Prelude.
From stdpp Require Import base list.

Section Explore.
Context {S L : Type} `{!EqDecision S} (labels : list L) (step : L -> S -> option S).

(** A run: a list of labels that are enabled one after the other. *)
Fixpoint run_labels (ls : list L) (s : S) : option S :=
  match ls with [] => Some s | l :: r => match step l s with Some t => run_labels r t | None => None end end.

Definition reaches (s t : S) : Prop := exists ls, run_labels ls s = Some t.

Lemma reaches_refl s : reaches s s.
Proof. now exists []. Qed.

Lemma reaches_step l s t u : step l s = Some t -> reaches t u -> reaches s u.
Proof. intros E [ls H]. exists (l :: ls). cbn. now rewrite E. Qed.

Lemma reaches_trans s t u : reaches s t -> reaches t u -> reaches s u.
Proof.
  intros [ls H] R. revert s H. induction ls as [|l ls IH]; intros s; cbn; [now intros [= ->]|].
  destruct (step l s) as [v|] eqn:E; [|discriminate]. intros H. apply (reaches_step l s v); auto.
Qed.

(** What every step keeps. *)
Lemma reaches_invariant (P : S -> Prop) s t :
  (forall l u v, reaches s u -> P u -> step l u = Some v -> P v) -> P s -> reaches s t -> P t.
Proof.
  intros HP Hs [ls H]. assert (Rs : reaches s s) by apply reaches_refl. revert Rs Hs H. generalize s at 2 3 4 as u.
  induction ls as [|l ls IH]; intros u Ru Hu; cbn; [now intros [= <-]|].
  destruct (step l u) as [v|] eqn:E; [|discriminate]. apply IH; [|now apply (HP l u v)].
  apply (reaches_trans s u v Ru). apply (reaches_step l u v v E), reaches_refl.
Qed.

Definition succs (s : S) : list S := omap (fun l => step l s) labels.

(** The states found in [fuel] rounds from [todo]. *)
Fixpoint explore (fuel : nat) (todo seen : list S) : list S :=
  match fuel with
  | O => seen
  | Datatypes.S f =>
      match todo with
      | [] => seen
      | s :: r => if bool_decide (s ∈ seen) then explore f r seen else explore f (succs s ++ r) (s :: seen)
      end
  end.

Definition closed (l : list S) : bool := forallb (fun s => forallb (fun t => bool_decide (t ∈ l)) (succs s)) l.

Lemma closed_reaches l s t : (forall x, x ∈ labels) -> closed l = true -> s ∈ l -> reaches s t -> t ∈ l.
Proof.
  intros HL C Hs [ls H]. revert s Hs H. induction ls as [|a ls IH]; intros s Hs; cbn; [now intros [= <-]|].
  destruct (step a s) as [u|] eqn:E; [|discriminate]. intros H. apply (IH u); [|exact H].
  unfold closed in C. rewrite forallb_forall in C. specialize (C s (proj1 (list_elem_of_In _ _) Hs)).
  rewrite forallb_forall in C. apply (bool_decide_eq_true_1 (u ∈ l)), C, list_elem_of_In, list_elem_of_omap. eauto.
Qed.

(** A property checked on all the states that are found holds of every reachable state. *)
Lemma explored (fuel : nat) (s : S) (P : S -> bool) : (forall x, x ∈ labels) ->
  (let l := explore fuel [s] [] in bool_decide (s ∈ l) && closed l && forallb P l) = true ->
  forall t, reaches s t -> P t = true.
Proof.
  intros HL. cbv zeta. rewrite !andb_true_iff. intros [[Hs%bool_decide_eq_true C] A] t R.
  rewrite forallb_forall in A. apply A, list_elem_of_In. now apply (closed_reaches _ s).
Qed.

(** The states of [l] that reach the goal in [n] steps at most. *)
Fixpoint winning (n : nat) (goal : S -> bool) (l : list S) : list S :=
  match n with
  | O => List.filter goal l
  | Datatypes.S n =>
      let w := winning n goal l in
      List.filter (fun s => bool_decide (s ∈ w) || existsb (fun t => bool_decide (t ∈ w)) (succs s)) l
  end.

Lemma winning_reaches n goal l s : s ∈ winning n goal l -> exists t, reaches s t /\ goal t = true.
Proof.
  revert s. induction n as [|n IH]; intros s; cbn [winning]; rewrite list_elem_of_In, filter_In; intros [_ H].
  - exists s. split; [apply reaches_refl|exact H].
  - apply orb_true_iff in H as [H%bool_decide_eq_true|H]; [now apply IH|].
    apply existsb_exists in H as (t & Ht & H%bool_decide_eq_true). destruct (IH t H) as (u & R & G).
    apply list_elem_of_In, list_elem_of_omap in Ht as (a & _ & E). exists u. split; [now apply (reaches_step a s t)|exact G].
Qed.
End Explore.

(** A system with fewer steps reaches less. *)
Lemma reaches_mono {S L} (step step' : L -> S -> option S) s t :
  (forall l s t, step l s = Some t -> step' l s = Some t) -> reaches step s t -> reaches step' s t.
Proof.
  intros M [ls H]. exists ls. revert s H. induction ls as [|l ls IH]; intros s; cbn; [auto|].
  destruct (step l s) as [u|] eqn:E; [|discriminate]. rewrite (M _ _ _ E). apply IH.
Qed.
