(* ===== verification/SockPairEvent.v ===== *)
(** * SockPairEvent: event loops and how they are stopped (QBase/SockPairEvent.cpp,
    RunStatus.h, TimerTrigger.cpp)

    Two threads: one is in [Start], running the event loop, the other calls [Stop].  One step
    is one access to shared data or one callback of the loop, and the threads interleave at
    will.  (The accesses of a callback can be taken together: in between the other thread can
    only write [RUNSTATUS_STOPPING], which is overwritten or could have come after.)  Mutex
    and condition variable are those of POSIX without spurious wake-ups: a signal wakes a
    thread that waits and is lost when none does. *)

From S2P Require Import Prelude Explore.
From stdpp Require Import base list.

Inductive RunStatus :=
  | RUNSTATUS_UNKNOWN | RUNSTATUS_ERROR | RUNSTATUS_STARTING | RUNSTATUS_RUNING | RUNSTATUS_STOPPING | RUNSTATUS_STOPPED.

(** The classes with this protocol: [CSockPairEvent] with its own [onStop], its subclass
    [CWorkThreadEvent], whose [onStop] calls the application, which confirms by
    [CSessionManager::confirmStop], and [CTimerTrigger]. *)
Inductive service := SockPair | WorkThread | Trigger.

(** Where the thread in [Start] is. *)
Inductive looper :=
  | Begin | InitMain | InitAssist | InitTimer | InitExit | StartUp | SetRun
  | Dispatch             (* in [event_base_dispatch] *)
  | SetStopped | LockL | SignalL | UnlockL
  | Returned (bOk : bool).

(** Where the thread in [Stop] is. *)
Inductive stopper := Test | LockS | SetStopping | Wait | Waiting | Woken | UnlockS | Skipped | Stopped.

Inductive thread := Looper | Stopper.

Record Loop := {
  m_emStatus : RunStatus;
  m_bRunOnStop : bool;
  m_Mutex : option thread;
  start : looper;
  stop : stopper
}.

#[global] Instance service_eq_dec : EqDecision service.
Proof. solve_decision. Defined.
#[global] Instance RunStatus_eq_dec : EqDecision RunStatus.
Proof. solve_decision. Defined.
#[global] Instance looper_eq_dec : EqDecision looper.
Proof. solve_decision. Defined.
#[global] Instance stopper_eq_dec : EqDecision stopper.
Proof. solve_decision. Defined.
#[global] Instance thread_eq_dec : EqDecision thread.
Proof. solve_decision. Defined.
#[global] Instance Loop_eq_dec : EqDecision Loop.
Proof. solve_decision. Defined.

Definition Loop_new : Loop :=
  {| m_emStatus := RUNSTATUS_UNKNOWN; m_bRunOnStop := false; m_Mutex := None; start := Begin; stop := Test |}.

Definition setRunStatus (s : Loop) (emStatus : RunStatus) : Loop :=
  {| m_emStatus := emStatus; m_bRunOnStop := m_bRunOnStop s; m_Mutex := m_Mutex s; start := start s; stop := stop s |}.
Definition setRunOnStop (s : Loop) (bRun : bool) : Loop :=
  {| m_emStatus := m_emStatus s; m_bRunOnStop := bRun; m_Mutex := m_Mutex s; start := start s; stop := stop s |}.
Definition set_mutex (s : Loop) (m : option thread) : Loop :=
  {| m_emStatus := m_emStatus s; m_bRunOnStop := m_bRunOnStop s; m_Mutex := m; start := start s; stop := stop s |}.
Definition set_start (s : Loop) (p : looper) : Loop :=
  {| m_emStatus := m_emStatus s; m_bRunOnStop := m_bRunOnStop s; m_Mutex := m_Mutex s; start := p; stop := stop s |}.
Definition set_stop (s : Loop) (p : stopper) : Loop :=
  {| m_emStatus := m_emStatus s; m_bRunOnStop := m_bRunOnStop s; m_Mutex := m_Mutex s; start := start s; stop := p |}.

Definition getIsRun (s : Loop) : bool := bool_decide (m_emStatus s = RUNSTATUS_RUNING).
Definition getError (s : Loop) : bool := bool_decide (m_emStatus s = RUNSTATUS_ERROR).

(** One pass of [waitForStarted]: [None] while it goes on. *)
Definition waitForStarted (s : Loop) : option bool :=
  if getIsRun s then Some true else if getError s then Some false else None.

Definition Lock (s : Loop) (t : thread) : option Loop :=
  match m_Mutex s with None => Some (set_mutex s (Some t)) | Some _ => None end.

Definition Signal (s : Loop) : Loop := match stop s with Waiting => set_stop s Woken | _ => s end.

(** [Start] from the end of [event_base_dispatch] on, in both classes. *)
Definition Start_end (s : Loop) : option Loop :=
  match start s with
  | SetStopped => Some (set_start (setRunStatus s RUNSTATUS_STOPPED) LockL)
  | LockL => option_map (fun s => set_start s SignalL) (Lock s Looper)
  | SignalL => Some (set_start (Signal s) UnlockL)
  | UnlockL => Some (set_start (set_mutex s None) (Returned true))
  | _ => None
  end.

Definition start_error (s : Loop) (bOk : bool) : option Loop :=
  Some (set_start (setRunStatus s RUNSTATUS_ERROR) (Returned bOk)).

(** [CSockPairEvent::Start] up to the next shared access; [ok] is the outcome of the step. *)
Definition Start (ok : bool) (s : Loop) : option Loop :=
  let init next := if ok then Some (set_start s next) else start_error s false in
  match start s with
  | Begin => Some (set_start (setRunStatus s RUNSTATUS_STARTING) InitMain)
  | InitMain => init InitAssist
  | InitAssist => init InitTimer
  | InitTimer => init InitExit
  | InitExit => init StartUp
  | StartUp => if ok then Some (set_start s SetRun) else start_error s true
  | SetRun => Some (set_start (setRunStatus s RUNSTATUS_RUNING) Dispatch)
  | _ => Start_end s
  end.

Definition CTimerTrigger_Start (ok : bool) (s : Loop) : option Loop :=
  match start s with
  | Begin => Some (set_start (setRunStatus s RUNSTATUS_STARTING) InitExit)
  | InitExit => if ok then Some (set_start s SetRun) else start_error s false
  | SetRun => Some (set_start (setRunStatus s RUNSTATUS_RUNING) Dispatch)
  | _ => Start_end s
  end.

(** [CSockPairEvent::onStop] and [CWorkThreadEvent::onStop]. *)
Definition CSockPairEvent_onStop (s : Loop) : Loop := setRunStatus s RUNSTATUS_STOPPED.
Definition CWorkThreadEvent_onStop (s : Loop) : Loop := s.

(** The timer of the exit monitor; [event_base_loopbreak] ends [event_base_dispatch] when the
    callback returns. *)
Definition exitMonitorCB (onStop : Loop -> Loop) (s : Loop) : Loop :=
  match m_emStatus s with
  | RUNSTATUS_STOPPING => if m_bRunOnStop s then s else setRunOnStop (onStop s) true
  | RUNSTATUS_STOPPED => set_start s SetStopped
  | _ => s
  end.

Definition CTimerTrigger_exitMonitorCB (s : Loop) : Loop :=
  match m_emStatus s with
  | RUNSTATUS_STOPPING => setRunStatus s RUNSTATUS_STOPPED
  | RUNSTATUS_STOPPED => set_start s SetStopped
  | _ => s
  end.

(** An event of a socket of the pairs that is neither a time-out nor [EAGAIN]. *)
Definition eventCB (s : Loop) : Loop := setRunStatus s RUNSTATUS_STOPPING.

Definition confirmStop (s : Loop) : Loop := setRunStatus s RUNSTATUS_STOPPED.

(** [Stop], the same in both classes. *)
Definition Stop (s : Loop) : option Loop :=
  match stop s with
  | Test => Some (set_stop s (if getIsRun s then LockS else Skipped))
  | LockS => option_map (fun s => set_stop s SetStopping) (Lock s Stopper)
  | SetStopping => Some (set_stop (setRunStatus s RUNSTATUS_STOPPING) Wait)
  | Wait => Some (set_stop (set_mutex s None) Waiting)
  | Waiting => None
  | Woken => option_map (fun s => set_stop s UnlockS) (Lock s Stopper)
  | UnlockS => Some (set_stop (set_mutex s None) Stopped)
  | Skipped | Stopped => None
  end.

Inductive label :=
  | LStart (ok : bool)   (* the thread in [Start] *)
  | LMonitor             (* the loop calls [exitMonitorCB] *)
  | LEvent               (* the loop calls [eventCB] *)
  | LConfirm             (* the application calls [confirmStop] *)
  | LBroken              (* [event_base_dispatch] fails *)
  | LStop.               (* the thread in [Stop] *)

Definition labels : list label := [LStart true; LStart false; LMonitor; LEvent; LConfirm; LBroken; LStop].

Section Service.
Context (k : service).

(** A callback of the loop, while it is in [event_base_dispatch]. *)
Definition callback (l : label) (s : Loop) : option Loop :=
  match k, l with
  | SockPair, LMonitor => Some (exitMonitorCB CSockPairEvent_onStop s)
  | WorkThread, LMonitor => Some (exitMonitorCB CWorkThreadEvent_onStop s)
  | Trigger, LMonitor => Some (CTimerTrigger_exitMonitorCB s)
  | (SockPair | WorkThread), LEvent => Some (eventCB s)
  | WorkThread, LConfirm => Some (confirmStop s)
  | _, LBroken => Some (set_start s SetStopped)
  | _, _ => None
  end.

Definition step (l : label) (s : Loop) : option Loop :=
  match l with
  | LStart ok => match k with Trigger => CTimerTrigger_Start ok s | _ => Start ok s end
  | LStop => Stop s
  | _ => match start s with Dispatch => callback l s | _ => None end
  end.

(** Without errors of the sockets and of the loop. *)
Definition quiet_step (l : label) (s : Loop) : option Loop :=
  match l with LEvent | LBroken => None | _ => step l s end.

(** And with an application that confirms the stop only after it was told of it. *)
Definition calm_step (l : label) (s : Loop) : option Loop :=
  match l with
  | LConfirm => if m_bRunOnStop s then quiet_step l s else None
  | _ => quiet_step l s
  end.
End Service.

(** ** The states of the protocol *)

(** [Stop] has found the loop running. *)
Definition past (s : Loop) : bool := match stop s with Test | Skipped => false | _ => true end.
(** It has been woken, or has returned after that. *)
Definition woken (s : Loop) : bool := match stop s with Woken | UnlockS | Stopped => true | _ => false end.
Definition both_done (s : Loop) : bool := match stop s, start s with Stopped, Returned true => true | _, _ => false end.
(** [event_base_dispatch] has returned and the signal was given. *)
Definition signalled (s : Loop) : bool := match start s with UnlockL | Returned true => true | _ => false end.

(** [Stop] will wait for ever: it is on its way to wait when the signal is given or is about to
    be, or waits after it was given to nobody; or, with the base class's [onStop], the loop
    has been told to stop once, will not listen again, and the status has been set back. *)
Definition hung (k : service) (s : Loop) : bool :=
  match stop s with
  | LockS | SetStopping | Wait | Waiting =>
      match start s with
      | SignalL => negb (bool_decide (stop s = Waiting))
      | UnlockL | Returned _ => true
      | Dispatch => bool_decide (k = SockPair) && m_bRunOnStop s && bool_decide (m_emStatus s = RUNSTATUS_STOPPING)
      | _ => false
      end
  | _ => false
  end.

Lemma all_labels x : x ∈ labels.
Proof. apply list_elem_of_In. destruct x as [[]| | | | |]; cbn; tauto. Qed.

Lemma quiet_step_step k l s t : quiet_step k l s = Some t -> step k l s = Some t.
Proof. destruct l; auto; discriminate. Qed.

Lemma calm_step_step k l s t : calm_step k l s = Some t -> step k l s = Some t.
Proof. destruct l; auto; try discriminate. cbn [calm_step]. destruct (m_bRunOnStop s); [apply quiet_step_step|discriminate]. Qed.

(** The reachable states, with those from which both threads can end. *)
Definition states (k : service) : list Loop := explore labels (step k) 1000 [Loop_new] [].
Definition can_end (k : service) : list Loop := winning labels (quiet_step k) 16 both_done (states k).

Definition state_ok (k : service) (w : list Loop) (s : Loop) : bool :=
  implb (woken s) (signalled s)
  && match m_Mutex s with
     | Some Looper => bool_decide (start s = SignalL) || bool_decide (start s = UnlockL)
     | Some Stopper => bool_decide (stop s = SetStopping) || bool_decide (stop s = Wait) || bool_decide (stop s = UnlockS)
     | None => true
     end
  && (negb (past s) || hung k s || bool_decide (s ∈ w))
  && (negb (hung k s) || negb (both_done s) && forallb (hung k) (succs labels (quiet_step k) s)).

Lemma states_ok k s : reaches (step k) Loop_new s -> state_ok k (can_end k) s = true.
Proof.
  apply (explored labels (step k) 1000 Loop_new (state_ok k (can_end k)) all_labels). destruct k; vm_compute; reflexivity.
Qed.

Lemma calm_ok k s : reaches (calm_step k) Loop_new s -> negb (past s) || negb (hung k s) = true.
Proof.
  apply (explored labels (calm_step k) 1000 Loop_new (fun s => negb (past s) || negb (hung k s)) all_labels).
  destruct k; vm_compute; reflexivity.
Qed.

(** What the check says of a state, whatever the list [w]. *)
Lemma state_ok_spec k w s : state_ok k w s = true ->
  (woken s = true -> signalled s = true) /\
  (m_Mutex s = Some Looper -> start s = SignalL \/ start s = UnlockL) /\
  (m_Mutex s = Some Stopper -> stop s = SetStopping \/ stop s = Wait \/ stop s = UnlockS) /\
  (past s = true -> hung k s = false -> s ∈ w) /\
  (hung k s = true -> both_done s = false /\ forall l t, quiet_step k l s = Some t -> hung k t = true).
Proof.
  unfold state_ok. rewrite !andb_true_iff. intros [[[O1 O2] O3] O4]. splits.
  - intros W. now rewrite W in O1.
  - intros M. rewrite M in O2. apply orb_true_iff in O2 as [O2|O2]; apply bool_decide_eq_true in O2; auto.
  - intros M. rewrite M in O2. rewrite !orb_true_iff, !bool_decide_eq_true in O2. tauto.
  - intros P H. rewrite P, H in O3. now apply bool_decide_eq_true in O3.
  - intros H. rewrite H in O4. cbn [negb orb] in O4. apply andb_true_iff in O4 as [O4 O5]. split; [now apply negb_true_iff|].
    intros l t E. rewrite forallb_forall in O5. apply O5, list_elem_of_In, list_elem_of_omap. exists l. split; [apply all_labels|exact E].
Qed.

Lemma can_end_reaches k s : s ∈ can_end k -> exists t, reaches (quiet_step k) s t /\ both_done t = true.
Proof. unfold can_end. generalize (states k). intros l. apply winning_reaches. Qed.

Lemma hung_stays k s t : reaches (step k) Loop_new s -> hung k s = true -> reaches (quiet_step k) s t -> hung k t = true.
Proof.
  intros R. apply (reaches_invariant (quiet_step k) (fun s => hung k s = true)). intros l u v Ru Hu E.
  assert (Rn : reaches (step k) Loop_new u).
  { apply (reaches_trans _ _ s); [exact R|]. apply (reaches_mono (quiet_step k)); [apply quiet_step_step|exact Ru]. }
  destruct (state_ok_spec k _ u (states_ok k u Rn)) as (_ & _ & _ & _ & O). exact (proj2 (O Hu) l v E).
Qed.

(** ** The claim *)

(** Claim C25: (QBase/SockPairEvent.cpp, RunStatus.h, TimerTrigger.cpp: Start, Stop, exitMonitorCB, eventCB)
    under every interleaving: when [Stop] has been woken the event loop has ended and given its
    signal, and only the thread between [Lock] and [unLock] holds the mutex; when [Stop] has found
    the loop running, both threads can still come to their end, without further errors, exactly
    when the state is not one of [hung]; and none of these is reached while sockets and loop have
    no error and the application confirms a stop only after it was told of it. *)
Theorem Stop_protocol (k : service) :
  (forall s, reaches (step k) Loop_new s ->
     (woken s = true -> signalled s = true) /\
     (m_Mutex s = Some Looper -> start s = SignalL \/ start s = UnlockL) /\
     (m_Mutex s = Some Stopper -> stop s = SetStopping \/ stop s = Wait \/ stop s = UnlockS) /\
     (past s = true -> (exists t, reaches (quiet_step k) s t /\ both_done t = true) <-> hung k s = false)) /\
  (forall s, reaches (calm_step k) Loop_new s -> past s = true -> hung k s = false).
Proof.
  split.
  - intros s R. destruct (state_ok_spec k _ s (states_ok k s R)) as (O1 & O2 & O3 & O4 & _). splits; auto.
    intros P. split.
    + intros (t & Rt & D). destruct (hung k s) eqn:H; [|reflexivity]. pose proof (hung_stays k s t R H Rt) as Ht.
      clear - Ht D. unfold hung, both_done in *. destruct (stop t); discriminate.
    + intros H. exact (can_end_reaches k s (O4 P H)).
  - intros s R P. pose proof (calm_ok k s R) as O. rewrite P in O. now apply negb_true_iff.
Qed.

(** A socket of the pairs fails while [Stop] is between its test and its lock: the loop ends on
    its own and gives its signal before [Stop] waits. *)
Definition lost_signal : list label :=
  repeat (LStart true) 7 ++ [LStop; LEvent; LMonitor; LMonitor] ++ repeat (LStart true) 4 ++ repeat LStop 3.

Lemma Stop_protocol_witness : exists s, run_labels (step SockPair) lost_signal Loop_new = Some s /\
  stop s = Waiting /\ start s = Returned true /\ ~ exists t, reaches (quiet_step SockPair) s t /\ both_done t = true.
Proof.
  eexists. split; [reflexivity|]. split; [reflexivity|]. split; [reflexivity|].
  match goal with |- ~ exists t, reaches _ ?u t /\ _ => set (s := u) end.
  assert (R : reaches (step SockPair) Loop_new s) by (exists lost_signal; reflexivity).
  intros H. pose proof (proj1 (proj2 (proj2 (proj2 (proj1 (Stop_protocol SockPair) s R))) eq_refl) H) as E. discriminate.
Defined.

(** The loop has been told to stop by an error and has called [onStop]; [Stop], which has
    found it running before, sets the status back: the monitor does nothing any more, and the
    loop runs on. *)
Lemma Stop_set_back : exists s,
  run_labels (step SockPair) (repeat (LStart true) 7 ++ [LStop; LEvent; LMonitor; LStop; LStop; LStop]) Loop_new = Some s /\
  start s = Dispatch /\ stop s = Waiting /\ hung SockPair s = true.
Proof. eexists. split; [reflexivity|]. repeat split. Qed.

(** [Stop] returns at once, with the loop still running, when the loop has just been told to
    stop by an error. *)
Lemma Stop_skips : exists s, run_labels (step WorkThread) (repeat (LStart true) 7 ++ [LEvent; LStop]) Loop_new = Some s /\
  start s = Dispatch /\ stop s = Skipped.
Proof. eexists. split; [reflexivity|]. repeat split. Qed.

(** When the application refuses to start, [Start] says that all went well. *)
Lemma Start_refused : exists s, run_labels (step WorkThread) (repeat (LStart true) 5 ++ [LStart false]) Loop_new = Some s /\
  start s = Returned true /\ getError s = true /\ waitForStarted s = Some false.
Proof. eexists. split; [reflexivity|]. repeat split. Qed.
